(* ===== verification/_CoqProject ===== *)
-Q . S2P
Prelude.v
JsString.v
JsValue.v
Json.v
JsonText.v
RequestInput.v
Pagination.v
Effects.v
Errors.v
Auth.v
DeviceContext.v
AdminGate.v
Idempotency.v
RateLimits.v
Alerts.v
DbClient.v
Prisma.v
Dates.v
AuditChain.v
Webhooks.v
JobHeartbeat.v
Money.v
FeeComputation.v
LossAllocation.v
MediatorQuorum.v
DeadlineExtension.v
DeadlineContract.v
Disputes.v
PayoutIntent.v
CircuitBreaker.v
SimpleBreaker.v
Retry.v
EventHandlers.v
AuditTrail.v
Optimistic.v
DisputeStore.v
OfflineCache.v
FeatureFlags.v
TradeDeadline.v
Wallet.v
BulkImport.v
ErrorMapping.v
AuthHelper.v
Middleware.v
Encryption.v
Manifest.v
Evidence.v
EscrowRelease.v
EventDecoder.v
EventListener.v
Trades.v
TradeLifecycle.v
Outbox.v
Streams.v
Reconciliation.v
StreamClawback.v
AdminStreams.v
AppRoutes.v
JsText.v
Double.v
Health.v
FeeEstimator.v
ContractTx.v
TradeController.v
Assets.v
DeepLinks.v
MobileErrors.v
MobileTrades.v
Orphans.v
Reputation.v
Regex.v
Redaction.v
Shutdown.v
Savings.v
Users.v
Categories.v
Quotes.v
Treasury.v
