(* ===== verification/Prelude.v ===== *)
(** * A verification of the EliteWork escrow platform

    The program is the off-chain half of an agricultural escrow platform: a
    Soroban contract holds the funds ([contracts/amana_escrow]), the TypeScript
    backend ([backend/src]) computes amounts, mirrors the trades and disputes of
    the contract in a database, authenticates wallets and runs the
    administrative and payout workflows, and a web client ([frontend/src]) and a
    telephone ([mobile/src]) show them. This library models the core logic of the
    three as executable functions and proves what makes it correct. Paths below are
    relative to [src/backend/src] unless they begin with [frontend] or [mobile].

    ** How the parts interact

    A wallet signs a challenge and gets a token ([services/auth.service.ts]);
    every request passes the gates built on it ([middleware/admin.middleware.ts],
    rate limits, idempotency keys). Trades are created, listed and disputed
    ([services/trade.service.ts]); the contract emits events, which
    [services/eventListener.service.ts] polls through a circuit breaker, decodes
    ([lib/eventDecoder.ts]) and applies once each to the trade and dispute tables
    ([services/eventHandlers.ts]). Amounts are converted, rounded and split by
    [lib/money.ts], [lib/feeComputation.ts] and [lib/lossAllocation.ts], which
    must agree with the contract. Mediators vote, deadlines are extended, disputes
    move through their statuses, payouts are guarded against double submission,
    and administrators lock, terminate, claw back and reconcile payment streams.
    Scheduled jobs expire trades, scan the outbox, reconcile balances and beat.
    Every admin action is written to a hash chain. The client keeps optimistic
    copies of trades, an offline cache, feature flags and a wallet connection,
    and shows the errors the backend raises.

    ** Files

    Foundations.
    - [Prelude]: the error monad, tactics ([zb], [case_ifs], [inv_ok]), sums,
      stable sorting ([Array.prototype.sort]) and JavaScript numbers.
    - [JsString], [JsValue]: string operations, BigInt parsing and printing;
      values of unknown shape with [String(v)] and [Number(v)], the latter with
      rounding to doubles. [JsText]: capitals and URI components with their
      round trip. [Double]: arithmetic on doubles, rounded. [Regex]: regular
      expressions by backtracking. [Json], [JsonText]: [JSON.parse], base64url, and
      [JSON.stringify] with their round trip. [Dates]: [toISOString].
    - [Prisma]: a database table as a class of operations with laws ([Table],
      [TableLaws]); every service is proved against the laws, and a finite map
      satisfies them. [Effects]: round trips to Redis that can be slow, fail and
      be interfered with, over a key-value interface ([Kv], [KvLaws]).
    - [Errors]: [errors/errorCodes.ts]. [Pagination]: [lib/cursorPagination.ts].

    Access.
    - [Auth]: [services/auth.service.ts]. [AdminGate]:
      [middleware/admin.middleware.ts] with [services/adminSession.service.ts],
      [lib/jwtClaims.ts] and [lib/accessControl.ts]. [DeviceContext]:
      [lib/deviceContext.ts].
    - [Users]: [services/user.service.ts] with its controller and schema.
    - [AuthHelper], [Middleware]: [lib/authHelper.ts] with the bearer middleware;
      the admin feature gate, CSRF, API versions, trace ids, timeouts, cooperative
      access ([lib/cooperativeAccess.ts]) and CORS.
    - [RequestInput]: [middleware/validateRequest.ts] and
      [middleware/sanitize.middleware.ts]. [AppRoutes]: the order of routers and
      guards in [app.ts].
    - [Idempotency], [RateLimits]: [middleware/idempotency.ts],
      [middleware/adminQuota.middleware.ts], [lib/rateLimit.ts].

    Money and decisions.
    - [Money], [FeeComputation], [LossAllocation]: [lib/money.ts] with
      [schemas/money.schemas.ts], [lib/feeComputation.ts],
      [lib/lossAllocation.ts]. The [Contract] modules of [FeeComputation] and
      [MediatorQuorum] translate the arithmetic of the contract's [lib.rs] they
      are compared with, [DeadlineContract] its deadline extensions.
    - [MediatorQuorum], [DeadlineExtension], [Disputes], [PayoutIntent]: the
      services of these names, [Disputes] with [services/disputeTransitions.ts].

    Trades and events.
    - [Trades], [TradeLifecycle]: [services/trade.service.ts] with the watchlist;
      [services/tradeExpiry.service.ts] and the admin batch route.
    - [ContractTx], [TradeController]: the transaction builders of
      [services/contract.service.ts], and the handlers of
      [controllers/trade.controller.ts] composed of them and of [Trades].
    - [FeeEstimator], [Orphans], [Reputation], [Savings]: the services of these names,
      with [routes/admin.orphan.routes.ts] and [routes/goals.routes.ts].
    - [Categories], [Quotes], [Treasury]: [services/disputeCategory.service.ts],
      [services/quoteCache.service.ts] with [services/pathPayment.service.ts], and
      [services/treasury.service.ts], with their controllers, routes and schemas.
    - [CircuitBreaker], [SimpleBreaker], [Retry]: [lib/circuitBreaker.ts],
      [lib/circuit-breaker.ts], [lib/retry.ts].
    - [EventHandlers], [EventDecoder], [EventListener]:
      [services/eventHandlers.ts] with [types/events.ts], [lib/eventDecoder.ts]
      with the generated topic table, [services/eventListener.service.ts].
    - [Outbox]: [lib/outbox/] with its worker and replay route.
    - [Streams], [StreamClawback], [AdminStreams]: the stream services, the clawback
      lock, and the admin routes over both with the listing, the state cache
      ([services/streamCache.service.ts]) and the failure monitor.
    - [EscrowRelease]: release schedules and milestone releases
      ([routes/escrow.schedule.routes.ts], [routes/escrow.release.routes.ts]).

    Documents of a trade.
    - [Encryption]: [services/encryption.service.ts], the notes of a trade and the
      rotation of its keys. [Manifest], [Evidence]: [services/manifest.service.ts],
      [services/evidence.service.ts] and [services/trade.evidence.service.ts] with
      their routes and the IPFS gateways.

    Operations.
    - [DbClient], [AuditChain], [AuditTrail]: the client hooks of [lib/db.ts], the
      hash chain of admin actions with [services/adminAudit.service.ts], and the
      signed trade histories of [services/auditTrail.service.ts].
    - [Alerts], [JobHeartbeat], [Reconciliation]: [services/alert.service.ts],
      [services/jobHeartbeat.service.ts] and [services/dailyReconciliation.service.ts].
    - [Health], [Shutdown]: [services/health.service.ts] with its routes, and
      [lib/shutdown.ts] as [index.ts] uses it.
    - [Redaction]: [lib/logRedaction.ts], the log sample and its scanner
      ([lib/piiLeakScanner.ts], [jobs/workers/piiLogScanner.worker.ts]).
    - [Webhooks]: signed callbacks ([middleware/webhookSignature.middleware.ts] and
      the inbound route), subscriptions and their deliveries.
    - [FeatureFlags]: [services/feature-flags.service.ts], its routes and
      [frontend/src/lib/featureFlags.ts].
    - [ErrorMapping]: the error converters and middleware, and what
      [frontend/src/lib/errorHandler.ts] makes of their answers.

    The web client ([frontend/src]).
    - [Optimistic], [DisputeStore]: [stores/tradeStore.ts], [stores/disputeStore.ts]
      and [lib/actionDedup.ts].
    - [OfflineCache]: [lib/offlineCache.ts] and [hooks/useCachedTrades.ts].
    - [TradeDeadline], [BulkImport]: [lib/tradeDeadline.ts], [lib/bulkImport.ts].
    - [Wallet]: [lib/wallet/state-machine.ts] and [hooks/useFreighterIdentity.ts].
    - [Assets]: [lib/stellar/assets.ts] and [hooks/useCurrencyInput.ts].

    The telephone ([mobile/src]).
    - [DeepLinks]: [constants/links.ts] and [hooks/useDeepLink.ts].
    - [MobileErrors]: [api/adminErrorMap.ts], [api/errors.ts] and
      [api/errorInterceptor.ts]. [MobileTrades]: [stores/tradeStore.ts] and the taps of
      a status change.

    ** How code becomes definitions

    A pure function is a function. A function that throws returns [result E A]:
    the first error wins. A [bigint] is a [Z]; a contract integer is a [Z] with
    its i128 or u32 bound written out; a [number] that a guard may reject is a
    [jsnum]. A service method takes the tables it touches and returns the tables
    it leaves behind, also when it throws outside a transaction. What other
    requests commit between a read and a write is an argument ([between],
    [other]), as are clocks, random draws, signers, the RPC and hashing. Where
    requests overlap, each is cut at its awaits and a run is a list of steps.
    Logs are kept where they are audit records or notifications.

    ** What the theorems show

    - Access: a token is accepted only if the JWT library verified it then, also
      when Redis fails; bulk revocation is final; of requests one after the other
      a token is refreshed once and guesses are bounded (overlapping ones can do
      more, as proved); the admin gate admits exactly the admitted sessions; a
      key runs its handler successfully at most once; quotas bound every period. A bearer token
      is accepted exactly as the token service says, every other case has its
      status; sanitised texts carry no markup and still show the input.
    - Webhooks: the guard admits exactly the authentic requests, a captured
      signature is good for nothing else, deliveries are retried a bounded number of
      times (the documentation has none) and reach every subscriber, only owners
      delete.
    - Money: every rounding policy is exact with its residual, accrued dust is
      never lost, decimals round-trip; fee breakdowns conserve the escrowed
      amount, stay within it and agree with the contract; loss shares are those of
      the largest-remainder method.
    - Voting, deadlines, disputes: the backend's tally leader is the contract's
      plurality; its evaluation of a deadline extension is the contract's, assertion by
      assertion, in every state the contract reaches; resolutions follow their rules;
      transitions are forward only and of two racing ones exactly one wins.
    - Payouts: until its intent is marked failed no key is authorised twice and none
      gets two transactions, nor, unless clients name their own keys, does a payout; what
      happens to failed keys, against the documentation, is in
      [PayoutIntent.failed_key_not_retryable]. Schedules are replaced as a whole,
      milestones released exactly when they are due and their key is free.
    - Documents: rotation moves every text the service wrote to the new key, manifests are read back by role
      and age, evidence is listed and streamed from the gateways in order.
    - Trades: a trade is created exactly for a valid caller and row, a bulk request
      is its rows sent one by one, transactions are built only for those they are meant
      for, bumped fees stay below their cap, orphans are recorded once, quotes are served for their own request and no longer
      than they live, categories keep distinct names and disputes find them by those;
      a user is found or created once under any race; disputes are opened under exactly their conditions, batches move
      trades along allowed transitions by the version they read, expiry sweeps reach
      every overdue trade in turn, following cursors visits everything once.
    - Events: no event is committed twice or, with the handlers of the code base,
      silently dropped; redelivery
      changes nothing, trades only move forward along their lifecycle end to
      end, retries are bounded. [EventListener] is proved against an interface
      ([SafeHandler]) that [EventHandlers] discharges, and its last theorems are
      stated for that handler.
    - Resilience: breakers are well formed under every interleaving, refuse
      exactly during the cool-down, and the two implementations admit the same
      calls when configured alike; the retry loop terminates and its delays are
      bounded.
    - Streams: termination is final and recorded once when requests do not
      overlap; reconciliation decides consistency; the awaited clawback lock is
      exclusive; the pages of the listing show every stream once, the cache serves
      only what was read after the last invalidation, and failure alerts are bounded.
    - Audit: what is written verifies, tampering is evident up to a collision of
      the digest, the signed text determines the history, and histories are
      redacted by caller and age.
    - Operations: a pod is ready or healthy exactly when its dependencies answer in
      time, a shutdown ends and stops a prefix of its steps, logged records are
      redacted to a depth and what the scanner then finds is characterised.
    - Client: what is shown reads back as the same amount (in locales without points
      between digits), links lead back to their
      screen and never past the sign-in, every failure has a view; optimistic lists refine the confirmed ones, the cache reads back
      what it wrote within its quota, at most one flag request is under way, only
      the latest wallet operation is shown, imports round-trip, and a backend
      error keeps its status, message and code.

    Theorems that describe a divergence between the code and its documentation
    or purpose say so in their comment (for example
    [EventDecoder.single_topic_loses_trade],
    [EventHandlers.unmoved_statuses], [PayoutIntent.failed_key_not_retryable],
    [StreamClawback.acquire_not_exclusive]).

    ** Fuel and bounds

    The loop of [retryAsync] runs with fuel [maxRetries + 1], and
    [Retry.retryAsync_total] shows it always settles within it. [JSON_parse] runs
    with fuel twice the length of the text and one more, enough because every
    step consumes a character or descends once between two; the round trip of
    [JsonText] proves it for every text the code writes. [Pagination.walk] has
    fuel one more than the number of rows, which [Pagination.walk_complete] shows
    to be enough. The eviction loop of the offline cache is bounded by a hundred
    attempts in the code itself. Strings are Latin-1; ledger numbers, times and
    delays are below 2^53 where a double would round.

    ** What is not modelled, and what comes next

    Not modelled: the React and React Native components (layout and event wiring
    around the modelled hooks and stores), the clients of Horizon, IPFS, Redis and
    the queues and the metrics registry (calls of third-party libraries, which are
    parameters here), Express routing and HTTP parsing apart from the order of
    [app.ts], generated types, tests and scripts. Of the services, trade templates,
    analytics, receipts, privacy requests and notifications are not modelled, nor are
    the remaining stores of the two clients; they would come next. *)

From stdpp Require Export base tactics option list numbers strings gmap sorting.
From Stdlib Require Export ZArith Lia Ascii String.
From stdpp Require Export strings list.

#[global] Open Scope Z_scope.

(** ** Results

    A TypeScript function that may [throw] is a Rocq function into
    [result E A]; an [async] function that may reject is modelled the same way.
    The stdpp notation [x ← m; k] sequences calls: the first error wins, as an
    uncaught exception does. *)

Inductive result (E A : Type) : Type :=
| Ok (a : A)
| Err (e : E).
Arguments Ok {E A} a.
Arguments Err {E A} e.

#[global] Instance result_ret E : MRet (result E) := fun A a => Ok a.
#[global] Instance result_bind E : MBind (result E) := fun A B f m =>
  match m with Ok a => f a | Err e => Err e end.

(** [if (cond) throw err;] *)
Definition throwIf {E} (cond : bool) (err : E) : result E unit :=
  if cond then Err err else Ok tt.

Definition isOk {E A} (r : result E A) : bool :=
  match r with Ok _ => true | Err _ => false end.

(** [try { return m } catch (e) { return h(e) }] *)
Definition catch {E F A} (m : result E A) (h : E → result F A) : result F A :=
  match m with Ok a => Ok a | Err e => h e end.

Lemma throwIf_Ok {E} c (e : E) u : throwIf c e = Ok u ↔ c = false.
Proof. unfold throwIf. destruct u, c; naive_solver. Qed.

Lemma throwIf_Err {E} c (e e' : E) : throwIf c e = Err e' ↔ c = true ∧ e = e'.
Proof. unfold throwIf. destruct c; naive_solver. Qed.

Lemma bind_Ok {E A B} (m : result E A) (f : A → result E B) b :
  (m ≫= f) = Ok b ↔ ∃ a, m = Ok a ∧ f a = Ok b.
Proof. destruct m; cbn; naive_solver. Qed.

Lemma bind_Err {E A B} (m : result E A) (f : A → result E B) e :
  (m ≫= f) = Err e ↔ m = Err e ∨ ∃ a, m = Ok a ∧ f a = Err e.
Proof. destruct m; cbn; naive_solver. Qed.

Lemma isOk_true {E A} (r : result E A) : isOk r = true ↔ ∃ a, r = Ok a.
Proof. destruct r; naive_solver. Qed.

(** ** Automation

    [zb] turns the boolean comparisons of the code into propositions, in the
    hypotheses and in the goal; [case_ifs] splits every conditional of the
    goal; [inv_ok] inverts a run that succeeded. *)

Create HintDb ts.
Create Rewrite HintDb ts_bool.
#[export] Hint Rewrite Z.leb_le Z.ltb_lt Z.eqb_eq Z.leb_gt Z.ltb_ge Z.eqb_neq
  andb_true_iff orb_true_iff negb_true_iff andb_false_iff orb_false_iff
  negb_false_iff bool_decide_eq_true bool_decide_eq_false : ts_bool.

(** Evaluate the decisions of closed facts. *)
Ltac decide_bools := repeat ((rewrite bool_decide_false by done) || (rewrite bool_decide_true by done)).

Ltac zb := autorewrite with ts_bool in *.

Ltac case_ifs :=
  repeat match goal with
  | |- context [if ?c then _ else _] => let H := fresh "Hc" in destruct c eqn:H
  end.

Ltac case_ifs_in H :=
  repeat match type of H with
  | context [if ?c then _ else _] => let Hc := fresh "Hc" in destruct c eqn:Hc
  end.

Ltac inv_ok :=
  repeat match goal with
  | H : (_ ≫= _) = Ok _ |- _ => apply bind_Ok in H as (? & ? & H)
  | H : throwIf _ _ = Ok _ |- _ => apply throwIf_Ok in H
  | H : Ok _ = Ok _ |- _ => injection H as H; try subst
  | H : Err _ = Ok _ |- _ => discriminate H
  | H : Ok _ = Err _ |- _ => discriminate H
  | H : mret _ = Ok _ |- _ => unfold mret, result_ret in H
  end.

(** ** Sums *)

Definition sumZ (l : list Z) : Z := foldr Z.add 0 l.

Lemma sumZ_app l k : sumZ (l ++ k) = sumZ l + sumZ k.
Proof. unfold sumZ. induction l; cbn; lia. Qed.

#[global] Instance sumZ_perm : Proper (Permutation ==> eq) sumZ.
Proof. induction 1; unfold sumZ in *; cbn; lia. Qed.

Lemma sumZ_nonneg l : Forall (λ x, 0 ≤ x) l → 0 ≤ sumZ l.
Proof. unfold sumZ. induction 1; cbn; lia. Qed.

Lemma sumZ_bound (b : Z) l : Forall (λ x, x ≤ b) l → sumZ l ≤ b * Z.of_nat (length l).
Proof. unfold sumZ. induction 1; cbn -[Z.of_nat]; [lia|]. rewrite Nat2Z.inj_succ. lia. Qed.

(** [arr.reduce((a, b) => a + b, init)]: JavaScript folds from the left. *)
Lemma foldl_add_sumZ l a : foldl Z.add a l = a + sumZ l.
Proof. unfold sumZ. revert a; induction l as [|x l IH]; intros a; cbn; [|rewrite IH]; lia. Qed.

Lemma foldl_add_map {A} (f : A → Z) l a :
  foldl (λ s x, s + f x) a l = a + sumZ (map f l).
Proof. unfold sumZ. revert a; induction l as [|x l IH]; intros a; cbn; [|rewrite IH]; lia. Qed.

Lemma elem_of_take_in {A} (x : A) n l : x ∈ take n l → x ∈ l.
Proof. intros H. rewrite <-(take_drop n l). set_solver. Qed.

#[export] Hint Resolve elem_of_take_in sumZ_nonneg : ts.

(** ** [Array.prototype.sort]

    ECMAScript requires a stable sort, so for a consistent comparator the
    result is determined; insertion keeps earlier elements first on a tie. *)

Section JsSort.
Context {A : Type} (cmp : A → A → Z).

Fixpoint js_insert (x : A) (l : list A) : list A :=
  match l with
  | [] => [x]
  | y :: l' => if cmp x y <=? 0 then x :: l else y :: js_insert x l'
  end.

Definition js_sort (l : list A) : list A := foldr js_insert [] l.

Lemma js_insert_perm x l : js_insert x l ≡ₚ x :: l.
Proof.
  induction l as [|y l IH]; cbn; [done|].
  destruct (_ <=? _); [done|]. rewrite IH. apply Permutation_swap.
Qed.

Lemma js_sort_perm l : js_sort l ≡ₚ l.
Proof. induction l; cbn; [done|]. rewrite js_insert_perm. by f_equiv. Qed.

(** The order a comparator induces. *)
Definition cmp_le (x y : A) : Prop := cmp x y ≤ 0.

Context (cmp_total : ∀ x y, cmp_le x y ∨ cmp_le y x).
Context (cmp_trans : ∀ x y z, cmp_le x y → cmp_le y z → cmp_le x z).

Lemma js_insert_sorted x l :
  StronglySorted cmp_le l → StronglySorted cmp_le (js_insert x l).
Proof.
  induction 1 as [|y l Hl IH Hy]; cbn; [repeat constructor|].
  destruct (cmp x y <=? 0) eqn:Hc; zb.
  - constructor; [by constructor|]. constructor; [done|].
    eapply Forall_impl; [exact Hy|]. intros z; cbn. eauto.
  - constructor; [done|]. rewrite js_insert_perm. constructor; [|done].
    destruct (cmp_total x y); unfold cmp_le in *; [lia|done].
Qed.

Lemma js_sort_sorted l : StronglySorted cmp_le (js_sort l).
Proof. induction l; cbn; [constructor|]. by apply js_insert_sorted. Qed.

(** The head of a sorted array is a minimum of the input. *)
Lemma js_sort_head l x r :
  js_sort l = x :: r → x ∈ l ∧ Forall (cmp_le x) r.
Proof.
  intros Hs. split.
  - rewrite <-(js_sort_perm l), Hs. set_solver.
  - pose proof (js_sort_sorted l) as H. rewrite Hs in H. by inversion H.
Qed.
End JsSort.

(** Comparators: antisymmetric in sign, transitive. Lexicographic combination,
    and sorting that does not depend on the order the rows came in. *)
Record Comparator {A} (c : A → A → Z) : Prop := {
  cmp_swap x y : c x y < 0 ↔ 0 < c y x;
  cmp_le_trans x y z : c x y ≤ 0 → c y z ≤ 0 → c x z ≤ 0;
}.

Definition cmpLex {A} (c d : A → A → Z) (x y : A) : Z := if c x y =? 0 then d x y else c x y.

Lemma comparator_total {A} (c : A → A → Z) : Comparator c → ∀ x y, cmp_le c x y ∨ cmp_le c y x.
Proof. intros H x y. unfold cmp_le. pose proof (cmp_swap c H x y). lia. Qed.

Lemma comparator_flip {A} (c : A → A → Z) : Comparator c → Comparator (λ x y, c y x).
Proof. intros H. split; intros; [by rewrite (cmp_swap c H)|eauto using cmp_le_trans]. Qed.

Lemma comparator_lex {A} (c d : A → A → Z) : Comparator c → Comparator d → Comparator (cmpLex c d).
Proof.
  intros Hc Hd. unfold cmpLex. split.
  - intros x y. pose proof (cmp_swap c Hc x y). pose proof (cmp_swap c Hc y x). pose proof (cmp_swap d Hd x y).
    destruct (Z.eqb_spec (c x y) 0), (Z.eqb_spec (c y x) 0); lia.
  - intros x y z. pose proof (cmp_swap c Hc x y). pose proof (cmp_swap c Hc y z). pose proof (cmp_swap c Hc x z).
    pose proof (cmp_swap c Hc y x). pose proof (cmp_swap c Hc z y). pose proof (cmp_swap c Hc z x).
    pose proof (cmp_le_trans c Hc x y z). pose proof (cmp_le_trans c Hc z x y). pose proof (cmp_le_trans c Hc y z x).
    pose proof (cmp_le_trans d Hd x y z).
    destruct (Z.eqb_spec (c x y) 0), (Z.eqb_spec (c y z) 0), (Z.eqb_spec (c x z) 0); lia.
Qed.

Lemma comparator_key {A B} (c : B → B → Z) (f : A → B) : Comparator c → Comparator (λ x y, c (f x) (f y)).
Proof. intros H. split; intros; [apply (cmp_swap c H)|by eapply (cmp_le_trans c H)]. Qed.

Lemma comparator_sub : Comparator Z.sub.
Proof. split; intros; lia. Qed.

#[export] Hint Resolve comparator_flip comparator_lex comparator_key comparator_sub : ts.

(** Two arrangements of the same rows sort to the same array, when rows that
    compare equal are equal. *)
Lemma js_sort_elem {A} (c : A → A → Z) (l : list A) x : x ∈ js_sort c l ↔ x ∈ l.
Proof. by rewrite js_sort_perm. Qed.

Lemma js_sort_unique {A} (c : A → A → Z) (l l' : list A) : Comparator c → l ≡ₚ l' →
  (∀ x y, x ∈ l → y ∈ l → c x y = 0 → x = y) → js_sort c l = js_sort c l'.
Proof.
  intros Hc Hp Ha.
  pose proof (js_sort_sorted c (comparator_total c Hc) (cmp_le_trans c Hc) l) as H1.
  pose proof (js_sort_sorted c (comparator_total c Hc) (cmp_le_trans c Hc) l') as H2.
  assert (js_sort c l ≡ₚ js_sort c l') as Hpp by by rewrite !js_sort_perm.
  assert (∀ x, x ∈ js_sort c l → x ∈ l) as Hin by (intros x; by rewrite js_sort_elem).
  revert Hpp H1 H2 Hin. generalize (js_sort c l) (js_sort c l').
  intros s s' Hpp H1. revert s' Hpp. induction H1 as [|x s Hs IH Hx]; intros s' Hpp H2 Hin.
  - by apply Permutation_nil in Hpp as ->.
  - destruct s' as [|y s']; [by apply Permutation_sym, Permutation_nil in Hpp|].
    inversion H2 as [|?? Hs' Hy]; subst. rewrite Forall_forall in Hx, Hy.
    assert (x = y) as ->.
    { assert (x ∈ y :: s') as Hxin by (rewrite <-Hpp; set_solver).
      assert (y ∈ x :: s) as Hyin by (rewrite Hpp; set_solver).
      apply elem_of_cons in Hxin as [?|Hxin]; [done|]. apply elem_of_cons in Hyin as [?|Hyin]; [done|].
      apply Ha; [apply Hin; set_solver|apply Hin; set_solver|].
      pose proof (Hy _ Hxin) as H3. pose proof (Hx _ Hyin) as H4. unfold cmp_le in *.
      pose proof (cmp_swap c Hc x y). lia. }
    f_equal. apply IH; [by apply Permutation_cons_inv in Hpp|done|]. intros z Hz. apply Hin. set_solver.
Qed.

(** An array that is in order is left alone. *)
Lemma js_sort_id {A} (c : A → A → Z) (l : list A) : StronglySorted (cmp_le c) l → js_sort c l = l.
Proof.
  induction 1 as [|x l _ IH Hx]; [done|]. change (js_insert c x (js_sort c l) = x :: l). rewrite IH. destruct l as [|y l]; [done|]. cbn.
  inversion Hx as [|?? Hxy _]; subst. by rewrite (proj2 (Z.leb_le _ _) Hxy).
Qed.

(** A new maximum goes to the end. *)
Lemma js_sort_snoc {A} (c : A → A → Z) (l : list A) x : Comparator c →
  (∀ y z, y ∈ l → z ∈ l → c y z = 0 → y = z) → (∀ y, y ∈ l → c y x < 0) → js_sort c (x :: l) = js_sort c l ++ [x].
Proof.
  intros Hc Ha Hx. rewrite <-(js_sort_id c (js_sort c l ++ [x])).
  - apply js_sort_unique; [done| |].
    + rewrite (js_sort_perm c l). by rewrite (Permutation_app_comm l [x]).
    + intros y z Hy Hz He. apply elem_of_cons in Hy, Hz. pose proof (cmp_swap c Hc z y). pose proof (cmp_swap c Hc y z).
      destruct Hy as [->|Hy], Hz as [->|Hz]; [done| | |by auto].
      * pose proof (Hx _ Hz). lia.
      * pose proof (Hx _ Hy). lia.
  - apply StronglySorted_app. split_and!.
    + intros y z Hy Hz. rewrite (js_sort_perm c l) in Hy. apply list_elem_of_singleton in Hz as ->. pose proof (Hx _ Hy). unfold cmp_le. lia.
    + apply js_sort_sorted; [by apply comparator_total|apply (cmp_le_trans c Hc)].
    + repeat constructor.
Qed.

(** The opposite order is the reversed array. *)
Lemma js_sort_flip {A} (c : A → A → Z) (l : list A) : Comparator c →
  (∀ y z, y ∈ l → z ∈ l → c y z = 0 → y = z) → js_sort (λ x y, c y x) l = reverse (js_sort c l).
Proof.
  intros Hc Ha. rewrite <-(js_sort_id (λ x y, c y x) (reverse (js_sort c l))).
  - apply js_sort_unique; [by apply comparator_flip| |by intros y z Hy Hz H; symmetry; apply Ha].
    rewrite reverse_Permutation. symmetry. apply js_sort_perm.
  - pose proof (js_sort_sorted c (comparator_total c Hc) (cmp_le_trans c Hc) l) as Hs. revert Hs.
    generalize (js_sort c l). induction 1 as [|x s _ IH Hx]; [constructor|]. rewrite reverse_cons.
    apply StronglySorted_app. split_and!; [|done|repeat constructor].
    intros y z Hy Hz. apply list_elem_of_singleton in Hz as ->. rewrite elem_of_reverse in Hy. rewrite Forall_forall in Hx.
    by apply Hx.
Qed.

(** ** Slices of a list: [skip] and [take], page by page *)

Definition slice {A} (skip limit : Z) (l : list A) : list A := take (Z.to_nat limit) (drop (Z.to_nat skip) l).

Lemma slices_concat {A} (l : list A) (limit : Z) n : 0 < limit →
  concat (map (λ k, slice (Z.of_nat k * limit) limit l) (seq 0 n)) = take (n * Z.to_nat limit) l.
Proof.
  intros Hl. induction n as [|n IH]; [done|].
  rewrite seq_S, map_app, concat_app, IH. cbn [map concat Nat.add]. rewrite app_nil_r. unfold slice.
  replace (Z.to_nat (Z.of_nat n * limit)) with (n * Z.to_nat limit)%nat by lia.
  rewrite take_take_drop. f_equal. lia.
Qed.

(** [Math.max(1, Math.ceil(total / limit))] for a positive limit. *)
Definition pagesOf (total limit : Z) : Z := Z.max 1 (- ((- total) / limit)).

Lemma pagesOf_enough total limit : 0 < limit → total ≤ pagesOf total limit * limit.
Proof.
  intros Hl. unfold pagesOf. pose proof (Z.mul_div_le (- total) limit Hl). nia.
Qed.

(** The pages up to the last show the whole list. *)
Lemma pages_whole {A} (l : list A) (limit : Z) : 0 < limit →
  concat (map (λ k, slice (Z.of_nat k * limit) limit l) (seq 0 (Z.to_nat (pagesOf (Z.of_nat (length l)) limit)))) = l.
Proof.
  intros Hl. rewrite slices_concat by lia. apply firstn_all2. pose proof (pagesOf_enough (Z.of_nat (length l)) limit Hl).
  assert (0 < pagesOf (Z.of_nat (length l)) limit) by (unfold pagesOf; lia). nia.
Qed.

Lemma slice_map {A B} (f : A → B) skip limit l : slice skip limit (map f l) = map f (slice skip limit l).
Proof. unfold slice. by rewrite <-!firstn_map, <-skipn_map. Qed.

(** ** JavaScript numbers

    A [number] that a guard such as [Number.isInteger] may reject.  [JNonInt z]
    is a finite non-integer strictly between [z] and [z + 1]; that is all the
    comparisons against integers need. Fields that only ever carry counters or
    Unix times are plain [Z]. *)

Inductive jsnum : Type :=
| JInt (z : Z)
| JNonInt (floor : Z)
| JPosInf
| JNegInf
| JNaN.

Definition isInteger (x : jsnum) : bool :=
  match x with JInt _ => true | _ => false end.

(** [x < n], [x <= n], [x > n] for an integer [n]; every comparison with NaN is false. *)
Definition jlt (x : jsnum) (n : Z) : bool :=
  match x with
  | JInt z => z <? n | JNonInt z => z <? n
  | JNegInf => true | JPosInf | JNaN => false
  end.
Definition jle (x : jsnum) (n : Z) : bool :=
  match x with
  | JInt z => z <=? n | JNonInt z => z <? n
  | JNegInf => true | JPosInf | JNaN => false
  end.
Definition jgt (x : jsnum) (n : Z) : bool :=
  match x with
  | JInt z => n <? z | JNonInt z => n <=? z
  | JPosInf => true | JNegInf | JNaN => false
  end.

#[global] Instance jsnum_eq_dec : EqDecision jsnum.
Proof. solve_decision. Defined.
