(* ===== verification/JsString.v ===== *)
(** * JavaScript strings and integer literals

    The string operations the backend uses on monetary amounts and on
    identifiers: [trim], [split], [padStart], [padEnd], [slice], and the two
    conversions [BigInt.prototype.toString] and [BigInt(digits)].  A JavaScript
    string is a Rocq [string]; code units are restricted to Latin-1, which is
    all the patterns below look at.  The lemmas give the decimal round trip
    [BigInt(n.toString()) = n] with the length of the printed numeral. *)

From S2P Require Import Prelude.

Abbreviation strlen := String.length.

Definition is_digit (c : ascii) : bool :=
  let n := Z.of_N (N_of_ascii c) in (48 <=? n) && (n <=? 57).

(** The Latin-1 code units [String.prototype.trim] removes. *)
Definition is_space (c : ascii) : bool :=
  let n := Z.of_N (N_of_ascii c) in
  ((9 <=? n) && (n <=? 13)) || (n =? 32) || (n =? 160).

Fixpoint str_forall (p : ascii → bool) (s : string) : bool :=
  match s with
  | EmptyString => true
  | String c s' => p c && str_forall p s'
  end.

Fixpoint trimStart (s : string) : string :=
  match s with
  | EmptyString => EmptyString
  | String c s' => if is_space c then trimStart s' else s
  end.

Fixpoint trimEnd (s : string) : string :=
  match s with
  | EmptyString => EmptyString
  | String c s' =>
      match trimEnd s' with
      | EmptyString => if is_space c then EmptyString else String c EmptyString
      | t => String c t
      end
  end.

Definition trim (s : string) : string := trimEnd (trimStart s).

(** [s.split(c)] for a one-character separator. *)
Fixpoint split (c : ascii) (s : string) : list string :=
  match s with
  | EmptyString => [""%string]
  | String d s' =>
      if Ascii.eqb d c then ""%string :: split c s'
      else match split c s' with
           | h :: t => String d h :: t
           | [] => [String d EmptyString]
           end
  end.

Fixpoint repeat_char (c : ascii) (n : nat) : string :=
  match n with O => EmptyString | S m => String c (repeat_char c m) end.

Definition padStart (s : string) (n : nat) (c : ascii) : string :=
  repeat_char c (n - strlen s) +:+ s.
Definition padEnd (s : string) (n : nat) (c : ascii) : string :=
  s +:+ repeat_char c (n - strlen s).

(** [s.slice(0, n)] *)
Fixpoint take_chars (n : nat) (s : string) : string :=
  match n, s with
  | S m, String c s' => String c (take_chars m s')
  | _, _ => EmptyString
  end.

(** ** Numerals *)

Definition digit_char (d : Z) : ascii := ascii_of_N (Z.to_N (48 + d)).
Definition char_digit (c : ascii) : Z := Z.of_N (N_of_ascii c) - 48.

Fixpoint digits_fuel (fuel : nat) (n : Z) (acc : string) : string :=
  match fuel with
  | O => acc
  | S f =>
      let acc' := String (digit_char (n mod 10)) acc in
      if n <? 10 then acc' else digits_fuel f (n / 10) acc'
  end.

(** A number has at most [S (log2 n)] decimal digits. *)
Definition natToString (n : Z) : string :=
  digits_fuel (S (Z.to_nat (Z.log2 n))) n EmptyString.

(** [n.toString()] for a [bigint] or an integral [number]. *)
Definition toString (z : Z) : string :=
  if z <? 0 then String "-" (natToString (- z)) else natToString z.

Fixpoint value_acc (a : Z) (s : string) : Z :=
  match s with
  | EmptyString => a
  | String c s' => value_acc (10 * a + char_digit c) s'
  end.

(** [BigInt(s)] for a string of decimal digits. *)
Definition BigInt_digits (s : string) : Z := value_acc 0 s.

(** ** Lemmas *)

Lemma app_nil_r_str s : s +:+ "" = s.
Proof. induction s as [|c s IH]; [done|]. change (String c (s +:+ "") = String c s). by f_equal. Qed.

Lemma app_nil_l_str s : "" +:+ s = s.
Proof. done. Qed.

Lemma app_cons_str c s t : String c s +:+ t = String c (s +:+ t).
Proof. done. Qed.

Lemma app_assoc_str (s t u : string) : (s +:+ t) +:+ u = s +:+ (t +:+ u).
Proof. induction s as [|c s IH]; [done|]. change (String c ((s +:+ t) +:+ u) = String c (s +:+ (t +:+ u))). by f_equal. Qed.

Lemma strlen_app s t : strlen (s +:+ t) = (strlen s + strlen t)%nat.
Proof. induction s as [|c s IH]; [done|]. change (S (strlen (s +:+ t)) = (S (strlen s) + strlen t)%nat). lia. Qed.

Lemma strlen_repeat c n : strlen (repeat_char c n) = n.
Proof. induction n; cbn; congruence. Qed.

Lemma str_forall_app p s t : str_forall p (s +:+ t) = str_forall p s && str_forall p t.
Proof.
  induction s as [|c s IH]; [done|].
  change (p c && str_forall p (s +:+ t) = (p c && str_forall p s) && str_forall p t).
  by rewrite IH, andb_assoc.
Qed.

Lemma str_forall_repeat p c n : p c = true → str_forall p (repeat_char c n) = true.
Proof. intros H. induction n; cbn; [done|]. by rewrite H. Qed.

Lemma str_forall_impl (p q : ascii → bool) s :
  (∀ c, p c = true → q c = true) → str_forall p s = true → str_forall q s = true.
Proof.
  intros H. induction s as [|c s IH]; cbn; [done|].
  intros [??]%andb_true_iff. apply andb_true_iff. auto.
Qed.

Lemma value_acc_app a s t : value_acc a (s +:+ t) = value_acc (value_acc a s) t.
Proof. revert a; induction s as [|c s IH]; intros a; [done|]. apply IH. Qed.

Lemma value_acc_shift a s : value_acc a s = a * 10 ^ Z.of_nat (strlen s) + value_acc 0 s.
Proof.
  revert a; induction s as [|c s IH]; intros a; cbn [value_acc String.length].
  - rewrite Z.pow_0_r. lia.
  - rewrite IH, (IH (10 * 0 + _)). rewrite Nat2Z.inj_succ, Z.pow_succ_r by lia. lia.
Qed.

Lemma BigInt_digits_app s t :
  BigInt_digits (s +:+ t) = BigInt_digits s * 10 ^ Z.of_nat (strlen t) + BigInt_digits t.
Proof. unfold BigInt_digits. by rewrite value_acc_app, value_acc_shift. Qed.

Lemma value_acc_zeros n a : value_acc a (repeat_char "0" n) = a * 10 ^ Z.of_nat n.
Proof.
  revert a; induction n as [|n IH]; intros a; cbn [value_acc repeat_char]; [lia|].
  rewrite IH, Nat2Z.inj_succ, Z.pow_succ_r by lia.
  replace (char_digit "0") with 0 by done. lia.
Qed.

Lemma digit_char_digit d : 0 ≤ d < 10 → char_digit (digit_char d) = d.
Proof.
  intros H. unfold char_digit, digit_char. rewrite N_ascii_embedding; lia.
Qed.

Lemma digit_char_is_digit d : 0 ≤ d < 10 → is_digit (digit_char d) = true.
Proof.
  intros H. unfold is_digit, digit_char. rewrite N_ascii_embedding by lia.
  zb. lia.
Qed.

Lemma char_digit_bound c : is_digit c = true → 0 ≤ char_digit c < 10.
Proof. unfold is_digit, char_digit. zb. lia. Qed.

Lemma value_acc_bound s : str_forall is_digit s = true →
  0 ≤ value_acc 0 s < 10 ^ Z.of_nat (strlen s).
Proof.
  induction s as [|c s IH]; cbn [value_acc str_forall String.length]; [lia|].
  intros [Hc%char_digit_bound Hs]%andb_true_iff. specialize (IH Hs).
  rewrite value_acc_shift, Nat2Z.inj_succ, Z.pow_succ_r by lia. nia.
Qed.

(** What [natToString] prints: a nonempty digit string with value [n], no
    longer than any [d >= 1] with [n < 10 ^ d]. *)
Lemma digits_fuel_spec f n acc : 0 ≤ n → Z.log2 n < Z.of_nat f →
  ∃ s, digits_fuel f n acc = s +:+ acc ∧ str_forall is_digit s = true ∧
    s ≠ "" ∧ value_acc 0 s = n ∧
    ∀ d, (1 ≤ d)%nat → n < 10 ^ Z.of_nat d → (strlen s ≤ d)%nat.
Proof.
  revert n acc; induction f as [|f IH]; intros n acc Hn Hf.
  { pose proof (Z.log2_nonneg n). lia. }
  pose proof (Z.mod_pos_bound n 10 ltac:(lia)) as Hm.
  cbn [digits_fuel]. destruct (Z.ltb_spec n 10) as [Hlt|Hge].
  - exists (String (digit_char (n mod 10)) ""). cbn [str_forall value_acc String.length].
    rewrite digit_char_is_digit, digit_char_digit, Z.mod_small by lia.
    split_and!; try done; intros; lia.
  - assert (Hlog : Z.log2 (n / 10) < Z.of_nat f).
    { enough (Z.log2 (n / 10) < Z.log2 n) by lia.
      pose proof (Z.log2_le_mono (n / 10) (n / 2)). 
      assert (n / 10 ≤ n / 2) by (apply Z.div_le_compat_l; lia).
      assert (Z.log2 (n / 2) = Z.log2 n - 1); [|lia].
      rewrite <-Z.div2_div, Z.div2_spec, Z.log2_shiftr by lia. 
      pose proof (Z.log2_le_mono 2 n ltac:(lia)). change (Z.log2 2) with 1 in *. lia. }
    destruct (IH (n / 10) (String (digit_char (n mod 10)) acc)) as (s & -> & Hs & Hne & Hv & Hl);
      [apply Z.div_pos; lia|done|].
    exists (s +:+ String (digit_char (n mod 10)) ""). split_and!.
    + by rewrite app_assoc_str.
    + rewrite str_forall_app, Hs. cbn. by rewrite digit_char_is_digit by lia.
    + by destruct s.
    + rewrite value_acc_app, Hv. cbn. rewrite digit_char_digit by lia.
      pose proof (Z.div_mod n 10). lia.
    + intros d Hd Hnd. rewrite strlen_app. cbn. destruct d as [|d]; [lia|].
      assert (1 ≤ d)%nat by (destruct d; [change (10 ^ Z.of_nat 1) with 10 in Hnd|]; lia).
      enough (strlen s ≤ d)%nat by lia. apply Hl; [lia|].
      apply Z.div_lt_upper_bound; [lia|].
      by rewrite <-Z.pow_succ_r, <-Nat2Z.inj_succ by lia.
Qed.

Lemma natToString_spec n : 0 ≤ n →
  str_forall is_digit (natToString n) = true ∧ natToString n ≠ "" ∧
  BigInt_digits (natToString n) = n ∧
  ∀ d, (1 ≤ d)%nat → n < 10 ^ Z.of_nat d → (strlen (natToString n) ≤ d)%nat.
Proof.
  intros Hn. unfold natToString, BigInt_digits.
  destruct (digits_fuel_spec (S (Z.to_nat (Z.log2 n))) n "") as (s & -> & H); [done| |].
  - pose proof (Z.log2_nonneg n). lia.
  - by rewrite app_nil_r_str.
Qed.

Lemma split_none c s : str_forall (λ d, negb (Ascii.eqb d c)) s = true → split c s = [s].
Proof.
  induction s as [|d s IH]; cbn; [done|]. intros [Hd Hs]%andb_true_iff.
  rewrite IH by done. by destruct (Ascii.eqb d c).
Qed.

Lemma split_app c s t : str_forall (λ d, negb (Ascii.eqb d c)) s = true →
  split c (s +:+ String c t) = s :: split c t.
Proof.
  induction s as [|d s IH].
  - intros _. change (split c (String c t) = "" :: split c t). cbn [split]. by rewrite Ascii.eqb_refl.
  - intros [Hd Hs]%andb_true_iff.
    change (split c (String d (s +:+ String c t)) = String d s :: split c t).
    cbn [split]. rewrite IH by done. by destruct (Ascii.eqb d c).
Qed.

Lemma trimStart_id c s : is_space c = false → trimStart (String c s) = String c s.
Proof. cbn. by intros ->. Qed.

Lemma trimEnd_nospace s : str_forall (λ c, negb (is_space c)) s = true → trimEnd s = s.
Proof.
  induction s as [|c s IH]; cbn; [done|]. intros [Hc Hs]%andb_true_iff.
  rewrite IH by done. apply negb_true_iff in Hc. rewrite Hc. by destruct s.
Qed.

Lemma trim_nospace s : str_forall (λ c, negb (is_space c)) s = true → trim s = s.
Proof.
  intros H. unfold trim. destruct s as [|c s]; [done|].
  rewrite trimStart_id; [by apply trimEnd_nospace|].
  cbn in H. destruct (is_space c); cbn in H; congruence.
Qed.

Lemma digit_not_space c : is_digit c = true → negb (is_space c) = true.
Proof. unfold is_digit, is_space. zb. intros. split_and!; lia. Qed.

Lemma digit_ne c d : is_digit c = true → is_digit d = false → negb (Ascii.eqb c d) = true.
Proof. intros Hc Hd. destruct (Ascii.eqb_spec c d); [congruence|done]. Qed.

Lemma strlen_padStart s n c : (strlen s ≤ n)%nat → strlen (padStart s n c) = n.
Proof. intros. unfold padStart. rewrite strlen_app, strlen_repeat. lia. Qed.

Lemma BigInt_digits_padStart s n : BigInt_digits (padStart s n "0") = BigInt_digits s.
Proof.
  unfold BigInt_digits, padStart. by rewrite value_acc_app, value_acc_zeros.
Qed.

Lemma padStart_digits s n : str_forall is_digit s = true → str_forall is_digit (padStart s n "0") = true.
Proof. intros. unfold padStart. by rewrite str_forall_app, str_forall_repeat. Qed.

Lemma padEnd_digits s n : str_forall is_digit s = true → str_forall is_digit (padEnd s n "0") = true.
Proof. intros H. unfold padEnd. by rewrite str_forall_app, H, str_forall_repeat. Qed.

Lemma padEnd_full s n c : strlen s = n → padEnd s n c = s.
Proof. intros <-. unfold padEnd. rewrite Nat.sub_diag. apply app_nil_r_str. Qed.

Lemma strlen_padEnd s n c : (strlen s ≤ n)%nat → strlen (padEnd s n c) = n.
Proof. intros. unfold padEnd. rewrite strlen_app, strlen_repeat. lia. Qed.

Lemma BigInt_digits_padEnd s n : (strlen s ≤ n)%nat →
  BigInt_digits (padEnd s n "0") = BigInt_digits s * 10 ^ Z.of_nat (n - strlen s).
Proof. intros. unfold padEnd, BigInt_digits. by rewrite value_acc_app, value_acc_zeros. Qed.

Lemma strlen_take n s : (strlen (take_chars n s) ≤ n)%nat.
Proof. revert s; induction n; intros [|c s]; cbn; [lia..|]. specialize (IHn s). lia. Qed.

(** ** [BigInt(s)] and [BigInt(x)]

    [BigInt] of a string trims it, reads the empty string as zero and accepts an
    optionally signed run of decimal digits; anything else is a [SyntaxError]
    here (prefixed hexadecimal, octal and binary literals are not read). *)
Definition BigInt_string (s : string) : option Z :=
  match trim s with
  | EmptyString => Some 0
  | String c t =>
      if Ascii.eqb c "-" then
        (if bool_decide (t ≠ ""%string) && str_forall is_digit t then Some (- BigInt_digits t) else None)
      else if Ascii.eqb c "+" then
        (if bool_decide (t ≠ ""%string) && str_forall is_digit t then Some (BigInt_digits t) else None)
      else if str_forall is_digit (String c t) then Some (BigInt_digits (String c t)) else None
  end.

(** [BigInt(x)] for a [number] throws a [RangeError] unless [x] is an integer. *)
Definition BigInt_number (x : jsnum) : option Z :=
  match x with JInt z => Some z | _ => None end.

Lemma BigInt_toString z : BigInt_string (toString z) = Some z.
Proof.
  unfold toString. destruct (Z.ltb_spec z 0) as [Hz|Hz].
  - destruct (natToString_spec (- z) ltac:(lia)) as (Hd & Hne & Hv & _).
    unfold BigInt_string. rewrite trim_nospace.
    + rewrite Ascii.eqb_refl, bool_decide_eq_true_2 by done. cbn [andb]. rewrite Hd, Hv. f_equal. lia.
    + cbn [str_forall]. by rewrite (str_forall_impl _ _ _ digit_not_space Hd).
  - destruct (natToString_spec z Hz) as (Hd & Hne & Hv & _). unfold BigInt_string.
    rewrite trim_nospace by by apply (str_forall_impl _ _ _ digit_not_space).
    destruct (natToString z) as [|c t]; [done|].
    pose proof Hd as Hc. cbn [str_forall] in Hc. apply andb_true_iff in Hc as [Hc _].
    destruct (Ascii.eqb_spec c "-") as [->|]; [done|].
    destruct (Ascii.eqb_spec c "+") as [->|]; [done|]. by rewrite Hd, Hv.
Qed.

(** ** Comparing strings by code units *)

Definition code (c : ascii) : Z := Z.of_N (N_of_ascii c).

(** Negative, zero or positive as [s] is before, equal to or after [t]. *)
Fixpoint strCmp (s t : string) : Z :=
  match s, t with
  | EmptyString, EmptyString => 0
  | EmptyString, _ => -1
  | _, EmptyString => 1
  | String a s', String b t' => if code a =? code b then strCmp s' t' else code a - code b
  end.

Lemma strCmp_comparator : Comparator strCmp.
Proof.
  split.
  - induction x as [|a x IH]; intros [|b y]; cbn; try lia.
    destruct (Z.eqb_spec (code a) (code b)), (Z.eqb_spec (code b) (code a)); [apply IH|lia..].
  - induction x as [|a x IH]; intros [|b y] [|c z]; cbn; try lia.
    destruct (Z.eqb_spec (code a) (code b)), (Z.eqb_spec (code b) (code c)), (Z.eqb_spec (code a) (code c));
      try lia. apply IH.
Qed.

#[export] Hint Resolve strCmp_comparator : ts.

(** ** Case, and joining with a separator *)

(** [c.toLowerCase()] on a Latin-1 code unit. *)
Definition lowerChar (c : ascii) : ascii :=
  let n := N_of_ascii c in
  if ((65 <=? n) && (n <=? 90) || (192 <=? n) && (n <=? 214) || (216 <=? n) && (n <=? 222))%N
  then ascii_of_N (n + 32) else c.

Fixpoint toLowerCase (s : string) : string :=
  match s with
  | EmptyString => EmptyString
  | String c s' => String (lowerChar c) (toLowerCase s')
  end.

Lemma lowerChar_idemp c : lowerChar (lowerChar c) = lowerChar c.
Proof. destruct c as [[] [] [] [] [] [] [] []]; reflexivity. Qed.

Lemma toLowerCase_idemp s : toLowerCase (toLowerCase s) = toLowerCase s.
Proof. induction s as [|c s IH]; cbn; [done|]. by rewrite lowerChar_idemp, IH. Qed.

(** [parts.join(c)] *)
Fixpoint join (c : ascii) (parts : list string) : string :=
  match parts with
  | [] => EmptyString
  | [p] => p
  | p :: ps => p +:+ String c (join c ps)
  end.

Definition lacks (c : ascii) (s : string) : Prop :=
  str_forall (λ d, negb (Ascii.eqb d c)) s = true.

Lemma split_join c parts : parts ≠ [] → Forall (lacks c) parts → split c (join c parts) = parts.
Proof.
  induction parts as [|p ps IH]; [done|]. intros _ Hf. inversion Hf as [|?? Hp Hps]; subst.
  destruct ps as [|q ps]; [by apply split_none|].
  change (join c (p :: q :: ps)) with (p +:+ String c (join c (q :: ps))).
  rewrite split_app by done. by rewrite IH.
Qed.

Lemma split_at_unique c (a b x y : string) : lacks c a → lacks c b →
  a +:+ String c x = b +:+ String c y → a = b ∧ x = y.
Proof.
  unfold lacks. revert b. induction a as [|d a IH]; intros [|e b]; cbn; intros Ha Hb H.
  - by injection H.
  - injection H as <- _. rewrite Ascii.eqb_refl in Hb. done.
  - injection H as -> _. rewrite Ascii.eqb_refl in Ha. done.
  - injection H as <- H. zb. destruct Ha as [_ Ha], Hb as [_ Hb].
    destruct (IH b Ha Hb H) as [-> ->]. done.
Qed.

Lemma toString_inj x y : toString x = toString y → x = y.
Proof. intros H. apply (f_equal BigInt_string) in H. rewrite !BigInt_toString in H. congruence. Qed.

Lemma toString_lacks c z : is_digit c = false → c ≠ "-"%char → lacks c (toString z).
Proof.
  intros Hc Hm. unfold lacks.
  assert (Hd : ∀ n, 0 ≤ n → str_forall (λ d, negb (Ascii.eqb d c)) (natToString n) = true).
  { intros n Hn. destruct (natToString_spec n Hn) as (Hd & _). revert Hd. apply str_forall_impl.
    intros d Hd. by apply digit_ne. }
  unfold toString. destruct (Z.ltb_spec z 0); [|by apply Hd].
  cbn [str_forall]. rewrite Hd by lia. destruct (Ascii.eqb_spec "-" c); [congruence|done].
Qed.

Lemma toString_no_dash z : 0 ≤ z → lacks "-" (toString z).
Proof.
  intros Hz. unfold lacks, toString. destruct (Z.ltb_spec z 0); [lia|].
  destruct (natToString_spec z Hz) as (Hd & _). revert Hd. apply str_forall_impl. intros d Hd. by apply digit_ne.
Qed.

Lemma toString_not_dash z : toString z ≠ "-".
Proof.
  unfold toString. destruct (Z.ltb_spec z 0).
  - destruct (natToString_spec (- z) ltac:(lia)) as (_ & Hne & _). intros [= H']. congruence.
  - destruct (natToString_spec z ltac:(lia)) as (Hd & _). intros He. rewrite He in Hd. done.
Qed.

Lemma toString_nonempty z : toString z ≠ ""%string.
Proof.
  unfold toString. destruct (Z.ltb_spec z 0); [done|].
  by destruct (natToString_spec z ltac:(lia)) as (_ & Hne & _).
Qed.

(** Where a class of characters first occurs splits a text uniquely, as does the
    last occurrence of one character. *)
Lemma split_first_unique (p : ascii → bool) (a b x y : string) c d :
  str_forall (λ c, negb (p c)) a = true → str_forall (λ c, negb (p c)) b = true → p c = true → p d = true →
  (a +:+ String c x)%string = (b +:+ String d y)%string → a = b ∧ String c x = String d y.
Proof.
  intros Ha Hb Hc Hd. revert b Hb. induction a as [|e a IH]; intros [|f b] Hb H; cbn in *.
  - done.
  - injection H as -> _. by rewrite Hc in Hb.
  - injection H as -> _. by rewrite Hd in Ha.
  - apply andb_true_iff in Ha as [_ Ha], Hb as [_ Hb]. injection H as -> H. by destruct (IH Ha b Hb H) as [-> ->].
Qed.

Lemma split_last_unique c (a b x y : string) : lacks c x → lacks c y →
  (a +:+ String c x)%string = (b +:+ String c y)%string → a = b ∧ x = y.
Proof.
  assert (∀ s t, lacks c (s +:+ String c t) → False) as Hno.
  { intros s t. unfold lacks. rewrite str_forall_app. cbn. by rewrite Ascii.eqb_refl, andb_false_r. }
  intros Hx Hy. revert b. induction a as [|e a IH]; intros [|f b] H; cbn in H.
  - injection H as ->. done.
  - injection H as _ ->. by apply Hno in Hx.
  - injection H as _ <-. by apply Hno in Hy.
  - injection H as -> H. by destruct (IH b H) as [-> ->].
Qed.

(** ** UTF-8, for the Latin-1 characters texts are made of *)

Definition utf8Char (c : ascii) (r : string) : string :=
  let n := N_of_ascii c in
  if (n <? 128)%N then String c r else String (ascii_of_N (192 + n / 64)) (String (ascii_of_N (128 + n mod 64)) r).
Fixpoint utf8 (s : string) : string := match s with EmptyString => EmptyString | String c s => utf8Char c (utf8 s) end.

Lemma ascii_of_N_inj n m : (n < 256 → m < 256 → ascii_of_N n = ascii_of_N m → n = m)%N.
Proof. intros Hn Hm H. apply (f_equal N_of_ascii) in H. by rewrite !N_ascii_embedding in H. Qed.

Lemma N_of_ascii_bound c : (N_of_ascii c < 256)%N.
Proof. apply N_ascii_bounded. Qed.

Lemma utf8Char_inj c d r t : utf8Char c r = utf8Char d t → c = d ∧ r = t.
Proof.
  pose proof (N_of_ascii_bound c) as Bc. pose proof (N_of_ascii_bound d) as Bd. unfold utf8Char. cbv zeta.
  assert (∀ e, (192 + N_of_ascii e / 64 < 256)%N ∧ (128 + N_of_ascii e mod 64 < 256)%N) as B.
  { intros e. pose proof (N_of_ascii_bound e). assert (N_of_ascii e / 64 < 4)%N by (apply N.Div0.div_lt_upper_bound; lia).
    assert (N_of_ascii e mod 64 < 64)%N by (by apply N.mod_lt). lia. }
  destruct (N.ltb_spec (N_of_ascii c) 128), (N.ltb_spec (N_of_ascii d) 128); intros H'.
  - by injection H' as -> ->.
  - exfalso. injection H' as H' _. apply (f_equal N_of_ascii) in H'. rewrite N_ascii_embedding in H' by apply B.
    revert H'. generalize (N_of_ascii d / 64)%N (N_of_ascii c / 64)%N. lia.
  - exfalso. injection H' as H' _. apply (f_equal N_of_ascii) in H'. rewrite N_ascii_embedding in H' by apply B.
    revert H'. generalize (N_of_ascii d / 64)%N (N_of_ascii c / 64)%N. lia.
  - assert (ascii_of_N (192 + N_of_ascii c / 64) = ascii_of_N (192 + N_of_ascii d / 64)) as E1 by congruence.
    assert (ascii_of_N (128 + N_of_ascii c mod 64) = ascii_of_N (128 + N_of_ascii d mod 64)) as E2 by congruence.
    assert (r = t) by congruence. apply ascii_of_N_inj in E1, E2; try apply B. split; [|done].
    rewrite <-(ascii_N_embedding c), <-(ascii_N_embedding d), (N.div_mod (N_of_ascii c) 64), (N.div_mod (N_of_ascii d) 64) by done.
    do 2 f_equal; lia.
Qed.

Lemma utf8Char_cons c r : ∃ d t, utf8Char c r = String d t.
Proof. unfold utf8Char. destruct (_ <? 128)%N; by eexists _, _. Qed.

Lemma utf8_inj s t : utf8 s = utf8 t → s = t.
Proof.
  revert t. induction s as [|c s IH]; intros [|d t]; cbn; try done.
  - destruct (utf8Char_cons d (utf8 t)) as (? & ? & ->). done.
  - destruct (utf8Char_cons c (utf8 s)) as (? & ? & ->). done.
  - intros [-> H]%utf8Char_inj. by rewrite (IH t H).
Qed.

Lemma utf8_ascii s : str_forall (λ c, (N_of_ascii c <? 128)%N) s = true → utf8 s = s.
Proof. induction s as [|c s IH]; cbn; [done|]. intros [Hc Hs]%andb_true_iff. unfold utf8Char. by rewrite Hc, IH. Qed.
