(* ===== verification/JsValue.v ===== *)
(** * JavaScript values of unknown shape

    What the code reads out of [unknown] values (caught errors, decoded event
    payloads): property access, truthiness, [typeof], [String(v)] and
    [Number(v)]. Objects are plain records with the default [toString]; an
    [Error] is an object with a message. A number carries its [String]
    rendering, because [jsnum] only keeps the floor of a non-integer.
    [Number(string)] follows the StringNumericLiteral grammar, with the result
    rounded to the nearest double, ties to even. *)

From S2P Require Import Prelude JsString.

Inductive jsval : Type :=
| VUndefined
| VNull
| VBool (b : bool)
| VNum (n : jsnum) (repr : string)
| VBigInt (z : Z)
| VStr (s : string)
| VObj (message : option string) (fields : list (string * jsval)).

(** [fields[k]]; absent properties are [undefined]. *)
Fixpoint lookupField (k : string) (fs : list (string * jsval)) : jsval :=
  match fs with
  | [] => VUndefined
  | (k', v) :: fs' => if bool_decide (k = k') then v else lookupField k fs'
  end.

(** [v?.k] for a property no primitive has. *)
Definition getProp (v : jsval) (k : string) : jsval :=
  match v with VObj _ fs => lookupField k fs | _ => VUndefined end.

Definition isObject (v : jsval) : bool := match v with VObj _ _ => true | _ => false end.

(** [a ?? b] *)
Definition orElse (a b : jsval) : jsval :=
  match a with VUndefined | VNull => b | _ => a end.

Definition isNullish (v : jsval) : bool :=
  match v with VUndefined | VNull => true | _ => false end.

Definition isTruthy (v : jsval) : bool :=
  match v with
  | VUndefined | VNull | VNum (JInt 0) _ | VNum JNaN _ | VBigInt 0 | VStr ""%string => false
  | VBool b => b
  | _ => true
  end.

(** [String(v)] *)
Definition toStr (v : jsval) : string :=
  match v with
  | VUndefined => "undefined"
  | VNull => "null"
  | VBool b => if b then "true" else "false"
  | VNum _ r => r
  | VBigInt z => toString z
  | VStr s => s
  | VObj (Some m) _ => if bool_decide (m = "")%string then "Error" else "Error: " +:+ m
  | VObj None _ => "[object Object]"
  end.

(** ** [Number(s)] *)

(** The double nearest to [p / q] (positive): [n * 2^k] with a 53-bit [n]. *)
Definition roundHalfEven (p q : Z) : Z :=
  let n := p / q in let r := p mod q in
  if 2 * r <? q then n
  else if q <? 2 * r then n + 1
  else if Z.even n then n else n + 1.

Definition doubleExponent (p q : Z) : Z :=
  let k := Z.log2 p - Z.log2 q - 52 in
  let k := if p * 2 ^ Z.max 0 (- k) <? 2 ^ 52 * (q * 2 ^ Z.max 0 k) then k - 1 else k in
  Z.max k (-1074).

Definition roundDouble (p q : Z) : jsnum :=
  if p =? 0 then JInt 0
  else
    let k := doubleExponent p q in
    let n := roundHalfEven (p * 2 ^ Z.max 0 (- k)) (q * 2 ^ Z.max 0 k) in
    if 0 <=? k then (if 2 ^ 1024 <=? n * 2 ^ k then JPosInf else JInt (n * 2 ^ k))
    else if n mod 2 ^ (- k) =? 0 then JInt (n / 2 ^ (- k)) else JNonInt (n / 2 ^ (- k)).

Definition jneg (n : jsnum) : jsnum :=
  match n with
  | JInt z => JInt (- z) | JNonInt f => JNonInt (- f - 1)
  | JPosInf => JNegInf | JNegInf => JPosInf | JNaN => JNaN
  end.

(** The longest run of digits in base [b]: its value, its length, the rest. *)
Definition digitIn (b : Z) (c : ascii) : option Z :=
  let n := Z.of_N (N_of_ascii c) in
  let d := if is_digit c then n - 48
           else if (97 <=? n) && (n <=? 122) then n - 87
           else if (65 <=? n) && (n <=? 90) then n - 55 else b in
  if d <? b then Some d else None.

Fixpoint spanDigits (b : Z) (s : string) (acc : Z) (len : nat) : Z * nat * string :=
  match s with
  | String c s' =>
      match digitIn b c with
      | Some d => spanDigits b s' (acc * b + d) (S len)
      | None => (acc, len, s)
      end
  | EmptyString => (acc, len, s)
  end.

Definition signed (s : string) : bool * string :=
  match s with
  | String "-"%char r => (true, r)
  | String "+"%char r => (false, r)
  | _ => (false, s)
  end.

(** A StrUnsignedDecimalLiteral as [mantissa * 10^exponent]. *)
Definition unsignedDecimal (s : string) : option (Z * Z) :=
  let '(ip, ni, r1) := spanDigits 10 s 0 0 in
  let '(m, nf, r2) := match r1 with
                      | String "."%char r => spanDigits 10 r ip 0
                      | _ => (ip, O, r1)
                      end in
  if (ni + nf =? 0)%nat then None
  else match r2 with
       | EmptyString => Some (m, - Z.of_nat nf)
       | String c r3 =>
           if Ascii.eqb c "e" || Ascii.eqb c "E" then
             let '(neg, r4) := signed r3 in
             let '(e, ne, r5) := spanDigits 10 r4 0 0 in
             if (ne =? 0)%nat || negb (bool_decide (r5 = ""%string)) then None
             else Some (m, (if neg then - e else e) - Z.of_nat nf)
           else None
       end.

Definition radixLiteral (b : Z) (s : string) : jsnum :=
  let '(v, n, r) := spanDigits b s 0 0 in
  if (n =? 0)%nat || negb (bool_decide (r = ""%string)) then JNaN else roundDouble v 1.

Definition StringToNumber (str : string) : jsnum :=
  match trim str with
  | EmptyString => JInt 0
  | String "0"%char (String "x"%char r) | String "0"%char (String "X"%char r) => radixLiteral 16 r
  | String "0"%char (String "o"%char r) | String "0"%char (String "O"%char r) => radixLiteral 8 r
  | String "0"%char (String "b"%char r) | String "0"%char (String "B"%char r) => radixLiteral 2 r
  | s =>
      let '(neg, u) := signed s in
      let v := if bool_decide (u = "Infinity"%string) then JPosInf
               else match unsignedDecimal u with
                    | Some (m, e) => roundDouble (m * 10 ^ Z.max 0 e) (10 ^ Z.max 0 (- e))
                    | None => JNaN
                    end in
      if neg then jneg v else v
  end.

(** [parseInt(s, 10)]: the longest decimal prefix, [NaN] when there is none. *)
Definition parseInt (s : string) : jsnum :=
  let '(neg, r) := signed (trimStart s) in
  let '(v, n, _) := spanDigits 10 r 0 0 in
  if (n =? 0)%nat then JNaN
  else let x := roundDouble v 1 in if neg then jneg x else x.

(** [Number(v)] *)
Definition toNumber (v : jsval) : jsnum :=
  match v with
  | VUndefined => JNaN
  | VNull => JInt 0
  | VBool b => JInt (if b then 1 else 0)
  | VNum n _ => n
  | VBigInt z => if z <? 0 then jneg (roundDouble (- z) 1) else roundDouble z 1
  | VStr s => StringToNumber s
  | VObj _ _ => StringToNumber (toStr v)
  end.

(** Spot checks against the language. *)
Example toNumber_examples :
  map (λ s, StringToNumber s) ["503"; " 429 "; "5e2"; "0x1F4"; "500.0"; "500.5"; "500.00000000000000000001"; "abc"; ""]%string
  = [JInt 503; JInt 429; JInt 500; JInt 500; JInt 500; JNonInt 500; JInt 500; JNaN; JInt 0].
Proof. vm_compute. reflexivity. Qed.

(** ** Facts about rounding *)

Lemma roundHalfEven_bound p q : 0 ≤ p → 0 < q → 0 ≤ roundHalfEven p q ∧ 2 * q * roundHalfEven p q ≤ 2 * p + q.
Proof.
  intros Hp Hq. unfold roundHalfEven. pose proof (Z.div_mod p q ltac:(lia)) as Hd.
  pose proof (Z.mod_pos_bound p q Hq) as Hm. pose proof (Z.div_pos p q Hp Hq) as Hn. cbv zeta.
  case_ifs; zb; split; nia.
Qed.

Lemma doubleExponent_small p q : 0 < p → 0 < q → p < 2 ^ 53 * q → doubleExponent p q ≤ 0.
Proof.
  intros Hp Hq Hlt. unfold doubleExponent. cbv zeta.
  assert (Hl : Z.log2 p ≤ 53 + Z.log2 q).
  { rewrite <-(Z.log2_mul_pow2 q 53) by lia. apply Z.log2_le_mono. lia. }
  destruct (Z.eq_dec (Z.log2 p - Z.log2 q - 52) 1) as [->|Hne].
  - rewrite (proj2 (Z.ltb_lt _ _)); [lia|].
    change (2 ^ Z.max 0 (- (1))) with 1. change (2 ^ Z.max 0 1) with 2. lia.
  - case_ifs; lia.
Qed.

(** [Math.floor] *)
Definition jfloor (n : jsnum) : jsnum :=
  match n with JNonInt f => JInt f | _ => n end.

(** Rounding a quotient below an integer [w] never takes its floor above [w]. *)
Lemma roundDouble_floor p q w : 0 ≤ p → 0 < q → p ≤ w * q → w < 2 ^ 53 →
  ∃ z, jfloor (roundDouble p q) = JInt z ∧ 0 ≤ z ≤ w.
Proof.
  intros Hp Hq Hle Hw. unfold roundDouble. destruct (Z.eqb_spec p 0) as [->|Hne].
  { exists 0. split; [done|]. split; [lia|nia]. }
  assert (Hk : doubleExponent p q ≤ 0) by (apply doubleExponent_small; nia).
  set (k := doubleExponent p q) in *. cbv zeta.
  rewrite (Z.max_r 0 (- k)), (Z.max_l 0 k) by lia. rewrite Z.pow_0_r, Z.mul_1_r.
  set (j := 2 ^ (- k)). assert (Hj : 1 ≤ j) by (pose proof (Z.pow_pos_nonneg 2 (- k)); lia).
  destruct (roundHalfEven_bound (p * j) q ltac:(nia) Hq) as [Hn Hb].
  set (n := roundHalfEven (p * j) q) in *.
  assert (Hnw : n < w * j + 1) by nia.
  destruct (Z.leb_spec 0 k).
  - assert (k = 0) as Hk0 by lia. unfold j in *. rewrite Hk0 in *.
    change (2 ^ - 0) with 1 in *. change (2 ^ 0) with 1. rewrite (proj2 (Z.leb_gt _ _)).
    + exists (n * 1). split; [done|lia].
    + assert (n * 1 ≤ 2 ^ 53) by lia.
      assert (2 ^ 53 < 2 ^ 1024) by (apply Z.pow_lt_mono_r; lia). lia.
  - assert (0 ≤ n / j ≤ w) as Hdiv.
    { split; [apply Z.div_pos; lia|]. apply Z.lt_succ_r, Z.div_lt_upper_bound; nia. }
    case_ifs; exists (n / j); (split; [done|lia]).
Qed.

(** Integers below 2^53 are exact. *)
Lemma roundDouble_int z : 0 ≤ z < 2 ^ 53 → roundDouble z 1 = JInt z.
Proof.
  intros Hz. unfold roundDouble. destruct (Z.eqb_spec z 0) as [->|Hne]; [done|].
  assert (Hk : doubleExponent z 1 ≤ 0) by (apply doubleExponent_small; lia).
  set (k := doubleExponent z 1) in *. cbv zeta. rewrite (Z.max_r 0 (- k)), (Z.max_l 0 k) by lia.
  rewrite Z.pow_0_r, Z.mul_1_r.
  assert (Hj : 0 < 2 ^ (- k)) by (apply Z.pow_pos_nonneg; lia).
  assert (Hr : roundHalfEven (z * 2 ^ (- k)) 1 = z * 2 ^ (- k)).
  { unfold roundHalfEven. rewrite Z.div_1_r, Z.mod_1_r. done. }
  rewrite Hr. destruct (Z.leb_spec 0 k).
  - replace k with 0 by lia. change (2 ^ - 0) with 1. change (2 ^ 0) with 1. rewrite !Z.mul_1_r.
    assert (2 ^ 53 < 2 ^ 1024) by (apply Z.pow_lt_mono_r; lia).
    by rewrite (proj2 (Z.leb_gt _ _)) by lia.
  - rewrite Z.mod_mul, Z.div_mul by lia. done.
Qed.

Lemma digitIn_digit c : is_digit c = true → digitIn 10 c = Some (char_digit c).
Proof.
  intros Hc. unfold digitIn. rewrite Hc. pose proof (char_digit_bound c Hc) as Hb. unfold char_digit in *.
  rewrite (proj2 (Z.ltb_lt _ _)) by lia. done.
Qed.

Lemma spanDigits_digits s acc len : str_forall is_digit s = true →
  spanDigits 10 s acc len = (value_acc acc s, (len + strlen s)%nat, ""%string).
Proof.
  revert acc len; induction s as [|c s IH]; intros acc len H; cbn.
  { by rewrite Nat.add_0_r. }
  cbn in H. apply andb_true_iff in H as [Hc Hs]. rewrite (digitIn_digit c Hc), IH by done.
  replace (acc * 10 + char_digit c) with (10 * acc + char_digit c) by lia.
  replace (S len + strlen s)%nat with (len + S (strlen s))%nat by lia. done.
Qed.

Lemma parseInt_toString z : 0 ≤ z < 2 ^ 53 → parseInt (toString z) = JInt z.
Proof.
  intros Hz. unfold toString. rewrite (proj2 (Z.ltb_ge _ _)) by lia.
  destruct (natToString_spec z ltac:(lia)) as (Hd & Hne & Hv & _). unfold parseInt.
  destruct (natToString z) as [|c s] eqn:Hs; [done|].
  assert (Hc : is_digit c = true) by (cbn in Hd; by apply andb_true_iff in Hd as [? _]).
  rewrite trimStart_id by (apply negb_true_iff, digit_not_space; done).
  assert (Hsg : signed (String c s) = (false, String c s)).
  { unfold signed. pose proof (digit_ne c "-" Hc eq_refl). pose proof (digit_ne c "+" Hc eq_refl).
    destruct c as [[] [] [] [] [] [] [] []]; try done. }
  rewrite Hsg, spanDigits_digits by done. cbn [strlen Nat.add Nat.eqb].
  unfold BigInt_digits in Hv. rewrite Hv. by apply roundDouble_int.
Qed.

(** [s.includes(sub)] *)
Fixpoint contains (sub s : string) : bool :=
  String.prefix sub s || match s with EmptyString => false | String _ s' => contains sub s' end.
