(* ===== verification/Json.v ===== *)
(** * [JSON] and [Buffer] encodings

    What the source uses of the JavaScript and Node standard library to turn
    records into opaque text and back: [JSON.stringify] of strings and integers,
    [JSON.parse], and base64url. A [Buffer] of UTF-8 text is the string itself
    for the ASCII text the source encodes; a byte above 127, which JSON only
    admits inside a string, is kept as one character. *)

From S2P Require Import Prelude JsString JsValue.

(** ** [JSON.parse] *)

Definition isJsonSpace (c : ascii) : bool :=
  let n := N_of_ascii c in ((n =? 32) || (n =? 9) || (n =? 10) || (n =? 13))%N.

Fixpoint skipWs (s : string) : string :=
  match s with
  | String c r => if isJsonSpace c then skipWs r else s
  | EmptyString => EmptyString
  end.

(** The character of a one-letter escape. *)
Definition escaped (e : ascii) : option ascii :=
  match e with
  | "034"%char => Some "034"%char | "\"%char => Some "\"%char | "/"%char => Some "/"%char
  | "b"%char => Some (ascii_of_N 8) | "f"%char => Some (ascii_of_N 12) | "n"%char => Some (ascii_of_N 10)
  | "r"%char => Some (ascii_of_N 13) | "t"%char => Some (ascii_of_N 9)
  | _ => None
  end.

(** A string body, after its opening quote: the text and what follows it. A
    [\u] escape above Latin-1 keeps its low byte. *)
Fixpoint jsonChars (s : string) : option (string * string) :=
  match s with
  | EmptyString => None
  | String "034"%char r => Some (EmptyString, r)
  | String "\"%char r =>
      match r with
      | String "u"%char (String a (String b (String c (String d r')))) =>
          match digitIn 16 a, digitIn 16 b, digitIn 16 c, digitIn 16 d with
          | Some x, Some y, Some z, Some w =>
              '(t, rest) ← jsonChars r';
              Some (String (ascii_of_N (Z.to_N ((((x * 16 + y) * 16 + z) * 16 + w) mod 256))) t, rest)
          | _, _, _, _ => None
          end
      | String e r' =>
          ch ← escaped e; '(t, rest) ← jsonChars r'; Some (String ch t, rest)
      | EmptyString => None
      end
  | String c r =>
      if (N_of_ascii c <? 32)%N then None
      else '(t, rest) ← jsonChars r; Some (String c t, rest)
  end.

(** [int frac? exp?] after the sign, as a mantissa, a decimal exponent and the rest. *)
Definition jsonDecimal (s : string) : option (Z * Z * string) :=
  let '(ip, ni, r1) := spanDigits 10 s 0 0 in
  if (ni =? 0)%nat || ((1 <? ni)%nat && match s with String "0"%char _ => true | _ => false end) then None
  else
    frac ← match r1 with
           | String "."%char r => let '(m, nf, r2) := spanDigits 10 r ip 0 in
                                  if (nf =? 0)%nat then None else Some (m, nf, r2)
           | _ => Some (ip, O, r1)
           end;
    let '(m, nf, r2) := frac in
    match r2 with
    | String c r3 =>
        if Ascii.eqb c "e" || Ascii.eqb c "E" then
          let '(neg, r4) := signed r3 in
          let '(e, ne, r5) := spanDigits 10 r4 0 0 in
          if (ne =? 0)%nat then None else Some (m, (if neg then - e else e) - Z.of_nat nf, r5)
        else Some (m, - Z.of_nat nf, r2)
    | EmptyString => Some (m, - Z.of_nat nf, r2)
    end.

Definition jsonNumber (s : string) : option (jsnum * string) :=
  let '(neg, r) := match s with String "-"%char r => (true, r) | _ => (false, s) end in
  '(m, e, rest) ← jsonDecimal r;
  let v := roundDouble (m * 10 ^ Z.max 0 e) (10 ^ Z.max 0 (- e)) in
  Some (if neg then jneg v else v, rest).

(** [s] without the prefix [p]. *)
Fixpoint stripPrefix (p s : string) : option string :=
  match p, s with
  | EmptyString, _ => Some s
  | String a p', String b s' => if Ascii.eqb a b then stripPrefix p' s' else None
  | _, _ => None
  end.

(** Values, object members and array elements. Members are kept last first, so
    that [lookupField] finds the last of several equal names, as JavaScript does;
    an array is an object whose fields are its indices. *)
Fixpoint jsonValue (fuel : nat) (s : string) : option (jsval * string) :=
  match fuel with
  | O => None
  | S f =>
      match skipWs s with
      | String "{"%char r =>
          match skipWs r with
          | String "}"%char r' => Some (VObj None [], r')
          | r' => jsonMembers f r' []
          end
      | String "["%char r =>
          match skipWs r with
          | String "]"%char r' => Some (VObj None [], r')
          | r' => jsonElements f r' 0 []
          end
      | String "034"%char r => '(t, rest) ← jsonChars r; Some (VStr t, rest)
      | String c r =>
          match stripPrefix "true" (String c r), stripPrefix "false" (String c r), stripPrefix "null" (String c r) with
          | Some rest, _, _ => Some (VBool true, rest)
          | _, Some rest, _ => Some (VBool false, rest)
          | _, _, Some rest => Some (VNull, rest)
          | _, _, _ => '(n, rest) ← jsonNumber (String c r); Some (VNum n "", rest)
          end
      | EmptyString => None
      end
  end
with jsonMembers (fuel : nat) (s : string) (acc : list (string * jsval)) : option (jsval * string) :=
  match fuel with
  | O => None
  | S f =>
      match skipWs s with
      | String "034"%char r =>
          '(k, r1) ← jsonChars r;
          match skipWs r1 with
          | String ":"%char r2 =>
              '(v, r3) ← jsonValue f r2;
              match skipWs r3 with
              | String ","%char r4 => jsonMembers f r4 ((k, v) :: acc)
              | String "}"%char r4 => Some (VObj None ((k, v) :: acc), r4)
              | _ => None
              end
          | _ => None
          end
      | _ => None
      end
  end
with jsonElements (fuel : nat) (s : string) (i : Z) (acc : list (string * jsval)) : option (jsval * string) :=
  match fuel with
  | O => None
  | S f =>
      '(v, r) ← jsonValue f s;
      match skipWs r with
      | String ","%char r' => jsonElements f r' (i + 1) ((toString i, v) :: acc)
      | String "]"%char r' => Some (VObj None ((toString i, v) :: acc), r')
      | _ => None
      end
  end.

(** [JSON.parse(s)]; [None] is a [SyntaxError]. Each call consumes a character. *)
Definition JSON_parse (s : string) : option jsval :=
  '(v, rest) ← jsonValue (S (2 * strlen s)) s;
  if bool_decide (skipWs rest = EmptyString) then Some v else None.

(** Text with its apostrophes read as double quotes, to write examples. *)
Fixpoint dq (s : string) : string :=
  match s with
  | EmptyString => EmptyString
  | String c r => String (if Ascii.eqb c "'" then "034"%char else c) (dq r)
  end.

Example JSON_parse_example :
  JSON_parse (dq "{'id': 12, 'x': [1.5e2, null], 'id': '\u0041b'}") =
    Some (VObj None [("id", VStr "Ab"); ("x", VObj None [("1", VNull); ("0", VNum (JInt 150) "")]);
                     ("id", VNum (JInt 12) "")])%string.
Proof. vm_compute. reflexivity. Qed.

Example JSON_parse_rejects :
  map (λ s, bool_decide (is_Some (JSON_parse (dq s))))
    ["01"; "1."; "[1,]"; "{'a'}"; "nul"; "1 2"; "'a"; " true "; "-0.5"]%string
    = [false; false; false; false; false; false; false; true; true].
Proof. vm_compute. reflexivity. Qed.

(** ** [JSON.stringify] *)

Definition hexDigit (n : N) : ascii := ascii_of_N (if (n <? 10)%N then 48 + n else 87 + n)%N.

(** A character inside a quoted string. *)
Definition quoteChar (c : ascii) (r : string) : string :=
  let n := N_of_ascii c in
  if Ascii.eqb c "034" then String "\" (String "034" r)
  else if Ascii.eqb c "\" then String "\" (String "\" r)
  else if (n =? 8)%N then String "\" (String "b" r)
  else if (n =? 12)%N then String "\" (String "f" r)
  else if (n =? 10)%N then String "\" (String "n" r)
  else if (n =? 13)%N then String "\" (String "r" r)
  else if (n =? 9)%N then String "\" (String "t" r)
  else if (n <? 32)%N then
    String "\" (String "u" (String "0" (String "0" (String (hexDigit (n / 16)) (String (hexDigit (n mod 16)) r)))))
  else String c r.

Fixpoint quoteChars (s : string) (r : string) : string :=
  match s with EmptyString => r | String c s' => quoteChar c (quoteChars s' r) end.

(** [JSON.stringify(s)], followed by [r]. *)
Definition quoted (s r : string) : string := String "034" (quoteChars s (String "034" r)).

Lemma jsonChars_quoteChar c r t rest : jsonChars r = Some (t, rest) →
  jsonChars (quoteChar c r) = Some (String c t, rest).
Proof.
  intros H. transitivity ('(t, rest) ← jsonChars r; Some (String c t, rest)); [|by rewrite H].
  destruct c as [[] [] [] [] [] [] [] []]; reflexivity.
Qed.

Lemma jsonChars_quoteChars s r : jsonChars (quoteChars s (String "034" r)) = Some (s, r).
Proof. induction s as [|c s IH]; [done|]. by apply jsonChars_quoteChar. Qed.

(** ** Numbers *)

(** Decimal digits followed by something that is none. *)
Definition stops (rest : string) : Prop :=
  match rest with
  | EmptyString => True
  | String c _ => is_digit c = false ∧ c ≠ "."%char ∧ c ≠ "e"%char ∧ c ≠ "E"%char
  end.

Lemma digitIn_other c : is_digit c = false → digitIn 10 c = None.
Proof. destruct c as [[] [] [] [] [] [] [] []]; cbn; first [done | intros; reflexivity]. Qed.

Lemma spanDigits_stop s rest acc len : str_forall is_digit s = true → stops rest →
  spanDigits 10 (s +:+ rest) acc len = (value_acc acc s, (len + strlen s)%nat, rest).
Proof.
  revert acc len; induction s as [|c s IH]; intros acc len H Hr.
  - rewrite app_nil_l_str. cbn [value_acc strlen]. rewrite Nat.add_0_r. destruct rest as [|c rest]; [done|].
    cbn [spanDigits]. by rewrite digitIn_other by apply Hr.
  - cbn in H. apply andb_true_iff in H as [Hc Hs]. rewrite app_cons_str. cbn [spanDigits].
    rewrite (digitIn_digit c Hc), IH by done. cbn [value_acc strlen].
    replace (acc * 10 + char_digit c) with (10 * acc + char_digit c) by lia.
    replace (S len + strlen s)%nat with (len + S (strlen s))%nat by lia. done.
Qed.

Lemma natToString_no_leading_zero n s : 0 ≤ n → natToString n = String "0" s → s = EmptyString.
Proof.
  intros Hn He. destruct (natToString_spec n Hn) as (Hd & _ & Hv & Hl). rewrite He in *.
  destruct s as [|c s]; [done|exfalso]. specialize (Hl (strlen (String c s)) ltac:(cbn; lia)).
  enough (strlen (String "0" (String c s)) ≤ strlen (String c s))%nat by (cbn in *; lia). apply Hl.
  unfold BigInt_digits in Hv. cbn [str_forall] in Hd. apply andb_true_iff in Hd as [_ Hd].
  rewrite <-Hv. change (value_acc 0 (String "0" (String c s))) with (value_acc 0 (String c s)).
  by apply value_acc_bound.
Qed.

Lemma jsonDecimal_natToString n rest : 0 ≤ n → stops rest →
  jsonDecimal (natToString n +:+ rest) = Some (n, 0, rest).
Proof.
  intros Hn Hr. destruct (natToString_spec n Hn) as (Hd & Hne & Hv & _). unfold jsonDecimal.
  rewrite spanDigits_stop by done. cbn [Nat.add].
  destruct (natToString n) as [|c s] eqn:Hs; [done|]. rewrite app_cons_str. cbn [strlen Nat.eqb orb].
  assert ((1 <? S (strlen s))%nat && match c with "0"%char => true | _ => false end = false) as ->.
  { destruct (decide (c = "0"%char)) as [->|Hc].
    - by rewrite (natToString_no_leading_zero n s Hn Hs).
    - rewrite andb_comm. destruct c as [[] [] [] [] [] [] [] []]; try done. }
  unfold BigInt_digits in Hv. rewrite Hv.
  destruct rest as [|d rest]; [done|]. destruct Hr as (Hd1 & Hd2 & Hd3 & Hd4).
  assert (∀ A (a b : A), match d with "."%char => a | _ => b end = b) as Hdot.
  { intros A a b. destruct d as [[] [] [] [] [] [] [] []]; try done. }
  rewrite Hdot. cbn [mbind option_bind].
  by rewrite (proj2 (Ascii.eqb_neq d "e") Hd3), (proj2 (Ascii.eqb_neq d "E") Hd4).
Qed.

Lemma jsonNumber_toString z rest : Z.abs z < 2 ^ 53 → stops rest →
  jsonNumber (toString z +:+ rest) = Some (JInt z, rest).
Proof.
  intros Hz Hr. unfold jsonNumber, toString. destruct (Z.ltb_spec z 0).
  - rewrite app_cons_str. rewrite jsonDecimal_natToString by (done || lia). cbn [mbind option_bind].
    change (Z.max 0 0) with 0. change (Z.max 0 (- 0)) with 0. rewrite !Z.pow_0_r, Z.mul_1_r.
    rewrite roundDouble_int by lia. cbn [jneg]. by rewrite Z.opp_involutive.
  - assert (∀ A (f : string → A) s, 0 ≤ z → natToString z = s →
      match s +:+ rest with String "-" r => (true, r) | _ => (false, s +:+ rest) end = (false, s +:+ rest)) as Hsign.
    { intros A f s _ <-. destruct (natToString_spec z ltac:(lia)) as (Hd & Hne & _).
      destruct (natToString z) as [|c s]; [done|]. cbn [str_forall] in Hd. apply andb_true_iff in Hd as [Hc _].
      rewrite app_cons_str. destruct c as [[] [] [] [] [] [] [] []]; done. }
    rewrite (Hsign unit (λ _, tt) _ ltac:(lia) eq_refl).
    rewrite jsonDecimal_natToString by (done || lia). cbn [mbind option_bind].
    change (Z.max 0 0) with 0. change (Z.max 0 (- 0)) with 0. rewrite !Z.pow_0_r, Z.mul_1_r.
    by rewrite roundDouble_int by lia.
Qed.

(** ** base64url *)

(** Bits of a byte and of a six-bit digit, most significant first. *)
Definition byteBits (c : ascii) : list bool :=
  let '(Ascii b0 b1 b2 b3 b4 b5 b6 b7) := c in [b7; b6; b5; b4; b3; b2; b1; b0].
Fixpoint stringBits (s : string) : list bool :=
  match s with EmptyString => [] | String c r => byteBits c ++ stringBits r end.

(** The alphabet of base64url, and the digits [Buffer] decodes: both base64
    alphabets. *)
Definition base64Char (n : N) : ascii :=
  ascii_of_N (if n <? 26 then 65 + n else if n <? 52 then 71 + n else if n <? 62 then n - 4
              else if n =? 62 then 45 else 95)%N.
Definition base64Digit (c : ascii) : option N :=
  (let n := N_of_ascii c in
   if (65 <=? n) && (n <=? 90) then Some (n - 65)
   else if (97 <=? n) && (n <=? 122) then Some (n - 71)
   else if (48 <=? n) && (n <=? 57) then Some (n + 4)
   else if (n =? 45) || (n =? 43) then Some 62
   else if (n =? 95) || (n =? 47) then Some 63
   else None)%N.

Definition bitN (b : bool) : N := if b then 1%N else 0%N.
Definition sextet (a b c d e f : bool) : ascii :=
  base64Char (bitN a * 32 + bitN b * 16 + bitN c * 8 + bitN d * 4 + bitN e * 2 + bitN f)%N.
Definition digitBits (n : N) : list bool :=
  [N.testbit n 5; N.testbit n 4; N.testbit n 3; N.testbit n 2; N.testbit n 1; N.testbit n 0].

(** [Buffer.from(s).toString("base64url")]: six bits a digit, the last ones padded with zeros. *)
Fixpoint encodeBits (bs : list bool) : string :=
  match bs with
  | a :: b :: c :: d :: e :: f :: r => String (sextet a b c d e f) (encodeBits r)
  | [a; b; c; d] => String (sextet a b c d false false) EmptyString
  | [a; b] => String (sextet a b false false false false) EmptyString
  | _ => EmptyString
  end.
Definition toBase64url (s : string) : string := encodeBits (stringBits s).

(** [Buffer.from(s, "base64url")]: stop at the padding, skip what is no digit,
    drop an incomplete last byte. *)
Fixpoint decodeDigits (s : string) : list bool :=
  match s with
  | EmptyString => []
  | String c r =>
      if Ascii.eqb c "=" then []
      else match base64Digit c with Some n => digitBits n ++ decodeDigits r | None => decodeDigits r end
  end.
Fixpoint bytesOf (bs : list bool) : string :=
  match bs with
  | b7 :: b6 :: b5 :: b4 :: b3 :: b2 :: b1 :: b0 :: r => String (Ascii b0 b1 b2 b3 b4 b5 b6 b7) (bytesOf r)
  | _ => EmptyString
  end.
Definition fromBase64url (s : string) : string := bytesOf (decodeDigits s).

Example base64url_example : toBase64url (dq "{'id':7}") = "eyJpZCI6N30"%string.
Proof. reflexivity. Qed.

Lemma decode_sextet a b c d e f r :
  decodeDigits (String (sextet a b c d e f) r) = [a; b; c; d; e; f] ++ decodeDigits r.
Proof. destruct a, b, c, d, e, f; reflexivity. Qed.

(** Decoding gives the bits back, with fewer than eight zeros after them. *)
Lemma decode_encodeBits n bs : (length bs = 2 * n)%nat →
  ∃ pad, decodeDigits (encodeBits bs) = bs ++ pad ∧ (length pad < 8)%nat.
Proof.
  revert bs. induction (lt_wf n) as [n _ IH]. intros bs Hn.
  destruct bs as [|a [|b [|c [|d [|e [|f r]]]]]]; cbn in Hn; try lia.
  - exists []. split; [done|cbn; lia].
  - exists [false; false; false; false]. cbn [encodeBits]. rewrite decode_sextet. split; [done|cbn; lia].
  - exists [false; false]. cbn [encodeBits]. rewrite decode_sextet. split; [done|cbn; lia].
  - destruct (IH (n - 3)%nat ltac:(lia) r ltac:(lia)) as (pad & Hd & Hp). exists pad. split; [|done].
    cbn [encodeBits]. rewrite decode_sextet, Hd. done.
Qed.

Lemma bytesOf_stringBits s pad : (length pad < 8)%nat → bytesOf (stringBits s ++ pad) = s.
Proof.
  intros Hp. induction s as [|c s IH].
  - do 8 (destruct pad as [|? pad]; [done|]). cbn in Hp. lia.
  - destruct c. cbn. by rewrite IH.
Qed.

Lemma stringBits_length s : (length (stringBits s) = 2 * (4 * strlen s))%nat.
Proof. induction s as [|[] s IH]; [done|]. cbn [stringBits byteBits app length strlen]. rewrite IH. lia. Qed.

(** Encoding and decoding any bytes gives them back. *)
Lemma base64url_roundtrip s : fromBase64url (toBase64url s) = s.
Proof.
  unfold fromBase64url, toBase64url.
  destruct (decode_encodeBits _ _ (stringBits_length s)) as (pad & -> & Hp). by apply bytesOf_stringBits.
Qed.

(** ** Parsing what is printed *)

Lemma toString_head z : ∃ c s, toString z = String c s ∧ (is_digit c = true ∨ c = "-"%char).
Proof.
  unfold toString. destruct (Z.ltb_spec z 0); [eauto|].
  destruct (natToString_spec z ltac:(lia)) as (Hd & Hne & _).
  destruct (natToString z) as [|c s]; [done|]. cbn in Hd. apply andb_true_iff in Hd as [Hc _]. eauto.
Qed.

(** A text that starts like a number is read as one. *)
Lemma jsonValue_numeral f c s : is_digit c = true ∨ c = "-"%char →
  jsonValue (S f) (String c s) = ('(n, r) ← jsonNumber (String c s); Some (VNum n "", r)).
Proof.
  intros [Hc| ->]; [|done]. destruct c as [[] [] [] [] [] [] [] []]; first [discriminate Hc | reflexivity].
Qed.

Lemma jsonValue_number f z rest : Z.abs z < 2 ^ 53 → stops rest →
  jsonValue (S f) (toString z +:+ rest) = Some (VNum (JInt z) "", rest).
Proof.
  intros Hz Hr. pose proof (jsonNumber_toString z rest Hz Hr) as Hn.
  destruct (toString_head z) as (c & s & Hs & Hc). rewrite Hs, app_cons_str in *.
  rewrite jsonValue_numeral by done. by rewrite Hn.
Qed.

(** A member [name: value] read by [jsonMembers]. *)
Lemma jsonMembers_member f k s acc v r : jsonValue f s = Some (v, r) →
  jsonMembers (S f) (quoted k (String ":" s)) acc =
  match skipWs r with
  | String ","%char r4 => jsonMembers f r4 ((k, v) :: acc)
  | String "}"%char r4 => Some (VObj None ((k, v) :: acc), r4)
  | _ => None
  end.
Proof.
  intros Hv. unfold quoted. cbn [jsonMembers skipWs isJsonSpace].
  transitivity ('(k', r1) ← jsonChars (quoteChars k (String "034" (String ":" s)));
    match skipWs r1 with
    | String ":"%char r2 =>
        '(v, r3) ← jsonValue f r2;
        match skipWs r3 with
        | String ","%char r4 => jsonMembers f r4 ((k', v) :: acc)
        | String "}"%char r4 => Some (VObj None ((k', v) :: acc), r4)
        | _ => None
        end
    | _ => None
    end); [reflexivity|].
  rewrite jsonChars_quoteChars. cbn [mbind option_bind].
  transitivity ('(v, r3) ← jsonValue f s;
    match skipWs r3 with
    | String ","%char r4 => jsonMembers f r4 ((k, v) :: acc)
    | String "}"%char r4 => Some (VObj None ((k, v) :: acc), r4)
    | _ => None
    end); [reflexivity|]. by rewrite Hv.
Qed.

Lemma jsonValue_quoted f s r : jsonValue (S f) (quoted s r) = Some (VStr s, r).
Proof.
  transitivity ('(t, rest) ← jsonChars (quoteChars s (String "034" r)); Some (VStr t, rest)); [reflexivity|].
  by rewrite jsonChars_quoteChars.
Qed.
