(* ===== verification/JsonText.v ===== *)
(** * JSON documents and their text

    [JSON.stringify] on documents built of null, booleans, numbers, strings,
    arrays and objects, and the value [JSON.parse] makes of the text. A number
    that is no integer is kept with its text ([DNum]). *)

From S2P Require Import Prelude JsString JsValue Json.

#[local] Unset Elimination Schemes.
Inductive Doc : Type :=
| DNull
| DBool (b : bool)
| DInt (z : Z)
| DNum (c : ascii) (s : string) (n : jsnum)
| DStr (s : string)
| DArr (l : list Doc)
| DObj (m : list (string * Doc)).
#[local] Set Elimination Schemes.

Section Induction.
Context (Q : Doc → Prop).
Hypothesis (QNull : Q DNull) (QBool : ∀ b, Q (DBool b)) (QInt : ∀ z, Q (DInt z)) (QNum : ∀ c s n, Q (DNum c s n)) (QStr : ∀ s, Q (DStr s)).
Hypothesis (QArr : ∀ l, Forall Q l → Q (DArr l)) (QObj : ∀ m, Forall (λ p, Q p.2) m → Q (DObj m)).

Fixpoint Doc_ind (d : Doc) : Q d :=
  match d with
  | DNull => QNull | DBool b => QBool b | DInt z => QInt z | DNum c s n => QNum c s n | DStr s => QStr s
  | DArr l => QArr l ((fix go l := match l return Forall Q l with [] => Forall_nil_2 Q | x :: l => Forall_cons_2 Q x l (Doc_ind x) (go l) end) l)
  | DObj m => QObj m ((fix go m := match m return Forall (λ p, Q p.2) m with
                                   | [] => Forall_nil_2 _ | x :: m => Forall_cons_2 _ x m (Doc_ind x.2) (go m) end) m)
  end.
End Induction.

(** [JSON.stringify(d)], followed by [r]. *)
Fixpoint docText (d : Doc) (r : string) : string :=
  match d with
  | DNull => "null" +:+ r
  | DBool b => (if b then "true" else "false") +:+ r
  | DInt z => toString z +:+ r
  | DNum c s _ => String c (s +:+ r)
  | DStr s => quoted s r
  | DArr [] => String "[" (String "]" r)
  | DArr (x :: l) => String "[" (docText x ((fix go l := match l with [] => String "]" r | y :: l => String "," (docText y (go l)) end) l))
  | DObj [] => String "{" (String "}" r)
  | DObj ((k, v) :: m) =>
      String "{" (quoted k (String ":" (docText v ((fix go m := match m with
        | [] => String "}" r
        | (k, v) :: m => String "," (quoted k (String ":" (docText v (go m))))
        end) m))))
  end.

Definition elementsTail (l : list Doc) (r : string) : string :=
  (fix go l := match l with [] => String "]" r | y :: l => String "," (docText y (go l)) end) l.
Definition membersTail (m : list (string * Doc)) (r : string) : string :=
  (fix go m := match m with
   | [] => String "}" r
   | (k, v) :: m => String "," (quoted k (String ":" (docText v (go m))))
   end) m.

Definition JSON_stringify (d : Doc) : string := docText d "".

(** The value parsing yields: members and elements last first, as [jsonValue] keeps them. *)
Fixpoint numbered (i : Z) (l : list jsval) : list (string * jsval) :=
  match l with [] => [] | v :: l => (toString i, v) :: numbered (i + 1) l end.

Fixpoint docValue (d : Doc) : jsval :=
  match d with
  | DNull => VNull
  | DBool b => VBool b
  | DInt z => VNum (JInt z) ""
  | DNum _ _ n => VNum n ""
  | DStr s => VStr s
  | DArr l => VObj None (rev (numbered 0 (map docValue l)))
  | DObj m => VObj None (rev (map (λ p, (p.1, docValue p.2)) m))
  end.

(** [String c s] is a numeral, read back as [n]. *)
Definition reads (c : ascii) (s : string) (n : jsnum) : Prop :=
  (is_digit c = true ∨ c = "-"%char) ∧ ∀ r, stops r → jsonNumber (String c (s +:+ r)) = Some (n, r).

(** The integers are those a double holds exactly, other numbers read back. *)
Fixpoint exact (d : Doc) : Prop :=
  match d with
  | DInt z => Z.abs z < 2 ^ 53
  | DNum c s n => reads c s n
  | DArr l => (fix go l := match l with [] => True | x :: l => exact x ∧ go l end) l
  | DObj m => (fix go m := match m with [] => True | x :: m => exact x.2 ∧ go m end) m
  | _ => True
  end.

Lemma exact_arr l : exact (DArr l) ↔ Forall exact l.
Proof. induction l as [|x l IH]; cbn in *; [by split|]. rewrite Forall_cons. by rewrite IH. Qed.
Lemma exact_obj m : exact (DObj m) ↔ Forall (λ p, exact p.2) m.
Proof. induction m as [|x m IH]; cbn in *; [by split|]. rewrite Forall_cons. by rewrite IH. Qed.

#[local] Arguments quoted : simpl never.

Lemma strlen_quoteChars s r : (strlen (quoteChars s r) ≥ strlen r)%nat.
Proof.
  induction s as [|c s IH]; cbn; [lia|]. unfold quoteChar. case_ifs; cbn; lia.
Qed.
Lemma strlen_quoted s r : (strlen (quoted s r) ≥ 2 + strlen r)%nat.
Proof. unfold quoted. cbn. pose proof (strlen_quoteChars s (String "034" r)) as H. cbn in H. lia. Qed.

(** The text of a document is not empty, and does not start with a space or a bracket's end. *)
Definition opens (c : ascii) : Prop := isJsonSpace c = false ∧ c ≠ "]"%char ∧ c ≠ "}"%char.
Lemma numeral_opens c : is_digit c = true ∨ c = "-"%char → opens c.
Proof.
  intros [Hc| ->]; [|split; [done|split; discriminate]].
  destruct c as [[] [] [] [] [] [] [] []]; try discriminate Hc; (split; [done|split; discriminate]).
Qed.

Lemma docText_head d r : exact d → ∃ c s, docText d r = String c s ∧ opens c.
Proof.
  destruct d as [|[]|z|c s n|s|[|x l]|[|[k v] m]]; cbn; intros He;
    try (eexists _, _; split; [reflexivity|split; [reflexivity|split; discriminate]]).
  - destruct (toString_head z) as (c & s & -> & Hc). exists c, (s +:+ r). split; [done|]. by apply numeral_opens.
  - eexists _, _. split; [done|]. by apply numeral_opens, He.
Qed.

Lemma docText_arr x l r : docText (DArr (x :: l)) r = String "[" (docText x (elementsTail l r)).
Proof. done. Qed.
Lemma docText_obj k v m r : docText (DObj ((k, v) :: m)) r = String "{" (quoted k (String ":" (docText v (membersTail m r)))).
Proof. done. Qed.

Lemma docText_length d r : (S (strlen r) ≤ strlen (docText d r))%nat.
Proof.
  revert r. induction d as [|b|z|c s n|s|l IH|m IH] using Doc_ind; intros r.
  - cbn [docText]. rewrite strlen_app. cbn. lia.
  - cbn [docText]. rewrite strlen_app. destruct b; cbn; lia.
  - cbn [docText]. rewrite strlen_app. pose proof (toString_head z) as (c & s & -> & _). cbn. lia.
  - cbn. rewrite strlen_app. lia.
  - cbn [docText]. pose proof (strlen_quoted s r). lia.
  - destruct IH as [|x l Hx IH]; [cbn; lia|]. rewrite docText_arr. cbn. specialize (Hx (elementsTail l r)).
    enough (strlen r ≤ strlen (elementsTail l r))%nat by lia. clear Hx. induction IH as [|y l Hy _ IH]; cbn; [lia|].
    specialize (Hy (elementsTail l r)). fold (elementsTail l r). lia.
  - destruct IH as [|[k v] m Hv IH]; [cbn; lia|]. rewrite docText_obj. cbn [strlen]. cbn in Hv. specialize (Hv (membersTail m r)).
    pose proof (strlen_quoted k (String ":" (docText v (membersTail m r)))) as Hq. cbn [strlen] in Hq.
    enough (strlen r ≤ strlen (membersTail m r))%nat by lia. clear Hv Hq. induction IH as [|[k' w] m Hw _ IH]; cbn; [lia|].
    cbn in Hw. specialize (Hw (membersTail m r)). fold (membersTail m r).
    pose proof (strlen_quoted k' (String ":" (docText w (membersTail m r)))) as Hq. cbn [strlen] in Hq. lia.
Qed.

Lemma elementsTail_length l r : (S (strlen r) ≤ strlen (elementsTail l r))%nat.
Proof.
  induction l as [|x l IH]; cbn; [lia|]. fold (elementsTail l r). pose proof (docText_length x (elementsTail l r)). lia.
Qed.
Lemma membersTail_length m r : (S (strlen r) ≤ strlen (membersTail m r))%nat.
Proof.
  induction m as [|[k v] m IH]; cbn; [lia|]. fold (membersTail m r).
  pose proof (docText_length v (membersTail m r)). pose proof (strlen_quoted k (String ":" (docText v (membersTail m r)))) as Hq. cbn in Hq. lia.
Qed.

Lemma elementsTail_stops l r : stops (elementsTail l r).
Proof. destruct l; repeat split; discriminate. Qed.
Lemma membersTail_stops m r : stops (membersTail m r).
Proof. destruct m as [|[]]; repeat split; discriminate. Qed.

(** What [jsonValue] does behind an opening bracket, once the next character is known. *)
Lemma jsonValue_bracket f c s : opens c → jsonValue (S f) (String "[" (String c s)) = jsonElements f (String c s) 0 [].
Proof.
  intros (Hs & H1 & _). transitivity (match skipWs (String c s) with String "]"%char r' => Some (VObj None [], r') | r' => jsonElements f r' 0 [] end);
    [reflexivity|].
  assert (skipWs (String c s) = String c s) as -> by (cbn; by rewrite Hs).
  destruct c as [[] [] [] [] [] [] [] []]; first [reflexivity | by destruct H1].
Qed.
Lemma jsonValue_brace f k s : jsonValue (S f) (String "{" (quoted k s)) = jsonMembers f (quoted k s) [].
Proof. reflexivity. Qed.

Definition parses (d : Doc) : Prop := ∀ f r, stops r → (strlen (docText d r) ≤ f + strlen r)%nat →
  jsonValue f (docText d r) = Some (docValue d, r).

Lemma elements_parse x l : parses x → Forall parses l → ∀ f i acc r, (strlen (docText x (elementsTail l r)) ≤ f + strlen r)%nat →
  jsonElements f (docText x (elementsTail l r)) i acc = Some (VObj None (rev (numbered i (map docValue (x :: l))) ++ acc), r).
Proof.
  intros Hx Hl. revert x Hx. induction Hl as [|y l Hy Hl IH]; intros x Hx f i acc r Hf.
  - pose proof (docText_length x (elementsTail [] r)). destruct f as [|f]; [cbn in *; lia|].
    transitivity ('(v, r0) ← jsonValue f (docText x (elementsTail [] r));
      match skipWs r0 with
      | String ","%char r' => jsonElements f r' (i + 1) ((toString i, v) :: acc)
      | String "]"%char r' => Some (VObj None ((toString i, v) :: acc), r')
      | _ => None end); [reflexivity|].
    rewrite Hx; [reflexivity|apply elementsTail_stops|cbn in *; lia].
  - change (elementsTail (y :: l) r) with (String "," (docText y (elementsTail l r))) in *.
    pose proof (docText_length x (String "," (docText y (elementsTail l r)))).
    pose proof (docText_length y (elementsTail l r)). pose proof (elementsTail_length l r).
    destruct f as [|f]; [cbn in *; lia|].
    transitivity ('(v, r0) ← jsonValue f (docText x (String "," (docText y (elementsTail l r))));
      match skipWs r0 with
      | String ","%char r' => jsonElements f r' (i + 1) ((toString i, v) :: acc)
      | String "]"%char r' => Some (VObj None ((toString i, v) :: acc), r')
      | _ => None end); [reflexivity|].
    rewrite Hx; [|repeat split; discriminate|cbn in *; lia]. cbn [mbind option_bind].
    transitivity (jsonElements f (docText y (elementsTail l r)) (i + 1) ((toString i, docValue x) :: acc)); [reflexivity|].
    rewrite IH; [|done|cbn in *; lia]. cbn [map numbered rev]. by rewrite <-!app_assoc.
Qed.

Lemma members_parse k v m : parses v → Forall (λ p, parses p.2) m → ∀ f acc r,
  (strlen (quoted k (String ":" (docText v (membersTail m r)))) ≤ f + strlen r)%nat →
  jsonMembers f (quoted k (String ":" (docText v (membersTail m r)))) acc =
  Some (VObj None (rev (map (λ p, (p.1, docValue p.2)) ((k, v) :: m)) ++ acc), r).
Proof.
  intros Hv Hm. revert k v Hv. induction Hm as [|[k' v'] m Hv' Hm IH]; intros k v Hv f acc r Hf;
    pose proof (strlen_quoted k (String ":" (docText v (membersTail [] r)))) as Hq;
    pose proof (docText_length v (membersTail [] r)).
  - destruct f as [|f]; [cbn in *; lia|].
    rewrite (jsonMembers_member f k _ acc (docValue v) (membersTail [] r)); [reflexivity|].
    apply Hv; [apply membersTail_stops|cbn in *; lia].
  - change (membersTail ((k', v') :: m) r) with (String "," (quoted k' (String ":" (docText v' (membersTail m r))))) in *.
    clear Hq H. pose proof (strlen_quoted k (String ":" (docText v (String "," (quoted k' (String ":" (docText v' (membersTail m r)))))))) as Hq.
    pose proof (docText_length v (String "," (quoted k' (String ":" (docText v' (membersTail m r)))))).
    pose proof (strlen_quoted k' (String ":" (docText v' (membersTail m r)))).
    pose proof (docText_length v' (membersTail m r)). pose proof (membersTail_length m r).
    destruct f as [|f]; [cbn [strlen] in *; lia|].
    rewrite (jsonMembers_member f k _ acc (docValue v) (String "," (quoted k' (String ":" (docText v' (membersTail m r)))))).
    + transitivity (jsonMembers f (quoted k' (String ":" (docText v' (membersTail m r)))) ((k, docValue v) :: acc)); [reflexivity|].
      rewrite IH; [|done|cbn [strlen] in *; lia]. cbn [map rev fst snd]. by rewrite <-!app_assoc.
    + apply Hv; [repeat split; discriminate|cbn [strlen] in *; lia].
Qed.

Lemma docText_parses d : exact d → parses d.
Proof.
  induction d as [|b|z|c s n|s|l IH|m IH] using Doc_ind; intros He f r Hr Hf;
    (destruct f as [|f]; [match goal with |- jsonValue 0 (docText ?d r) = _ => pose proof (docText_length d r); lia end|]).
  - reflexivity.
  - destruct b; reflexivity.
  - by apply jsonValue_number.
  - destruct He as [Hc Hn]. cbn [docText]. rewrite jsonValue_numeral by done. by rewrite Hn.
  - apply jsonValue_quoted.
  - apply exact_arr in He. assert (Forall parses l) as Hl by (apply Forall_forall; intros x Hx; rewrite Forall_forall in IH, He; auto).
    destruct Hl as [|x l Hx Hl]; [reflexivity|]. rewrite docText_arr in *.
    destruct (docText_head x (elementsTail l r)) as (c & s & Hc & Ho); [by inversion He|]. rewrite Hc. rewrite jsonValue_bracket by done. rewrite <-Hc.
    rewrite elements_parse; [by rewrite app_nil_r|done..|cbn [strlen] in Hf; lia].
  - apply exact_obj in He. assert (Forall (λ p, parses p.2) m) as Hm by (apply Forall_forall; intros x Hx; rewrite Forall_forall in IH, He; auto).
    destruct Hm as [|[k v] m Hv Hm]; [reflexivity|]. rewrite docText_obj in *. rewrite jsonValue_brace.
    rewrite members_parse; [by rewrite app_nil_r|done..|cbn [strlen] in Hf; lia].
Qed.

(** Parsing the text of a document gives its value. *)
Theorem JSON_roundtrip d : exact d → JSON_parse (JSON_stringify d) = Some (docValue d).
Proof.
  intros He. unfold JSON_parse, JSON_stringify. rewrite docText_parses; [reflexivity|done|done|cbn; lia].
Qed.
