(* ===== verification/RequestInput.v ===== *)
(** * What a handler gets to see of a request

    [middleware/validateRequest.ts] runs the schema of a route over the body, the
    query and the parameters and escapes every string of what the schema returns;
    [middleware/sanitize.middleware.ts] drops dangerous keys. Schemas are
    arguments: what [parseAsync] resolves to, or the issues it rejects with. *)

From S2P Require Import Prelude JsString JsValue Json JsonText.

(** ** Escaping *)

(** [s.replace(/c/g, r)] for a single character. *)
Fixpoint replaceAll (c : ascii) (r : string) (s : string) : string :=
  match s with
  | EmptyString => EmptyString
  | String d s => if Ascii.eqb d c then r +:+ replaceAll c r s else String d (replaceAll c r s)
  end.

Definition QUOTE : ascii := "034"%char.

Definition sanitizeString (value : string) : string :=
  replaceAll "'" "&#x27;" (replaceAll QUOTE "&quot;" (replaceAll ">" "&gt;" (replaceAll "<" "&lt;" (replaceAll "&" "&amp;" (trim value))))).

(** Arrays are objects here; a map over either is a map over the fields. *)
Fixpoint sanitizeValue (value : jsval) : jsval :=
  match value with
  | VStr s => VStr (sanitizeString s)
  | VObj _ fields => VObj None ((fix go fs := match fs with [] => [] | (k, v) :: fs => (k, sanitizeValue v) :: go fs end) fields)
  | v => v
  end.
Definition sanitizeObject (fields : list (string * jsval)) : list (string * jsval) := map (λ '(k, v), (k, sanitizeValue v)) fields.

(** ** [validateRequest] *)

(** What [parseAsync] rejects with: an error with issues (a path and a message), or another. *)
Inductive schema_error : Type := ZodError (issues : list (list string * string)) | OtherError (m : string).
Definition Schema : Type := jsval → result schema_error jsval.
Record Schemas : Type := { s_body : option Schema; s_query : option Schema; s_params : option Schema }.
Record Request : Type := { body : jsval; query : jsval; params : jsval }.

(** What [next] is called with. *)
Inductive Next : Type := Proceed | Invalid (message : string) (errors : list (string * string)) | Raise (e : schema_error).

Definition pathText (path : list string) : string := join "." path.

Definition nextOf (e : schema_error) : Next :=
  match e with
  | ZodError ((path, m) :: issues) =>
      let fieldName := pathText path in
      Invalid (if bool_decide (fieldName = ""%string) then m else fieldName +:+ ": " +:+ m)
              (map (λ '(p, m), (pathText p, m)) ((path, m) :: issues))
  | _ => Raise e
  end.

Definition parsePart (s : option Schema) (v : jsval) : result schema_error jsval :=
  match s with None => Ok v | Some parse => parsed ← parse v; Ok (sanitizeValue parsed) end.

(** Each part is replaced as soon as it is parsed. *)
Definition validateRequest (schema : Schemas) (req : Request) : Next * Request :=
  match parsePart (s_body schema) (body req) with
  | Err e => (nextOf e, req)
  | Ok b =>
      let req := {| body := b; query := query req; params := params req |} in
      match parsePart (s_query schema) (query req) with
      | Err e => (nextOf e, req)
      | Ok q =>
          let req := {| body := body req; query := q; params := params req |} in
          match parsePart (s_params schema) (params req) with
          | Err e => (nextOf e, req)
          | Ok p => (Proceed, {| body := body req; query := query req; params := p |})
          end
      end
  end.

(** ** [sanitizeBody] *)

Definition DANGEROUS_KEYS : list string := ["__proto__"; "constructor"; "prototype"].

Definition dangerous (k : string) : bool := bool_decide (k ∈ DANGEROUS_KEYS).
Definition refused (allowedFields : option (list string)) (depth : nat) (k : string) : bool :=
  dangerous k || match allowedFields with Some l => (depth =? 0)%nat && negb (bool_decide (k ∈ l)) | None => false end.

(** The document without the refused keys, and the keys stripped, in order. *)
Fixpoint stripKeys (d : Doc) (allowedFields : option (list string)) (depth : nat) : Doc * list string :=
  if (20 <? depth)%nat then (d, [])
  else match d with
  | DArr l =>
      let r := (fix go l := match l with [] => ([], []) | x :: l =>
        let '(y, s) := stripKeys x None (S depth) in let '(ys, ss) := go l in (y :: ys, s ++ ss) end) l in
      (DArr r.1, r.2)
  | DObj m =>
      let r := (fix go m := match m with [] => ([], []) | (k, v) :: m =>
        if refused allowedFields depth k then let '(ms, ss) := go m in (ms, k :: ss)
        else let '(v', s) := stripKeys v None (S depth) in let '(ms, ss) := go m in ((k, v') :: ms, s ++ ss) end) m in
      (DObj r.1, r.2)
  | _ => (d, [])
  end.

(** A body that is no object passes; so do its members beyond the depth. *)
Definition sanitizeBody (allowedFields : option (list string)) (d : Doc) : Doc := (stripKeys d allowedFields 0).1.

(** ** Escaping, in one pass *)

Definition entity (c : ascii) : string :=
  if Ascii.eqb c "&" then "&amp;" else if Ascii.eqb c "<" then "&lt;" else if Ascii.eqb c ">" then "&gt;"
  else if Ascii.eqb c QUOTE then "&quot;" else if Ascii.eqb c "'" then "&#x27;" else String c "".

Fixpoint escapeText (s : string) : string :=
  match s with EmptyString => EmptyString | String c s => entity c +:+ escapeText s end.

(** The text a browser shows for escaped text. *)
Fixpoint shownText (s : string) : string :=
  match s with
  | String "&" (String "a" (String "m" (String "p" (String ";" r)))) => String "&" (shownText r)
  | String "&" (String "l" (String "t" (String ";" r))) => String "<" (shownText r)
  | String "&" (String "g" (String "t" (String ";" r))) => String ">" (shownText r)
  | String "&" (String "q" (String "u" (String "o" (String "t" (String ";" r))))) => String QUOTE (shownText r)
  | String "&" (String "#" (String "x" (String "2" (String "7" (String ";" r))))) => String "'" (shownText r)
  | String c r => String c (shownText r)
  | EmptyString => EmptyString
  end.

Lemma replaceAll_app c r s t : replaceAll c r (s +:+ t) = (replaceAll c r s +:+ replaceAll c r t)%string.
Proof. induction s as [|d s IH]; [done|]. rewrite app_cons_str. cbn [replaceAll]. rewrite IH. destruct (Ascii.eqb d c); [by rewrite app_assoc_str|done]. Qed.

Definition chain (s : string) : string :=
  replaceAll "'" "&#x27;" (replaceAll QUOTE "&quot;" (replaceAll ">" "&gt;" (replaceAll "<" "&lt;" (replaceAll "&" "&amp;" s)))).

Lemma chain_escapes s : chain s = escapeText s.
Proof.
  induction s as [|c s IH]; [done|]. unfold chain in *. change (String c s) with (String c "" +:+ s)%string at 1. rewrite !replaceAll_app, IH.
  cbn [escapeText]. f_equal. unfold entity.
  destruct (Ascii.eqb_spec c "&") as [->|H1]; [reflexivity|]. destruct (Ascii.eqb_spec c "<") as [->|H2]; [reflexivity|].
  destruct (Ascii.eqb_spec c ">") as [->|H3]; [reflexivity|]. destruct (Ascii.eqb_spec c QUOTE) as [->|H4]; [reflexivity|].
  destruct (Ascii.eqb_spec c "'") as [->|H5]; [reflexivity|]. apply Ascii.eqb_neq in H1, H2, H3, H4, H5.
  cbn [replaceAll]. rewrite H1. cbn [replaceAll]. rewrite H2. cbn [replaceAll]. rewrite H3. cbn [replaceAll]. rewrite H4. cbn [replaceAll]. by rewrite H5.
Qed.

Lemma sanitizeString_escapes s : sanitizeString s = escapeText (trim s).
Proof. apply chain_escapes. Qed.

Lemma shownText_plain c r : c ≠ "&"%char → shownText (String c r) = String c (shownText r).
Proof. intros Hc. destruct c as [[] [] [] [] [] [] [] []]; try reflexivity. by destruct Hc. Qed.

Lemma shownText_escape s : shownText (escapeText s) = s.
Proof.
  induction s as [|c s IH]; [done|]. cbn [escapeText]. unfold entity.
  destruct (Ascii.eqb_spec c "&") as [->|H1]; [exact (f_equal (String "&") IH)|].
  destruct (Ascii.eqb_spec c "<") as [->|_]; [exact (f_equal (String "<") IH)|].
  destruct (Ascii.eqb_spec c ">") as [->|_]; [exact (f_equal (String ">") IH)|].
  destruct (Ascii.eqb_spec c QUOTE) as [->|_]; [exact (f_equal (String QUOTE) IH)|].
  destruct (Ascii.eqb_spec c "'") as [->|_]; [exact (f_equal (String "'") IH)|].
  change (shownText (String c (escapeText s)) = String c s). rewrite shownText_plain by done. by rewrite IH.
Qed.

Definition plainChar (c : ascii) : bool :=
  negb (Ascii.eqb c "<") && negb (Ascii.eqb c ">") && negb (Ascii.eqb c QUOTE) && negb (Ascii.eqb c "'").

Lemma escapeText_plain s : str_forall plainChar (escapeText s) = true.
Proof.
  induction s as [|c s IH]; [done|]. cbn [escapeText]. rewrite str_forall_app, IH, andb_true_r. unfold entity.
  destruct (Ascii.eqb_spec c "&"); [reflexivity|]. destruct (Ascii.eqb_spec c "<") as [|H2]; [reflexivity|].
  destruct (Ascii.eqb_spec c ">") as [|H3]; [reflexivity|]. destruct (Ascii.eqb_spec c QUOTE) as [|H4]; [reflexivity|].
  destruct (Ascii.eqb_spec c "'") as [|H5]; [reflexivity|]. apply Ascii.eqb_neq in H2, H3, H4, H5.
  cbn. unfold plainChar. by rewrite H2, H3, H4, H5.
Qed.

(** C30: what a handler gets of a text carries no markup, and is exactly the trimmed
    text for whoever renders it as HTML. *)
Theorem sanitized_text s : str_forall plainChar (sanitizeString s) = true ∧ shownText (sanitizeString s) = trim s.
Proof. rewrite sanitizeString_escapes. split; [apply escapeText_plain|apply shownText_escape]. Qed.

(** Whoever does not render it gets another text: an address with two parameters is
    no longer that address. *)
Example webhook_url_changed : sanitizeString "https://example.com/hook?a=1&b=2" = "https://example.com/hook?a=1&amp;b=2".
Proof. reflexivity. Qed.

(** A text that went through it and comes in again changes again. *)
Example escaped_twice : sanitizeString (sanitizeString "a & b") = "a &amp;amp; b".
Proof. reflexivity. Qed.

(** A text without markup is only trimmed. *)
Lemma sanitizeString_id s : str_forall (λ c, plainChar c && negb (Ascii.eqb c "&")) s = true → str_forall (λ c, negb (is_space c)) s = true →
  sanitizeString s = s.
Proof.
  intros Hp Hs. rewrite sanitizeString_escapes, trim_nospace by done. clear Hs. induction s as [|c s IH]; [done|].
  cbn in Hp. apply andb_true_iff in Hp as [Hc Hp]. cbn [escapeText]. rewrite IH by done. unfold plainChar in Hc. unfold entity.
  destruct (Ascii.eqb c "&"), (Ascii.eqb c "<"), (Ascii.eqb c ">"), (Ascii.eqb c QUOTE), (Ascii.eqb c "'"); try discriminate Hc. done.
Qed.

(** ** Escaped values *)

Fixpoint cleanValue (v : jsval) : bool :=
  match v with
  | VStr s => str_forall plainChar s
  | VObj _ fields => (fix go fs := match fs with [] => true | (_, v) :: fs => cleanValue v && go fs end) fields
  | _ => true
  end.

Lemma sanitizeValue_obj m fs : sanitizeValue (VObj m fs) = VObj None (sanitizeObject fs).
Proof. cbn. f_equal. induction fs as [|[k v] fs IH]; [done|]. by rewrite IH. Qed.

Lemma sanitizeValue_clean : ∀ v, cleanValue (sanitizeValue v) = true.
Proof.
  fix IH 1. intros [| |b|n r|z|s|m fs]; try reflexivity.
  - cbn. rewrite sanitizeString_escapes. apply escapeText_plain.
  - cbn. induction fs as [|[k v] fs IHfs]; [reflexivity|]. by rewrite (IH v), IHfs.
Qed.

(** Members keep their names: a handler finds under each the escaped value. *)
Lemma sanitizeObject_lookup k fs : lookupField k (sanitizeObject fs) = sanitizeValue (lookupField k fs).
Proof. induction fs as [|[k' v] fs IH]; [done|]. cbn. by destruct (bool_decide (k = k')). Qed.

(** A request part as a handler may get it: untouched when the route has no schema for
    it, otherwise an escaped value the schema returned. *)
Definition admitted (s : option Schema) (v w : jsval) : Prop :=
  match s with None => w = v | Some parse => ∃ parsed, parse v = Ok parsed ∧ w = sanitizeValue parsed end.

Lemma parsePart_Ok s v w : parsePart s v = Ok w ↔ admitted s v w.
Proof.
  destruct s as [parse|]; cbn; [|split; congruence]. destruct (parse v) as [p|e]; cbn; [|split; [done|naive_solver]].
  split; [intros [= <-]; eauto|intros (q & [= <-] & ->); done].
Qed.

(** A request reaches its handler exactly when every schema of the route accepts
    its part, and then only with escaped texts in those parts; otherwise the issues of
    the first part that fails are reported, the first of them as the message. *)
Theorem validateRequest_spec schema req : let '(n, r) := validateRequest schema req in
  (n = Proceed ↔ ∃ b q p, admitted (s_body schema) (body req) b ∧ admitted (s_query schema) (query req) q ∧
     admitted (s_params schema) (params req) p ∧ r = {| body := b; query := q; params := p |}) ∧
  (n = Proceed → (is_Some (s_body schema) → cleanValue (body r) = true) ∧ (is_Some (s_query schema) → cleanValue (query r) = true) ∧
     (is_Some (s_params schema) → cleanValue (params r) = true)) ∧
  (n ≠ Proceed → ∃ e, n = nextOf e ∧
     (parsePart (s_body schema) (body req) = Err e ∨
      isOk (parsePart (s_body schema) (body req)) = true ∧
      (parsePart (s_query schema) (query req) = Err e ∨
       isOk (parsePart (s_query schema) (query req)) = true ∧ parsePart (s_params schema) (params req) = Err e))).
Proof.
  assert (∀ e, nextOf e ≠ Proceed) as Hn by (by intros [[|[]]|]).
  assert (∀ s v w, admitted s v w → is_Some s → cleanValue w = true) as Hc.
  { intros [parse|] v w H [? Hs]; [|done]. destruct H as (p & _ & ->). apply sanitizeValue_clean. }
  unfold validateRequest. cbn [body query params].
  destruct (parsePart (s_body schema) (body req)) as [b|e] eqn:Eb;
    [apply parsePart_Ok in Eb; destruct (parsePart (s_query schema) (query req)) as [q|e] eqn:Eq;
      [apply parsePart_Ok in Eq; destruct (parsePart (s_params schema) (params req)) as [p|e] eqn:Ep;
        [apply parsePart_Ok in Ep|]|]|]; cbv beta iota zeta.
  - split_and!; [split; [intros _; by exists b, q, p|done]|intros _; cbn; split_and!; eauto|done].
  - split_and!; [split; [by intros ?%Hn|]|by intros ?%Hn|eauto 10].
    intros (b' & q' & p' & _ & _ & Hp%parsePart_Ok & _). congruence.
  - split_and!; [split; [by intros ?%Hn|]|by intros ?%Hn|eauto 10].
    intros (b' & q' & p' & _ & Hp%parsePart_Ok & _). congruence.
  - split_and!; [split; [by intros ?%Hn|]|by intros ?%Hn|eauto 10].
    intros (b' & q' & p' & Hp%parsePart_Ok & _). congruence.
Qed.

(** ** Dangerous keys *)

(** No dangerous key in the first [n] levels. *)
Fixpoint keysSafe (n : nat) (d : Doc) : bool :=
  match n, d with
  | S n, DArr l => forallb (keysSafe n) l
  | S n, DObj m => forallb (λ p, negb (dangerous p.1) && keysSafe n p.2) m
  | _, _ => true
  end.

Definition kept (a : option (list string)) (depth : nat) (m : list (string * Doc)) : list (string * Doc) :=
  List.filter (λ p, negb (refused a depth p.1)) m.

Lemma stripKeys_arr a depth l : (depth ≤ 20)%nat → stripKeys (DArr l) a depth =
  (DArr (map (λ x, (stripKeys x None (S depth)).1) l), List.concat (map (λ x, (stripKeys x None (S depth)).2) l)).
Proof.
  intros Hd. cbn [stripKeys]. destruct (Nat.ltb_spec 20 depth); [lia|]. f_equal; [f_equal|].
  all: induction l as [|x l IH]; [done|]; cbn [map List.concat]; rewrite <-IH; destruct (stripKeys x None (S depth)) as [y s];
    by destruct ((fix go l := match l with [] => ([], []) | x :: l => let '(y, s) := stripKeys x None (S depth) in let '(ys, ss) := go l in (y :: ys, s ++ ss) end) l).
Qed.

Lemma stripKeys_obj a depth m : (depth ≤ 20)%nat → stripKeys (DObj m) a depth =
  (DObj (map (λ p, (p.1, (stripKeys p.2 None (S depth)).1)) (kept a depth m)),
   List.concat (map (λ p, if refused a depth p.1 then [p.1] else (stripKeys p.2 None (S depth)).2) m)).
Proof.
  intros Hd. cbn [stripKeys]. destruct (Nat.ltb_spec 20 depth); [lia|]. f_equal; [f_equal|].
  all: induction m as [|[k v] m IH]; [done|]; cbn [kept List.filter map List.concat fst snd]; fold (kept a depth m);
    destruct (refused a depth k); cbn [negb map fst snd]; rewrite <-IH; try destruct (stripKeys v None (S depth)) as [y s];
    by destruct ((fix go m := match m with [] => ([], []) | (k, v) :: m => if refused a depth k then let '(ms, ss) := go m in (ms, k :: ss)
      else let '(v', s) := stripKeys v None (S depth) in let '(ms, ss) := go m in ((k, v') :: ms, s ++ ss) end) m).
Qed.

Lemma kept_elem a depth m p : In p (kept a depth m) ↔ In p m ∧ refused a depth p.1 = false.
Proof. unfold kept. by rewrite List.filter_In, negb_true_iff. Qed.

Lemma stripKeys_safe n d a depth : (n + depth = 21)%nat → keysSafe n (stripKeys d a depth).1 = true.
Proof.
  revert d a depth. induction n as [|n IH]; intros d a depth Hn; [by destruct (stripKeys _ _ _).1|].
  destruct d as [| | | | |l|m]; [..|rewrite stripKeys_arr by lia|rewrite stripKeys_obj by lia];
    [cbn [stripKeys]; destruct (20 <? depth)%nat; reflexivity..| |]; cbn [fst keysSafe]; apply forallb_forall.
  - intros y (x & <- & _)%in_map_iff. apply IH. lia.
  - intros y (p & <- & [_ Hp]%kept_elem)%in_map_iff. cbn [fst snd]. rewrite IH by lia. unfold refused in Hp.
    apply orb_false_iff in Hp as [-> _]. done.
Qed.

(** Of a body no dangerous key is left in the first twenty-one levels, and with a
    list of fields only those are left at the top. *)
Theorem sanitizeBody_safe a d : keysSafe 21 (sanitizeBody a d) = true ∧
  ∀ l m m', a = Some l → d = DObj m → sanitizeBody a d = DObj m' → ∀ k v, In (k, v) m' → k ∈ l ∧ k ∈ m.*1.
Proof.
  split; [by apply (stripKeys_safe 21)|]. intros l m m' -> ->. unfold sanitizeBody. rewrite stripKeys_obj by lia. cbn [fst].
  intros [= <-] k v ((k' & v') & [= <- <-] & [Hm Hr]%kept_elem)%in_map_iff. cbn [fst] in *.
  unfold refused in Hr. apply orb_false_iff in Hr as [_ Hr]. cbn in Hr. apply negb_false_iff, bool_decide_eq_true in Hr.
  split; [done|]. apply list_elem_of_fmap. exists (k', v'). split; [done|]. by apply list_elem_of_In.
Qed.

(** A body with nothing to refuse is left alone. *)
Fixpoint harmless (d : Doc) : bool :=
  match d with
  | DArr l => (fix go l := match l with [] => true | x :: l => harmless x && go l end) l
  | DObj m => (fix go m := match m with [] => true | (k, v) :: m => negb (dangerous k) && harmless v && go m end) m
  | _ => true
  end.

Lemma stripKeys_harmless d : harmless d = true → ∀ a depth, (∀ l m, a = Some l → d = DObj m → depth = 0%nat → Forall (λ p, p.1 ∈ l) m) →
  stripKeys d a depth = (d, []).
Proof.
  induction d as [| | | | |l IH|m IH] using Doc_ind; intros Hh a depth Ha; try (cbn [stripKeys]; by destruct (20 <? depth)%nat).
  - destruct (decide (depth ≤ 20)%nat) as [Hle|Hgt]; [|cbn [stripKeys]; destruct (Nat.ltb_spec 20 depth); [done|lia]]. rewrite stripKeys_arr by done.
    assert (∀ x, In x l → stripKeys x None (S depth) = (x, [])) as Hx.
    { clear Ha. induction IH as [|x l Hx Hl IHl]; [by intros x []|]. cbn in Hh. apply andb_true_iff in Hh as [H1 H2].
      intros y [<-|Hy]; [by apply Hx|by apply IHl]. }
    clear IH Hh Ha. f_equal; [f_equal|]; induction l as [|x l IHl]; try done; cbn [map List.concat]; rewrite Hx by (by left); rewrite IHl; try done;
      intros y Hy; apply Hx; by right.
  - destruct (decide (depth ≤ 20)%nat) as [Hle|Hgt]; [|cbn [stripKeys]; destruct (Nat.ltb_spec 20 depth); [done|lia]]. rewrite stripKeys_obj by done.
    assert (∀ p, In p m → refused a depth p.1 = false ∧ stripKeys p.2 None (S depth) = (p.2, [])) as Hp.
    { assert (∀ p, In p m → negb (dangerous p.1) && harmless p.2 = true) as Hall.
      { clear -Hh. induction m as [|[k v] m IHm]; [by intros p []|]. cbn in Hh. apply andb_true_iff in Hh as [H1 H2]. intros p [<-|Hp]; [done|by apply IHm]. }
      intros [k v] Hin. specialize (Hall _ Hin). apply andb_true_iff in Hall as [Hk Hv]. cbn in *. apply negb_true_iff in Hk. split.
      - unfold refused. rewrite Hk. cbn. destruct a as [l|]; [|done]. destruct (Nat.eqb_spec depth 0) as [->|]; [|done]. cbn.
        rewrite bool_decide_true; [done|]. specialize (Ha l m eq_refl eq_refl eq_refl). rewrite Forall_forall in Ha.
        apply (Ha (k, v)). by apply list_elem_of_In.
      - rewrite Forall_forall in IH. apply (IH (k, v)); [by apply list_elem_of_In|done|done]. }
    clear IH Hh Ha. f_equal; [f_equal|]; induction m as [|[k v] m IHm]; try done; cbn [kept List.filter map List.concat fst snd]; fold (kept a depth m);
      destruct (Hp (k, v)) as [Hr Hs]; try (by left); cbn [fst snd] in Hr, Hs; rewrite Hr; cbn [negb map fst snd]; rewrite Hs; rewrite IHm; try done;
      intros q Hq; apply Hp; by right.
Qed.

(** Deeper down they stay. *)
Fixpoint nested (n : nat) (d : Doc) : Doc := match n with O => d | S n => DArr [nested n d] end.
Example deep_key_survives :
  sanitizeBody None (nested 21 (DObj [("__proto__"%string, DNull)])) = nested 21 (DObj [("__proto__"%string, DNull)]).
Proof. reflexivity. Qed.

Example strip_example : stripKeys (DObj [("a"%string, DObj [("constructor"%string, DNull); ("b"%string, DInt 1)]); ("c"%string, DNull)]) (Some ["a"%string]) 0 =
  (DObj [("a"%string, DObj [("b"%string, DInt 1)])], ["constructor"; "c"]%string).
Proof. reflexivity. Qed.
