(* ===== verification/Pagination.v ===== *)
(** * Cursor pagination: [lib/cursorPagination.ts]

    The cursor codec (base64url of JSON, [Json]), the page-size normalisation,
    one page of [paginateWithCursor] and the legacy envelope. [findMany] belongs
    to the Prisma client: it is an argument, and theorems that depend on what it
    returns assume its documented cursor semantics ([prismaPage]). *)

From S2P Require Import Prelude JsString JsValue Json.

(** ** Cursors *)

Record CursorKey : Type := { key_id : Z; key_sortValue : option string }.

(** What a client-supplied cursor decodes to: any finite number, any value. *)
Record DecodedKey : Type := { decoded_id : jsnum; decoded_sortValue : jsval }.

Inductive page_error : Type := InvalidCursorError | QueryError (message : string).

(** [JSON.stringify(key)] *)
Definition stringifyKey (key : CursorKey) : string :=
  String "{" (quoted "id" (String ":" (toString (key_id key) +:+
    match key_sortValue key with
    | None => "}"
    | Some v => String "," (quoted "sortValue" (String ":" (quoted v "}")))
    end))).

Definition encodeCursor (key : CursorKey) : string := toBase64url (stringifyKey key).

Definition isFinite (x : jsnum) : bool := match x with JInt _ | JNonInt _ => true | _ => false end.

Definition decodeCursor (cursor : option string) : result page_error (option DecodedKey) :=
  match cursor with
  | None | Some ""%string => Ok None
  | Some c =>
      match JSON_parse (fromBase64url c) with
      | Some parsed =>
          match getProp parsed "id" with
          | VNum n _ => if isObject parsed && isFinite n
                        then Ok (Some {| decoded_id := n; decoded_sortValue := getProp parsed "sortValue" |})
                        else Err InvalidCursorError
          | _ => Err InvalidCursorError
          end
      | None => Err InvalidCursorError
      end
  end.

(** ** Page sizes *)

Definition DEFAULT_CURSOR_LIMIT : Z := 20.
Definition MAX_CURSOR_LIMIT : Z := 100.

Definition normalizeCursorLimit (rawLimit : jsval) : Z :=
  let parsed := toNumber rawLimit in
  if negb (isFinite parsed) || jle parsed 0 then DEFAULT_CURSOR_LIMIT
  else match jfloor parsed with JInt n => Z.min n MAX_CURSOR_LIMIT | _ => MAX_CURSOR_LIMIT end.

(** ** One page *)

Record CursorPageInfo : Type := { nextCursor : option string; hasNextPage : bool; pageLimit : Z }.
Record CursorPageResult (T : Type) : Type := { items : list T; pageInfo : CursorPageInfo }.
Arguments items {T}. Arguments pageInfo {T}.

Section Paginate.
Context {T : Type} (idOf : T → Z).

(** [findMany({ take, cursor, skip })]: the [skip] is 1 exactly when there is a cursor. *)
Context (findMany : nat → option jsnum → result page_error (list T)).

Definition paginateWithCursor (cursor : option string) (rawLimit : jsval) : result page_error (CursorPageResult T) :=
  decoded ← decodeCursor cursor;
  let limit := normalizeCursorLimit rawLimit in
  found ← findMany (Z.to_nat limit + 1)%nat (decoded_id <$> decoded);
  let hasNext := (Z.to_nat limit <? length found)%nat in
  let page := if hasNext then take (Z.to_nat limit) found else found in
  mret {| items := page;
          pageInfo := {| nextCursor := match last page with
                                       | Some l => if hasNext
                                                   then Some (encodeCursor {| key_id := idOf l; key_sortValue := None |})
                                                   else None
                                       | None => None
                                       end;
                         hasNextPage := hasNext; pageLimit := limit |} |}.

(** A client that follows [nextCursor] until there is none. *)
Fixpoint walk (fuel : nat) (cursor : option string) (rawLimit : jsval) : result page_error (list T * bool) :=
  match fuel with
  | O => Ok ([], false)
  | S f =>
      page ← paginateWithCursor cursor rawLimit;
      match nextCursor (pageInfo page) with
      | None => mret (items page, true)
      | Some c => '(rest, done) ← walk f (Some c) rawLimit; mret (items page ++ rest, done)
      end
  end.

(** ** The legacy envelope *)

Record Legacy : Type := { legacy_page : Z; legacy_limit : Z; legacy_total : Z; totalPages : jsnum }.

(** [Math.max(1, Math.ceil(total / limit))] *)
Definition pageCount (total limit : Z) : jsnum :=
  if limit =? 0 then (if total =? 0 then JNaN else if 0 <? total then JPosInf else JInt 1)
  else JInt (pagesOf total limit).

Definition withLegacyPaginationCompat (page : CursorPageResult T) (legacyPage legacyTotal : option Z) : CursorPageResult T * Legacy :=
  let total := default (Z.of_nat (length (items page))) legacyTotal in
  (page, {| legacy_page := default 1 legacyPage; legacy_limit := pageLimit (pageInfo page);
            legacy_total := total; totalPages := pageCount total (pageLimit (pageInfo page)) |}).
End Paginate.

(** ** The codec *)

Lemma cursor_decodes (key : CursorKey) : Z.abs (key_id key) < 2 ^ 53 →
  decodeCursor (Some (encodeCursor key)) =
  Ok (Some {| decoded_id := JInt (key_id key);
              decoded_sortValue := match key_sortValue key with Some v => VStr v | None => VUndefined end |}).
Proof.
  destruct key as [z sv]. cbn [key_id key_sortValue]. intros Hz.
  assert (Hfuel : ∀ s t u, ∃ k, (2 * strlen (String s (quoted t u)) = S (S (S k)))%nat).
  { intros s t u. unfold quoted. cbn [strlen]. exists (2 * strlen (quoteChars t (String "034" u)) + 1)%nat. lia. }
  assert (Hparse : JSON_parse (stringifyKey {| key_id := z; key_sortValue := sv |}) =
    Some (VObj None (match sv with
                     | Some v => [("sortValue", VStr v); ("id", VNum (JInt z) "")]%string
                     | None => [("id", VNum (JInt z) "")]%string
                     end))).
  { unfold JSON_parse, stringifyKey. cbn [key_id key_sortValue].
    destruct (Hfuel "{"%char "id"%string (String ":" (toString z +:+
      match sv with None => "}" | Some v => String "," (quoted "sortValue" (String ":" (quoted v "}"))) end)))
      as [k ->].
    match goal with |- context [jsonValue _ (String "{" ?s)] =>
      assert (jsonValue (S (S (S (S k)))) (String "{" s) = jsonMembers (S (S (S k))) s []) as -> by reflexivity end.
    destruct sv as [v|].
    - erewrite jsonMembers_member; [|by apply jsonValue_number].
      assert (∀ r, jsonMembers (S (S k)) (quoted "sortValue" (String ":" (quoted v "}"))) r =
                   Some (VObj None (("sortValue", VStr v) :: r), "")%string) as Hm.
      { intros r. by rewrite (jsonMembers_member _ _ _ _ _ _ (jsonValue_quoted _ _ _)). }
      match goal with |- context [skipWs (String "," ?r)] => change (skipWs (String "," r)) with (String "," r) end.
      cbv iota. by rewrite Hm.
    - by erewrite jsonMembers_member; [|by apply jsonValue_number]. }
  unfold decodeCursor, encodeCursor. rewrite base64url_roundtrip, Hparse.
  destruct (toBase64url _) as [|c s] eqn:He.
  - pose proof (base64url_roundtrip (stringifyKey {| key_id := z; key_sortValue := sv |})) as Hb.
    rewrite He in Hb. discriminate Hb.
  - destruct sv; reflexivity.
Qed.

(** A cursor the server issues decodes to the key it was made from. *)
Theorem cursor_roundtrip (key : CursorKey) : Z.abs (key_id key) < 2 ^ 53 →
  decodeCursor (Some (encodeCursor key)) =
  Ok (Some {| decoded_id := JInt (key_id key);
              decoded_sortValue := match key_sortValue key with Some v => VStr v | None => VUndefined end |}).
Proof. apply cursor_decodes. Qed.

(** C25: Decoding any client-supplied cursor gives no key, a key with a finite
    id, or the pagination error; nothing else is thrown. *)
Theorem decodeCursor_type (cursor : option string) :
  match decodeCursor cursor with
  | Ok None => cursor = None ∨ cursor = Some ""%string
  | Ok (Some k) => isFinite (decoded_id k) = true
  | Err e => e = InvalidCursorError
  end.
Proof.
  unfold decodeCursor. destruct cursor as [[|c s]|]; [by right| |by left].
  destruct (JSON_parse _) as [v|]; [|done]. destruct (getProp v "id"); try done.
  destruct (isObject v && isFinite n) eqn:Hf; [|done]. by apply andb_true_iff in Hf as [_ ?].
Qed.

(** ** Page sizes *)

(** A page size is between 0 and 100; it is 0 exactly for a requested
    size strictly between 0 and 1, which is rounded down after the check. *)
Theorem normalizeCursorLimit_bounds (raw : jsval) :
  0 ≤ normalizeCursorLimit raw ≤ MAX_CURSOR_LIMIT ∧
  (normalizeCursorLimit raw = 0 ↔ toNumber raw = JNonInt 0).
Proof.
  unfold normalizeCursorLimit, MAX_CURSOR_LIMIT, DEFAULT_CURSOR_LIMIT.
  destruct (toNumber raw) as [z|f| | |]; cbn [isFinite negb orb jle jfloor]; [..|split; [lia|done] |split; [lia|done]|split; [lia|done]].
  - destruct (Z.leb_spec z 0); (split; [lia|]); split; intros; (lia || discriminate).
  - destruct (Z.ltb_spec f 0); (split; [lia|]); split; intros H'; try discriminate; try lia.
    + injection H' as ->. lia.
    + f_equal. lia.
    + injection H' as ->. done.
Qed.

(** ** Walking the pages *)

Section Walk.
Context {T : Type} (idOf : T → Z).

(** The rows after the first one with the given id. *)
Fixpoint after (rows : list T) (id : jsnum) : list T :=
  match rows with
  | [] => []
  | x :: r => if bool_decide (JInt (idOf x) = id) then r else after r id
  end.

(** Prisma's documented [findMany] with [take], [cursor] and [skip: 1] on the
    ordered rows: the rows behind the one the cursor names, none if it is gone. *)
Definition prismaPage (rows : list T) (n : nat) (cursor : option jsnum) : list T :=
  match cursor with None => take n rows | Some id => take n (after rows id) end.

Lemma after_split (a b : list T) x : NoDup (idOf <$> (a ++ x :: b)) → after (a ++ x :: b) (JInt (idOf x)) = b.
Proof.
  induction a as [|y a IH]; cbn; intros Hn.
  - by rewrite bool_decide_eq_true_2.
  - inversion Hn as [|?? Hy Hn']; subst. rewrite bool_decide_eq_false_2; [by apply IH|].
    intros [= He]. apply Hy. rewrite He. apply list_elem_of_fmap. exists x. split; [done|set_solver].
Qed.

Lemma after_gone (rows : list T) id : id ∉ (λ x, JInt (idOf x)) <$> rows → after rows id = [].
Proof.
  induction rows as [|y rows IH]; cbn; [done|]. intros Hn. rewrite bool_decide_eq_false_2 by set_solver.
  apply IH. set_solver.
Qed.

Context (findMany : nat → option jsnum → result page_error (list T)) (rows : list T).
Hypothesis findMany_spec : ∀ n c, findMany n c = Ok (prismaPage rows n c).

Lemma paginate_page cursor raw d (suf : list T) : decodeCursor cursor = Ok d →
  (∀ n, prismaPage rows n (decoded_id <$> d) = take n suf) →
  let L := Z.to_nat (normalizeCursorLimit raw) in
  paginateWithCursor idOf findMany cursor raw =
  Ok {| items := take L suf;
        pageInfo := {| nextCursor := if (L <? length suf)%nat
                                     then (λ l, encodeCursor {| key_id := idOf l; key_sortValue := None |}) <$> last (take L suf)
                                     else None;
                       hasNextPage := (L <? length suf)%nat; pageLimit := normalizeCursorLimit raw |} |}.
Proof.
  intros Hd Hp L. unfold paginateWithCursor. rewrite Hd. cbn [mbind result_bind]. rewrite findMany_spec, Hp.
  cbn [mbind result_bind]. fold L. rewrite length_take.
  destruct (Nat.ltb_spec L (length suf)).
  - rewrite (proj2 (Nat.ltb_lt _ _)) by lia. rewrite take_take, Nat.min_l by lia.
    destruct (last (take L suf)); done.
  - rewrite (proj2 (Nat.ltb_ge _ _)) by lia. rewrite !take_ge by lia. destruct (last suf); done.
Qed.

Lemma walk_suffix raw fuel (pre suf : list T) cursor d : NoDup (idOf <$> rows) →
  Forall (λ x, Z.abs (idOf x) < 2 ^ 53) rows → 1 ≤ normalizeCursorLimit raw →
  rows = pre ++ suf → decodeCursor cursor = Ok d → (∀ n, prismaPage rows n (decoded_id <$> d) = take n suf) →
  (length suf < fuel)%nat →
  walk idOf findMany fuel cursor raw = Ok (suf, true).
Proof.
  intros Hnd Hid Hl. revert pre suf cursor d. induction fuel as [|fuel IH]; intros pre suf cursor d Hr Hd Hp Hf; [lia|].
  cbn [walk]. rewrite (paginate_page cursor raw d suf Hd Hp). cbn [mbind result_bind items pageInfo nextCursor].
  set (L := Z.to_nat (normalizeCursorLimit raw)). assert (1 ≤ L)%nat by lia.
  destruct (Nat.ltb_spec L (length suf)) as [Hlt|Hge]; cbn [pageInfo nextCursor]; [|by rewrite take_ge by lia].
  destruct (last (take L suf)) as [l|] eqn:Hlast; cbn [fmap option_fmap option_map].
  - apply last_Some in Hlast as [init Hinit].
    assert (suf = (init ++ [l]) ++ drop L suf) as Hs by (rewrite <-Hinit; by rewrite take_drop).
    assert (rows = (pre ++ init) ++ l :: drop L suf) as Hrows by (rewrite Hr, Hs at 1; by rewrite <-!app_assoc).
    assert (Z.abs (idOf l) < 2 ^ 53) as Hb.
    { rewrite Forall_forall in Hid. apply Hid. rewrite Hrows. set_solver. }
    rewrite (IH ((pre ++ init) ++ [l]) (drop L suf) _ (Some {| decoded_id := JInt (idOf l); decoded_sortValue := VUndefined |})).
    + cbn [mbind result_bind]. by rewrite take_drop.
    + by rewrite Hrows, <-(app_assoc (pre ++ init)).
    + by apply (cursor_decodes {| key_id := idOf l; key_sortValue := None |}).
    + intros n. cbn [fmap option_fmap option_map decoded_id prismaPage]. f_equal. rewrite Hrows in Hnd |- *.
      by apply after_split.
    + rewrite length_drop. lia.
  - apply last_None in Hlast. apply (f_equal length) in Hlast. rewrite length_take in Hlast. cbn in Hlast. lia.
Qed.

(** C24: Following the cursors over a list that does not change visits every row
    exactly once, in order, and ends. *)
Theorem walk_complete raw : NoDup (idOf <$> rows) → Forall (λ x, Z.abs (idOf x) < 2 ^ 53) rows →
  1 ≤ normalizeCursorLimit raw →
  walk idOf findMany (S (length rows)) None raw = Ok (rows, true).
Proof.
  intros Hn Hi Hl. apply (walk_suffix raw _ [] rows None None); try done. lia.
Qed.
End Walk.

(** ** Pages while the rows change *)

Section Stability.
Context {T : Type} (idOf : T → Z) (before : T → T → Prop) `{!Transitive before, !Irreflexive before}.

(** As long as the row a cursor names is still there, the next page starts
    right behind it: of the rows then present it holds no row of the previous
    page, and skips none that follows the cursor row, whatever was inserted or
    deleted elsewhere. *)
Theorem next_page_stable (rows rows' : list T) x n m : 
  StronglySorted before rows → StronglySorted before rows' → NoDup (idOf <$> rows') →
  x ∈ rows → x ∈ rows' → last (take n rows) = Some x →
  let page := take n rows in let page' := prismaPage idOf rows' m (Some (JInt (idOf x))) in
  (∀ y, y ∈ page → y ∉ page') ∧
  (∀ z, z ∈ rows' → before x z → z ∈ page' ∨ length page' = m).
Proof.
  intros Hs Hs' Hn Hx Hx' Hlast page page'.
  apply list_elem_of_split in Hx' as (a & b & ->).
  assert (page' = take m b) as Hp by (unfold page', prismaPage; f_equal; by apply after_split).
  apply last_Some in Hlast as [init Hinit].
  assert (∀ y, y ∈ page → y = x ∨ before y x) as Hpage.
  { intros y. unfold page. rewrite Hinit. intros [Hy|Hy%list_elem_of_singleton]%elem_of_app; [right|by left].
    assert (StronglySorted before (init ++ [x])) as Hss.
    { rewrite <-Hinit. rewrite <-(take_drop n rows) in Hs. by apply StronglySorted_app_1_l in Hs. }
    eapply StronglySorted_app_1_elem_of; [exact Hss|done|set_solver]. }
  assert (∀ z, z ∈ b → before x z) as Hb.
  { intros z Hz. apply StronglySorted_app_1_r in Hs'. inversion Hs' as [|?? _ Hf]; subst.
    rewrite Forall_forall in Hf. by apply Hf. }
  split.
  - intros y Hy Hy'. rewrite Hp in Hy'. apply elem_of_take_in, Hb in Hy'.
    destruct (Hpage y Hy) as [->|Hyx]; [by apply (irreflexivity before x)|].
    apply (irreflexivity before y). by etrans.
  - intros z Hz Hxz. rewrite Hp. apply elem_of_app in Hz as [Hz|[->|Hz]%elem_of_cons].
    + exfalso. apply (irreflexivity before x). etrans; [exact Hxz|].
      eapply StronglySorted_app_1_elem_of; [exact Hs'|done|set_solver].
    + by apply (irreflexivity before x) in Hxz.
    + rewrite length_take. destruct (decide (m ≤ length b)%nat); [right; lia|left].
      rewrite take_ge by lia. done.
Qed.

(** If the row a cursor names has been deleted in the meantime, the listing
    ends there: the next page is empty and announces no further one, whatever
    rows remain. *)
Theorem deleted_anchor_ends_listing (findMany : nat → option jsnum → result page_error (list T)) (rows : list T) x raw :
  (∀ n c, findMany n c = Ok (prismaPage idOf rows n c)) →
  Z.abs (idOf x) < 2 ^ 53 → idOf x ∉ idOf <$> rows →
  paginateWithCursor idOf findMany (Some (encodeCursor {| key_id := idOf x; key_sortValue := None |})) raw =
  Ok {| items := []; pageInfo := {| nextCursor := None; hasNextPage := false; pageLimit := normalizeCursorLimit raw |} |}.
Proof.
  intros Hf Hb Hx. rewrite (paginate_page idOf findMany rows Hf _ raw _ [] (cursor_decodes {| key_id := idOf x; key_sortValue := None |} Hb)).
  - by rewrite take_nil.
  - intros n. cbn [fmap option_fmap option_map decoded_id prismaPage key_id]. rewrite take_nil, after_gone; [by rewrite take_nil|].
    intros (y & [= Hy] & Hin)%list_elem_of_fmap. apply Hx. rewrite Hy. apply list_elem_of_fmap. eauto.
Qed.
End Stability.

(** ** Witnesses *)

Lemma cursor_roundtrip_witness :
  decodeCursor (Some (encodeCursor {| key_id := 7; key_sortValue := Some "2024-01-01T00:00:00.000Z"%string |})) =
  Ok (Some {| decoded_id := JInt 7; decoded_sortValue := VStr "2024-01-01T00:00:00.000Z" |}).
Proof. apply (cursor_roundtrip {| key_id := 7; key_sortValue := Some _ |}). reflexivity. Defined.

Lemma walk_complete_witness :
  walk id (λ n c, Ok (prismaPage id [9; 8; 5; 3; 1] n c)) 6 None (VStr "2") = Ok ([9; 8; 5; 3; 1], true).
Proof.
  apply (walk_complete id _ [9; 8; 5; 3; 1]); [done| |repeat constructor|vm_compute; discriminate].
  vm_compute. repeat constructor; set_solver.
Defined.

#[local] Instance Zgt_transitive : Transitive Z.gt.
Proof. intros a b c. lia. Qed.
#[local] Instance Zgt_irreflexive : Irreflexive Z.gt.
Proof. intros a. unfold complement. lia. Qed.

Lemma next_page_stable_witness :
  (∀ y, y ∈ [9; 8] → y ∉ [7; 5]) ∧ (∀ z, z ∈ [10; 9; 8; 7; 5; 3] → 8 > z → z ∈ [7; 5] ∨ length [7; 5] = 2%nat).
Proof.
  apply (next_page_stable id Z.gt [9; 8; 5; 3; 1] [10; 9; 8; 7; 5; 3] 8 2 2);
    first [reflexivity | repeat constructor; lia | set_solver | vm_compute; repeat constructor; set_solver].
Defined.

Lemma deleted_anchor_ends_listing_witness :
  paginateWithCursor id (λ n c, Ok (prismaPage id [9; 8; 3; 1] n c))
    (Some (encodeCursor {| key_id := 5; key_sortValue := None |})) (VStr "2") =
  Ok {| items := []; pageInfo := {| nextCursor := None; hasNextPage := false; pageLimit := 2 |} |}.
Proof.
  apply (deleted_anchor_ends_listing id _ [9; 8; 3; 1] 5 (VStr "2")); [done|reflexivity|cbn; set_solver].
Defined.
