(* ===== verification/Effects.v ===== *)
(** * Effects of a request handler: [backend/src/lib/redis.ts] and its callers

    A handler that talks to Redis threads a world (the store, the clock, what
    happens around each round trip) and may throw. [io] is the state and error
    monad of such handlers, with [tryCatch] for [try]/[catch].

    Redis is an interface, [Kv], with the documented behaviour of [GET],
    [SET key value EX ttl], [DEL], and of a write that keeps the entry's time to
    live (what [INCR] does); [GETDEL], [SET NX], [EXISTS] and [INCR] are written
    with these, because each is one atomic command. Times are in milliseconds,
    times to live in seconds. A [hop] is what surrounds one round trip: how long
    it takes, whether it fails, and what other clients do to the store before
    the command runs; the hops of a handler are its schedule, an empty one being
    instant, reliable and undisturbed. *)

From S2P Require Import Prelude JsString.

(** ** Stateful code that may throw *)

Definition io (W E A : Type) : Type := W → W * result E A.

#[global] Instance io_ret W E : MRet (io W E) := λ A a w, (w, Ok a).
#[global] Instance io_bind W E : MBind (io W E) := λ A B f m w,
  match m w with (w', Ok a) => f a w' | (w', Err e) => (w', Err e) end.

(** [throw e] *)
Definition throw {W E A} (e : E) : io W E A := λ w, (w, Err e).

(** A pure computation that may throw. *)
Definition lift {W E A} (r : result E A) : io W E A := λ w, (w, r).

(** [if (c) throw e;] *)
Definition throwWhen {W E} (c : bool) (e : E) : io W E unit := lift (throwIf c e).

(** [try { m } catch (e) { h(e) }]: what [m] did to the world stays. *)
Definition tryCatch {W E F A} (m : io W E A) (h : E → io W F A) : io W F A := λ w,
  match m w with (w', Ok a) => (w', Ok a) | (w', Err e) => h e w' end.

Lemma io_bind_Ok {W E A B} (m : io W E A) (f : A → io W E B) w w' b :
  (m ≫= f) w = (w', Ok b) ↔ ∃ w1 a, m w = (w1, Ok a) ∧ f a w1 = (w', Ok b).
Proof.
  unfold mbind, io_bind. destruct (m w) as [w1 [a|e]]; split.
  - intros H. eauto.
  - intros (? & ? & [= <- <-] & H). done.
  - done.
  - intros (? & ? & ? & _). done.
Qed.

Lemma io_bind_run {W E A B} (m : io W E A) (f : A → io W E B) w w' a :
  m w = (w', Ok a) → (m ≫= f) w = f a w'.
Proof. unfold mbind, io_bind. by intros ->. Qed.

Lemma io_bind_fail {W E A B} (m : io W E A) (f : A → io W E B) w w' e :
  m w = (w', Err e) → (m ≫= f) w = (w', Err e).
Proof. unfold mbind, io_bind. by intros ->. Qed.

(** A property of worlds that every step preserves. *)
Definition keeps {W E A} (I : W → Prop) (m : io W E A) : Prop := ∀ w, I w → I (m w).1.

Lemma keeps_ret {W E A} I (a : A) : keeps I (mret a : io W E A).
Proof. by intros w. Qed.
Lemma keeps_lift {W E A} I (r : result E A) : keeps I (lift r : io W E A).
Proof. by intros w. Qed.
Lemma keeps_throw {W E A} I (e : E) : keeps I (throw e : io W E A).
Proof. by intros w. Qed.
Lemma keeps_throwWhen {W E} I c (e : E) : keeps I (throwWhen c e : io W E unit).
Proof. by intros w. Qed.
Lemma keeps_bind {W E A B} I (m : io W E A) (f : A → io W E B) :
  keeps I m → (∀ a, keeps I (f a)) → keeps I (m ≫= f).
Proof.
  intros Hm Hf w Hw. unfold mbind, io_bind. specialize (Hm w Hw).
  destruct (m w) as [w1 [a|e]]; [by apply Hf|done].
Qed.
Lemma keeps_tryCatch {W E F A} I (m : io W E A) (h : E → io W F A) :
  keeps I m → (∀ e, keeps I (h e)) → keeps I (tryCatch m h).
Proof.
  intros Hm Hh w Hw. unfold tryCatch. specialize (Hm w Hw).
  destruct (m w) as [w1 [a|e]]; [done|by apply Hh].
Qed.

Create HintDb io.
#[export] Hint Resolve keeps_ret keeps_lift keeps_throw keeps_throwWhen keeps_bind keeps_tryCatch : io.

(** ** Redis *)

Class Kv (V R : Type) : Type := {
  kvGet : string → Z → R → option V;             (* GET, at a time *)
  kvSet : string → V → Z → Z → R → R;            (* SET key value EX ttl, at a time *)
  kvPut : string → V → Z → R → R;                (* replace the value, keep the expiry *)
  kvDel : string → R → R;                        (* DEL *)
}.

Class KvLaws (V R : Type) `{!Kv V R} : Prop := {
  kvGet_set k v ttl now r t : now ≤ t < now + ttl * 1000 → kvGet k t (kvSet k v ttl now r) = Some v;
  kvGet_set_late k v ttl now r t : now ≤ t → now + ttl * 1000 < t → kvGet k t (kvSet k v ttl now r) = None;
  kvGet_set_val k v ttl now r t w : now ≤ t → kvGet k t (kvSet k v ttl now r) = Some w → w = v;
  kvGet_set_ne k k' v ttl now r t : k ≠ k' → kvGet k' t (kvSet k v ttl now r) = kvGet k' t r;
  kvGet_put_new k v now r t : kvGet k now r = None → now ≤ t → kvGet k t (kvPut k v now r) = Some v;
  kvGet_put_old k v now r t : is_Some (kvGet k now r) → now ≤ t →
    kvGet k t (kvPut k v now r) = (λ _, v) <$> kvGet k t r;
  kvGet_put_ne k k' v now r t : k ≠ k' → kvGet k' t (kvPut k v now r) = kvGet k' t r;
  kvGet_del k r t : kvGet k t (kvDel k r) = None;
  kvGet_del_ne k k' r t : k ≠ k' → kvGet k' t (kvDel k r) = kvGet k' t r;
  kvGet_later k now t r v : now ≤ t → kvGet k t r = Some v → kvGet k now r = Some v;
}.

(** The single-command variants. *)
Section Commands.
Context {V R : Type} `{!Kv V R}.

(** [SET key value EX ttl NX] *)
Definition kvSetNx (k : string) (v : V) (ttl now : Z) (r : R) : bool * R :=
  match kvGet k now r with Some _ => (false, r) | None => (true, kvSet k v ttl now r) end.
(** [GETDEL key] *)
Definition kvGetDel (k : string) (now : Z) (r : R) : option V * R := (kvGet k now r, kvDel (V := V) k r).
End Commands.

(** [INCR key]: an error unless the value is an integer. *)
Definition kvIncr {R} `{!Kv string R} (k : string) (now : Z) (r : R) : option (Z * R) :=
  match kvGet k now r with
  | None => Some (1, kvPut k (toString 1) now r)
  | Some v => z ← BigInt_string v; Some (z + 1, kvPut k (toString (z + 1)) now r)
  end.


(** ** A store that satisfies the laws *)

Record entry (V : Type) : Type := { e_value : V; e_expires : option Z }.
Arguments e_value {V}. Arguments e_expires {V}.

Definition live {V} (now : Z) (e : entry V) : bool :=
  match e_expires e with None => true | Some x => now <? x end.

#[global] Instance gmapKv {V} : Kv V (gmap string (entry V)) := {|
  kvGet k now r := match r !! k with Some e => if live now e then Some (e_value e) else None | None => None end;
  kvSet k v ttl now r := <[k := {| e_value := v; e_expires := Some (now + ttl * 1000) |}]> r;
  kvPut k v now r :=
    <[k := {| e_value := v;
              e_expires := match r !! k with
                           | Some e => if live now e then e_expires e else None
                           | None => None
                           end |}]> r;
  kvDel k r := delete k r;
|}.

#[global] Instance gmapKv_laws {V} : KvLaws V (gmap string (entry V)).
Proof.
  split; cbn [kvGet kvSet kvPut kvDel gmapKv].
  - intros k v ttl now r t Ht. rewrite lookup_insert_eq. unfold live. cbn [e_expires e_value].
    by rewrite (proj2 (Z.ltb_lt _ _)) by lia.
  - intros k v ttl now r t Ht Hl. rewrite lookup_insert_eq. unfold live. cbn [e_expires e_value].
    by rewrite (proj2 (Z.ltb_ge _ _)) by lia.
  - intros k v ttl now r t w _. rewrite lookup_insert_eq. case_match; naive_solver.
  - intros k k' v ttl now r t Hne. by rewrite lookup_insert_ne.
  - intros k v now r t Hn Ht. rewrite lookup_insert_eq. cbn [e_value]. unfold live in *. cbn [e_expires].
    destruct (r !! k) as [e|]; [|done]. by destruct (e_expires e) as [x|]; [destruct (now <? x)|].
  - intros k v now r t [w Hn] Ht. rewrite lookup_insert_eq. unfold live in *. cbn [e_expires e_value].
    destruct (r !! k) as [e|]; [|done].
    destruct (e_expires e) as [x|]; [|done]. destruct (now <? x); [|done]. by destruct (t <? x).
  - intros k k' v now r t Hne. by rewrite lookup_insert_ne.
  - intros k r t. by rewrite lookup_delete_eq.
  - intros k k' r t Hne. by rewrite lookup_delete_ne.
  - intros k now t r v Ht. destruct (r !! k) as [e|]; [|done]. unfold live.
    destruct (e_expires e) as [x|]; [|done]. destruct (t <? x) eqn:Hx; [|done].
    intros <-%(inj Some). by rewrite (proj2 (Z.ltb_lt _ _)) by (zb; lia).
Qed.

(** ** Round trips *)

Record hop (R : Type) : Type := { delay : nat; fails : bool; others : R → R }.
Arguments delay {R}. Arguments fails {R}. Arguments others {R}.

Record world (R : Type) : Type := mkWorld { store : R; clock : Z; hops : list (hop R) }.
Arguments mkWorld {R}. Arguments store {R}. Arguments clock {R}. Arguments hops {R}.

Section Calls.
Context {R E : Type}.

(** One Redis command: the next hop happens, then the command, unless it fails. *)
Definition command {A} (down : E) (f : Z → R → A * R) : io (world R) E A := λ w,
  match hops w with
  | [] => let '(a, r) := f (clock w) (store w) in (mkWorld r (clock w) [], Ok a)
  | h :: hs =>
      let now := clock w + Z.of_nat (delay h) in
      if fails h then (mkWorld (others h (store w)) now hs, Err down)
      else let '(a, r) := f now (others h (store w)) in (mkWorld r now hs, Ok a)
  end.

(** [Date.now()] *)
Definition dateNow : io (world R) E Z := λ w, (w, Ok (clock w)).

(** [Math.floor(Date.now() / 1000)] *)
Definition nowSeconds : io (world R) E Z := λ w, (w, Ok (clock w / 1000)).
End Calls.

(** The schedule [hs] is undisturbed: nobody else touches the store. *)
Definition quiet {R} (hs : list (hop R)) : Prop := Forall (λ h, ∀ r, others h r = r) hs.
(** No round trip fails. *)
Definition reliable {R} (hs : list (hop R)) : Prop := Forall (λ h, fails h = false) hs.

(** A world with an instant, reliable and undisturbed schedule. *)
Definition calm {R} (r : R) (now : Z) : world R := mkWorld r now [].

Lemma command_calm {R E A} (down : E) (f : Z → R → A * R) r now :
  command down f (calm r now) = (calm (f now r).2 now, Ok (f now r).1).
Proof. unfold command, calm. cbn. by destruct (f now r). Qed.

(** What holds of the store from now on, in an undisturbed schedule. *)
Definition holds {R} (P : Z → R → Prop) (w : world R) : Prop :=
  quiet (hops w) ∧ ∀ t, clock w ≤ t → P t (store w).

Lemma keeps_command {R E A} (P : Z → R → Prop) (down : E) (f : Z → R → A * R) :
  (∀ now r, (∀ t, now ≤ t → P t r) → ∀ t, now ≤ t → P t (f now r).2) →
  keeps (holds P) (command down f).
Proof.
  intros Hf [r now hs] [Hq HP]. unfold command. cbn [hops store clock] in *.
  destruct hs as [|h hs].
  - specialize (Hf now r HP). destruct (f now r) as [a r']. split; [done|]. exact Hf.
  - inversion Hq as [|?? Hh Hhs]; subst. rewrite Hh. destruct (fails h).
    + split; [done|]. cbn. intros t Ht. apply HP. lia.
    + assert (∀ t, now + Z.of_nat (delay h) ≤ t → P t r) as HP' by (intros t Ht; apply HP; lia).
      specialize (Hf _ r HP'). destruct (f _ r) as [a r']. split; [done|]. exact Hf.
Qed.

(** A command that only reads. *)
Lemma keeps_read {R E A} (P : Z → R → Prop) (down : E) (f : Z → R → A) :
  keeps (holds P) (command down (λ now r, (f now r, r))).
Proof. apply keeps_command. cbn. auto. Qed.

Lemma keeps_dateNow {R E} (I : world R → Prop) : keeps I (dateNow : io (world R) E Z).
Proof. by intros w. Qed.
Lemma keeps_nowSeconds {R E} (I : world R → Prop) : keeps I (nowSeconds : io (world R) E Z).
Proof. by intros w. Qed.
#[export] Hint Resolve keeps_read keeps_dateNow keeps_nowSeconds : io.
