(* ===== verification/Errors.v ===== *)
(** * Application errors: [backend/src/errors/errorCodes.ts]

    The error codes of the API and the [AppError] that carries one with a
    message and an HTTP status. The [details] record, which is only serialised,
    is not modelled. *)

From S2P Require Import Prelude.

Inductive ErrorCode : Type :=
| VALIDATION_ERROR | AUTH_ERROR | DOMAIN_ERROR | INFRA_ERROR | NOT_FOUND | INTERNAL_ERROR
| TRADE_NOT_FOUND | TRADE_ACCESS_DENIED | TRADE_INVALID_STATUS | TRADE_BUILD_FAILED
| DISPUTE_INVALID_CATEGORY | DISPUTE_STATUS_TRANSITION_INVALID | DISPUTE_STATUS_CONFLICT
| DISPUTE_NOT_FOUND
| PAYMENT_PROVIDER_ERROR | PAYMENT_PROVIDER_TIMEOUT | PAYMENT_INSUFFICIENT_FUNDS
| RATE_LIMIT_EXCEEDED | ADMIN_QUOTA_EXCEEDED | ADMIN_OPERATION_TIMEOUT
| CLAWBACK_UNAUTHORIZED | CLAWBACK_INSUFFICIENT_VESTED | CLAWBACK_INVALID_AMOUNT
| CLAWBACK_STREAM_NOT_FOUND | CLAWBACK_INVALID_STATUS | CLAWBACK_TOO_LARGE
| SUBMISSION_VALIDATION_ERROR | SUBMISSION_NETWORK_ERROR | SUBMISSION_CONTRACT_ERROR
| SUBMISSION_AUTHORIZATION_ERROR.

#[global] Instance ErrorCode_eq_dec : EqDecision ErrorCode.
Proof. solve_decision. Defined.

(** What a call may throw: an [AppError], or some other [Error]. *)
Inductive error : Type :=
| AppError (code : ErrorCode) (message : string) (statusCode : Z)
| PlainError (message : string).

#[global] Instance error_eq_dec : EqDecision error.
Proof. solve_decision. Defined.

Definition statusOf (e : error) : option Z :=
  match e with AppError _ _ s => Some s | PlainError _ => None end.
Definition codeOf (e : error) : option ErrorCode :=
  match e with AppError c _ _ => Some c | PlainError _ => None end.
