(* ===== verification/Auth.v ===== *)
(** * Wallet authentication: [services/auth.service.ts]

    A wallet signs a challenge and receives a JWT; tokens are revoked one by one
    (a deny list of [jti]s), in bulk (a generation number per wallet) and can be
    refreshed. All of this state lives in Redis ([Effects.Kv]).

    The [jsonwebtoken] and Stellar packages are interfaces: [Jwt] with the
    documented behaviour of [sign] and [verify], and the two key functions as
    arguments. Random challenges and token ids are arguments. The clock of a
    request is the world's clock; JWT times are whole seconds. *)

From S2P Require Import Prelude JsString JsValue Errors Effects.

(** ** Tokens *)

(** The claims; an absent claim is [None], an absent or empty [jti] is empty. *)
Record JWTPayload : Type := {
  sub : string;
  walletAddress : option string;
  jti : string;
  tv : option Z;
  iat : option Z;
  exp : option Z;
  nbf : option Z;
  iss : string;
  aud : string;
  tier : option string;
  deviceHash : option string;
  ipClass : option string;
}.

Inductive jwtError : Type := TokenExpiredError | NotBeforeError | JsonWebTokenError.

(** What a call may throw: an application or plain error, or one of the library's. *)
Inductive exn : Type :=
| Thrown (e : error)
| JwtThrown (e : jwtError).

Record VerifyOptions : Type := { issuer : string; audience : string; ignoreExpiration : bool }.

Class Jwt (token : Type) : Type := {
  jwtSign : JWTPayload → string → token;
  jwtVerify : token → string → VerifyOptions → Z → result jwtError JWTPayload;  (* at a time, in seconds *)
}.

(** A time check of [verify]. *)
Definition started (p : JWTPayload) (now : Z) : bool :=
  match nbf p with Some t => t <=? now | None => true end.
Definition unexpired (p : JWTPayload) (now : Z) : bool :=
  match exp p with Some t => now <? t | None => true end.

Class JwtLaws (token : Type) `{!Jwt token} : Prop := {
  verify_signed p key o now : iss p = issuer o → aud p = audience o → started p now = true →
    (ignoreExpiration o = true ∨ unexpired p now = true) → jwtVerify (jwtSign p key) key o now = Ok p;
  verify_expired p key o now : started p now = true → ignoreExpiration o = false → unexpired p now = false →
    jwtVerify (jwtSign p key) key o now = Err TokenExpiredError;
  verify_early p key o now : started p now = false → jwtVerify (jwtSign p key) key o now = Err NotBeforeError;
  verify_sound t key o now p : jwtVerify t key o now = Ok p →
    started p now = true ∧ (ignoreExpiration o = true ∨ unexpired p now = true) ∧
    iss p = issuer o ∧ aud p = audience o;
  verify_claims t key o o' now now' p p' :
    jwtVerify t key o now = Ok p → jwtVerify t key o' now' = Ok p' → p = p';
}.

Record Env : Type := { JWT_SECRET : string; JWT_ISSUER : string; JWT_AUDIENCE : string; JWT_EXPIRES_IN : string }.

(** ** The service *)

Definition CHALLENGE_PREFIX : string := "challenge:".
Definition REVOKED_PREFIX : string := "revoked_jti:".
Definition TOKEN_VERSION_PREFIX : string := "token_version:".
Definition CHALLENGE_TTL : Z := 300.
Definition AUTH_FAILURE_PREFIX : string := "auth:challenge-failures:".
Definition AUTH_LOCKOUT_THRESHOLD : Z := 5.
Definition AUTH_FAILURE_WINDOW_SECONDS : Z := 15 * 60.
Definition AUTH_LOCKOUT_SECONDS : Z := 15 * 60.
Definition REFRESH_EXPIRY_GRACE_SECONDS : Z := 15 * 60.
Definition REFRESH_MAX_AGE_SECONDS : Z := 7 * 24 * 60 * 60.

Definition redisDown : exn := Thrown (PlainError "Redis unavailable").
Definition infraFailure : error := AppError INFRA_ERROR "Authentication service dependency failure" 503.
Definition invalidKey : error := AppError VALIDATION_ERROR "Invalid Stellar public key" 400.
Definition tooManyFailures : error :=
  AppError AUTH_ERROR "Too many failed verification attempts; try again later" 429.
Definition noChallenge : error :=
  AppError AUTH_ERROR "Challenge expired or invalid. Request new challenge." 401.
Definition invalidSignature : error := AppError AUTH_ERROR "Invalid signature" 401.
Definition noSecret : error := AppError INFRA_ERROR "JWT_SECRET not set" 500.
Definition missingJti : error := AppError AUTH_ERROR "Unauthorized: missing jti claim" 401.
Definition tokenRevoked : error := AppError AUTH_ERROR "Unauthorized: token has been revoked" 401.
Definition badClaims : error := AppError AUTH_ERROR "Token refresh failed: invalid token claims" 401.
Definition tooOld : error := AppError AUTH_ERROR "Token too old to refresh" 401.
Definition refreshRevoked : error := AppError AUTH_ERROR "Token revoked" 401.
Definition refreshFailed : error := AppError AUTH_ERROR "Token refresh failed" 401.

(** [if (isAppError(error)) throw error; throw fallback;] *)
Definition orElseThrow {W A} (fallback : error) (e : exn) : io W exn A :=
  match e with
  | Thrown (AppError _ _ _) => throw e
  | _ => throw (Thrown fallback)
  end.

Definition challengeKey (identity : string) : string := CHALLENGE_PREFIX +:+ identity.
Definition failureKey (identity : string) : string := AUTH_FAILURE_PREFIX +:+ identity.
Definition revokedKey (j : string) : string := REVOKED_PREFIX +:+ j.
Definition versionKey (wallet : string) : string := TOKEN_VERSION_PREFIX +:+ toLowerCase wallet.

(** [Number.parseInt(raw ?? '0', 10)], with [None] for what is not finite. *)
Definition parseCount (raw : option string) : option Z :=
  match parseInt (default "0"%string raw) with JInt z => Some z | _ => None end.

Section Service.
Context {R token : Type} `{!Kv string R} `{!Jwt token}.
Context (env : Env).
Context (isValidEd25519PublicKey : string → bool).   (* StrKey *)
Context (verifySignature : string → string → string → bool).  (* Keypair.verify: key, challenge, signature *)
Context (hasGetdel : bool).  (* typeof redis.getdel === 'function' *)

Notation IO := (io (world R) exn).

Definition verifyOptions (ignore : bool) : VerifyOptions :=
  {| issuer := JWT_ISSUER env; audience := JWT_AUDIENCE env; ignoreExpiration := ignore |}.

Definition get (k : string) : IO (option string) := command redisDown (λ now r, (kvGet k now r, r)).
Definition setEx (k v : string) (ttl : Z) : IO unit := command redisDown (λ now r, (tt, kvSet k v ttl now r)).
Definition del (k : string) : IO unit := command redisDown (λ _ r, (tt, kvDel (V := string) k r)).
Definition getdel (k : string) : IO (option string) := command redisDown (λ now r, kvGetDel k now r).

Definition generateChallenge (wallet random : string) : IO string :=
  throwWhen (negb (isValidEd25519PublicKey wallet)) (Thrown invalidKey) ≫= λ _,
  tryCatch
    (setEx (challengeKey (toLowerCase wallet)) random CHALLENGE_TTL ≫= λ _, mret random)
    (orElseThrow infraFailure).

(** The lockout guard. *)
Definition assertNotLockedOut (identity : string) : IO unit :=
  get (failureKey identity) ≫= λ raw,
  throwWhen (match parseCount raw with Some n => AUTH_LOCKOUT_THRESHOLD <=? n | None => false end)
    (Thrown tooManyFailures).

Definition recordFailure (identity : string) : IO unit :=
  get (failureKey identity) ≫= λ raw,
  let nextFailures := match parseCount raw with Some n => n + 1 | None => 1 end in
  setEx (failureKey identity) (toString nextFailures)
    (if AUTH_LOCKOUT_THRESHOLD <=? nextFailures then AUTH_LOCKOUT_SECONDS else AUTH_FAILURE_WINDOW_SECONDS).

(** [getTokenVersion]; the address of a token without one makes [toLowerCase] throw. *)
Definition getTokenVersion (wallet : option string) : IO Z :=
  tryCatch
    (match wallet with
     | None => throw (Thrown (PlainError "TypeError"))
     | Some w =>
         get (versionKey w) ≫= λ raw,
         mret (match raw with
               | Some s => if bool_decide (s = ""%string) then 0
                           else match parseInt s with JInt z => z | _ => 0 end
               | None => 0
               end)
     end)
    (λ _, throw (Thrown (AppError INFRA_ERROR "Token version check failed" 503))).

Definition bumpTokenVersion (wallet : string) : IO Z :=
  tryCatch
    (command redisDown (λ now r,
       match kvIncr (versionKey wallet) now r with Some (z, r') => (Some z, r') | None => (None, r) end) ≫= λ z,
     match z with Some z => mret z | None => throw (Thrown (PlainError "ERR value is not an integer")) end)
    (λ _, throw (Thrown (AppError INFRA_ERROR "Token version bump failed" 503))).

(** [parseInt(JWT_EXPIRES_IN, 10) || 86400] *)
Definition tokenTtl : Z :=
  match parseInt (JWT_EXPIRES_IN env) with JInt z => if z =? 0 then 86400 else z | _ => 86400 end.

Definition newPayload (wallet uuid : string) (version now : Z) : JWTPayload := {|
  sub := toLowerCase wallet; walletAddress := Some (toLowerCase wallet); jti := uuid; tv := Some version;
  iat := Some now; exp := Some (now + tokenTtl); nbf := Some now;
  iss := JWT_ISSUER env; aud := JWT_AUDIENCE env; tier := None; deviceHash := None; ipClass := None |}.

Definition hasSecret : bool := negb (bool_decide (JWT_SECRET env = ""%string)).

Definition issueToken (wallet uuid : string) : IO token :=
  throwWhen (negb hasSecret) (Thrown (PlainError "JWT_SECRET not set")) ≫= λ _,
  nowSeconds ≫= λ now,
  getTokenVersion (Some wallet) ≫= λ version,
  mret (jwtSign (newPayload wallet uuid version now) (JWT_SECRET env)).

(** [findOrCreateUser] is the outcome of the user upsert. *)
Definition verifySignatureAndIssueJWT (wallet signedChallenge uuid : string) (findOrCreateUser : result exn unit)
    : IO token :=
  let identity := toLowerCase wallet in
  tryCatch
    ((if hasGetdel then assertNotLockedOut identity else mret tt) ≫= λ _,
     (if hasGetdel then getdel (challengeKey identity) else get (challengeKey identity)) ≫= λ challenge,
     match challenge with
     | None | Some ""%string => throw (Thrown noChallenge)
     | Some challenge =>
         (if hasGetdel then mret tt else assertNotLockedOut identity) ≫= λ _,
         throwWhen (negb (isValidEd25519PublicKey wallet)) (Thrown (PlainError "invalid public key")) ≫= λ _,
         if verifySignature wallet challenge signedChallenge then
           (if hasGetdel then mret tt else del (challengeKey identity)) ≫= λ _,
           (if hasGetdel then del (failureKey identity) else setEx (failureKey identity) "0" 1) ≫= λ _,
           lift findOrCreateUser ≫= λ _,
           issueToken wallet uuid
         else
           (if hasGetdel then mret tt else del (challengeKey identity)) ≫= λ _,
           recordFailure identity ≫= λ _,
           throw (Thrown invalidSignature)
     end)
    (orElseThrow infraFailure).

Definition isTokenRevoked (j : string) : IO bool :=
  tryCatch
    (get (revokedKey j) ≫= λ v, mret (bool_decide (is_Some v)))
    (orElseThrow (AppError INFRA_ERROR "Revocation check failed" 503)).

(** [revokeToken]: the deny-list entry lives as long as the token. *)
Definition revokeToken (j : string) (expiresAt : Z) : IO unit :=
  tryCatch
    (nowSeconds ≫= λ now,
     let ttl := expiresAt - now in
     if ttl <=? 0 then mret tt else setEx (revokedKey j) "1" ttl)
    (orElseThrow (AppError INFRA_ERROR "Revocation failed" 503)).

Definition verifyJwt (t : token) (ignore : bool) : IO JWTPayload :=
  nowSeconds ≫= λ now,
  lift (match jwtVerify t (JWT_SECRET env) (verifyOptions ignore) now with
        | Ok p => Ok p | Err e => Err (JwtThrown e) end).

(** The [catch] clause of [validateToken]. *)
Definition explainJwt {A} (e : exn) : IO A :=
  match e with
  | Thrown (AppError _ _ _) => throw e
  | JwtThrown TokenExpiredError => throw (Thrown (AppError AUTH_ERROR "Token expired" 401))
  | JwtThrown NotBeforeError => throw (Thrown (AppError AUTH_ERROR "Token not yet valid" 401))
  | JwtThrown JsonWebTokenError => throw (Thrown (AppError AUTH_ERROR "Invalid token" 401))
  | Thrown (PlainError _) => throw (Thrown (AppError INFRA_ERROR "Token validation failed" 500))
  end.

Definition validateToken (t : token) : IO JWTPayload :=
  throwWhen (negb hasSecret) (Thrown noSecret) ≫= λ _,
  tryCatch
    (verifyJwt t false ≫= λ decoded,
     throwWhen (bool_decide (jti decoded = ""%string)) (Thrown missingJti) ≫= λ _,
     isTokenRevoked (jti decoded) ≫= λ revoked,
     throwWhen revoked (Thrown tokenRevoked) ≫= λ _,
     getTokenVersion (walletAddress decoded) ≫= λ currentVersion,
     throwWhen (default 0 (tv decoded) <? currentVersion) (Thrown tokenRevoked) ≫= λ _,
     mret decoded)
    explainJwt.

(** The claims a refresh needs: id, wallet, issue and expiry time. *)
Definition refreshClaims (p : JWTPayload) : option (string * Z * Z) :=
  match walletAddress p, iat p, exp p with
  | Some w, Some i, Some x =>
      if bool_decide (jti p = ""%string) || bool_decide (w = ""%string) then None else Some (w, i, x)
  | _, _, _ => None
  end.

Definition refreshToken (oldToken : token) (uuid : string) : IO token :=
  throwWhen (negb hasSecret) (Thrown noSecret) ≫= λ _,
  tryCatch
    (verifyJwt oldToken true ≫= λ decoded,
     match refreshClaims decoded with
     | None => throw (Thrown badClaims)
     | Some (wallet, issued, expires) =>
         nowSeconds ≫= λ now,
         throwWhen (expires + REFRESH_EXPIRY_GRACE_SECONDS <? now) (Thrown tooOld) ≫= λ _,
         throwWhen ((now + 60 <? issued) || (REFRESH_MAX_AGE_SECONDS <? now - issued)) (Thrown tooOld) ≫= λ _,
         isTokenRevoked (jti decoded) ≫= λ revoked,
         throwWhen revoked (Thrown refreshRevoked) ≫= λ _,
         revokeToken (jti decoded) (Z.max expires now + REFRESH_EXPIRY_GRACE_SECONDS) ≫= λ _,
         issueToken wallet uuid
     end)
    (orElseThrow refreshFailed).
End Service.

(** ** Keys do not clash *)

Lemma key_neq_prefix :
  (∀ a b, challengeKey a ≠ versionKey b) ∧ (∀ a b, failureKey a ≠ versionKey b) ∧
  (∀ a b, revokedKey a ≠ versionKey b) ∧ (∀ a b, challengeKey a ≠ revokedKey b) ∧
  (∀ a b, failureKey a ≠ revokedKey b) ∧ (∀ a b, versionKey a ≠ revokedKey b) ∧
  (∀ a b, challengeKey a ≠ failureKey b) ∧ (∀ a b, versionKey a ≠ failureKey b).
Proof. repeat split; intros a b H; discriminate H. Qed.

Lemma revokedKey_inj a b : revokedKey a = revokedKey b → a = b.
Proof. unfold revokedKey, REVOKED_PREFIX. intros H. by injection H. Qed.

Lemma failureKey_inj a b : failureKey a = failureKey b → a = b.
Proof. unfold failureKey, AUTH_FAILURE_PREFIX. intros H. by injection H. Qed.

(** ** In an undisturbed world *)

Section Facts.
Context {R token : Type} `{!Kv string R, !KvLaws string R} `{!Jwt token, !JwtLaws token}.
Context (env : Env).
Context (isValidEd25519PublicKey : string → bool).
Context (verifySignature : string → string → string → bool).

Implicit Types (r : R) (t : token) (now : Z) (p : JWTPayload).

(** The deny list and the generation of a wallet, as the requests read them. *)
Definition denied (j : string) now r : bool := bool_decide (is_Some (kvGet (V := string) (revokedKey j) now r)).
Definition generation (w : string) now r : Z :=
  match kvGet (versionKey w) now r with
  | Some s => if bool_decide (s = ""%string) then 0 else match parseInt s with JInt z => z | _ => 0 end
  | None => 0
  end.

Lemma isTokenRevoked_calm j r now : isTokenRevoked j (calm r now) = (calm r now, Ok (denied j now r)).
Proof. done. Qed.

Lemma getTokenVersion_calm w r now :
  getTokenVersion (Some w) (calm r now) = (calm r now, Ok (generation w now r)).
Proof. done. Qed.

Lemma issueToken_calm w u r now : hasSecret env = true →
  issueToken env w u (calm r now) =
  (calm r now, Ok (jwtSign (newPayload env w u (generation w (now) r) (now / 1000)) (JWT_SECRET env))).
Proof. intros Hs. unfold issueToken. rewrite Hs. done. Qed.

(** What [validateToken] answers for a token whose signature, audience and times check out. *)
Definition judge p now r : result exn JWTPayload :=
  if bool_decide (jti p = ""%string) then Err (Thrown missingJti)
  else if denied (jti p) now r then Err (Thrown tokenRevoked)
  else match walletAddress p with
       | None => Err (Thrown (AppError INFRA_ERROR "Token version check failed" 503))
       | Some w => if default 0 (tv p) <? generation w now r then Err (Thrown tokenRevoked) else Ok p
       end.

Lemma validateToken_calm t r now : hasSecret env = true →
  validateToken env t (calm r now) =
  (calm r now,
   match jwtVerify t (JWT_SECRET env) (verifyOptions env false) (now / 1000) with
   | Ok p => judge p now r
   | Err TokenExpiredError => Err (Thrown (AppError AUTH_ERROR "Token expired" 401))
   | Err NotBeforeError => Err (Thrown (AppError AUTH_ERROR "Token not yet valid" 401))
   | Err JsonWebTokenError => Err (Thrown (AppError AUTH_ERROR "Invalid token" 401))
   end).
Proof.
  intros Hs. unfold validateToken, verifyJwt. rewrite Hs. cbn [negb].
  unfold throwWhen, throwIf, lift, nowSeconds, mbind, io_bind, tryCatch. cbn [clock calm].
  destruct (jwtVerify _ _ _ _) as [p|[]]; [|done..]. unfold judge.
  case_bool_decide; [done|]. change (isTokenRevoked (jti p) _) with (calm r now, Ok (E := exn) (denied (jti p) now r)).
  destruct (denied _ _ _); [done|]. destruct (walletAddress p) as [w|]; [|done].
  rewrite getTokenVersion_calm. by destruct (_ <? _).
Qed.

(** ** What the other requests cannot touch *)

Inductive op : Type :=
| OpChallenge (wallet random : string)
| OpVerify (wallet signed uuid : string) (user : result exn unit)
| OpValidate (t : token)
| OpRefresh (t : token) (uuid : string)
| OpRevoke (j : string) (expiresAt : Z)
| OpBump (wallet : string).

Context (hasGetdel : bool).

Definition exec (o : op) (w : world R) : world R :=
  match o with
  | OpChallenge a c => (generateChallenge isValidEd25519PublicKey a c w).1
  | OpVerify a s u user => (verifySignatureAndIssueJWT env isValidEd25519PublicKey verifySignature hasGetdel a s u user w).1
  | OpValidate t => (validateToken env t w).1
  | OpRefresh t u => (refreshToken env t u w).1
  | OpRevoke j x => (revokeToken j x w).1
  | OpBump a => (bumpTokenVersion a w).1
  end.

(** Requests one after the other: each starts [gap] ms after the previous one
    ended, with its own schedule. *)
Definition request : Type := op * nat * list (hop R).
Definition serve (w : world R) (q : request) : world R :=
  let '(o, gap, hs) := q in exec o (mkWorld (store w) (clock w + Z.of_nat gap) hs).
Definition serveAll (w : world R) (qs : list request) : world R := foldl serve w qs.
Definition undisturbed (qs : list request) : Prop := Forall (λ q, quiet q.2) qs.

Section Frame.
Context (P : Z → R → Prop) (k : string).
Hypothesis (P_reads : ∀ (tm : Z) r r', kvGet (V := string) k tm r' = kvGet k tm r → P tm r → P tm r').

Lemma keeps_get k' : keeps (holds P) (get k').
Proof. apply keeps_read. Qed.
Lemma keeps_setEx k' v ttl : k' ≠ k → keeps (holds P) (setEx k' v ttl).
Proof. intros Hne. apply keeps_command. intros now r H tm Ht. apply (P_reads tm r); [by apply kvGet_set_ne|auto]. Qed.
Lemma keeps_del k' : k' ≠ k → keeps (holds P) (del k').
Proof. intros Hne. apply keeps_command. intros now r H tm Ht. apply (P_reads tm r); [by apply kvGet_del_ne|auto]. Qed.
Lemma keeps_getdel k' : k' ≠ k → keeps (holds P) (getdel k').
Proof. intros Hne. apply keeps_command. intros now r H tm Ht. apply (P_reads tm r); [by apply kvGet_del_ne|auto]. Qed.
Lemma keeps_bump a : versionKey a ≠ k → keeps (holds P) (bumpTokenVersion a).
Proof.
  intros Hne. apply keeps_tryCatch; [|intros; apply keeps_throw]. apply keeps_bind; [|intros []; auto with io].
  apply keeps_command. intros now r H tm Ht. unfold kvIncr.
  destruct (kvGet (versionKey a) now r) as [v|]; cbn [mbind option_bind].
  - destruct (BigInt_string v); cbn; [|auto]. apply (P_reads tm r); [by apply kvGet_put_ne|auto].
  - cbn. apply (P_reads tm r); [by apply kvGet_put_ne|auto].
Qed.

Lemma keeps_orElseThrow {A} fallback e : keeps (holds P) (orElseThrow (A := A) fallback e).
Proof. destruct e as [[]|]; apply keeps_throw. Qed.
Lemma keeps_explainJwt {A} e : keeps (holds P) (explainJwt (R := R) (A := A) e).
Proof. destruct e as [[]|[]]; apply keeps_throw. Qed.
Hint Resolve keeps_get keeps_setEx keeps_del keeps_getdel keeps_orElseThrow keeps_explainJwt : io.

Lemma keeps_version w : keeps (holds P) (getTokenVersion w).
Proof. apply keeps_tryCatch; [|auto with io]. destruct w; [apply keeps_bind|]; auto with io. Qed.
Lemma keeps_revoked j : keeps (holds P) (isTokenRevoked j).
Proof. unfold isTokenRevoked. auto with io. Qed.
Hint Resolve keeps_version keeps_revoked : io.

Lemma keeps_issue w u : keeps (holds P) (issueToken env w u).
Proof. unfold issueToken. auto 8 with io. Qed.
Hint Resolve keeps_issue : io.

Lemma keeps_revoke j x : revokedKey j ≠ k → keeps (holds P) (revokeToken j x).
Proof.
  intros Hne. unfold revokeToken. apply keeps_tryCatch; [|auto with io].
  apply keeps_bind; [auto with io|]. intros now. cbv zeta. case_ifs; auto with io.
Qed.

Lemma keeps_verified {A} t ignore (f : JWTPayload → io (world R) exn A) :
  (∀ p now, jwtVerify t (JWT_SECRET env) (verifyOptions env ignore) now = Ok p → keeps (holds P) (f p)) →
  keeps (holds P) (verifyJwt env t ignore ≫= f).
Proof.
  intros Hf w Hw. unfold verifyJwt, nowSeconds, lift, mbind, io_bind.
  destruct (jwtVerify t _ _ (clock w / 1000)) as [p|e] eqn:Hv; [|done]. by eapply Hf.
Qed.

Lemma keeps_validate t : keeps (holds P) (validateToken env t).
Proof.
  unfold validateToken, verifyJwt. apply keeps_bind; [auto with io|intros _].
  apply keeps_tryCatch; [|auto with io]. auto 12 with io.
Qed.

Lemma keeps_challenge w c : (∀ a, challengeKey a ≠ k) → keeps (holds P) (generateChallenge isValidEd25519PublicKey w c).
Proof. intros Hne. unfold generateChallenge. auto 8 with io. Qed.

Lemma keeps_verify w sg u user : (∀ a, challengeKey a ≠ k) → (∀ a, failureKey a ≠ k) →
  keeps (holds P) (verifySignatureAndIssueJWT env isValidEd25519PublicKey verifySignature hasGetdel w sg u user).
Proof.
  intros Hc Hf. unfold verifySignatureAndIssueJWT, assertNotLockedOut, recordFailure. cbv zeta.
  apply keeps_tryCatch; [|auto with io].
  apply keeps_bind; [destruct hasGetdel; auto with io|intros _].
  apply keeps_bind; [destruct hasGetdel; auto with io|intros c].
  destruct c as [[|c0 c]|]; [auto with io| |auto with io].
  destruct hasGetdel, (verifySignature _ _ _); auto 14 with io.
Qed.

Lemma keeps_refresh t u :
  (∀ p now w i x tm, jwtVerify t (JWT_SECRET env) (verifyOptions env true) now = Ok p →
     refreshClaims p = Some (w, i, x) →
     keeps (holds P) (revokeToken (jti p) (Z.max x tm + REFRESH_EXPIRY_GRACE_SECONDS))) →
  keeps (holds P) (refreshToken env t u).
Proof.
  intros Hr. unfold refreshToken. apply keeps_bind; [auto with io|intros _].
  apply keeps_tryCatch; [|auto with io].
  apply keeps_verified. intros p now Hv. destruct (refreshClaims p) as [[[a i] x]|] eqn:Hcl; [|auto with io].
  apply keeps_bind; [auto with io|]. intros tm. specialize (Hr p _ a i x tm Hv Hcl). auto 12 with io.
Qed.
End Frame.

(** ** Generations and the deny list, over any requests *)

Definition generationIn (w : string) (lo hi : Z) : Z → R → Prop := λ tm r,
  ∃ m, lo ≤ m ≤ hi ∧ kvGet (versionKey w) tm r = Some (toString m).

Definition denyUntil (j : string) (x : Z) : Z → R → Prop := λ tm r,
  tm < x * 1000 → is_Some (kvGet (V := string) (revokedKey j) tm r).

Lemma generationIn_reads w lo hi (tm : Z) r r' :
  kvGet (V := string) (versionKey w) tm r' = kvGet (versionKey w) tm r →
  generationIn w lo hi tm r → generationIn w lo hi tm r'.
Proof. unfold generationIn. by intros ->. Qed.

Lemma denyUntil_reads j x (tm : Z) r r' :
  kvGet (V := string) (revokedKey j) tm r' = kvGet (revokedKey j) tm r →
  denyUntil j x tm r → denyUntil j x tm r'.
Proof. unfold denyUntil. by intros ->. Qed.

Lemma holds_impl (P Q : Z → R → Prop) (w : world R) : (∀ tm r, P tm r → Q tm r) → holds P w → holds Q w.
Proof. intros H [Hq HP]. split; auto. Qed.

Lemma generationIn_weaken v lo hi (tm : Z) r : generationIn v lo hi tm r → generationIn v lo (hi + 1) tm r.
Proof. intros (m & ? & ?). exists m. split; [lia|done]. Qed.

Lemma exec_generation o (v : string) lo hi (w : world R) :
  holds (generationIn v lo hi) w → holds (generationIn v lo (hi + 1)) (exec o w).
Proof.
  destruct key_neq_prefix as (K1 & K2 & K3 & _).
  intros Hw. pose proof (holds_impl _ _ w (generationIn_weaken v lo hi) Hw) as Hw'.
  pose proof (generationIn_reads v lo (hi + 1)) as HR.
  destruct o as [a c|a sg u user|t|t u|j x|a]; cbn [exec].
  - eapply keeps_challenge; eauto.
  - eapply keeps_verify; eauto.
  - by apply keeps_validate.
  - apply keeps_refresh; [intros; eapply keeps_revoke; eauto|done].
  - eapply keeps_revoke; eauto.
  - destruct (decide (versionKey a = versionKey v)) as [He|Hne].
    + clear Hw'. destruct w as [r now hs]. destruct Hw as [Hq HP]. cbn [store clock hops] in *.
      unfold bumpTokenVersion, tryCatch, mbind, io_bind. rewrite He.
      assert (∀ now' r', (∀ tm, now' ≤ tm → generationIn v lo hi tm r') →
        ∃ z r2, kvIncr (versionKey v) now' r' = Some (z, r2) ∧
                ∀ tm, now' ≤ tm → generationIn v lo (hi + 1) tm r2) as Hincr.
      { intros now' r' H. destruct (H now' ltac:(lia)) as (m & Hm & Hg). unfold kvIncr. rewrite Hg.
        rewrite BigInt_toString. cbn. eexists _, _. split; [done|]. intros tm Ht.
        exists (m + 1). split; [lia|]. rewrite kvGet_put_old; [|by rewrite Hg|done].
        destruct (H tm Ht) as (m' & _ & ->). done. }
      unfold command. cbn [hops store clock]. destruct hs as [|h hs].
      * destruct (Hincr now r HP) as (z & r2 & -> & H2). done.
      * inversion Hq as [|?? Hh Hhs]; subst. rewrite Hh. destruct (fails h); cbn.
        { split; [done|]. cbn. intros tm Ht. apply generationIn_weaken, HP. lia. }
        destruct (Hincr (now + Z.of_nat (delay h)) r ltac:(intros; apply HP; lia)) as (z & r2 & -> & H2). done.
    + eapply keeps_bump; eauto.
Qed.

Lemma serve_generation q v lo hi (w : world R) : quiet q.2 →
  holds (generationIn v lo hi) w → holds (generationIn v lo (hi + 1)) (serve w q).
Proof.
  destruct q as [[o gap] hs]. intros Hq [_ HP]. apply exec_generation. split; [done|].
  cbn. intros tm Ht. apply HP. lia.
Qed.

Lemma serveAll_generation qs v lo hi (w : world R) : undisturbed qs →
  holds (generationIn v lo hi) w → holds (generationIn v lo (hi + Z.of_nat (length qs))) (serveAll w qs).
Proof.
  revert hi w. induction qs as [|q qs IH]; intros hi w Hu Hw; cbn [length serveAll foldl].
  - by replace (hi + Z.of_nat 0) with hi by lia.
  - inversion Hu as [|?? Hq Hqs]; subst. change (foldl serve (serve w q) qs) with (serveAll (serve w q) qs).
    replace (hi + Z.of_nat (S (length qs))) with ((hi + 1) + Z.of_nat (length qs)) by lia.
    apply IH; [done|]. by apply serve_generation.
Qed.

(** A revocation entry is written to live until its deadline. *)
Lemma keeps_revoke_until j x y : y ≤ x → keeps (holds (denyUntil j y)) (revokeToken j x).
Proof.
  intros Hxy. unfold revokeToken. apply keeps_tryCatch.
  - intros w Hw. unfold nowSeconds, mbind, io_bind. cbv zeta. destruct (Z.leb_spec (x - clock w / 1000) 0); [done|].
    destruct w as [r now hs]. destruct Hw as [Hq HP]. cbn [store clock hops] in *.
    pose proof (Z.mul_div_le now 1000 ltac:(lia)).
    unfold setEx, command. cbn [hops clock store]. destruct hs as [|h hs].
    + split; [done|]. cbn. intros tm Ht Hlt. rewrite kvGet_set by lia. done.
    + inversion Hq as [|?? Hh Hhs]; subst. rewrite Hh. destruct (fails h); (split; [done|]); cbn; intros tm Ht.
      * apply HP. lia.
      * intros Hlt. rewrite kvGet_set by lia. done.
  - intros [[]|] w Hw; done.
Qed.

(** Revocations of the id [j], by logout or by refresh, reach at least to [y]. *)
Definition revokesUntil (j : string) (y : Z) (o : op) : Prop :=
  match o with
  | OpRevoke j' x => j' = j → y ≤ x
  | OpRefresh t _ => ∀ p now, jwtVerify t (JWT_SECRET env) (verifyOptions env true) now = Ok p → jti p = j →
      ∃ x, exp p = Some x ∧ y ≤ x + REFRESH_EXPIRY_GRACE_SECONDS
  | _ => True
  end.

Lemma exec_denied o j y (w : world R) : revokesUntil j y o →
  holds (denyUntil j y) w → holds (denyUntil j y) (exec o w).
Proof.
  destruct key_neq_prefix as (_ & _ & _ & K1 & K2 & K3 & _).
  intros Ho Hw. pose proof (denyUntil_reads j y) as HR.
  destruct o as [a c|a sg u user|t|t u|j' x|a]; cbn [exec].
  - eapply keeps_challenge; eauto.
  - eapply keeps_verify; eauto.
  - by apply keeps_validate.
  - apply keeps_refresh; [|done]. intros p now a i x tm Hv Hcl.
    destruct (decide (jti p = j)) as [Hj|Hj].
    + destruct (Ho p now Hv Hj) as (x' & Hx & Hy). unfold refreshClaims in Hcl. rewrite Hx in Hcl.
      rewrite Hj. apply keeps_revoke_until. repeat case_match; simplify_eq. lia.
    + eapply keeps_revoke; eauto. intros H. by apply revokedKey_inj in H.
  - destruct (decide (j' = j)) as [->|Hj]; [by apply keeps_revoke_until; auto|].
    eapply keeps_revoke; eauto. intros H. by apply revokedKey_inj in H.
  - eapply keeps_bump; eauto.
Qed.

Lemma serveAll_denied qs j y (w : world R) : undisturbed qs → Forall (λ q, revokesUntil j y q.1.1) qs →
  holds (denyUntil j y) w → holds (denyUntil j y) (serveAll w qs).
Proof.
  revert w. induction qs as [|[[o gap] hs] qs IH]; intros w Hu Hf Hw; [done|].
  inversion Hu as [|?? Hq Hqs]; subst. inversion Hf as [|?? Ho Hos]; subst. cbn [serveAll foldl].
  apply IH; [done..|]. apply exec_denied; [done|]. destruct Hw as [_ HP].
  split; [done|]. cbn. intros tm Ht. apply HP. lia.
Qed.

(** ** Validation *)

(** C5: Whatever happens around its two Redis round trips (delays, failures,
    interference), [validateToken] either accepts a token the library verified at
    that moment, with an id and a wallet, or throws an application error with
    status 401, 500 or 503; when a round trip fails it never accepts. *)
Theorem validateToken_sound (t : token) (w : world R) :
  match (validateToken env t w).2 with
  | Ok p =>
      jwtVerify t (JWT_SECRET env) (verifyOptions env false) (clock w / 1000) = Ok p ∧
      hasSecret env = true ∧ jti p ≠ ""%string ∧ is_Some (walletAddress p) ∧
      Forall (λ h, fails h = false) (take 2 (hops w))
  | Err e => ∃ code msg st, e = Thrown (AppError code msg st) ∧ st ∈ [401; 500; 503]
  end.
Proof.
  unfold validateToken, verifyJwt, explainJwt, isTokenRevoked, getTokenVersion, get, orElseThrow.
  unfold throwWhen, throwIf, lift, nowSeconds, mbind, io_bind, tryCatch, throw, redisDown, noSecret, missingJti, tokenRevoked.
  destruct (hasSecret env); cbn [negb]; [|repeat eexists; set_solver].
  destruct (jwtVerify _ _ _ _) as [p|[]]; [|cbn; repeat eexists; set_solver..].
  case_bool_decide as Hj; [cbn; repeat eexists; set_solver|].
  destruct w as [r now [|h1 hs]]; unfold command; cbn [hops store clock].
  - destruct (kvGet _ _ _); cbn; [repeat eexists; set_solver|].
    destruct (walletAddress p) eqn:Hw; cbn; [|repeat eexists; set_solver].
    destruct (_ <? _); cbn; [repeat eexists; set_solver|repeat split; by eauto].
  - destruct (fails h1) eqn:Hf1; cbn; [repeat eexists; set_solver|].
    destruct (kvGet _ _ _); cbn; [repeat eexists; set_solver|].
    destruct (walletAddress p) eqn:Hw; cbn; [|repeat eexists; set_solver].
    destruct hs as [|h2 hs]; cbn; [|destruct (fails h2) eqn:Hf2; cbn; [repeat eexists; set_solver|]];
      (destruct (_ <? _); cbn; [repeat eexists; set_solver|repeat split; by eauto]).
Qed.

(** In an undisturbed world: exactly which tokens are accepted. *)
Lemma validateToken_accepts t r now p : hasSecret env = true →
  (validateToken env t (calm r now)).2 = Ok p ↔
  jwtVerify t (JWT_SECRET env) (verifyOptions env false) (now / 1000) = Ok p ∧
  jti p ≠ ""%string ∧ denied (jti p) now r = false ∧
  ∃ a, walletAddress p = Some a ∧ generation a now r ≤ default 0 (tv p).
Proof.
  intros Hs. rewrite validateToken_calm by done. cbn [snd]. unfold judge.
  destruct (jwtVerify _ _ _ _) as [q|[]]; [|split; [done|by intros [? _]]..].
  case_bool_decide; [split; [done|intros ([= ->] & ? & _); congruence]|].
  destruct (denied (jti q) now r) eqn:Hd; [split; [done|intros ([= ->] & _ & ? & _); congruence]|].
  destruct (walletAddress q) eqn:Hw; [|split; [done|intros ([= ->] & _ & _ & a & ? & _); congruence]].
  destruct (Z.ltb_spec (default 0 (tv q)) (generation s now r)).
  - split; [done|]. intros ([= ->] & _ & _ & a & Ha & Hle). rewrite Hw in Ha. injection Ha as ->. lia.
  - split; [intros [= ->]; eauto 10|]. by intros ([= ->] & _).
Qed.

(** A token a wallet has just been issued is accepted with its own claims,
    as long as it has not expired. *)
Theorem issued_token_validates w u r now tm : hasSecret env = true → u ≠ ""%string →
  now ≤ tm → tm / 1000 < now / 1000 + tokenTtl env →
  denied u tm r = false → generation w tm r = generation w now r →
  ∃ t, issueToken env w u (calm r now) = (calm r now, Ok t) ∧
    ∃ p, (validateToken env t (calm r tm)).2 = Ok p ∧ walletAddress p = Some (toLowerCase w) ∧ jti p = u.
Proof.
  intros Hs Hu Ht Hx Hd Hg. eexists. split; [by apply issueToken_calm|].
  exists (newPayload env w u (generation w now r) (now / 1000)).
  rewrite validateToken_accepts by done. split; [|done].
  rewrite verify_signed; [|done|done| |right].
  - split; [done|]. split; [done|]. split; [done|]. eexists. split; [done|]. cbn [default tv newPayload].
    assert (generation (toLowerCase w) tm r = generation w tm r) as ->; [|cbn; lia].
    unfold generation, versionKey. by rewrite toLowerCase_idemp.
  - unfold started. cbn. zb. apply Z.div_le_mono; lia.
  - unfold unexpired. cbn. zb. lia.
Qed.

(** ** Revocation *)

(** C6: Once a wallet's generation has been bumped, no token of an older
    generation is ever accepted again, through any requests (challenges, logins,
    refreshes, logouts, further bumps) that follow one another. *)
Theorem bulk_revocation_final (wallet : string) r now v w1 (qs : list request) t p a gap : hasSecret env = true →
  (∀ tm, now ≤ tm → kvGet (V := string) (versionKey wallet) tm r = kvGet (versionKey wallet) now r) →
  bumpTokenVersion wallet (calm r now) = (w1, Ok v) → 0 ≤ v → v + Z.of_nat (length qs) < 2 ^ 53 →
  undisturbed qs →
  walletAddress p = Some a → toLowerCase a = toLowerCase wallet → default 0 (tv p) < v →
  let w2 := serveAll w1 qs in
  (validateToken env t (calm (store w2) (clock w2 + Z.of_nat gap))).2 ≠ Ok p.
Proof.
  intros Hs Hper Hb Hv Hn Hu Ha Hl Htv w2 Hok.
  assert (holds (generationIn wallet v v) w1) as Hw1.
  { unfold bumpTokenVersion, tryCatch, mbind, io_bind in Hb. rewrite command_calm in Hb.
    unfold kvIncr in Hb. pose proof (Hper now ltac:(lia)) as Hnow.
    destruct (kvGet (versionKey wallet) now r) as [s|] eqn:Hg; cbn [mbind option_bind fst snd] in Hb.
    - destruct (BigInt_string s) as [z|]; cbn in Hb; [|done]. injection Hb as <- <-.
      split; [constructor|]. cbn. intros tm Ht. exists (z + 1). split; [lia|].
      rewrite kvGet_put_old by (rewrite ?Hg; eauto). by rewrite (Hper tm Ht).
    - cbn in Hb. injection Hb as <- <-. split; [constructor|]. cbn. intros tm Ht. exists 1. split; [lia|].
      by apply kvGet_put_new. }
  apply (serveAll_generation qs) in Hw1 as [_ HP]; [|done]. fold w2 in HP.
  destruct (HP (clock w2 + Z.of_nat gap) ltac:(lia)) as (m & Hm & Hg).
  apply validateToken_accepts in Hok as (_ & _ & _ & b & Hb' & Hle); [|done]. rewrite Ha in Hb'.
  injection Hb' as <-. revert Hle. unfold generation. unfold versionKey in *. rewrite Hl, Hg.
  rewrite bool_decide_eq_false_2 by apply toString_nonempty. rewrite parseInt_toString by lia. lia.
Qed.

(** A revoked token is never accepted again: until it expires it is on the
    deny list, and afterwards it is expired. *)
Theorem revoked_never_accepted j x r now w1 (qs : list request) t p gap : hasSecret env = true →
  revokeToken j x (calm r now) = (w1, Ok tt) → undisturbed qs →
  Forall (λ q, revokesUntil j x q.1.1) qs → jti p = j → exp p = Some x →
  let w2 := serveAll w1 qs in
  (validateToken env t (calm (store w2) (clock w2 + Z.of_nat gap))).2 ≠ Ok p.
Proof.
  intros Hs Hr Hu Hf Hj Hx w2 Hok.
  assert (holds (denyUntil j x) w1) as Hw1.
  { unfold revokeToken, tryCatch, mbind, io_bind, nowSeconds in Hr. cbn [clock calm] in Hr. cbv zeta in Hr.
    pose proof (Z.mul_div_le now 1000 ltac:(lia)). destruct (Z.leb_spec (x - now / 1000) 0).
    - injection Hr as <-. split; [constructor|]. cbn. intros tm Ht Hlt. nia.
    - cbn in Hr. injection Hr as <-. split; [constructor|]. cbn. intros tm Ht Hlt.
      rewrite kvGet_set by lia. done. }
  apply (serveAll_denied qs) in Hw1 as [_ HP]; [|done..]. fold w2 in HP.
  set (tm := clock w2 + Z.of_nat gap) in *. specialize (HP tm ltac:(lia)).
  apply validateToken_accepts in Hok as (Hv & _ & Hd & _); [|done].
  apply verify_sound in Hv as (_ & [Hi|Hi] & _); [done|]. unfold unexpired in Hi. rewrite Hx in Hi. zb.
  rewrite Hj in Hd. unfold denied in Hd. apply bool_decide_eq_false in Hd. apply Hd, HP.
  pose proof (Z.div_mod tm 1000 ltac:(lia)). pose proof (Z.mod_pos_bound tm 1000 ltac:(lia)). lia.
Qed.

(** ** Refreshing *)

Lemma refreshToken_calm t u r now : hasSecret env = true →
  refreshToken env t u (calm r now) =
  match jwtVerify t (JWT_SECRET env) (verifyOptions env true) (now / 1000) with
  | Err _ => (calm r now, Err (Thrown refreshFailed))
  | Ok p =>
      match refreshClaims p with
      | None => (calm r now, Err (Thrown badClaims))
      | Some (w, i, x) =>
          let s := now / 1000 in
          if x + REFRESH_EXPIRY_GRACE_SECONDS <? s then (calm r now, Err (Thrown tooOld))
          else if (s + 60 <? i) || (REFRESH_MAX_AGE_SECONDS <? s - i) then (calm r now, Err (Thrown tooOld))
          else if denied (jti p) now r then (calm r now, Err (Thrown refreshRevoked))
          else
            let r' := kvSet (revokedKey (jti p)) "1" (Z.max x s + REFRESH_EXPIRY_GRACE_SECONDS - s) now r in
            (calm r' now, Ok (jwtSign (newPayload env w u (generation w now r') s) (JWT_SECRET env)))
      end
  end.
Proof.
  intros Hs. unfold refreshToken, verifyJwt. rewrite Hs. cbn [negb].
  unfold throwWhen, throwIf, lift, nowSeconds, mbind, io_bind, tryCatch. cbn [clock calm].
  destruct (jwtVerify _ _ _ _) as [p|e]; [|done].
  destruct (refreshClaims p) as [[[w i] x]|]; [|done]. cbv zeta.
  destruct (_ <? _); [done|]. destruct (_ || _); [done|].
  change (isTokenRevoked (jti p) _) with (calm r now, Ok (E := exn) (denied (jti p) now r)).
  destruct (denied _ _ _); [done|]. unfold revokeToken, tryCatch, mbind, io_bind, nowSeconds. cbn [clock calm].
  rewrite (proj2 (Z.leb_gt _ _)) by (unfold REFRESH_EXPIRY_GRACE_SECONDS; lia).
  unfold setEx. rewrite command_calm. cbn [fst snd]. by rewrite issueToken_calm.
Qed.

(** C11: Requests one after the other and Redis answering: after a successful refresh of a token
    every further one fails, whatever challenges, logins, validations, refreshes, revocations
    and bumps come in between, as long as none of them revokes the same identifier for a
    shorter time ([revokesUntil]); only in the very last second of the grace period, when the
    deny entry has run out, could it be refreshed again. Two overlapping refreshes of one
    token both succeed, see [refresh_race]. *)
Theorem refresh_once t u u' r now w1 t' p (qs : list request) gap : hasSecret env = true →
  refreshToken env t u (calm r now) = (w1, Ok t') →
  jwtVerify t (JWT_SECRET env) (verifyOptions env true) (now / 1000) = Ok p →
  undisturbed qs →
  let until := default 0 (exp p) + REFRESH_EXPIRY_GRACE_SECONDS in
  Forall (λ q, revokesUntil (jti p) until q.1.1) qs →
  let w2 := serveAll w1 qs in let tm := clock w2 + Z.of_nat gap in
  tm / 1000 ≠ until →
  isOk (refreshToken env t u' (calm (store w2) tm)).2 = false.
Proof.
  intros Hs Hr Hv Hu until Hf w2 tm Hne.
  rewrite refreshToken_calm, Hv in Hr by done.
  destruct (refreshClaims p) as [[[w i] x]|] eqn:Hcl; [|done]. cbv zeta in Hr.
  destruct (_ <? _) in Hr; [done|]. destruct (_ || _) in Hr; [done|]. destruct (denied _ _ _) in Hr; [done|].
  injection Hr as <- _.
  assert (exp p = Some x) as Hx by (unfold refreshClaims in Hcl; repeat case_match; congruence).
  assert (until = x + REFRESH_EXPIRY_GRACE_SECONDS) as Hun by (unfold until; by rewrite Hx).
  clearbody until. subst until.
  pose proof (Z.mul_div_le now 1000 ltac:(lia)).
  match goal with _ := serveAll ?w1 qs |- _ =>
    assert (holds (denyUntil (jti p) (x + REFRESH_EXPIRY_GRACE_SECONDS)) w1) as Hw1 end.
  { split; [constructor|]. cbn. intros tm' Ht Hlt. rewrite kvGet_set by lia. done. }
  apply (serveAll_denied qs) in Hw1 as [_ HP]; [|done..]. fold w2 in HP. specialize (HP tm ltac:(lia)).
  rewrite refreshToken_calm by done.
  destruct (jwtVerify t _ _ (tm / 1000)) as [p'|] eqn:Hv'; [|done].
  rewrite (verify_claims _ _ _ _ _ _ _ _ Hv' Hv), Hcl. cbv zeta.
  destruct (Z.ltb_spec (x + REFRESH_EXPIRY_GRACE_SECONDS) (tm / 1000)); [done|]. destruct (_ || _); [done|].
  unfold denied. rewrite bool_decide_eq_true_2; [done|]. apply HP.
  pose proof (Z.div_mod tm 1000 ltac:(lia)). pose proof (Z.mod_pos_bound tm 1000 ltac:(lia)). lia.
Qed.

(** What a refresh needs of a token the service signed. *)
Lemma refresh_signed p w i x u r now : hasSecret env = true →
  iss p = JWT_ISSUER env → aud p = JWT_AUDIENCE env → started p (now / 1000) = true →
  refreshClaims p = Some (w, i, x) →
  now / 1000 ≤ x + REFRESH_EXPIRY_GRACE_SECONDS → i ≤ now / 1000 + 60 → now / 1000 - i ≤ REFRESH_MAX_AGE_SECONDS →
  denied (jti p) now r = false →
  ∃ r', refreshToken env (jwtSign p (JWT_SECRET env)) u (calm r now) =
        (calm r' now, Ok (jwtSign (newPayload env w u (generation w now r) (now / 1000)) (JWT_SECRET env))) ∧
    (∀ (tm : Z) k, k ≠ revokedKey (jti p) → kvGet (V := string) k tm r' = kvGet k tm r).
Proof.
  intros Hs Hi Ha Hst Hcl Hx Hi' Hage Hd. eexists. split.
  - rewrite refreshToken_calm by done. rewrite verify_signed by (try done; by left). rewrite Hcl. cbv zeta.
    rewrite (proj2 (Z.ltb_ge _ _)) by lia.
    rewrite (proj2 (Z.ltb_ge (_ + 60) _)), (proj2 (Z.ltb_ge REFRESH_MAX_AGE_SECONDS _)), Hd by lia. cbn [orb].
    do 4 f_equal. unfold generation. destruct key_neq_prefix as (_ & _ & K & _).
    by rewrite kvGet_set_ne by apply K.
  - intros tm k Hk. cbn. by apply kvGet_set_ne.
Qed.

(** The generation number is not checked on refresh: a token that
    [validateToken] rejects because its wallet's tokens were revoked in bulk is
    exchanged for a new one that [validateToken] accepts. *)
Theorem stale_generation_refreshable p w i x u r now : hasSecret env = true →
  iss p = JWT_ISSUER env → aud p = JWT_AUDIENCE env → started p (now / 1000) = true →
  refreshClaims p = Some (w, i, x) →
  now / 1000 ≤ x + REFRESH_EXPIRY_GRACE_SECONDS → i ≤ now / 1000 + 60 → now / 1000 - i ≤ REFRESH_MAX_AGE_SECONDS →
  denied (jti p) now r = false → default 0 (tv p) < generation w now r →
  u ≠ ""%string → u ≠ jti p → denied u now r = false → 0 < tokenTtl env →
  isOk (validateToken env (jwtSign p (JWT_SECRET env)) (calm r now)).2 = false ∧
  ∃ r' t', refreshToken env (jwtSign p (JWT_SECRET env)) u (calm r now) = (calm r' now, Ok t') ∧
    isOk (validateToken env t' (calm r' now)).2 = true.
Proof.
  intros Hs Hi Ha Hst Hcl Hx Hi' Hage Hd Htv Hu Huj Hdu Httl. split.
  - destruct (validateToken _ _ _).2 as [q|] eqn:Hq; [|done]. exfalso.
    apply validateToken_accepts in Hq as (Hv & _ & _ & a & Hwa & Hle); [|done].
    assert (p = q) as <-.
    { eapply verify_claims; [|exact Hv]. apply (verify_signed _ _ (verifyOptions env true) (now / 1000)); [done..|by left]. }
    unfold refreshClaims in Hcl. rewrite Hwa in Hcl. repeat case_match; simplify_eq. lia.
  - destruct (refresh_signed p w i x u r now) as (r' & Hr & Hk); [done..|].
    eexists r', _. split; [exact Hr|].
    assert (HG : ∀ b, generation b now r' = generation b now r).
    { intros b. destruct key_neq_prefix as (_ & _ & _ & _ & _ & K & _). unfold generation. by rewrite Hk by apply K. }
    apply isOk_true. eexists. apply validateToken_accepts; [done|]. split; [|split; [|split]].
    + apply verify_signed; [done|done| |right]; [unfold started|unfold unexpired]; cbn; zb; lia.
    + done.
    + cbn. unfold denied. rewrite Hk; [done|]. intros H. by apply revokedKey_inj in H.
    + eexists. split; [done|]. cbn. rewrite HG. unfold generation, versionKey. rewrite toLowerCase_idemp. lia.
Qed.

(** Logging out revokes a token until it expires, but a refresh accepts it
    for another grace period: a logged-out token can be exchanged for a new one. *)
Theorem logged_out_token_refreshable p w i x u r now tm : hasSecret env = true →
  iss p = JWT_ISSUER env → aud p = JWT_AUDIENCE env → started p (tm / 1000) = true →
  refreshClaims p = Some (w, i, x) → now / 1000 < x →
  x < tm / 1000 ≤ x + REFRESH_EXPIRY_GRACE_SECONDS → i ≤ tm / 1000 + 60 → tm / 1000 - i ≤ REFRESH_MAX_AGE_SECONDS →
  let '(w1, out) := revokeToken (jti p) x (calm r now) in
  out = Ok tt ∧ isOk (refreshToken env (jwtSign p (JWT_SECRET env)) u (calm (store w1) tm)).2 = true.
Proof.
  intros Hs Hi Ha Hst Hcl Hlt Htm Hi' Hage.
  unfold revokeToken, tryCatch, mbind, io_bind, nowSeconds. cbn [clock calm]. cbv zeta.
  rewrite (proj2 (Z.leb_gt _ _)) by lia. cbn. split; [done|].
  pose proof (Z.div_mod tm 1000 ltac:(lia)). pose proof (Z.mod_pos_bound tm 1000 ltac:(lia)).
  pose proof (Z.div_mod now 1000 ltac:(lia)). pose proof (Z.mod_pos_bound now 1000 ltac:(lia)).
  edestruct (refresh_signed p w i x u) as (r' & Hr & _); [done..|lia|lia|lia| |rewrite Hr; done].
  unfold denied. rewrite kvGet_set_late; [done|lia..].
Qed.

(** The deny list is checked before it is written, so two overlapping
    refreshes of one token (the second runs between the check and the write of
    the first) both succeed. *)
Theorem refresh_race p w i x u1 u2 r now : hasSecret env = true →
  iss p = JWT_ISSUER env → aud p = JWT_AUDIENCE env → started p (now / 1000) = true →
  refreshClaims p = Some (w, i, x) →
  now / 1000 ≤ x + REFRESH_EXPIRY_GRACE_SECONDS → i ≤ now / 1000 + 60 → now / 1000 - i ≤ REFRESH_MAX_AGE_SECONDS →
  denied (jti p) now r = false →
  let t := jwtSign p (JWT_SECRET env) in
  let second := refreshToken env t u2 (calm r now) in
  let overlap := mkWorld r now [ {| delay := 0; fails := false; others := λ r, r |};
                                 {| delay := 0; fails := false; others := λ _, store second.1 |} ] in
  isOk second.2 = true ∧ isOk (refreshToken env t u1 overlap).2 = true.
Proof.
  intros Hs Hi Ha Hst Hcl Hx Hi' Hage Hd t second overlap.
  destruct (refresh_signed p w i x u2 r now) as (r' & Hr & _); [done..|].
  split; [unfold second, t; by rewrite Hr|].
  unfold refreshToken, verifyJwt. rewrite Hs. cbn [negb].
  unfold throwWhen, throwIf, lift, nowSeconds, mbind, io_bind, tryCatch, overlap. cbn [clock].
  unfold t. rewrite verify_signed by (try done; by left). rewrite Hcl. cbn [clock].
  rewrite (proj2 (Z.ltb_ge _ (now / 1000))) by lia.
  rewrite (proj2 (Z.ltb_ge (_ + 60) _)), (proj2 (Z.ltb_ge REFRESH_MAX_AGE_SECONDS _)) by lia. cbn [orb].
  unfold isTokenRevoked, get, tryCatch, mbind, io_bind, command. cbn [hops fails delay others store clock].
  rewrite Z.add_0_r. unfold mret, io_ret. change (bool_decide _) with (denied (jti p) now r). rewrite Hd.
  unfold revokeToken, tryCatch, mbind, io_bind, nowSeconds. cbn [clock]. cbv zeta.
  rewrite (proj2 (Z.leb_gt _ _)) by (unfold REFRESH_EXPIRY_GRACE_SECONDS; lia).
  unfold setEx, command. cbn [hops fails delay others store clock].
  change (mkWorld ?b ?c []) with (calm b c). by rewrite issueToken_calm.
Qed.

(** ** Guessing signatures *)



Definition failures (wallet : string) (tm : Z) r : option string := kvGet (failureKey (toLowerCase wallet)) tm r.


(** The number of failures the counter shows. *)
Definition counted (wallet : string) (tm : Z) r : Z := default 0 (parseCount (failures wallet tm r)).




(** A login succeeds only with a signature of the challenge the wallet was
    last sent, and uses that challenge up: replaying the signature fails. *)
Theorem login_uses_up_challenge wallet sg u user r now w1 t : hasSecret env = true →
  verifySignatureAndIssueJWT env isValidEd25519PublicKey verifySignature hasGetdel wallet sg u user (calm r now)
    = (w1, Ok t) →
  (∃ c, kvGet (challengeKey (toLowerCase wallet)) now r = Some c ∧ verifySignature wallet c sg = true) ∧
  ∀ tm sg' u' user', now ≤ tm →
    isOk (verifySignatureAndIssueJWT env isValidEd25519PublicKey verifySignature hasGetdel wallet sg' u' user'
            (calm (store w1) tm)).2 = false.
Proof.
  intros Hs Hr. destruct key_neq_prefix as (_ & _ & _ & _ & _ & _ & K & _).
  assert ((∃ c, kvGet (challengeKey (toLowerCase wallet)) now r = Some c ∧ verifySignature wallet c sg = true) ∧
    ∀ tm, kvGet (V := string) (challengeKey (toLowerCase wallet)) tm (store w1) = None) as [? Hgone].
  { revert Hr. unfold verifySignatureAndIssueJWT, assertNotLockedOut, recordFailure. cbv zeta.
    unfold get, getdel, kvGetDel, del, setEx, mbind, io_bind, tryCatch, throwWhen, throwIf, lift, mret, io_ret.
    destruct hasGetdel; rewrite ?command_calm; cbn [fst snd].
    - destruct (match parseCount _ with Some _ => _ | None => _ end); [done|]. rewrite ?command_calm. cbn [fst snd].
      destruct (kvGet (challengeKey _) now r) as [[|c0 c]|]; [done| |done].
      destruct (isValidEd25519PublicKey wallet); cbn [negb]; [|done].
      destruct (verifySignature _ _ _) eqn:Hv; rewrite ?command_calm; cbn [fst snd]; [|done].
      rewrite ?command_calm; cbn [fst snd]. destruct user as [|[[]|]]; [|done..]. rewrite issueToken_calm by done.
      intros [= <- _]. split; [eauto|]. intros tm. cbn.
      rewrite kvGet_del_ne by (intros H; by eapply K). apply kvGet_del.
    - destruct (kvGet (challengeKey _) now r) as [[|c0 c]|]; [done| |done].
      rewrite ?command_calm; cbn [fst snd].
      destruct (match parseCount _ with Some _ => _ | None => _ end); [done|].
      destruct (isValidEd25519PublicKey wallet); cbn [negb]; [|done].
      destruct (verifySignature _ _ _) eqn:Hv; rewrite ?command_calm; cbn [fst snd]; [|done].
      rewrite ?command_calm; cbn [fst snd]. destruct user as [|[[]|]]; [|done..]. rewrite issueToken_calm by done.
      intros [= <- _]. split; [eauto|]. intros tm. cbn.
      rewrite kvGet_set_ne by (intros H; by eapply K). apply kvGet_del. }
  split; [done|]. intros tm sg' u' user' _.
  unfold verifySignatureAndIssueJWT, assertNotLockedOut. cbv zeta.
  unfold get, getdel, kvGetDel, mbind, io_bind, tryCatch, throwWhen, throwIf, lift, mret, io_ret.
  destruct hasGetdel; rewrite ?command_calm; cbn [fst snd].
  - destruct (match parseCount _ with Some _ => _ | None => _ end); [done|]. rewrite ?command_calm. cbn [fst snd].
    by rewrite Hgone.
  - by rewrite Hgone.
Qed.

End Facts.

(** ** A token library and samples *)

(** Tokens that carry their claims and key. *)
#[global] Instance transparentJwt : Jwt (JWTPayload * string) := {|
  jwtSign p key := (p, key);
  jwtVerify '(p, key') key o now :=
    if negb (bool_decide (key' = key)) then Err JsonWebTokenError
    else if negb (started p now) then Err NotBeforeError
    else if negb (ignoreExpiration o) && negb (unexpired p now) then Err TokenExpiredError
    else if bool_decide (iss p = issuer o) && bool_decide (aud p = audience o) then Ok p
    else Err JsonWebTokenError
|}.

#[global] Instance transparentJwt_laws : JwtLaws (JWTPayload * string).
Proof.
  split; cbn [jwtSign jwtVerify transparentJwt].
  - intros p key o now Hi Ha Hst Hx. rewrite !bool_decide_eq_true_2, Hst by done. cbn.
    by destruct Hx as [->| ->]; rewrite ?andb_false_r.
  - intros p key o now Hst Hi Hx. rewrite bool_decide_eq_true_2, Hst, Hi, Hx by done. done.
  - intros p key o now Hst. by rewrite bool_decide_eq_true_2, Hst.
  - intros [p k'] key o now q. repeat case_bool_decide; cbn; try (case_ifs; discriminate).
    all: destruct (started p now) eqn:?, (ignoreExpiration o), (unexpired p now) eqn:?; cbn; try discriminate;
      intros [= <-]; auto.
  - intros [p k'] key o o' now now' q q' H1 H2. case_ifs_in H1; try discriminate. case_ifs_in H2; try discriminate. congruence.
Qed.

Definition Store : Type := gmap string (entry string).
Definition Token : Type := JWTPayload * string.
Definition sampleEnv : Env :=
  {| JWT_SECRET := "secret"; JWT_ISSUER := "elite"; JWT_AUDIENCE := "elite-api"; JWT_EXPIRES_IN := "3600" |}.
Definition sampleKey (_ : string) : bool := true.
Definition sampleVerify (_ c sg : string) : bool := bool_decide (sg = "signed " +:+ c).
Definition samplePayload : JWTPayload := newPayload sampleEnv "GA" "id1" 0 1000.
Definition sampleToken : Token := jwtSign samplePayload "secret".
Definition versioned (v : string) : Store := {[ versionKey "ga" := {| e_value := v; e_expires := None |} ]}.

(** ** Witnesses *)

Lemma issued_token_validates_witness :
  ∃ t : Token, issueToken sampleEnv "GA" "id1" (calm (∅ : Store) 1000000) = (calm (∅ : Store) 1000000, Ok t) ∧
    ∃ p, (validateToken sampleEnv t (calm (∅ : Store) 2000000)).2 = Ok p ∧
         walletAddress p = Some "ga"%string ∧ jti p = "id1"%string.
Proof.
  apply (issued_token_validates (R := Store) (token := Token) sampleEnv "GA" "id1" ∅ 1000000 2000000);
    first [done | lia | vm_compute; reflexivity].
Defined.

Lemma validateToken_sound_witness :
  ∃ p, (validateToken sampleEnv sampleToken (calm (∅ : Store) 2000000)).2 = Ok p ∧
    jwtVerify sampleToken "secret" (verifyOptions sampleEnv false) 2000 = Ok p ∧ jti p ≠ ""%string.
Proof.
  pose proof (validateToken_sound (R := Store) (token := Token) sampleEnv sampleKey sampleVerify
                sampleToken (calm (∅ : Store) 2000000)) as H.
  destruct ((validateToken sampleEnv sampleToken (calm (∅ : Store) 2000000)).2) as [p|e] eqn:E.
  - exists p. split; [reflexivity|]. destruct H as (H & _ & J & _). split; [exact H|exact J].
  - exfalso. vm_compute in E. discriminate E.
Defined.

Lemma bulk_revocation_final_witness :
  (bumpTokenVersion "GA" (calm (∅ : Store) 1000000)).2 = Ok 1 ∧
  (validateToken sampleEnv sampleToken (calm (versioned "1") (1000000 + Z.of_nat 1000))).2 ≠ Ok samplePayload.
Proof.
  split; [vm_compute; reflexivity|].
  refine (bulk_revocation_final (R := Store) (token := Token) sampleEnv sampleKey sampleVerify true
           "GA" ∅ 1000000 1 (calm (versioned "1") 1000000) [] sampleToken samplePayload "ga" 1000
           eq_refl (λ _ _, eq_refl) _ _ _ _ eq_refl eq_refl _).
  - vm_compute. reflexivity.
  - lia.
  - reflexivity.
  - constructor.
  - reflexivity.
Defined.

Definition revokedStore : Store := {[ revokedKey "id1" := {| e_value := "1"; e_expires := Some 4600000 |} ]}.

Lemma revoked_never_accepted_witness :
  revokeToken "id1" 4600 (calm (∅ : Store) 1000000) = (calm revokedStore 1000000, Ok tt) ∧
  (validateToken sampleEnv sampleToken (calm revokedStore (1000000 + Z.of_nat 1000))).2 ≠ Ok samplePayload.
Proof.
  assert (revokeToken "id1" 4600 (calm (∅ : Store) 1000000) = (calm revokedStore 1000000, Ok tt)) as H
    by (vm_compute; reflexivity).
  split; [exact H|].
  refine (revoked_never_accepted (R := Store) (token := Token) sampleEnv sampleKey sampleVerify true
           "id1" 4600 ∅ 1000000 (calm revokedStore 1000000) [] sampleToken samplePayload 1000
           eq_refl H _ _ eq_refl eq_refl); constructor.
Defined.

Definition refreshedStore : Store := {[ revokedKey "id1" := {| e_value := "1"; e_expires := Some 5500000 |} ]}.

Lemma refresh_once_witness :
  isOk (refreshToken sampleEnv sampleToken "id2" (calm (∅ : Store) 1500000)).2 = true ∧
  isOk (refreshToken sampleEnv sampleToken "id3" (calm refreshedStore (1500000 + Z.of_nat 60000))).2 = false.
Proof.
  assert (refreshToken sampleEnv sampleToken "id2" (calm (∅ : Store) 1500000) =
    (calm refreshedStore 1500000, Ok (jwtSign (newPayload sampleEnv "ga" "id2" 0 1500) "secret"))) as H
    by (vm_compute; reflexivity).
  split; [by rewrite H|].
  refine (refresh_once (R := Store) (token := Token) sampleEnv sampleKey sampleVerify true
           sampleToken "id2" "id3" ∅ 1500000 (calm refreshedStore 1500000) _ samplePayload [] 60000
           eq_refl H _ _ _ _).
  - vm_compute. reflexivity.
  - constructor.
  - constructor.
  - vm_compute. discriminate.
Defined.

Lemma stale_generation_refreshable_witness :
  isOk (validateToken sampleEnv sampleToken (calm (versioned "1") 1500000)).2 = false ∧
  ∃ r' t', refreshToken sampleEnv sampleToken "id2" (calm (versioned "1") 1500000) = (calm r' 1500000, Ok t') ∧
    isOk (validateToken sampleEnv t' (calm r' 1500000)).2 = true.
Proof.
  apply (stale_generation_refreshable (R := Store) (token := Token) sampleEnv samplePayload "ga" 1000 4600 "id2"
           (versioned "1") 1500000); first [done | vm_compute; reflexivity | vm_compute; discriminate].
Defined.

Lemma logged_out_token_refreshable_witness :
  let '(w1, out) := revokeToken "id1" 4600 (calm (∅ : Store) 1500000) in
  out = Ok tt ∧ isOk (refreshToken sampleEnv sampleToken "id2" (calm (store w1) 4700000)).2 = true.
Proof.
  apply (logged_out_token_refreshable (R := Store) (token := Token) sampleEnv samplePayload "ga" 1000 4600 "id2"
           ∅ 1500000 4700000); first [done | vm_compute; split; first [reflexivity|discriminate] | vm_compute; discriminate].
Defined.

Lemma refresh_race_witness :
  let second := refreshToken sampleEnv sampleToken "id2" (calm (∅ : Store) 1500000) in
  let overlap := mkWorld (∅ : Store) 1500000 [ {| delay := 0; fails := false; others := λ r, r |};
                                 {| delay := 0; fails := false; others := λ _, store second.1 |} ] in
  isOk second.2 = true ∧ isOk (refreshToken sampleEnv sampleToken "id1" overlap).2 = true.
Proof.
  apply (refresh_race (R := Store) (token := Token) sampleEnv samplePayload "ga" 1000 4600 "id1" "id2" ∅ 1500000);
    first [done | vm_compute; discriminate].
Defined.


(** [recordFailure] reads the counter and then sets it: of two overlapping attempts (the
    second, with a challenge of its own, runs between the read and the write of the first)
    both are answered "Invalid signature" and one is counted. *)
Example guesses_race :
  let verify u := verifySignatureAndIssueJWT (R := Store) (token := Token) sampleEnv sampleKey sampleVerify true "GA" "guess" u (Ok tt) in
  let challenge c r := store (generateChallenge (R := Store) sampleKey "GA" c (calm r 0)).1 in
  let second r := verify "u2" (calm (challenge "n2" r) 0) in
  let still := {| delay := 0; fails := false; others := λ r : Store, r |} in
  let overlap := mkWorld (challenge "n1" ∅) 0 [still; still; still; {| delay := 0; fails := false; others := λ r, store (second r).1 |}] in
  (verify "u1" overlap).2 = Err (Thrown invalidSignature) ∧ (second (challenge "n1" ∅)).2 = Err (Thrown invalidSignature) ∧
  counted "GA" 0 (store (verify "u1" overlap).1) = 1.
Proof. vm_compute. split_and!; reflexivity. Qed.

Definition challenged : Store := {[ challengeKey "ga" := {| e_value := "n1"; e_expires := Some 300000 |} ]}.

Lemma login_uses_up_challenge_witness :
  isOk (verifySignatureAndIssueJWT (token := Token) sampleEnv sampleKey sampleVerify true
          "GA" "signed n1" "id1" (Ok tt) (calm challenged 1000)).2 = true ∧
  isOk (verifySignatureAndIssueJWT (token := Token) sampleEnv sampleKey sampleVerify true
          "GA" "signed n1" "id2" (Ok tt) (calm (∅ : Store) 2000)).2 = false.
Proof.
  assert (verifySignatureAndIssueJWT (token := Token) sampleEnv sampleKey sampleVerify true
            "GA" "signed n1" "id1" (Ok tt) (calm challenged 1000) =
    (calm (∅ : Store) 1000, Ok (jwtSign (newPayload sampleEnv "GA" "id1" 0 1) "secret"))) as H
    by (vm_compute; reflexivity).
  split; [by rewrite H|].
  refine (proj2 (login_uses_up_challenge (R := Store) (token := Token) sampleEnv sampleKey sampleVerify true
            "GA" "signed n1" "id1" (Ok tt) challenged 1000 (calm ∅ 1000) _ eq_refl H) 2000 "signed n1" "id2" (Ok tt) _).
  lia.
Defined.
