(* ===== verification/DeviceContext.v ===== *)
(** * Device context: [lib/deviceContext.ts]

    The coarse fingerprint an administrator's session is bound to: a hash of
    stable headers and the client address masked to a network prefix. JavaScript's
    32-bit operators are written out; SHA-256 is an argument. *)

From S2P Require Import Prelude JsString JsValue.

(** ** 32-bit operators *)

Definition toUint32 (z : Z) : Z := z mod 2 ^ 32.
Definition toInt32 (z : Z) : Z := (z + 2 ^ 31) mod 2 ^ 32 - 2 ^ 31.

Definition shl32 (a n : Z) : Z := toInt32 (Z.shiftl (toInt32 a) (n mod 32)).        (* a << n *)
Definition ushr32 (a n : Z) : Z := Z.shiftr (toUint32 a) (n mod 32).                (* a >>> n *)
Definition or32 (a b : Z) : Z := Z.lor (toInt32 a) (toInt32 b).                     (* a | b *)
Definition and32 (a b : Z) : Z := Z.land (toInt32 a) (toInt32 b).                   (* a & b *)

(** ** IPv4 *)

(** The octets of a dotted quad, as [parseInt] reads them. *)
Definition octet (s : string) : option Z :=
  match parseInt s with JInt o => if (o <? 0) || (255 <? o) then None else Some o | _ => None end.

Definition octetsOf (addr : string) : option (list Z) :=
  os ← mapM octet (split "." addr); if (length os =? 4)%nat then Some os else None.

Definition addressOf (o0 o1 o2 o3 : Z) : Z :=
  ushr32 (or32 (or32 (or32 (shl32 o0 24) (shl32 o1 16)) (shl32 o2 8)) o3) 0.

Definition maskOf (bits : Z) : Z :=
  if bits <=? 0 then 0 else if 32 <=? bits then 4294967295 else ushr32 (shl32 4294967295 (32 - bits)) 0.

Definition maskBits (addr bits : Z) : Z := ushr32 (and32 addr (maskOf bits)) 0.

(** [[...].join(".")] *)
Definition octetsText (m : Z) : string :=
  join "." (map toString [and32 (ushr32 m 24) 255; and32 (ushr32 m 16) 255; and32 (ushr32 m 8) 255; and32 m 255]).

Definition maskV4 (addr : string) (bits : Z) : option string :=
  match octetsOf addr with
  | Some [o0; o1; o2; o3] =>
      Some (octetsText (maskBits (addressOf o0 o1 o2 o3) bits))
  | _ => None
  end.

(** ** IPv6 *)

(** [s.split("::")] *)
Fixpoint split2 (s : string) : list string :=
  match s with
  | EmptyString => [""%string]
  | String ":"%char (String ":"%char s') => ""%string :: split2 s'
  | String c s' => match split2 s' with h :: t => String c h :: t | [] => [String c EmptyString] end
  end.

Fixpoint dropLastIf (c : ascii) (s : string) : string :=
  match s with
  | EmptyString => EmptyString
  | String d EmptyString => if Ascii.eqb d c then EmptyString else s
  | String d s' => String d (dropLastIf c s')
  end.
Definition dropFirstIf (c : ascii) (s : string) : string :=
  match s with String d s' => if Ascii.eqb d c then s' else s | EmptyString => s end.
(** [a.slice(0, a.indexOf(c))], or all of [a] *)
Fixpoint before (c : ascii) (s : string) : string :=
  match s with String d s' => if Ascii.eqb d c then EmptyString else String d (before c s') | EmptyString => s end.

Definition splitOrNone (s : string) : list string := if bool_decide (s = ""%string) then [] else split ":" s.

(** [/^[0-9a-fA-F]{1,4}$/] and [parseInt(g, 16)] *)
Definition hextet (g : string) : option Z :=
  let '(v, n, rest) := spanDigits 16 g 0 0 in
  if bool_decide (rest = ""%string) && (1 <=? n)%nat && (n <=? 4)%nat then Some v else None.

Definition expandV6 (addr : string) : option (list Z) :=
  let a := before "%" (dropLastIf "]" (dropFirstIf "[" addr)) in
  groups ← match split2 a with
    | [h] => Some (splitOrNone h)
    | [h; t] =>
        let head := splitOrNone h in let tail := splitOrNone t in
        if (8 <? length head + length tail)%nat then None
        else Some (head ++ repeat "0"%string (8 - length head - length tail) ++ tail)
    | _ => None
    end;
  if (length groups =? 8)%nat then mapM hextet groups else None.

Definition maskGroup (bits : Z) (i : nat) (g : Z) : Z :=
  let groupStart := Z.of_nat i * 16 in
  if bits <=? groupStart then 0
  else if bits - groupStart <? 16 then
    and32 g (and32 (shl32 65535 (16 - (bits - groupStart))) 65535)
  else g.

Definition maskV6 (groups : list Z) (bits : Z) : list Z := imap (maskGroup bits) groups.

(** ** The class of an address *)

Inductive IpClass : Type := V4 (masked : string) (bits : Z) | V6 (groups : list Z) (bits : Z) | Unknown.
#[global] Instance IpClass_eq_dec : EqDecision IpClass.
Proof. solve_decision. Defined.

Definition includes (c : ascii) (s : string) : bool := negb (str_forall (λ d, negb (Ascii.eqb d c)) s).

Fixpoint dropPrefix (p s : string) : option string :=
  match p, s with
  | EmptyString, _ => Some s
  | String c p', String d s' => if Ascii.eqb c d then dropPrefix p' s' else None
  | _, _ => None
  end.

Definition hexDigit (d : Z) : ascii := ascii_of_N (Z.to_N (if d <? 10 then 48 + d else 87 + d)).

(** [h.toString(16)] of a group: at most four digits. *)
Fixpoint hexFuel (fuel : nat) (n : Z) (acc : string) : string :=
  match fuel with
  | O => acc
  | S f => let acc' := String (hexDigit (n mod 16)) acc in if n / 16 =? 0 then acc' else hexFuel f (n / 16) acc'
  end.
Definition hexText (h : Z) : string := hexFuel 4 h "".

(** The string that is stored and compared. *)
Definition classText (c : IpClass) : string :=
  match c with
  | V4 masked bits => ("v4/" +:+ masked +:+ "/" +:+ toString bits)%string
  | V6 groups bits => ("v6/" +:+ join ":" (map hexText groups) +:+ "/" +:+ toString bits)%string
  | Unknown => "unknown"
  end.

Definition ipPrefixClass (ip : option string) (v4Bits v6Bits : Z) : IpClass :=
  match ip with
  | None | Some ""%string => Unknown
  | Some ip =>
      let a := trim ip in
      let addr := match dropPrefix "::ffff:" a with Some t => if includes "." a then t else a | None => a end in
      if includes "." addr && negb (includes ":" addr) then
        match maskV4 addr v4Bits with Some m => V4 m v4Bits | None => Unknown end
      else if includes ":" addr then
        match expandV6 addr with
        | Some gs => V6 (maskV6 gs (Z.min (Z.max v6Bits 0) 128)) v6Bits
        | None => Unknown
        end
      else Unknown
  end.

Record DeviceContext : Type := { deviceHash : string; ipClass : IpClass }.

Section Context_.
Variable sha256 : string → string.
(** A header's values, joined as the code does; an absent header is empty. *)
Variable header : string → string.

Definition newline : ascii := ascii_of_nat 10.

Definition deviceFingerprint : string :=
  sha256 (join newline (map header ["user-agent"; "accept-language"; "sec-ch-ua"; "sec-ch-ua-platform"]%string)).

Definition deviceContextFromRequest (ip : option string) (v4Bits v6Bits : Z) : DeviceContext :=
  {| deviceHash := deviceFingerprint; ipClass := ipPrefixClass ip v4Bits v6Bits |}.
End Context_.

(** ** Correctness *)

Lemma toUint32_id z : 0 ≤ z < 2 ^ 32 → toUint32 z = z.
Proof. apply Z.mod_small. Qed.
Lemma toInt32_id z : - 2 ^ 31 ≤ z < 2 ^ 31 → toInt32 z = z.
Proof. intros. unfold toInt32. rewrite Z.mod_small; lia. Qed.
Lemma toUint32_toInt32 z : toUint32 (toInt32 z) = toUint32 z.
Proof.
  unfold toUint32, toInt32. rewrite Zminus_mod_idemp_l. f_equal. lia.
Qed.
(** Reading 32 bits does not depend on the sign they are given. *)
Lemma testbit_uint32 z i : 0 ≤ i → Z.testbit (toUint32 z) i = (i <? 32) && Z.testbit z i.
Proof.
  intros Hi. unfold toUint32. destruct (Z.ltb_spec i 32); cbn [andb];
    [by apply Z.mod_pow2_bits_low|by apply Z.mod_pow2_bits_high].
Qed.
Lemma testbit_int32 z i : 0 ≤ i < 32 → Z.testbit (toInt32 z) i = Z.testbit z i.
Proof.
  intros Hi. pose proof (testbit_uint32 (toInt32 z) i ltac:(lia)) as H1. rewrite toUint32_toInt32, testbit_uint32 in H1 by lia.
  rewrite (proj2 (Z.ltb_lt i 32)) in H1 by lia. by symmetry.
Qed.

Lemma ushr32_0 z : ushr32 z 0 = toUint32 z.
Proof. unfold ushr32. by rewrite Z.shiftr_0_r. Qed.

(** Clearing the low [k] bits, bit by bit. *)
Lemma testbit_high a k i : 0 ≤ k → 0 ≤ i → Z.testbit (a / 2 ^ k * 2 ^ k) i = (k <=? i) && Z.testbit a i.
Proof.
  intros Hk Hi. destruct (Z.leb_spec k i); cbn [andb].
  - rewrite Z.mul_pow2_bits, Z.div_pow2_bits by lia. f_equal. lia.
  - by apply Z.mul_pow2_bits_low.
Qed.

Lemma testbit_mask bits i : 0 ≤ bits ≤ 32 → 0 ≤ i < 32 → Z.testbit (maskOf bits) i = (32 - bits <=? i).
Proof.
  intros Hb Hi. unfold maskOf. destruct (Z.leb_spec bits 0); [by rewrite Z.testbit_0_l, (proj2 (Z.leb_gt _ _)) by lia|].
  destruct (Z.leb_spec 32 bits) as [H32|H32].
  - change 4294967295 with (Z.ones 32). rewrite Z.ones_spec_low by lia. symmetry. apply Z.leb_le. lia.
  - rewrite ushr32_0, testbit_uint32, (proj2 (Z.ltb_lt i 32)) by lia. unfold shl32.
    rewrite testbit_int32 by lia. change (toInt32 4294967295) with (-1). rewrite (Z.mod_small (32 - bits)) by lia.
    rewrite Z.shiftl_spec by lia. destruct (Z.leb_spec (32 - bits) i); [apply Z.bits_m1; lia|apply Z.testbit_neg_r; lia].
Qed.

Lemma testbit_small a k i : 0 ≤ a < 2 ^ k → 0 ≤ k ≤ i → Z.testbit a i = false.
Proof. intros Ha Hk. rewrite <-(Z.mod_small a (2 ^ k)) by lia. apply Z.mod_pow2_bits_high. lia. Qed.

Lemma maskBits_spec addr bits : 0 ≤ addr < 2 ^ 32 → 0 ≤ bits ≤ 32 →
  maskBits addr bits = addr / 2 ^ (32 - bits) * 2 ^ (32 - bits).
Proof.
  intros Ha Hb. apply Z.bits_inj'. intros i Hi. rewrite testbit_high by lia.
  unfold maskBits, and32. rewrite ushr32_0, testbit_uint32 by done.
  destruct (Z.ltb_spec i 32); cbn [andb].
  - rewrite Z.land_spec, !testbit_int32, testbit_mask by lia. apply andb_comm.
  - rewrite (testbit_small addr 32) by lia. by rewrite andb_false_r.
Qed.

Lemma lor_add o k low : 0 ≤ k → 0 ≤ low < 2 ^ k → Z.lor (Z.shiftl o k) low = o * 2 ^ k + low.
Proof.
  intros Hk Hl. assert (Z.land (Z.shiftl o k) low = 0) as Hd.
  { apply Z.bits_inj'. intros i Hi. rewrite Z.land_spec, Z.bits_0. destruct (Z.ltb_spec i k) as [H|H].
    - by rewrite Z.shiftl_spec_low.
    - by rewrite (testbit_small low k), andb_false_r by lia. }
  rewrite <-Z.lxor_lor, <-Z.add_nocarry_lxor by done. by rewrite Z.shiftl_mul_pow2.
Qed.

(** The octets are put together as the quad's number. *)
Lemma addressOf_spec o0 o1 o2 o3 : 0 ≤ o0 < 256 → 0 ≤ o1 < 256 → 0 ≤ o2 < 256 → 0 ≤ o3 < 256 →
  addressOf o0 o1 o2 o3 = o0 * 2 ^ 24 + (o1 * 2 ^ 16 + (o2 * 2 ^ 8 + o3)).
Proof.
  intros H0 H1 H2 H3.
  assert (Z.lor (Z.shiftl o0 24) (Z.lor (Z.shiftl o1 16) (Z.lor (Z.shiftl o2 8) o3)) =
    o0 * 2 ^ 24 + (o1 * 2 ^ 16 + (o2 * 2 ^ 8 + o3))) as Hs.
  { rewrite (lor_add o2 8 o3), (lor_add o1 16), (lor_add o0 24) by lia. done. }
  rewrite <-Hs.
  apply Z.bits_inj'. intros i Hi. unfold addressOf, or32. rewrite ushr32_0, testbit_uint32 by done.
  destruct (Z.ltb_spec i 32) as [Hi32|Hi32]; cbn [andb].
  - rewrite !Z.lor_spec, !testbit_int32, !Z.lor_spec, !testbit_int32, !Z.lor_spec by lia. unfold shl32.
    rewrite !testbit_int32, !(toInt32_id o0), !(toInt32_id o1), !(toInt32_id o2) by lia.
    change (24 mod 32) with 24. change (16 mod 32) with 16. change (8 mod 32) with 8. by rewrite !orb_assoc.
  - symmetry. apply (testbit_small _ 32); [|lia]. rewrite Hs. lia.
Qed.

Lemma octet_bound s o : octet s = Some o → 0 ≤ o < 256.
Proof.
  unfold octet. destruct (parseInt s) as [z| | | |]; try done.
  destruct (Z.ltb_spec z 0), (Z.ltb_spec 255 z); cbn; intros; simplify_eq; lia.
Qed.

(** The number a quad denotes. *)
Definition quad (os : list Z) : Z := foldl (λ a o, a * 256 + o) 0 os.

Lemma octetsOf_quad addr os : octetsOf addr = Some os →
  ∃ o0 o1 o2 o3, os = [o0; o1; o2; o3] ∧ addressOf o0 o1 o2 o3 = quad os ∧ 0 ≤ quad os < 2 ^ 32.
Proof.
  unfold octetsOf. intros (l & Hl & H)%bind_Some. destruct (Nat.eqb_spec (length l) 4); simplify_eq.
  apply mapM_Some in Hl. assert (Forall (λ o, 0 ≤ o < 256) os) as Hb.
  { revert Hl. clear. induction 1; constructor; eauto using octet_bound. }
  destruct os as [|o0 [|o1 [|o2 [|o3 [|]]]]]; try done. exists o0, o1, o2, o3. split; [done|].
  rewrite !Forall_cons in Hb. destruct Hb as (? & ? & ? & ? & _).
  rewrite addressOf_spec by done. unfold quad. cbn [foldl]. lia.
Qed.

Lemma octet_of m s : 0 ≤ m < 2 ^ 32 → 0 ≤ s < 32 → and32 (ushr32 m s) 255 = m / 2 ^ s mod 256.
Proof.
  intros Hm Hs. change 256 with (2 ^ 8). rewrite <-Z.land_ones by lia. change (Z.ones 8) with 255.
  apply Z.bits_inj'. intros i Hi. unfold and32. change (toInt32 255) with 255. rewrite !Z.land_spec.
  destruct (Z.ltb_spec i 8) as [H|H].
  - rewrite testbit_int32 by lia. unfold ushr32. rewrite toUint32_id, (Z.mod_small s), Z.shiftr_div_pow2 by lia. done.
  - change 255 with (Z.ones 8). by rewrite Z.ones_spec_high, !andb_false_r by lia.
Qed.

Lemma quad_octets m : 0 ≤ m < 2 ^ 32 →
  m = quad [m / 2 ^ 24 mod 256; m / 2 ^ 16 mod 256; m / 2 ^ 8 mod 256; m / 2 ^ 0 mod 256].
Proof.
  intros Hm. change (2 ^ 0) with 1. rewrite Z.div_1_r. change (2 ^ 8) with 256.
  replace (m / 2 ^ 16) with (m / 256 / 256) by (by rewrite Z.div_div by lia).
  replace (m / 2 ^ 24) with (m / 256 / 256 / 256) by (by rewrite !Z.div_div by lia).
  pose proof (Z.div_mod m 256 ltac:(lia)). pose proof (Z.div_mod (m / 256) 256 ltac:(lia)).
  pose proof (Z.div_mod (m / 256 / 256) 256 ltac:(lia)).
  assert (m / 256 / 256 / 256 < 256) by (rewrite !Z.div_div by lia; apply Z.div_lt_upper_bound; lia).
  assert (0 ≤ m / 256 / 256 / 256) by (rewrite !Z.div_div by lia; apply Z.div_pos; lia).
  rewrite (Z.mod_small (m / 256 / 256 / 256)) by lia. unfold quad. cbn [foldl]. lia.
Qed.

Lemma octetsText_inj m m' : 0 ≤ m < 2 ^ 32 → 0 ≤ m' < 2 ^ 32 → octetsText m = octetsText m' → m = m'.
Proof.
  intros Hm Hm' He. unfold octetsText in He. apply (f_equal (split ".")) in He.
  rewrite !split_join in He; try done; [|repeat constructor; by apply toString_lacks..].
  assert (∀ m, 0 ≤ m < 2 ^ 32 → and32 m 255 = m / 2 ^ 0 mod 256) as Hlast.
  { intros x Hx. rewrite <-octet_of, ushr32_0, toUint32_id by lia. done. }
  injection He as H0%toString_inj H1%toString_inj H2%toString_inj H3%toString_inj.
  rewrite !octet_of in H0, H1, H2 by lia. rewrite !Hlast in H3 by lia.
  by rewrite (quad_octets m), (quad_octets m'), H0, H1, H2, H3.
Qed.

(** Two IPv4 addresses are in one class exactly when their first [bits] bits
    agree: the 32-bit shifts and masks compute the network prefix. *)
Theorem maskV4_prefix a a' os os' bits : octetsOf a = Some os → octetsOf a' = Some os' → 0 ≤ bits ≤ 32 →
  is_Some (maskV4 a bits) ∧
  (maskV4 a bits = maskV4 a' bits ↔ quad os / 2 ^ (32 - bits) = quad os' / 2 ^ (32 - bits)).
Proof.
  intros Ha Ha' Hb. unfold maskV4. rewrite Ha, Ha'.
  apply octetsOf_quad in Ha as (o0 & o1 & o2 & o3 & -> & Hq & Hr), Ha' as (p0 & p1 & p2 & p3 & -> & Hq' & Hr').
  rewrite Hq, Hq'. split; [by eexists|].
  assert (0 < 2 ^ (32 - bits)) as Hp by (apply Z.pow_pos_nonneg; lia).
  assert (∀ q, 0 ≤ q < 2 ^ 32 → 0 ≤ maskBits q bits < 2 ^ 32) as Hm.
  { intros q Hq0. rewrite maskBits_spec by done. pose proof (Z.div_mod q (2 ^ (32 - bits)) ltac:(lia)).
    pose proof (Z.mod_pos_bound q (2 ^ (32 - bits)) Hp). pose proof (Z.div_pos q (2 ^ (32 - bits)) ltac:(lia) Hp). nia. }
  split.
  - intros He%(inj Some). apply octetsText_inj in He; [|by apply Hm..]. rewrite !maskBits_spec in He by done. nia.
  - intros He. by rewrite !maskBits_spec, He by done.
Qed.

(** *** IPv6 *)

Lemma maskGroup_S bits i g : maskGroup bits (S i) g = maskGroup (bits - 16) i g.
Proof.
  unfold maskGroup. rewrite Nat2Z.inj_succ. replace (Z.succ (Z.of_nat i) * 16) with (Z.of_nat i * 16 + 16) by lia.
  replace (bits - 16 - Z.of_nat i * 16) with (bits - (Z.of_nat i * 16 + 16)) by lia.
  destruct (Z.leb_spec bits (Z.of_nat i * 16 + 16)), (Z.leb_spec (bits - 16) (Z.of_nat i * 16)); done || lia.
Qed.

Lemma maskV6_cons g gs bits : maskV6 (g :: gs) bits = maskGroup bits 0 g :: maskV6 gs (bits - 16).
Proof. unfold maskV6. rewrite imap_cons. f_equal. apply imap_ext. intros i x _. apply maskGroup_S. Qed.

Lemma maskGroup_head bits g : 0 < bits < 16 → 0 ≤ g < 2 ^ 16 → maskGroup bits 0 g = g / 2 ^ (16 - bits) * 2 ^ (16 - bits).
Proof.
  intros Hb Hg. unfold maskGroup. change (Z.of_nat 0 * 16) with 0. rewrite Z.sub_0_r, (proj2 (Z.leb_gt bits 0)), (proj2 (Z.ltb_lt bits 16)) by lia.
  apply Z.bits_inj'. intros i Hi. rewrite testbit_high by lia. unfold and32 at 1. rewrite Z.land_spec.
  destruct (Z.ltb_spec i 16) as [H|H].
  - rewrite !testbit_int32 by lia. unfold and32. change (toInt32 65535) with (Z.ones 16).
    rewrite Z.land_spec, Z.ones_spec_low, andb_true_r, testbit_int32 by lia. unfold shl32.
    rewrite testbit_int32, (Z.mod_small (16 - bits)), Z.shiftl_spec by lia. change (toInt32 65535) with (Z.ones 16).
    rewrite andb_comm. f_equal. destruct (Z.leb_spec (16 - bits) i); [apply Z.ones_spec_low; lia|apply Z.testbit_neg_r; lia].
  - rewrite (testbit_small g 16), andb_false_r by lia. rewrite toInt32_id by lia. by rewrite (testbit_small g 16) by lia.
Qed.

Lemma maskV6_none gs bits : bits ≤ 0 → maskV6 gs bits = repeat 0 (length gs).
Proof.
  revert bits. induction gs as [|g gs IH]; intros bits Hb; [done|]. rewrite maskV6_cons, IH by lia. cbn [length repeat]. f_equal.
  unfold maskGroup. by rewrite (proj2 (Z.leb_le bits _)) by lia.
Qed.

(** The number a list of hextets denotes. *)
Fixpoint hexNumber (gs : list Z) : Z :=
  match gs with [] => 0 | g :: gs => g * 2 ^ (16 * Z.of_nat (length gs)) + hexNumber gs end.

Definition hextets (gs : list Z) : Prop := Forall (λ g, 0 ≤ g < 2 ^ 16) gs.

Lemma hexNumber_bound gs : hextets gs → 0 ≤ hexNumber gs < 2 ^ (16 * Z.of_nat (length gs)).
Proof.
  induction 1 as [|g gs Hg Hgs IH]; [cbn; lia|]. cbn [hexNumber length].
  replace (16 * Z.of_nat (S (length gs))) with (16 + 16 * Z.of_nat (length gs)) by lia. rewrite Z.pow_add_r by lia. nia.
Qed.

Lemma quot_unique a b x y q : 0 < q → 0 ≤ x < q → 0 ≤ y < q → a * q + x = b * q + y ↔ a = b ∧ x = y.
Proof. intros. split; [intros; assert (a = b) by nia; subst; lia|intros [-> ->]; done]. Qed.

(** Two IPv6 addresses are in one class exactly when their first [bits] bits
    agree, group by group as the code masks them. *)
Theorem maskV6_prefix gs gs' bits : hextets gs → hextets gs' → length gs = length gs' →
  0 ≤ bits ≤ 16 * Z.of_nat (length gs) →
  maskV6 gs bits = maskV6 gs' bits ↔
  hexNumber gs / 2 ^ (16 * Z.of_nat (length gs) - bits) = hexNumber gs' / 2 ^ (16 * Z.of_nat (length gs) - bits).
Proof.
  intros Hg. revert gs' bits. induction Hg as [|g gs Hg Hgs IH]; intros [|g' gs'] bits Hg' Hl Hb; try done.
  inversion Hg' as [|?? Hh Hgs']; subst. injection Hl as Hl. rewrite !maskV6_cons. cbn [hexNumber length] in *.
  rewrite <-!Hl. set (n := 16 * Z.of_nat (length gs)) in *.
  replace (16 * Z.of_nat (S (length gs))) with (16 + n) in * by lia.
  pose proof (hexNumber_bound gs Hgs) as Hv. pose proof (hexNumber_bound gs' Hgs') as Hv'. rewrite <-Hl in Hv'. fold n in Hv, Hv'.
  assert (0 < 2 ^ n) as Hn by (apply Z.pow_pos_nonneg; lia).
  destruct (Z.le_gt_cases 16 bits) as [Hbig|Hsmall].
  - assert (∀ g, maskGroup bits 0 g = g) as Hm.
    { intros x. unfold maskGroup. change (Z.of_nat 0 * 16) with 0. rewrite (proj2 (Z.leb_gt _ _)), (proj2 (Z.ltb_ge _ _)) by lia. done. }
    rewrite !Hm. set (k := n - (bits - 16)). replace (16 + n - bits) with k by (subst k; lia).
    assert (0 < 2 ^ k ∧ 0 < 2 ^ (bits - 16)) as [Hk Hk'] by (split; apply Z.pow_pos_nonneg; subst k; lia).
    assert (2 ^ n = 2 ^ (bits - 16) * 2 ^ k) as Hpow by (rewrite <-Z.pow_add_r by (subst k; lia); f_equal; subst k; lia).
    rewrite Hpow, !Z.mul_assoc, !Z.div_add_l by lia. rewrite quot_unique;
      [|done|split; [apply Z.div_pos; lia|apply Z.div_lt_upper_bound; lia]..].
    pose proof (IH gs' (bits - 16) Hgs' Hl ltac:(lia)) as HI. fold k in HI. rewrite <-HI. split; [by intros [= -> ->]|by intros [-> ->]].
  - rewrite !(maskV6_none _ (bits - 16)) by lia. rewrite <-Hl.
    assert (∀ x v, 0 ≤ v < 2 ^ n → (x * 2 ^ n + v) / 2 ^ (16 + n - bits) = x / 2 ^ (16 - bits)) as Hd.
    { intros x v Hx. replace (16 + n - bits) with (n + (16 - bits)) by lia. rewrite Z.pow_add_r by lia.
      rewrite <-Z.div_div, Z.div_add_l, (Z.div_small v) by (lia || apply Z.pow_pos_nonneg; lia). f_equal. lia. }
    rewrite !Hd by done. destruct (Z.eq_dec bits 0) as [->|Hne].
    + change (16 - 0) with 16. rewrite !Z.div_small by done. unfold maskGroup. cbn. done.
    + rewrite !maskGroup_head by lia. assert (0 < 2 ^ (16 - bits)) by (apply Z.pow_pos_nonneg; lia).
      split; [intros He; injection He; intros; nia|by intros ->].
Qed.

Lemma spanDigits_hex s acc len v n r : spanDigits 16 s acc len = (v, n, r) → 0 ≤ acc < 16 ^ Z.of_nat len →
  (len ≤ n)%nat ∧ 0 ≤ v < 16 ^ Z.of_nat n.
Proof.
  revert acc len. induction s as [|c s IH]; intros acc len; cbn [spanDigits]; [by intros [= <- <- <-]|].
  destruct (digitIn 16 c) as [d|] eqn:Hd; [|by intros [= <- <- <-]]. intros Hs Ha.
  assert (0 ≤ d < 16) as Hb.
  { unfold digitIn, is_digit in Hd. case_ifs_in Hd; simplify_eq; zb; lia. }
  apply IH in Hs as [? ?]; [split; [lia|done]|]. rewrite Nat2Z.inj_succ, Z.pow_succ_r by lia. lia.
Qed.

Lemma hextet_bound g v : hextet g = Some v → 0 ≤ v < 2 ^ 16.
Proof.
  unfold hextet. destruct (spanDigits 16 g 0 0) as [[v' n] r] eqn:Hs. apply spanDigits_hex in Hs as [_ Hv]; [|cbn; lia].
  destruct (bool_decide _ && _ && _) eqn:Hc; [|done]. intros [= <-]. apply andb_true_iff in Hc as [_ Hn%Nat.leb_le].
  assert (16 ^ Z.of_nat n ≤ 16 ^ 4) by (apply Z.pow_le_mono_r; lia). change (2 ^ 16) with (16 ^ 4). lia.
Qed.

(** An expanded address is eight 16-bit groups. *)
Lemma expandV6_ok addr gs : expandV6 addr = Some gs → length gs = 8%nat ∧ hextets gs.
Proof.
  unfold expandV6. intros (groups & _ & H)%bind_Some. destruct (Nat.eqb_spec (length groups) 8) as [Hl|]; [|done].
  apply mapM_Some in H. split; [by rewrite <-(Forall2_length _ _ _ H)|]. revert H. clear. unfold hextets.
  induction 1; constructor; eauto using hextet_bound.
Qed.

(** The class of a request's address is the network prefix of configured width
    (clamped to the address's width): two IPv6 clients pass for one another
    exactly when those leading bits agree. *)
Theorem ipv6_class a a' gs gs' v4 v6 : expandV6 a = Some gs → expandV6 a' = Some gs' →
  (∀ x, x = a ∨ x = a' → x ≠ ""%string ∧ trim x = x ∧ includes ":" x = true ∧ dropPrefix "::ffff:" x = None) →
  let bits := Z.min (Z.max v6 0) 128 in
  ipPrefixClass (Some a) v4 v6 = ipPrefixClass (Some a') v4 v6 ↔
  hexNumber gs / 2 ^ (128 - bits) = hexNumber gs' / 2 ^ (128 - bits).
Proof.
  intros He He' Hx bits. assert (∀ x l, x = a ∨ x = a' → expandV6 x = Some l →
    ipPrefixClass (Some x) v4 v6 = V6 (maskV6 l bits) v6) as Hc.
  { intros x l Hin Hl. destruct (Hx x Hin) as (Hne & Ht & Hi & Hd). unfold ipPrefixClass.
    destruct x as [|c x]; [done|]. rewrite Ht. cbn zeta. rewrite Hd, Hi, andb_false_r, Hl. done. }
  rewrite (Hc a gs), (Hc a' gs') by auto.
  apply expandV6_ok in He as [Hl Hg], He' as [Hl' Hg'].
  pose proof (maskV6_prefix gs gs' bits Hg Hg' ltac:(congruence)) as Hm. rewrite Hl in Hm.
  change (16 * Z.of_nat 8) with 128 in Hm. rewrite <-Hm by (subst bits; lia). split; [by intros [= ->]|by intros ->].
Qed.

(** ** Witnesses *)

Example mask24 : maskV4 "192.168.17.5" 24 = Some "192.168.17.0"%string.
Proof. vm_compute. reflexivity. Qed.

Lemma maskV4_prefix_witness :
  is_Some (maskV4 "10.1.2.3" 16) ∧
  (maskV4 "10.1.2.3" 16 = maskV4 "10.1.200.9" 16 ↔ quad [10; 1; 2; 3] / 2 ^ (32 - 16) = quad [10; 1; 200; 9] / 2 ^ (32 - 16)).
Proof. apply maskV4_prefix; [vm_compute; reflexivity..|lia]. Defined.

Lemma maskV6_prefix_witness : maskV6 [8193; 3512; 255] 20 = maskV6 [8193; 3500; 1] 20 ↔
  hexNumber [8193; 3512; 255] / 2 ^ (16 * 3 - 20) = hexNumber [8193; 3500; 1] / 2 ^ (16 * 3 - 20).
Proof. apply (maskV6_prefix [8193; 3512; 255] [8193; 3500; 1] 20); [repeat constructor; lia..|done|cbn; lia]. Defined.

Lemma ipv6_class_witness :
  ipPrefixClass (Some "2001:db8::1"%string) 24 48 = ipPrefixClass (Some "2001:db8:0:9::7"%string) 24 48 ↔
  hexNumber [8193; 3512; 0; 0; 0; 0; 0; 1] / 2 ^ (128 - Z.min (Z.max 48 0) 128) =
  hexNumber [8193; 3512; 0; 9; 0; 0; 0; 7] / 2 ^ (128 - Z.min (Z.max 48 0) 128).
Proof.
  apply ipv6_class; [vm_compute; reflexivity..|].
  intros x [->| ->]; (repeat split; [discriminate|vm_compute; reflexivity..]).
Defined.
