(* ===== verification/AdminGate.v ===== *)
(** * The administrators' gate: [middleware/admin.middleware.ts], [services/adminSession.service.ts],
      [lib/accessControl.ts], [lib/jwtClaims.ts], [AuthService.issueAdminToken]

    A request that carries a valid token ([Auth]) passes the gate when its wallet
    is on the allowlist, its token is neither expired nor revoked and, once device
    binding is on, its device and network ([DeviceContext]) are the token's and its
    session is still registered. Sessions live in Redis ([Effects.Kv]): one store
    holds the records and one the index of each wallet's token ids. *)

From S2P Require Import Prelude JsString Errors Effects.
From S2P Require Auth DeviceContext.
Import Auth (JWTPayload, Env, exn, Thrown, redisDown, Jwt, jwtSign).

(** ** The allowlist *)

Definition getMediatorAllowlist (raw : string) : list string :=
  List.filter (λ s, negb (bool_decide (s = ""%string))) (map trim (split "," raw)).
Definition getAdminAllowlistLowercase (raw : string) : list string :=
  List.filter (λ s, negb (bool_decide (s = ""%string))) (map (λ a, toLowerCase (trim a)) (split "," raw)).
Definition isMediatorAddress (raw address : string) : bool := bool_decide (address ∈ getMediatorAllowlist raw).

(** ** Claims *)

Inductive Claim : Type := Csub | CwalletAddress | Cjti | Ciat | Cexp.

(** Absent or empty; an absent [sub] or [jti] is the empty string here. *)
Definition missing (p : JWTPayload) (c : Claim) : bool :=
  match c with
  | Csub => bool_decide (Auth.sub p = ""%string)
  | CwalletAddress => match Auth.walletAddress p with Some w => bool_decide (w = ""%string) | None => true end
  | Cjti => bool_decide (Auth.jti p = ""%string)
  | Ciat => match Auth.iat p with Some _ => false | None => true end
  | Cexp => match Auth.exp p with Some _ => false | None => true end
  end.

Definition REQUIRED_CLAIMS : list Claim := [Csub; CwalletAddress; Cjti; Ciat; Cexp].

Definition claimName (c : Claim) : string :=
  match c with Csub => "sub" | CwalletAddress => "walletAddress" | Cjti => "jti" | Ciat => "iat" | Cexp => "exp" end.

Definition validateJwtClaims (p : JWTPayload) : list Claim := List.filter (missing p) REQUIRED_CLAIMS.

Fixpoint commaJoin (l : list string) : string :=
  match l with [] => "" | [s] => s | s :: l => (s +:+ ", " +:+ commaJoin l)%string end.

Definition assertJwtClaims (p : option JWTPayload) : result error JWTPayload :=
  match p with
  | None => Err (AppError AUTH_ERROR "Unauthorized: missing JWT payload" 401)
  | Some p =>
      match validateJwtClaims p with
      | [] => Ok p
      | cs => Err (AppError AUTH_ERROR ("Unauthorized: missing required JWT claims: " +:+ commaJoin (map claimName cs)) 401)
      end
  end.

Definition requireWalletAddress (p : option JWTPayload) : result error string :=
  q ← assertJwtClaims p;
  let addr := trim (default ""%string (Auth.walletAddress q)) in
  if bool_decide (addr = ""%string) then Err (AppError AUTH_ERROR "Unauthorized: walletAddress claim is empty" 401)
  else Ok addr.

(** ** The session registry *)

Record AdminSessionRecord : Type := {
  s_jti : string; s_wallet : string; s_deviceHash : string; s_ipClass : string; s_userAgent : string;
  s_issuedAt : Z; s_expiresAt : Z; s_lastSeenAt : Z }.

Definition GRACE_SECONDS : Z := 60.
Definition INDEX_TTL_SECONDS : Z := 24 * 60 * 60.
Definition recordKey (j : string) : string := ("admin_session:" +:+ j)%string.
Definition indexKey (w : string) : string := ("admin_sessions:" +:+ toLowerCase w)%string.

Section Registry.
(** The records (JSON in the code) and the wallets' sets of ids. *)
Context {R I : Type} `{!Kv AdminSessionRecord R} `{!Kv (list string) I}.
Notation IO := (io (world (R * I)) exn).

Definition onRecords {A} (f : Z → R → A * R) : IO A :=
  command redisDown (λ now s, let '(a, r) := f now s.1 in (a, (r, s.2))).
Definition onIndex {A} (f : Z → I → A * I) : IO A :=
  command redisDown (λ now s, let '(a, i) := f now s.2 in (a, (s.1, i))).

Definition setRecord (k : string) (v : AdminSessionRecord) (ttl : Z) : IO unit := onRecords (λ now r, (tt, kvSet k v ttl now r)).
Definition getRecord (k : string) : IO (option AdminSessionRecord) := onRecords (λ now r, (kvGet k now r, r)).
Definition delRecord (k : string) : IO unit := onRecords (λ _ r, (tt, kvDel (V := AdminSessionRecord) k r)).

Definition members (k : string) (now : Z) (i : I) : list string := default [] (kvGet k now i).
Definition sadd (k m : string) : IO unit := onIndex (λ now i,
  (tt, if bool_decide (m ∈ members k now i) then i else kvPut k (members k now i ++ [m]) now i)).
Definition srem (k : string) (ms : list string) : IO unit := onIndex (λ now i,
  let rest := List.filter (λ m, negb (bool_decide (m ∈ ms))) (members k now i) in
  (tt, match rest with [] => kvDel (V := list string) k i | _ => kvPut k rest now i end)).
Definition expire (k : string) (ttl : Z) : IO unit := onIndex (λ now i,
  (tt, match kvGet k now i with Some v => kvSet k (v : list string) ttl now i | None => i end)).
Definition smembers (k : string) : IO (list string) := onIndex (λ now i, (members k now i, i)).

Definition register (rec : AdminSessionRecord) : IO unit :=
  nowSeconds ≫= λ now,
  setRecord (recordKey (s_jti rec)) rec (Z.max 1 (s_expiresAt rec - now + GRACE_SECONDS)) ≫= λ _,
  sadd (indexKey (s_wallet rec)) (s_jti rec) ≫= λ _,
  expire (indexKey (s_wallet rec)) INDEX_TTL_SECONDS.

Definition getSession (j : string) : IO (option AdminSessionRecord) := getRecord (recordKey j).

Definition seenAt (now : Z) (s : AdminSessionRecord) : AdminSessionRecord :=
  {| s_jti := s_jti s; s_wallet := s_wallet s; s_deviceHash := s_deviceHash s; s_ipClass := s_ipClass s;
     s_userAgent := s_userAgent s; s_issuedAt := s_issuedAt s; s_expiresAt := s_expiresAt s; s_lastSeenAt := now |}.

(** [ttl] is what the TTL command answers. *)
Definition touch (j : string) (ttl : Z) : IO unit :=
  tryCatch
    (onRecords (λ _ r, (ttl, r)) ≫= λ ttl,
     if ttl <=? 0 then mret tt
     else getSession j ≫= λ raw,
          match raw with
          | None => mret tt
          | Some s => nowSeconds ≫= λ now, setRecord (recordKey j) (seenAt now s) ttl
          end)
    (λ _, mret tt).

(** The loop over a wallet's ids: live records, and ids whose record is gone. *)
Fixpoint collect (js : list string) : IO (list AdminSessionRecord * list string) :=
  match js with
  | [] => mret ([], [])
  | j :: js =>
      getSession j ≫= λ r,
      collect js ≫= λ '(records, dead),
      mret (match r with Some s => (s :: records, dead) | None => (records, j :: dead) end)
  end.

Definition byIssueDesc (a b : AdminSessionRecord) : Z := s_issuedAt b - s_issuedAt a.

Definition listForWallet (w : string) : IO (list AdminSessionRecord) :=
  smembers (indexKey w) ≫= λ js,
  match js with
  | [] => mret []
  | _ => collect js ≫= λ '(records, dead),
         match dead with [] => mret tt | _ => srem (indexKey w) dead end ≫= λ _,
         mret (js_sort byIssueDesc records)
  end.

Definition revoke (j : string) : IO (option AdminSessionRecord) :=
  getSession j ≫= λ record,
  delRecord (recordKey j) ≫= λ _,
  match record with Some s => srem (indexKey (s_wallet s)) [j] | None => mret tt end ≫= λ _,
  mret record.

Fixpoint dropAll (w : string) (ss : list AdminSessionRecord) : IO unit :=
  match ss with
  | [] => mret tt
  | s :: ss => delRecord (recordKey (s_jti s)) ≫= λ _, srem (indexKey w) [s_jti s] ≫= λ _, dropAll w ss
  end.

Definition revokeDevice (w hash : string) : IO (list AdminSessionRecord) :=
  listForWallet w ≫= λ sessions,
  let matches := List.filter (λ s, bool_decide (s_deviceHash s = hash)) sessions in
  dropAll w matches ≫= λ _, mret matches.

(** [issueAdminToken]; [version] is the outcome of [getTokenVersion]. *)
Context {token : Type} `{!Jwt token} (env : Env) (ttl : Z).

Definition adminPayload (w uuid hash cls : string) (version now : Z) : JWTPayload := {|
  Auth.sub := toLowerCase w; Auth.walletAddress := Some (toLowerCase w); Auth.jti := uuid; Auth.tv := Some version;
  Auth.iat := Some now; Auth.exp := Some (now + ttl); Auth.nbf := Some now;
  Auth.iss := Auth.JWT_ISSUER env; Auth.aud := Auth.JWT_AUDIENCE env; Auth.tier := Some "admin"%string;
  Auth.deviceHash := Some hash; Auth.ipClass := Some cls |}.

Definition issueAdminToken (w uuid hash cls userAgent : string) (version : result exn Z) : IO (token * string * Z) :=
  throwWhen (negb (Auth.hasSecret env)) (Thrown Auth.noSecret) ≫= λ _,
  nowSeconds ≫= λ now,
  lift version ≫= λ v,
  let wallet := toLowerCase w in
  register {| s_jti := uuid; s_wallet := wallet; s_deviceHash := hash; s_ipClass := cls; s_userAgent := userAgent;
              s_issuedAt := now; s_expiresAt := now + ttl; s_lastSeenAt := now |} ≫= λ _,
  mret (jwtSign (adminPayload w uuid hash cls v now) (Auth.JWT_SECRET env), uuid, now + ttl).
End Registry.

(** ** The gate *)

Inductive GateVerdict : Type :=
| Granted
| Forbidden                (* 403 *)
| TokenStale               (* 401 *)
| SessionRevoked
| RevocationCheckFailed
| BindingRequired
| ContextMismatch
| RegistryMissing
| RegistryCheckFailed.
#[global] Instance GateVerdict_eq_dec : EqDecision GateVerdict.
Proof. solve_decision. Defined.

Record GateConfig : Type := { allowlist : string; bindingEnabled : bool; bindingEnforced : bool }.

Section Gate.
Variable cfg : GateConfig.
Variable isRevoked : string → result exn bool.
Variable session : string → result exn (option AdminSessionRecord).

(** [claims.tier === "admin" && typeof claims.deviceHash === "string"] *)
Definition bound (p : JWTPayload) : bool :=
  bool_decide (Auth.tier p = Some "admin"%string) && match Auth.deviceHash p with Some _ => true | None => false end.

Definition contextMatches (p : JWTPayload) (current : DeviceContext.DeviceContext) : bool :=
  bool_decide (Auth.deviceHash p = Some (DeviceContext.deviceHash current)) &&
  match Auth.ipClass p with
  | None | Some ""%string => true
  | Some c => bool_decide (DeviceContext.classText (DeviceContext.ipClass current) = c)
  end.

Definition checkBinding (p : JWTPayload) (current : DeviceContext.DeviceContext) : GateVerdict :=
  if negb (bindingEnabled cfg) then Granted
  else if negb (bound p) then (if bindingEnforced cfg then BindingRequired else Granted)
  else if negb (contextMatches p current) then ContextMismatch
  else if bool_decide (Auth.jti p = ""%string) then Granted
  else match session (Auth.jti p) with
       | Err _ => RegistryCheckFailed
       | Ok None => RegistryMissing
       | Ok (Some _) => Granted
       end.

Definition adminMiddleware (user : option JWTPayload) (nowSeconds : Z) (current : DeviceContext.DeviceContext) : GateVerdict :=
  match user with
  | None => Forbidden
  | Some p =>
      let w := trim (default ""%string (Auth.walletAddress p)) in
      if bool_decide (w = ""%string) || negb (isMediatorAddress (allowlist cfg) w) then Forbidden
      else if match Auth.exp p with Some x => x <=? nowSeconds | None => false end then TokenStale
      else if bool_decide (Auth.jti p = ""%string) then checkBinding p current
      else match isRevoked (Auth.jti p) with
           | Err _ => RevocationCheckFailed
           | Ok true => SessionRevoked
           | Ok false => checkBinding p current
           end
  end.
End Gate.

(** ** Correctness of the gate *)

Lemma validateJwtClaims_nil p : validateJwtClaims p = [] ↔ ∀ c, missing p c = false.
Proof.
  unfold validateJwtClaims. split.
  - intros H c. apply not_true_is_false. intros Hm.
    assert (c ∈ List.filter (missing p) REQUIRED_CLAIMS) as Hin; [|rewrite H in Hin; set_solver].
    apply list_elem_of_In, List.filter_In. split; [destruct c; cbn; tauto|done].
  - intros H. unfold REQUIRED_CLAIMS. cbn [List.filter]. by rewrite !H.
Qed.

(** A wallet is extracted from a token exactly when every required claim is
    present and non-empty and the wallet is not blank; it is the trimmed claim. *)
Theorem requireWalletAddress_spec p w : requireWalletAddress p = Ok w ↔
  ∃ q a, p = Some q ∧ (∀ c, missing q c = false) ∧ Auth.walletAddress q = Some a ∧ w = trim a ∧ w ≠ ""%string.
Proof.
  unfold requireWalletAddress, assertJwtClaims. split.
  - destruct p as [q|]; [|done]. destruct (validateJwtClaims q) eqn:Hv; [|done]. cbn.
    case_bool_decide as Hw; [done|]. intros [= <-]. pose proof (proj1 (validateJwtClaims_nil q) Hv) as Hm.
    pose proof (Hm CwalletAddress) as Ha. cbn in Ha.
    destruct (Auth.walletAddress q) as [a|] eqn:Hq; [|done]. exists q, a. by rewrite Hq.
  - intros (q & a & -> & Hm & Ha & -> & Hw). rewrite (proj2 (validateJwtClaims_nil q) Hm). cbn. rewrite Ha. cbn.
    by rewrite bool_decide_false.
Qed.

Section GateFacts.
Variable cfg : GateConfig.
Variable isRevoked : string → result exn bool.
Variable session : string → result exn (option AdminSessionRecord).

(** A token that was bound to a device, and the device. *)
Definition boundTo (p : JWTPayload) (device : string) : Prop := Auth.tier p = Some "admin"%string ∧ Auth.deviceHash p = Some device.

(** What the gate promises: who may pass. The wallet stands on the list as it is written;
    the token is not expired and, if it has an identifier, not revoked. Once binding is on,
    a bound token is used from its device and, if it names one, its network, and its
    identifier is still registered; a token that is not bound passes until binding is
    enforced, from any device. *)
Record admitted (p : JWTPayload) (now : Z) (current : DeviceContext.DeviceContext) : Prop := {
  adm_wallet : ∃ w entry, Auth.walletAddress p = Some w ∧ entry ∈ split "," (allowlist cfg) ∧ trim entry = trim w ∧ trim w ≠ ""%string;
  adm_fresh : ∀ x, Auth.exp p = Some x → now < x;
  adm_alive : Auth.jti p ≠ ""%string → isRevoked (Auth.jti p) = Ok false;
  adm_device : bindingEnabled cfg = true → ∀ device, boundTo p device → device = DeviceContext.deviceHash current;
  adm_network : bindingEnabled cfg = true → ∀ device network, boundTo p device →
    Auth.ipClass p = Some network → network ≠ ""%string → network = DeviceContext.classText (DeviceContext.ipClass current);
  adm_registered : bindingEnabled cfg = true → ∀ device, boundTo p device → Auth.jti p ≠ ""%string →
    ∃ s, session (Auth.jti p) = Ok (Some s);
  adm_unbound : bindingEnabled cfg = true → bindingEnforced cfg = true → ∃ device, boundTo p device;
}.

Lemma bound_spec p : bound p = true ↔ ∃ device, boundTo p device.
Proof.
  unfold bound, boundTo. rewrite andb_true_iff, bool_decide_eq_true. destruct (Auth.deviceHash p) as [h|]; [|naive_solver].
  split; [intros [? _]; by exists h|intros (? & ? & _); done].
Qed.

Lemma contextMatches_spec p current : contextMatches p current = true ↔
  Auth.deviceHash p = Some (DeviceContext.deviceHash current) ∧
  ∀ network, Auth.ipClass p = Some network → network ≠ ""%string → network = DeviceContext.classText (DeviceContext.ipClass current).
Proof.
  unfold contextMatches. rewrite andb_true_iff, bool_decide_eq_true. destruct (Auth.ipClass p) as [[|c n]|]; [naive_solver| |naive_solver].
  rewrite bool_decide_eq_true. split; intros [H1 H2]; (split; [done|]); [by intros ? [= <-]|by rewrite <-(H2 _ eq_refl)].
Qed.

Lemma checkBinding_granted p current : checkBinding cfg session p current = Granted ↔
  (bindingEnabled cfg = true → bound p = true → contextMatches p current = true ∧
    (Auth.jti p ≠ ""%string → ∃ s, session (Auth.jti p) = Ok (Some s))) ∧
  (bindingEnabled cfg = true → bound p = false → bindingEnforced cfg = false).
Proof.
  unfold checkBinding. destruct (bindingEnabled cfg); cbn [negb]; [|naive_solver].
  destruct (bound p); cbn [negb]; [|destruct (bindingEnforced cfg); naive_solver].
  destruct (contextMatches p current); cbn [negb]; [|naive_solver].
  destruct (bool_decide_reflect (Auth.jti p = ""%string)) as [He|He]; [naive_solver|].
  split.
  - destruct (session (Auth.jti p)) as [[s|]|e]; [|done|done]. intros _. split; [|done]. intros _ _. split; [done|]. eauto.
  - intros [H _]. destruct H as [_ H]; [done|done|]. destruct (H He) as [s ->]. done.
Qed.

(** The binding checks pass exactly for the last four conditions. *)
Lemma checkBinding_spec p current : checkBinding cfg session p current = Granted ↔
  (bindingEnabled cfg = true → ∀ device, boundTo p device → device = DeviceContext.deviceHash current) ∧
  (bindingEnabled cfg = true → ∀ device network, boundTo p device →
    Auth.ipClass p = Some network → network ≠ ""%string → network = DeviceContext.classText (DeviceContext.ipClass current)) ∧
  (bindingEnabled cfg = true → ∀ device, boundTo p device → Auth.jti p ≠ ""%string → ∃ s, session (Auth.jti p) = Ok (Some s)) ∧
  (bindingEnabled cfg = true → bindingEnforced cfg = true → ∃ device, boundTo p device).
Proof.
  rewrite checkBinding_granted, contextMatches_spec. pose proof (bound_spec p) as Hb.
  destruct (bindingEnabled cfg); [|naive_solver]. destruct (bound p).
  - destruct (proj1 Hb eq_refl) as (h & Ht & Hh). unfold boundTo. rewrite Hh. split.
    + intros [H _]. destruct (H eq_refl eq_refl) as [[Hd Hn] Hr]. injection Hd as ->. split_and!; [naive_solver|intros _ ? n _; apply Hn|intros _ ? _; apply Hr|eauto].
    + intros (Hd & Hn & Hr & _). split; [|done]. intros _ _. rewrite (Hd eq_refl h) by done. split; [split; [done|]|]; [intros n; by apply (Hn eq_refl h)|by apply (Hr eq_refl h)].
  - assert (∀ d, ¬ boundTo p d) as Hn by (intros d Hd; discriminate (proj2 Hb (ex_intro _ d Hd))).
    destruct (bindingEnforced cfg); split; [intros [_ H]; discriminate (H eq_refl eq_refl)|intros (_ & _ & _ & H); destruct (H eq_refl eq_refl) as [d Hd]; by destruct (Hn d)|..].
    + intros _. split_and!; [intros _ d Hd|intros _ d ? Hd|intros _ d Hd|done]; by destruct (Hn d).
    + intros _. split; [done|by intros _ _].
Qed.

Lemma mediator_spec p : let w := trim (default ""%string (Auth.walletAddress p)) in
  w ≠ ""%string ∧ isMediatorAddress (allowlist cfg) w = true ↔
  ∃ a entry, Auth.walletAddress p = Some a ∧ entry ∈ split "," (allowlist cfg) ∧ trim entry = trim a ∧ trim a ≠ ""%string.
Proof.
  cbv zeta. unfold isMediatorAddress, getMediatorAllowlist. rewrite bool_decide_eq_true, list_elem_of_In, filter_In, in_map_iff.
  setoid_rewrite <-list_elem_of_In. rewrite negb_true_iff, bool_decide_eq_false. destruct (Auth.walletAddress p) as [a|]; cbn [default from_option id]; [|naive_solver].
  split; [intros (H & (e & He & Hin) & _); by exists a, e|intros (? & e & [= <-] & ? & ? & ?); eauto].
Qed.

(** C22: The gate implements its contract: a request passes exactly when it carries a session that
    is [admitted]. In particular a failing revocation or registry query never lets it pass. *)
Theorem adminMiddleware_spec user now current :
  adminMiddleware cfg isRevoked session user now current = Granted ↔ ∃ p, user = Some p ∧ admitted p now current.
Proof.
  assert (∀ p, admitted p now current ↔ (trim (default ""%string (Auth.walletAddress p)) ≠ ""%string ∧ isMediatorAddress (allowlist cfg) (trim (default ""%string (Auth.walletAddress p))) = true) ∧
    (∀ x, Auth.exp p = Some x → now < x) ∧ (Auth.jti p ≠ ""%string → isRevoked (Auth.jti p) = Ok false) ∧ checkBinding cfg session p current = Granted) as Hadm.
  { intros p. rewrite mediator_spec, checkBinding_spec. split; [intros []; by split_and!|intros (? & ? & ? & ? & ? & ? & ?); by split]. }
  setoid_rewrite Hadm. clear Hadm. split.
  - destruct user as [p|]; [|done]. intros H. exists p. split; [done|]. revert H. unfold adminMiddleware. cbn zeta.
    destruct (bool_decide_reflect (trim (default ""%string (Auth.walletAddress p)) = ""%string)) as [|Hw]; [done|].
    destruct (isMediatorAddress _ _); [|done]. cbn [orb negb].
    destruct (match Auth.exp p with Some x => x <=? now | None => false end) eqn:Hx; [done|].
    assert (∀ x, Auth.exp p = Some x → now < x) as Hfresh by (intros x Hex; rewrite Hex in Hx; zb; lia).
    destruct (bool_decide_reflect (Auth.jti p = ""%string)) as [Hj|Hj]; [done|].
    by destruct (isRevoked (Auth.jti p)) as [[]|].
  - intros (p & -> & [Hw Hl] & Hx & Ha & Hc). unfold adminMiddleware. cbn zeta. rewrite (bool_decide_false _ Hw), Hl. cbn [orb negb].
    replace (match Auth.exp p with Some x => x <=? now | None => false end) with false;
      [|destruct (Auth.exp p) as [x|]; [specialize (Hx x eq_refl); symmetry; apply Z.leb_gt; lia|done]].
    destruct (bool_decide_reflect (Auth.jti p = ""%string)) as [Hj|Hj]; [done|]. by rewrite (Ha Hj).
Qed.

(** An unbound token's device and network are not looked at. *)
Lemma unbound_any_context p now current current' : bound p = false →
  adminMiddleware cfg isRevoked session (Some p) now current = adminMiddleware cfg isRevoked session (Some p) now current'.
Proof.
  intros Hb. unfold adminMiddleware, checkBinding. by rewrite Hb.
Qed.
End GateFacts.

(** *** Lower case *)

Definition lower (s : string) : Prop := toLowerCase s = s.

Lemma lower_cons c s : lower (String c s) ↔ lowerChar c = c ∧ lower s.
Proof. unfold lower. cbn. split; [by intros [= ? ?]|by intros [-> ->]]. Qed.

Lemma lower_trim s : lower s → lower (trim s).
Proof.
  intros Hs. unfold trim. assert (lower (trimStart s)) as H.
  { induction s as [|c s IH]; [done|]. cbn. pose proof (proj1 (lower_cons c s) Hs) as [_ Hs']. destruct (is_space c); [by apply IH|done]. }
  revert H. generalize (trimStart s). clear. induction s as [|c s IH]; [done|]. intros [Hc Hs]%lower_cons. cbn.
  specialize (IH Hs). destruct (trimEnd s) as [|d t] eqn:Ht; [destruct (is_space c); [done|by apply lower_cons]|].
  by apply lower_cons.
Qed.

(** No token the service issues carries an upper-case letter, and the allowlist
    is compared with case: with Stellar keys in their usual form on the list, the
    gate refuses every token the service issues, step-up tokens included. *)
Theorem issued_tokens_refused cfg isRevoked session env ttl w u h c v now t current :
  (∀ a, a ∈ getMediatorAllowlist (allowlist cfg) → ¬ lower a) →
  adminMiddleware cfg isRevoked session (Some (Auth.newPayload env w u v now)) t current = Forbidden ∧
  adminMiddleware cfg isRevoked session (Some (adminPayload env ttl w u h c v now)) t current = Forbidden.
Proof.
  intros Hl. assert (isMediatorAddress (allowlist cfg) (trim (toLowerCase w)) = false) as Hm.
  { apply bool_decide_eq_false. intros Hin. apply (Hl _ Hin), lower_trim. unfold lower. apply toLowerCase_idemp. }
  unfold adminMiddleware. cbn [Auth.walletAddress Auth.newPayload adminPayload]. change (default ?d (Some ?x)) with x.
  cbn zeta. rewrite Hm. cbn [negb]. by rewrite orb_true_r.
Qed.

(** Refreshing a device-bound administrator token yields one that is not bound:
    while binding is not enforced, the gate then accepts it from any device. *)
Theorem refresh_sheds_binding {R token : Type} `{!Kv string R, !KvLaws string R} `{!Jwt token, !Auth.JwtLaws token}
    env cfg isRevoked session p w i x u (r : R) now : Auth.hasSecret env = true →
  Auth.iss p = Auth.JWT_ISSUER env → Auth.aud p = Auth.JWT_AUDIENCE env → Auth.started p (now / 1000) = true →
  Auth.refreshClaims p = Some (w, i, x) → now / 1000 ≤ x + Auth.REFRESH_EXPIRY_GRACE_SECONDS →
  i ≤ now / 1000 + 60 → now / 1000 - i ≤ Auth.REFRESH_MAX_AGE_SECONDS → Auth.denied (Auth.jti p) now r = false →
  bound p = true →
  ∃ r' q, Auth.refreshToken env (jwtSign p (Auth.JWT_SECRET env)) u (calm r now) =
    (calm r' now, Ok (jwtSign q (Auth.JWT_SECRET env))) ∧ bound q = false ∧
    ∀ t current current', adminMiddleware cfg isRevoked session (Some q) t current =
      adminMiddleware cfg isRevoked session (Some q) t current'.
Proof.
  intros Hs Hi Ha Hst Hcl Hx Hi' Hage Hd _.
  destruct (Auth.refresh_signed (token := token) env p w i x u r now) as (r' & Hr & _); [done..|].
  eexists r', _. split; [exact Hr|]. split; [done|]. intros. by apply unbound_any_context.
Qed.

(** ** The registry *)

Section RegistryFacts.
Context {R I : Type} `{!Kv AdminSessionRecord R, !KvLaws AdminSessionRecord R} `{!Kv (list string) I}.

Lemma recordKey_inj a b : recordKey a = recordKey b → a = b.
Proof. unfold recordKey. intros H. by injection H. Qed.

Lemma onRecords_calm {A} (f : Z → R → A * R) (s : R * I) now :
  onRecords f (calm s now) = (calm ((f now s.1).2, s.2) now, Ok (f now s.1).1).
Proof. unfold onRecords. rewrite command_calm. by destruct (f now s.1). Qed.

Lemma onIndex_calm {A} (f : Z → I → A * I) (s : R * I) now :
  onIndex f (calm s now) = (calm (s.1, (f now s.2).2) now, Ok (f now s.2).1).
Proof. unfold onIndex. rewrite command_calm. by destruct (f now s.2). Qed.

(** Sequencing in a calm world. *)
Lemma bind_calm {A B} (m : io (world (R * I)) exn A) (f : A → io (world (R * I)) exn B) s s' now a :
  m (calm s now) = (calm s' now, Ok a) → (m ≫= f) (calm s now) = f a (calm s' now).
Proof. intros H. unfold mbind, io_bind. by rewrite H. Qed.

Definition alive (now : Z) (r : R) (j : string) : option AdminSessionRecord := kvGet (recordKey j) now r.

Lemma collect_calm js (s : R * I) now : collect js (calm s now) =
  (calm s now, Ok (omap (alive now s.1) js, List.filter (λ j, negb (bool_decide (is_Some (alive now s.1 j)))) js)).
Proof.
  induction js as [|j js IH]; [done|]. cbn [collect].
  rewrite (bind_calm _ _ s s now (alive now s.1 j)); [|unfold getSession, getRecord; rewrite onRecords_calm; by destruct s].
  rewrite (bind_calm _ _ s s now _ IH). unfold mret, io_ret. cbn [omap list_omap List.filter].
  destruct (alive now s.1 j) eqn:Ha; cbn; rewrite ?Ha; by decide_bools.
Qed.

Lemma srem_calm k ms (s : R * I) now : ∃ i', srem (R := R) k ms (calm s now) = (calm (s.1, i') now, Ok tt).
Proof. unfold srem. rewrite onIndex_calm. by eexists. Qed.

(** What is left of the records after some sessions are dropped. *)
Definition dropRecords (ss : list AdminSessionRecord) (r : R) : R :=
  foldl (λ r s, kvDel (V := AdminSessionRecord) (recordKey (s_jti s)) r) r ss.

Lemma dropAll_calm w ss (s : R * I) now : ∃ i', dropAll w ss (calm s now) = (calm (dropRecords ss s.1, i') now, Ok tt).
Proof.
  revert s. induction ss as [|x ss IH]; intros [r i]; [by exists i|]. cbn [dropAll dropRecords foldl].
  erewrite bind_calm; [|unfold delRecord; apply onRecords_calm]. cbn [fst snd].
  destruct (srem_calm (indexKey w) [s_jti x] (kvDel (V := AdminSessionRecord) (recordKey (s_jti x)) r, i) now) as [i' Hi].
  erewrite bind_calm; [|exact Hi]. apply (IH (_, i')).
Qed.

Lemma dropRecords_get ss (r : R) t j : kvGet (recordKey j) t (dropRecords ss r) =
  if bool_decide (j ∈ s_jti <$> ss) then None else kvGet (V := AdminSessionRecord) (recordKey j) t r.
Proof.
  unfold dropRecords. revert r. induction ss as [|s ss IH]; intros r; [done|]. cbn [foldl fmap list_fmap]. rewrite IH.
  destruct (decide (j = s_jti s)) as [->|Hne].
  - rewrite kvGet_del, (bool_decide_true (s_jti s ∈ _ :: _)) by set_solver. by destruct (bool_decide _).
  - rewrite kvGet_del_ne by (intros He%recordKey_inj; congruence).
    by rewrite (bool_decide_ext (j ∈ s_jti s :: (s_jti <$> ss)) (j ∈ s_jti <$> ss)) by set_solver.
Qed.

(** Revoking a device removes exactly the wallet's live sessions on that device,
    returns them latest first, and leaves every other session's record alone. *)
Theorem revokeDevice_spec w hash (r : R) (i : I) now :
  (∀ j s, alive now r j = Some s → s_jti s = j) →
  ∃ r' i' gone, revokeDevice w hash (calm (r, i) now) = (calm (r', i') now, Ok gone) ∧
    (∀ s, s ∈ gone ↔ ∃ j, j ∈ members (indexKey w) now i ∧ alive now r j = Some s ∧ s_deviceHash s = hash) ∧
    StronglySorted (cmp_le byIssueDesc) gone ∧
    ∀ t j, kvGet (recordKey j) t r' =
      if bool_decide (j ∈ s_jti <$> gone) then None else kvGet (V := AdminSessionRecord) (recordKey j) t r.
Proof.
  intros Hj. assert (∃ i1, listForWallet w (calm (r, i) now) =
    (calm (r, i1) now, Ok (js_sort byIssueDesc (omap (alive now r) (members (indexKey w) now i))))) as [i1 Hl].
  { unfold listForWallet. erewrite bind_calm; [|unfold smembers; apply onIndex_calm]. cbn [fst snd].
    destruct (members (indexKey w) now i) as [|j js]; [by exists i|].
    erewrite bind_calm; [|apply collect_calm]. cbn beta iota.
    destruct (List.filter _ _) as [|d ds].
    - exists i. by erewrite bind_calm.
    - destruct (srem_calm (indexKey w) (d :: ds) (r, i) now) as [i1 Hi]. exists i1. by erewrite bind_calm by exact Hi. }
  unfold revokeDevice. erewrite bind_calm by exact Hl. cbn zeta.
  set (gone := List.filter _ _). destruct (dropAll_calm w gone (r, i1) now) as [i2 Hd].
  erewrite bind_calm by exact Hd. exists (dropRecords gone r), i2, gone. split; [done|]. split; [|split].
  - intros s. unfold gone. rewrite list_elem_of_In, List.filter_In, <-list_elem_of_In, js_sort_perm, list_elem_of_omap, bool_decide_eq_true.
    naive_solver.
  - unfold gone. pose proof (comparator_flip _ (comparator_key Z.sub s_issuedAt comparator_sub)) as Hc.
    assert (StronglySorted (cmp_le byIssueDesc) (js_sort byIssueDesc (omap (alive now r) (members (indexKey w) now i)))) as Hs.
    { apply js_sort_sorted; [apply (comparator_total _ Hc)|apply Hc]. }
    revert Hs. generalize (js_sort byIssueDesc (omap (alive now r) (members (indexKey w) now i))). clear.
    induction 1 as [|x l Hs IH Hx]; cbn; [constructor|]. case_bool_decide; [|done]. constructor; [done|].
    apply Forall_forall. intros y Hy. rewrite list_elem_of_In, List.filter_In, <-list_elem_of_In in Hy.
    rewrite Forall_forall in Hx. apply Hx, Hy.
  - intros t j. apply dropRecords_get.
Qed.

Lemma revoke_calm j (r : R) (i : I) now : ∃ i',
  revoke j (calm (r, i) now) = (calm (kvDel (V := AdminSessionRecord) (recordKey j) r, i') now, Ok (alive now r j)).
Proof.
  unfold revoke. erewrite bind_calm; [|unfold getSession, getRecord; apply onRecords_calm]. cbn [fst snd].
  erewrite bind_calm; [|unfold delRecord; apply onRecords_calm]. cbn [fst snd].
  change (kvGet (recordKey j) now r) with (alive now r j). destruct (alive now r j) as [s|].
  - destruct (srem_calm (indexKey (s_wallet s)) [j] (kvDel (V := AdminSessionRecord) (recordKey j) r, i) now) as [i' Hi].
    exists i'. by erewrite bind_calm by exact Hi.
  - exists i. reflexivity.
Qed.

(** [touch] reads the record and writes it back, so a revocation that falls in
    between is undone: the session is registered again, and the gate admits it. *)
Theorem touch_revives_revoked j s ttl (r : R) (i : I) now : 0 < ttl → alive now r j = Some s →
  let revoked := revoke j (calm (r, i) now) in
  let hop f := {| delay := 0; fails := false; others := f |} in
  let overlap := mkWorld (r, i) now [hop (λ x, x); hop (λ x, x); hop (λ _, store revoked.1)] in
  revoked.2 = Ok (Some s) ∧ (getSession j revoked.1).2 = Ok None ∧
  let after := touch j ttl overlap in
  after.2 = Ok tt ∧ (getSession j after.1).2 = Ok (Some (seenAt (now / 1000) s)).
Proof.
  intros Httl Ha revoked hop overlap. destruct (revoke_calm j r i now) as [i' Hr]. unfold revoked. rewrite Hr, Ha. cbn [fst snd].
  split; [done|]. split; [unfold getSession, getRecord; rewrite onRecords_calm; cbn; by rewrite kvGet_del|].
  unfold touch, tryCatch, mbind, io_bind, onRecords, command, overlap, revoked, hop. rewrite Hr. cbn.
  rewrite Z.add_0_r. rewrite (proj2 (Z.leb_gt _ _)) by done. cbn.
  unfold getSession, getRecord, onRecords, command. cbn. rewrite Z.add_0_r.
  change (kvGet (recordKey j) now r) with (alive now r j). rewrite Ha. cbn. unfold setRecord, onRecords, command. cbn.
  rewrite !Z.add_0_r. split; [done|]. by rewrite kvGet_set by lia.
Qed.
End RegistryFacts.

(** ** Witnesses *)

Definition Records : Type := gmap string (entry AdminSessionRecord).
Definition Index : Type := gmap string (entry (list string)).

Definition sampleSession (j hash : string) (issued : Z) : AdminSessionRecord :=
  {| s_jti := j; s_wallet := "ga"; s_deviceHash := hash; s_ipClass := "v4/10.0.0.0/24"; s_userAgent := "ua";
     s_issuedAt := issued; s_expiresAt := issued + 900; s_lastSeenAt := issued |}.
Definition sampleRecords : Records :=
  {[ recordKey "j1" := {| e_value := sampleSession "j1" "h1" 100; e_expires := Some 1060000 |};
     recordKey "j2" := {| e_value := sampleSession "j2" "h2" 200; e_expires := Some 1160000 |} ]}.
Definition sampleIndex : Index :=
  {[ indexKey "GA" := {| e_value := ["j1"; "j2"; "j3"]%string; e_expires := None |} ]}.

Lemma sampleRecords_own j s : alive (R := Records) 300000 sampleRecords j = Some s → s_jti s = j.
Proof.
  unfold alive. cbn [kvGet gmapKv]. unfold sampleRecords.
  destruct (_ !! recordKey j) as [e|] eqn:He; [|done]. destruct (live 300000 e); [|done]. intros [= <-].
  apply lookup_insert_Some in He as [[Hk <-]|[_ He]]; [by apply recordKey_inj in Hk|].
  apply lookup_singleton_Some in He as [Hk <-]. by apply recordKey_inj in Hk.
Qed.

Lemma revokeDevice_spec_witness :
  ∃ r' i' gone, revokeDevice "Ga" "h2" (calm (sampleRecords, sampleIndex) 300000) = (calm (r', i') 300000, Ok gone) ∧
    (∀ s, s ∈ gone ↔ ∃ j, j ∈ members (indexKey "Ga") 300000 sampleIndex ∧
      alive 300000 sampleRecords j = Some s ∧ s_deviceHash s = "h2"%string) ∧
    StronglySorted (cmp_le byIssueDesc) gone ∧
    ∀ t j, kvGet (recordKey j) t r' =
      if bool_decide (j ∈ s_jti <$> gone) then None else kvGet (V := AdminSessionRecord) (recordKey j) t sampleRecords.
Proof. exact (revokeDevice_spec (R := Records) (I := Index) "Ga" "h2" sampleRecords sampleIndex 300000 sampleRecords_own). Defined.

Lemma touch_revives_revoked_witness :
  let revoked := revoke "j1" (calm (sampleRecords, sampleIndex) 300000) in
  let hop f := {| delay := 0; fails := false; others := f |} in
  let overlap := mkWorld (sampleRecords, sampleIndex) 300000 [hop (λ x, x); hop (λ x, x); hop (λ _, store revoked.1)] in
  revoked.2 = Ok (Some (sampleSession "j1" "h1" 100)) ∧ (getSession "j1" revoked.1).2 = Ok None ∧
  let after := touch "j1" 700 overlap in
  after.2 = Ok tt ∧ (getSession "j1" after.1).2 = Ok (Some (seenAt (300000 / 1000) (sampleSession "j1" "h1" 100))).
Proof.
  exact (touch_revives_revoked (R := Records) (I := Index) "j1" (sampleSession "j1" "h1" 100) 700 sampleRecords sampleIndex
    300000 eq_refl eq_refl).
Defined.

Definition upperCased : GateConfig := {| allowlist := "GABC, GDEF"; bindingEnabled := true; bindingEnforced := false |}.
Definition nowhere : DeviceContext.DeviceContext := {| DeviceContext.deviceHash := ""; DeviceContext.ipClass := DeviceContext.Unknown |}.

Lemma issued_tokens_refused_witness :
  adminMiddleware upperCased (λ _, Ok false) (λ _, Ok None) (Some (Auth.newPayload Auth.sampleEnv "GABC" "id" 0 10)) 20 nowhere = Forbidden ∧
  adminMiddleware upperCased (λ _, Ok false) (λ _, Ok None)
    (Some (adminPayload Auth.sampleEnv 900 "GABC" "id" "h" "c" 0 10)) 20 nowhere = Forbidden.
Proof.
  apply issued_tokens_refused. intros a Ha. change (a ∈ ["GABC"; "GDEF"]%string) in Ha. unfold lower.
  rewrite !elem_of_cons, elem_of_nil in Ha. destruct Ha as [->|[->|[]]]; discriminate.
Defined.

Definition boundPayload : JWTPayload := adminPayload Auth.sampleEnv 900 "ga" "id1" "h1" "v4/10.0.0.0/24" 0 1000.

Lemma refresh_sheds_binding_witness :
  ∃ r' q, Auth.refreshToken Auth.sampleEnv (jwtSign boundPayload "secret" : Auth.Token) "id2" (calm (∅ : Auth.Store) 1500000) =
    (calm r' 1500000, Ok (jwtSign q "secret")) ∧ bound q = false ∧
    ∀ t current current', adminMiddleware upperCased (λ _, Ok false) (λ _, Ok None) (Some q) t current =
      adminMiddleware upperCased (λ _, Ok false) (λ _, Ok None) (Some q) t current'.
Proof.
  apply (refresh_sheds_binding (R := Auth.Store) (token := Auth.Token) Auth.sampleEnv upperCased (λ _, Ok false) (λ _, Ok None)
    boundPayload "ga" 1000 1900 "id2" ∅ 1500000);
    first [done | vm_compute; reflexivity | vm_compute; discriminate].
Defined.
