(* ===== verification/Idempotency.v ===== *)
(** * Request idempotency: [middleware/idempotency.ts]

    A mutating request with an [Idempotency-Key] either takes a lock and runs
    its handler, replays the stored response of an earlier run, or waits for the
    run in flight. The lock and the responses live in Redis; the two scripts are
    atomic there. Many requests are in flight at once, so the middleware is a
    state machine over a store and a map of requests, driven by events that
    carry the time: an arrival, a poll of a waiting request, the handler calling
    [res.json], and the response's [finish] and [close]. Bodies and headers are
    arbitrary types; [hash] is [bodyHash] (SHA-256 of the JSON text). *)

From S2P Require Import Prelude JsString Effects.

Definition IDEMPOTENCY_TTL : Z := 60 * 60 * 24.
Definition IDEMPOTENCY_LOCK_TTL : Z := 30.
Definition IN_PROGRESS_POLL_MS : Z := 25.
Definition IDEMPOTENCY_IN_PROGRESS_MAX_WAIT_MS : Z := IDEMPOTENCY_LOCK_TTL * 1000.

Record Request (B : Type) : Type := { method : string; path : string; idempotencyKey : string; body : B }.
Arguments method {B}. Arguments path {B}. Arguments idempotencyKey {B}. Arguments body {B}.

(** A stored response. *)
Record ResponseData (B H : Type) : Type :=
  { status : Z; responseBody : B; headers : H; requestBodyHash : option string }.
Arguments status {B H}. Arguments responseBody {B H}. Arguments headers {B H}. Arguments requestBodyHash {B H}.

(** What a Redis key holds: the lock, or a stored response. The code keeps the response as JSON
    text and parses it when it is replayed; here it is the response itself, so bodies and
    headers are taken to be such as JSON reads back unchanged (no absent members, dates or
    numbers JSON cannot write). *)
Inductive slot (B H : Type) : Type := Lock | Stored (d : ResponseData B H).
Arguments Lock {B H}. Arguments Stored {B H}.

(** What the middleware sends without running the handler. *)
Inductive answer (B H : Type) : Type :=
| Replay (s : Z) (b : B) (h : H)      (* X-Idempotency-Cache: HIT *)
| KeyReused                           (* 409, same key and another body *)
| InProgress.                         (* 409, X-Idempotency-Cache: IN_PROGRESS *)
Arguments Replay {B H}. Arguments KeyReused {B H}. Arguments InProgress {B H}.

(** Where a request is. *)
Inductive phase (B H : Type) : Type :=
| Unprotected                                     (* next() without the lock *)
| Running (since : Z) (lockReleased responseCached : bool)
| Waiting (deadline : Z)
| Answered (a : answer B H).
Arguments Unprotected {B H}. Arguments Running {B H}. Arguments Waiting {B H}. Arguments Answered {B H}.

Section Middleware.
Context {B H R : Type} `{!Kv (slot B H) R}.
Context (hash : B → string).

Implicit Types (q : Request B) (r : R) (now : Z).

Definition cacheKey q : string := "idempotency:" +:+ method q +:+ ":" +:+ path q +:+ ":" +:+ idempotencyKey q.
Definition lockKey q : string := "idempotency:lock:" +:+ method q +:+ ":" +:+ path q +:+ ":" +:+ idempotencyKey q.

(** Only mutations with a key are protected. *)
Definition protected q : bool :=
  negb (bool_decide (idempotencyKey q = ""%string)) &&
  bool_decide (method q ∈ ["POST"; "PUT"; "PATCH"; "DELETE"]%string).

Inductive acquired : Type := Cached (d : ResponseData B H) | Acquired | Busy.

(** [IDEMPOTENCY_ACQUIRE_SCRIPT] *)
Definition acquireScript q now r : acquired * R :=
  match kvGet (cacheKey q) now r with
  | Some (Stored d) => (Cached d, r)
  | Some Lock => (Busy, r)    (* the cache key never holds a lock *)
  | None =>
      let '(ok, r') := kvSetNx (lockKey q) Lock IDEMPOTENCY_LOCK_TTL now r in
      (if ok then Acquired else Busy, r')
  end.

(** [IDEMPOTENCY_COMMIT_SCRIPT] *)
Definition commitScript q (d : ResponseData B H) now r : R :=
  kvDel (V := slot B H) (lockKey q) (kvSet (cacheKey q) (Stored d) IDEMPOTENCY_TTL now r).

Definition replay (d : ResponseData B H) : answer B H := Replay (status d) (responseBody d) (headers d).

(** The reply to a request that finds a stored response. *)
Definition cacheHit q (d : ResponseData B H) : answer B H :=
  match requestBodyHash d with
  | Some h => if bool_decide (h = hash (body q)) then replay d else KeyReused
  | None => replay d
  end.

(** The entry of the middleware; [down] is a Redis failure. *)
Definition idempotencyMiddleware q (down : bool) now r : phase B H * R :=
  if negb (protected q) || down then (Unprotected, r)
  else match acquireScript q now r with
       | (Cached d, r') => (Answered (cacheHit q d), r')
       | (Acquired, r') => (Running now false false, r')
       | (Busy, r') => (Waiting (now + IDEMPOTENCY_IN_PROGRESS_MAX_WAIT_MS), r')
       end.

(** One turn of [waitForCachedResponse]'s loop, after a sleep: give up past the
    deadline, replay what has been stored, or go on waiting. *)
Definition pollOnce q (deadline now : Z) r : phase B H :=
  match kvGet (cacheKey q) now r with
  | Some (Stored d) => Answered (replay d)
  | _ => if now <? deadline then Waiting deadline else Answered InProgress
  end.

(** [releaseLock] *)
Definition releaseLock q (p : phase B H) r : phase B H * R :=
  match p with
  | Running since false c => (Running since true c, kvDel (V := slot B H) (lockKey q) r)
  | _ => (p, r)
  end.

(** [cacheResponse]: the first body sent is stored when the status is 2xx;
    [commitFails] is a Redis failure of the commit, after which the lock is
    deleted. *)
Definition cacheResponse q (p : phase B H) (st : Z) (b : B) (h : H) (commitFails : bool) now r : phase B H * R :=
  match p with
  | Running since released false =>
      if (200 <=? st) && (st <? 300) then
        (Running since true true,
         if commitFails then kvDel (V := slot B H) (lockKey q) r
         else commitScript q {| status := st; responseBody := b; headers := h;
                                requestBodyHash := Some (hash (body q)) |} now r)
      else (Running since released true, r)
  | _ => (p, r)
  end.

(** ** Many requests *)

Inductive event : Type :=
| Arrive (i : nat) (q : Request B) (down : bool)
| Poll (i : nat)
| Respond (i : nat) (st : Z) (b : B) (h : H) (commitFails : bool)
| Finish (i : nat)
| Close (i : nat).

Record state : Type := mkState { redis : R; requests : gmap nat (Request B * phase B H) }.

(** Apply [f] to a request in flight. *)
Definition onRequest (i : nat) (f : Request B → phase B H → phase B H * R) (s : state) : state :=
  match requests s !! i with
  | Some (q, p) => let '(p', r') := f q p in mkState r' (<[i := (q, p')]> (requests s))
  | None => s
  end.

Definition step (e : event) now (s : state) : state :=
  match e with
  | Arrive i q down =>
      match requests s !! i with
      | Some _ => s
      | None => let '(p, r') := idempotencyMiddleware q down now (redis s) in
                mkState r' (<[i := (q, p)]> (requests s))
      end
  | Poll i => onRequest i (λ q p, match p with
                                  | Waiting d => (pollOnce q d now (redis s), redis s)
                                  | _ => (p, redis s) end) s
  | Respond i st b h cf => onRequest i (λ q p, cacheResponse q p st b h cf now (redis s)) s
  | Finish i | Close i => onRequest i (λ q p, releaseLock q p (redis s)) s
  end.

Definition run (s : state) (es : list (event * Z)) : state := foldl (λ s e, step e.1 e.2 s) s es.

(** A request whose handler runs and has not sent its response. *)
Definition executing (p : phase B H) : bool :=
  match p with Running _ _ false => true | _ => false end.
(** A request that believes it holds the lock. *)
Definition holding (p : phase B H) : bool :=
  match p with Running _ false _ => true | _ => false end.

(** ** Orderly runs

    What the lock's design relies on: Redis answers, a handler responds and
    finishes within the time to live of its lock, and a connection does not
    close before the response has been sent. *)
Definition sinceOf (p : phase B H) : option Z := match p with Running t _ _ => Some t | _ => None end.

Definition timely now (s : state) : Prop :=
  ∀ i q p t, requests s !! i = Some (q, p) → holding p = true → sinceOf p = Some t →
    now < t + IDEMPOTENCY_LOCK_TTL * 1000.

Definition orderlyEvent (e : event) (s : state) : Prop :=
  match e with
  | Arrive _ _ down => down = false
  | Respond _ _ _ _ cf => cf = false
  | Finish i | Close i => ∀ q p, requests s !! i = Some (q, p) → executing p = false
  | Poll _ => True
  end.

Fixpoint orderly (s : state) (now : Z) (es : list (event * Z)) : Prop :=
  match es with
  | [] => True
  | (e, t) :: es' => now ≤ t ∧ timely t s ∧ orderlyEvent e s ∧ orderly (step e t s) t es'
  end.

(** The successful responses sent by handlers for the key of [q0]. *)
Definition successOf (q0 : Request B) (e : event) (s : state) : list (ResponseData B H) :=
  match e with
  | Respond i st b h _ =>
      match requests s !! i with
      | Some (q, Running _ _ false) =>
          if bool_decide (cacheKey q = cacheKey q0) && ((200 <=? st) && (st <? 300))
          then [{| status := st; responseBody := b; headers := h; requestBodyHash := Some (hash (body q)) |}] else []
      | _ => []
      end
  | _ => []
  end.

Fixpoint successes (q0 : Request B) (s : state) (es : list (event * Z)) : list (ResponseData B H) :=
  match es with
  | [] => []
  | (e, t) :: es' => successOf q0 e s ++ successes q0 (step e t s) es'
  end.
End Middleware.

(** ** Keys *)

Section Facts.
Context {B H R : Type} `{!Kv (slot B H) R, !KvLaws (slot B H) R}.
Context (hash : B → string).

Implicit Types (q : Request B) (r : R) (now tm t : Z).
Notation St := (state (B := B) (H := H) (R := R)).
Notation Ev := (event (B := B) (H := H)).
Notation kget k tm r := (kvGet (V := slot B H) k tm r).

Lemma lockKey_iff q q' : lockKey q = lockKey q' ↔ cacheKey q = cacheKey q'.
Proof.
  unfold lockKey, cacheKey. split; intros He; apply (inj (String.append _)) in He; by rewrite He.
Qed.

Lemma cacheKey_lockKey q q' : protected q = true → cacheKey q ≠ lockKey q'.
Proof.
  unfold protected, cacheKey, lockKey. zb. intros [_ Hm] He.
  change "idempotency:lock:"%string with ("idempotency:" +:+ "lock:")%string in He.
  rewrite app_assoc_str in He. apply (inj (String.append _)) in He.
  repeat (apply elem_of_cons in Hm as [Hm|Hm]; [rewrite Hm in He; discriminate He|]). set_solver.
Qed.

(** ** The invariant of orderly runs *)

(** A holder is alone with its key, its lock is alive, and one that has not
    answered still holds. *)
Record wf now (s : St) : Prop := {
  wf_protected i q p : requests s !! i = Some (q, p) → is_Some (sinceOf p) → protected q = true;
  wf_alone i j q q' p p' : requests s !! i = Some (q, p) → requests s !! j = Some (q', p') →
    holding p = true → holding p' = true → cacheKey q = cacheKey q' → i = j;
  wf_lock i q p t tm : requests s !! i = Some (q, p) → holding p = true → sinceOf p = Some t →
    now ≤ tm < t + IDEMPOTENCY_LOCK_TTL * 1000 → is_Some (kget (lockKey q) tm (redis s));
  wf_executing i q p : requests s !! i = Some (q, p) → executing p = true → holding p = true;
}.

(** Nothing stored yet for the key of [q0]. *)
Definition fresh q0 now (s : St) : Prop :=
  (∀ tm, now ≤ tm → kget (cacheKey q0) tm (redis s) = None) ∧
  (∀ i q st b h, requests s !! i = Some (q, Answered (Replay st b h)) → cacheKey q ≠ cacheKey q0).

(** The response [d] is stored until [until], nobody runs the handler any more,
    and whoever was answered got it. *)
Definition settled q0 (d : ResponseData B H) until now (s : St) : Prop :=
  (∀ tm, now ≤ tm < until → kget (cacheKey q0) tm (redis s) = Some (Stored d)) ∧
  (∀ i q p, requests s !! i = Some (q, p) → cacheKey q = cacheKey q0 → executing p = false) ∧
  (∀ i q st b h, requests s !! i = Some (q, Answered (Replay st b h)) → cacheKey q = cacheKey q0 →
     Replay st b h = replay d).

Lemma wf_later now now' (s : St) : now ≤ now' → wf now s → wf now' s.
Proof. intros Hle [H1 H2 H3 H4]. split; [done..| |done]. intros. eapply H3; eauto; lia. Qed.
Lemma fresh_later q0 now now' (s : St) : now ≤ now' → fresh q0 now s → fresh q0 now' s.
Proof. intros Hle [H1 H2]. split; [|done]. intros. apply H1. lia. Qed.
Lemma settled_later q0 d u now now' (s : St) : now ≤ now' → settled q0 d u now s → settled q0 d u now' s.
Proof. intros Hle (H1 & H2 & H3). split; [|done]. intros. apply H1. lia. Qed.

Lemma wf_update now (s : St) i q p' r' : wf now s →
  (is_Some (sinceOf p') → protected q = true) →
  (executing p' = true → holding p' = true) →
  (holding p' = true → ∀ j q' p, j ≠ i → requests s !! j = Some (q', p) → holding p = true →
     cacheKey q ≠ cacheKey q') →
  (∀ t tm, holding p' = true → sinceOf p' = Some t → now ≤ tm < t + IDEMPOTENCY_LOCK_TTL * 1000 →
     is_Some (kget (lockKey q) tm r')) →
  (∀ j q' p tm, j ≠ i → requests s !! j = Some (q', p) → holding p = true →
     kget (lockKey q') tm r' = kget (lockKey q') tm (redis s)) →
  wf now (mkState r' (<[i := (q, p')]> (requests s))).
Proof.
  intros [W1 W2 W3 W4] Ha Hb Hc Hd He. split; cbn [requests redis].
  - intros j q' p [[<- [= <- <-]]|[Hj Hl]]%lookup_insert_Some Hs; [by apply Ha|by eapply W1].
  - intros j k q1 q2 p1 p2 [[<- [= <- <-]]|[Hj Hl]]%lookup_insert_Some
      [[<- [= <- <-]]|[Hk Hl']]%lookup_insert_Some H1 H2 Heq; [done|..].
    + exfalso. eapply (Hc H1 k); eauto.
    + exfalso. eapply (Hc H2 j); eauto.
    + by eapply (W2 j k).
  - intros j q' p t tm [[<- [= <- <-]]|[Hj Hl]]%lookup_insert_Some H1 H2 Ht; [by eapply Hd|].
    rewrite (He j q' p) by done. by eapply W3.
  - intros j q' p [[<- [= <- <-]]|[Hj Hl]]%lookup_insert_Some Hx; [by apply Hb|by eapply W4].
Qed.

(** An update that neither takes nor keeps a lock. *)
Lemma wf_update_idle now (s : St) i q p' : wf now s →
  sinceOf p' = None → wf now (mkState (redis s) (<[i := (q, p')]> (requests s))).
Proof.
  intros Hw Hp. destruct p'; cbn in Hp; try discriminate Hp; apply wf_update; cbn;
    first [done | by intros [? ?] | by intros].
Qed.

Lemma arrive_wf now (s : St) i q : wf now s → timely now s → requests s !! i = None →
  wf now (step hash (Arrive i q false) now s).
Proof.
  intros Hw Ht Hi. unfold step. rewrite Hi. unfold idempotencyMiddleware. rewrite orb_false_r.
  destruct (protected q) eqn:Hp; cbn [negb]; [|by apply wf_update_idle].
  unfold acquireScript. destruct (kget (cacheKey q) now (redis s)) as [[|d]|]; [by apply wf_update_idle..|].
  unfold kvSetNx. destruct (kget (lockKey q) now (redis s)) as [x|] eqn:Hl; [by apply wf_update_idle|].
  assert (Hother : ∀ j q' p, requests s !! j = Some (q', p) → holding p = true → cacheKey q ≠ cacheKey q').
  { intros j q' p Hj Hh He. apply lockKey_iff in He. destruct p as [|t rel c| |]; [done| |done..].
    pose proof (wf_lock now s Hw j q' _ t now Hj Hh eq_refl) as Hlk.
    rewrite <-He, Hl in Hlk. destruct Hlk as [? ?]; [|done]. split; [lia|]. by eapply Ht. }
  apply wf_update; [done|by intros|by intros|by intros; eapply Hother| |].
  - intros t tm _ [= <-] Hm. rewrite kvGet_set; [done|lia].
  - intros j q' p tm _ Hj Hh. apply kvGet_set_ne. intros He. apply lockKey_iff in He. by eapply Hother.
Qed.

(** Giving a lock back does not touch another holder's. *)
Lemma release_other now (s : St) i q p j q' p' tm : wf now s →
  requests s !! i = Some (q, p) → holding p = true → j ≠ i →
  requests s !! j = Some (q', p') → holding p' = true →
  kget (lockKey q') tm (kvDel (V := slot B H) (lockKey q) (redis s)) = kget (lockKey q') tm (redis s).
Proof.
  intros Hw Hi Hp Hne Hj Hp'. apply kvGet_del_ne. intros He. apply lockKey_iff in He.
  apply Hne. symmetry. by eapply (wf_alone now s Hw i j).
Qed.

Lemma respond_wf now (s : St) i st b h : wf now s → wf now (step hash (Respond i st b h false) now s).
Proof.
  intros Hw. unfold step, onRequest. destruct (requests s !! i) as [[q p]|] eqn:Hi; [|done].
  destruct p as [|t rel []| |]; cbn [cacheResponse];
    try (rewrite insert_id by done; by destruct s).
  assert (holding (Running (B := B) (H := H) t rel false) = true) as Hh by by eapply (wf_executing now s Hw).
  assert (Hpr : protected q = true) by (eapply (wf_protected now s Hw i); [done|eauto]).
  destruct ((200 <=? st) && (st <? 300)).
  - apply wf_update; [done|by intros|by intros|by intros|by intros|].
    intros j q' p tm Hne Hj Hp. unfold commitScript.
    rewrite <-(release_other now s i q _ j q' p tm Hw Hi Hh Hne Hj Hp).
    destruct (decide (lockKey q = lockKey q')) as [He|He]; [by rewrite !He, !kvGet_del|].
    rewrite !kvGet_del_ne by done. apply kvGet_set_ne. by apply cacheKey_lockKey.
  - destruct rel; [done|]. apply wf_update; [done|by intros|by intros| |intros; by eapply (wf_lock now s Hw)|done].
    intros _ j q' p Hne Hj Hp He. apply Hne. symmetry. by eapply (wf_alone now s Hw i j).
Qed.

Lemma finish_wf now (s : St) i e : e = Finish i ∨ e = Close i → orderlyEvent e s →
  wf now s → wf now (step hash e now s).
Proof.
  intros He Ho Hw.
  assert (wf now (onRequest i (λ q p, releaseLock q p (redis s)) s)) as Hgoal; [|by destruct He as [-> | ->]].
  unfold onRequest. destruct (requests s !! i) as [[q p]|] eqn:Hi; [|done].
  destruct p as [|t [] c| |]; cbn [releaseLock]; try (rewrite insert_id by done; by destruct s).
  assert (executing (Running (B := B) (H := H) t false c) = false) as Hx.
  { destruct He as [-> | ->]; by eapply Ho. }
  destruct c; [|done]. assert (Hpr : protected q = true) by (eapply (wf_protected now s Hw i); [done|eauto]).
  apply wf_update; [done|by intros|by intros|by intros|by intros|].
  intros j q' p tm Hne Hj Hp. by eapply release_other.
Qed.

Lemma step_wf e now (s : St) : timely now s → orderlyEvent e s → wf now s → wf now (step hash e now s).
Proof.
  intros Ht Ho Hw. destruct e as [i q down|i|i st b h cf|i|i].
  - cbn in Ho. subst. destruct (requests s !! i) eqn:Hi; [unfold step; by rewrite Hi|by apply arrive_wf].
  - unfold step, onRequest. destruct (requests s !! i) as [[q p]|] eqn:Hi; [|done].
    destruct p as [|t rel c|d|a]; try (rewrite insert_id by done; by destruct s).
    apply wf_update_idle; [done|]. unfold pollOnce. repeat case_match; done.
  - cbn in Ho. subst. by apply respond_wf.
  - eapply finish_wf; eauto.
  - eapply finish_wf; eauto.
Qed.

(** ** From nothing stored to one stored response *)

(** The request map after a step: at most one request changed. *)
Lemma fresh_update q0 now (s : St) i q p' r' : fresh q0 now s →
  (∀ tm, now ≤ tm → kget (cacheKey q0) tm r' = kget (cacheKey q0) tm (redis s)) →
  (∀ st b h, p' = Answered (Replay st b h) → cacheKey q ≠ cacheKey q0) →
  fresh q0 now (mkState r' (<[i := (q, p')]> (requests s))).
Proof.
  intros [F1 F2] Hr Hp. split; cbn [requests redis].
  - intros tm Ht. rewrite Hr by done. by apply F1.
  - intros j q' st b h [[<- [= <- ->]]|[Hj Hl]]%lookup_insert_Some; [by eapply Hp|by eapply F2].
Qed.

Lemma settled_update q0 d u now (s : St) i q p' r' : settled q0 d u now s →
  (∀ tm, now ≤ tm < u → kget (cacheKey q0) tm r' = kget (cacheKey q0) tm (redis s)) →
  (cacheKey q = cacheKey q0 → executing p' = false ∧
     ∀ st b h, p' = Answered (Replay st b h) → Replay st b h = replay d) →
  settled q0 d u now (mkState r' (<[i := (q, p')]> (requests s))).
Proof.
  intros (S1 & S2 & S3) Hr Hp. split; [|split]; cbn [requests redis].
  - intros tm Ht. rewrite Hr by done. by apply S1.
  - intros j q' p [[<- [= <- <-]]|[Hj Hl]]%lookup_insert_Some He; [by apply Hp|by eapply S2].
  - intros j q' st b h [[<- [= <- ->]]|[Hj Hl]]%lookup_insert_Some He; [by apply Hp|by eapply S3].
Qed.

(** Neither the lock script nor a release touches a cache key. *)
Lemma lock_keeps_cache q0 q now tm r : protected q0 = true →
  kget (cacheKey q0) tm (kvSet (lockKey q) Lock IDEMPOTENCY_LOCK_TTL now r) = kget (cacheKey q0) tm r ∧
  kget (cacheKey q0) tm (kvDel (V := slot B H) (lockKey q) r) = kget (cacheKey q0) tm r.
Proof.
  intros Hp. split; [apply kvGet_set_ne|apply kvGet_del_ne]; intros He; symmetry in He; by eapply cacheKey_lockKey.
Qed.

Lemma commit_keeps_cache q0 q d now tm r : protected q0 = true → cacheKey q ≠ cacheKey q0 →
  kget (cacheKey q0) tm (commitScript q d now r) = kget (cacheKey q0) tm r.
Proof.
  intros Hp Hne. unfold commitScript. rewrite (proj2 (lock_keeps_cache q0 q now tm _ Hp)).
  by apply kvGet_set_ne.
Qed.

Lemma release_fresh q0 i now (s : St) : protected q0 = true → fresh q0 now s →
  fresh q0 now (onRequest i (λ q p, releaseLock q p (redis s)) s).
Proof.
  intros Hp0 Hf. unfold onRequest. destruct (requests s !! i) as [[q p]|] eqn:Hi; [|done].
  destruct p as [|t [] c| |]; cbn [releaseLock]; try (rewrite insert_id by done; by destruct s).
  apply fresh_update; [done| |done]. intros tm Ht. by apply lock_keeps_cache.
Qed.

Lemma release_settled q0 d u i now (s : St) : protected q0 = true → settled q0 d u now s →
  settled q0 d u now (onRequest i (λ q p, releaseLock q p (redis s)) s).
Proof.
  intros Hp0 Hf. unfold onRequest. destruct (requests s !! i) as [[q p]|] eqn:Hi; [|done].
  destruct p as [|t [] c| |]; cbn [releaseLock]; try (rewrite insert_id by done; by destruct s).
  apply settled_update; [done| |].
  - intros tm Ht. by apply lock_keeps_cache.
  - intros He. destruct Hf as (_ & S2 & _). by pose proof (S2 _ _ _ Hi He).
Qed.

Lemma step_fresh q0 e now (s : St) : protected q0 = true → wf now s → orderlyEvent e s →
  fresh q0 now s →
  match successOf hash q0 e s with
  | [] => fresh q0 now (step hash e now s)
  | d :: ds => ds = [] ∧ settled q0 d (now + IDEMPOTENCY_TTL * 1000) now (step hash e now s)
  end.
Proof.
  intros Hp0 Hw Ho Hf. pose proof Hf as [F1 F2].
  destruct e as [i q down|i|i st b h cf|i|i]; cbn [successOf].
  - cbn in Ho. subst. unfold step. destruct (requests s !! i); [done|].
    unfold idempotencyMiddleware. rewrite orb_false_r. destruct (protected q); cbn [negb]; [|by apply fresh_update].
    unfold acquireScript. destruct (kget (cacheKey q) now (redis s)) as [[|d]|] eqn:Hc; [by apply fresh_update| |].
    + apply fresh_update; [done..|]. intros st b h _ He. rewrite He, F1 in Hc by lia. done.
    + unfold kvSetNx. destruct (kget (lockKey q) now (redis s)); apply fresh_update; try done.
      intros tm Ht. by apply lock_keeps_cache.
  - unfold step, onRequest. destruct (requests s !! i) as [[q p]|] eqn:Hi; [|done].
    destruct p as [|t rel c|d|a]; try (rewrite insert_id by done; by destruct s).
    apply fresh_update; [done..|]. intros st b h Ha He. unfold pollOnce in Ha. rewrite He, F1 in Ha by lia.
    revert Ha. by case_match.
  - cbn in Ho. subst. unfold step, onRequest. destruct (requests s !! i) as [[q p]|] eqn:Hi; [|done].
    destruct p as [|t rel [] | |]; cbn [cacheResponse]; try (rewrite insert_id by done; by destruct s).
    destruct ((200 <=? st) && (st <? 300)) eqn:Hst; rewrite ?andb_true_r, ?andb_false_r;
      [|by apply fresh_update].
    case_bool_decide as He; [|].
    + split; [done|]. split; [|split]; cbn [requests redis].
      * intros tm Ht. unfold commitScript. rewrite (proj2 (lock_keeps_cache q0 q now tm _ Hp0)).
        rewrite <-He. by apply kvGet_set.
      * intros j q' p [[<- [= <- <-]]|[Hj Hl]]%lookup_insert_Some Heq; [done|].
        destruct (executing p) eqn:Hx; [exfalso|done]. apply Hj.
        eapply (wf_alone now s Hw i j q q'); [done|done|by eapply (wf_executing now s Hw i)|by eapply (wf_executing now s Hw j)|congruence].
      * intros j q' st' b' h' [[<- [= <- Hbad]]|[Hj Hl]]%lookup_insert_Some Heq. exfalso. by eapply F2.
    + apply fresh_update; [done| |done]. intros tm Ht. by apply commit_keeps_cache.
  - by apply release_fresh.
  - by apply release_fresh.
Qed.

Lemma step_settled q0 d u e now (s : St) : protected q0 = true → orderlyEvent e s → now < u →
  settled q0 d u now s →
  successOf hash q0 e s = [] ∧ settled q0 d u now (step hash e now s).
Proof.
  intros Hp0 Ho Hu Hf. pose proof Hf as (S1 & S2 & S3).
  destruct e as [i q down|i|i st b h cf|i|i]; cbn [successOf].
  - split; [done|]. cbn in Ho. subst. unfold step. destruct (requests s !! i); [done|].
    unfold idempotencyMiddleware. rewrite orb_false_r. destruct (protected q); cbn [negb]; [|by apply settled_update].
    unfold acquireScript. destruct (kget (cacheKey q) now (redis s)) as [[|d']|] eqn:Hc; [by apply settled_update| |].
    + apply settled_update; [done..|]. intros He. split; [done|]. rewrite He, S1 in Hc by lia. injection Hc as <-.
      intros st b h [= Ha]. unfold cacheHit in Ha. repeat case_match; congruence.
    + unfold kvSetNx. destruct (kget (lockKey q) now (redis s)); apply settled_update; try done.
      * intros tm Ht. by apply lock_keeps_cache.
      * intros He. rewrite He, S1 in Hc by lia. done.
  - split; [done|]. unfold step, onRequest. destruct (requests s !! i) as [[q p]|] eqn:Hi; [|done].
    destruct p as [|t rel c|dl|a]; try (rewrite insert_id by done; by destruct s).
    apply settled_update; [done..|]. intros He. unfold pollOnce. rewrite He, S1 by lia. cbn. split; [done|].
    intros st b h [= <- <- <-]. done.
  - cbn in Ho. subst. unfold step, onRequest. destruct (requests s !! i) as [[q p]|] eqn:Hi; [|done].
    destruct p as [|t rel [] | |]; cbn [cacheResponse]; try (split; [done|]; rewrite insert_id by done; by destruct s).
    rewrite bool_decide_eq_false_2; [|intros He; by pose proof (S2 _ _ _ Hi He)].
    split; [done|]. destruct ((200 <=? st) && (st <? 300)); apply settled_update; try done.
    intros tm Ht. apply commit_keeps_cache; [done|]. intros He. by pose proof (S2 _ _ _ Hi He).
  - split; [done|]. by apply release_settled.
  - split; [done|]. by apply release_settled.
Qed.

Lemma run_settled q0 d u now (s : St) (es : list (Ev * Z)) : protected q0 = true →
  settled q0 d u now s → orderly hash s now es → Forall (λ e, e.2 < u) es →
  successes hash q0 s es = [] ∧ ∃ now', settled q0 d u now' (run hash s es).
Proof.
  intros Hp0. revert s now. induction es as [|[e t] es IH]; intros s now Hs Ho Hf; [by eauto|].
  destruct Ho as (Hle & Ht & Hoe & Ho). inversion Hf as [|?? Hu Hf']; subst.
  destruct (step_settled q0 d u e t s) as [Hn Hs']; [done|done|done|by eapply settled_later|].
  cbn [successes]. rewrite Hn. by apply (IH _ t).
Qed.

Lemma run_fresh q0 now (s : St) (es : list (Ev * Z)) u : protected q0 = true →
  wf now s → fresh q0 now s → orderly hash s now es → u ≤ now + IDEMPOTENCY_TTL * 1000 →
  Forall (λ e, e.2 < u) es →
  match successes hash q0 s es with
  | [] => ∃ now', fresh q0 now' (run hash s es)
  | d :: ds => ds = [] ∧ ∃ u' now', settled q0 d u' now' (run hash s es)
  end.
Proof.
  intros Hp0. revert s now. induction es as [|[e t] es IH]; intros s now Hw Hs Ho Hu Hf; [by exists now|].
  destruct Ho as (Hle & Ht & Hoe & Ho). inversion Hf as [|?? Hu' Hf']; subst.
  pose proof (wf_later now t s Hle Hw) as Hw'. pose proof (fresh_later q0 now t s Hle Hs) as Hs'.
  pose proof (step_fresh q0 e t s Hp0 Hw' Hoe Hs') as Hstep. cbn [successes run foldl fst snd].
  destruct (successOf hash q0 e s) as [|d ds] eqn:Hd.
  - cbn [app]. apply (IH _ t); try done; [by apply step_wf|lia].
  - destruct Hstep as [-> Hset]. cbn [app].
    destruct (run_settled q0 d (t + IDEMPOTENCY_TTL * 1000) t (step hash e t s) es) as [-> [now' Hfin]];
      [done..| |].
    + eapply Forall_impl; [exact Hf'|]. cbn. intros. lia.
    + split; [done|]. eauto.
Qed.

Lemma run_wf now (s : St) (es : list (Ev * Z)) : wf now s → orderly hash s now es → ∃ now', wf now' (run hash s es).
Proof.
  revert s now. induction es as [|[e t] es IH]; intros s now Hw Ho; [by eauto|].
  destruct Ho as (Hle & Ht & Hoe & Ho). apply (IH _ t); [|done]. apply step_wf; [done..|by eapply wf_later].
Qed.

Lemma wf_empty now r : wf now (mkState r ∅).
Proof. split; intros *; cbn; rewrite lookup_empty; done. Qed.

(** In an orderly run no two requests ever run the handler for the same
    method, path and key at the same time. *)
Theorem one_handler_per_key r now (es : list (Ev * Z)) i j q q' p p' :
  orderly hash (mkState r ∅) now es →
  requests (run hash (mkState r ∅) es) !! i = Some (q, p) →
  requests (run hash (mkState r ∅) es) !! j = Some (q', p') →
  executing p = true → executing p' = true → cacheKey q = cacheKey q' → i = j.
Proof.
  intros Ho Hi Hj Hp Hp' He. destruct (run_wf now _ es (wf_empty now r) Ho) as [now' Hw].
  apply (wf_alone now' _ Hw i j q q' p p'); [done|done| | |done]; by eapply (wf_executing now' _ Hw).
Qed.

(** C13: In an orderly run shorter than a day, a method, path and key have at
    most one successful handler run, and every replayed answer is exactly that
    run's response. *)
Theorem at_most_one_success r now (es : list (Ev * Z)) q0 : protected q0 = true →
  (∀ tm, now ≤ tm → kget (cacheKey q0) tm r = None) →
  orderly hash (mkState r ∅) now es → Forall (λ e, e.2 < now + IDEMPOTENCY_TTL * 1000) es →
  (length (successes hash q0 (mkState r ∅) es) ≤ 1)%nat ∧
  ∀ i q st b h, requests (run hash (mkState r ∅) es) !! i = Some (q, Answered (Replay st b h)) →
    cacheKey q = cacheKey q0 →
    ∃ d, successes hash q0 (mkState r ∅) es = [d] ∧ st = status d ∧ b = responseBody d ∧ h = headers d.
Proof.
  intros Hp0 Hn Ho Hf.
  assert (fresh q0 now (mkState r ∅)) as Hs by (split; [done|intros *; cbn; rewrite lookup_empty; done]).
  pose proof (run_fresh q0 now _ es _ Hp0 (wf_empty now r) Hs Ho (Z.le_refl _) Hf) as H'.
  destruct (successes hash q0 _ es) as [|d ds].
  - split; [cbn; lia|]. intros i q st b h Hi He. destruct H' as [? [_ F2]]. exfalso. by eapply F2.
  - destruct H' as (-> & u' & now' & _ & _ & S3). split; [cbn; lia|]. intros i q st b h Hi He.
    specialize (S3 i q st b h Hi He). injection S3 as -> -> ->. eauto.
Qed.

(** ** Replies *)

(** Reusing a key with another body is refused, with the same body
    replayed, in both cases without running the handler or touching Redis. *)
Theorem cached_key_answers q d now r : protected q = true → kget (cacheKey q) now r = Some (Stored d) →
  requestBodyHash d = Some (hash (body q)) ∧
    idempotencyMiddleware hash q false now r = (Answered (Replay (status d) (responseBody d) (headers d)), r) ∨
  requestBodyHash d ≠ Some (hash (body q)) ∧
    idempotencyMiddleware hash q false now r =
      (Answered (match requestBodyHash d with Some _ => KeyReused | None => replay d end), r).
Proof.
  intros Hp Hc. unfold idempotencyMiddleware, acquireScript, cacheHit. rewrite Hp, Hc. cbn [negb orb].
  destruct (requestBodyHash d) as [h|]; [|by right]. case_bool_decide; [left; by subst|right; naive_solver].
Qed.

(** A request that waited for one in flight is answered with its response
    even when its own body is different; the check made on a direct hit is missing. *)
Theorem waiting_ignores_body q d deadline now r h : kget (cacheKey q) now r = Some (Stored d) →
  requestBodyHash d = Some h → h ≠ hash (body q) → protected q = true →
  pollOnce q deadline now r = Answered (replay d) ∧
  (idempotencyMiddleware hash q false now r).1 = Answered KeyReused.
Proof.
  intros Hc Hh Hne Hp. split; [unfold pollOnce; by rewrite Hc|].
  unfold idempotencyMiddleware, acquireScript, cacheHit. rewrite Hp, Hc, Hh. cbn.
  by rewrite bool_decide_eq_false_2.
Qed.

(** Waiting ends: the first poll at or past the deadline answers. *)
Lemma waiting_ends q deadline now r : deadline ≤ now → ∃ a, pollOnce q deadline now r = Answered a.
Proof.
  intros Hd. unfold pollOnce. rewrite (proj2 (Z.ltb_ge _ _)) by done. repeat case_match; eauto.
Qed.

(** When the client disconnects before the handler has answered, the lock
    is given back although the handler is still running: a retry with the same
    key runs the handler a second time. *)
Theorem disconnect_runs_twice q now st b h r : protected q = true →
  (∀ tm, now ≤ tm → kget (cacheKey q) tm r = None) → kget (lockKey q) now r = None → 200 ≤ st < 300 →
  let es := [(Arrive 0 q false, now); (Close 0, now + 1); (Arrive 1 q false, now + 2);
             (Respond 0 st b h false, now + 3); (Respond 1 st b h false, now + 4)] in
  length (successes hash q (mkState r ∅) es) = 2%nat.
Proof.
  intros Hp Hc Hl Hst es. assert (Hck : ∀ q', cacheKey q ≠ lockKey q') by (intros; by apply cacheKey_lockKey).
  set (r1 := kvSet (lockKey q) Lock IDEMPOTENCY_LOCK_TTL now r : R).
  set (r2 := kvDel (V := slot B H) (lockKey q) r1).
  set (r3 := kvSet (lockKey q) Lock IDEMPOTENCY_LOCK_TTL (now + 2) r2 : R).
  set (m0 := {[0%nat := (q, Running now true false)]} : gmap nat (Request B * phase B H)).
  set (m1 := <[1%nat := (q, Running (now + 2) false false)]> m0).
  assert (E1 : step hash (Arrive 0 q false) now (mkState r ∅) = mkState r1 {[0%nat := (q, Running now false false)]}).
  { unfold step. cbn [requests redis]. rewrite lookup_empty. unfold idempotencyMiddleware, acquireScript, kvSetNx.
    rewrite Hp, Hc, Hl by lia. done. }
  assert (E2 : step hash (Close 0) (now + 1) (mkState r1 {[0%nat := (q, Running now false false)]}) = mkState r2 m0).
  { unfold step, onRequest. cbn [requests redis]. rewrite lookup_singleton_eq. cbn [releaseLock].
    by rewrite insert_singleton_eq. }
  assert (E3 : step hash (Arrive 1 q false) (now + 2) (mkState r2 m0) = mkState r3 m1).
  { unfold step. cbn [requests redis]. unfold m0. rewrite lookup_singleton_ne by done.
    unfold idempotencyMiddleware, acquireScript, kvSetNx. rewrite Hp. cbn [negb orb]. unfold r2, r1.
    rewrite kvGet_del_ne by (symmetry; apply Hck). rewrite kvGet_set_ne by (symmetry; apply Hck).
    rewrite Hc, kvGet_del by lia. done. }
  unfold es. cbn [successes]. rewrite E1, E2, E3. cbn [successOf requests step app onRequest].
  unfold onRequest. cbn [requests].
  assert (m1 !! 0%nat = Some (q, Running now true false)) as -> by (unfold m1; by rewrite lookup_insert_ne by done).
  cbn [cacheResponse]. rewrite (proj2 (Z.leb_le 200 st)), (proj2 (Z.ltb_lt st 300)) by lia. cbn [andb requests].
  rewrite lookup_insert_ne by done. unfold m1. rewrite lookup_insert_eq. by rewrite bool_decide_eq_true_2.
Qed.
End Facts.

(** ** Samples and witnesses *)

Definition RedisStore : Type := gmap string (entry (slot string string)).
Definition sampleReq : Request string := {| method := "POST"; path := "/trades"; idempotencyKey := "k1"; body := "a" |}.
Definition sampleRun : list (event (B := string) (H := string) * Z) :=
  [(Arrive 0 sampleReq false, 0); (Arrive 1 sampleReq false, 5); (Respond 0 201 "made" "json" false, 10);
   (Finish 0, 11); (Poll 1, 30); (Arrive 2 sampleReq false, 50)].

(** Deciding [timely] on a concrete state. *)
Definition timelyb {B H R} (now : Z) (s : state (B := B) (H := H) (R := R)) : bool :=
  forallb (λ x, match x.2.2 with Running t false _ => now <? t + IDEMPOTENCY_LOCK_TTL * 1000 | _ => true end)
    (map_to_list (requests s)).

Lemma timelyb_sound {B H R} now (s : state (B := B) (H := H) (R := R)) : timelyb now s = true → timely now s.
Proof.
  unfold timelyb, timely. intros Hb i q p t Hi Hh Ht. rewrite forallb_forall in Hb.
  specialize (Hb (i, (q, p))). rewrite <-list_elem_of_In, elem_of_map_to_list in Hb. specialize (Hb Hi).
  destruct p as [|? [] ?| |]; cbn in *; try discriminate. injection Ht as <-. by zb.
Qed.

Lemma sampleRun_orderly : orderly (R := RedisStore) id (mkState ∅ ∅) 0 sampleRun.
Proof.
  unfold sampleRun. cbn [orderly].
  repeat match goal with |- _ ∧ _ => split end; try done; try lia;
    try (apply timelyb_sound; vm_compute; reflexivity).
  cbn [orderlyEvent]; intros q p Hi; vm_compute in Hi; injection Hi as <- <-; done.
Qed.

Lemma one_handler_per_key_witness :
  requests (run (R := RedisStore) id (mkState ∅ ∅) (take 2 sampleRun)) !! 0%nat
    = Some (sampleReq, Running 0 false false) ∧
  (∀ p', requests (run (R := RedisStore) id (mkState ∅ ∅) (take 2 sampleRun)) !! 1%nat = Some (sampleReq, p') →
     executing p' = true → 0%nat = 1%nat).
Proof.
  assert (requests (run (R := RedisStore) id (mkState ∅ ∅) (take 2 sampleRun)) !! 0%nat
    = Some (sampleReq, Running 0 false false)) as H0 by (vm_compute; reflexivity).
  split; [exact H0|]. intros p' H1 Hx.
  refine (one_handler_per_key (R := RedisStore) id ∅ 0 (take 2 sampleRun) 0 1 sampleReq sampleReq _ p' _ H0 H1
            eq_refl Hx eq_refl).
  pose proof sampleRun_orderly as (? & ? & ? & ? & ? & ? & _). by repeat split.
Defined.

Lemma at_most_one_success_witness :
  (length (successes (R := RedisStore) id sampleReq (mkState ∅ ∅) sampleRun) ≤ 1)%nat ∧
  requests (run (R := RedisStore) id (mkState ∅ ∅) sampleRun) !! 2%nat
    = Some (sampleReq, Answered (Replay 201 "made"%string "json"%string)).
Proof.
  split; [|vm_compute; reflexivity].
  apply (at_most_one_success (R := RedisStore) id ∅ 0 sampleRun sampleReq); [reflexivity|done|apply sampleRun_orderly|].
  repeat constructor.
Defined.

Definition storedAnswer : ResponseData string string :=
  {| status := 201; responseBody := "made"; headers := "json"; requestBodyHash := Some "a"%string |}.
Definition answeredStore : RedisStore :=
  {[ cacheKey sampleReq := {| e_value := Stored storedAnswer; e_expires := None |} ]}.
Definition otherBody : Request string := {| method := "POST"; path := "/trades"; idempotencyKey := "k1"; body := "b" |}.

Lemma cached_key_answers_witness :
  requestBodyHash storedAnswer = Some (id (body sampleReq)) ∧
    idempotencyMiddleware id sampleReq false 0 answeredStore = (Answered (Replay 201 "made" "json"), answeredStore) ∨
  requestBodyHash storedAnswer ≠ Some (id (body sampleReq)) ∧
    idempotencyMiddleware id sampleReq false 0 answeredStore = (Answered KeyReused, answeredStore).
Proof.
  apply (cached_key_answers (R := RedisStore) id sampleReq storedAnswer 0 answeredStore); vm_compute; reflexivity.
Defined.

Lemma waiting_ignores_body_witness :
  pollOnce otherBody 100 0 answeredStore = Answered (replay storedAnswer) ∧
  (idempotencyMiddleware id otherBody false 0 answeredStore).1 = Answered KeyReused.
Proof.
  apply (waiting_ignores_body (R := RedisStore) id otherBody storedAnswer 100 0 answeredStore "a");
    first [vm_compute; reflexivity | vm_compute; discriminate].
Defined.

Lemma disconnect_runs_twice_witness :
  length (successes (R := RedisStore) id sampleReq (mkState ∅ ∅)
    [(Arrive 0 sampleReq false, 0); (Close 0, 0 + 1); (Arrive 1 sampleReq false, 0 + 2);
     (Respond 0 201 "made"%string "json"%string false, 0 + 3); (Respond 1 201 "made"%string "json"%string false, 0 + 4)])
  = 2%nat.
Proof.
  apply (disconnect_runs_twice (R := RedisStore) id sampleReq 0 201 "made" "json" ∅); done.
Defined.
