(* ===== verification/RateLimits.v ===== *)
(** * Quotas and rate-limit keys: [middleware/adminQuota.middleware.ts], [lib/rateLimit.ts]

    The administrators' fixed-window quota, kept in a process-wide map, and the
    functions that decide which counter a request is charged to. The counters of
    [lib/rateLimit.ts] themselves belong to the express-rate-limit package. *)

From S2P Require Import Prelude JsString.

(** ** Requests *)

(** The parts of a request the keys read; absent values are [None]. *)
Record Request : Type := {
  apiKey : option string;            (* x-api-key *)
  forwardedFor : option string;      (* x-forwarded-for *)
  ip : option string;                (* req.ip *)
  remoteAddress : option string;     (* req.socket.remoteAddress *)
  wallet : option string;            (* req.user.walletAddress *)
}.

Definition truthy (s : option string) : option string :=
  match s with Some ""%string | None => None | Some s => Some s end.

Definition orDefault (s : option string) (d : string) : string := default d (truthy s).

Definition resolveWalletAddress (req : Request) : option string := truthy (trim <$> wallet req).

Definition resolveClientIp (req : Request) : string :=
  match forwardedFor req with
  | Some f => if bool_decide (trim f ≠ ""%string) then trim (nth 0 (split "," f) ""%string)
              else orDefault (ip req) (orDefault (remoteAddress req) "unknown")
  | None => orDefault (ip req) (orDefault (remoteAddress req) "unknown")
  end.

(** The key generator of [createWalletRateLimiter]; [createIpRateLimiter]'s is [resolveClientIp]. *)
Definition walletKey (req : Request) : string :=
  match resolveWalletAddress req with Some w => ("wallet:" +:+ w)%string | None => resolveClientIp req end.

Definition resolveAdminIdentity (req : Request) : string :=
  match truthy (trim <$> apiKey req) with
  | Some k => ("apikey:" +:+ k)%string
  | None => match resolveWalletAddress req with Some w => ("wallet:" +:+ w)%string | None => "unknown" end
  end.

(** ** The quota *)

Record AdminQuotaPreset : Type := { windowMs : Z; max : Z }.
Record QuotaWindow : Type := { count : Z; resetAt : Z }.
Abbreviation QuotaStore := (gmap string QuotaWindow).

Inductive Verdict : Type := Next | TooMany (retryAfterSeconds : Z).
Definition granted (v : Verdict) : bool := match v with Next => true | TooMany _ => false end.

Section Quota.
Variable operation : string.
Variable preset : AdminQuotaPreset.

Definition quotaKey (req : Request) : string := (operation +:+ ":" +:+ resolveAdminIdentity req)%string.

Definition openWindow (now : Z) (w : option QuotaWindow) : QuotaWindow :=
  match w with
  | Some w => if resetAt w <=? now then {| count := 0; resetAt := now + windowMs preset |} else w
  | None => {| count := 0; resetAt := now + windowMs preset |}
  end.

(** The middleware. The window's object is shared with the map, so its new count is stored.
    [Math.ceil(x / 1000)] of an integer. *)
Definition quota (req : Request) (now : Z) (store : QuotaStore) : QuotaStore * Verdict :=
  let key := quotaKey req in
  let w0 := openWindow now (store !! key) in
  let w := {| count := count w0 + 1; resetAt := resetAt w0 |} in
  (<[key := w]> store,
   if max preset <? count w then TooMany (Z.max 0 (- ((now - resetAt w) / 1000))) else Next).

Fixpoint serveAll (reqs : list (Request * Z)) (store : QuotaStore) : QuotaStore * list Verdict :=
  match reqs with
  | [] => (store, [])
  | (req, now) :: reqs => let '(s, v) := quota req now store in let '(s', vs) := serveAll reqs s in (s', v :: vs)
  end.

(** ** How many requests get through *)

(** The times at which requests charged to [k] were let through, latest first. *)
Fixpoint grants (k : string) (reqs : list (Request * Z)) (store : QuotaStore) (acc : list Z) : list Z :=
  match reqs with
  | [] => acc
  | (req, now) :: reqs =>
      let '(s, v) := quota req now store in
      grants k reqs s (if granted v && bool_decide (quotaKey req = k) then now :: acc else acc)
  end.

(** How many of the times lie in [a, b). *)
Definition within (a b : Z) (ts : list Z) : Z := Z.of_nat (length (List.filter (λ t, (a <=? t) && (t <? b)) ts)).

Lemma within_cons a b t ts : within a b (t :: ts) = (if (a <=? t) && (t <? b) then 1 else 0) + within a b ts.
Proof. unfold within. cbn [List.filter]. destruct (_ && _); cbn [length]; lia. Qed.

Lemma within_split a b c ts : a ≤ b → b ≤ c → within a c ts = within a b ts + within b c ts.
Proof.
  intros Hab Hbc. induction ts as [|t ts IH]; [done|]. rewrite !within_cons, IH.
  destruct (Z.leb_spec a t), (Z.ltb_spec t c), (Z.ltb_spec t b), (Z.leb_spec b t); cbn [andb]; lia.
Qed.

Lemma within_mono a a' b b' ts : a' ≤ a → b ≤ b' → within a b ts ≤ within a' b' ts.
Proof.
  intros Ha Hb. induction ts as [|t ts IH]; [done|]. rewrite !within_cons.
  destruct (Z.leb_spec a t), (Z.ltb_spec t b), (Z.leb_spec a' t), (Z.ltb_spec t b'); cbn [andb]; lia.
Qed.

Lemma within_empty a b ts : b ≤ a → within a b ts = 0.
Proof.
  intros Hab. induction ts as [|t ts IH]; [done|]. rewrite within_cons, IH.
  destruct (Z.leb_spec a t), (Z.ltb_spec t b); cbn [andb]; lia.
Qed.

(** The key's current window started at [start]; the grants so far and their bounds. *)
Record quotaOk (now : Z) (w : option QuotaWindow) (ts : list Z) : Prop := {
  ok_past : Forall (λ t, t ≤ now) ts;
  ok_window : match w with
    | None => ts = []
    | Some w => let start := resetAt w - windowMs preset in
        start ≤ now ∧ 0 ≤ count w ∧ Forall (λ t, t < resetAt w) ts ∧
        within start (resetAt w) ts ≤ Z.min (count w) (max preset) ∧
        within (start - windowMs preset) start ts ≤ max preset
    end;
  ok_all a : within a (a + windowMs preset) ts ≤ 2 * max preset;
}.

Lemma quotaOk_later now now' w ts : now ≤ now' → quotaOk now w ts → quotaOk now' w ts.
Proof.
  intros Hn [Hp Hw Ha]. split; [eapply Forall_impl; [exact Hp|cbn; lia]| |done].
  destruct w as [w|]; [|done]. destruct Hw as (? & ?). split; [lia|done].
Qed.

Lemma within_cap a b r ts : Forall (λ t, t < r) ts → within a b ts ≤ within a r ts.
Proof.
  induction 1 as [|t ts Ht _ IH]; [done|]. rewrite !within_cons.
  destruct (Z.leb_spec a t), (Z.ltb_spec t b), (Z.ltb_spec t r); cbn [andb]; lia.
Qed.

Lemma open_ok now w ts : 0 < windowMs preset → 0 ≤ max preset → quotaOk now w ts →
  quotaOk now (Some (openWindow now w)) ts ∧ now < resetAt (openWindow now w).
Proof.
  intros HW Hm [Hp Hw Ha].
  assert (∀ ts, Forall (λ t, t < now) ts → within (now - windowMs preset) now ts ≤ max preset →
    (∀ a, within a (a + windowMs preset) ts ≤ 2 * max preset) →
    quotaOk now (Some {| count := 0; resetAt := now + windowMs preset |}) ts) as Hfresh.
  { intros ts' Hn Hb Ha'. split; [eapply Forall_impl; [exact Hn|cbn; lia]| |done]. cbn [count resetAt]. cbn zeta.
    replace (now + windowMs preset - windowMs preset) with now by lia.
    repeat split; [lia|lia|eapply Forall_impl; [exact Hn|cbn; lia]| |done].
    pose proof (within_cap now (now + windowMs preset) now ts' Hn) as Hcap. rewrite (within_empty now now) in Hcap by lia. lia. }
  unfold openWindow. destruct w as [w|]; cbn zeta in Hw.
  - destruct Hw as (Hs & Hc & Hr & Hcur & Hprev). destruct (Z.leb_spec (resetAt w) now) as [Hle|Hlt].
    + split; [|cbn; lia]. apply Hfresh; [eapply Forall_impl; [exact Hr|cbn; lia]| |done].
      pose proof (within_cap (now - windowMs preset) now (resetAt w) ts Hr).
      pose proof (within_mono (now - windowMs preset) (resetAt w - windowMs preset) (resetAt w) (resetAt w) ts). lia.
    + split; [|lia]. split; [done| |done]. done.
  - subst ts. split; [|cbn; lia]. apply Hfresh; [done|change (0 ≤ max preset); lia|intros a; change (0 ≤ 2 * max preset); lia].
Qed.

Lemma charge_ok now w ts : 0 < windowMs preset → 0 ≤ max preset → quotaOk now w ts →
  let w0 := openWindow now w in
  let w' := {| count := count w0 + 1; resetAt := resetAt w0 |} in
  quotaOk now (Some w') (if max preset <? count w' then ts else now :: ts).
Proof.
  intros HW Hm Hq w0 w'. destruct (open_ok now w ts HW Hm Hq) as [Hok Hlt]. fold w0 in Hok, Hlt.
  destruct Hok as [Hp (Hs & Hc & Hr & Hcur & Hprev) Ha]. subst w'. cbn [count resetAt].
  destruct (Z.ltb_spec (max preset) (count w0 + 1)) as [Hfull|Hfree]; split; cbn [count resetAt]; cbn zeta; try done.
  - repeat split; [lia|lia|done|lia|done].
  - by constructor.
  - rewrite !within_cons. repeat split; [lia|lia|by constructor| |];
      destruct (Z.leb_spec (resetAt w0 - windowMs preset) now), (Z.ltb_spec now (resetAt w0)),
        (Z.ltb_spec now (resetAt w0 - windowMs preset)); cbn [andb]; rewrite ?andb_false_r; lia.
  - intros a. rewrite within_cons. specialize (Ha a).
    destruct (Z.leb_spec a now), (Z.ltb_spec now (a + windowMs preset)); cbn [andb]; try lia.
    pose proof (within_cap a (a + windowMs preset) (resetAt w0) ts Hr).
    pose proof (within_mono a (resetAt w0 - windowMs preset - windowMs preset) (resetAt w0) (resetAt w0) ts).
    pose proof (within_split (resetAt w0 - windowMs preset - windowMs preset) (resetAt w0 - windowMs preset) (resetAt w0) ts). lia.
Qed.

(** The requests come in the order of the clock. *)
Fixpoint ordered (now : Z) (reqs : list (Request * Z)) : Prop :=
  match reqs with [] => True | (_, t) :: reqs => now ≤ t ∧ ordered t reqs end.

Lemma grants_ok k reqs : 0 < windowMs preset → 0 ≤ max preset → ∀ now store ts,
  ordered now reqs → quotaOk now (store !! k) ts → ∃ now' w, quotaOk now' w (grants k reqs store ts).
Proof.
  intros HW Hm. induction reqs as [|[req t] reqs IH]; intros now store ts; [cbn; eauto|]. intros [Ht Ho] Hq.
  cbn [grants]. unfold quota. cbn beta iota zeta. apply (quotaOk_later _ _ _ _ Ht) in Hq.
  destruct (decide (quotaKey req = k)) as [<-|Hne].
  - pose proof (charge_ok t _ _ HW Hm Hq) as Hc. cbn zeta in Hc. apply (IH t); [done|]. rewrite lookup_insert_eq.
    rewrite (bool_decide_true _ eq_refl). destruct (_ <? _); exact Hc.
  - apply (IH t); [done|]. rewrite lookup_insert_ne by done. rewrite (bool_decide_false _ Hne), andb_false_r. done.
Qed.

(** C23: the quota holds over any sliding window: in no period of the window's length
    are more than twice the allowance let through on one key. *)
Theorem quota_bounded k reqs a : 0 < windowMs preset → 0 ≤ max preset → ordered 0 reqs →
  within a (a + windowMs preset) (grants k reqs ∅ []) ≤ 2 * max preset.
Proof.
  intros HW Hm Ho. destruct (grants_ok k reqs HW Hm 0 ∅ [] Ho) as (now & w & Hq); [|apply Hq].
  split; [done|by rewrite lookup_empty|intros ?; change (0 ≤ 2 * max preset); lia].
Qed.

(** The quota is not per administrator: the key prefers a header the client
    writes, so one wallet that sends a new [x-api-key] each time is never refused. *)
Theorem quota_evaded w reqs store : 0 < windowMs preset → 1 ≤ max preset →
  NoDup ((λ r : Request * Z, truthy (trim <$> apiKey r.1)) <$> reqs) →
  Forall (λ r, wallet r.1 = Some w ∧ truthy (trim <$> apiKey r.1) ≠ None ∧ store !! quotaKey r.1 = None) reqs →
  Forall (λ v, v = Next) (serveAll reqs store).2.
Proof.
  intros HW Hm. revert store. induction reqs as [|[req now] reqs IH]; intros store Hn Hf; [done|].
  inversion Hn as [|?? Hnew Hn']; subst. inversion Hf as [|?? (Hw & Hk & Hs) Hf']; subst. cbn [fst] in *.
  cbn [serveAll]. unfold quota. cbn zeta. rewrite Hs. cbn [openWindow count resetAt].
  rewrite (proj2 (Z.ltb_ge _ _)) by lia.
  set (store' := <[_ := _]> store). specialize (IH store' Hn').
  destruct (serveAll reqs store') as [s vs]. cbn in *. constructor; [done|]. apply IH.
  apply Forall_forall. intros r Hr. rewrite Forall_forall in Hf'. destruct (Hf' r Hr) as (? & Hk' & Hs'). split; [done|]. split; [done|].
  subst store'. rewrite lookup_insert_ne; [done|]. unfold quotaKey. intros Heq. apply (inj (String.append _)) in Heq.
  apply (inj (String.append ":")) in Heq. revert Heq. unfold resolveAdminIdentity.
  destruct (truthy (trim <$> apiKey req)) as [k|] eqn:Hk1; [|done].
  destruct (truthy (trim <$> apiKey r.1)) as [k'|] eqn:Hk2; [|done].
  intros Heq. apply (inj (String.append "apikey:")) in Heq. subst k'. apply Hnew.
  apply list_elem_of_fmap. exists r. by rewrite Hk2.
Qed.
End Quota.

(** The client chooses its own rate-limit counter: any name without a comma or
    outer blanks is the key of some forwarding header. *)
Theorem client_chooses_ip_key k req : k ≠ ""%string → trim k = k → lacks "," k →
  resolveClientIp {| apiKey := apiKey req; forwardedFor := Some k; ip := ip req; remoteAddress := remoteAddress req;
                     wallet := wallet req |} = k.
Proof.
  intros Hne Ht Hl. unfold resolveClientIp. cbn. rewrite Ht, bool_decide_true by done.
  by rewrite split_none.
Qed.

(** ** Witnesses *)

Definition preset1 : AdminQuotaPreset := {| windowMs := 1000; max := 2 |}.
Definition by_ (key : option string) : Request :=
  {| apiKey := key; forwardedFor := None; ip := None; remoteAddress := None; wallet := Some "ga"%string |}.
Definition burst : list (Request * Z) := map (λ t, (by_ None, t)) [0; 900; 950; 1000; 1001; 1002; 2500].

Example burst_grants : grants "op" preset1 "op:wallet:ga" burst ∅ [] = [2500; 1001; 1000; 900; 0].
Proof. vm_compute. reflexivity. Qed.

Lemma quota_bounded_witness : within 900 (900 + 1000) (grants "op" preset1 "op:wallet:ga" burst ∅ []) ≤ 2 * 2.
Proof. apply (quota_bounded "op" preset1 "op:wallet:ga" burst 900); cbn; lia. Defined.

Definition evading : list (Request * Z) := map (λ k, (by_ (Some k), 0)) ["a"; "b"; "c"; "d"]%string.

Lemma quota_evaded_witness : Forall (λ v, v = Next) (serveAll "op" preset1 evading ∅).2.
Proof.
  apply (quota_evaded "op" preset1 "ga" evading ∅); [done|done| |].
  - vm_compute. repeat constructor; set_solver.
  - repeat constructor; discriminate.
Defined.

Lemma client_chooses_ip_key_witness :
  resolveClientIp {| apiKey := None; forwardedFor := Some "9.9.9.9"%string; ip := Some "1.2.3.4"%string;
                     remoteAddress := None; wallet := Some "ga"%string |} = "9.9.9.9"%string.
Proof.
  apply (client_chooses_ip_key "9.9.9.9"
    {| apiKey := None; forwardedFor := None; ip := Some "1.2.3.4"%string; remoteAddress := None; wallet := Some "ga"%string |});
    first [discriminate | reflexivity].
Defined.
