(* ===== verification/Alerts.v ===== *)
(** * Operator alerts: [services/alert.service.ts], [config/alertRegistry.ts]

    An alert is posted to a webhook unless one of the same type was delivered
    within that type's dedupe window. The service keeps the time of the last
    delivery per type; the webhook's answer and the clock are arguments. *)

From S2P Require Import Prelude JsString.

Inductive AlertType : Type :=
| db_connection_failure | redis_connection_failure | cache_unavailable
| reconciliation_drift_warning | reconciliation_drift_critical | reconciliation_job_failure
| stellar_fee_congestion | admin_soroban_tx_failure | job_missed_heartbeat | job_repeated_failures
| job_failure_rate_high | outbox_critical_gaps | outbox_scan_failed | synthetic_probe_failure | pii_log_leak_detected.

#[global] Instance AlertType_eq_dec : EqDecision AlertType.
Proof. solve_decision. Defined.

Inductive AlertRouting : Type := page | ticket.

(** [routing] and [dedupeWindowMs] of the registry's entries. *)
Definition routing (ty : AlertType) : AlertRouting :=
  match ty with
  | cache_unavailable | reconciliation_drift_warning | stellar_fee_congestion | job_missed_heartbeat
  | outbox_scan_failed | pii_log_leak_detected => ticket
  | _ => page
  end.

Definition dedupeWindowMs (ty : AlertType) : option Z :=
  match ty with
  | stellar_fee_congestion | synthetic_probe_failure => Some (15 * 60000)
  | pii_log_leak_detected => Some (24 * 60 * 60000)
  | _ => None
  end.

Record AlertPayload : Type := { type_ : AlertType; route : AlertRouting; timestamp : Z; message : string }.

(** What the webhook answers: a 2xx, another status, or no answer. *)
Inductive WebhookAnswer : Type := Accepted | Refused | Unreachable.

Record AlertConfig : Type := { alertWebhookUrl : option string; cooldownMs : Z }.

(** The service's map, and what was posted and accepted, latest first. *)
Record AlertState : Type := { lastSentAt : AlertType → option Z; delivered : list AlertPayload }.

Definition noAlerts : AlertState := {| lastSentAt := λ _, None; delivered := [] |}.

Section Dispatch.
Variable cfg : AlertConfig.

Definition isConfigured : bool := match alertWebhookUrl cfg with Some ""%string | None => false | Some _ => true end.

Definition window (ty : AlertType) : Z := match dedupeWindowMs ty with Some w => w | None => cooldownMs cfg end.

Definition suppressed (st : AlertState) (ty : AlertType) (now : Z) : bool :=
  match lastSentAt st ty with Some lastSent => now - lastSent <? window ty | None => false end.

Definition dispatch (answer : WebhookAnswer) (now : Z) (ty : AlertType) (msg : string) (st : AlertState) : AlertState :=
  if negb isConfigured then st
  else if suppressed st ty now then st
  else match answer with
       | Accepted =>
           {| lastSentAt := λ ty', if bool_decide (ty' = ty) then Some now else lastSentAt st ty';
              delivered := {| type_ := ty; route := routing ty; timestamp := now; message := msg |} :: delivered st |}
       | Refused | Unreachable => st
       end.

Definition resetCooldown (ty : option AlertType) (st : AlertState) : AlertState :=
  match ty with
  | Some ty => {| lastSentAt := λ ty', if bool_decide (ty' = ty) then None else lastSentAt st ty';
                  delivered := delivered st |}
  | None => {| lastSentAt := λ _, None; delivered := delivered st |}
  end.

(** A run of dispatches: the webhook's answer, the time, the type and the message of each. *)
Definition request : Type := WebhookAnswer * Z * AlertType * string.
Definition dispatchAll (rs : list request) (st : AlertState) : AlertState :=
  foldl (λ st '(a, now, ty, msg), dispatch a now ty msg st) st rs.

(** ** Correctness *)

(** Later deliveries of a type keep the type's distance from earlier ones. *)
Definition spaced (later earlier : AlertPayload) : Prop :=
  type_ later = type_ earlier → window (type_ later) ≤ timestamp later - timestamp earlier.

Record spacedOut (st : AlertState) : Prop := {
  spaced_log : StronglySorted spaced (delivered st);
  spaced_last p : p ∈ delivered st → ∃ t, lastSentAt st (type_ p) = Some t ∧ timestamp p ≤ t;
}.

Lemma window_nonneg ty : 0 ≤ cooldownMs cfg → 0 ≤ window ty.
Proof. destruct ty; cbn; lia. Qed.

Lemma dispatch_spaced a now ty msg st : 0 ≤ cooldownMs cfg → spacedOut st → spacedOut (dispatch a now ty msg st).
Proof.
  intros Hc Hs. unfold dispatch. destruct isConfigured; [|done]. cbn [negb].
  destruct (suppressed st ty now) eqn:Hsup; [done|]. destruct a; [|done..]. pose proof (window_nonneg ty Hc).
  assert (∀ p, p ∈ delivered st → type_ p = ty → window ty ≤ now - timestamp p) as Hfar.
  { intros p Hp <-. destruct (spaced_last _ Hs p Hp) as (t & Ht & ?). unfold suppressed in Hsup. rewrite Ht in Hsup. lia. }
  split; cbn.
  - constructor; [apply Hs|]. apply Forall_forall. intros p Hp He. cbn in *. auto.
  - intros p [->|Hp]%elem_of_cons; cbn.
    + rewrite bool_decide_true by done. by eexists.
    + case_bool_decide as He; [|by apply (spaced_last _ Hs)].
      pose proof (Hfar p Hp He). eexists. split; [done|]. lia.
Qed.

(** Over any run of dispatches, whatever the webhook answers and however the
    clock jumps, two delivered alerts of one type are at least its dedupe window
    apart. *)
Theorem alerts_spaced rs : 0 ≤ cooldownMs cfg → spacedOut (dispatchAll rs noAlerts).
Proof.
  intros Hc. assert (spacedOut noAlerts) as H0 by (split; [constructor|set_solver]).
  revert H0. generalize noAlerts. unfold dispatchAll. induction rs as [|[[[a now] ty] msg] rs IH]; intros st H; [done|].
  by apply IH, dispatch_spaced.
Qed.

Lemma dispatch_cases a now ty msg st : let st' := dispatch a now ty msg st in
  st' = st ∨ lastSentAt st' ty = Some now ∧
    delivered st' = {| type_ := ty; route := routing ty; timestamp := now; message := msg |} :: delivered st.
Proof.
  unfold dispatch. destruct isConfigured, (suppressed st ty now), a; auto. right. cbn. by rewrite bool_decide_true.
Qed.

(** A run of requests of one type within one window delivers at most one alert. *)
Lemma suppressed_run ty t rs st : lastSentAt st ty = Some t →
  Forall (λ r : request, let '(_, now, ty', _) := r in ty' = ty ∧ now < t + window ty) rs → dispatchAll rs st = st.
Proof.
  intros Ht. unfold dispatchAll. induction 1 as [|[[[a now] ty'] msg] rs [-> Hn] _ IH]; [done|]. cbn.
  assert (dispatch a now ty msg st = st) as ->; [|done]. unfold dispatch, suppressed. rewrite Ht.
  rewrite (proj2 (Z.ltb_lt _ _)) by lia. by destruct isConfigured.
Qed.

Lemma one_per_window ty a rs st :
  Forall (λ r : request, let '(_, now, ty', _) := r in ty' = ty ∧ a ≤ now < a + window ty') rs →
  delivered (dispatchAll rs st) = delivered st ∨ ∃ p, delivered (dispatchAll rs st) = p :: delivered st.
Proof.
  intros Hrs. revert st. induction Hrs as [|[[[ans now] ty'] msg] rs [-> Hn] Hrs IH]; intros st; [by left|].
  unfold dispatchAll. cbn [foldl]. destruct (dispatch_cases ans now ty msg st) as [->|[Ht Hl]]; [apply IH|]. right.
  change (∃ p, delivered (dispatchAll rs (dispatch ans now ty msg st)) = p :: delivered st).
  rewrite (suppressed_run ty now) by (done || (eapply Forall_impl; [exact Hrs|]; intros [[[? ?] ?] ?] [-> ?]; split; [done|lia])).
  eauto.
Qed.

(** A dispatch delivers exactly when a webhook is configured, it accepts, and
    the type's window has passed since the last delivery; a failed attempt leaves
    the state alone, so it is not held against the next. *)
Theorem dispatch_spec a now ty msg st :
  let st' := dispatch a now ty msg st in
  let due := isConfigured = true ∧ a = Accepted ∧ ∀ t, lastSentAt st ty = Some t → window ty ≤ now - t in
  (due → delivered st' = {| type_ := ty; route := routing ty; timestamp := now; message := msg |} :: delivered st ∧
         lastSentAt st' ty = Some now ∧ ∀ ty', ty' ≠ ty → lastSentAt st' ty' = lastSentAt st ty') ∧
  (¬ due → st' = st).
Proof.
  cbn zeta. unfold dispatch. assert (suppressed st ty now = false ↔ ∀ t, lastSentAt st ty = Some t → window ty ≤ now - t) as Hs.
  { unfold suppressed. destruct (lastSentAt st ty) as [t|]; [|naive_solver].
    rewrite Z.ltb_ge. split; [by intros ? ? [= <-]|auto]. }
  split.
  - intros (-> & -> & Hd). apply Hs in Hd as ->. cbn. repeat split; [by rewrite bool_decide_true|].
    intros ty' Hne. by rewrite bool_decide_false.
  - intros Hn. destruct isConfigured; [|done]. cbn. destruct (suppressed st ty now) eqn:Hsup; [done|].
    destruct a; [|done..]. destruct Hn. by rewrite <-Hs.
Qed.
End Dispatch.

(** The registry's windows do not do what their comments say: the hourly probe
    and the weekly log scan page again on every run of an unfixed fault. *)
Theorem slow_jobs_page_every_run url ty period msg a b c : isConfigured {| alertWebhookUrl := url; cooldownMs := c |} = true →
  (ty, period) ∈ [(synthetic_probe_failure, 3600000); (pii_log_leak_detected, 7 * 86400000)] → b = a + period →
  length (delivered (dispatchAll {| alertWebhookUrl := url; cooldownMs := c |}
    [(Accepted, a, ty, msg); (Accepted, b, ty, msg)] noAlerts)) = 2%nat.
Proof.
  intros Hc Hp ->. unfold dispatchAll. cbn [foldl]. unfold dispatch at 2. rewrite Hc. cbn [negb suppressed noAlerts lastSentAt].
  unfold dispatch. rewrite Hc. cbn [negb]. unfold suppressed. cbn [lastSentAt]. rewrite bool_decide_true by done.
  rewrite (proj2 (Z.ltb_ge _ _)); [done|].
  rewrite !elem_of_cons, elem_of_nil in Hp. destruct Hp as [[= -> ->]|[[= -> ->]|[]]]; cbn; lia.
Qed.

(** ** Witnesses *)

Definition sampleConfig : AlertConfig := {| alertWebhookUrl := Some "https://alerts"; cooldownMs := 300000 |}.
Definition sampleRequests : list request :=
  [(Accepted, 0, job_missed_heartbeat, "a"%string); (Accepted, 1000, job_missed_heartbeat, "b"%string);
   (Unreachable, 400000, job_missed_heartbeat, "c"%string); (Accepted, 401000, job_missed_heartbeat, "d"%string)].

Example sample_delivered : map message (delivered (dispatchAll sampleConfig sampleRequests noAlerts)) = ["d"; "a"]%string.
Proof. reflexivity. Qed.

Lemma alerts_spaced_witness : spacedOut sampleConfig (dispatchAll sampleConfig sampleRequests noAlerts).
Proof. apply (alerts_spaced sampleConfig sampleRequests). cbn. lia. Defined.

Lemma slow_jobs_page_every_run_witness :
  length (delivered (dispatchAll {| alertWebhookUrl := Some "https://alerts"%string; cooldownMs := 300000 |}
    [(Accepted, 0, synthetic_probe_failure, "probe"%string); (Accepted, 3600000, synthetic_probe_failure, "probe"%string)]
    noAlerts)) = 2%nat.
Proof.
  apply (slow_jobs_page_every_run (Some "https://alerts"%string) synthetic_probe_failure 3600000 "probe" 0 3600000 300000);
    [reflexivity|set_solver|reflexivity].
Defined.
