(* ===== verification/DbClient.v ===== *)
(** * The database client

    [lib/db.ts]: every write of the services passes a hook of the Prisma client
    that lower-cases the addresses of users, trades and dispute initiators given
    in [data], so that what is stored is the canonical form the foreign keys and
    the case-insensitive checks compare. An [upsert] has no [data] and is written
    as given. The hook that chains audit entries is in [AuditChain]. *)

From S2P Require Import Prelude JsString.

(** What is stored for an address given in [data]. *)
Definition storedAddress (address : string) : string := toLowerCase address.

Lemma storedAddress_idemp a : storedAddress (storedAddress a) = storedAddress a.
Proof. apply toLowerCase_idemp. Qed.

(** A stored address is found by a caller in any case. *)
Lemma storedAddress_matches a b : toLowerCase (storedAddress a) = toLowerCase b ↔ storedAddress a = storedAddress b.
Proof. unfold storedAddress. by rewrite toLowerCase_idemp. Qed.

#[export] Hint Rewrite storedAddress_idemp : ts.
