(* ===== verification/Prisma.v ===== *)
(** * The database interface

    The Prisma client is a third-party package, so a table is an interface: the
    operations the services call, with the documented behaviour they rely on as
    laws. Theorems about the services are proved for every table that satisfies
    the laws; [gmapTable] is one, so none of them is vacuous.

    - [findUnique] looks a row up by its unique key;
    - [create] fails on a taken key (P2002) and otherwise adds exactly one row;
    - [update] fails on a missing key (P2025) and otherwise rewrites that row
      and returns it;
    - [updateMany] rewrites every row its [where] clause selects and counts them;
    - [findMany] lists each selected row once;
    - [deleteMany] removes the selected rows and counts them. *)

From S2P Require Import Prelude.

Class Table (K V T : Type) : Type := {
  findUnique : K → T → option V;
  create : K → V → T → option T;
  update : K → (V → V) → T → option (V * T);
  updateMany : (V → bool) → (V → V) → T → Z * T;
  findMany : (V → bool) → T → list V;
  deleteMany : (V → bool) → T → Z * T;
}.

Class TableLaws (K V T : Type) `{!Table K V T} : Prop := {
  create_taken k v t : is_Some (findUnique k t) → create k v t = None;
  create_free k v t : findUnique k t = None →
    ∃ t', create k v t = Some t' ∧ findUnique k t' = Some v ∧
      ∀ k', k' ≠ k → findUnique k' t' = findUnique k' t;
  update_missing k f t : findUnique k t = None → update k f t = None;
  update_found k f t v : findUnique k t = Some v →
    ∃ t', update k f t = Some (f v, t') ∧ findUnique k t' = Some (f v) ∧
      ∀ k', k' ≠ k → findUnique k' t' = findUnique k' t;
  updateMany_rows k p f t :
    findUnique k (updateMany p f t).2 = (λ v, if p v then f v else v) <$> findUnique k t;
  updateMany_count p f t : 0 ≤ (updateMany p f t).1;
  updateMany_hit p f t : 0 < (updateMany p f t).1 ↔ ∃ k v, findUnique k t = Some v ∧ p v = true;
  findMany_elem p t v : v ∈ findMany p t ↔ ∃ k, findUnique k t = Some v ∧ p v = true;
  findMany_once p t : ∃ ks : list K, NoDup ks ∧ (λ k, findUnique k t) <$> ks = Some <$> findMany p t;
  deleteMany_rows k p t :
    findUnique k (deleteMany p t).2 = v ← findUnique k t; if p v then None else Some v;
  deleteMany_count p t : 0 ≤ (deleteMany p t).1;
  deleteMany_hit p t : 0 < (deleteMany p t).1 ↔ ∃ k v, findUnique k t = Some v ∧ p v = true;
}.

(** The rows of a table are filed under their own key. *)
Definition keyed {K V T} `{!Table K V T} (keyOf : V → K) (t : T) : Prop :=
  ∀ k v, findUnique k t = Some v → keyOf v = k.

(** [findFirst({ where })]: some selected row, if there is one. *)
Definition findFirst {K V T} `{!Table K V T} (p : V → bool) (t : T) : option V := head (findMany p t).

(** What the laws say of a failed or successful call. *)
Section Facts.
Context {K V T : Type} `{!Table K V T, !TableLaws K V T}.

Lemma create_inv (k : K) (v : V) (t t' : T) : create k v t = Some t' →
  findUnique k t = None ∧ findUnique k t' = Some v ∧ ∀ k', k' ≠ k → findUnique k' t' = findUnique k' t.
Proof.
  intros Hc. destruct (findUnique k t) as [w|] eqn:Hk.
  - rewrite create_taken in Hc; [done|by rewrite Hk].
  - destruct (create_free k v t Hk) as (t1 & Hc1 & ? & ?). rewrite Hc in Hc1. simplify_eq. done.
Qed.

Lemma create_None (k : K) (v : V) (t : T) : create k v t = None ↔ is_Some (findUnique k t).
Proof.
  split; [|apply create_taken]. intros Hc. destruct (findUnique k t) eqn:Hk; [done|].
  destruct (create_free k v t Hk) as (t1 & Hc1 & _). congruence.
Qed.

Lemma update_inv (k : K) (f : V → V) (t t' : T) (v' : V) : update k f t = Some (v', t') →
  ∃ v, findUnique k t = Some v ∧ v' = f v ∧ findUnique k t' = Some (f v) ∧
    ∀ k', k' ≠ k → findUnique k' t' = findUnique k' t.
Proof.
  intros Hu. destruct (findUnique k t) as [v|] eqn:Hk.
  - destruct (update_found k f t v Hk) as (t1 & Hu1 & ? & ?). rewrite Hu in Hu1. simplify_eq. eauto.
  - by rewrite update_missing in Hu.
Qed.

Lemma update_None (k : K) (f : V → V) (t : T) : update k f t = None ↔ findUnique k t = None.
Proof.
  split; [|apply update_missing]. intros Hu. destruct (findUnique k t) as [v|] eqn:Hk; [|done].
  destruct (update_found k f t v Hk) as (t1 & Hu1 & _). congruence.
Qed.

Lemma findFirst_Some (p : V → bool) (t : T) v : findFirst (K := K) p t = Some v →
  ∃ k : K, findUnique k t = Some v ∧ p v = true.
Proof.
  unfold findFirst. intros H. apply (findMany_elem (K := K)).
  destruct (findMany p t); [done|]. cbn in H. simplify_eq. set_solver.
Qed.

Lemma findFirst_None (p : V → bool) (t : T) : findFirst (K := K) p t = None ↔
  ∀ (k : K) v, findUnique k t = Some v → p v = false.
Proof.
  unfold findFirst. split.
  - intros H k v Hk. apply not_true_is_false. intros Hp.
    assert (v ∈ findMany (K := K) p t) as Hin by (apply findMany_elem; eauto).
    destruct (findMany p t); [set_solver|done].
  - intros H. destruct (findMany p t) as [|v l] eqn:Hl; [done|exfalso].
    assert (v ∈ findMany (K := K) p t) as Hin by (rewrite Hl; set_solver).
    apply findMany_elem in Hin as (k & Hk & Hp). by rewrite (H _ _ Hk) in Hp.
Qed.

(** In a keyed table every selected row is listed exactly once. *)
Lemma findMany_NoDup (keyOf : V → K) (p : V → bool) (t : T) : keyed keyOf t → NoDup (keyOf <$> findMany (K := K) p t).
Proof.
  intros Hk. destruct (findMany_once p t) as (ks & Hn & He).
  assert (keyOf <$> findMany (K := K) p t = ks) as ->; [|done].
  revert He. generalize (findMany (K := K) p t). clear Hn. induction ks as [|k ks IH]; intros [|v l] He; try done.
  cbn in *. injection He as Hv He. by rewrite (IH l He), (Hk k v Hv).
Qed.

(** Splitting a selection by a further condition. *)
Lemma findMany_perm (keyOf : V → K) (p q : V → bool) (t : T) : keyed keyOf t →
  List.filter q (findMany (K := K) p t) ≡ₚ findMany (K := K) (λ v, p v && q v) t.
Proof.
  intros Hk. apply NoDup_Permutation.
  - apply NoDup_ListNoDup, List.NoDup_filter, NoDup_ListNoDup.
    by eapply NoDup_fmap_1, (findMany_NoDup keyOf).
  - by eapply NoDup_fmap_1, (findMany_NoDup keyOf).
  - intros v. rewrite list_elem_of_In, List.filter_In, <-list_elem_of_In, !findMany_elem.
    setoid_rewrite andb_true_iff. naive_solver.
Qed.

(** Inserting a row adds exactly it to every listing of the table. *)
Lemma create_keyed `{EqDecision K} (keyOf : V → K) (k : K) (v : V) (t t' : T) : keyed keyOf t → keyOf v = k →
  create k v t = Some t' → keyed keyOf t'.
Proof.
  intros Hk Hv (Hn & Hs & Ho)%create_inv k' w Hw. destruct (decide (k' = k)) as [->|Hne]; [congruence|].
  apply Hk. by rewrite <-Ho.
Qed.

Lemma create_perm `{EqDecision K} (keyOf : V → K) (k : K) (v : V) (t t' : T) : keyed keyOf t → keyOf v = k →
  create k v t = Some t' → findMany (λ _, true) t' ≡ₚ v :: findMany (λ _, true) t.
Proof.
  intros Hk Hv Hc. pose proof (create_keyed keyOf k v t t' Hk Hv Hc) as Hk'. pose proof Hc as (Hn & Hs & Ho)%create_inv.
  apply NoDup_Permutation.
  - by eapply NoDup_fmap_1, (findMany_NoDup keyOf).
  - constructor; [|by eapply NoDup_fmap_1, (findMany_NoDup keyOf)].
    rewrite (findMany_elem (K := K)). intros (k' & Hf & _). pose proof (Hk _ _ Hf). congruence.
  - intros w. rewrite elem_of_cons, !(findMany_elem (K := K)). split.
    + intros (k' & Hf & _). destruct (decide (k' = k)) as [->|Hne]; [left; congruence|right].
      exists k'. by rewrite <-Ho.
    + intros [->|(k' & Hf & _)]; [by exists k|]. exists k'. rewrite Ho; [done|]. intros ->. congruence.
Qed.
End Facts.

(** ** An implementation *)

Section GmapTable.
Context {K V : Type} `{Countable K}.

#[global] Instance gmapTable : Table K V (gmap K V) := {|
  findUnique k t := t !! k;
  create k v t := match t !! k with Some _ => None | None => Some (<[k:=v]> t) end;
  update k f t := match t !! k with Some v => Some (f v, <[k:=f v]> t) | None => None end;
  updateMany p f t :=
    (Z.of_nat (length (List.filter p (map_to_list t).*2)), (λ v, if p v then f v else v) <$> t);
  findMany p t := List.filter p (map_to_list t).*2;
  deleteMany p t :=
    (Z.of_nat (length (List.filter p (map_to_list t).*2)), omap (λ v, if p v then None else Some v) t);
|}.

Lemma gmap_filter_elem (p : V → bool) (t : gmap K V) v :
  v ∈ List.filter p (map_to_list t).*2 ↔ ∃ k, t !! k = Some v ∧ p v = true.
Proof.
  rewrite list_elem_of_In, List.filter_In, <-list_elem_of_In, list_elem_of_fmap. split.
  - intros [([k w] & -> & Hk%elem_of_map_to_list) Hp]. eauto.
  - intros (k & Hk & Hp). split; [|done]. exists (k, v). by rewrite elem_of_map_to_list.
Qed.

Lemma gmap_filter_hit (p : V → bool) (t : gmap K V) :
  0 < Z.of_nat (length (List.filter p (map_to_list t).*2)) ↔ ∃ k v, t !! k = Some v ∧ p v = true.
Proof.
  transitivity (∃ v, v ∈ List.filter p (map_to_list t).*2).
  - destruct (List.filter p _) as [|v l]; cbn; [split; [lia|set_solver]|].
    split; [|lia]. intros _. exists v. set_solver.
  - setoid_rewrite gmap_filter_elem. naive_solver.
Qed.

#[global] Instance gmapTable_laws : TableLaws K V (gmap K V).
Proof.
  split; cbn.
  - intros k v t [w ->]. done.
  - intros k v t ->. eexists. split; [done|]. split; [apply lookup_insert_eq|].
    intros k' Hk. by apply lookup_insert_ne.
  - by intros k f t ->.
  - intros k f t v ->. eexists. split; [done|]. split; [apply lookup_insert_eq|].
    intros k' Hk. by apply lookup_insert_ne.
  - intros k p f t. by rewrite lookup_fmap.
  - lia.
  - intros p f t. apply gmap_filter_hit.
  - intros p t v. apply gmap_filter_elem.
  - intros p t. exists (List.filter (λ kv, p kv.2) (map_to_list t)).*1.
    pose proof (NoDup_fst_map_to_list t) as Hn.
    assert (∀ kv, kv ∈ map_to_list t → t !! kv.1 = Some kv.2) as Hl by (intros [k v]; apply elem_of_map_to_list).
    induction (map_to_list t) as [|[k v] l IH]; cbn; [by split|]. inversion Hn as [|?? Hk Hn']; subst.
    destruct IH as [IH1 IH2]; [done|intros kv Hkv; apply Hl; set_solver|].
    destruct (p v); cbn; [|done]. split.
    + constructor; [|done]. intros ([k' v'] & Heq & Hin)%list_elem_of_fmap. cbn in Heq. subst. apply Hk.
      apply list_elem_of_fmap. exists (k', v'). split; [done|].
      apply list_elem_of_In, List.filter_In in Hin as [Hin _]. by apply list_elem_of_In.
    + rewrite IH2. f_equal. by apply (Hl (k, v)); set_solver.
  - intros k p t. apply lookup_omap.
  - lia.
  - intros p t. apply gmap_filter_hit.
Qed.
End GmapTable.
