(* ===== verification/Dates.v ===== *)
(** * Dates

    What the source uses of JavaScript's [Date]: a time is a number of
    milliseconds since the epoch, [toISOString] prints it, and [new Date(s)]
    reads that format back. Other formats [Date.parse] may accept are
    implementation-defined and are arguments where the source admits them. *)

From S2P Require Import Prelude JsString.

Definition MS_PER_DAY : Z := 24 * 60 * 60 * 1000.

(** The range of a [Date]; outside it [toISOString] throws a [RangeError]. *)
Definition validTime (t : Z) : bool := Z.abs t <=? 8640000000000000.

(** ** The proleptic Gregorian calendar

    Years are counted from March, in eras of 400 years (146097 days). *)

Definition eraDays : Z := 146097.

(** Year of era, month from March and day of month of a day of an era. *)
Definition civilOfEra (doe : Z) : Z * Z * Z :=
  let yoe := (doe - doe / 1460 + doe / 36524 - doe / 146096) / 365 in
  let doy := doe - (365 * yoe + yoe / 4 - yoe / 100) in
  let mp := (5 * doy + 2) / 153 in
  (yoe, mp, doy - (153 * mp + 2) / 5 + 1).

Definition dayOfEra (yoe mp d : Z) : Z :=
  yoe * 365 + yoe / 4 - yoe / 100 + ((153 * mp + 2) / 5 + d - 1).

Definition civilFromDays (days : Z) : Z * Z * Z :=
  let z := days + 719468 in
  let '(yoe, mp, d) := civilOfEra (z mod eraDays) in
  let m := if mp <? 10 then mp + 3 else mp - 9 in
  (yoe + z / eraDays * 400 + (if m <=? 2 then 1 else 0), m, d).

Definition daysFromCivil (y m d : Z) : Z :=
  let y' := if m <=? 2 then y - 1 else y in
  y' / 400 * eraDays + dayOfEra (y' mod 400) (if 2 <? m then m - 3 else m + 9) d - 719468.

(** ** Printing and reading *)

Definition pad (n : nat) (v : Z) : string := padStart (natToString v) n "0".

Definition yearText (y : Z) : string :=
  if (0 <=? y) && (y <=? 9999) then pad 4 y
  else if y <? 0 then String "-" (pad 6 (- y)) else String "+" (pad 6 y).

Definition toISOString (t : Z) : string :=
  let '(y, m, d) := civilFromDays (t / MS_PER_DAY) in
  let ms := t mod MS_PER_DAY in
  (yearText y +:+ "-" +:+ pad 2 m +:+ "-" +:+ pad 2 d +:+ "T" +:+ pad 2 (ms / 3600000) +:+ ":" +:+
   pad 2 (ms / 60000 mod 60) +:+ ":" +:+ pad 2 (ms / 1000 mod 60) +:+ "." +:+ pad 3 (ms mod 1000) +:+ "Z")%string.

(** [n] digits. *)
Fixpoint readDigits (n : nat) (acc : Z) (s : string) : option (Z * string) :=
  match n, s with
  | O, _ => Some (acc, s)
  | S n', String c r => if is_digit c then readDigits n' (10 * acc + char_digit c) r else None
  | S _, EmptyString => None
  end.

Definition readChar (c : ascii) (s : string) : option string :=
  match s with String d r => if Ascii.eqb c d then Some r else None | EmptyString => None end.

Definition readYear (s : string) : option (Z * string) :=
  match s with
  | String "+" r => readDigits 6 0 r
  | String "-" r => '(y, rest) ← readDigits 6 0 r; Some (- y, rest)
  | _ => readDigits 4 0 s
  end.

(** [new Date(s).getTime()] of the format [toISOString] prints. *)
Definition fromISOString (s : string) : option Z :=
  '(y, s) ← readYear s; s ← readChar "-" s; '(m, s) ← readDigits 2 0 s; s ← readChar "-" s; '(d, s) ← readDigits 2 0 s;
  s ← readChar "T" s; '(h, s) ← readDigits 2 0 s; s ← readChar ":" s; '(mi, s) ← readDigits 2 0 s;
  s ← readChar ":" s; '(se, s) ← readDigits 2 0 s; s ← readChar "." s; '(ms, s) ← readDigits 3 0 s; s ← readChar "Z" s;
  if bool_decide (s = EmptyString)
  then Some (daysFromCivil y m d * MS_PER_DAY + h * 3600000 + mi * 60000 + se * 1000 + ms) else None.

Example toISOString_epoch : toISOString 0 = "1970-01-01T00:00:00.000Z"%string.
Proof. vm_compute. reflexivity. Qed.
Example toISOString_leap : toISOString 1709210096789 = "2024-02-29T12:34:56.789Z"%string.
Proof. vm_compute. reflexivity. Qed.
Example toISOString_old : toISOString (-62198755200000) = "-000001-01-01T00:00:00.000Z"%string.
Proof. vm_compute. reflexivity. Qed.

(** ** The calendar is consistent *)

(** Within a century ([c] of four) the correction for leap days is exact or one ahead. *)
Lemma yearOfCentury_bounds c r : 0 ≤ c < 4 → 0 ≤ r < 36524 + (if c =? 3 then 1 else 0) →
  let q := (24 * c + r) / 1460 in let y := (r - q) / 365 in
  0 ≤ y < 100 ∧ 0 ≤ r - (365 * y + y / 4) < 366.
Proof.
  intros Hc Hr. cbv zeta. set (q := _ / 1460). set (y := _ / 365).
  assert (1460 * q ≤ 24 * c + r < 1460 * q + 1460) as Hq by (unfold q; Z.to_euclidean_division_equations; lia).
  assert (365 * y ≤ r - q < 365 * y + 365) as Hy by (unfold y; Z.to_euclidean_division_equations; lia).
  assert (4 * (y / 4) ≤ y < 4 * (y / 4) + 4) as Hk by (Z.to_euclidean_division_equations; lia).
  clearbody q y. set (k := y / 4) in *. clearbody k.
  assert (0 ≤ q ≤ 25) by (destruct (c =? 3); lia). assert (q - k = 0 ∨ q - k = 1) as Hqk by lia.
  destruct (Z.eqb_spec c 3); split; lia.
Qed.

Lemma yearOfEra_bounds doe : 0 ≤ doe < eraDays →
  let yoe := (doe - doe / 1460 + doe / 36524 - doe / 146096) / 365 in
  0 ≤ yoe < 400 ∧ 0 ≤ doe - (365 * yoe + yoe / 4 - yoe / 100) < 366.
Proof.
  unfold eraDays. intros H. cbv zeta. set (c := doe / 36524 - doe / 146096).
  assert (0 ≤ c < 4 ∧ 0 ≤ doe - 36524 * c < 36524 + (if c =? 3 then 1 else 0)) as [Hc Hr].
  { assert (36524 * (doe / 36524) ≤ doe < 36524 * (doe / 36524) + 36524) as H1 by (Z.to_euclidean_division_equations; lia).
    assert (146096 * (doe / 146096) ≤ doe < 146096 * (doe / 146096) + 146096) as H2 by (Z.to_euclidean_division_equations; lia).
    assert (doe / 146096 = 0 ∨ doe / 146096 = 1) as [E|E] by lia; unfold c; rewrite E in *;
      destruct (Z.eqb_spec (doe / 36524 - 0) 3), (Z.eqb_spec (doe / 36524 - 1) 3); lia. }
  pose proof (yearOfCentury_bounds c (doe - 36524 * c) Hc Hr) as Hyc. cbv zeta in Hyc.
  set (r := doe - 36524 * c) in *. set (y := _ / 365) in Hyc.
  assert ((doe - doe / 1460 + doe / 36524 - doe / 146096) / 365 = 100 * c + y) as ->.
  { replace (doe - doe / 1460 + doe / 36524 - doe / 146096) with (doe - doe / 1460 + c) by (unfold c; lia).
    assert (doe / 1460 = 25 * c + (24 * c + r) / 1460) as ->.
    { replace doe with (24 * c + r + 25 * c * 1460) by (unfold r; lia). rewrite Z.div_add by lia. lia. }
    unfold y. replace (doe - _ + c) with (r - (24 * c + r) / 1460 + 100 * c * 365) by (unfold r; lia).
    rewrite Z.div_add by lia. lia. }
  assert ((100 * c + y) / 4 = 25 * c + y / 4) as ->.
  { replace (100 * c + y) with (y + 25 * c * 4) by lia. rewrite Z.div_add by lia. lia. }
  rewrite <-(Z.div_unique (100 * c + y) 100 c y) by lia.
  unfold r in *. lia.
Qed.

Lemma civilOfEra_spec doe : 0 ≤ doe < eraDays →
  let '(yoe, mp, d) := civilOfEra doe in
  0 ≤ yoe < 400 ∧ 0 ≤ mp < 12 ∧ 1 ≤ d ≤ 31 ∧ dayOfEra yoe mp d = doe.
Proof.
  intros H. unfold civilOfEra, dayOfEra. cbv zeta. pose proof (yearOfEra_bounds doe H) as [Hy Hd]. cbv zeta in Hy, Hd.
  set (yoe := (doe - doe / 1460 + doe / 36524 - doe / 146096) / 365) in *. clearbody yoe.
  set (doy := doe - (365 * yoe + yoe / 4 - yoe / 100)) in *. split; [lia|].
  assert (doe = yoe * 365 + yoe / 4 - yoe / 100 + doy) as He by (unfold doy; lia).
  clearbody doy. rewrite He. split_and!; clear - Hd; Z.to_euclidean_division_equations; lia.
Qed.

Lemma civil_roundtrip days :
  let '(y, m, d) := civilFromDays days in
  daysFromCivil y m d = days ∧ 1 ≤ m ≤ 12 ∧ 1 ≤ d ≤ 31.
Proof.
  unfold civilFromDays, daysFromCivil. cbv zeta.
  pose proof (Z.mod_pos_bound (days + 719468) eraDays ltac:(done)) as Hb.
  pose proof (civilOfEra_spec _ Hb) as Hs. destruct (civilOfEra _) as [[yoe mp] d]. destruct Hs as (Hy & Hm & Hd & He).
  pose proof (Z.div_mod (days + 719468) eraDays ltac:(done)) as Hdm.
  set (era := (days + 719468) / eraDays) in *. rewrite <-He in Hdm. clear He Hb. clearbody era.
  assert ((yoe + era * 400) / 400 = era) as E1 by (rewrite Z.div_add, Z.div_small by lia; lia).
  assert ((yoe + era * 400) mod 400 = yoe) as E2 by (rewrite Z.mod_add, Z.mod_small by lia; lia).
  destruct (Z.ltb_spec mp 10).
  - rewrite (proj2 (Z.leb_gt (mp + 3) 2)), (proj2 (Z.ltb_lt 2 (mp + 3))), Z.add_0_r, E1, E2 by lia.
    replace (mp + 3 - 3) with mp by lia. lia.
  - rewrite (proj2 (Z.leb_le (mp - 9) 2)), (proj2 (Z.ltb_ge 2 (mp - 9))) by lia.
    replace (yoe + era * 400 + 1 - 1) with (yoe + era * 400) by lia. rewrite E1, E2.
    replace (mp - 9 + 9) with mp by lia. lia.
Qed.

(** ** Reading what was printed *)

Lemma readDigits_app n s r acc : str_forall is_digit s = true → strlen s = n →
  readDigits n acc (s +:+ r) = Some (value_acc acc s, r).
Proof.
  revert n acc. induction s as [|c s IH]; intros n acc Hd Hn; cbn in Hn; subst n; [done|].
  cbn [str_forall] in Hd. apply andb_true_iff in Hd as [Hc Hd]. rewrite app_cons_str. cbn [readDigits]. rewrite Hc.
  by rewrite IH.
Qed.

Lemma pad_spec n v : (1 ≤ n)%nat → 0 ≤ v < 10 ^ Z.of_nat n →
  str_forall is_digit (pad n v) = true ∧ strlen (pad n v) = n ∧ value_acc 0 (pad n v) = v.
Proof.
  intros Hn Hv. destruct (natToString_spec v ltac:(lia)) as (Hd & _ & Hval & Hl). unfold pad. split_and!.
  - by apply padStart_digits.
  - apply strlen_padStart. apply Hl; lia.
  - etransitivity; [apply BigInt_digits_padStart|exact Hval].
Qed.

Lemma readDigits_pad n v r : (1 ≤ n)%nat → 0 ≤ v < 10 ^ Z.of_nat n → readDigits n 0 (pad n v +:+ r) = Some (v, r).
Proof. intros Hn Hv. destruct (pad_spec n v Hn Hv) as (Hd & Hl & He). by rewrite readDigits_app, He. Qed.

Lemma readYear_text y r : Z.abs y < 10 ^ 6 → readYear (yearText y +:+ r) = Some (y, r).
Proof.
  intros Hy. unfold yearText. destruct (Z.leb_spec 0 y), (Z.leb_spec y 9999); cbn [andb].
  - destruct (pad_spec 4 y ltac:(lia) ltac:(lia)) as (Hd & Hl & He). unfold readYear.
    destruct (pad 4 y) as [|c s] eqn:Hp; [done|]. cbn [str_forall] in Hd. apply andb_true_iff in Hd as [Hc Hd].
    rewrite app_cons_str.
    assert (∀ A (a b e : A), match c with "+"%char => a | "-"%char => b | _ => e end = e) as Hsign.
    { intros A a b e. destruct c as [[] [] [] [] [] [] [] []]; first [done|discriminate Hc]. }
    rewrite Hsign, <-app_cons_str, <-Hp. apply readDigits_pad; lia.
  - destruct (Z.ltb_spec y 0); [lia|]. rewrite app_cons_str. cbn [readYear]. apply readDigits_pad; lia.
  - destruct (Z.ltb_spec y 0); [|lia]. rewrite app_cons_str. cbn [readYear]. rewrite readDigits_pad by lia.
    cbn. by rewrite Z.opp_involutive.
  - lia.
Qed.

Lemma civilFromDays_year days : Z.abs days ≤ 10 ^ 8 → let '(y, _, _) := civilFromDays days in Z.abs y < 10 ^ 6.
Proof.
  intros H. unfold civilFromDays. cbv zeta.
  pose proof (Z.mod_pos_bound (days + 719468) eraDays ltac:(done)) as Hb.
  pose proof (civilOfEra_spec _ Hb) as Hs. destruct (civilOfEra _) as [[yoe mp] d]. destruct Hs as (Hy & _).
  assert (- 700 ≤ (days + 719468) / eraDays ≤ 700) by (unfold eraDays; Z.to_euclidean_division_equations; lia).
  destruct (_ <=? 2); lia.
Qed.

Theorem ISO_roundtrip t : validTime t = true → fromISOString (toISOString t) = Some t.
Proof.
  unfold validTime. rewrite Z.leb_le. intros Ht. unfold toISOString.
  pose proof (Z.div_mod t MS_PER_DAY ltac:(done)) as Hdm. pose proof (Z.mod_pos_bound t MS_PER_DAY ltac:(done)) as Hms.
  assert (Z.abs (t / MS_PER_DAY) ≤ 10 ^ 8) as Hday.
  { change MS_PER_DAY with 86400000 in *. set (q := t / 86400000) in *. clearbody q. lia. }
  pose proof (civil_roundtrip (t / MS_PER_DAY)) as Hc. pose proof (civilFromDays_year _ Hday) as Hy.
  destruct (civilFromDays _) as [[y m] d]. destruct Hc as (Hc & Hm & Hd). cbv zeta. set (ms := t mod MS_PER_DAY) in *.
  change MS_PER_DAY with 86400000 in *.
  assert (0 ≤ ms / 3600000 < 24) by (Z.to_euclidean_division_equations; lia).
  pose proof (Z.mod_pos_bound (ms / 60000) 60 ltac:(done)). pose proof (Z.mod_pos_bound (ms / 1000) 60 ltac:(done)).
  pose proof (Z.mod_pos_bound ms 1000 ltac:(done)).
  unfold fromISOString.
  rewrite readYear_text by done. cbn [mbind option_bind].
  assert (∀ c s, readChar c (String c s) = Some s) as Hchar by (intros c s; cbn; by rewrite Ascii.eqb_refl).
  repeat (rewrite ?app_cons_str, ?app_nil_l_str; rewrite Hchar; cbn [mbind option_bind];
          rewrite readDigits_pad by (cbn; lia); cbn [mbind option_bind]).
  rewrite Hchar. cbn [mbind option_bind]. rewrite bool_decide_true by done. f_equal. rewrite Hc.
  assert (ms = ms / 3600000 * 3600000 + ms / 60000 mod 60 * 60000 + ms / 1000 mod 60 * 1000 + ms mod 1000) as Hsplit.
  { clearbody ms. clear. Z.to_euclidean_division_equations. lia. }
  change MS_PER_DAY with 86400000. lia.
Qed.

Lemma toISOString_inj t t' : validTime t = true → validTime t' = true → toISOString t = toISOString t' → t = t'.
Proof. intros H H' He. pose proof (ISO_roundtrip t H) as E. rewrite He, ISO_roundtrip in E by done. congruence. Qed.
