(* ===== verification/AuditChain.v ===== *)
(** * The hash-chained administrative audit

    [lib/auditChain.ts], the hook of [lib/db.ts] that chains every
    [AdminActionAudit] row to the one before it, and
    [services/adminAudit.service.ts], which verifies and lists the chain.
    SHA-256 is an argument; what is assumed of it is that a digest is not the
    empty string. Tamper evidence is stated without assuming that collisions do
    not exist: two histories with one checkpoint are the same, or a collision is
    computed from them. *)

From S2P Require Import Prelude JsString JsValue Json Dates Prisma.
From S2P Require Pagination.

(** ** Entries and their canonical text *)

(** [AuditChainEntryInput]; an absent field and [null] hash alike. *)
Record AuditChainEntryInput : Type := {
  action : string; actorAddress : string; targetReference : option string; note : option string; createdAt : Z }.

Record AuditRow : Type := { id : Z; entry : AuditChainEntryInput; prevHash : string; hash : string }.

(** [JSON.stringify] of a string or [null], a member, followed by [r]. *)
Definition nullable (v : option string) (r : string) : string :=
  match v with Some s => quoted s r | None => "null" +:+ r end.
Definition member (k : string) (v : string → string) (r : string) : string := quoted k (String ":" (v r)).

Definition canonical (prev : string) (e : AuditChainEntryInput) : string :=
  String "{" (member "prevHash" (quoted prev) (String "," (member "action" (quoted (action e))
    (String "," (member "actorAddress" (quoted (actorAddress e)) (String "," (member "targetReference" (nullable (targetReference e))
    (String "," (member "note" (nullable (note e)) (String "," (member "createdAt" (quoted (toISOString (createdAt e)))
    "}"))))))))))).

Definition byIdAsc (a b : AuditRow) : Z := id a - id b.
Definition byIdDesc (a b : AuditRow) : Z := id b - id a.

(** [AuditChainVerificationResult] *)
Record Verification : Type := { valid : bool; entriesChecked : Z; brokenAtId : option Z; checkpoint : option string }.

Section Chain.
Context (sha256 : string → string).

Definition computeAuditEntryHash (prev : string) (e : AuditChainEntryInput) : string := sha256 (canonical prev e).

Section Rows.
Context {T : Type} `{!Table Z AuditRow T}.

(** The hook: read the last row, chain, insert. [between] is what other writers
    commit after the read; [newId] is the sequence's next value. *)
Definition createAudit (between : T → T) (newId : Z) (e : AuditChainEntryInput) (db : T) : option T :=
  let prev := default ""%string (hash <$> head (js_sort byIdDesc (findMany (λ _, true) db))) in
  create newId {| id := newId; entry := e; prevHash := prev; hash := computeAuditEntryHash prev e |} (between db).

(** The loop variables of [verifyChain]. *)
Record Walk : Type := { expectedPrevHash : string; checked : Z; broken : option Z; anchor : option string }.

Definition verifyRow (w : Walk) (row : AuditRow) : Walk :=
  if bool_decide (hash row = ""%string) then w
  else
    let recomputed := computeAuditEntryHash (expectedPrevHash w) (entry row) in
    {| expectedPrevHash := hash row; checked := checked w + 1;
       broken := if negb (bool_decide (prevHash row = expectedPrevHash w)) || negb (bool_decide (hash row = recomputed))
                 then Some (default (id row) (broken w)) else broken w;
       anchor := Some (hash row) |}.

Definition verifyRows (rows : list AuditRow) : Verification :=
  let w := foldl verifyRow {| expectedPrevHash := ""; checked := 0; broken := None; anchor := None |} rows in
  {| valid := bool_decide (broken w = None); entriesChecked := checked w; brokenAtId := broken w; checkpoint := anchor w |}.

Definition verifyChain (db : T) : Verification := verifyRows (js_sort byIdAsc (findMany (λ _, true) db)).

(** ** Listing *)

Definition newestFirst (a b : AuditRow) : Z := cmpLex (λ a b, createdAt (entry b) - createdAt (entry a)) byIdDesc a b.

(** [AdminAuditListResult]: a page, and the offset envelope of the deprecated mode. *)
Record AdminAuditListResult : Type := {
  page_ : Pagination.CursorPageResult AuditRow; pagination : option (Z * Z * Z * jsnum) }.

(** [findMany({ take, cursor, skip })] in listing order; Prisma refuses an id that is not an integer. *)
Definition auditPage (db : T) (n : nat) (cursor : option jsnum) : result Pagination.page_error (list AuditRow) :=
  match cursor with
  | Some (JInt _) | None => Ok (Pagination.prismaPage id (js_sort newestFirst (findMany (λ _, true) db)) n cursor)
  | Some _ => Err (Pagination.QueryError "Invalid value provided")
  end.

Definition pageNumber (page : jsnum) : Z :=
  if Pagination.isFinite page && jgt page 0 then match jfloor page with JInt n => n | _ => 1 end else 1.

(** [list]; the offset mode orders by creation time only. *)
Definition listAudit (cursor : option string) (rawLimit : jsval) (page : option jsnum) (db : T)
    : result Pagination.page_error AdminAuditListResult :=
  let limit := Pagination.normalizeCursorLimit (orElse rawLimit (VNum (JInt 20) "")) in
  let byTime a b := createdAt (entry b) - createdAt (entry a) in
  match cursor, page with
  | (None | Some ""%string), Some p =>
      let page := pageNumber p in
      let rows := findMany (λ _, true) db in
      let total := Z.of_nat (length rows) in
      if (page - 1) * limit <? 0 then Err (Pagination.QueryError "Value can only be positive")
      else Ok {| page_ := {| Pagination.items := slice ((page - 1) * limit) limit (js_sort byTime rows);
                             Pagination.pageInfo := {| Pagination.nextCursor := None; Pagination.hasNextPage := page * limit <? total;
                                                       Pagination.pageLimit := limit |} |};
                 pagination := Some (page, limit, total, Pagination.pageCount total limit) |}
  | _, _ =>
      res ← Pagination.paginateWithCursor id (auditPage db) cursor (VNum (JInt limit) "");
      mret {| page_ := res; pagination := None |}
  end.
End Rows.

(** ** Chains *)

Definition chained (r : AuditRow) : bool := negb (bool_decide (hash r = ""%string)).

(** The rows link up from [prev] on. *)
Fixpoint linked (prev : string) (rows : list AuditRow) : Prop :=
  match rows with
  | [] => True
  | r :: rs => if chained r then prevHash r = prev ∧ hash r = computeAuditEntryHash prev (entry r) ∧ linked (hash r) rs
               else linked prev rs
  end.

(** The hash the next row is chained to. *)
Definition tip (prev : string) (rows : list AuditRow) : string := foldl (λ p r, if chained r then hash r else p) prev rows.

(** The first pair of different texts with one digest, from the newest row back. *)
Fixpoint findCollision (a b : list AuditRow) : option (string * string) :=
  match a, b with
  | x :: a', y :: b' =>
      let sx := canonical (prevHash x) (entry x) in let sy := canonical (prevHash y) (entry y) in
      if bool_decide (sx = sy) then findCollision a' b' else Some (sx, sy)
  | _, _ => None
  end.
End Chain.

(** ** The canonical text determines the entry *)

Lemma quoted_inj s s' r r' : quoted s r = quoted s' r' → s = s' ∧ r = r'.
Proof.
  unfold quoted. intros [= H]. apply (f_equal jsonChars) in H. rewrite !jsonChars_quoteChars in H. naive_solver.
Qed.

Lemma nullable_inj v v' r r' : nullable v r = nullable v' r' → v = v' ∧ r = r'.
Proof.
  destruct v as [s|], v' as [s'|]; cbn [nullable].
  - intros [-> ->]%quoted_inj. done.
  - unfold quoted. intros H. discriminate H.
  - unfold quoted. intros H. discriminate H.
  - intros H. split; [done|]. by injection H.
Qed.

Lemma String_inj c r r' : String c r = String c r' → r = r'.
Proof. by intros [= ->]. Qed.

Lemma member_inj k v v' r r' : member k v r = member k v' r' → v r = v' r'.
Proof. unfold member. intros [_ H]%quoted_inj. by apply String_inj in H. Qed.

Lemma canonical_inj p p' e e' : validTime (createdAt e) = true → validTime (createdAt e') = true →
  canonical p e = canonical p' e' → p = p' ∧ e = e'.
Proof.
  intros Ht Ht' H. unfold canonical in H. apply String_inj, member_inj in H.
  repeat match goal with
  | H : quoted _ (String "," _) = quoted _ _ |- _ => apply quoted_inj in H as [? H]; apply String_inj, member_inj in H
  | H : nullable _ (String "," _) = nullable _ _ |- _ => apply nullable_inj in H as [? H]; apply String_inj, member_inj in H
  end.
  apply quoted_inj in H as [H _]. apply toISOString_inj in H; [|done..].
  destruct e, e'; cbn in *; subst. done.
Qed.

(** ** Verification decides linking *)

Section Facts.
Context (sha256 : string → string).

Lemma verify_broken w rows : broken w ≠ None → broken (foldl (verifyRow sha256) w rows) = broken w.
Proof.
  revert w. induction rows as [|r rows IH]; intros w Hw; [done|]. cbn [foldl]. unfold verifyRow at 2.
  case_bool_decide; [by apply IH|]. rewrite IH; cbn; case_ifs; destruct (broken w); done.
Qed.

Lemma verify_walk w rows :
  let w' := foldl (verifyRow sha256) w rows in
  expectedPrevHash w' = tip (expectedPrevHash w) rows ∧
  checked w' = checked w + Z.of_nat (length (List.filter chained rows)) ∧
  (anchor w' = match List.filter chained rows with [] => anchor w | _ => Some (tip (expectedPrevHash w) rows) end).
Proof.
  revert w. induction rows as [|r rows IH]; intros w; [cbn; split_and!; (done || lia)|]. cbn [foldl List.filter]. unfold tip. cbn [foldl].
  fold (tip (if chained r then hash r else expectedPrevHash w) rows). destruct (IH (verifyRow sha256 w r)) as (-> & -> & ->).
  unfold verifyRow, chained. case_bool_decide as Hh; cbn [negb expectedPrevHash checked anchor length].
  - split_and!; (done || lia).
  - split_and!; [done|lia|]. fold chained. destruct (List.filter chained rows) eqn:Hf; [|done].
    enough (tip (hash r) rows = hash r) as -> by done. unfold tip.
    assert (Forall (λ r, chained r = false) rows) as Hall.
    { apply Forall_forall. intros x Hx. apply not_true_is_false. intros Hc.
      assert (x ∈ List.filter chained rows) as Hin by (apply list_elem_of_In, List.filter_In; rewrite <-list_elem_of_In; done).
      rewrite Hf in Hin. set_solver. }
    clear -Hall. induction Hall as [|x l Hx _ IH]; [done|]. cbn [foldl]. rewrite Hx. exact IH.
Qed.

Lemma verify_linked w rows : broken w = None →
  broken (foldl (verifyRow sha256) w rows) = None ↔ linked sha256 (expectedPrevHash w) rows.
Proof.
  revert w. induction rows as [|r rows IH]; intros w Hw; [done|]. cbn [foldl linked].
  unfold verifyRow at 2, chained. case_bool_decide as Hh; cbn [negb]; [by apply IH|].
  set (w1 := {| expectedPrevHash := hash r |}).
  destruct (decide (prevHash r = expectedPrevHash w ∧ hash r = computeAuditEntryHash sha256 (expectedPrevHash w) (entry r))) as [[H1 H2]|Hn].
  - rewrite (IH w1) by (cbn; by rewrite !bool_decide_true). cbn. naive_solver.
  - assert (broken w1 ≠ None) as Hb.
    { cbn. rewrite Hw. destruct (bool_decide_reflect (prevHash r = expectedPrevHash w)); [|done].
      rewrite bool_decide_false by naive_solver. done. }
    rewrite verify_broken by done. naive_solver.
Qed.

Lemma verifyRows_valid rows : valid (verifyRows sha256 rows) = true ↔ linked sha256 "" rows.
Proof. unfold verifyRows. cbn [valid]. rewrite bool_decide_eq_true. by apply verify_linked. Qed.

Lemma verifyRows_checkpoint rows : checkpoint (verifyRows sha256 rows) =
  match List.filter chained rows with [] => None | _ => Some (tip "" rows) end.
Proof. unfold verifyRows. cbn [checkpoint]. apply (verify_walk {| expectedPrevHash := "" |}). Qed.

Lemma linked_app prev a b : linked sha256 prev (a ++ b) ↔ linked sha256 prev a ∧ linked sha256 (tip prev a) b.
Proof.
  revert prev. induction a as [|r a IH]; intros prev; [cbn; tauto|]. cbn [app linked]. unfold tip. cbn [foldl].
  fold (tip (if chained r then hash r else prev) a). destruct (chained r); rewrite IH; tauto.
Qed.

Lemma tip_app prev a b : tip prev (a ++ b) = tip (tip prev a) b.
Proof. unfold tip. by rewrite foldl_app. Qed.

(** Only the chained rows matter. *)
Lemma linked_chained prev rows : linked sha256 prev rows ↔ linked sha256 prev (List.filter chained rows).
Proof.
  revert prev. induction rows as [|r rows IH]; intros prev; [done|]. cbn [linked List.filter].
  destruct (chained r) eqn:Hc; [|done]. cbn [linked]. rewrite Hc, IH. tauto.
Qed.

Lemma tip_chained prev rows : tip prev rows = tip prev (List.filter chained rows).
Proof.
  unfold tip. revert prev. induction rows as [|r rows IH]; intros prev; [done|]. cbn [foldl List.filter].
  destruct (chained r) eqn:Hc; [|done]. cbn [foldl]. by rewrite Hc.
Qed.

(** ** What the service writes verifies *)

Section Writes.
Context {T : Type} `{!Table Z AuditRow T, !TableLaws Z AuditRow T}.
Hypothesis sha256_nonempty : ∀ s, sha256 s ≠ ""%string.

Definition rowsOf (db : T) : list AuditRow := js_sort byIdAsc (findMany (λ _, true) db).

Lemma ties (db : T) : keyed id db → ∀ y z, y ∈ findMany (λ _, true) db → z ∈ findMany (λ _, true) db → byIdAsc y z = 0 → y = z.
Proof.
  intros Hk y z (k & Hy & _)%(findMany_elem (K := Z)) (k' & Hz & _)%(findMany_elem (K := Z)) He.
  pose proof (Hk _ _ Hy). pose proof (Hk _ _ Hz). unfold byIdAsc in He. assert (k = k') by lia. congruence.
Qed.

Lemma byIdAsc_comparator : Comparator byIdAsc.
Proof. unfold byIdAsc. apply (comparator_key Z.sub id), comparator_sub. Qed.

Lemma latest_row (db : T) : keyed id db → head (js_sort byIdDesc (findMany (λ _, true) db)) = last (rowsOf db).
Proof.
  intros Hk. change byIdDesc with (λ x y, byIdAsc y x).
  rewrite js_sort_flip by (apply byIdAsc_comparator || by apply ties). apply head_reverse.
Qed.

(** A table the hook can extend: its chain verifies and its newest row is chained
    (or no row is), and [n] is above every id. *)
Record intact (n : Z) (db : T) : Prop := {
  intact_keyed : keyed id db;
  intact_below k : is_Some (findUnique k db) → k < n;
  intact_linked : linked sha256 "" (rowsOf db);
  intact_tip : default ""%string (hash <$> last (rowsOf db)) = tip "" (rowsOf db) }.

Definition undisturbed (db : T) : T := db.

Lemma createAudit_intact n e db : intact n db →
  ∃ db' r, createAudit sha256 undisturbed n e db = Some db' ∧ intact (n + 1) db' ∧
    rowsOf db' = rowsOf db ++ [r] ∧ chained r = true ∧ entry r = e.
Proof.
  intros [Hk Hb Hl Ht]. unfold createAudit, undisturbed. rewrite latest_row by done. rewrite Ht.
  set (r := {| id := n |}). destruct (findUnique n db) as [w|] eqn:Hn.
  { assert (n < n) by (apply Hb; by rewrite Hn). lia. }
  destruct (create_free n r db Hn) as (db' & Hc & Hs & Ho). exists db', r.
  pose proof (create_keyed id n r db db' Hk eq_refl Hc) as Hk'.
  assert (rowsOf db' = rowsOf db ++ [r]) as Hrows.
  { unfold rowsOf. rewrite <-js_sort_snoc.
    - apply js_sort_unique; [apply byIdAsc_comparator|by apply (create_perm id n)|by apply ties].
    - apply byIdAsc_comparator.
    - by apply ties.
    - intros y (k & Hy & _)%(findMany_elem (K := Z)). pose proof (Hk _ _ Hy). unfold byIdAsc. cbn.
      assert (k < n) by (apply Hb; by rewrite Hy). lia. }
  assert (chained r = true) as Hch by (unfold chained; cbn; by rewrite bool_decide_false by apply sha256_nonempty).
  split_and!; [done| |done..]. split; [done| | |].
  - intros k [w Hw]. destruct (decide (k = n)) as [->|Hne]; [lia|]. rewrite Ho in Hw by done.
    assert (k < n) by (apply Hb; by rewrite Hw). lia.
  - rewrite Hrows, linked_app. split; [done|]. cbn [linked]. by rewrite Hch.
  - rewrite Hrows, tip_app, last_snoc. unfold tip at 1. cbn [foldl]. by rewrite Hch.
Qed.

Fixpoint writes (n : Z) (es : list AuditChainEntryInput) (db : T) : option T :=
  match es with [] => Some db | e :: es => db' ← createAudit sha256 undisturbed n e db; writes (n + 1) es db' end.

Lemma writes_intact n es db : intact n db →
  ∃ db' rs, writes n es db = Some db' ∧ intact (n + Z.of_nat (length es)) db' ∧
    rowsOf db' = rowsOf db ++ rs ∧ Forall (λ r, chained r = true) rs ∧ entry <$> rs = es.
Proof.
  revert n db. induction es as [|e es IH]; intros n db Hi.
  { exists db, []. cbn. rewrite app_nil_r, Z.add_0_r. by split_and!. }
  destruct (createAudit_intact n e db Hi) as (db1 & r & H1 & H2 & H3 & H4 & H5). cbn [writes]. rewrite H1. cbn [mbind option_bind].
  destruct (IH (n + 1) db1 H2) as (db' & rs & I1 & I2 & I3 & I4 & I5). exists db', (r :: rs). split_and!; [done| | |by constructor|].
  - cbn [length]. by replace (n + Z.of_nat (S (length es))) with (n + 1 + Z.of_nat (length es)) by lia.
  - by rewrite I3, H3, <-app_assoc.
  - cbn. by rewrite H5, I5.
Qed.

Lemma legacy_intact n db : keyed id db → (∀ k, is_Some (findUnique k db) → k < n) →
  (∀ k r, findUnique k db = Some r → hash r = ""%string) → intact n db ∧ List.filter chained (rowsOf db) = [].
Proof.
  intros Hk Hb Hl.
  assert (∀ r, r ∈ rowsOf db → hash r = ""%string) as Hall.
  { intros r. unfold rowsOf. rewrite js_sort_perm, (findMany_elem (K := Z)). intros (k & Hr & _). eauto. }
  assert (List.filter chained (rowsOf db) = []) as Hf.
  { revert Hall. generalize (rowsOf db). intros l Hall. induction l as [|r l IH]; [done|]. cbn. unfold chained at 1.
    rewrite bool_decide_true by (apply Hall; set_solver). cbn. apply IH. set_solver. }
  split; [|done]. split; [done|done| |].
  - by rewrite linked_chained, Hf.
  - rewrite tip_chained, Hf. cbn. destruct (last (rowsOf db)) as [r|] eqn:Hr; [|done]. cbn. apply Hall.
    apply last_Some in Hr as [l ->]. set_solver.
Qed.

(** What the service writes always verifies: after any entries written one after
    another to a table of rows from before the chain, the verification passes, has
    checked exactly those entries, and its checkpoint is the hash of the newest. *)
Theorem writes_verify n es db : keyed id db → (∀ k, is_Some (findUnique k db) → k < n) →
  (∀ k r, findUnique k db = Some r → hash r = ""%string) →
  ∃ db', writes n es db = Some db' ∧
    valid (verifyChain sha256 db') = true ∧ entriesChecked (verifyChain sha256 db') = Z.of_nat (length es) ∧
    (es ≠ [] → checkpoint (verifyChain sha256 db') = hash <$> last (rowsOf db')).
Proof.
  intros Hk Hb Hl. destruct (legacy_intact n db Hk Hb Hl) as [Hi Hf].
  destruct (writes_intact n es db Hi) as (db' & rs & H1 & H2 & H3 & H4 & H5). exists db'. split; [done|].
  assert (List.filter chained (rowsOf db') = rs) as Hch.
  { rewrite H3, List.filter_app, Hf. cbn [app]. clear -H4. induction H4 as [|r rs Hr _ IH]; [done|]. cbn. by rewrite Hr, IH. }
  unfold verifyChain. fold (rowsOf db'). split_and!.
  - apply verifyRows_valid, H2.
  - unfold verifyRows. cbn [entriesChecked]. destruct (verify_walk {| expectedPrevHash := ""; checked := 0; broken := None; anchor := None |} (rowsOf db')) as (_ & -> & _).
    cbn [checked]. rewrite Hch, <-H5, length_fmap. lia.
  - intros Hne. rewrite verifyRows_checkpoint, Hch. destruct rs as [|r rs]; [by rewrite <-H5 in Hne|].
    rewrite <-(intact_tip _ _ H2), H3. assert (last (rowsOf db ++ r :: rs) = last (r :: rs)) as -> by by apply last_app_cons.
    destruct (last (r :: rs)) eqn:E; [done|]. by apply last_None in E.
Qed.
End Writes.

(** ** What verification proves *)

Lemma linked_tip_empty a : (∀ s, sha256 s ≠ ""%string) → Forall (λ r, chained r = true) a → linked sha256 "" a →
  tip "" a = ""%string → a = [].
Proof.
  intros Hne Ha Hl Ht. destruct a as [|r a] using rev_ind; [done|exfalso]. apply Forall_app in Ha as [_ Hr].
  apply linked_app in Hl as [_ Hl]. rewrite tip_app in Ht. inversion Hr as [|?? Hr' _]; subst. cbn [linked] in Hl.
  unfold tip at 1 in Ht. cbn [foldl] in Ht. rewrite Hr' in *. destruct Hl as (_ & Hh & _). rewrite Ht in Hh. by eapply Hne.
Qed.

Definition timely (r : AuditRow) : Prop := validTime (createdAt (entry r)) = true.

Lemma same_tip_same_entries a b : (∀ s, sha256 s ≠ ""%string) →
  Forall (λ r, chained r = true) a → Forall (λ r, chained r = true) b → Forall timely a → Forall timely b →
  linked sha256 "" a → linked sha256 "" b → tip "" a = tip "" b →
  entry <$> a = entry <$> b ∨
  ∃ x y, findCollision (rev a) (rev b) = Some (x, y) ∧ x ≠ y ∧ sha256 x = sha256 y.
Proof.
  intros Hne. revert b. induction a as [|x a IH] using rev_ind; intros b Ha Hb Hta Htb Hla Hlb Ht.
  { rewrite (linked_tip_empty b) by done. by left. }
  destruct b as [|y b _] using rev_ind.
  { apply linked_tip_empty in Hla; [|done..]. by destruct a. }
  apply Forall_app in Ha as [Ha Hx], Hb as [Hb Hy], Hta as [Hta Htx], Htb as [Htb Hty].
  apply linked_app in Hla as [Hla Hlx], Hlb as [Hlb Hly]. rewrite !tip_app in Ht.
  inversion Hx as [|?? Hx' _]; inversion Hy as [|?? Hy' _]; inversion Htx as [|?? Htx' _]; inversion Hty as [|?? Hty' _]; subst.
  unfold tip at 1 3 in Ht. cbn [foldl] in Ht. cbn [linked] in Hlx, Hly. rewrite Hx', Hy' in *.
  destruct Hlx as (Hpx & Hhx & _), Hly as (Hpy & Hhy & _). rewrite !rev_app_distr. cbn [rev app findCollision].
  case_bool_decide as Hs.
  - apply canonical_inj in Hs as [Hp He]; [|done..]. rewrite Hpx, Hpy in Hp.
    destruct (IH b Ha Hb Hta Htb Hla Hlb Hp) as [IHe|IHc]; [left|by right].
    by rewrite !fmap_app, IHe; cbn; rewrite He.
  - right. eexists _, _. split; [done|]. split; [done|]. rewrite Hpx, Hpy. unfold computeAuditEntryHash in *. congruence.
Qed.

Lemma filter_chained rows : Forall (λ r, chained r = true) (List.filter chained rows).
Proof. apply Forall_forall. intros r Hr. apply list_elem_of_In, List.filter_In in Hr. apply Hr. Qed.

Lemma filter_timely rows : Forall timely rows → Forall timely (List.filter chained rows).
Proof. rewrite !Forall_forall. intros H r Hr. apply list_elem_of_In, List.filter_In in Hr as [Hr _]. apply H. by apply list_elem_of_In. Qed.

Section Tampering.
Context {T : Type} `{!Table Z AuditRow T}.

(** C33: tampering is evident. Whatever was done to the table since a checkpoint was
    taken of it, if both verify and the checkpoint is the same, the chained entries
    are the same, or the two tables exhibit two texts with one SHA-256 digest. *)
Theorem tampering_evident (db db' : T) : (∀ s, sha256 s ≠ ""%string) →
  Forall timely (rowsOf db) → Forall timely (rowsOf db') →
  valid (verifyChain sha256 db) = true → valid (verifyChain sha256 db') = true →
  checkpoint (verifyChain sha256 db) = checkpoint (verifyChain sha256 db') →
  let history d := List.filter chained (rowsOf d) in
  entry <$> history db = entry <$> history db' ∨
  ∃ x y, findCollision (rev (history db)) (rev (history db')) = Some (x, y) ∧ x ≠ y ∧ sha256 x = sha256 y.
Proof.
  intros Hne Ht Ht' Hv Hv' Hc. unfold verifyChain in *. fold (rowsOf db) (rowsOf db') in *. cbv zeta.
  apply verifyRows_valid, linked_chained in Hv, Hv'. rewrite !verifyRows_checkpoint in Hc.
  apply same_tip_same_entries; try done; try apply filter_chained; try by apply filter_timely.
  rewrite <-!tip_chained. revert Hc. 
  destruct (List.filter chained (rowsOf db)) eqn:E, (List.filter chained (rowsOf db')) eqn:E'; try done; [|congruence].
  intros _. rewrite (tip_chained "" (rowsOf db)), (tip_chained "" (rowsOf db')), E, E'. done.
Qed.
End Tampering.

(** Removing the newest rows leaves a chain that verifies: without the checkpoint
    of [verifyChain] kept elsewhere, such a deletion is not detected. *)
Theorem truncation_verifies rows n : valid (verifyRows sha256 rows) = true → valid (verifyRows sha256 (take n rows)) = true.
Proof.
  rewrite !verifyRows_valid. intros H. rewrite <-(take_drop n rows) in H. by apply linked_app in H as [H _].
Qed.

(** A row with an empty hash changes nothing wherever it stands: rows can be
    forged among the chained ones, not only before them. *)
Theorem unchained_rows_ignored a r b : hash r = ""%string → verifyRows sha256 (a ++ r :: b) = verifyRows sha256 (a ++ b).
Proof.
  intros Hr. unfold verifyRows. rewrite !foldl_app. cbn [foldl].
  assert (∀ w, verifyRow sha256 w r = w) as E by (intros w; unfold verifyRow; by rewrite bool_decide_true). by rewrite E.
Qed.

(** Two writers that read the same newest row break the chain, though nobody
    tampered with it: the second row names the wrong predecessor. *)
Theorem racing_writes_break_chain {T} `{!Table Z AuditRow T, !TableLaws Z AuditRow T} n e1 e2 (db : T) :
  (∀ s, sha256 s ≠ ""%string) → keyed id db → (∀ k, is_Some (findUnique k db) → k < n) →
  (∀ k r, findUnique k db = Some r → hash r = ""%string) →
  ∃ db', createAudit sha256 (λ db, default db (createAudit sha256 undisturbed n e1 db)) (n + 1) e2 db = Some db' ∧
    valid (verifyChain sha256 db') = false ∧ brokenAtId (verifyChain sha256 db') = Some (n + 1).
Proof.
  intros Hne Hk Hb Hl. destruct (legacy_intact Hne n db Hk Hb Hl) as [Hi Hf].
  destruct (createAudit_intact Hne n e1 db Hi) as (db1 & r1 & H1 & H2 & H3 & H4 & _).
  unfold createAudit at 1. rewrite H1. cbn [default from_option id]. rewrite latest_row by done.
  rewrite (intact_tip _ _ Hi), tip_chained, Hf. unfold tip at 1. cbn [foldl].
  set (r := {| id := n + 1 |}). destruct (findUnique (n + 1) db1) as [w|] eqn:Hn.
  { assert (n + 1 < n + 1) by (apply (intact_below _ _ H2); by rewrite Hn). lia. }
  destruct (create_free (n + 1) r db1 Hn) as (db' & Hc & _ & _). exists db'. split; [exact Hc|].
  assert (rowsOf db' = rowsOf db1 ++ [r]) as Hrows.
  { unfold rowsOf. rewrite <-js_sort_snoc.
    - apply js_sort_unique; [apply byIdAsc_comparator|apply (create_perm id (n + 1)); [apply H2|done..]|].
      by eapply ties, create_keyed; [apply H2| |exact Hc].
    - apply byIdAsc_comparator.
    - by apply ties, H2.
    - intros y (k & Hy & _)%(findMany_elem (K := Z)). pose proof (intact_keyed _ _ H2 _ _ Hy). unfold byIdAsc. cbn.
      assert (k < n + 1) by (apply (intact_below _ _ H2); by rewrite Hy). lia. }
  assert (tip "" (rowsOf db1) ≠ ""%string) as Htip.
  { rewrite H3, tip_app. unfold tip at 1. cbn [foldl]. rewrite H4. intros He. unfold chained in H4. by rewrite (bool_decide_true _ He) in H4. }
  unfold verifyChain. fold (rowsOf db'). unfold verifyRows. rewrite Hrows, foldl_app.
  pose proof (verify_walk {| expectedPrevHash := ""; checked := 0; broken := None; anchor := None |} (rowsOf db1)) as (Hexp & _ & _).
  pose proof (verify_linked {| expectedPrevHash := ""; checked := 0; broken := None; anchor := None |} (rowsOf db1) eq_refl) as Hlk.
  cbn [expectedPrevHash] in *. set (w := foldl _ _ (rowsOf db1)) in *. assert (broken w = None) as Hw by (apply Hlk, H2).
  assert (hash r ≠ ""%string) as Hh by (cbn; apply Hne).
  cbn [foldl]. unfold verifyRow. rewrite (bool_decide_false _ Hh). cbn [broken valid brokenAtId].
  rewrite Hexp, (bool_decide_false (prevHash r = _)) by (cbn; congruence). cbn [negb orb]. rewrite Hw. split; [|done].
  by rewrite bool_decide_false.
Qed.
End Facts.

(** ** Listing *)

Section Listing.
Context {T : Type} `{!Table Z AuditRow T, !TableLaws Z AuditRow T}.

Lemma newestFirst_comparator : Comparator newestFirst.
Proof.
  unfold newestFirst, byIdDesc. apply (comparator_lex (λ a b, createdAt (entry b) - createdAt (entry a)) (λ a b, id b - id a)).
  - apply (comparator_flip (λ a b, createdAt (entry a) - createdAt (entry b))), (comparator_key Z.sub (λ a, createdAt (entry a))), comparator_sub.
  - apply (comparator_flip (λ a b, id a - id b)), (comparator_key Z.sub id), comparator_sub.
Qed.

(** The deprecated offset pages, one after another up to [totalPages], show every
    entry exactly once, newest first, and each says whether another one follows. *)
Theorem audit_pages rawLimit (db : T) : 
  let limit := Pagination.normalizeCursorLimit (orElse rawLimit (VNum (JInt 20) "")) in
  let total := Z.of_nat (length (findMany (λ _, true) db)) in
  1 ≤ limit →
  ∃ rows, StronglySorted (cmp_le (λ a b, createdAt (entry b) - createdAt (entry a))) rows ∧ rows ≡ₚ findMany (λ _, true) db ∧
    (∀ n, 1 ≤ n → ∃ res, listAudit None rawLimit (Some (JInt n)) db = Ok res ∧
      Pagination.items (page_ res) = slice ((n - 1) * limit) limit rows ∧
      pagination res = Some (n, limit, total, JInt (pagesOf total limit)) ∧
      (Pagination.hasNextPage (Pagination.pageInfo (page_ res)) = true ↔ drop (Z.to_nat (n * limit)) rows ≠ [])) ∧
    concat (map (λ k, slice (Z.of_nat k * limit) limit rows) (seq 0 (Z.to_nat (pagesOf total limit)))) = rows.
Proof.
  intros limit total Hl. set (byTime := λ a b, createdAt (entry b) - createdAt (entry a)).
  assert (Comparator byTime) as Hc.
  { apply (comparator_flip (λ a b, createdAt (entry a) - createdAt (entry b))), (comparator_key Z.sub (λ a, createdAt (entry a))), comparator_sub. }
  exists (js_sort byTime (findMany (λ _, true) db)). split_and!.
  - apply js_sort_sorted; [by apply comparator_total|apply (cmp_le_trans byTime Hc)].
  - apply js_sort_perm.
  - intros n Hn. unfold listAudit. fold limit. cbv zeta. fold byTime.
    assert (pageNumber (JInt n) = n) as -> by (unfold pageNumber; cbn; by rewrite (proj2 (Z.ltb_lt 0 n)) by lia).
    rewrite (proj2 (Z.ltb_ge _ 0)) by nia. eexists. split; [reflexivity|]. cbn [page_ Pagination.items pagination Pagination.pageInfo Pagination.hasNextPage].
    split; [done|]. split.
    + unfold Pagination.pageCount. by rewrite (proj2 (Z.eqb_neq limit 0)) by lia.
    + fold total. rewrite Z.ltb_lt. rewrite <-length_zero_iff_nil, length_drop. rewrite js_sort_perm. unfold total. lia.
  - rewrite slices_concat by lia. apply take_ge. rewrite js_sort_perm. pose proof (pagesOf_enough total limit ltac:(lia)).
    unfold total in *. nia.
Qed.

End Listing.

(** ** Witnesses, with a digest that keeps the text *)

Definition Db : Type := gmap Z AuditRow.
Definition digest (s : string) : string := String "#" s.
Lemma digest_nonempty s : digest s ≠ ""%string.
Proof. discriminate. Qed.
Definition sampleEntry (a : string) (t : Z) : AuditChainEntryInput :=
  {| action := a; actorAddress := "ga"; targetReference := None; note := Some "why"; createdAt := t |}.
Definition legacyDb : Db := {[ 1 := {| id := 1; entry := sampleEntry "OLD" 5; prevHash := ""; hash := "" |} ]}.

Lemma legacyDb_keyed : keyed id legacyDb.
Proof. intros k r H. change (legacyDb !! k = Some r) in H. unfold legacyDb in H. apply lookup_singleton_Some in H as [<- <-]. done. Qed.
Lemma legacyDb_below k : is_Some (findUnique k legacyDb) → k < 2.
Proof. intros [r H]. apply legacyDb_keyed in H as E. change (legacyDb !! k = Some r) in H. unfold legacyDb in H. apply lookup_singleton_Some in H as [<- <-]. lia. Qed.
Lemma legacyDb_legacy k r : findUnique k legacyDb = Some r → hash r = ""%string.
Proof. intros H. change (legacyDb !! k = Some r) in H. unfold legacyDb in H. apply lookup_singleton_Some in H as [<- <-]. done. Qed.

Lemma writes_verify_witness :
  ∃ db', writes digest 2 [sampleEntry "A" 10; sampleEntry "B" 20] legacyDb = Some db' ∧
    valid (verifyChain digest db') = true ∧ entriesChecked (verifyChain digest db') = 2 ∧
    ([sampleEntry "A" 10; sampleEntry "B" 20] ≠ [] → checkpoint (verifyChain digest db') = hash <$> last (rowsOf db')).
Proof.
  destruct (writes_verify (T := Db) digest digest_nonempty 2 [sampleEntry "A" 10; sampleEntry "B" 20] legacyDb
    legacyDb_keyed legacyDb_below legacyDb_legacy) as (db' & H1 & H2 & H3 & H4).
  exists db'. split; [exact H1|]. split; [exact H2|]. split; [exact H3|exact H4].
Defined.

(** The newest of two chained entries was rewritten, and its hash with it. *)
Definition chainedDb (a : string) : Db :=
  default ∅ (writes digest 2 [sampleEntry "A" 10; sampleEntry a 20] legacyDb).
Definition constant (s : string) : string := "same".
Definition forgedDb (a : string) : Db := default ∅ (writes constant 2 [sampleEntry a 10] legacyDb).

Lemma timely_forallb rows : forallb (λ r, validTime (createdAt (entry r))) rows = true → Forall timely rows.
Proof. rewrite forallb_forall, Forall_forall. intros H r Hr. apply H. by apply list_elem_of_In. Qed.

Lemma tampering_evident_witness :
  (valid (verifyChain constant (forgedDb "A")) = true ∧ valid (verifyChain constant (forgedDb "B")) = true) ∧
  (entry <$> List.filter chained (rowsOf (forgedDb "A")) = entry <$> List.filter chained (rowsOf (forgedDb "B")) ∨
   ∃ x y, findCollision (rev (List.filter chained (rowsOf (forgedDb "A")))) (rev (List.filter chained (rowsOf (forgedDb "B")))) = Some (x, y) ∧
     x ≠ y ∧ constant x = constant y).
Proof.
  split; [vm_compute; done|].
  apply (tampering_evident (T := Db) constant (forgedDb "A") (forgedDb "B")).
  - intros s. discriminate.
  - apply timely_forallb. vm_compute. reflexivity.
  - apply timely_forallb. vm_compute. reflexivity.
  - vm_compute. reflexivity.
  - vm_compute. reflexivity.
  - vm_compute. reflexivity.
Defined.

Lemma truncation_verifies_witness : valid (verifyRows digest (take 2 (rowsOf (chainedDb "B")))) = true.
Proof. apply (truncation_verifies digest (rowsOf (chainedDb "B")) 2). vm_compute. reflexivity. Defined.

Lemma unchained_rows_ignored_witness :
  let forged := {| id := 9; entry := sampleEntry "FORGED" 30; prevHash := ""; hash := "" |} in
  verifyRows digest (rowsOf (chainedDb "B") ++ [forged]) = verifyRows digest (rowsOf (chainedDb "B") ++ []).
Proof. cbv zeta. apply (unchained_rows_ignored digest). reflexivity. Defined.

Lemma racing_writes_break_chain_witness :
  ∃ db', createAudit digest (λ db, default db (createAudit digest undisturbed 2 (sampleEntry "A" 10) db)) (2 + 1) (sampleEntry "B" 20) legacyDb = Some db' ∧
    valid (verifyChain digest db') = false ∧ brokenAtId (verifyChain digest db') = Some (2 + 1).
Proof.
  apply (racing_writes_break_chain digest 2 (sampleEntry "A" 10) (sampleEntry "B" 20) legacyDb
    digest_nonempty legacyDb_keyed legacyDb_below legacyDb_legacy).
Defined.

Lemma audit_pages_witness :
  let total := Z.of_nat (length (findMany (λ _, true) (chainedDb "B"))) in
  ∃ rows, StronglySorted (cmp_le (λ a b, createdAt (entry b) - createdAt (entry a))) rows ∧ rows ≡ₚ findMany (λ _, true) (chainedDb "B") ∧
    (∀ n, 1 ≤ n → ∃ res, listAudit None VUndefined (Some (JInt n)) (chainedDb "B") = Ok res ∧
      Pagination.items (page_ res) = slice ((n - 1) * 20) 20 rows ∧
      pagination res = Some (n, 20, total, JInt (pagesOf total 20)) ∧
      (Pagination.hasNextPage (Pagination.pageInfo (page_ res)) = true ↔ drop (Z.to_nat (n * 20)) rows ≠ [])) ∧
    concat (map (λ k, slice (Z.of_nat k * 20) 20 rows) (seq 0 (Z.to_nat (pagesOf total 20)))) = rows.
Proof. apply (audit_pages VUndefined (chainedDb "B")). vm_compute. discriminate. Defined.
