(* ===== verification/Webhooks.v ===== *)
(** * Webhooks

    Inbound: [middleware/webhookSignature.middleware.ts] and
    [routes/webhooks.inbound.routes.ts]. Outbound: [services/webhook.service.ts] and
    [routes/webhooks.routes.ts]. HMAC-SHA256 and SHA-256 (in hex), random bytes and
    the answers of the receivers are arguments; of a response the model keeps the
    status. *)

From S2P Require Import Prelude JsString JsValue Json JsonText Dates Prisma RequestInput.

(** ** The secrets of the providers *)

(** [Object.entries] of a parsed object, whose fields are kept last first. *)
Definition Object_entries (fields : list (string * jsval)) : list (string * jsval) :=
  map (λ k, (k, lookupField k fields)) (rev (remove_dups (map fst fields))).

Notation Registry := (gmap string (list string)).
Definition BAD_REGISTRY : string := "INBOUND_WEBHOOK_SECRETS must be a JSON object of provider -> secret".

Definition secretsOf (value : string) : list string :=
  List.filter (λ s, negb (bool_decide (s = ""%string))) (map trim (split "," value)).

Fixpoint register (entries : list (string * jsval)) (registry : Registry) : result string Registry :=
  match entries with
  | [] => Ok registry
  | (provider, VStr value) :: es =>
      match secretsOf value with
      | [] => Err ("INBOUND_WEBHOOK_SECRETS entry '" +:+ provider +:+ "' is empty")
      | secrets => register es (<[toLowerCase provider := secrets]> registry)
      end
  | (provider, _) :: _ => Err ("INBOUND_WEBHOOK_SECRETS entry '" +:+ provider +:+ "' must be a string")
  end.

(** A text is that of an array exactly when it begins with a bracket. *)
Definition isArrayText (raw : string) : bool := match skipWs raw with String "[" _ => true | _ => false end.

Definition parseWebhookSecrets (raw : option string) : result string Registry :=
  match raw with
  | None => Ok ∅
  | Some raw =>
      if bool_decide (trim raw = ""%string) then Ok ∅
      else match JSON_parse raw with
           | Some (VObj _ fields) => if isArrayText raw then Err BAD_REGISTRY else register (Object_entries fields) ∅
           | _ => Err BAD_REGISTRY
           end
  end.

(** The memoised registry, and the source it was parsed from. *)
Record Memo : Type := { cachedRegistry : option Registry; cachedRegistrySource : option string }.
Definition resetWebhookSecretRegistry : Memo := {| cachedRegistry := None; cachedRegistrySource := None |}.

Definition getSecretRegistry (source : option string) (m : Memo) : result string Registry * Memo :=
  match cachedRegistry m with
  | Some r => if bool_decide (cachedRegistrySource m = source) then (Ok r, m)
              else match parseWebhookSecrets source with
                   | Ok r => (Ok r, {| cachedRegistry := Some r; cachedRegistrySource := source |})
                   | Err e => (Err e, m)
                   end
  | None => match parseWebhookSecrets source with
            | Ok r => (Ok r, {| cachedRegistry := Some r; cachedRegistrySource := source |})
            | Err e => (Err e, m)
            end
  end.

Definition configuredWebhookProviders (r : Registry) : list string := map fst (map_to_list r).

(** ** Verification *)

Inductive Failure : Type :=
| unknown_provider | missing_secret | missing_signature | missing_timestamp
| malformed_timestamp | stale_timestamp | missing_raw_body | invalid_signature.
#[export] Instance Failure_eq_dec : EqDecision Failure. Proof. solve_decision. Defined.

Definition WEBHOOK_SIGNATURE_HEADER : string := "x-webhook-signature".
Definition WEBHOOK_TIMESTAMP_HEADER : string := "x-webhook-timestamp".

Definition FAILURE_MESSAGES (f : Failure) : string :=
  match f with
  | unknown_provider => "Unknown webhook provider"
  | missing_secret => "Webhook provider is not configured for signature verification"
  | missing_signature => "Missing " +:+ WEBHOOK_SIGNATURE_HEADER +:+ " header"
  | missing_timestamp => "Missing " +:+ WEBHOOK_TIMESTAMP_HEADER +:+ " header"
  | malformed_timestamp => "Malformed " +:+ WEBHOOK_TIMESTAMP_HEADER +:+ " header"
  | stale_timestamp => "Webhook timestamp outside the accepted tolerance window"
  | missing_raw_body => "Raw request body unavailable for signature verification"
  | invalid_signature => "Webhook signature verification failed"
  end.

Definition FAILURE_STATUS (f : Failure) : Z :=
  match f with
  | unknown_provider => 404 | missing_secret => 503 | missing_signature => 401 | missing_timestamp => 401
  | malformed_timestamp => 400 | stale_timestamp => 401 | missing_raw_body => 400 | invalid_signature => 401
  end.

(** [string | string[] | undefined] *)
Inductive Header : Type := Absent | One (s : string) | Many (l : list string).
Definition firstHeader (h : Header) : option string :=
  match h with Absent => None | One s => Some s | Many l => head l end.

(** [firstHeader(h)?.trim()], with an empty text counting as none. *)
Definition headerText (h : Header) : option string :=
  s ← firstHeader h; if bool_decide (trim s = ""%string) then None else Some (trim s).

Record InboundRequest : Type := { p_provider : option string; signatureHeader : Header; timestampHeader : Header; rawBody : option string }.

Definition captureRawBody (buf : string) (req : InboundRequest) : InboundRequest :=
  if bool_decide (buf = ""%string) then req
  else {| p_provider := p_provider req; signatureHeader := signatureHeader req; timestampHeader := timestampHeader req; rawBody := Some buf |}.

Record WebhookSignatureOptions : Type := { o_provider : option string; toleranceSeconds : option Z }.

(** [next()], a rejection, or an error thrown for a malformed registry. *)
Inductive Verdict : Type := Pass (provider : string) | Reject (f : Failure) | Throws (m : string).

(** [timingSafeEqual] of texts of one length. *)
Definition digestsMatch (expected provided : string) : bool :=
  if negb (strlen (utf8 expected) =? strlen (utf8 provided))%nat then false else bool_decide (utf8 expected = utf8 provided).

Definition signedText (timestamp body : string) : string := utf8 (timestamp +:+ ".") +:+ body.

Section Inbound.
Context (hmacHex : string → string → string) (INBOUND_WEBHOOK_TOLERANCE_SECONDS : Z).

Definition computeWebhookSignature (secret timestamp body : string) : string := hmacHex secret (signedText timestamp body).

(** The checks after the provider is known, in order. *)
Definition verifySigned (tolerance now : Z) (secrets : list string) (req : InboundRequest) : option Failure :=
  match headerText (signatureHeader req) with
  | None => Some missing_signature
  | Some signature =>
      match headerText (timestampHeader req) with
      | None => Some missing_timestamp
      | Some timestampText =>
          match StringToNumber timestampText with
          | JInt timestamp =>
              if tolerance <? Z.abs (now / 1000 - timestamp) then Some stale_timestamp
              else match rawBody req with
                   | None => Some missing_raw_body
                   | Some body => if existsb (λ s, digestsMatch (computeWebhookSignature s timestampText body) signature) secrets
                                  then None else Some invalid_signature
                   end
          | _ => Some malformed_timestamp
          end
      end
  end.

Definition providerOf (options : WebhookSignatureOptions) (req : InboundRequest) : string :=
  match o_provider options, p_provider req with
  | Some p, _ | None, Some p => toLowerCase (trim p)
  | None, None => ""
  end.

Definition verifyWebhookSignature (options : WebhookSignatureOptions) (source : option string) (now : Z) (req : InboundRequest) (m : Memo)
    : Verdict * Memo :=
  let provider := providerOf options req in
  if bool_decide (provider = ""%string) then (Reject unknown_provider, m)
  else let '(registry, m) := getSecretRegistry source m in
       match registry with
       | Err e => (Throws e, m)
       | Ok registry =>
           match registry !! provider with
           | None | Some [] => (Reject missing_secret, m)
           | Some secrets =>
               match verifySigned (default INBOUND_WEBHOOK_TOLERANCE_SECONDS (toleranceSeconds options)) now secrets req with
               | Some f => (Reject f, m)
               | None => (Pass provider, m)
               end
           end
       end.

(** [POST /webhooks/inbound/:provider] behind the guard: the status, and whether
    and how the provider's handler ran. A handler returns or throws. *)
Definition inboundRoute (handlers : gmap string (string → bool)) (source : option string) (now : Z) (req : InboundRequest) (m : Memo)
    : Z * option bool * Memo :=
  match verifyWebhookSignature {| o_provider := None; toleranceSeconds := None |} source now req m with
  | (Throws _, m) => (500, None, m)
  | (Reject f, m) => (FAILURE_STATUS f, None, m)
  | (Pass _, m) =>
      match (handlers !! toLowerCase (default ""%string (p_provider req)) : option (string → bool)) with
      | None => (202, None, m)
      | Some handler => if handler (default ""%string (rawBody req)) then (200, Some true, m) else (500, Some false, m)
      end
  end.
End Inbound.
Definition registerInboundWebhookHandler (provider : string) (handler : string → bool) (handlers : gmap string (string → bool)) :=
  <[toLowerCase provider := handler]> handlers.

(** ** Delivery *)

Record WebhookConfig : Type := {
  webhookUrl : option string; webhookSecret : option string; maxAttempts : Z; retryBaseMs : Z; retryMaxMs : Z }.
Record DeliveryTarget : Type := { t_url : string; t_secret : option string; t_subscriptionId : option Z }.

(** How an attempt ends: a response with its status, or an error of [fetch]. *)
Inductive Answer : Type := Responded (status : Z) | FetchThrew.
Definition responseOk (status : Z) : bool := (200 <=? status) && (status <=? 299).
Definition retryStatus (status : Z) : bool := (500 <=? status) || (status =? 429).

Inductive DeliveryLog : Type :=
| Dispatched (attempt : Z) | NotOk (attempt status : Z) (shouldRetry : bool) | AttemptFailed (attempt : Z) | FailedAfterRetries.

(** The signature of each request sent, the pauses, and the log. *)
Record Delivery : Type := { requests : list (option string); pauses : list Z; log : list DeliveryLog }.
Definition ended (l : list DeliveryLog) : Delivery := {| requests := []; pauses := []; log := l |}.
Definition sent (signature : option string) (l : list DeliveryLog) (d : Delivery) : Delivery :=
  {| requests := signature :: requests d; pauses := pauses d; log := l ++ log d |}.
Definition paused (ms : Z) (d : Delivery) : Delivery := {| requests := requests d; pauses := ms :: pauses d; log := log d |}.

Record WebhookSubscription : Type := {
  id : Z; url : string; events : list string; secretHash : string; isActive : bool; userId : Z; createdAt : Z }.

Section Outbound.
Context (hmacHex : string → string → string) (cfg : WebhookConfig).

Definition retryDelay (attempt : Z) : Z := Z.min (retryBaseMs cfg * 2 ^ (attempt - 1)) (retryMaxMs cfg).

(** The loop, with [remaining] attempts left; [answers n] is how attempt [n] ends. *)
Fixpoint deliverFrom (remaining : nat) (attempt : Z) (signature : option string) (answers : Z → Answer) : Delivery :=
  match remaining with
  | O => ended [FailedAfterRetries]
  | S remaining =>
      let next := deliverFrom remaining (attempt + 1) signature answers in
      let again := if attempt <? maxAttempts cfg then paused (retryDelay attempt) next else next in
      match answers attempt with
      | Responded status =>
          if responseOk status then sent signature [Dispatched attempt] (ended [])
          else let shouldRetry := retryStatus status in
               if negb shouldRetry || (attempt =? maxAttempts cfg) then sent signature [NotOk attempt status shouldRetry] (ended [])
               else sent signature [NotOk attempt status shouldRetry] again
      | FetchThrew => sent signature [AttemptFailed attempt] again
      end
  end.

Definition signatureOf (target : DeliveryTarget) (body : string) : option string :=
  match t_secret target with None | Some ""%string => None | Some s => Some (hmacHex s body) end.

Definition sendWebhookWithRetry (target : DeliveryTarget) (body : string) (answers : Z → Answer) : Delivery :=
  deliverFrom (Z.to_nat (maxAttempts cfg)) 1 (signatureOf target body) answers.

Section Dispatch.
Context {T : Type} `{!Table Z WebhookSubscription T}.

Definition eventOf (status : string) : string := "trade." +:+ toLowerCase status.
Definition subscribed (event : string) (s : WebhookSubscription) : bool := isActive s && bool_decide (event ∈ events s).

Definition deliveryTargets (event : string) (subscriptions : T) : list DeliveryTarget :=
  map (λ s, {| t_url := url s; t_secret := Some (secretHash s); t_subscriptionId := Some (id s) |}) (findMany (subscribed event) subscriptions) ++
  match webhookUrl cfg with
  | None | Some ""%string => []
  | Some u => [{| t_url := u; t_secret := webhookSecret cfg; t_subscriptionId := None |}]
  end.

Definition payloadOf (tradeId status : string) (now : Z) (metadata : Doc) : Doc :=
  DObj [("event"%string, DStr (eventOf status)); ("tradeId"%string, DStr tradeId); ("status"%string, DStr status);
        ("timestamp"%string, DStr (toISOString now)); ("data"%string, metadata)].

(** Every delivery settles, and [allSettled] never rejects. *)
Definition dispatch (tradeId status : string) (metadata : Doc) (now : Z) (subscriptions : T) (answers : DeliveryTarget → Z → Answer)
    : list (DeliveryTarget * string * Delivery) :=
  let body := JSON_stringify (payloadOf tradeId status now metadata) in
  map (λ t, (t, body, sendWebhookWithRetry t body (answers t))) (deliveryTargets (eventOf status) subscriptions).
End Dispatch.
End Outbound.

(** ** Subscriptions *)

Record User : Type := { u_id : Z; u_walletAddress : string }.

(** The answer of a route: a status, and for a creation the subscription and its secret. *)
Inductive RouteAnswer : Type := Status (code : Z) | Created (s : WebhookSubscription) (secret : string) | Listed (l : list WebhookSubscription).
Definition answerStatus (a : RouteAnswer) : Z := match a with Status c => c | Created _ _ => 201 | Listed _ => 200 end.

Section Subscriptions.
Context {T TU : Type} `{!Table Z WebhookSubscription T} `{!Table string User TU} (sha256Hex : string → string).

Definition hashSecret (secret : string) : string := sha256Hex secret.

Definition getUserIdFromWallet (walletAddress : string) (users : TU) : option Z :=
  u_id <$> (findUnique (toLowerCase walletAddress) users : option User).

(** The caller's user: nobody, no such user (also one with the id 0), or the id. *)
Definition callerOf (wallet : option string) (users : TU) : RouteAnswer + Z :=
  match wallet with
  | None | Some ""%string => inl (Status 401)
  | Some w => match getUserIdFromWallet w users with None | Some 0 => inl (Status 404) | Some u => inr u end
  end.

(** [POST /webhooks], on a body that passed [validateRequest]; a column too long for
    its type is refused by the database. *)
Definition createWebhook (wallet : option string) (url : string) (events : list string) (secret : option string)
    (generated : string) (newId now : Z) (users : TU) (db : T) : RouteAnswer * T :=
  match callerOf wallet users with
  | inl a => (a, db)
  | inr userId =>
      let webhookSecret := match secret with None | Some ""%string => generated | Some s => s end in
      let row := {| id := newId; url := url; events := events; secretHash := hashSecret webhookSecret; isActive := true;
                    userId := userId; createdAt := now |} in
      if (500 <? strlen url)%nat || (64 <? strlen (hashSecret webhookSecret))%nat then (Status 500, db)
      else match create newId row db with
           | None => (Status 500, db)
           | Some db' => (Created row webhookSecret, db')
           end
  end.

Definition newestFirst (a b : WebhookSubscription) : Z := createdAt b - createdAt a.
Definition listWebhooks (wallet : option string) (users : TU) (db : T) : RouteAnswer :=
  match callerOf wallet users with
  | inl a => a
  | inr u => Listed (js_sort newestFirst (findMany (λ s, userId s =? u) db))
  end.

(** [DELETE /webhooks/:id]; [between] is what others commit before the delete. An id
    beyond 32 bits is refused by the client, a row that is gone by the database. *)
Definition deleteWebhook (wallet : option string) (webhookId : Z) (between : T → T) (users : TU) (db : T) : RouteAnswer * T :=
  match callerOf wallet users with
  | inl a => (a, db)
  | inr u =>
      if 2147483647 <? webhookId then (Status 500, db)
      else match findUnique webhookId db with
           | None => (Status 404, db)
           | Some s => if negb (userId s =? u) then (Status 403, db)
                       else let '(n, db') := deleteMany (λ r, id r =? webhookId) (between db) in
                            if n =? 0 then (Status 500, between db) else (Status 200, db')
           end
  end.
End Subscriptions.

(** ** The guard admits exactly the authentic requests *)

Lemma digestsMatch_eq a b : digestsMatch a b = bool_decide (a = b).
Proof.
  unfold digestsMatch. destruct (decide (a = b)) as [->|Hn].
  - rewrite Nat.eqb_refl, !bool_decide_true; done.
  - rewrite !bool_decide_false; [by destruct (_ =? _)%nat|done|]. by intros H%utf8_inj.
Qed.

(** The memo holds what parsing its source gives. *)
Definition memo_ok (m : Memo) : Prop := ∀ r, cachedRegistry m = Some r → parseWebhookSecrets (cachedRegistrySource m) = Ok r.

Lemma getSecretRegistry_spec source m : memo_ok m →
  (getSecretRegistry source m).1 = parseWebhookSecrets source ∧ memo_ok (getSecretRegistry source m).2.
Proof.
  intros Hm. unfold getSecretRegistry. destruct (cachedRegistry m) as [r|] eqn:Hr.
  - case_bool_decide as Hs; [subst source; rewrite (Hm r Hr); done|].
    destruct (parseWebhookSecrets source) as [r'|e] eqn:Hp; split; try done. by intros ? [= <-].
  - destruct (parseWebhookSecrets source) as [r'|e] eqn:Hp; split; try done. by intros ? [= <-].
Qed.

Section InboundFacts.
Context (hmacHex : string → string → string) (tolerance : Z).
Notation verify := (verifyWebhookSignature hmacHex tolerance).

(** A signature of this body under a current timestamp, by one of the secrets. *)
Definition authentic (window now : Z) (secrets : list string) (req : InboundRequest) : Prop :=
  ∃ signature timestampText timestamp body secret,
    headerText (signatureHeader req) = Some signature ∧ headerText (timestampHeader req) = Some timestampText ∧
    StringToNumber timestampText = JInt timestamp ∧ Z.abs (now / 1000 - timestamp) ≤ window ∧
    rawBody req = Some body ∧ secret ∈ secrets ∧ signature = hmacHex secret (signedText timestampText body).

Lemma verifySigned_None window now secrets req : verifySigned hmacHex window now secrets req = None ↔ authentic window now secrets req.
Proof.
  unfold verifySigned, authentic. destruct (headerText (signatureHeader req)) as [sg|]; [|naive_solver].
  destruct (headerText (timestampHeader req)) as [ts|]; [|naive_solver].
  destruct (StringToNumber ts) as [z|?| | |] eqn:Ez; try (split; [done|]; intros (? & ? & ? & ? & ? & ? & ? & ? & ? & _); congruence).
  destruct (Z.ltb_spec window (Z.abs (now / 1000 - z))); [split; [done|]; intros (? & ? & t & ? & ? & ? & Ht & Hz & Hw & _); assert (t = z) as -> by congruence; lia|].
  destruct (rawBody req) as [b|]; [|naive_solver]. destruct (existsb _ secrets) eqn:He.
  - split; [intros _|done]. apply existsb_exists in He as (s & Hs & He). rewrite digestsMatch_eq in He. apply bool_decide_eq_true in He.
    exists sg, ts, z, b, s. rewrite list_elem_of_In. done.
  - split; [done|]. intros (sg' & ts' & ? & b' & s & E1 & E2 & _ & _ & E3 & Hs & Hx). exfalso.
    assert (sg' = sg ∧ ts' = ts ∧ b' = b) as (-> & -> & ->) by (split_and!; congruence). apply not_true_iff_false in He. apply He.
    apply existsb_exists. exists s. rewrite <-list_elem_of_In, digestsMatch_eq, bool_decide_true; done.
Qed.

(** The guard lets a request through exactly when its provider has secrets and
    one of them signs the body and a timestamp within the window; a provider without
    secrets is never waved through, and everything refused has a status of 4xx or 503. *)
Theorem inbound_guard options source now req m : memo_ok m →
  let '(v, m') := verify options source now req m in memo_ok m' ∧
  (v = Pass (providerOf options req) ↔ providerOf options req ≠ ""%string ∧
    ∃ registry secrets, parseWebhookSecrets source = Ok registry ∧ registry !! providerOf options req = Some secrets ∧
      authentic (default tolerance (toleranceSeconds options)) now secrets req) ∧
  match v with
  | Pass p => p = providerOf options req
  | Reject f => 400 ≤ FAILURE_STATUS f < 500 ∨ FAILURE_STATUS f = 503
  | Throws e => parseWebhookSecrets source = Err e
  end.
Proof.
  intros Hm. unfold verifyWebhookSignature. destruct (getSecretRegistry_spec source m Hm) as [Hr Hm'].
  case_bool_decide as Hp; [split_and!; [done|naive_solver|cbn; lia]|].
  destruct (getSecretRegistry source m) as [rg m'] eqn:Eg. cbn [fst snd] in Hr, Hm'.
  destruct rg as [rg|e]; [|split_and!; [done| |done]; split; [done|]; intros (_ & ? & ? & H & _); congruence].
  destruct (rg !! providerOf options req) as [ss|] eqn:Hl.
  2: { split_and!; [done| |cbn; lia]. split; [done|]. intros (_ & r & ? & H1 & H2 & _). congruence. }
  assert (authentic (default tolerance (toleranceSeconds options)) now ss req ↔
    providerOf options req ≠ ""%string ∧ ∃ registry secrets, parseWebhookSecrets source = Ok registry ∧
      registry !! providerOf options req = Some secrets ∧ authentic (default tolerance (toleranceSeconds options)) now secrets req) as Ha.
  { split; [eauto 10|]. intros (_ & r & ss' & H1 & H2 & H3). congruence. }
  destruct ss as [|s ss].
  - split_and!; [done| |cbn; lia]. rewrite <-Ha. split; [done|]. intros (? & ? & ? & ? & ? & _ & _ & _ & _ & _ & H & _). by apply elem_of_nil in H.
  - pose proof (verifySigned_None (default tolerance (toleranceSeconds options)) now (s :: ss) req) as Hv.
    destruct (verifySigned _ _ _ _ _) as [f|]; (split_and!; [done|rewrite <-Ha, <-Hv; done|]); [|done]. destruct f; cbn; lia.
Qed.
End InboundFacts.

(** ** A signature is good for one body and one timestamp *)

Definition brace (c : ascii) : bool := Ascii.eqb c "{" || Ascii.eqb c "[".
Definition braceless (s : string) : bool := str_forall (λ c, negb (brace c)) s.

Lemma digitIn_brace b c : brace c = true → digitIn b c = None.
Proof. unfold brace. rewrite orb_true_iff, !Ascii.eqb_eq. intros [-> | ->]; unfold digitIn, Z.ltb; simpl; by rewrite Z.compare_refl. Qed.

Lemma spanDigits_braceless b s acc len v n r : spanDigits b s acc len = (v, n, r) → braceless r = true → braceless s = true.
Proof.
  revert acc len. induction s as [|c s IH]; intros acc len H Hr; [done|]. cbn in H. destruct (digitIn b c) as [d|] eqn:Hd.
  - cbn. apply andb_true_iff. split; [|by eapply IH]. apply negb_true_iff, not_true_iff_false. intros Hb%(digitIn_brace b). congruence.
  - by injection H as <- <- <-.
Qed.

Lemma braceless_cons c s : braceless (String c s) = true ↔ brace c = false ∧ braceless s = true.
Proof. unfold braceless. cbn. by rewrite andb_true_iff, negb_true_iff. Qed.

Lemma braceless_signed s : braceless (signed s).2 = true → braceless s = true.
Proof.
  destruct s as [|c s]; [done|]. destruct (decide (c = "-"%char)) as [->|]; [intros H; by apply braceless_cons|].
  destruct (decide (c = "+"%char)) as [->|]; [intros H; by apply braceless_cons|].
  assert (signed (String c s) = (false, String c s)) as -> by (by destruct c as [[] [] [] [] [] [] [] []]). done.
Qed.

Lemma unsignedDecimal_braceless s p : unsignedDecimal s = Some p → braceless s = true.
Proof.
  unfold unsignedDecimal. destruct (spanDigits 10 s 0 0) as [[ip ni] r1] eqn:E1. intros H. eapply spanDigits_braceless; [exact E1|].
  set (tl := match r1 with String "."%char r => spanDigits 10 r ip 0 | _ => (ip, 0%nat, r1) end) in H.
  destruct tl as [[m nf] r2] eqn:E2.
  assert (braceless r2 = true → braceless r1 = true) as Hr.
  { destruct r1 as [|c r1]; [done|]. destruct (decide (c = "."%char)) as [->|Hc].
    - cbn in E2. intros Hr. apply braceless_cons. split; [done|]. by eapply spanDigits_braceless.
    - assert (tl = (ip, 0%nat, String c r1)) as Ht by (subst tl; destruct c as [[] [] [] [] [] [] [] []]; try reflexivity; by destruct Hc).
      rewrite Ht in E2. by injection E2 as <- <- <-. }
  apply Hr. clear Hr E2. destruct (_ =? 0)%nat; [done|]. destruct r2 as [|c r3]; [done|].
  destruct (Ascii.eqb c "e" || Ascii.eqb c "E") eqn:Hc; [|done]. apply braceless_cons. split.
  { apply orb_true_iff in Hc. rewrite !Ascii.eqb_eq in Hc. by destruct Hc as [-> | ->]. }
  destruct (signed r3) as [neg r4] eqn:Es. destruct (spanDigits 10 r4 0 0) as [[e ne] r5] eqn:E5.
  destruct ((ne =? 0)%nat || negb (bool_decide (r5 = ""%string))) eqn:Hz; [discriminate H|]. apply orb_false_iff in Hz as [_ Hz].
  apply negb_false_iff, bool_decide_eq_true in Hz. subst r5.
  apply braceless_signed. rewrite Es. by eapply spanDigits_braceless.
Qed.

Lemma radixLiteral_braceless b s z : radixLiteral b s = JInt z → braceless s = true.
Proof.
  unfold radixLiteral. destruct (spanDigits b s 0 0) as [[v n] r] eqn:E. destruct (_ || _) eqn:Hz; [discriminate|]. intros _.
  apply orb_false_iff in Hz as [_ Hz]. apply negb_false_iff, bool_decide_eq_true in Hz. subst r. by eapply spanDigits_braceless.
Qed.

Lemma decimal_braceless s z :
  (let '(neg, u) := signed s in
   let v := if bool_decide (u = "Infinity"%string) then JPosInf
            else match unsignedDecimal u with
                 | Some (m, e) => roundDouble (m * 10 ^ Z.max 0 e) (10 ^ Z.max 0 (- e))
                 | None => JNaN
                 end in if neg then jneg v else v) = JInt z → braceless s = true.
Proof.
  intros H. apply braceless_signed. destruct (signed s) as [neg u]. cbn [snd]. destruct (unsignedDecimal u) as [p|] eqn:Hu; [by eapply unsignedDecimal_braceless|].
  cbv zeta in H. destruct neg, (bool_decide (u = "Infinity"%string)); discriminate H.
Qed.

Lemma trim_braceless s : braceless (trim s) = true → braceless s = true.
Proof.
  assert (∀ c, is_space c = true → brace c = false) as Hs by (intros c; by destruct c as [[] [] [] [] [] [] [] []]).
  assert (∀ t, braceless (trimEnd t) = true → braceless t = true) as He.
  { induction t as [|c t IH]; [done|]. cbn [trimEnd]. destruct (trimEnd t) as [|d u] eqn:Et.
    - destruct (is_space c) eqn:Hc; intros H; apply braceless_cons; (split; [|by apply IH]); [by apply Hs|by apply braceless_cons in H as [? _]].
    - intros [H1 H2]%braceless_cons. apply braceless_cons. split; [done|by apply IH]. }
  intros H%He. revert H. induction s as [|c s IH]; [done|]. cbn [trimStart]. destruct (is_space c) eqn:Hc; [|done].
  intros H. apply braceless_cons. split; [by apply Hs|by apply IH].
Qed.

Lemma number_braceless s z : StringToNumber s = JInt z → braceless s = true.
Proof.
  intros H. apply trim_braceless. revert H. unfold StringToNumber. destruct (trim s) as [|c t]; [done|].
  destruct (decide (c = "0"%char)) as [->|Hc].
  - destruct t as [|d t]; [done|].
    destruct (decide (d ∈ ["x"; "X"; "o"; "O"; "b"; "B"]%char)) as [Hd|Hd].
    + intros H. apply braceless_cons. split; [done|]. apply braceless_cons.
      repeat (apply elem_of_cons in Hd as [-> | Hd]; [split; [done|]; revert H; apply radixLiteral_braceless|]). by apply elem_of_nil in Hd.
    + intros H. apply (decimal_braceless _ z). revert H.
      destruct d as [[] [] [] [] [] [] [] []]; try (intros H; exact H); exfalso; apply Hd; repeat (first [left|right]).
  - intros H. apply (decimal_braceless _ z). revert H. destruct c as [[] [] [] [] [] [] [] []]; try (intros H; exact H); by destruct Hc.
Qed.

(** A body the JSON parser accepts: an object or an array. *)
Definition jsonBody (b : string) : bool := match skipWs b with String c _ => brace c | EmptyString => false end.

Lemma jsonBody_split b : jsonBody b = true → ∃ w c r, b = (w +:+ String c r)%string ∧ str_forall isJsonSpace w = true ∧ brace c = true.
Proof.
  unfold jsonBody. induction b as [|c b IH]; [done|]. cbn [skipWs]. destruct (isJsonSpace c) eqn:Hc.
  - intros (w & d & r & -> & Hw & Hd)%IH. exists (String c w), d, r. cbn. by rewrite Hc.
  - intros Hb. by exists ""%string, c, b.
Qed.

Lemma space_plain w : str_forall isJsonSpace w = true → braceless w = true ∧ lacks "." w.
Proof.
  intros Hw. split; unfold lacks; revert Hw; apply str_forall_impl; intros c; by destruct c as [[] [] [] [] [] [] [] []].
Qed.

Lemma utf8_app s t : utf8 (s +:+ t) = (utf8 s +:+ utf8 t)%string.
Proof.
  induction s as [|c s IH]; [done|]. rewrite app_cons_str. cbn [utf8]. rewrite IH. unfold utf8Char. by destruct (_ <? 128)%N.
Qed.

Lemma utf8_braceless s : braceless s = true → braceless (utf8 s) = true.
Proof.
  induction s as [|c s IH]; [done|]. intros [Hc Hs]%braceless_cons. cbn [utf8]. unfold utf8Char.
  destruct (N.ltb_spec (N_of_ascii c) 128); [by apply braceless_cons; auto|].
  assert (brace (ascii_of_N (192 + N_of_ascii c / 64)) = false ∧ brace (ascii_of_N (128 + N_of_ascii c mod 64)) = false) as [H1 H2].
  { revert H; clear; destruct c as [[] [] [] [] [] [] [] []]; vm_compute; intros H; first [done|by destruct H]. }
  apply braceless_cons. split; [done|]. apply braceless_cons. auto.
Qed.

(** The signed text of a numeric timestamp and a JSON body determines both. *)
Lemma signedText_inj t t' b b' : braceless t = true → braceless t' = true → jsonBody b = true → jsonBody b' = true →
  signedText t b = signedText t' b' → t = t' ∧ b = b'.
Proof.
  intros Ht Ht' (w & c & r & -> & Hw & Hc)%jsonBody_split (w' & c' & r' & -> & Hw' & Hc')%jsonBody_split.
  apply space_plain in Hw as [Hw1 Hw2], Hw' as [Hw1' Hw2']. unfold signedText. rewrite !utf8_app. change (utf8 ".") with "."%string.
  rewrite !app_assoc_str. cbn [append]. intros H.
  assert (∀ u v, braceless u = true → braceless v = true → braceless (u +:+ String "." v) = true) as Hb.
  { intros u v Hu Hv. unfold braceless in *. rewrite str_forall_app, Hu. done. }
  change (utf8 t +:+ String "." (w +:+ String c r) = utf8 t' +:+ String "." (w' +:+ String c' r'))%string in H.
  assert ((utf8 t +:+ String "." w) +:+ String c r = (utf8 t' +:+ String "." w') +:+ String c' r')%string as H' by (by rewrite !app_assoc_str).
  apply (split_first_unique brace) in H' as [H1 H2]; [|by apply Hb; auto using utf8_braceless..|done|done].
  apply split_last_unique in H1 as [H1%utf8_inj ->]; [|done|done]. by rewrite H2.
Qed.

Section Capture.
Context (hmacHex : string → string → string).

(** The keyed texts a request with a body can be signed as, under the accepted secrets. *)
Definition keyedText (secrets : list string) (req : InboundRequest) (p : string * string) : Prop :=
  ∃ secret timestampText body, secret ∈ secrets ∧ headerText (timestampHeader req) = Some timestampText ∧
    rawBody req = Some body ∧ p = (secret, signedText timestampText body).

(** C32: a captured signature is good for nothing but the very timestamp and body it was
    made for, and so only within twice the window; or the two requests are themselves,
    under the accepted secrets, two different keyed texts with one digest. *)
Theorem captured_signature window now now' secrets secrets' req req' :
  verifySigned hmacHex window now secrets req = None → verifySigned hmacHex window now' secrets' req' = None →
  headerText (signatureHeader req) = headerText (signatureHeader req') →
  (∀ b, rawBody req = Some b ∨ rawBody req' = Some b → jsonBody b = true) →
  (headerText (timestampHeader req) = headerText (timestampHeader req') ∧ rawBody req = rawBody req' ∧
   Z.abs (now / 1000 - now' / 1000) ≤ 2 * window) ∨
  ∃ p p', keyedText secrets req p ∧ keyedText secrets' req' p' ∧ p ≠ p' ∧ hmacHex p.1 p.2 = hmacHex p'.1 p'.2.
Proof.
  rewrite !verifySigned_None.
  intros (sg & ts & z & b & s & Hsg & Hts & Hz & Hw & Hb & Hi & ->) (sg' & ts' & z' & b' & s' & Hsg' & Hts' & Hz' & Hw' & Hb' & Hi' & ->) Hs Hj.
  destruct (decide ((s, signedText ts b) = (s', signedText ts' b'))) as [E|E].
  - left. injection E as -> E. apply signedText_inj in E as [-> ->]; [|by eapply number_braceless..|by apply Hj; auto|by apply Hj; auto].
    rewrite Hts, Hts', Hb, Hb'. split_and!; [done..|]. assert (z' = z) as -> by congruence. lia.
  - right. exists (s, signedText ts b), (s', signedText ts' b'). split_and!; [by exists s, ts, b|by exists s', ts', b'|exact E|].
    cbn. congruence.
Qed.
End Capture.

(** ** The registry reads what was configured *)

Lemma remove_dups_id {A} `{EqDecision A} (l : list A) : NoDup l → remove_dups l = l.
Proof. induction 1 as [|x l Hx _ IH]; [done|]. cbn. destruct (decide_rel _ x l); [done|]. by rewrite IH. Qed.

Lemma lookupField_in k v (fs : list (string * jsval)) : NoDup fs.*1 → (k, v) ∈ fs → lookupField k fs = v.
Proof.
  induction fs as [|[k' v'] fs IH]; intros Hn Hin; [by apply elem_of_nil in Hin|]. cbn in *. inversion Hn as [|?? Hk Hn']; subst.
  apply elem_of_cons in Hin as [[= <- <-]|Hin]; [by rewrite bool_decide_true|].
  rewrite bool_decide_false; [by apply IH|]. intros ->. apply Hk. apply list_elem_of_fmap. by exists (k', v).
Qed.

Lemma Object_entries_rev (m : list (string * jsval)) : NoDup m.*1 → Object_entries (rev m) = m.
Proof.
  intros Hn. assert (NoDup (rev m).*1) as Hr.
  { rewrite <-Permutation_rev. exact Hn. }
  unfold Object_entries. change (map fst (rev m)) with (rev m).*1. rewrite remove_dups_id by done. rewrite <-List.map_rev, rev_involutive, map_map.
  rewrite <-(map_id m) at 2. apply map_ext_in. intros [k v] Hin%list_elem_of_In. cbn. f_equal.
  apply lookupField_in; [done|]. apply list_elem_of_In. rewrite <-in_rev. by apply list_elem_of_In.
Qed.

(** What stands for a provider and its secrets in the configuration. *)
Definition entryOf (p : string * list string) : string * jsval := (p.1, VStr (join "," p.2)).
Definition plainSecret (s : string) : Prop := s ≠ ""%string ∧ trim s = s ∧ lacks "," s.
Definition configText (ps : list (string * list string)) : string := JSON_stringify (DObj (map (λ p, (p.1, DStr (join "," p.2))) ps)).

Lemma secretsOf_join ss : ss ≠ [] → Forall plainSecret ss → secretsOf (join "," ss) = ss.
Proof.
  intros Hn Hs. unfold secretsOf. rewrite split_join; [|done|by eapply Forall_impl; [exact Hs|]; intros s (_ & _ & ?)].
  clear Hn. induction Hs as [|s ss (H1 & H2 & _) _ IH]; [done|]. cbn. rewrite H2, bool_decide_false by done. cbn. by rewrite IH.
Qed.

Lemma register_entries ps registry : Forall (λ p, p.2 ≠ [] ∧ Forall plainSecret p.2) ps → NoDup (map (λ p, toLowerCase p.1) ps) →
  ∃ r, register (map entryOf ps) registry = Ok r ∧
    ∀ k, r !! k = match List.find (λ p, bool_decide (toLowerCase p.1 = k)) ps with Some p => Some p.2 | None => registry !! k end.
Proof.
  intros Hp. revert registry. induction Hp as [|[p ss] ps [Hne Hss] _ IH]; intros registry Hn; [by exists registry|].
  cbn [map entryOf register fst snd] in *. rewrite secretsOf_join by done. destruct ss as [|s ss]; [done|]. inversion Hn as [|?? Hx Hn']; subst.
  destruct (IH (<[toLowerCase p := s :: ss]> registry) Hn') as (r & -> & Hr). exists r. split; [done|]. intros k. rewrite Hr. cbn [List.find fst].
  case_bool_decide as Hk; [subst k|].
  - destruct (List.find _ ps) as [q|] eqn:Hf; [|by rewrite lookup_insert_eq]. apply find_some in Hf as [Hq He]. exfalso. apply Hx.
    apply bool_decide_eq_true in He. rewrite <-He. apply list_elem_of_fmap. exists q. split; [done|]. by apply list_elem_of_In.
  - destruct (List.find _ ps); [done|]. by rewrite lookup_insert_ne.
Qed.

(** A configuration of providers with their overlapping secrets, written as JSON,
    is read back: each provider, in any case, gets exactly its secrets. *)
Theorem registry_roundtrip ps : Forall (λ p, p.2 ≠ [] ∧ Forall plainSecret p.2) ps → NoDup (map (λ p, toLowerCase p.1) ps) →
  ∃ r, parseWebhookSecrets (Some (configText ps)) = Ok r ∧
    ∀ k, r !! k = snd <$> List.find (λ p, bool_decide (toLowerCase p.1 = k)) ps.
Proof.
  intros Hp Hn. destruct (register_entries ps ∅ Hp Hn) as (r & Hr & Hk). exists r. split.
  2: { intros k. rewrite Hk. destruct (List.find _ ps); [done|]. by rewrite lookup_empty. }
  set (d := DObj (map (λ p, (p.1, DStr (join "," p.2))) ps)).
  assert (exact d) as Hd by (apply exact_obj, Forall_map, Forall_true; done).
  assert (∃ t, JSON_stringify d = String "{" t) as [t Ht].
  { unfold JSON_stringify, d. destruct ps as [|[p ss] ps]; [by eexists|]. cbn [map fst snd]. rewrite docText_obj. by eexists. }
  pose proof (JSON_roundtrip d Hd) as Hj. unfold parseWebhookSecrets, configText. fold d.
  assert (trim (JSON_stringify d) ≠ ""%string) as Htrim.
  { rewrite Ht. unfold trim. rewrite trimStart_id by done. cbn [trimEnd]. by destruct (trimEnd t). }
  assert (isArrayText (JSON_stringify d) = false) as Ha by (by rewrite Ht).
  rewrite bool_decide_false by done. rewrite Hj, Ha. change (docValue d) with (VObj None (rev (map (λ p, (p.1, docValue p.2)) (map (λ p, (p.1, DStr (join "," p.2))) ps)))).
  rewrite map_map. cbn [fst snd docValue]. change (map _ ps) with (map entryOf ps). rewrite Object_entries_rev; [done|].
  assert (NoDup (map fst ps)) as Hf.
  { clear -Hn. revert Hn. change (map (λ p, toLowerCase p.1) ps) with ((λ p : string * list string, toLowerCase p.1) <$> ps).
    intros Hn. apply (NoDup_fmap_1 toLowerCase). rewrite <-list_fmap_compose. exact Hn. }
  change ((map entryOf ps).*1) with (map fst (map entryOf ps)). rewrite map_map. exact Hf.
Qed.

(** ** Deliveries are bounded *)

Section DeliveryFacts.
Context (hmacHex : string → string → string) (cfg : WebhookConfig).

(** An answer after which the loop goes on, if it may. *)
Definition retryable (a : Answer) : bool :=
  match a with Responded s => negb (responseOk s) && retryStatus s | FetchThrew => true end.

(** How many attempts are made, of [remaining] from [attempt] on. *)
Fixpoint attemptsMade (answers : Z → Answer) (remaining : nat) (attempt : Z) : nat :=
  match remaining with
  | O => 0
  | S r => if retryable (answers attempt) then S (attemptsMade answers r (attempt + 1)) else 1
  end.

Definition noteOf (answers : Z → Answer) (i : Z) : DeliveryLog :=
  match answers i with
  | Responded s => if responseOk s then Dispatched i else NotOk i s (retryStatus s)
  | FetchThrew => AttemptFailed i
  end.
Definition gaveUp (a : Answer) : list DeliveryLog := match a with FetchThrew => [FailedAfterRetries] | Responded _ => [] end.

Lemma deliverFrom_eq signature answers r attempt : attempt + Z.of_nat r = maxAttempts cfg →
  let n := attemptsMade answers (S r) attempt in
  deliverFrom cfg (S r) attempt signature answers =
    {| requests := replicate n signature; pauses := map (retryDelay cfg) (seqZ attempt (Z.of_nat n - 1));
       log := map (noteOf answers) (seqZ attempt (Z.of_nat n)) ++ gaveUp (answers (attempt + Z.of_nat n - 1)) |}.
Proof.
  revert attempt. induction r as [|r IH]; intros attempt Hm n.
  - assert (n = 1%nat) as -> by (unfold n; cbn [attemptsMade]; by destruct (retryable _)). replace (attempt + Z.of_nat 1 - 1) with attempt by lia.
    rewrite (seqZ_cons attempt (Z.of_nat 1)) by lia. cbn [deliverFrom map]. replace (attempt =? maxAttempts cfg) with true by lia.
    replace (attempt <? maxAttempts cfg) with false by lia. unfold noteOf.
    destruct (answers attempt) as [s|]; [rewrite orb_true_r; destruct (responseOk s)|]; reflexivity.
  - specialize (IH (attempt + 1) ltac:(lia)). cbn zeta in IH. set (next := deliverFrom cfg (S r) (attempt + 1) signature answers) in *.
    change (deliverFrom cfg (S (S r)) attempt signature answers) with (match answers attempt with
      | Responded status => if responseOk status then sent signature [Dispatched attempt] (ended [])
          else if negb (retryStatus status) || (attempt =? maxAttempts cfg) then sent signature [NotOk attempt status (retryStatus status)] (ended [])
               else sent signature [NotOk attempt status (retryStatus status)] (if attempt <? maxAttempts cfg then paused (retryDelay cfg attempt) next else next)
      | FetchThrew => sent signature [AttemptFailed attempt] (if attempt <? maxAttempts cfg then paused (retryDelay cfg attempt) next else next) end).
    replace (attempt =? maxAttempts cfg) with false by lia. replace (attempt <? maxAttempts cfg) with true by lia.
    pose proof (eq_refl (noteOf answers attempt)) as Hnote. unfold noteOf at 2 in Hnote.
    assert (1 ≤ attemptsMade answers (S r) (attempt + 1))%nat as Hn by (cbn [attemptsMade]; destruct (retryable _); lia).
    destruct (retryable (answers attempt)) eqn:Ha.
    + assert (n = S (attemptsMade answers (S r) (attempt + 1))) as -> by (unfold n; change (attemptsMade answers (S (S r)) attempt)
        with (if retryable (answers attempt) then S (attemptsMade answers (S r) (attempt + 1)) else 1%nat); by rewrite Ha).
      revert IH Hn. generalize (attemptsMade answers (S r) (attempt + 1)). intros m -> Hm'.
      rewrite (seqZ_cons attempt (Z.of_nat (S m) - 1)), (seqZ_cons attempt (Z.of_nat (S m))) by lia. cbn [map].
      replace (attempt + Z.of_nat (S m) - 1) with (attempt + 1 + Z.of_nat m - 1) by lia.
      replace (Z.pred (Z.of_nat (S m) - 1)) with (Z.of_nat m - 1) by lia. replace (Z.pred (Z.of_nat (S m))) with (Z.of_nat m) by lia.
      rewrite Hnote. cbn in Ha. destruct (answers attempt) as [s|]; [|reflexivity]. apply andb_true_iff in Ha as [Ho Hs].
      apply negb_true_iff in Ho. rewrite orb_false_r, Ho, Hs. reflexivity.
    + assert (n = 1%nat) as -> by (unfold n; change (attemptsMade answers (S (S r)) attempt)
        with (if retryable (answers attempt) then S (attemptsMade answers (S r) (attempt + 1)) else 1%nat); by rewrite Ha).
      replace (attempt + Z.of_nat 1 - 1) with attempt by lia. rewrite (seqZ_cons attempt (Z.of_nat 1)) by lia. cbn [map]. rewrite Hnote.
      destruct (answers attempt) as [s|]; [|done]. cbn in Ha. rewrite orb_false_r. destruct (responseOk s); [reflexivity|]. cbn in Ha. rewrite Ha. reflexivity.
Qed.

Lemma attemptsMade_spec answers r attempt : let n := attemptsMade answers r attempt in
  (n ≤ r)%nat ∧ (1 ≤ r → 1 ≤ n)%nat ∧ (∀ i, attempt ≤ i < attempt + Z.of_nat n - 1 → retryable (answers i) = true) ∧
  ((n < r)%nat → retryable (answers (attempt + Z.of_nat n - 1)) = false).
Proof.
  revert attempt. induction r as [|r IH]; intros attempt; cbn [attemptsMade]; [split_and!; intros; lia|].
  destruct (retryable (answers attempt)) eqn:Ha; [|split_and!; try lia; intros; by replace (attempt + Z.of_nat 1 - 1) with attempt by lia].
  destruct (IH (attempt + 1)) as (H1 & H2 & H3 & H4). split_and!; try lia.
  - intros i Hi. destruct (decide (i = attempt)) as [->|]; [done|]. apply H3. lia.
  - intros Hn. replace (attempt + Z.of_nat (S (attemptsMade answers r (attempt + 1))) - 1)
      with (attempt + 1 + Z.of_nat (attemptsMade answers r (attempt + 1)) - 1) by lia. apply H4. lia.
Qed.

Lemma delivery_log hmacHex' target body answers : 1 ≤ maxAttempts cfg →
  ∃ n : nat, log (sendWebhookWithRetry hmacHex' cfg target body answers) = map (noteOf answers) (seqZ 1 (Z.of_nat n)) ++ gaveUp (answers (Z.of_nat n)).
Proof.
  intros Hm. unfold sendWebhookWithRetry. destruct (Z.to_nat (maxAttempts cfg)) as [|r] eqn:Er; [lia|]. rewrite deliverFrom_eq by lia.
  exists (attemptsMade answers (S r) 1). cbn [log]. do 3 f_equal. lia.
Qed.

(** A delivery ends within the configured attempts and pauses: it stops at the
    first answer that is final, goes on after a 5xx, a 429 or a network error only,
    signs every request alike, and logs what each attempt came to; giving up is
    logged as an error exactly when the last attempt met a network error. *)
Theorem delivery_bounded target body answers : 1 ≤ maxAttempts cfg → 0 ≤ retryMaxMs cfg →
  let d := sendWebhookWithRetry hmacHex cfg target body answers in
  ∃ n : nat, 1 ≤ Z.of_nat n ≤ maxAttempts cfg ∧
    requests d = replicate n (signatureOf hmacHex target body) ∧
    (∀ i, 1 ≤ i < Z.of_nat n → retryable (answers i) = true) ∧
    (Z.of_nat n < maxAttempts cfg → retryable (answers (Z.of_nat n)) = false) ∧
    pauses d = map (retryDelay cfg) (seqZ 1 (Z.of_nat n - 1)) ∧ sumZ (pauses d) ≤ retryMaxMs cfg * (maxAttempts cfg - 1) ∧
    log d = map (noteOf answers) (seqZ 1 (Z.of_nat n)) ++ gaveUp (answers (Z.of_nat n)).
Proof.
  intros Hm Hb d. unfold d, sendWebhookWithRetry. destruct (Z.to_nat (maxAttempts cfg)) as [|r] eqn:Er; [lia|].
  rewrite deliverFrom_eq by lia. destruct (attemptsMade_spec answers (S r) 1) as (H1 & H2 & H3 & H4).
  exists (attemptsMade answers (S r) 1). revert H1 H2 H3 H4. generalize (attemptsMade answers (S r) 1). intros n H1 H2 H3 H4.
  cbn [requests pauses log]. replace (1 + Z.of_nat n - 1) with (Z.of_nat n) in * by lia. split_and!; try done; try lia.
  - intros Hn. apply H4. lia.
  - etransitivity; [apply (sumZ_bound (retryMaxMs cfg))|].
    + apply Forall_map, Forall_forall. intros i _. unfold retryDelay. lia.
    + rewrite length_map, length_seqZ. nia.
Qed.
End DeliveryFacts.

(** ** Who is served *)

Section Served.
Context (hmacHex : string → string → string) (sha256Hex : string → string) (cfg : WebhookConfig).
Context {T TU : Type} `{!Table Z WebhookSubscription T, !TableLaws Z WebhookSubscription T} `{!Table string User TU}.

(** The receivers of an event are its active subscriptions and the configured one. *)
Lemma deliveryTargets_elem event (subscriptions : T) t : t ∈ deliveryTargets cfg event subscriptions ↔
  (∃ (k : Z) s, findUnique k subscriptions = Some s ∧ isActive s = true ∧ event ∈ events s ∧
     t = {| t_url := url s; t_secret := Some (secretHash s); t_subscriptionId := Some (id s) |}) ∨
  (∃ u, webhookUrl cfg = Some u ∧ u ≠ ""%string ∧ t = {| t_url := u; t_secret := webhookSecret cfg; t_subscriptionId := None |}).
Proof.
  unfold deliveryTargets. rewrite elem_of_app. f_equiv.
  - change (map ?f ?l) with (f <$> l). rewrite list_elem_of_fmap. setoid_rewrite findMany_elem. unfold subscribed.
    setoid_rewrite andb_true_iff. setoid_rewrite bool_decide_eq_true. naive_solver.
  - destruct (webhookUrl cfg) as [[|c u]|]; [rewrite elem_of_nil|rewrite list_elem_of_singleton|rewrite elem_of_nil].
    + split; [done|]. by intros (? & [= <-] & ? & _).
    + split; [intros ->; by eexists|]. by intros (? & [= <-] & _ & ->).
    + split; [done|]. by intros (? & ? & _).
Qed.

Lemma created_row wallet u evs secret generated newId now (users : TU) (db db' : T) row s :
  createWebhook sha256Hex wallet u evs secret generated newId now users db = (Created row s, db') →
  ∃ uid, create newId row db = Some db' ∧ url row = u ∧ events row = evs ∧ secretHash row = hashSecret sha256Hex s ∧
    isActive row = true ∧ callerOf wallet users = inr uid ∧ userId row = uid.
Proof.
  unfold createWebhook. destruct (callerOf wallet users) as [a|uid] eqn:Hc.
  - intros [= -> _]. destruct wallet as [[|c w]|]; cbn in Hc; try done. by destruct (getUserIdFromWallet _ _) as [[]|].
  - cbv zeta. destruct (_ || _); [done|]. destruct (create _ _ _) as [t|] eqn:Ht; [|done]. intros [= <- <- <-]. by exists uid.
Qed.

(** Whoever registers a webhook is sent every later event it subscribed to, whatever
    the other receivers answer, at the registered address and signed so that the
    documented check with the returned secret accepts it; the body tells the event, the
    trade, its status and the time. *)
Theorem subscriber_served wallet u evs secret generated newId now (users : TU) (db db' : T) row s tradeId status later metadata answers :
  createWebhook sha256Hex wallet u evs secret generated newId now users db = (Created row s, db') → (∀ x, sha256Hex x ≠ ""%string) →
  eventOf status ∈ evs → exact metadata →
  ∃ target body d, (target, body, d) ∈ dispatch hmacHex cfg tradeId status metadata later db' answers ∧ t_url target = u ∧
    d = sendWebhookWithRetry hmacHex cfg target body (answers target) ∧
    signatureOf hmacHex target body = Some (hmacHex (sha256Hex s) body) ∧
    ∃ v, JSON_parse body = Some v ∧ getProp v "event" = VStr (eventOf status) ∧ getProp v "tradeId" = VStr tradeId ∧
      getProp v "status" = VStr status ∧ getProp v "timestamp" = VStr (toISOString later) ∧ getProp v "data" = docValue metadata.
Proof.
  intros H Hne He Hex. apply created_row in H as (uid & Hc & Hu & Hev & Hh & Ha & _).
  set (target := {| t_url := url row; t_secret := Some (secretHash row); t_subscriptionId := Some (id row) |}).
  set (body := JSON_stringify (payloadOf tradeId status later metadata)).
  assert (signatureOf hmacHex target body = Some (hmacHex (sha256Hex s) body)) as Hs.
  { unfold signatureOf, target. cbn [t_secret]. rewrite Hh. unfold hashSecret. specialize (Hne s). by destruct (sha256Hex s). }
  exists target, body, (sendWebhookWithRetry hmacHex cfg target body (answers target)). split_and!; [|done..|].
  - unfold dispatch. apply list_elem_of_fmap. exists target. split; [done|]. apply deliveryTargets_elem. left. exists newId, row.
    apply create_inv in Hc as (_ & Hc & _). rewrite Hev. done.
  - exists (docValue (payloadOf tradeId status later metadata)). split; [apply JSON_roundtrip; cbn; tauto|]. done.
Qed.

(** The secret a creation answers with is never stored, and never listed. *)
Lemma listed_without_secret wallet (users : TU) (db : T) l : listWebhooks wallet users db = Listed l →
  ∃ u, callerOf wallet users = inr u ∧ Forall (λ s, userId s = u) l ∧ ∀ (k : Z) s, findUnique k db = Some s → userId s = u → s ∈ l.
Proof.
  unfold listWebhooks. destruct (callerOf wallet users) as [a|u] eqn:Hc.
  - intros ->. destruct wallet as [[|c w]|]; cbn in Hc; try done. by destruct (getUserIdFromWallet _ _) as [[]|].
  - intros [= <-]. exists u. split; [done|]. split.
    + apply Forall_forall. intros s Hs%js_sort_elem. apply (findMany_elem (K := Z)) in Hs as (_ & _ & Hs). lia.
    + intros k s Hk Hu. apply js_sort_elem, (findMany_elem (K := Z)). exists k. split; [done|lia].
Qed.

(** A deletion removes at most the one row it names, only if it was the caller's
    when it was looked up, and reports success only when the row is gone; nobody who
    deleted a webhook is sent another event for it. *)
Theorem delete_only_own wallet webhookId between (users : TU) (db : T) : keyed id (between db) →
  let '(a, db') := deleteWebhook wallet webhookId between users db in
  (a = Status 200 → (∃ s, findUnique webhookId db = Some s ∧ callerOf wallet users = inr (userId s)) ∧
     is_Some (findUnique webhookId (between db)) ∧ findUnique webhookId db' = None ∧
     (∀ k, k ≠ webhookId → findUnique k db' = findUnique k (between db)) ∧
     ∀ event t, t ∈ deliveryTargets cfg event db' → t_subscriptionId t ≠ Some webhookId) ∧
  (a ≠ Status 200 → db' = db ∨ db' = between db).
Proof.
  intros Hk. unfold deleteWebhook. destruct (callerOf wallet users) as [a|u] eqn:Hc; [split; [|auto]|].
  { intros ->. destruct wallet as [[|c w]|]; cbn in Hc; try done. by destruct (getUserIdFromWallet _ _) as [[]|]. }
  destruct (_ <? webhookId); [split; [done|auto]|]. destruct (findUnique webhookId db) as [s|] eqn:Hf; [|split; [done|auto]].
  destruct (negb (userId s =? u)) eqn:Hu; [split; [done|auto]|]. apply negb_false_iff, Z.eqb_eq in Hu.
  pose proof (deleteMany_hit (K := Z) (λ r, id r =? webhookId) (between db)) as Hh. pose proof (deleteMany_count (K := Z) (λ r, id r =? webhookId) (between db)) as Hn.
  pose proof (λ k : Z, deleteMany_rows k (λ r, id r =? webhookId) (between db)) as Hr.
  destruct (deleteMany (λ r, id r =? webhookId) (between db)) as [n db'] eqn:Hd. cbn [fst snd] in *.
  destruct (Z.eqb_spec n 0) as [->|Hn0]; [split; [done|auto]|]. split; [intros _|done].
  destruct (proj1 Hh ltac:(lia)) as (k & v & Hv & He%Z.eqb_eq). assert (k = webhookId) as -> by (rewrite <-He; symmetry; by apply Hk).
  assert (findUnique webhookId db' = None) as Hgone by (rewrite Hr, Hv; cbn; by rewrite He, Z.eqb_refl).
  assert (∀ k, k ≠ webhookId → findUnique k db' = findUnique k (between db)) as Hrest.
  { intros k Hne. rewrite Hr. destruct (findUnique k (between db)) as [w|] eqn:Hw; [|done]. cbn.
    rewrite (Hk k w Hw). by destruct (Z.eqb_spec k webhookId). }
  split_and!; [exists s; by rewrite Hu|by rewrite Hv|done|done|].
  intros event t [(k & w & Hw & _ & _ & ->)|(? & _ & _ & ->)]%deliveryTargets_elem; [|done]. cbn. intros [= Hw'].
  assert (k ≠ webhookId) as Hne by congruence. rewrite Hrest in Hw by done. apply Hne. rewrite <-Hw'. symmetry. by apply Hk.
Qed.
End Served.

(** ** Where it goes wrong *)

(** A receiver that answers 503 to the end is given up without the error that is
    logged for a network failure. *)
Theorem busy_receiver_given_up_silently hmacHex cfg target body : 1 ≤ maxAttempts cfg → 0 ≤ retryMaxMs cfg →
  FailedAfterRetries ∉ log (sendWebhookWithRetry hmacHex cfg target body (λ _, Responded 503)) ∧
  ∀ k, Dispatched k ∉ log (sendWebhookWithRetry hmacHex cfg target body (λ _, Responded 503)).
Proof.
  intros Hm Hb. destruct (delivery_log cfg hmacHex target body (λ _, Responded 503) Hm) as (n & ->).
  rewrite app_nil_r. change (map ?f ?l) with (f <$> l). split; [|intros k]; intros (i & Hi & _)%list_elem_of_fmap; discriminate Hi.
Qed.

(** A job whose deliveries all fail is completed like any other: no answer makes
    [dispatch] fail, so nothing reaches the retries or the dead letters of the queue. *)
Theorem failed_deliveries_are_no_failure hmacHex cfg {T} `{!Table Z WebhookSubscription T} tradeId status metadata now (subs : T) answers answers' :
  (λ x, x.1) <$> dispatch hmacHex cfg tradeId status metadata now subs answers =
  (λ x, x.1) <$> dispatch hmacHex cfg tradeId status metadata now subs answers'.
Proof. unfold dispatch. change (map ?f ?l) with (f <$> l). by rewrite <-!list_fmap_compose. Qed.

(** The address stored is the one the request check escaped. *)
Example stored_url_differs :
  sanitizeValue (VStr "https://example.com/hook?a=1&b=2") = VStr "https://example.com/hook?a=1&amp;b=2".
Proof. reflexivity. Qed.

(** ** Concrete runs *)

Definition toyHmac (secret t : string) : string := secret +:+ ":" +:+ t.
Definition toyConfig : WebhookConfig := {| webhookUrl := None; webhookSecret := None; maxAttempts := 3; retryBaseMs := 1000; retryMaxMs := 30000 |}.
Definition providers : list (string * list string) := [("Acme", ["new"; "old"]); ("psp", ["s3"])]%string.
Definition bodyText : string := dq "{'id': 7}".
Definition signedBy (secret timestamp : string) : InboundRequest :=
  {| p_provider := Some "ACME"%string; signatureHeader := One (toyHmac secret (signedText timestamp bodyText));
     timestampHeader := Many [timestamp]; rawBody := Some bodyText |}.

Lemma providers_plain : Forall (λ p, p.2 ≠ [] ∧ Forall plainSecret p.2) providers ∧ NoDup (map (λ p, toLowerCase p.1) providers).
Proof. split; [repeat constructor; discriminate|]. cbn. repeat constructor; set_solver. Qed.

Lemma registry_roundtrip_witness : ∃ r, parseWebhookSecrets (Some (configText providers)) = Ok r ∧
  ∀ k, r !! k = snd <$> List.find (λ p, bool_decide (toLowerCase p.1 = k)) providers.
Proof. apply (registry_roundtrip providers); apply providers_plain. Defined.

Lemma inbound_guard_witness :
  let options := {| o_provider := None; toleranceSeconds := None |} in
  let source := Some (configText providers) in
  let run req := verifyWebhookSignature toyHmac 300 options source 1700000000500 req resetWebhookSecretRegistry in
  (run (signedBy "old" "1700000100")).1 = Pass "acme" ∧ (run (signedBy "older" "1700000100")).1 = Reject invalid_signature ∧
  (run (signedBy "old" "1699999699")).1 = Reject stale_timestamp ∧
  memo_ok (run (signedBy "old" "1700000100")).2.
Proof.
  split_and!; [vm_compute; reflexivity..|].
  pose proof (inbound_guard toyHmac 300 {| o_provider := None; toleranceSeconds := None |} (Some (configText providers)) 1700000000500
    (signedBy "old" "1700000100") resetWebhookSecretRegistry) as H.
  destruct (verifyWebhookSignature _ _ _ _ _ _ _) as [v m']. apply H. done.
Defined.

Lemma captured_signature_witness :
  let later := signedBy "old" "1700000100" in
  (headerText (timestampHeader later) = Some "1700000100"%string ∧ rawBody later = Some bodyText ∧ Z.abs (1700000000500 / 1000 - 1700000399000 / 1000) ≤ 2 * 300) ∨
  ∃ p p', keyedText ["old"%string] later p ∧ keyedText ["old"; "new"]%string later p' ∧ p ≠ p' ∧ toyHmac p.1 p.2 = toyHmac p'.1 p'.2.
Proof.
  apply (captured_signature toyHmac 300 1700000000500 1700000399000 ["old"%string] ["old"; "new"]%string (signedBy "old" "1700000100") (signedBy "old" "1700000100")).
  - vm_compute. reflexivity.
  - vm_compute. reflexivity.
  - reflexivity.
  - intros b [[= <-]|[= <-]]; reflexivity.
Defined.

Definition flaky (n : Z) : Answer := if n =? 1 then FetchThrew else Responded 500.
Lemma delivery_bounded_witness :
  let d := sendWebhookWithRetry toyHmac toyConfig {| t_url := "u"; t_secret := Some "k"%string; t_subscriptionId := None |} "b" flaky in
  length (requests d) = 3%nat ∧ pauses d = [1000; 2000] ∧ log d = [AttemptFailed 1; NotOk 2 500 true; NotOk 3 500 true] ∧
  ∃ n : nat, 1 ≤ Z.of_nat n ≤ 3 ∧ requests d = replicate n (Some "k:b"%string).
Proof.
  split_and!; [reflexivity..|].
  destruct (delivery_bounded toyHmac toyConfig {| t_url := "u"; t_secret := Some "k"%string; t_subscriptionId := None |} "b" flaky)
    as (n & Hn & Hr & _); [cbn; lia|cbn; lia|]. exists n. split; [exact Hn|exact Hr].
Defined.

Definition toyUsers : gmap string User := {[ "gabc"%string := {| u_id := 4; u_walletAddress := "gabc" |} ]}.
Definition created := createWebhook (T := gmap Z WebhookSubscription) (λ s, "h" +:+ s)%string (Some "GABC"%string) "https://x" ["trade.funded"%string]
  (Some "s"%string) "gen" 1 0 toyUsers ∅.

Lemma subscriber_served_witness : ∃ target body d,
  (target, body, d) ∈ dispatch toyHmac toyConfig "t1" "FUNDED" (DObj []) 0 created.2 (λ _ _, Responded 200) ∧ t_url target = "https://x"%string ∧
  d = sendWebhookWithRetry toyHmac toyConfig target body (λ _, Responded 200) ∧
  signatureOf toyHmac target body = Some ("hs:" +:+ body)%string ∧
  ∃ v, JSON_parse body = Some v ∧ getProp v "event" = VStr "trade.funded" ∧ getProp v "tradeId" = VStr "t1" ∧
    getProp v "status" = VStr "FUNDED" ∧ getProp v "timestamp" = VStr (toISOString 0) ∧ getProp v "data" = docValue (DObj []).
Proof.
  apply (subscriber_served toyHmac (λ s, "h" +:+ s)%string toyConfig (Some "GABC"%string) "https://x" ["trade.funded"%string] (Some "s"%string) "gen" 1 0
    toyUsers ∅ created.2 {| id := 1; url := "https://x"; events := ["trade.funded"%string]; secretHash := "hs"; isActive := true; userId := 4; createdAt := 0 |}
    "s" "t1" "FUNDED" 0 (DObj []) (λ _ _, Responded 200)).
  - reflexivity.
  - discriminate.
  - cbn. set_solver.
  - exact I.
Defined.

(** The guard trims the provider, the route does not: a name with a blank is
    verified and then answered as having no handler. *)
Example blank_name_unhandled :
  let handlers := registerInboundWebhookHandler "acme" (λ _, true) ∅ in
  let run p := (inboundRoute toyHmac 300 handlers (Some (configText providers)) 1700000000500
    {| p_provider := Some p; signatureHeader := One (toyHmac "new" (signedText "1700000000" bodyText)); timestampHeader := One "1700000000"; rawBody := Some bodyText |}
    resetWebhookSecretRegistry).1 in
  run "acme"%string = (200, Some true) ∧ run " acme"%string = (202, None).
Proof. split; vm_compute; reflexivity. Qed.
