(* ===== verification/JobHeartbeat.v ===== *)
(** * Job heartbeats: [services/jobHeartbeat.service.ts], [jobs/heartbeat-wrapper.ts], [routes/job-health.routes.ts]

    Every scheduled job pings a row when it starts and when it ends; a watchdog
    reads the rows and alerts on the ones that are late. The rows are a Prisma
    table keyed by job type, alerts go through [Alerts]; the clock's readings
    and whether a statement fails are arguments. *)

From S2P Require Import Prelude JsString Prisma.
From S2P Require Alerts.
Import Alerts (AlertConfig, AlertState, WebhookAnswer, job_missed_heartbeat, job_repeated_failures).

Inductive JobType : Type :=
| RECONCILIATION | TRADE_EXPIRY | WEBHOOK | NOTIFICATION | EXPORT | OUTBOX_SCAN | STREAM_CLAWBACK_MONITOR.

#[global] Instance JobType_eq_dec : EqDecision JobType.
Proof. solve_decision. Defined.

Definition allJobs : list JobType :=
  [RECONCILIATION; TRADE_EXPIRY; WEBHOOK; NOTIFICATION; EXPORT; OUTBOX_SCAN; STREAM_CLAWBACK_MONITOR].

#[global] Instance JobType_countable : Countable JobType.
Proof.
  refine (inj_countable' (λ j, match j with RECONCILIATION => 0 | TRADE_EXPIRY => 1 | WEBHOOK => 2 | NOTIFICATION => 3
                                       | EXPORT => 4 | OUTBOX_SCAN => 5 | STREAM_CLAWBACK_MONITOR => 6 end)
            (λ n, default RECONCILIATION (allJobs !! Z.to_nat n)) _). by intros [].
Defined.

Definition jobName (j : JobType) : string :=
  match j with
  | RECONCILIATION => "reconciliation" | TRADE_EXPIRY => "trade-expiry" | WEBHOOK => "webhook"
  | NOTIFICATION => "notification" | EXPORT => "export" | OUTBOX_SCAN => "outbox-consistency-scan"
  | STREAM_CLAWBACK_MONITOR => "stream-clawback-monitor"
  end.

(** [JOB_CONFIGS]: intervals in milliseconds. *)
Definition intervalOf (j : JobType) : Z :=
  match j with
  | RECONCILIATION | OUTBOX_SCAN => 24 * 60 * 60 * 1000
  | TRADE_EXPIRY | STREAM_CLAWBACK_MONITOR => 60 * 60 * 1000
  | WEBHOOK | NOTIFICATION => 5 * 60 * 1000
  | EXPORT => 10 * 60 * 1000
  end.

Definition HEARTBEAT_GRACE_PERIOD_MS : Z := 5 * 60 * 1000.

Inductive RowStatus : Type := idle | started | failed.
#[global] Instance RowStatus_eq_dec : EqDecision RowStatus.
Proof. solve_decision. Defined.

Record Heartbeat : Type := {
  jobType : JobType; lastHeartbeat : Z; status : RowStatus; intervalMs : Z; nextExpectedAt : Z;
  failureCount : Z; lastError : option string }.

(** [HeartbeatPingData]; a failed ping carries the error's message. *)
Inductive PingData : Type := Started | Completed | Failed (error : string).

Definition pingStatus (d : PingData) : RowStatus :=
  match d with Started => started | Completed => idle | Failed _ => failed end.
Definition pingError (d : PingData) : option string :=
  match d with Failed ""%string => None | Failed e => Some e | _ => None end.
Definition pingFailed (d : PingData) : bool := match d with Failed _ => true | _ => false end.

Inductive Health : Type := healthy | stale | unwell.
#[global] Instance Health_eq_dec : EqDecision Health.
Proof. solve_decision. Defined.

Record JobHealthStatus : Type := {
  h_jobType : JobType; h_status : Health; h_lastHeartbeat : Z; h_nextExpectedAt : Z; timeSinceLastBeat : Z;
  h_failureCount : Z; isOverdue : bool }.

Definition healthOf (now : Z) (hb : Heartbeat) : Health :=
  let overdue := nextExpectedAt hb <? now in
  if bool_decide (status hb = failed) || (0 <? failureCount hb) then unwell
  else if overdue && (HEARTBEAT_GRACE_PERIOD_MS <? now - nextExpectedAt hb) then unwell
  else if intervalMs hb + HEARTBEAT_GRACE_PERIOD_MS <? now - lastHeartbeat hb then stale
  else healthy.

Definition healthStatus (now : Z) (hb : Heartbeat) : JobHealthStatus :=
  {| h_jobType := jobType hb; h_status := healthOf now hb; h_lastHeartbeat := lastHeartbeat hb;
     h_nextExpectedAt := nextExpectedAt hb; timeSinceLastBeat := now - lastHeartbeat hb;
     h_failureCount := failureCount hb; isOverdue := nextExpectedAt hb <? now |}.

Record AllHealth : Type := { healthyJobs : list JobHealthStatus; staleJobs : list JobHealthStatus; overdueJobs : list JobHealthStatus }.

(** One iteration of [checkAllJobHealth]'s loop. *)
Definition classify (now : Z) (acc : AllHealth) (hb : Heartbeat) : AllHealth :=
  let h := healthStatus now hb in
  match h_status h with
  | healthy => {| healthyJobs := healthyJobs acc ++ [h]; staleJobs := staleJobs acc; overdueJobs := overdueJobs acc |}
  | stale => {| healthyJobs := healthyJobs acc; staleJobs := staleJobs acc ++ [h]; overdueJobs := overdueJobs acc |}
  | unwell => {| healthyJobs := healthyJobs acc; staleJobs := staleJobs acc; overdueJobs := overdueJobs acc ++ [h] |}
  end.

(** The dashboard's own classification. *)
Definition dashboardOf (now : Z) (hb : Heartbeat) : Health :=
  let gracePeriod := 5 * 60 * 1000 in
  let overdue := (nextExpectedAt hb <? now) && (gracePeriod <? now - nextExpectedAt hb) in
  if bool_decide (status hb = failed) || (0 <? failureCount hb) then unwell
  else if overdue || (intervalMs hb + gracePeriod <? now - lastHeartbeat hb) then stale
  else healthy.

Section Service.
Context {TT : Type} `{!Table JobType Heartbeat TT}.
Variable cfg : AlertConfig.

Record Monitor : Type := mkMonitor { beats : TT; alerts : AlertState }.

(** A clock reading per [Date.now()], whether a statement fails, and the webhook's answer. *)
Record Call : Type := { fails : bool; t0 : Z; t1 : Z; webhook : WebhookAnswer }.

Definition initOne (c : JobType → Call) (db : TT) (j : JobType) : TT :=
  if fails (c j) then db
  else match findUnique j db with
  | None =>
      match create j {| jobType := j; lastHeartbeat := t1 (c j); status := idle; intervalMs := intervalOf j;
                        nextExpectedAt := t0 (c j) + intervalOf j; failureCount := 0; lastError := None |} db with
      | Some db' => db' | None => db
      end
  | Some existing =>
      if intervalMs existing =? intervalOf j then db
      else match update j (λ hb, {| jobType := jobType hb; lastHeartbeat := lastHeartbeat hb; status := status hb;
                                    intervalMs := intervalOf j; nextExpectedAt := nextExpectedAt hb;
                                    failureCount := failureCount hb; lastError := lastError hb |}) db with
           | Some (_, db') => db' | None => db
           end
  end.

Definition initializeJobRegistry (c : JobType → Call) (db : TT) : TT := foldl (initOne c) db allJobs.

Definition beatCreate (c : Call) (j : JobType) (d : PingData) : Heartbeat :=
  {| jobType := j; lastHeartbeat := t1 c; status := pingStatus d; intervalMs := intervalOf j;
     nextExpectedAt := t0 c + intervalOf j; failureCount := if pingFailed d then 1 else 0;
     lastError := match d with Failed e => Some e | _ => None end |}.
Definition beatUpdate (c : Call) (j : JobType) (d : PingData) (hb : Heartbeat) : Heartbeat :=
  {| jobType := jobType hb; lastHeartbeat := t1 c; status := pingStatus d; intervalMs := intervalMs hb;
     nextExpectedAt := t0 c + intervalOf j; failureCount := if pingFailed d then failureCount hb + 1 else 0;
     lastError := pingError d |}.

(** [upsert] by job type: the row it leaves, unless the statement fails. *)
Definition upsertBeat (c : Call) (j : JobType) (d : PingData) (db : TT) : option (Heartbeat * TT) :=
  if fails c then None
  else match findUnique j db with
       | Some _ => update j (beatUpdate c j d) db
       | None => let hb := beatCreate c j d in db' ← create j hb db; Some (hb, db')
       end.

Definition failureMessage (j : JobType) (n : Z) : string :=
  ("Job " +:+ jobName j +:+ " has failed " +:+ toString n +:+ " times")%string.

Definition ping (c : Call) (j : JobType) (d : PingData) (m : Monitor) : Monitor :=
  match upsertBeat c j d (beats m) with
  | None => m
  | Some (hb, db) =>
      mkMonitor db (if 3 <? failureCount hb
                    then Alerts.dispatch cfg (webhook c) (t1 c) job_repeated_failures (failureMessage j (failureCount hb)) (alerts m)
                    else alerts m)
  end.

(** [withHeartbeat]: the processor's outcome is passed on. *)
Definition withHeartbeat (j : JobType) (c c' : Call) (processor : Monitor → Monitor * result string string) (m : Monitor)
    : Monitor * result string string :=
  let '(m1, r) := processor (ping c j Started m) in
  match r with
  | Ok v => (ping c' j Completed m1, Ok v)
  | Err e => (ping c' j (Failed e) m1, Err e)
  end.

Definition checkAllJobHealth (now : Z) (db : TT) : AllHealth :=
  foldl (classify now) {| healthyJobs := []; staleJobs := []; overdueJobs := [] |} (findMany (λ _, true) db).

Definition getJobHealth (j : JobType) (now : Z) (db : TT) : option JobHealthStatus :=
  hb ← findUnique j db;
  let overdue := nextExpectedAt hb <? now in
  let s := if bool_decide (status hb = failed) || (0 <? failureCount hb) then unwell
           else if overdue && (HEARTBEAT_GRACE_PERIOD_MS <? now - nextExpectedAt hb) then unwell
           else if intervalMs hb + HEARTBEAT_GRACE_PERIOD_MS <? now - lastHeartbeat hb then stale
           else healthy in
  Some {| h_jobType := jobType hb; h_status := s; h_lastHeartbeat := lastHeartbeat hb; h_nextExpectedAt := nextExpectedAt hb;
          timeSinceLastBeat := now - lastHeartbeat hb; h_failureCount := failureCount hb; isOverdue := overdue |}.

Definition getAllJobHealth (now : Z) (db : TT) : list JobHealthStatus :=
  let health := checkAllJobHealth now db in healthyJobs health ++ staleJobs health ++ overdueJobs health.

Definition missedMessage (h : JobHealthStatus) (now : Z) : string :=
  ("Job " +:+ jobName (h_jobType h) +:+ " missed its scheduled heartbeat by " +:+
   toString ((now - h_nextExpectedAt h) / 60000) +:+ " minutes")%string.

(** The watchdog's loop; [clock] and [answer] give the [i]-th alert's time and answer. *)
Definition watchdogAlerts (clock : nat → Z) (answer : nat → WebhookAnswer) (jobs : list JobHealthStatus) (st : AlertState) : AlertState :=
  Alerts.dispatchAll cfg
    (imap (λ i h, (answer i, clock i, job_missed_heartbeat, missedMessage h (clock i))) jobs) st.

Definition watchdogCheck (fails : bool) (now : Z) (clock : nat → Z) (answer : nat → WebhookAnswer) (m : Monitor) : Monitor :=
  if fails then m
  else mkMonitor (beats m) (watchdogAlerts clock answer (overdueJobs (checkAllJobHealth now (beats m))) (alerts m)).

(** [GET /health/jobs]: the response's status and its three lists. *)
Definition jobsRoute (now : Z) (db : TT) : Z * AllHealth :=
  let jobs := getAllJobHealth now db in
  let overdue := List.filter (λ j, bool_decide (h_status j = unwell) || isOverdue j) jobs in
  (match overdue with [] => 200 | _ => 503 end,
   {| healthyJobs := List.filter (λ j, bool_decide (h_status j = healthy)) jobs;
      staleJobs := List.filter (λ j, bool_decide (h_status j = stale)) jobs; overdueJobs := overdue |}).

(** [POST /health/jobs/:jobType/reset-failures]; [None] is the 500 answer. *)
Definition resetFailures (j : JobType) (db : TT) : option TT :=
  '(_, db') ← update j (λ hb, {| jobType := jobType hb; lastHeartbeat := lastHeartbeat hb; status := idle;
                                 intervalMs := intervalMs hb; nextExpectedAt := nextExpectedAt hb; failureCount := 0;
                                 lastError := lastError hb |}) db;
  Some db'.
End Service.

(** ** Correctness *)

Lemma foldl_classify now l acc : foldl (classify now) acc l =
  {| healthyJobs := healthyJobs acc ++ List.filter (λ h, bool_decide (h_status h = healthy)) (map (healthStatus now) l);
     staleJobs := staleJobs acc ++ List.filter (λ h, bool_decide (h_status h = stale)) (map (healthStatus now) l);
     overdueJobs := overdueJobs acc ++ List.filter (λ h, bool_decide (h_status h = unwell)) (map (healthStatus now) l) |}.
Proof.
  revert acc. induction l as [|hb l IH]; intros acc; cbn [foldl map List.filter]; [rewrite !app_nil_r; by destruct acc|].
  rewrite IH. unfold classify. destruct (h_status (healthStatus now hb)) eqn:Hs; cbn [healthyJobs staleJobs overdueJobs];
    rewrite <-?app_assoc; cbn [app]; decide_bools; done.
Qed.

Section Facts.
Context {TT : Type} `{!Table JobType Heartbeat TT, !TableLaws JobType Heartbeat TT}.
Variable cfg : AlertConfig.

Lemma checkAll_lists now (db : TT) : let rows := map (healthStatus now) (findMany (λ _, true) db) in
  checkAllJobHealth now db =
  {| healthyJobs := List.filter (λ h, bool_decide (h_status h = healthy)) rows;
     staleJobs := List.filter (λ h, bool_decide (h_status h = stale)) rows;
     overdueJobs := List.filter (λ h, bool_decide (h_status h = unwell)) rows |}.
Proof. unfold checkAllJobHealth. by rewrite foldl_classify. Qed.

Lemma health_perm now (db : TT) : getAllJobHealth now db ≡ₚ map (healthStatus now) (findMany (λ _, true) db).
Proof.
  unfold getAllJobHealth. rewrite checkAll_lists. cbn. generalize (map (healthStatus now) (findMany (λ _, true) db)).
  induction l as [|h l IH]; [done|]. cbn.
  destruct (h_status h); decide_bools; cbn [app].
  - by apply perm_skip.
  - rewrite <-Permutation_middle. by apply perm_skip.
  - rewrite app_assoc, <-Permutation_middle, <-app_assoc. by apply perm_skip.
Qed.

(** The sweep over all jobs puts every registered job in exactly one of its
    lists, the one that names the status the single-job query computes on its own. *)
Theorem health_partition now (db : TT) : keyed jobType db →
  NoDup (h_jobType <$> getAllJobHealth now db) ∧
  (∀ h, h ∈ getAllJobHealth now db ↔ ∃ j, getJobHealth j now db = Some h) ∧
  ∀ h, h ∈ getAllJobHealth now db →
    h ∈ match h_status h with
        | healthy => healthyJobs | stale => staleJobs | unwell => overdueJobs
        end (checkAllJobHealth now db).
Proof.
  intros Hk. assert (∀ h, h ∈ map (healthStatus now) (findMany (λ _, true) db) ↔ ∃ j, getJobHealth j now db = Some h) as Hm.
  { intros h. rewrite list_elem_of_fmap. setoid_rewrite (findMany_elem (K := JobType)). unfold getJobHealth. split.
    - intros (hb & -> & j & Hj & _). exists j. by rewrite Hj.
    - intros (j & Hj). destruct (findUnique j db) as [hb|] eqn:Hb; [|done]. injection Hj as <-. exists hb. eauto. }
  split; [|split].
  - rewrite health_perm. change (map ?f ?l) with (f <$> l). rewrite <-list_fmap_compose. by apply (findMany_NoDup jobType).
  - intros h. by rewrite health_perm.
  - intros h. rewrite health_perm, checkAll_lists. cbn. intros Hh.
    destruct (h_status h) eqn:Hs; cbn; rewrite list_elem_of_In, List.filter_In, <-list_elem_of_In, Hs; (split; [done|]);
      by rewrite bool_decide_true.
Qed.

(** *** The registry's invariant *)

Definition beatOk (hb : Heartbeat) : Prop :=
  intervalMs hb = intervalOf (jobType hb) ∧ nextExpectedAt hb ≤ lastHeartbeat hb + intervalMs hb ∧ 0 ≤ failureCount hb.
Definition registryOk (db : TT) : Prop := ∀ j hb, findUnique j db = Some hb → jobType hb = j ∧ beatOk hb.

(** A later reading of the clock is no earlier. *)
Definition forward (c : Call) : Prop := t0 c ≤ t1 c.

Lemma upsertBeat_inv c j d (db db' : TT) hb : upsertBeat c j d db = Some (hb, db') →
  hb = match findUnique j db with Some old => beatUpdate c j d old | None => beatCreate c j d end ∧
  findUnique j db' = Some hb ∧ ∀ j', j' ≠ j → findUnique j' db' = findUnique j' db.
Proof.
  unfold upsertBeat. destruct (fails c); [done|]. destruct (findUnique j db) as [old|] eqn:Ho.
  - intros (v & Hv & -> & ? & ?)%update_inv. rewrite Ho in Hv. by simplify_eq.
  - intros Hc. apply bind_Some in Hc as (db1 & Hc & [= <- <-]). apply create_inv in Hc as (_ & ? & ?). done.
Qed.

Lemma ping_registry c j d m : forward c → registryOk (beats m) → registryOk (beats (ping cfg c j d m)).
Proof.
  intros Hf Hr. unfold ping. destruct (upsertBeat c j d (beats m)) as [[hb db]|] eqn:Hu; [|done]. cbn.
  apply upsertBeat_inv in Hu as (Hhb & Hj & Ho). intros j' hb' Hj'.
  destruct (decide (j' = j)) as [->|Hne]; [|rewrite Ho in Hj' by done; by apply Hr].
  rewrite Hj in Hj'. injection Hj' as <-. unfold forward in Hf.
  destruct (findUnique j (beats m)) as [old|] eqn:Hold; rewrite Hhb; [apply Hr in Hold as (<- & Hi & Hn & Hc)|];
    unfold beatOk; cbn; (split; [done|]); destruct (pingFailed d); lia.
Qed.

Lemma init_registry c (db : TT) : (∀ j, forward (c j)) → registryOk db → registryOk (initializeJobRegistry c db).
Proof.
  intros Hf. unfold initializeJobRegistry. generalize allJobs. intros l. revert db.
  induction l as [|j l IH]; intros db Hr; [done|]. cbn. apply IH. clear IH. unfold initOne. destruct (fails (c j)); [done|].
  destruct (findUnique j db) as [old|] eqn:Ho.
  - pose proof (Hr _ _ Ho) as (Hj & Hi & _). rewrite Hj in Hi. by rewrite Hi, Z.eqb_refl.
  - destruct (create j _ db) as [db'|] eqn:Hc; [|done]. apply create_inv in Hc as (_ & Hj & Hn). intros j' hb' Hj'.
    destruct (decide (j' = j)) as [->|Hne]; [|rewrite Hn in Hj' by done; by apply Hr].
    rewrite Hj in Hj'. injection Hj' as <-. specialize (Hf j). unfold forward in Hf. unfold beatOk. cbn. split; [done|]. lia.
Qed.

(** What can happen to the registry: a ping, a failure reset, or the registry's
    initialisation at start-up. *)
Inductive registryStep : TT → TT → Prop :=
| step_ping c j d db st : forward c → registryStep db (beats (ping cfg c j d (mkMonitor db st)))
| step_reset j db db' : resetFailures j db = Some db' → registryStep db db'
| step_init c db : (∀ j, forward (c j)) → registryStep db (initializeJobRegistry c db).

Lemma registryStep_ok db db' : registryStep db db' → registryOk db → registryOk db'.
Proof.
  intros [c j d db1 st Hf|j db1 db2 Hr|c db1 Hf] Hok; [by apply (ping_registry c j d (mkMonitor _ st))| |by apply init_registry].
  unfold resetFailures in Hr. destruct (update j _ _) as [[v db3]|] eqn:Hu; [|done]. injection Hr as <-.
  apply update_inv in Hu as (old & Hold & _ & Hj & Ho). intros j' hb Hhb.
  destruct (decide (j' = j)) as [->|Hne]; [|rewrite Ho in Hhb by done; by apply Hok].
  rewrite Hj in Hhb. injection Hhb as <-. apply Hok in Hold as (? & ? & ? & ?). unfold beatOk. cbn. lia || (split; [done|lia]).
Qed.

Lemma registry_inv db db' : rtc registryStep db db' → registryOk db → registryOk db'.
Proof. induction 1; eauto using registryStep_ok. Qed.

(** Whatever pings, resets and restarts happen, no job is ever "stale": a job
    silent for longer than its interval and the grace period is already overdue,
    so the warning the watchdog keeps for stale jobs is never given. *)
Theorem stale_unreachable db db' now : (∀ j, findUnique j db = None) → rtc registryStep db db' →
  staleJobs (checkAllJobHealth now db') = [].
Proof.
  intros H0 Hs. apply registry_inv in Hs; [|intros j hb Hj; by rewrite H0 in Hj]. rewrite checkAll_lists. cbn.
  assert (∀ h, h ∉ List.filter (λ h, bool_decide (h_status h = stale)) (map (healthStatus now) (findMany (λ _, true) db'))) as Hn.
  { intros h Hh. rewrite list_elem_of_In, List.filter_In, <-list_elem_of_In, list_elem_of_fmap in Hh.
    destruct Hh as [(hb & -> & Hhb) Hst%bool_decide_eq_true]. apply (findMany_elem (K := JobType)) in Hhb as (j & Hj & _).
    apply Hs in Hj as (_ & _ & Hnext & _). revert Hst. cbn. unfold healthOf. destruct (bool_decide _ || _); [done|].
    destruct (Z.ltb_spec (nextExpectedAt hb) now), (Z.ltb_spec HEARTBEAT_GRACE_PERIOD_MS (now - nextExpectedAt hb)),
      (Z.ltb_spec (intervalMs hb + HEARTBEAT_GRACE_PERIOD_MS) (now - lastHeartbeat hb));
      try done; unfold HEARTBEAT_GRACE_PERIOD_MS in *; lia. }
  destruct (List.filter _ _) as [|h l]; [done|]. destruct (Hn h). set_solver.
Qed.

(** *** Failures *)

(** The count of consecutive failures never passes one: the ping that opens a
    run clears what the last run's failure recorded. So however often a job fails,
    the alert for repeated failures (more than three) is never sent. *)
Theorem repeated_failures_never_alert j c c' processor m : fails c = false →
  (∀ m, findUnique j (beats (processor m).1) = findUnique j (beats m)) →
  let m1 := (processor (ping cfg c j Started m)).1 in
  let '(m', r) := withHeartbeat cfg j c c' processor m in
  alerts (ping cfg c j Started m) = alerts m ∧ alerts m' = alerts m1 ∧
  ∀ hb, findUnique j (beats m') = Some hb → 0 ≤ failureCount hb ≤ 1.
Proof.
  intros Hc Hp m1. unfold withHeartbeat.
  assert (∀ hb, findUnique j (beats (ping cfg c j Started m)) = Some hb → failureCount hb = 0) as Hz.
  { unfold ping. destruct (upsertBeat c j Started (beats m)) as [[hb db]|] eqn:Hu.
    - apply upsertBeat_inv in Hu as (Hhb & Hj & _). cbn. intros hb'. rewrite Hj. intros [= <-]. rewrite Hhb.
      by destruct (findUnique j (beats m)).
    - intros hb Hj. exfalso. revert Hu. unfold upsertBeat. rewrite Hc, Hj.
      intros Hu%update_None. congruence. }
  assert (alerts (ping cfg c j Started m) = alerts m) as Ha.
  { unfold ping. destruct (upsertBeat c j Started (beats m)) as [[hb db]|] eqn:Hu; [|done].
    apply upsertBeat_inv in Hu as (-> & _). cbn. by destruct (findUnique j (beats m)). }
  assert (∀ d, let m' := ping cfg c' j d m1 in alerts m' = alerts m1 ∧
    ∀ hb, findUnique j (beats m') = Some hb → 0 ≤ failureCount hb ≤ 1) as Hd.
  { intros d. pose proof (Hp (ping cfg c j Started m)) as Hrow. fold m1 in Hrow. rewrite <-Hrow in Hz. cbn zeta. unfold ping.
    destruct (upsertBeat c' j d (beats m1)) as [[hb db]|] eqn:Hu; [|split; [done|]; intros hb Hj%Hz; lia].
    apply upsertBeat_inv in Hu as (Hhb & Hj & _). cbn [beats alerts].
    assert (0 ≤ failureCount hb ≤ 1) as Hb.
    { rewrite Hhb. destruct (findUnique j (beats m1)) as [old|] eqn:Hold; cbn; destruct (pingFailed d); try lia.
      rewrite (Hz old) by done. lia. }
    rewrite (proj2 (Z.ltb_ge _ _)) by lia. split; [done|]. intros hb'. rewrite Hj. by intros [= <-]. }
  unfold m1. destruct (processor _) as [m2 [v|e]] eqn:Hr; cbn in Hd |- *; unfold m1 in Hd; cbn in Hd; split; try done; apply Hd.
Qed.

(** *** The watchdog *)

(** A job silent for longer than its interval and the grace period is reported
    to operators by the next check, if the webhook answers and no such alert was
    delivered within the cooldown. *)
Theorem silent_job_alerted j hb now clock m : registryOk (beats m) → findUnique j (beats m) = Some hb →
  intervalOf j + HEARTBEAT_GRACE_PERIOD_MS < now - lastHeartbeat hb →
  Alerts.isConfigured cfg = true → Alerts.suppressed cfg (alerts m) job_missed_heartbeat (clock 0%nat) = false →
  ∃ p, p ∈ Alerts.delivered (alerts (watchdogCheck cfg false now clock (λ _, Alerts.Accepted) m)) ∧
    Alerts.type_ p = job_missed_heartbeat ∧ Alerts.timestamp p = clock 0%nat.
Proof.
  intros Hok Hj Hl Hc Hs. cbn. unfold watchdogAlerts.
  assert (healthStatus now hb ∈ overdueJobs (checkAllJobHealth now (beats m))) as Hin.
  { rewrite checkAll_lists. cbn. rewrite list_elem_of_In, List.filter_In, <-list_elem_of_In. split.
    - apply list_elem_of_fmap. exists hb. split; [done|]. apply (findMany_elem (K := JobType)). eauto.
    - apply bool_decide_eq_true. apply Hok in Hj as (<- & Hi & Hn & _). cbn. unfold healthOf, HEARTBEAT_GRACE_PERIOD_MS in *.
      destruct (bool_decide _ || _); [done|]. rewrite (proj2 (Z.ltb_lt _ now)), (proj2 (Z.ltb_lt _ (now - _))) by lia. done. }
  destruct (overdueJobs _) as [|h l]; [set_solver|]. cbn [imap Alerts.dispatchAll foldl].
  unfold Alerts.dispatchAll. cbn [foldl].
  match goal with |- context [foldl _ (Alerts.dispatch ?c ?a ?t ?ty ?msg ?st) ?rs] =>
    set (st1 := Alerts.dispatch c a t ty msg st); generalize rs as l'; pose proof (eq_refl : st1 = Alerts.dispatch c a t ty msg st) as He
  end.
  assert (∃ p, p ∈ Alerts.delivered st1 ∧ Alerts.type_ p = job_missed_heartbeat ∧ Alerts.timestamp p = clock 0%nat) as Hp.
  { rewrite He. unfold Alerts.dispatch. rewrite Hc, Hs. cbn. eexists. split; [by left|done]. }
  clear He. revert Hp. clearbody st1. intros Hp l'. revert st1 Hp.
  induction l' as [|[[[a t] ty] msg] l' IH]; intros st1 (p & Hp & Ht); [by exists p|]. apply IH. exists p. split; [|done].
  destruct (Alerts.dispatch_cases cfg a t ty msg st1) as [->|[_ ->]]; [done|by right].
Qed.

(** But one check reports one job: when several are late, the alert for the
    first that the webhook accepts silences the others, which share its type. *)
Theorem watchdog_reports_one_job now clock answer m a : (∀ i, a ≤ clock i < a + Alerts.window cfg job_missed_heartbeat) →
  let m' := watchdogCheck cfg false now clock answer m in
  Alerts.delivered (alerts m') = Alerts.delivered (alerts m) ∨
  ∃ p, Alerts.delivered (alerts m') = p :: Alerts.delivered (alerts m).
Proof.
  intros Hw. cbn. unfold watchdogAlerts.
  set (f := λ i h, (answer i, clock i, job_missed_heartbeat, missedMessage h (clock i))).
  assert (Forall (λ r : Alerts.request, let '(_, t, ty, _) := r in ty = job_missed_heartbeat ∧
    a ≤ t < a + Alerts.window cfg ty) (imap f (overdueJobs (checkAllJobHealth now (beats m))))) as Hall.
  { apply Forall_forall. intros r (i & h & -> & _)%elem_of_lookup_imap. done. }
  revert Hall. generalize (imap f (overdueJobs (checkAllJobHealth now (beats m)))) as rs. generalize (alerts m) as st.
  clear f. intros st rs. apply Alerts.one_per_window.
Qed.

(** The dashboard and the health check disagree on exactly the overdue jobs
    with no recorded failure: stale on one, failed on the other. *)
Theorem dashboard_disagrees now hb : healthOf now hb ≠ dashboardOf now hb ↔
  status hb ≠ failed ∧ failureCount hb ≤ 0 ∧ HEARTBEAT_GRACE_PERIOD_MS < now - nextExpectedAt hb.
Proof.
  unfold healthOf, dashboardOf, HEARTBEAT_GRACE_PERIOD_MS. cbn zeta.
  destruct (bool_decide_reflect (status hb = failed)) as [->|Hs]; [split; [done|tauto]|]. cbn [orb].
  destruct (Z.ltb_spec 0 (failureCount hb)); [split; [done|lia]|].
  destruct (Z.ltb_spec (nextExpectedAt hb) now), (Z.ltb_spec (5 * 60 * 1000) (now - nextExpectedAt hb)); cbn [andb orb];
    [|split; [destruct (_ <? _); done|lia]|lia|split; [destruct (_ <? _); done|lia]].
  split; [done|]. intros _ ?. discriminate.
Qed.
End Facts.

(** ** Samples, witnesses, and what the model showed *)

Definition Beats : Type := gmap JobType Heartbeat.
Definition at_ (t : Z) : Call := {| fails := false; t0 := t; t1 := t; webhook := Alerts.Accepted |}.
Definition config : AlertConfig := Alerts.sampleConfig.
Definition registered : Beats := initializeJobRegistry (λ _, at_ 0) ∅.
Definition fresh : Monitor := mkMonitor registered Alerts.noAlerts.

(** A failed run that is not late at all is announced as a missed heartbeat, by
    a negative number of minutes; and within the grace period the jobs route answers
    503 for a job that it lists as healthy in the same response. *)
Theorem health_reports_contradict :
  let m := ping config (at_ 1000) TRADE_EXPIRY (Failed "boom") fresh in
  map Alerts.message (Alerts.delivered (alerts (watchdogCheck config false 61000 (λ _, 61000) (λ _, Alerts.Accepted) m))) =
    ["Job trade-expiry missed its scheduled heartbeat by -59 minutes"%string] ∧
  let '(code, lists) := jobsRoute 300001 registered in
  code = 503 ∧ map h_jobType (healthyJobs lists) = map h_jobType (getAllJobHealth 300001 registered) ∧
  ∃ h, h ∈ healthyJobs lists ∧ h ∈ overdueJobs lists.
Proof.
  split; [vm_compute; reflexivity|]. split; [vm_compute; reflexivity|]. split; [vm_compute; reflexivity|].
  exists {| h_jobType := WEBHOOK; h_status := healthy; h_lastHeartbeat := 0; h_nextExpectedAt := 300000;
            timeSinceLastBeat := 300001; h_failureCount := 0; isOverdue := true |}.
  rewrite !list_elem_of_In. vm_compute. tauto.
Qed.

Lemma health_partition_witness : let db := registered in
  NoDup (h_jobType <$> getAllJobHealth 10 db) ∧
  (∀ h, h ∈ getAllJobHealth 10 db ↔ ∃ j, getJobHealth j 10 db = Some h) ∧
  ∀ h, h ∈ getAllJobHealth 10 db →
    h ∈ match h_status h with
        | healthy => healthyJobs | stale => staleJobs | unwell => overdueJobs
        end (checkAllJobHealth 10 db).
Proof.
  apply (health_partition (TT := Beats)). intros j hb H. destruct j; vm_compute in H; by simplify_eq.
Defined.

Lemma stale_unreachable_witness : staleJobs (checkAllJobHealth 99999999999 registered) = [].
Proof.
  apply (stale_unreachable (TT := Beats) config ∅); [done|]. apply rtc_once, (step_init config (λ _, at_ 0)).
  intros j. unfold forward. done.
Defined.

Definition boom (m : Monitor (TT := Beats)) : Monitor (TT := Beats) * result string string := (m, Err "boom"%string).

Lemma repeated_failures_never_alert_witness :
  let m1 := (boom (ping config (at_ 1) EXPORT Started fresh)).1 in
  let '(m', r) := withHeartbeat config EXPORT (at_ 1) (at_ 2) boom fresh in
  alerts (ping config (at_ 1) EXPORT Started fresh) = alerts fresh ∧ alerts m' = alerts m1 ∧
  ∀ hb, findUnique EXPORT (beats m') = Some hb → 0 ≤ failureCount hb ≤ 1.
Proof. exact (repeated_failures_never_alert (TT := Beats) config EXPORT (at_ 1) (at_ 2) boom fresh eq_refl (λ m, eq_refl)). Defined.

Lemma registered_ok : registryOk registered.
Proof. apply init_registry; [intros j; unfold forward; done|]. intros j hb H. done. Qed.

Lemma silent_job_alerted_witness :
  ∃ p, p ∈ Alerts.delivered (alerts (watchdogCheck config false 4000000 (λ _, 4000000) (λ _, Alerts.Accepted) fresh)) ∧
    Alerts.type_ p = job_missed_heartbeat ∧ Alerts.timestamp p = 4000000.
Proof.
  apply (silent_job_alerted (TT := Beats) config TRADE_EXPIRY
    {| jobType := TRADE_EXPIRY; lastHeartbeat := 0; status := idle; intervalMs := 3600000; nextExpectedAt := 3600000;
       failureCount := 0; lastError := None |} 4000000 (λ _, 4000000) fresh registered_ok);
    first [vm_compute; reflexivity | cbn; lia].
Defined.

Lemma watchdog_reports_one_job_witness :
  let m' := watchdogCheck config false 4000000 (λ _, 4000000) (λ _, Alerts.Accepted) fresh in
  length (overdueJobs (checkAllJobHealth 4000000 (beats fresh))) = 5%nat ∧
  (Alerts.delivered (alerts m') = Alerts.delivered (alerts fresh) ∨
   ∃ p, Alerts.delivered (alerts m') = p :: Alerts.delivered (alerts fresh)).
Proof.
  split; [vm_compute; reflexivity|].
  apply (watchdog_reports_one_job (TT := Beats) config 4000000 (λ _, 4000000) (λ _, Alerts.Accepted) fresh 4000000).
  intros _. cbn. lia.
Defined.
