(* ===== verification/Money.v ===== *)
(** * Money: [backend/src/lib/money.ts] and [backend/src/schemas/money.schemas.ts]

    [bigint] is [Z]; [bigint] division and remainder truncate toward zero and
    are [Z.quot] and [Z.rem]. The first half models explicit rounding
    ([divideWithPolicy], [applyBps]) and the residual ledger [DustLedger]; the
    second half models the textual conversion between decimal strings and
    stroops and the callbacks of the zod schemas built on it. *)

From S2P Require Import Prelude JsString.

(** ** Errors *)

Inductive money_error : Type :=
| PlainError (message : string)
| MoneyConversionError (message : string).

(** ** Rounded division *)

Definition BPS_DIVISOR : Z := 10000.

Inductive RoundingPolicy : Type := trunc | floor | ceil | half_up | half_even.

Definition CONTRACT_ROUNDING : RoundingPolicy := trunc.
Definition DEFAULT_ROUNDING : RoundingPolicy := half_even.

Record DivisionResult : Type := {
  value : Z;
  residual : Z;
  denominator : Z;
}.

Definition divideWithPolicy (numerator denominator : Z) (policy : RoundingPolicy)
    : result money_error DivisionResult :=
  if denominator <=? 0 then
    Err (PlainError ("divideWithPolicy: denominator must be positive, received "
      +:+ toString denominator))
  else
    let truncated := Z.quot numerator denominator in
    let remainder := numerator - truncated * denominator in
    if remainder =? 0 then
      Ok {| value := truncated; residual := 0; denominator := denominator |}
    else
      let step := if 0 <? remainder then 1 else -1 in
      let twiceRemainder := if remainder <? 0 then - remainder * 2 else remainder * 2 in
      let value :=
        match policy with
        | trunc => truncated
        | floor => if remainder <? 0 then truncated - 1 else truncated
        | ceil => if 0 <? remainder then truncated + 1 else truncated
        | half_up => if denominator <=? twiceRemainder then truncated + step else truncated
        | half_even =>
            if denominator <? twiceRemainder then truncated + step
            else if twiceRemainder <? denominator then truncated
            else if Z.rem truncated 2 =? 0 then truncated else truncated + step
        end in
      Ok {| value := value; residual := numerator - value * denominator;
            denominator := denominator |}.

Definition applyBps (amount bps : Z) (policy : RoundingPolicy) : result money_error DivisionResult :=
  _ ← throwIf (bps <? 0) (PlainError ("applyBps: bps must not be negative, received " +:+ toString bps));
  divideWithPolicy (amount * bps) BPS_DIVISOR policy.

(** ** The residual ledger *)

Record DustLedger : Type := {
  residualNumerator : Z;
  ledgerPolicy : RoundingPolicy;
  ledgerDenominator : Z;
}.

Definition newDustLedger (policy : RoundingPolicy) (carriedIn denominator : Z)
    : result money_error DustLedger :=
  _ ← throwIf (denominator <=? 0)
        (PlainError ("DustLedger: denominator must be positive, received " +:+ toString denominator));
  Ok {| residualNumerator := carriedIn; ledgerPolicy := policy; ledgerDenominator := denominator |}.

Definition setResidual (l : DustLedger) (r : Z) : DustLedger :=
  {| residualNumerator := r; ledgerPolicy := ledgerPolicy l; ledgerDenominator := ledgerDenominator l |}.

Definition accrue (l : DustLedger) (numerator : Z) : result money_error (DivisionResult * DustLedger) :=
  r ← divideWithPolicy (numerator + residualNumerator l) (ledgerDenominator l) (ledgerPolicy l);
  Ok (r, setResidual l (residual r)).

Definition accrueBps (l : DustLedger) (amount bps : Z) : result money_error (DivisionResult * DustLedger) :=
  accrue l (amount * bps).

Definition settle (l : DustLedger) : Z * DustLedger :=
  let whole := Z.quot (residualNumerator l) (ledgerDenominator l) in
  (whole, setResidual l (residualNumerator l - whole * ledgerDenominator l)).

(** A series of accrual windows on one ledger: the amounts paid and the ledger
    left behind. *)
Fixpoint accrueAll (l : DustLedger) (windows : list Z) : result money_error (list Z * DustLedger) :=
  match windows with
  | [] => Ok ([], l)
  | w :: ws =>
      '(r, l') ← accrue l w;
      '(paid, l'') ← accrueAll l' ws;
      Ok (value r :: paid, l'')
  end.

(** ** Rounding audit records *)

Record RoundingAuditContext : Type := {
  operation : string;
  reference : string;
  auditPolicy : RoundingPolicy;
  auditValue : Z;
  auditResidual : Z;
  auditDenominator : Z;
}.

(** The flat record handed to the logger; [bigint]s are serialised to strings. *)
Record RoundingLogRecord : Type := {
  log_operation : string;
  log_reference : string;
  log_policy : RoundingPolicy;
  log_value : string;
  log_residual : string;
  log_denominator : string;
  log_message : string;
}.

Definition logRoundingAdjustment (ctx : RoundingAuditContext) : RoundingLogRecord := {|
  log_operation := operation ctx;
  log_reference := reference ctx;
  log_policy := auditPolicy ctx;
  log_value := toString (auditValue ctx);
  log_residual := toString (auditResidual ctx);
  log_denominator := toString (auditDenominator ctx);
  log_message := "[MoneyAudit] " +:+ operation ctx +:+ " rounded to "
    +:+ toString (auditValue ctx) +:+ " (residual " +:+ toString (auditResidual ctx)
    +:+ "/" +:+ toString (auditDenominator ctx) +:+ ")";
|}.

(** The result together with the audit records written. *)
Definition divideAndAudit (numerator d : Z) (policy : RoundingPolicy)
    (op ref : string) : result money_error (DivisionResult * list RoundingLogRecord) :=
  r ← divideWithPolicy numerator d policy;
  Ok (r, if negb (residual r =? 0) then
           [logRoundingAdjustment
              {| operation := op; reference := ref; auditPolicy := policy;
                 auditValue := value r; auditResidual := residual r;
                 auditDenominator := denominator r |}]
         else []).

(** ** Decimal strings and stroops *)

(** [TOKEN_CONFIG.decimals]. *)
Definition MONEY_DECIMALS : nat := 7.

Definition I128_MAX : Z := 2 ^ 127 - 1.
Definition I128_MIN : Z := - 2 ^ 127.

(** [BigInt(Number.MAX_SAFE_INTEGER)] *)
Definition MAX_SAFE_STROOPS : Z := 2 ^ 53 - 1.

(** [/^-?\d+(\.\d+)?$/] *)
Definition digits1 (s : string) : bool :=
  negb (bool_decide (s = "")) && str_forall is_digit s.

Definition stripSign (s : string) : bool * string :=
  match s with
  | String c s' => if Ascii.eqb c "-" then (true, s') else (false, s)
  | EmptyString => (false, s)
  end.

Definition DECIMAL_PATTERN (s : string) : bool :=
  match split "." (stripSign s).2 with
  | [w] => digits1 w
  | [w; f] => digits1 w && digits1 f
  | _ => false
  end.

Definition base (decimals : nat) : Z := 10 ^ Z.of_nat decimals.

Definition assertI128Range (stroops : Z) : result money_error Z :=
  if (I128_MAX <? stroops) || (stroops <? I128_MIN) then
    Err (MoneyConversionError ("Amount " +:+ toString stroops +:+
      " is outside the i128 range accepted by the contract"))
  else Ok stroops.

(** A value between double quotes, as the messages print it. *)
Definition dquote (s : string) : string := String "034" (s +:+ String "034" "").

(** The runtime values the function discriminates with [typeof]. *)
Inductive amountArg : Type :=
| AString (s : string)
| ABigint (z : Z)
| AOther (typeof : string).

Definition parseDecimalToStroops (v : amountArg) (decimals : nat) : result money_error Z :=
  match v with
  | ABigint z => assertI128Range (z * base decimals)
  | AOther ty => Err (MoneyConversionError
      ("Monetary values must be decimal strings, received " +:+ ty))
  | AString s =>
      let trimmed := trim s in
      if negb (DECIMAL_PATTERN trimmed) then
        Err (MoneyConversionError ("Invalid decimal amount: " +:+ dquote s))
      else
        let '(negative, unsigned) := stripSign trimmed in
        let '(wholePart, fractionPart) :=
          match split "." unsigned with
          | w :: f :: _ => (w, f)
          | [w] => (w, ""%string)
          | [] => (""%string, ""%string)
          end in
        if (decimals <? strlen fractionPart)%nat then
          Err (MoneyConversionError ("Amount " +:+ dquote s +:+ " has "
            +:+ toString (Z.of_nat (strlen fractionPart))
            +:+ " decimal places; at most " +:+ toString (Z.of_nat decimals)
            +:+ " are representable"))
        else
          let padded := padEnd fractionPart decimals "0" in
          let magnitude := BigInt_digits (wholePart +:+ padded) in
          assertI128Range (if negative then - magnitude else magnitude)
  end.

Definition formatStroopsToDecimal (stroops : Z) (decimals : nat) : string :=
  let divisor := base decimals in
  let negative := stroops <? 0 in
  let magnitude := if negative then - stroops else stroops in
  let whole := Z.quot magnitude divisor in
  let fraction := Z.rem magnitude divisor in
  let sign := if negative && negb (magnitude =? 0) then "-"%string else ""%string in
  sign +:+ toString whole +:+ "." +:+ padStart (toString fraction) decimals "0".

Definition isSafeAsNumber (stroops : Z) : bool :=
  let magnitude := if stroops <? 0 then - stroops else stroops in
  magnitude <=? MAX_SAFE_STROOPS.

(** [values.reduce((acc, v) => acc + parse(v), 0n)]: the first malformed value throws. *)
Fixpoint sumStroops (acc : Z) (values : list string) (decimals : nat) : result money_error Z :=
  match values with
  | [] => Ok acc
  | v :: vs =>
      s ← parseDecimalToStroops (AString v) decimals;
      sumStroops (acc + s) vs decimals
  end.

Definition sumDecimalStrings (values : list string) (decimals : nat) : result money_error string :=
  total ← sumStroops 0 values decimals;
  t ← assertI128Range total;
  Ok (formatStroopsToDecimal t decimals).

Definition normalizeDecimalString (v : amountArg) (decimals : nat) : result money_error string :=
  s ← parseDecimalToStroops v decimals;
  Ok (formatStroopsToDecimal s decimals).

(** ** The zod callbacks

    The predicate passed to [custom], the issues [superRefine] adds and the
    function passed to [transform]. *)

Definition NUMERIC_MONEY_MESSAGE : string :=
  "Monetary amounts must be sent as a decimal string, not a JSON number — a number cannot represent large amounts exactly".

Definition moneyCustom (v : amountArg) : result string unit :=
  match v with
  | AString _ => Ok tt
  | AOther ty => Err (if bool_decide (ty = "number"%string) then NUMERIC_MONEY_MESSAGE
                      else "Amount must be a string"%string)
  | ABigint _ => Err "Amount must be a string"%string
  end.

Definition errorMessage (e : money_error) : string :=
  match e with
  | MoneyConversionError m => m
  | PlainError _ => "Invalid amount"
  end.

Definition moneyStringRefine (decimals : nat) (s : string) : list string :=
  match parseDecimalToStroops (AString s) decimals with
  | Err e => [errorMessage e]
  | Ok stroops => if stroops <=? 0 then ["Amount must be positive"%string] else []
  end.

Definition nonNegativeMoneyStringRefine (decimals : nat) (s : string) : list string :=
  match parseDecimalToStroops (AString s) decimals with
  | Err e => [errorMessage e]
  | Ok stroops => if stroops <? 0 then ["Amount must not be negative"%string] else []
  end.

Definition moneyTransform (decimals : nat) (s : string) : result money_error string :=
  normalizeDecimalString (AString s) decimals.

Example format_ex : formatStroopsToDecimal (-1255000000) 7 = "-125.5000000"%string.
Proof. reflexivity. Qed.
Example parse_ex : parseDecimalToStroops (AString " 125.5 ") 7 = Ok 1255000000.
Proof. reflexivity. Qed.

(** ** Rounded division is what the policy says *)

(** Reference meaning of a policy, independent of how the code computes it. *)
Definition rounds_to (policy : RoundingPolicy) (n d v : Z) : Prop :=
  match policy with
  | trunc => v = Z.quot n d
  | floor => v = n / d
  | ceil => v = - (- n / d)
  | half_up => 2 * Z.abs (n - v * d) ≤ d ∧
      (2 * Z.abs (n - v * d) = d → Z.abs n < Z.abs (v * d))
  | half_even => 2 * Z.abs (n - v * d) ≤ d ∧
      (2 * Z.abs (n - v * d) = d → Z.Even v)
  end.

Lemma quot_rem_facts n d : 0 < d →
  n = Z.quot n d * d + Z.rem n d ∧ Z.abs (Z.rem n d) < d ∧
  (0 ≤ n → 0 ≤ Z.quot n d ∧ 0 ≤ Z.rem n d) ∧ (n ≤ 0 → Z.quot n d ≤ 0 ∧ Z.rem n d ≤ 0).
Proof.
  intros Hd. pose proof (Z.quot_rem' n d). pose proof (Z.rem_bound_abs n d ltac:(lia)).
  split_and!; [lia|lia| |]; intros Hn.
  - split; [apply Z.quot_pos; lia|apply Z.rem_nonneg; lia].
  - split; [|apply Z.rem_nonpos; lia].
    pose proof (Z.quot_pos (- n) d ltac:(lia) Hd) as Hq. rewrite Z.quot_opp_l in Hq by lia. lia.
Qed.

Lemma div_unique_pos n d q r : 0 ≤ r < d → n = d * q + r → n / d = q.
Proof. intros. symmetry. apply Z.div_unique with r; lia. Qed.

Lemma rem2_even t : Z.rem t 2 = 0 → Z.Even t.
Proof. intros H. exists (Z.quot t 2). pose proof (Z.quot_rem' t 2). lia. Qed.

Lemma rem2_odd_step t s : Z.rem t 2 ≠ 0 → s = 1 ∨ s = -1 → Z.Even (t + s).
Proof.
  intros H Hs. rewrite <-Z.even_spec, Z.even_add.
  assert (Z.even t = false) as ->.
  { apply not_true_is_false. rewrite Z.even_spec. intros [k ->].
    apply H. rewrite Z.mul_comm. apply Z.rem_mul. lia. }
  by destruct Hs as [-> | ->].
Qed.

(** All of [divideWithPolicy] on a positive denominator, in one statement; the
    properties below project it. *)
Lemma divideWithPolicy_run n d p : 0 < d →
  ∃ v, divideWithPolicy n d p = Ok {| value := v; residual := n - v * d; denominator := d |}
    ∧ Z.abs (n - v * d) < d ∧ rounds_to p n d v.
Proof.
  intros Hd. unfold divideWithPolicy.
  destruct (Z.leb_spec d 0); [lia|].
  destruct (quot_rem_facts n d Hd) as (Hqr & Hr & Hpos & Hneg).
  set (q := Z.quot n d) in *. set (r := Z.rem n d) in *.
  replace (n - q * d) with r by lia.
  destruct (Z.eqb_spec r 0) as [Hr0|Hr0].
  - exists q. replace (n - q * d) with 0 by lia. split; [done|]. split; [lia|].
    destruct p; cbn; fold q; try done.
    + symmetry. apply div_unique_pos with 0; lia.
    + rewrite (div_unique_pos (- n) d (- q) 0); lia.
    + replace (n - q * d) with 0 by lia. cbn. lia.
    + replace (n - q * d) with 0 by lia. cbn. lia.
  - replace (if r <? 0 then - r * 2 else r * 2) with (2 * Z.abs r) by (destruct (Z.ltb_spec r 0); lia).
    eexists; split; [reflexivity|].
    destruct p; cbn [rounds_to]; fold q; case_ifs; zb;
      repeat split; try lia; try (symmetry; apply div_unique_pos with r; lia);
      try (symmetry; apply div_unique_pos with (r + d); lia).
    all: try (rewrite (div_unique_pos (- n) d (- q) (- r)); lia).
    all: try (rewrite (div_unique_pos (- n) d (- q - 1) (d - r)); lia).
    all: try (intros _; first [by apply rem2_even | apply rem2_odd_step; lia]).
    all: try nia.
Qed.

(** C7: [divideWithPolicy] never throws on a positive denominator; the value
    is the one its rounding policy names (against an independent reference:
    truncation, floor, ceiling, nearest with ties away from zero, nearest with
    ties to even), and the residual returned is exactly what rounding left
    over and is smaller than one unit. *)
Theorem divideWithPolicy_correct n d p (Hd : 0 < d) :
  ∃ r, divideWithPolicy n d p = Ok r ∧ rounds_to p n d (value r) ∧
    value r * d + residual r = n ∧ Z.abs (residual r) < d ∧ denominator r = d.
Proof.
  destruct (divideWithPolicy_run n d p Hd) as (v & -> & Hb & Hr).
  eexists; split; [reflexivity|]; cbn. split_and!; [done|lia|done|done].
Qed.

Lemma divideWithPolicy_correct_witness :
  ∃ r, divideWithPolicy 25 10 half_even = Ok r ∧ rounds_to half_even 25 10 (value r) ∧
    value r * 10 + residual r = 25 ∧ Z.abs (residual r) < 10 ∧ denominator r = 10.
Proof. apply (divideWithPolicy_correct 25 10 half_even). lia. Defined.

(** ** The ledger loses nothing *)

Lemma accrue_run l w : 0 < ledgerDenominator l →
  ∃ r, accrue l w = Ok (r, setResidual l (residual r)) ∧
    value r * ledgerDenominator l + residual r = w + residualNumerator l ∧
    Z.abs (residual r) < ledgerDenominator l.
Proof.
  intros Hd. unfold accrue.
  destruct (divideWithPolicy_run (w + residualNumerator l) (ledgerDenominator l) (ledgerPolicy l) Hd)
    as (v & -> & Hb & _).
  eexists; split; [reflexivity|]. cbn. lia.
Qed.

Lemma accrueAll_run l ws : 0 < ledgerDenominator l →
  ∃ paid l', accrueAll l ws = Ok (paid, l') ∧ ledgerDenominator l' = ledgerDenominator l ∧
    sumZ paid * ledgerDenominator l + residualNumerator l' = residualNumerator l + sumZ ws ∧
    (ws ≠ [] ∨ Z.abs (residualNumerator l) < ledgerDenominator l →
       Z.abs (residualNumerator l') < ledgerDenominator l).
Proof.
  revert l; induction ws as [|w ws IH]; intros l Hd; cbn [accrueAll].
  { exists [], l. cbn. split_and!; [done|done|lia|]. intros [?|?]; [done|lia]. }
  destruct (accrue_run l w Hd) as (r & -> & Hsum & Hb). cbn [mbind result_bind].
  destruct (IH (setResidual l (residual r)) Hd) as (paid & l' & -> & Hd' & Hs' & Hb').
  exists (value r :: paid), l'. cbn in *. split_and!; [done|done| |].
  - unfold sumZ in *. cbn. nia.
  - intros _. apply Hb'. right. done.
Qed.

(** C8: over any sequence of accrual windows the ledger pays out whole stroops
    whose total, plus the residual it still holds, is exactly the carried-in
    residual plus everything accrued; the residual is below one stroop, so the
    total paid never drifts by one stroop or more, and settling afterwards
    releases nothing further. *)
Theorem dust_ledger_exact p carriedIn d ws (Hd : 0 < d) (Hws : ws ≠ []) :
  ∃ l paid l', newDustLedger p carriedIn d = Ok l ∧ accrueAll l ws = Ok (paid, l') ∧
    sumZ paid * d + residualNumerator l' = carriedIn + sumZ ws ∧
    Z.abs (residualNumerator l') < d ∧ settle l' = (0, l').
Proof.
  unfold newDustLedger. destruct (Z.leb_spec d 0); [lia|]. cbn.
  eexists; edestruct accrueAll_run with
    (l := {| residualNumerator := carriedIn; ledgerPolicy := p; ledgerDenominator := d |})
    (ws := ws) as (paid & l' & Hrun & Hd' & Hs & Hb); [done|].
  cbn in *. exists paid, l'. specialize (Hb (or_introl Hws)).
  split_and!; [reflexivity|exact Hrun|lia|lia|].
  unfold settle. rewrite Hd'.
  assert (Z.quot (residualNumerator l') d = 0) as ->.
  { apply Z.quot_small_iff; [lia|]. rewrite (Z.abs_eq d); lia. }
  destruct l'; cbn in *. unfold setResidual. do 2 f_equal; cbn. lia.
Qed.

Lemma dust_ledger_exact_witness :
  ∃ l paid l', newDustLedger trunc 0 10000 = Ok l ∧ accrueAll l [3333; 3333; 3334] = Ok (paid, l') ∧
    sumZ paid * 10000 + residualNumerator l' = 0 + sumZ [3333; 3333; 3334] ∧
    Z.abs (residualNumerator l') < 10000 ∧ settle l' = (0, l').
Proof. apply (dust_ledger_exact trunc 0 10000 [3333; 3333; 3334]); [lia|done]. Defined.

(** ** Conversion of decimal text *)

(** The text of a decimal amount: optional sign, whole digits, optional fraction. *)
Definition decimalText (neg : bool) (w : string) (f : option string) : string :=
  (if neg then "-" else "") +:+ w +:+ match f with Some f => "." +:+ f | None => "" end.

Lemma digits1_spec s : digits1 s = true ↔ s ≠ "" ∧ str_forall is_digit s = true.
Proof. unfold digits1. zb. naive_solver. Qed.

Lemma stripSign_text neg w t : digits1 w = true →
  stripSign ((if neg : bool then "-" else "") +:+ w +:+ t) = (neg, w +:+ t).
Proof.
  intros [Hne Hw]%digits1_spec. destruct neg; [done|].
  destruct w as [|c w]; [done|].
  change (stripSign (String c (w +:+ t)) = (false, String c (w +:+ t))).
  unfold stripSign. destruct (Ascii.eqb_spec c "-") as [->|]; [|done].
  cbn in Hw. discriminate.
Qed.

Lemma digits_nodot w : str_forall is_digit w = true →
  str_forall (λ d, negb (Ascii.eqb d ".")) w = true.
Proof. apply str_forall_impl. intros c Hc. by apply digit_ne. Qed.

Lemma split_text w f : str_forall is_digit w = true →
  (∀ g, f = Some g → str_forall is_digit g = true) →
  split "." (w +:+ match f with Some f => "." +:+ f | None => "" end)
  = match f with Some f => [w; f] | None => [w] end.
Proof.
  intros Hw Hf. destruct f as [f|].
  - change ("." +:+ f) with (String "." f). rewrite split_app by by apply digits_nodot.
    rewrite split_none; [done|]. by apply digits_nodot, Hf.
  - rewrite app_nil_r_str. by apply split_none, digits_nodot.
Qed.

Lemma text_nospace neg w f : str_forall is_digit w = true →
  (∀ g, f = Some g → str_forall is_digit g = true) →
  trim (decimalText neg w f) = decimalText neg w f.
Proof.
  intros Hw Hf. apply trim_nospace. unfold decimalText. rewrite !str_forall_app.
  rewrite (str_forall_impl _ _ w digit_not_space Hw).
  assert (str_forall (λ c, negb (is_space c)) match f with Some f => "." +:+ f | None => "" end = true) as ->.
  { destruct f as [f|]; [|done]. change ("." +:+ f) with (String "." f). cbn [str_forall].
    by rewrite (str_forall_impl _ _ f digit_not_space (Hf f eq_refl)). }
  by destruct neg.
Qed.

(** The amount a decimal text denotes, in stroops. *)
Definition decimalStroops (neg : bool) (w : string) (f : option string) (decimals : nat) : Z :=
  let g := default ""%string f in
  let m := BigInt_digits w * 10 ^ Z.of_nat decimals
           + BigInt_digits g * 10 ^ Z.of_nat (decimals - strlen g) in
  if neg then - m else m.

Lemma parse_text neg w f decimals : digits1 w = true →
  (∀ g, f = Some g → digits1 g = true) → (strlen (default "" f) ≤ decimals)%nat →
  parseDecimalToStroops (AString (decimalText neg w f)) decimals
  = assertI128Range (decimalStroops neg w f decimals).
Proof.
  intros Hw1 Hf1 Hlen. pose proof (proj1 (digits1_spec w) Hw1) as [Hwne Hw].
  assert (Hf : ∀ g, f = Some g → str_forall is_digit g = true)
    by (intros g Hg; by apply digits1_spec, Hf1).
  cbn [parseDecimalToStroops]. rewrite text_nospace by done.
  unfold DECIMAL_PATTERN, decimalText, decimalStroops.
  rewrite stripSign_text by done. cbn [snd]. rewrite split_text by done.
  destruct f as [g|]; rewrite Hw1, ?(Hf1 _ eq_refl);
    cbn [andb negb default from_option id] in *;
    rewrite (proj2 (Nat.ltb_ge _ _)) by done;
    by rewrite BigInt_digits_app, BigInt_digits_padEnd, strlen_padEnd.
Qed.

Lemma assertI128Range_ok v : I128_MIN ≤ v ≤ I128_MAX → assertI128Range v = Ok v.
Proof.
  intros H. unfold assertI128Range.
  by rewrite (proj2 (Z.ltb_ge _ _)), (proj2 (Z.ltb_ge _ _)) by lia.
Qed.

Lemma assertI128Range_inv v r : assertI128Range v = Ok r → r = v ∧ I128_MIN ≤ v ≤ I128_MAX.
Proof.
  unfold assertI128Range. destruct (_ || _) eqn:H; [done|]. zb. intros [= <-]. lia.
Qed.

(** What [formatStroopsToDecimal] prints, as a decimal text. *)
Lemma format_text v d : (1 ≤ d)%nat →
  ∃ w f, formatStroopsToDecimal v d = decimalText (v <? 0) w (Some f) ∧
    digits1 w = true ∧ digits1 f = true ∧ strlen f = d ∧
    BigInt_digits w = Z.abs v / 10 ^ Z.of_nat d ∧ BigInt_digits f = Z.abs v mod 10 ^ Z.of_nat d.
Proof.
  intros Hd. set (B := 10 ^ Z.of_nat d).
  assert (HB : 0 < B) by (apply Z.pow_pos_nonneg; lia).
  assert (Hm : (if v <? 0 then - v else v) = Z.abs v) by (destruct (Z.ltb_spec v 0); lia).
  unfold formatStroopsToDecimal, base. fold B. rewrite Hm.
  rewrite Z.quot_div_nonneg, Z.rem_mod_nonneg by lia.
  assert (Hq : 0 ≤ Z.abs v / B) by (apply Z.div_pos; lia).
  pose proof (Z.mod_pos_bound (Z.abs v) B HB) as Hr.
  unfold toString.
  rewrite (proj2 (Z.ltb_ge (Z.abs v / B) 0)), (proj2 (Z.ltb_ge (Z.abs v mod B) 0)) by lia.
  destruct (natToString_spec (Z.abs v / B) Hq) as (Hw & Hwne & Hwv & _).
  destruct (natToString_spec (Z.abs v mod B) ltac:(lia)) as (Hf & Hfne & Hfv & Hfl).
  specialize (Hfl d Hd ltac:(lia)).
  eexists _, (padStart _ d "0"). split; [|split_and!].
  - unfold decimalText. do 2 f_equal. destruct (Z.ltb_spec v 0); [|done].
    cbn [andb]. by destruct (Z.eqb_spec (Z.abs v) 0); [lia|].
  - by apply digits1_spec.
  - apply digits1_spec. split; [|by apply padStart_digits].
    intros E. apply (f_equal strlen) in E. rewrite strlen_padStart in E by done. cbn in E. lia.
  - by apply strlen_padStart.
  - done.
  - by rewrite BigInt_digits_padStart.
Qed.

Lemma parse_format v d : (1 ≤ d)%nat →
  parseDecimalToStroops (AString (formatStroopsToDecimal v d)) d = assertI128Range v.
Proof.
  intros Hd. destruct (format_text v d Hd) as (w & f & -> & Hw & Hf & Hl & Hwv & Hfv).
  rewrite parse_text; [|done|by intros ? [= <-]|cbn; lia].
  f_equal. unfold decimalStroops. cbn [default from_option id]. rewrite Hwv, Hfv, Hl, Nat.sub_diag, Z.pow_0_r.
  assert (0 < 10 ^ Z.of_nat d) by (apply Z.pow_pos_nonneg; lia).
  pose proof (Z.div_mod (Z.abs v) (10 ^ Z.of_nat d) ltac:(lia)).
  destruct (Z.ltb_spec v 0); lia.
Qed.

(** C40: Formatting then parsing is the identity on every stroop amount the
    contract can carry, at every positive number of decimals: no magnitude
    loses precision on its way through the API or the database. *)
Theorem stroops_roundtrip v d (Hd : (1 ≤ d)%nat) (Hv : I128_MIN ≤ v ≤ I128_MAX) :
  parseDecimalToStroops (AString (formatStroopsToDecimal v d)) d = Ok v.
Proof. rewrite parse_format by done. by apply assertI128Range_ok. Qed.

Lemma stroops_roundtrip_witness :
  parseDecimalToStroops (AString (formatStroopsToDecimal (- 2 ^ 127) MONEY_DECIMALS)) MONEY_DECIMALS
  = Ok (- 2 ^ 127).
Proof. apply (stroops_roundtrip (- 2 ^ 127) MONEY_DECIMALS); [unfold MONEY_DECIMALS; lia|by vm_compute]. Defined.

(** A well-formed decimal text (optional sign, whole digits, at most
    [decimals] fraction digits) is converted to exactly the amount it denotes,
    and rejected precisely when that amount leaves the i128 range. *)
Theorem parse_decimal_value neg w f decimals
    (Hw : digits1 w = true) (Hf : ∀ g, f = Some g → digits1 g = true)
    (Hlen : (strlen (default "" f) ≤ decimals)%nat) :
  let s := decimalStroops neg w f decimals in
  (I128_MIN ≤ s ≤ I128_MAX ∧ parseDecimalToStroops (AString (decimalText neg w f)) decimals = Ok s)
  ∨ (¬ I128_MIN ≤ s ≤ I128_MAX ∧
     ∃ m, parseDecimalToStroops (AString (decimalText neg w f)) decimals = Err (MoneyConversionError m)).
Proof.
  intros s. rewrite parse_text by done. fold s. unfold assertI128Range.
  destruct ((I128_MAX <? s) || (s <? I128_MIN)) eqn:H; zb; [right|left].
  - split; [lia|]. by eexists.
  - split; [lia|done].
Qed.

Lemma parse_decimal_value_witness :
  let s := decimalStroops true "12" (Some "05"%string) 7 in
  (I128_MIN ≤ s ≤ I128_MAX ∧ parseDecimalToStroops (AString (decimalText true "12" (Some "05"%string))) 7 = Ok s)
  ∨ (¬ I128_MIN ≤ s ≤ I128_MAX ∧
     ∃ m, parseDecimalToStroops (AString (decimalText true "12" (Some "05"%string))) 7 = Err (MoneyConversionError m)).
Proof. apply (parse_decimal_value true "12" (Some "05"%string) 7); [done|by intros ? [= <-]|cbn; lia]. Defined.

Lemma parse_range s d v : parseDecimalToStroops s d = Ok v → I128_MIN ≤ v ≤ I128_MAX.
Proof.
  unfold parseDecimalToStroops. repeat case_match; intros Hv; try done.
  all: by apply assertI128Range_inv in Hv as [-> ?].
Qed.

(** Normalisation is canonical: whatever spelling of an amount was
    accepted, normalising its canonical string again changes nothing. *)
Theorem normalize_idempotent a d s (Hd : (1 ≤ d)%nat)
    (Hs : normalizeDecimalString a d = Ok s) :
  normalizeDecimalString (AString s) d = Ok s.
Proof.
  unfold normalizeDecimalString in *. apply bind_Ok in Hs as (v & Hv & [= <-]).
  rewrite parse_format by done.
  by rewrite assertI128Range_ok by (by eapply parse_range).
Qed.

Lemma normalize_idempotent_witness :
  normalizeDecimalString (AString "0001.50") 7 = Ok "1.5000000"%string ∧
  normalizeDecimalString (AString "1.5000000") 7 = Ok "1.5000000"%string.
Proof.
  split; [reflexivity|].
  apply (normalize_idempotent (AString "0001.50") 7 "1.5000000"); [lia|reflexivity].
Defined.

(** The money schema is sound: a value on which the refinement adds no
    issue is never rejected by the transform; the canonical string the handler
    receives denotes a strictly positive amount inside the i128 range, the same
    one the client sent. *)
Theorem moneyString_sound d s (Hd : (1 ≤ d)%nat) (Hs : moneyStringRefine d s = []) :
  ∃ v t, parseDecimalToStroops (AString s) d = Ok v ∧ 0 < v ≤ I128_MAX ∧
    moneyTransform d s = Ok t ∧ parseDecimalToStroops (AString t) d = Ok v.
Proof.
  unfold moneyStringRefine in Hs. unfold moneyTransform, normalizeDecimalString.
  destruct (parseDecimalToStroops (AString s) d) as [v|e] eqn:Hp; [|done].
  destruct (Z.leb_spec v 0) as [|Hv]; [done|].
  pose proof (parse_range _ _ _ Hp).
  exists v, (formatStroopsToDecimal v d). split_and!; [done|lia|lia|done|].
  rewrite parse_format by done. by apply assertI128Range_ok.
Qed.

Lemma moneyString_sound_witness :
  ∃ v t, parseDecimalToStroops (AString "12.5") 7 = Ok v ∧ 0 < v ≤ I128_MAX ∧
    moneyTransform 7 "12.5" = Ok t ∧ parseDecimalToStroops (AString t) 7 = Ok v.
Proof. apply (moneyString_sound 7 "12.5"); [lia|reflexivity]. Defined.

Lemma sumStroops_run vals strs acc d :
  Forall2 (λ s v, parseDecimalToStroops (AString s) d = Ok v) strs vals →
  sumStroops acc strs d = Ok (acc + sumZ vals).
Proof.
  intros H; revert acc; induction H as [|s v strs vals Hv _ IH]; intros acc; cbn [sumStroops].
  - f_equal. unfold sumZ; cbn; lia.
  - rewrite Hv. cbn [mbind result_bind]. rewrite IH. f_equal. unfold sumZ; cbn; lia.
Qed.

(** Summing decimal strings is exact: the result denotes the integer sum
    of the amounts, and the only failure on well-formed inputs is a total
    outside the i128 range. *)
Theorem sumDecimalStrings_exact strs vals d (Hd : (1 ≤ d)%nat)
    (Hall : Forall2 (λ s v, parseDecimalToStroops (AString s) d = Ok v) strs vals) :
  match sumDecimalStrings strs d with
  | Ok t => parseDecimalToStroops (AString t) d = Ok (sumZ vals)
  | Err _ => ¬ I128_MIN ≤ sumZ vals ≤ I128_MAX
  end.
Proof.
  unfold sumDecimalStrings. rewrite (sumStroops_run vals) by done. cbn [mbind result_bind].
  rewrite Z.add_0_l. destruct (assertI128Range (sumZ vals)) as [v|e] eqn:Hv; cbn [mbind result_bind].
  - apply assertI128Range_inv in Hv as [-> ?]. rewrite parse_format by done.
    by apply assertI128Range_ok.
  - intros Hr. by rewrite assertI128Range_ok in Hv.
Qed.

Lemma sumDecimalStrings_exact_witness :
  match sumDecimalStrings ["1.5"%string; "2"%string] 7 with
  | Ok t => parseDecimalToStroops (AString t) 7 = Ok (sumZ [15000000; 20000000])
  | Err _ => ¬ I128_MIN ≤ sumZ [15000000; 20000000] ≤ I128_MAX
  end.
Proof.
  apply (sumDecimalStrings_exact ["1.5"%string; "2"%string] [15000000; 20000000] 7); [lia|].
  repeat constructor.
Defined.

(** At zero decimals the formatter still prints one fraction digit, against
    its promise of exactly [decimals] of them, and the parser rejects its output. *)
Theorem format_zero_decimals :
  formatStroopsToDecimal 5 0 = "5.0"%string ∧
  ∃ m, parseDecimalToStroops (AString (formatStroopsToDecimal 5 0)) 0 = Err (MoneyConversionError m).
Proof. split; [reflexivity|]. eexists. reflexivity. Qed.
