(* ===== verification/FeeComputation.v ===== *)
(** * Platform fees: [backend/src/lib/feeComputation.ts]

    One breakdown per trade outcome; amounts travel as decimal strings, as in
    the source. The section [Contract] translates the two checked fee helpers
    of the Soroban contract and the payout computation of [resolve_dispute], so
    that "mirrors on-chain" is a theorem. *)

From S2P Require Import Prelude JsString Money.

Inductive TradeOutcome : Type := release | refund | split_ | full_seller | full_buyer.

Record FeeBreakdown : Type := {
  outcome : TradeOutcome;
  total : string;
  fee : string;
  sellerNet : string;
  buyerRefund : string;
  feeBps_ : jsnum;
  feeDust : string;
  calculatedAt : Z;
}.

(** [BigInt(feeBps)] *)
Definition bpsOfNumber (feeBps : jsnum) : result money_error Z :=
  match BigInt_number feeBps with
  | Some z => Ok z
  | None => Err (PlainError "RangeError")
  end.

Section Fees.
(** [new Date()] *)
Context (now : Z).

Definition computeReleaseFee (amount : Z) (feeBps : jsnum) : result money_error FeeBreakdown :=
  bps ← bpsOfNumber feeBps;
  r ← applyBps amount bps CONTRACT_ROUNDING;
  let fee := value r in
  let sellerNet := amount - fee in
  Ok {| outcome := release; total := toString amount; fee := toString fee;
        sellerNet := toString sellerNet; buyerRefund := "0"; feeBps_ := feeBps;
        feeDust := toString (residual r); calculatedAt := now |}.

Definition computeRefundFee (amount : Z) (feeBps : jsnum) : FeeBreakdown :=
  {| outcome := refund; total := toString amount; fee := "0"; sellerNet := "0";
     buyerRefund := toString amount; feeBps_ := feeBps; feeDust := "0"; calculatedAt := now |}.

Definition computeSplitFee (amount sellerGetsBps sellerLossBps : Z) (feeBps : jsnum)
    : result money_error FeeBreakdown :=
  let lossBps := BPS_DIVISOR - sellerGetsBps in
  r1 ← divideWithPolicy (amount * lossBps * sellerLossBps) (BPS_DIVISOR * BPS_DIVISOR) CONTRACT_ROUNDING;
  let sellerRaw := amount - value r1 in
  let buyerRefund := amount - sellerRaw in
  bps ← bpsOfNumber feeBps;
  r ← applyBps sellerRaw bps CONTRACT_ROUNDING;
  let fee := value r in
  let sellerNet := sellerRaw - fee in
  Ok {| outcome := split_; total := toString amount; fee := toString fee;
        sellerNet := toString sellerNet; buyerRefund := toString buyerRefund; feeBps_ := feeBps;
        feeDust := toString (residual r); calculatedAt := now |}.

Definition computeFullSellerFee (amount : Z) (feeBps : jsnum) : result money_error FeeBreakdown :=
  bps ← bpsOfNumber feeBps;
  r ← applyBps amount bps CONTRACT_ROUNDING;
  let fee := value r in
  let sellerNet := amount - fee in
  Ok {| outcome := full_seller; total := toString amount; fee := toString fee;
        sellerNet := toString sellerNet; buyerRefund := "0"; feeBps_ := feeBps;
        feeDust := toString (residual r); calculatedAt := now |}.

Definition computeFullBuyerFee (amount : Z) (feeBps : jsnum) : FeeBreakdown :=
  {| outcome := full_buyer; total := toString amount; fee := "0"; sellerNet := "0";
     buyerRefund := toString amount; feeBps_ := feeBps; feeDust := "0"; calculatedAt := now |}.

Definition computeFee (o : TradeOutcome) (amount : Z) (feeBps : jsnum)
    (sellerGetsBps sellerLossBps : Z) : result money_error FeeBreakdown :=
  match o with
  | release => computeReleaseFee amount feeBps
  | refund => Ok (computeRefundFee amount feeBps)
  | split_ => computeSplitFee amount sellerGetsBps sellerLossBps feeBps
  | full_seller => computeFullSellerFee amount feeBps
  | full_buyer => Ok (computeFullBuyerFee amount feeBps)
  end.
End Fees.

(** [BigInt(s)], a [SyntaxError] when the text is not an integer. *)
Definition bigIntOfString (s : string) : result money_error Z :=
  match BigInt_string s with
  | Some z => Ok z
  | None => Err (PlainError "SyntaxError")
  end.

Definition outcomeName (o : TradeOutcome) : string :=
  match o with
  | release => "release" | refund => "refund" | split_ => "split"
  | full_seller => "full_seller" | full_buyer => "full_buyer"
  end.

Definition assertFeeConservation (b : FeeBreakdown) : result money_error unit :=
  t ← bigIntOfString (total b);
  n ← bigIntOfString (sellerNet b);
  r ← bigIntOfString (buyerRefund b);
  f ← bigIntOfString (fee b);
  let sum := n + r + f in
  throwIf (negb (sum =? t))
    (PlainError ("[" +:+ outcomeName (outcome b) +:+ "] fee conservation violated: "
      +:+ sellerNet b +:+ " + " +:+ buyerRefund b +:+ " + " +:+ fee b +:+ " = "
      +:+ toString sum +:+ " ≠ " +:+ total b)).

(** ** The on-chain computation ([contracts/amana_escrow/src/lib.rs])

    [i128] products are checked: overflow panics, which is [None]. *)
Module Contract.
Definition in_i128 (z : Z) : bool := (I128_MIN <=? z) && (z <=? I128_MAX).
Definition checked_mul (a b : Z) : option Z := if in_i128 (a * b) then Some (a * b) else None.

Definition checked_fee_amount (amount fee_bps : Z) : option Z :=
  p ← checked_mul amount fee_bps; Some (Z.quot p BPS_DIVISOR).

Definition checked_loss_amount (total loss_bps seller_loss_bps : Z) : option Z :=
  p ← checked_mul total loss_bps;
  q ← checked_mul p seller_loss_bps;
  Some (Z.quot q (BPS_DIVISOR * BPS_DIVISOR)).

(** The payout part of [resolve_dispute]: (seller_net, buyer_refund, fee). *)
Definition resolve_payout (total seller_gets_bps seller_loss_bps fee_bps : Z) : option (Z * Z * Z) :=
  let loss_bps := BPS_DIVISOR - seller_gets_bps in
  seller_loss ← checked_loss_amount total loss_bps seller_loss_bps;
  let seller_raw := total - seller_loss in
  let buyer_refund := total - seller_raw in
  fee ← checked_fee_amount seller_raw fee_bps;
  let seller_net := seller_raw - fee in
  if (0 <=? seller_net) && (0 <=? buyer_refund) && (0 <=? fee)
     && (seller_net + buyer_refund + fee =? total)
  then Some (seller_net, buyer_refund, fee) else None.
End Contract.

(** ** Lemmas *)

Lemma bigIntOfString_toString z : bigIntOfString (toString z) = Ok z.
Proof. unfold bigIntOfString. by rewrite BigInt_toString. Qed.

Lemma bigIntOfString_0 : bigIntOfString "0" = Ok 0.
Proof. reflexivity. Qed.

Lemma trunc_run n d : 0 < d →
  divideWithPolicy n d trunc = Ok {| value := Z.quot n d; residual := Z.rem n d; denominator := d |}.
Proof.
  intros Hd. destruct (divideWithPolicy_run n d trunc Hd) as (v & -> & _ & ->).
  pose proof (Z.quot_rem' n d). do 2 f_equal. lia.
Qed.

Lemma applyBps_trunc amount bps : 0 ≤ bps →
  applyBps amount bps CONTRACT_ROUNDING =
  Ok {| value := Z.quot (amount * bps) 10000; residual := Z.rem (amount * bps) 10000;
        denominator := BPS_DIVISOR |}.
Proof.
  intros H. unfold applyBps, throwIf. rewrite (proj2 (Z.ltb_ge _ _)) by done.
  cbn [mbind result_bind]. by rewrite trunc_run by (unfold BPS_DIVISOR; lia).
Qed.

(** The integer content of a successful breakdown. *)
Definition sellerRaw (amount sellerGetsBps sellerLossBps : Z) : Z :=
  amount - Z.quot (amount * (10000 - sellerGetsBps) * sellerLossBps) 100000000.

(** What a seller's gross amount and the buyer's refund are, per outcome. *)
Definition gross (o : TradeOutcome) (amount sg sl : Z) : Z :=
  match o with
  | release | full_seller => amount
  | refund | full_buyer => 0
  | split_ => sellerRaw amount sg sl
  end.

Lemma computeFee_run now o amount bps sg sl : 0 ≤ bps →
  let g := gross o amount sg sl in
  computeFee now o amount (JInt bps) sg sl = Ok
    {| outcome := o; total := toString amount; fee := toString (Z.quot (g * bps) 10000);
       sellerNet := toString (g - Z.quot (g * bps) 10000); buyerRefund := toString (amount - g);
       feeBps_ := JInt bps; feeDust := toString (Z.rem (g * bps) 10000); calculatedAt := now |}.
Proof.
  intros Hb g. destruct o; unfold computeFee, computeReleaseFee, computeFullSellerFee,
    computeSplitFee, computeRefundFee, computeFullBuyerFee, g, gross;
    change (bpsOfNumber (JInt bps)) with (@Ok money_error Z bps); cbn [mbind result_bind].
  - rewrite applyBps_trunc by done. cbn [mbind result_bind value residual]. by rewrite Z.sub_diag.
  - rewrite (Z.sub_0_r amount). reflexivity.
  - unfold CONTRACT_ROUNDING at 1. rewrite trunc_run by (unfold BPS_DIVISOR; lia).
    cbn [mbind result_bind value]. by rewrite applyBps_trunc by done.
  - rewrite applyBps_trunc by done. cbn [mbind result_bind value residual]. by rewrite Z.sub_diag.
  - rewrite (Z.sub_0_r amount). reflexivity.
Qed.

Lemma quot_bps_bounds g bps : 0 ≤ g → 0 ≤ bps ≤ 10000 →
  0 ≤ Z.quot (g * bps) 10000 ≤ g ∧ 0 ≤ Z.rem (g * bps) 10000 < 10000.
Proof.
  intros Hg Hb. rewrite Z.quot_div_nonneg, Z.rem_mod_nonneg by nia.
  pose proof (Z.mod_pos_bound (g * bps) 10000 ltac:(lia)).
  split; [|lia]. split; [apply Z.div_pos; nia|].
  apply Z.div_le_upper_bound; nia.
Qed.

Lemma sellerRaw_bounds amount sg sl : 0 ≤ amount → 0 ≤ sg ≤ 10000 → 0 ≤ sl ≤ 10000 →
  0 ≤ sellerRaw amount sg sl ≤ amount.
Proof.
  intros Ha Hg Hl. unfold sellerRaw.
  assert (0 ≤ amount * (10000 - sg) * sl) by (apply Z.mul_nonneg_nonneg; nia).
  assert (amount * (10000 - sg) * sl ≤ amount * 100000000).
  { rewrite <-Z.mul_assoc. apply Z.mul_le_mono_nonneg_l; [done|]. nia. }
  rewrite Z.quot_div_nonneg by lia.
  pose proof (Z.div_pos (amount * (10000 - sg) * sl) 100000000 ltac:(lia) ltac:(lia)).
  pose proof (Z.div_le_upper_bound (amount * (10000 - sg) * sl) 100000000 amount
    ltac:(lia) ltac:(lia)). lia.
Qed.

Lemma gross_bounds o amount sg sl : 0 ≤ amount → 0 ≤ sg ≤ 10000 → 0 ≤ sl ≤ 10000 →
  0 ≤ gross o amount sg sl ≤ amount.
Proof. intros. destruct o; cbn; try lia. by apply sellerRaw_bounds. Qed.

(** ** Properties *)

(** C9: for every outcome, every amount (of either sign), every mediator ruling
    and loss ratio, and every nonnegative integral fee, the breakdown is
    produced and passes the conservation check: seller net, buyer refund and
    fee sum to the escrowed total, to the stroop. *)
Theorem computeFee_conserves now o amount bps sg sl (Hb : 0 ≤ bps) :
  ∃ b, computeFee now o amount (JInt bps) sg sl = Ok b ∧ total b = toString amount ∧
    assertFeeConservation b = Ok tt.
Proof.
  rewrite computeFee_run by done. eexists; split; [reflexivity|]. split; [reflexivity|].
  unfold assertFeeConservation. cbn [total sellerNet buyerRefund fee].
  rewrite !bigIntOfString_toString. cbn [mbind result_bind].
  apply throwIf_Ok. zb. lia.
Qed.

Lemma computeFee_conserves_witness :
  ∃ b, computeFee 0 split_ 12345 (JInt 100) 7000 4000 = Ok b ∧ total b = toString 12345 ∧
    assertFeeConservation b = Ok tt.
Proof. apply (computeFee_conserves 0 split_ 12345 100 7000 4000). lia. Defined.

(** With a fee, a ruling and a loss share between 0 and 10000 bps, nobody
    is paid a negative amount or more than the escrow, and the dust reported is
    in [0, 10000) as documented. *)
Theorem computeFee_bounds now o amount bps sg sl
    (Ha : 0 ≤ amount) (Hb : 0 ≤ bps ≤ 10000) (Hg : 0 ≤ sg ≤ 10000) (Hl : 0 ≤ sl ≤ 10000) :
  ∃ b n r f d, computeFee now o amount (JInt bps) sg sl = Ok b ∧
    bigIntOfString (sellerNet b) = Ok n ∧ bigIntOfString (buyerRefund b) = Ok r ∧
    bigIntOfString (fee b) = Ok f ∧ bigIntOfString (feeDust b) = Ok d ∧
    0 ≤ n ≤ amount ∧ 0 ≤ r ≤ amount ∧ 0 ≤ f ≤ amount ∧ 0 ≤ d < 10000.
Proof.
  pose proof (gross_bounds o amount sg sl Ha Hg Hl) as HG.
  pose proof (quot_bps_bounds (gross o amount sg sl) bps ltac:(lia) Hb) as [HQ HR].
  rewrite computeFee_run by lia. do 5 eexists. split; [reflexivity|].
  cbn [sellerNet buyerRefund fee feeDust]. rewrite !bigIntOfString_toString.
  split_and!; try reflexivity; lia.
Qed.

Lemma computeFee_bounds_witness :
  ∃ b n r f d, computeFee 0 release 999 (JInt 100) 10000 5000 = Ok b ∧
    bigIntOfString (sellerNet b) = Ok n ∧ bigIntOfString (buyerRefund b) = Ok r ∧
    bigIntOfString (fee b) = Ok f ∧ bigIntOfString (feeDust b) = Ok d ∧
    0 ≤ n ≤ 999 ∧ 0 ≤ r ≤ 999 ∧ 0 ≤ f ≤ 999 ∧ 0 ≤ d < 10000.
Proof. apply (computeFee_bounds 0 release 999 100 10000 5000); lia. Defined.

(** C10: parity with the chain: whenever the contract's payout computation does
    not panic, the backend's split breakdown carries exactly the contract's
    seller net, buyer refund and fee. *)
Theorem computeSplitFee_refines_contract now total sg sl bps n r f (Hb : 0 ≤ bps)
    (Hc : Contract.resolve_payout total sg sl bps = Some (n, r, f)) :
  ∃ b, computeSplitFee now total sg sl (JInt bps) = Ok b ∧
    sellerNet b = toString n ∧ buyerRefund b = toString r ∧ fee b = toString f.
Proof.
  change (computeSplitFee now total sg sl (JInt bps)) with (computeFee now split_ total (JInt bps) sg sl).
  rewrite computeFee_run by done. eexists; split; [reflexivity|].
  unfold Contract.resolve_payout, Contract.checked_loss_amount, Contract.checked_fee_amount,
    Contract.checked_mul in Hc.
  change (BPS_DIVISOR * BPS_DIVISOR) with 100000000 in Hc. change BPS_DIVISOR with 10000 in Hc.
  cbn [gross sellerNet buyerRefund fee]. unfold sellerRaw.
  repeat (case_match; cbn in Hc; try discriminate Hc). by simplify_eq.
Qed.

Lemma computeSplitFee_refines_contract_witness :
  ∃ b, computeSplitFee 0 10000 7000 4000 (JInt 100) = Ok b ∧
    sellerNet b = toString 8712 ∧ buyerRefund b = toString 1200 ∧ fee b = toString 88.
Proof. apply (computeSplitFee_refines_contract 0 10000 7000 4000 100 8712 1200 88); [lia|reflexivity]. Defined.

(** A fee that is negative or not an integer is refused on every path that
    charges one, before any breakdown is produced. *)
Theorem computeFee_rejects_bad_bps now o amount feeBps sg sl
    (Ho : o = release ∨ o = split_ ∨ o = full_seller) (Hf : isInteger feeBps = false ∨ jlt feeBps 0 = true) :
  ∃ m, computeFee now o amount feeBps sg sl = Err (PlainError m).
Proof.
  assert (Hr : bpsOfNumber feeBps = Err (PlainError "RangeError") ∨
    ∃ b m, bpsOfNumber feeBps = Ok b ∧ ∀ g, applyBps g b CONTRACT_ROUNDING = Err (PlainError m)).
  { destruct feeBps as [z| | | |]; [right|by left..]. destruct Hf as [|Hf]; [done|]. cbn in Hf.
    eexists z, _. split; [done|]. intros g. unfold applyBps. by rewrite Hf. }
  destruct Ho as [-> | [-> | ->]]; cbn [computeFee];
    unfold computeReleaseFee, computeFullSellerFee, computeSplitFee;
    rewrite ?(trunc_run _ (BPS_DIVISOR * BPS_DIVISOR)) by (unfold BPS_DIVISOR; lia);
    destruct Hr as [-> | (b & m & -> & Hm)]; cbn [mbind result_bind]; rewrite ?Hm; by eexists.
Qed.

Lemma computeFee_rejects_bad_bps_witness :
  ∃ m, computeFee 0 release 100 (JNonInt 1) 10000 5000 = Err (PlainError m).
Proof. apply (computeFee_rejects_bad_bps 0 release 100 (JNonInt 1) 10000 5000); [by left|by left]. Defined.

(** The "full buyer" breakdown is what the chain pays at a zero ruling only
    when the seller's loss share is the whole loss; at the default 50/50 loss
    ratio the contract still pays the seller half, while the backend's mirror
    reports a full refund. *)
Theorem full_buyer_diverges_from_ruling_zero :
  (∀ now amount, 0 ≤ amount → ∃ b, computeSplitFee now amount 0 10000 (JInt 100) = Ok b ∧
     buyerRefund b = buyerRefund (computeFullBuyerFee now amount (JInt 100)) ∧ sellerNet b = "0"%string) ∧
  Contract.resolve_payout 1000 0 5000 100 = Some (495, 500, 5) ∧
  buyerRefund (computeFullBuyerFee 0 1000 (JInt 100)) = "1000"%string.
Proof.
  split; [|by split].
  intros now amount Ha.
  change (computeSplitFee now amount 0 10000 (JInt 100)) with (computeFee now split_ amount (JInt 100) 0 10000).
  rewrite computeFee_run by lia. eexists; split; [reflexivity|].
  assert (gross split_ amount 0 10000 = 0) as ->.
  { cbn. unfold sellerRaw. replace (amount * (10000 - 0) * 10000) with (amount * 100000000) by lia.
    rewrite Z.quot_mul by lia. lia. }
  cbn [buyerRefund sellerNet]. split; [|done]. by rewrite Z.sub_0_r.
Qed.
