(* ===== verification/LossAllocation.v ===== *)
(** * Loss-ratio allocation: [backend/src/lib/lossAllocation.ts]

    Largest-remainder (Hamilton) allocation of an escrow total over basis-point
    shares, its two-party wrapper and the zero-dust assertion. Thrown [Error]s
    are their messages. *)

From S2P Require Import Prelude JsString.

Definition BPS_DIVISOR : Z := 10000.

Record AllocationInput : Type := { in_total : Z; sharesBps : list Z }.

Record AllocationResult : Type := {
  exact : list Z;
  allocated : list Z;
  remainder : Z;
  sum : Z;
}.

(** The remainder entries [{ index, remainder }]. *)
Definition entry : Type := nat * Z.

(** [(a, b) => a.remainder > b.remainder ? -1 : a.remainder < b.remainder ? 1 : 0] *)
Definition byRemainderDesc (a b : entry) : Z :=
  if b.2 <? a.2 then -1 else if a.2 <? b.2 then 1 else 0.

(** [for (i = 0; i < n && remainingStroops > 0n; i++)
      { allocated[remainders[i].index] += 1n; remainingStroops -= 1n }] *)
Fixpoint distribute (rs : list entry) (remaining : Z) (alloc : list Z) : list Z :=
  match rs with
  | [] => alloc
  | r :: rs' =>
      if 0 <? remaining then distribute rs' (remaining - 1) (alter (λ x, x + 1) r.1 alloc)
      else alloc
  end.

Definition products (i : AllocationInput) : list Z := map (λ s, in_total i * s) (sharesBps i).
Definition floorOf (product : Z) : Z := Z.quot product BPS_DIVISOR.
Definition remainderOf (product : Z) : Z := product - floorOf product * BPS_DIVISOR.

Definition largestRemainderAllocation (i : AllocationInput) : result string AllocationResult :=
  _ ← throwIf (in_total i <? 0) "total must be non-negative"%string;
  let sharesSum := foldl Z.add 0 (sharesBps i) in
  _ ← throwIf (negb (sharesSum =? BPS_DIVISOR))
        ("sharesBps must sum to " +:+ toString BPS_DIVISOR +:+ ", got " +:+ toString sharesSum);
  _ ← throwIf (existsb (λ s, s <? 0) (sharesBps i)) "sharesBps must contain only non-negative values"%string;
  let floored := map floorOf (products i) in
  let remainders : list entry := imap (λ k p, (k, remainderOf p)) (products i) in
  let assignedSum := foldl Z.add 0 floored in
  let remainingStroops := in_total i - assignedSum in
  let sorted := js_sort byRemainderDesc remainders in
  let allocated := distribute sorted remainingStroops floored in
  Ok {| exact := map (λ e, Z.quot e BPS_DIVISOR) (products i);
        allocated := allocated;
        remainder := in_total i - assignedSum;
        sum := foldl Z.add 0 allocated |}.

Definition splitLossRatio (total buyerLossBps sellerLossBps : Z) : result string (option Z * option Z) :=
  _ ← throwIf (negb (buyerLossBps + sellerLossBps =? BPS_DIVISOR))
        ("buyerLossBps + sellerLossBps must equal " +:+ toString BPS_DIVISOR +:+ ", got "
          +:+ toString (buyerLossBps + sellerLossBps));
  r ← largestRemainderAllocation {| in_total := total; sharesBps := [buyerLossBps; sellerLossBps] |};
  Ok (allocated r !! 0%nat, allocated r !! 1%nat).

Definition assertZeroDust (r : AllocationResult) (total : Z) : result string unit :=
  throwIf (negb (sum r =? total))
    ("zero-dust invariant violated: sum " +:+ toString (sum r) +:+ " ≠ total " +:+ toString total).

(** ** Lemmas *)

Lemma byRemainderDesc_le a b : cmp_le byRemainderDesc a b ↔ b.2 ≤ a.2.
Proof. unfold cmp_le, byRemainderDesc. case_ifs; zb; lia. Qed.

Lemma sorted_desc l : StronglySorted (λ a b : entry, b.2 ≤ a.2) (js_sort byRemainderDesc l).
Proof.
  assert (StronglySorted (cmp_le byRemainderDesc) (js_sort byRemainderDesc l)) as H.
  { apply js_sort_sorted.
    - intros x y. rewrite !byRemainderDesc_le. lia.
    - intros x y z. rewrite !byRemainderDesc_le. lia. }
  induction H as [|x l' _ IH Hx]; constructor; [done|].
  eapply Forall_impl; [exact Hx|]. intros y. apply byRemainderDesc_le.
Qed.

Lemma fmap_add_0 (o : option Z) : (λ x, x + 0) <$> o = o.
Proof. destruct o; cbn; [f_equal; lia|done]. Qed.

(** The loop bumps exactly the first [remaining] indices. *)
Lemma distribute_lookup rs k alloc j : 
  NoDup (rs.*1) →
  distribute rs (Z.of_nat k) alloc !! j =
    (λ x, x + (if bool_decide (j ∈ (take k rs).*1) then 1 else 0)) <$> alloc !! j.
Proof.
  revert k alloc; induction rs as [|[i r] rs IH]; intros k alloc Hnd; cbn [distribute].
  { rewrite take_nil, bool_decide_eq_false_2 by set_solver.
    symmetry. apply fmap_add_0. }
  inversion Hnd as [|?? Hi Hnd']; subst. destruct k as [|k].
  { rewrite take_0, bool_decide_eq_false_2 by set_solver.
    symmetry. apply fmap_add_0. }
  destruct (Z.ltb_spec 0 (Z.of_nat (S k))); [|lia].
  replace (Z.of_nat (S k) - 1) with (Z.of_nat k) by lia. rewrite IH by done. cbn [fst take fmap list_fmap].
  destruct (decide (i = j)) as [->|Hne].
  - rewrite list_lookup_alter_eq, <-option_fmap_compose.
    assert (j ∉ (take k rs).*1). { intros Hj. apply Hi. revert Hj. rewrite !list_elem_of_fmap. intros (e & -> & He). exists e. split; [done|]. by eapply elem_of_take_in. }
    rewrite (bool_decide_eq_false_2 _ H0), bool_decide_eq_true_2 by set_solver.
    destruct (alloc !! j); cbn; [f_equal; lia|done].
  - rewrite list_lookup_alter_ne by done.
    erewrite (bool_decide_ext (j ∈ i :: (take k rs).*1) (j ∈ (take k rs).*1)); [done|].
    set_solver.
Qed.

Lemma sumZ_alter i l : (i < length l)%nat → sumZ (alter (λ x, x + 1) i l) = sumZ l + 1.
Proof.
  unfold sumZ. revert i; induction l as [|x l IH]; intros i; cbn; [lia|].
  destruct i as [|i]; cbn; [lia|]. intros Hi. pose proof (IH i ltac:(lia)). unfold alter in *. lia.
Qed.

Lemma distribute_sum rs k alloc : (k ≤ length rs)%nat →
  Forall (λ e : entry, (e.1 < length alloc)%nat) rs →
  sumZ (distribute rs (Z.of_nat k) alloc) = sumZ alloc + Z.of_nat k.
Proof.
  revert k alloc; induction rs as [|e rs IH]; intros k alloc Hk Hrs; cbn [distribute].
  { cbn in Hk. replace k with 0%nat by lia. cbn. lia. }
  destruct k as [|k]; [change (sumZ alloc = sumZ alloc + 0); lia|].
  destruct (Z.ltb_spec 0 (Z.of_nat (S k))); [|lia].
  replace (Z.of_nat (S k) - 1) with (Z.of_nat k) by lia.
  inversion Hrs; subst. rewrite IH; cbn in Hk; [|lia|].
  - rewrite sumZ_alter by done. lia.
  - by rewrite length_alter.
Qed.

(** An input the contract would accept. *)
Definition validInput (i : AllocationInput) : Prop :=
  0 ≤ in_total i ∧ sumZ (sharesBps i) = BPS_DIVISOR ∧ Forall (λ s, 0 ≤ s) (sharesBps i).

Lemma floor_remainder p : 0 ≤ p → p = floorOf p * 10000 + remainderOf p ∧
  0 ≤ remainderOf p < 10000 ∧ 0 ≤ floorOf p.
Proof.
  intros Hp. unfold remainderOf, floorOf, BPS_DIVISOR. rewrite Z.quot_div_nonneg by lia.
  pose proof (Z.div_mod p 10000 ltac:(lia)). pose proof (Z.mod_pos_bound p 10000 ltac:(lia)).
  pose proof (Z.div_pos p 10000 Hp ltac:(lia)). lia.
Qed.

Lemma sum_floor_remainder ps : Forall (λ p, 0 ≤ p) ps →
  sumZ ps = 10000 * sumZ (map floorOf ps) + sumZ (map remainderOf ps).
Proof.
  unfold sumZ. induction 1 as [|p ps Hp _ IH]; cbn; [done|].
  pose proof (floor_remainder p Hp). lia.
Qed.

Lemma sumZ_scale c l : sumZ (map (λ s, c * s) l) = c * sumZ l.
Proof. unfold sumZ. induction l; cbn; lia. Qed.

Lemma products_length i : length (products i) = length (sharesBps i).
Proof. apply length_map. Qed.

Lemma products_nonneg i : validInput i → Forall (λ p, 0 ≤ p) (products i).
Proof.
  intros (Ht & _ & Hs). unfold products. rewrite list.Forall_fmap.
  eapply Forall_impl; [exact Hs|]. cbn. nia.
Qed.

(** How many stroops the loop hands out: as many as the remainders add up to,
    and never more than there are parties. *)
Lemma leftover i : validInput i →
  let k := in_total i - sumZ (map floorOf (products i)) in
  10000 * k = sumZ (map remainderOf (products i)) ∧ 0 ≤ k ≤ Z.of_nat (length (sharesBps i)).
Proof.
  intros Hv k. pose proof (products_nonneg i Hv) as Hp.
  pose proof (sum_floor_remainder _ Hp) as Hs.
  assert (sumZ (products i) = in_total i * 10000) as Htot.
  { unfold products. rewrite sumZ_scale. destruct Hv as (_ & -> & _). done. }
  assert (Forall (λ r, 0 ≤ r ≤ 9999) (map remainderOf (products i))) as Hr.
  { rewrite list.Forall_fmap. eapply Forall_impl; [exact Hp|]. intros p Hpp.
    pose proof (floor_remainder p Hpp). cbn. lia. }
  assert (H0 : 0 ≤ sumZ (map remainderOf (products i)))
    by (apply sumZ_nonneg; eapply Forall_impl; [exact Hr|cbn; lia]).
  assert (H1 : sumZ (map remainderOf (products i))
    ≤ 9999 * Z.of_nat (length (map remainderOf (products i))))
    by (apply sumZ_bound; eapply Forall_impl; [exact Hr|cbn; lia]).
  rewrite length_map, products_length in H1. subst k. lia.
Qed.

Definition entries (i : AllocationInput) : list entry := imap (λ k p, (k, remainderOf p)) (products i).
Definition sortedEntries (i : AllocationInput) : list entry := js_sort byRemainderDesc (entries i).

Lemma entries_fst i : (entries i).*1 = seq 0 (length (sharesBps i)).
Proof.
  unfold entries. apply list_eq; intros j. rewrite list_lookup_fmap, list_lookup_imap.
  unfold products. rewrite list_lookup_fmap. destruct (sharesBps i !! j) as [s|] eqn:E; cbn.
  - symmetry. apply lookup_seq. split; [done|]. by apply lookup_lt_Some in E.
  - symmetry. apply lookup_seq_ge. by apply lookup_ge_None in E.
Qed.

Lemma entries_snd i : (entries i).*2 = map remainderOf (products i).
Proof.
  unfold entries. apply list_eq; intros j. rewrite list_lookup_fmap, list_lookup_imap.
  change (map remainderOf (products i)) with (remainderOf <$> products i).
  rewrite list_lookup_fmap. by destruct (products i !! j).
Qed.

Lemma sortedEntries_perm i : sortedEntries i ≡ₚ entries i.
Proof. apply js_sort_perm. Qed.

Lemma sortedEntries_sum i : sumZ ((sortedEntries i).*2) = sumZ (map remainderOf (products i)).
Proof. by rewrite sortedEntries_perm, entries_snd. Qed.

Lemma sortedEntries_NoDup i : NoDup ((sortedEntries i).*1).
Proof. rewrite sortedEntries_perm, entries_fst. apply NoDup_seq. Qed.

Lemma sortedEntries_length i : length (sortedEntries i) = length (sharesBps i).
Proof. rewrite sortedEntries_perm. unfold entries. rewrite length_imap. apply length_map. Qed.

Lemma sortedEntries_elem i j r : (j, r) ∈ sortedEntries i ↔
  ∃ s, sharesBps i !! j = Some s ∧ r = remainderOf (in_total i * s).
Proof.
  rewrite sortedEntries_perm. unfold entries. rewrite elem_of_lookup_imap. unfold products.
  setoid_rewrite list_lookup_fmap. split.
  - intros (k & p & [= -> ->] & Hp). destruct (sharesBps i !! k) as [s|]; [|done].
    cbn in Hp. simplify_eq. eauto.
  - intros (s & Hs & ->). exists j, (in_total i * s). by rewrite Hs.
Qed.

(** The run on a valid input. *)
Lemma allocation_run i : validInput i →
  ∃ k r, largestRemainderAllocation i = Ok r ∧
    allocated r = distribute (sortedEntries i) (Z.of_nat k) (map floorOf (products i)) ∧
    sum r = sumZ (allocated r) ∧ (k ≤ length (sharesBps i))%nat ∧
    10000 * Z.of_nat k = sumZ ((sortedEntries i).*2) ∧
    in_total i = sumZ (map floorOf (products i)) + Z.of_nat k.
Proof.
  intros Hv. pose proof (leftover i Hv) as [Hsum Hk]. destruct Hv as (Ht & Hs & Hn).
  unfold largestRemainderAllocation.
  rewrite !foldl_add_sumZ, Hs. cbn [BPS_DIVISOR].
  destruct (Z.ltb_spec (in_total i) 0); [lia|]. cbn [throwIf mbind result_bind].
  assert (existsb (λ s, s <? 0) (sharesBps i) = false) as ->.
  { apply not_true_is_false. rewrite existsb_exists. intros (s & Hin & Hlt). zb.
    rewrite Forall_forall in Hn. specialize (Hn s). rewrite list_elem_of_In in Hn. specialize (Hn Hin). lia. }
  cbn [Z.eqb negb throwIf mbind result_bind Z.add].
  exists (Z.to_nat (in_total i - sumZ (map floorOf (products i)))).
  eexists; split; [reflexivity|]. cbn [allocated sum].
  rewrite sortedEntries_sum, Z2Nat.id, !Z.add_0_l by lia.
  split_and!; try done; lia.
Qed.

(** An index that receives an extra stroop has a positive remainder: were it
    zero, so would every later one be, and the ones before it could not add up. *)
Lemma bumped_positive i k e : validInput i → 10000 * Z.of_nat k = sumZ ((sortedEntries i).*2) →
  e ∈ take k (sortedEntries i) → 0 < e.2.
Proof.
  intros Hv Hsum He. apply list_elem_of_split in He as (l1 & l2 & Hl).
  set (rest := l2 ++ drop k (sortedEntries i)).
  assert (HS : sortedEntries i = l1 ++ e :: rest)
    by (unfold rest; rewrite <-(take_drop k (sortedEntries i)) at 1; rewrite Hl; by rewrite <-app_assoc).
  assert (Hlen : (length l1 < k)%nat).
  { apply (f_equal length) in Hl. rewrite length_take, length_app in Hl. cbn in Hl. lia. }
  assert (Hb : Forall (λ x : entry, x.2 ≤ 9999) (sortedEntries i)).
  { apply Forall_forall. intros [j r] (s & Hs & ->)%sortedEntries_elem. cbn.
    destruct Hv as (? & _ & Hn). rewrite Forall_forall in Hn.
    pose proof (Hn s (list_elem_of_lookup_2 _ _ _ Hs)).
    pose proof (floor_remainder (in_total i * s) ltac:(nia)). lia. }
  pose proof (sorted_desc (entries i)) as Hd. fold (sortedEntries i) in Hd.
  rewrite HS in Hsum, Hb, Hd. rewrite fmap_app, fmap_cons, sumZ_app in Hsum.
  apply Forall_app in Hb as [Hb1 _].
  assert (H1 : sumZ (l1.*2) ≤ 9999 * Z.of_nat (length l1)).
  { rewrite <-(length_fmap snd l1). apply sumZ_bound. by rewrite list.Forall_fmap. }
  assert (Hr : Forall (λ x : entry, x.2 ≤ e.2) rest).
  { clear -Hd. induction l1 as [|x l1 IH]; cbn in Hd; inversion Hd; subst; auto. }
  destruct (Z.le_gt_cases e.2 0) as [He|]; [exfalso|lia].
  assert (H2 : sumZ (rest.*2) ≤ 0 * Z.of_nat (length (rest.*2))).
  { apply sumZ_bound. rewrite list.Forall_fmap. eapply Forall_impl; [exact Hr|]. cbn. lia. }
  change (sumZ (e.2 :: rest.*2)) with (e.2 + sumZ (rest.*2)) in Hsum. lia.
Qed.

(** What party [j] receives. *)
Lemma allocated_lookup i k r j s : 
  allocated r = distribute (sortedEntries i) (Z.of_nat k) (map floorOf (products i)) →
  sharesBps i !! j = Some s →
  allocated r !! j = Some (floorOf (in_total i * s) +
    (if bool_decide (j ∈ (take k (sortedEntries i)).*1) then 1 else 0)).
Proof.
  intros -> Hs. rewrite distribute_lookup by apply sortedEntries_NoDup.
  unfold products. change (map ?f ?l) with (f <$> l). by rewrite !list_lookup_fmap, Hs.
Qed.

Lemma bumped_remainder i k j s : sharesBps i !! j = Some s →
  j ∈ (take k (sortedEntries i)).*1 → (j, remainderOf (in_total i * s)) ∈ take k (sortedEntries i).
Proof.
  intros Hs ([j' r] & -> & He)%list_elem_of_fmap.
  pose proof (elem_of_take_in _ _ _ He) as Hin.
  apply sortedEntries_elem in Hin as (s' & Hs' & ->). cbn in Hs. by simplify_eq.
Qed.

(** Zero dust: on every valid input the allocation succeeds, its parts sum
    to the total exactly, it has one part per party, every part is nonnegative
    and strictly within one stroop of its exact proportional share, and the
    module's own assertion accepts it. *)
Theorem largestRemainder_zero_dust i (Hv : validInput i) :
  ∃ r, largestRemainderAllocation i = Ok r ∧ sum r = in_total i ∧
    assertZeroDust r (in_total i) = Ok tt ∧
    length (allocated r) = length (sharesBps i) ∧
    ∀ j s, sharesBps i !! j = Some s → ∃ a, allocated r !! j = Some a ∧ 0 ≤ a ∧
      Z.abs (a * 10000 - in_total i * s) < 10000.
Proof.
  destruct (allocation_run i Hv) as (k & r & Hrun & Ha & Hsum & Hk & Hrem & Htot).
  assert (Hs : sum r = in_total i).
  { rewrite Hsum, Ha, distribute_sum; [lia|by rewrite sortedEntries_length|].
    rewrite length_map, products_length. apply Forall_forall. intros [j x] Hj.
    apply sortedEntries_elem in Hj as (s & Hs%lookup_lt_Some & _). done. }
  assert (Hpart : ∀ j s, sharesBps i !! j = Some s → ∃ a, allocated r !! j = Some a ∧ 0 ≤ a ∧
      Z.abs (a * 10000 - in_total i * s) < 10000).
  { intros j s Hj. eexists; split; [by eapply allocated_lookup|].
    assert (0 ≤ in_total i * s).
    { destruct Hv as (? & _ & Hn). rewrite Forall_forall in Hn.
      specialize (Hn s (list_elem_of_lookup_2 _ _ _ Hj)). nia. }
    pose proof (floor_remainder (in_total i * s) ltac:(lia)).
    case_bool_decide as Hb; [|lia].
    apply (bumped_remainder i k j s Hj), (bumped_positive i k _ Hv Hrem) in Hb. cbn in Hb. lia. }
  exists r. split_and!; [done|done| | |done].
  - unfold assertZeroDust. rewrite Hs, Z.eqb_refl. done.
  - apply Nat.le_antisymm; apply Nat.nlt_ge; intros Hlt.
    + destruct (lookup_lt_is_Some_2 _ _ Hlt) as [a Hl].
      rewrite Ha, distribute_lookup in Hl by apply sortedEntries_NoDup.
      rewrite (proj2 (lookup_ge_None (map floorOf (products i)) _)) in Hl; [done|].
      by rewrite length_map, products_length.
    + destruct (lookup_lt_is_Some_2 _ _ Hlt) as [s Hl].
      destruct (Hpart _ _ Hl) as (a & Hla%lookup_lt_Some & _). lia.
Qed.

Lemma largestRemainder_zero_dust_witness :
  ∃ r, largestRemainderAllocation {| in_total := 101; sharesBps := [3333; 3333; 3334] |} = Ok r ∧ sum r = 101 ∧
    assertZeroDust r 101 = Ok tt ∧ length (allocated r) = 3%nat ∧
    ∀ j s, [3333; 3333; 3334] !! j = Some s → ∃ a, allocated r !! j = Some a ∧ 0 ≤ a ∧
      Z.abs (a * 10000 - 101 * s) < 10000.
Proof.
  apply (largestRemainder_zero_dust {| in_total := 101; sharesBps := [3333; 3333; 3334] |}).
  split_and!; [cbn; lia|reflexivity|repeat constructor; lia].
Defined.

(** Fairness: a party rounded up never has a smaller fractional part than
    a party rounded down. *)
Theorem largestRemainder_fair i r j1 s1 a1 j2 s2 a2 (Hv : validInput i)
    (Hr : largestRemainderAllocation i = Ok r)
    (H1 : sharesBps i !! j1 = Some s1) (H2 : sharesBps i !! j2 = Some s2)
    (Ha1 : allocated r !! j1 = Some a1) (Ha2 : allocated r !! j2 = Some a2)
    (Hup : a1 = floorOf (in_total i * s1) + 1) (Hdown : a2 = floorOf (in_total i * s2)) :
  remainderOf (in_total i * s2) ≤ remainderOf (in_total i * s1).
Proof.
  destruct (allocation_run i Hv) as (k & r' & Hrun & Ha & _). rewrite Hr in Hrun. simplify_eq.
  rewrite (allocated_lookup i k r' j1 s1 Ha H1) in Ha1. rewrite (allocated_lookup i k r' j2 s2 Ha H2) in Ha2.
  case_bool_decide as Hb1; [|injection Ha1; lia]. case_bool_decide as Hb2; [injection Ha2; lia|].
  apply (bumped_remainder i k j1 s1 H1) in Hb1.
  assert (He2 : (j2, remainderOf (in_total i * s2)) ∈ drop k (sortedEntries i)).
  { assert ((j2, remainderOf (in_total i * s2)) ∈ sortedEntries i) as He
      by (apply sortedEntries_elem; eauto).
    rewrite <-(take_drop k (sortedEntries i)), elem_of_app in He. destruct He as [He|]; [|done].
    destruct Hb2. apply list_elem_of_fmap. eexists. split; [|exact He]. done. }
  pose proof (sorted_desc (entries i)) as Hd. fold (sortedEntries i) in Hd.
  rewrite <-(take_drop k (sortedEntries i)) in Hd.
  exact (StronglySorted_app_1_elem_of _ _ _ _ _ Hd Hb1 He2).
Qed.

Lemma largestRemainder_fair_witness :
  remainderOf (100 * 3333) ≤ remainderOf (100 * 3334).
Proof.
  apply (largestRemainder_fair {| in_total := 100; sharesBps := [3333; 3333; 3334] |}
    {| exact := [33; 33; 33]; allocated := [33; 33; 34]; remainder := 1; sum := 100 |} 2 3334 34 0 3333 33);
    try reflexivity.
  split_and!; [cbn; lia|reflexivity|repeat constructor; lia].
Defined.

(** Every malformed input is refused, whichever guard catches it. *)
Theorem largestRemainder_rejects i (Hi : ¬ validInput i) :
  ∃ m, largestRemainderAllocation i = Err m.
Proof.
  unfold largestRemainderAllocation. rewrite (foldl_add_sumZ (sharesBps i)), Z.add_0_l.
  destruct (Z.ltb_spec (in_total i) 0); [eexists; reflexivity|]. cbn [throwIf mbind result_bind].
  destruct (Z.eqb_spec (sumZ (sharesBps i)) BPS_DIVISOR); [|eexists; reflexivity]. cbn [negb throwIf mbind result_bind].
  destruct (existsb _ _) eqn:He; [eexists; reflexivity|]. destruct Hi. split_and!; [done..|].
  apply Forall_forall. intros s Hs. apply Z.nlt_ge. intros Hlt.
  apply not_true_iff_false in He. apply He, existsb_exists. exists s.
  split; [by apply list_elem_of_In|]. by apply Z.ltb_lt.
Qed.

(** Entries by their remainders, the earlier one first when they are equal. *)
Definition before (a b : entry) : Prop := b.2 < a.2 ∨ a.2 = b.2 ∧ (a.1 < b.1)%nat.

Lemma insert_before x l : Forall (λ y : entry, (x.1 < y.1)%nat) l → StronglySorted before l → StronglySorted before (js_insert byRemainderDesc x l).
Proof.
  intros Hx Hs. induction Hs as [|y l Hl IH Hy]; cbn; [repeat constructor|]. apply Forall_cons in Hx as [Hxy Hx].
  pose proof (byRemainderDesc_le x y) as Hc. unfold cmp_le in Hc. destruct (Z.leb_spec (byRemainderDesc x y) 0) as [Hle|Hgt].
  - apply Hc in Hle. assert (before x y) as Hb by (unfold before; lia). constructor; [by constructor|]. constructor; [done|].
    rewrite Forall_forall in Hx, Hy |- *. intros z Hz. specialize (Hx z Hz). specialize (Hy z Hz). unfold before in *. lia.
  - constructor; [by apply IH|]. rewrite js_insert_perm. constructor; [|done]. unfold before. assert (¬ y.2 ≤ x.2) by (rewrite <-Hc; lia). lia.
Qed.
Lemma sorted_before l : StronglySorted (λ a b : entry, (a.1 < b.1)%nat) l → StronglySorted before (js_sort byRemainderDesc l).
Proof. induction 1 as [|x l _ IH Hx]; [constructor|]. change (js_sort byRemainderDesc (x :: l)) with (js_insert byRemainderDesc x (js_sort byRemainderDesc l)).
  apply insert_before; [|done]. by rewrite js_sort_perm. Qed.
Lemma entries_ascending i : StronglySorted (λ a b : entry, (a.1 < b.1)%nat) (entries i).
Proof.
  unfold entries. assert (∀ l (f : nat → Z → entry) m, (∀ k p, (f k p).1 = m + k)%nat → StronglySorted (λ a b : entry, (a.1 < b.1)%nat) (imap f l)) as H.
  { induction l as [|p l IH]; intros f m Hf; [constructor|]. rewrite imap_cons. constructor.
    - apply (IH _ (S m)). intros k q. cbn. rewrite Hf. lia.
    - apply Forall_forall. intros e (k & q & -> & _)%elem_of_lookup_imap. cbn. rewrite !Hf. lia. }
  by apply (H _ _ 0%nat).
Qed.

(** C29: The allocation answers exactly the inputs it is meant for: a non-negative total and
    non-negative shares of ten thousand in all. It has a part for each share; the parts add up to
    the total; each is non-negative and less than one stroop away from its exact share; and the
    spare stroops went to the largest remainders, the earlier party on a tie: of a party rounded
    up and one that is not, the first has the larger remainder or the same and comes earlier. *)
Theorem largest_remainder_method i :
  let valid := 0 ≤ in_total i ∧ Forall (λ s, 0 ≤ s) (sharesBps i) ∧ foldr Z.add 0 (sharesBps i) = 10000 in
  match largestRemainderAllocation i with
  | Err _ => ¬ valid
  | Ok r => valid ∧ length (allocated r) = length (sharesBps i) ∧ foldr Z.add 0 (allocated r) = in_total i ∧ sum r = in_total i ∧
      (∀ j s a, sharesBps i !! j = Some s → allocated r !! j = Some a → 0 ≤ a ∧ Z.abs (a * 10000 - in_total i * s) < 10000) ∧
      ∀ j1 s1 a1 j2 s2 a2, sharesBps i !! j1 = Some s1 → allocated r !! j1 = Some a1 → sharesBps i !! j2 = Some s2 → allocated r !! j2 = Some a2 →
        in_total i * s1 < a1 * 10000 → a2 * 10000 ≤ in_total i * s2 →
        (in_total i * s2) mod 10000 < (in_total i * s1) mod 10000 ∨ (in_total i * s2) mod 10000 = (in_total i * s1) mod 10000 ∧ (j1 < j2)%nat
  end.
Proof.
  intros valid. assert (valid ↔ validInput i) as Hvalid by (unfold valid, validInput, sumZ; change BPS_DIVISOR with 10000; tauto).
  destruct (decide (0 ≤ in_total i ∧ foldr Z.add 0 (sharesBps i) = 10000 ∧ Forall (λ s, 0 ≤ s) (sharesBps i))) as [Hv|Hn].
  2: { assert (¬ validInput i) as Hi by done. destruct (largestRemainder_rejects i Hi) as [m ->]. by rewrite Hvalid. }
  assert (validInput i) as Hi by done. destruct (allocation_run i Hi) as (k & r & Hrun & Ha & Hsr & Hk & Hrem & Htot).
  destruct (largestRemainder_zero_dust i Hi) as (r' & Hrun' & Hsum & _ & Hlen & Hpart). rewrite Hrun in Hrun'. injection Hrun' as <-. rewrite Hrun.
  split_and!; [by apply Hvalid|done| |done| |].
  - rewrite <-Hsum, Hsr. done.
  - intros j s a Hj Haj. destruct (Hpart j s Hj) as (a' & Ha' & ?). rewrite Haj in Ha'. by injection Ha' as <-.
  - intros j1 s1 a1 j2 s2 a2 H1 Ha1 H2 Ha2 Hup Hdown. rewrite (allocated_lookup i k r j1 s1 Ha H1) in Ha1. rewrite (allocated_lookup i k r j2 s2 Ha H2) in Ha2.
    assert (∀ j s, sharesBps i !! j = Some s → 0 ≤ in_total i * s) as Hpos.
    { intros j s Hj. destruct Hi as (? & _ & Hns). rewrite Forall_forall in Hns. specialize (Hns s (list_elem_of_lookup_2 _ _ _ Hj)). nia. }
    pose proof (floor_remainder _ (Hpos _ _ H1)) as Hf1. pose proof (floor_remainder _ (Hpos _ _ H2)) as Hf2.
    assert (∀ p, 0 ≤ p → remainderOf p = p mod 10000) as Hmod by (intros p Hp; unfold remainderOf, floorOf, BPS_DIVISOR; rewrite Z.quot_div_nonneg by lia; rewrite Z.mod_eq by lia; lia).
    rewrite <-(Hmod _ (Hpos _ _ H1)), <-(Hmod _ (Hpos _ _ H2)).
    case_bool_decide as Hb2; injection Ha2 as Ha2.
    { apply (bumped_remainder i k j2 s2 H2), (bumped_positive i k _ Hi Hrem) in Hb2. cbn in Hb2. exfalso. lia. }
    case_bool_decide as Hb1; injection Ha1 as Ha1; [|exfalso; lia].
    apply (bumped_remainder i k j1 s1 H1) in Hb1.
    assert ((j2, remainderOf (in_total i * s2)) ∈ drop k (sortedEntries i)) as He2.
    { assert ((j2, remainderOf (in_total i * s2)) ∈ sortedEntries i) as He by (apply sortedEntries_elem; eauto).
      rewrite <-(take_drop k (sortedEntries i)), elem_of_app in He. destruct He as [He|]; [|done]. destruct Hb2. apply list_elem_of_fmap. eexists. split; [|exact He]. done. }
    pose proof (sorted_before _ (entries_ascending i)) as Hd. fold (sortedEntries i) in Hd. rewrite <-(take_drop k (sortedEntries i)) in Hd.
    pose proof (StronglySorted_app_1_elem_of _ _ _ _ _ Hd Hb1 He2) as Hbef. unfold before in Hbef. cbn in Hbef. lia.
Qed.

(** The two-party split of a valid loss ratio always succeeds and gives two
    nonnegative amounts that sum to the total exactly. *)
Theorem splitLossRatio_exact total b s (Ht : 0 ≤ total) (Hb : 0 ≤ b) (Hs : 0 ≤ s) (Hsum : b + s = 10000) :
  ∃ x y, splitLossRatio total b s = Ok (Some x, Some y) ∧ x + y = total ∧ 0 ≤ x ∧ 0 ≤ y.
Proof.
  set (i := {| in_total := total; sharesBps := [b; s] |}).
  assert (Hv : validInput i).
  { split_and!; [done|unfold sumZ; cbn; unfold BPS_DIVISOR; lia|by repeat constructor]. }
  destruct (allocation_run i Hv) as (k & r & Hrun & Ha & Hsr & Hk & Hrem & Htot).
  assert (Hsum' : sumZ (allocated r) = total).
  { rewrite Ha, distribute_sum; [subst i; cbn in *; lia|by rewrite sortedEntries_length|].
    rewrite length_map, products_length. apply Forall_forall. intros [j x] Hj.
    apply sortedEntries_elem in Hj as (? & Hj%lookup_lt_Some & _). done. }
  unfold splitLossRatio. rewrite Hsum. cbn [Z.eqb BPS_DIVISOR negb throwIf mbind result_bind].
  fold i. rewrite Hrun.
  assert (Hpart : ∀ j t, [b; s] !! j = Some t → 0 ≤ t → ∃ x, allocated r !! j = Some x ∧ 0 ≤ x).
  { intros j t Hj Ht'. eexists; split; [by apply (allocated_lookup i k r j t Ha)|].
    change (in_total i) with total. pose proof (floor_remainder (total * t) ltac:(nia)).
    case_bool_decide; lia. }
  destruct (Hpart 0%nat b eq_refl Hb) as (x & H0 & Hx). destruct (Hpart 1%nat s eq_refl Hs) as (y & H1 & Hy).
  cbn [mbind result_bind]. rewrite H0, H1. exists x, y. split; [reflexivity|]. split; [|done].
  assert (H2 : allocated r !! 2%nat = None) by (rewrite Ha, distribute_lookup by apply sortedEntries_NoDup; done).
  clear Ha Hsr Hrun. destruct (allocated r) as [|x' [|y' [|]]]; try done. cbn in H0, H1. simplify_eq.
  unfold sumZ; cbn; lia.
Qed.

Lemma splitLossRatio_exact_witness :
  ∃ x y, splitLossRatio 99 7000 3000 = Ok (Some x, Some y) ∧ x + y = 99 ∧ 0 ≤ x ∧ 0 ≤ y.
Proof. apply (splitLossRatio_exact 99 7000 3000); lia. Defined.

Lemma largestRemainder_rejects_witness :
  ∃ m, largestRemainderAllocation {| in_total := 10; sharesBps := [11000; -1000] |} = Err m.
Proof.
  apply (largestRemainder_rejects {| in_total := 10; sharesBps := [11000; -1000] |}).
  intros (_ & _ & H). inversion H as [|?? _ H2]. inversion H2. lia.
Defined.
