(* ===== verification/MediatorQuorum.v ===== *)
(** * Mediator quorum: [backend/src/services/mediatorQuorum.service.ts]

    The backend mirror of weighted mediator voting on high-value disputes.
    Weights, times and tallied outcomes are integers; the two validators, which
    must reject non-integers, take [jsnum] fields. Module [Contract] translates
    the plurality rule of the Soroban contract, which the tally must agree with. *)

From S2P Require Import Prelude JsString Errors.

Definition DEFAULT_QUORUM_VALUE_THRESHOLD : Z := 10000000000.
Definition DEFAULT_QUORUM_REQUIRED_WEIGHT : Z := 3.
Definition DEFAULT_QUORUM_VOTE_WINDOW_SECS : Z := 7 * 24 * 60 * 60.
Definition DEFAULT_QUORUM_FALLBACK_MIN_WEIGHT : Z := 2.
Definition DEFAULT_MEDIATOR_WEIGHT : Z := 1.
Definition MAX_MEDIATOR_WEIGHT : Z := 10.
Definition BPS_DIVISOR : Z := 10000.

(** The policy; [num] is [Z] once validated and [jsnum] as supplied by an admin. *)
Record QuorumConfig (num : Type) : Type := {
  enabled : bool;
  valueThreshold : Z;
  requiredWeight : num;
  voteWindowSecs : num;
  fallbackMinWeight : num;
}.
Arguments enabled {num}. Arguments valueThreshold {num}. Arguments requiredWeight {num}.
Arguments voteWindowSecs {num}. Arguments fallbackMinWeight {num}.

Definition DEFAULT_QUORUM_CONFIG : QuorumConfig Z := {|
  enabled := false;
  valueThreshold := DEFAULT_QUORUM_VALUE_THRESHOLD;
  requiredWeight := DEFAULT_QUORUM_REQUIRED_WEIGHT;
  voteWindowSecs := DEFAULT_QUORUM_VOTE_WINDOW_SECS;
  fallbackMinWeight := DEFAULT_QUORUM_FALLBACK_MIN_WEIGHT;
|}.

Record MediatorVote : Type := {
  mediator : string;
  sellerGetsBps : Z;
  weight : Z;
  rationaleHash : string;
  votedAt : Z;
}.

Record DisputeVoteState : Type := {
  tradeId : string;
  amount : Z;
  votes : list MediatorVote;
  openedAt : option Z;
}.

Record OutcomeTally : Type := { t_bps : Z; t_weight : Z; t_voteCount : Z }.

Inductive QuorumResolution : Type := quorum | fallback.

Record QuorumStatus : Type := {
  s_tradeId : string;
  s_requiresQuorum : bool;
  tallies : list OutcomeTally;
  totalWeight : Z;
  voteCount : Z;
  leadingBps : option Z;
  weightToQuorum : Z;
  quorumReached : bool;
  fallbackAvailableAt : option Z;
  fallbackAvailable : bool;
}.

Inductive VoteRejection : Type :=
| QUORUM_NOT_REQUIRED | ALREADY_VOTED | INVALID_BPS | MISSING_RATIONALE | ALREADY_RESOLVED.

#[global] Instance VoteRejection_eq_dec : EqDecision VoteRejection.
Proof. solve_decision. Defined.

Record VoteEvaluation : Type := {
  allowed : bool;
  rejection : option VoteRejection;
  reason : option string;
}.

Definition requiresQuorum (amount : Z) (config : QuorumConfig Z) : bool :=
  enabled config && (valueThreshold config <=? amount).

(** ** Tallies

    [byOutcome] is a JavaScript [Map], which iterates in insertion order: an
    association list. A vote either mutates the entry of its outcome in place or
    appends a new one. *)

Fixpoint tallyVote (byOutcome : list OutcomeTally) (v : MediatorVote) : list OutcomeTally :=
  match byOutcome with
  | [] => [{| t_bps := sellerGetsBps v; t_weight := weight v; t_voteCount := 1 |}]
  | t :: ts =>
      if t_bps t =? sellerGetsBps v
      then {| t_bps := t_bps t; t_weight := t_weight t + weight v;
              t_voteCount := t_voteCount t + 1 |} :: ts
      else t :: tallyVote ts v
  end.

(** [(a, b) => b.weight - a.weight || a.sellerGetsBps - b.sellerGetsBps] *)
Definition compareTallies (a b : OutcomeTally) : Z :=
  let d := t_weight b - t_weight a in
  if d =? 0 then t_bps a - t_bps b else d.

Definition tallyVotes (vs : list MediatorVote) : list OutcomeTally :=
  js_sort compareTallies (foldl tallyVote [] vs).

Definition quorumStatus (state : DisputeVoteState) (now : Z) (config : QuorumConfig Z) : QuorumStatus :=
  let tl := tallyVotes (votes state) in
  let tw := foldl (λ s v, s + weight v) 0 (votes state) in
  let leader := head tl in
  let availableAt := (λ o, o + voteWindowSecs config) <$> openedAt state in
  let reached :=
    match leader with Some l => requiredWeight config <=? t_weight l | None => false end in
  {| s_tradeId := tradeId state;
     s_requiresQuorum := requiresQuorum (amount state) config;
     tallies := tl;
     totalWeight := tw;
     voteCount := Z.of_nat (length (votes state));
     leadingBps := t_bps <$> leader;
     weightToQuorum :=
       match leader with
       | Some l => Z.max 0 (requiredWeight config - t_weight l)
       | None => requiredWeight config
       end;
     quorumReached := reached;
     fallbackAvailableAt := availableAt;
     fallbackAvailable :=
       negb reached &&
       match availableAt with Some a => a <=? now | None => false end &&
       (fallbackMinWeight config <=? tw) |}.

Record Resolution : Type := { r_bps : Z; r_weight : Z; via : QuorumResolution }.

Definition pendingResolution (state : DisputeVoteState) (now : Z) (config : QuorumConfig Z)
    : option Resolution :=
  let status := quorumStatus state now config in
  match head (tallies status) with
  | None => None
  | Some leader =>
      if quorumReached status then
        Some {| r_bps := t_bps leader; r_weight := t_weight leader; via := quorum |}
      else if fallbackAvailable status then
        Some {| r_bps := t_bps leader; r_weight := t_weight leader; via := fallback |}
      else None
  end.

Definition reject (r : VoteRejection) (m : string) : VoteEvaluation :=
  {| allowed := false; rejection := Some r; reason := Some m |}.

Definition evaluateVote (state : DisputeVoteState) (med : string) (bps : jsnum)
    (hash : string) (config : QuorumConfig Z) : VoteEvaluation :=
  if negb (isInteger bps) || jlt bps 0 || jgt bps BPS_DIVISOR then
    reject INVALID_BPS ("sellerGetsBps must be an integer in 0.." +:+ toString BPS_DIVISOR)
  else if (strlen (trim hash) =? 0)%nat then
    reject MISSING_RATIONALE "rationaleHash must not be empty"
  else if negb (requiresQuorum (amount state) config) then
    reject QUORUM_NOT_REQUIRED "Trade does not require a mediator quorum; use resolve_dispute"
  else if existsb (λ v, bool_decide (mediator v = med)) (votes state) then
    reject ALREADY_VOTED "Mediator has already voted on this dispute"
  else {| allowed := true; rejection := None; reason := None |}.

Definition validationError (m : string) : error := AppError VALIDATION_ERROR m 400.

(** [a > b] for the two weights, both integers when the check is reached. *)
Definition jgt_num (a b : jsnum) : bool :=
  match b with JInt z => jgt a z | _ => false end.

Definition assertQuorumConfigValid (c : QuorumConfig jsnum) : result error unit :=
  _ ← throwIf (valueThreshold c <? 0) (validationError "valueThreshold must be non-negative");
  _ ← throwIf (negb (isInteger (requiredWeight c)) || jle (requiredWeight c) 0)
        (validationError "requiredWeight must be a positive integer");
  _ ← throwIf (negb (isInteger (voteWindowSecs c)) || jle (voteWindowSecs c) 0)
        (validationError "voteWindowSecs must be a positive integer");
  _ ← throwIf (negb (isInteger (fallbackMinWeight c)) || jle (fallbackMinWeight c) 0)
        (validationError "fallbackMinWeight must be a positive integer");
  throwIf (jgt_num (fallbackMinWeight c) (requiredWeight c))
    (validationError "fallbackMinWeight must not exceed requiredWeight").

Definition assertMediatorWeightValid (w : jsnum) : result error unit :=
  _ ← throwIf (negb (isInteger w) || jle w 0)
        (validationError "mediator weight must be a positive integer");
  throwIf (jgt w MAX_MEDIATOR_WEIGHT)
    (validationError ("mediator weight exceeds the maximum of " +:+ toString MAX_MEDIATOR_WEIGHT)).

(** [MediatorQuorumService.assertVoteAllowed] *)
Definition assertVoteAllowed (config : QuorumConfig Z) (state : DisputeVoteState)
    (med : string) (bps : jsnum) (hash : string) : result error unit :=
  let e := evaluateVote state med bps hash config in
  throwIf (negb (allowed e))
    (AppError DOMAIN_ERROR (default "Vote not permitted"%string (reason e)) 409).

(** ** The contract's plurality rule ([contracts/amana_escrow/src/lib.rs])

    [u32] additions saturate. *)
Module Contract.
Definition U32_MAX : Z := 2 ^ 32 - 1.
Definition saturating_add (a b : Z) : Z := Z.min U32_MAX (a + b).

Definition weight_for_outcome (vs : list MediatorVote) (bps : Z) : Z :=
  foldl (λ total v, if sellerGetsBps v =? bps then saturating_add total (weight v) else total) 0 vs.

Definition total_vote_weight (vs : list MediatorVote) : Z :=
  foldl (λ total v, saturating_add total (weight v)) 0 vs.

(** (best_bps, best_weight, seen_any) after one candidate. *)
Definition plurality_step (vs : list MediatorVote) (best : Z * Z * bool) (candidate : MediatorVote)
    : Z * Z * bool :=
  let '(best_bps, best_weight, seen_any) := best in
  let bps := sellerGetsBps candidate in
  let w := weight_for_outcome vs bps in
  let wins := negb seen_any || (best_weight <? w) || ((w =? best_weight) && (bps <? best_bps)) in
  if wins then (bps, w, true) else best.

Definition plurality_outcome (vs : list MediatorVote) : Z * Z :=
  (foldl (plurality_step vs) (0, 0, false) vs).1.
End Contract.

(** ** What a tally means *)

Definition weightFor (vs : list MediatorVote) (b : Z) : Z :=
  sumZ (map (λ v, if sellerGetsBps v =? b then weight v else 0) vs).
Definition countFor (vs : list MediatorVote) (b : Z) : Z :=
  sumZ (map (λ v, if sellerGetsBps v =? b then 1 else 0) vs).

(** The same sums over a tally under construction. *)
Definition field_at (f : OutcomeTally → Z) (ts : list OutcomeTally) (b : Z) : Z :=
  sumZ (map (λ t, if t_bps t =? b then f t else 0) ts).

Lemma sumZ_cons x l : sumZ (x :: l) = x + sumZ l.
Proof. done. Qed.

Lemma tallyVote_field_weight ts v b :
  field_at t_weight (tallyVote ts v) b
  = field_at t_weight ts b + (if sellerGetsBps v =? b then weight v else 0).
Proof.
  unfold field_at. induction ts as [|t ts IH]; cbn [tallyVote map].
  - rewrite sumZ_cons. cbn [t_bps t_weight]. unfold sumZ; cbn; lia.
  - destruct (Z.eqb_spec (t_bps t) (sellerGetsBps v)) as [Heq|Hne]; cbn [map]; rewrite !sumZ_cons.
    + cbn [t_bps t_weight]. rewrite Heq. destruct (sellerGetsBps v =? b); lia.
    + rewrite IH. lia.
Qed.

Lemma tallyVote_field_count ts v b :
  field_at t_voteCount (tallyVote ts v) b
  = field_at t_voteCount ts b + (if sellerGetsBps v =? b then 1 else 0).
Proof.
  unfold field_at. induction ts as [|t ts IH]; cbn [tallyVote map].
  - rewrite sumZ_cons. cbn [t_bps t_voteCount]. unfold sumZ; cbn; lia.
  - destruct (Z.eqb_spec (t_bps t) (sellerGetsBps v)) as [Heq|Hne]; cbn [map]; rewrite !sumZ_cons.
    + cbn [t_bps t_voteCount]. rewrite Heq. destruct (sellerGetsBps v =? b); lia.
    + rewrite IH. lia.
Qed.

Lemma tallyVote_total ts v : sumZ (map t_weight (tallyVote ts v)) = sumZ (map t_weight ts) + weight v.
Proof.
  induction ts as [|t ts IH]; cbn [tallyVote map]; [unfold sumZ; cbn; lia|].
  destruct (_ =? _); cbn [map]; rewrite !sumZ_cons; cbn [t_weight]; lia.
Qed.

Lemma tallyVote_bps ts v :
  map t_bps (tallyVote ts v) =
  if decide (sellerGetsBps v ∈ map t_bps ts) then map t_bps ts else map t_bps ts ++ [sellerGetsBps v].
Proof.
  induction ts as [|t ts IH]; cbn [tallyVote map].
  { rewrite decide_False by set_solver. done. }
  destruct (Z.eqb_spec (t_bps t) (sellerGetsBps v)) as [Heq|Hne]; cbn [map t_bps].
  - rewrite decide_True by (rewrite Heq; set_solver). done.
  - rewrite IH. destruct (decide (sellerGetsBps v ∈ map t_bps ts)).
    + rewrite decide_True by set_solver. done.
    + rewrite decide_False by set_solver. done.
Qed.

(** The map built by the loop, for any starting point. *)
Record tally_inv (base : list OutcomeTally) (vs : list MediatorVote) (ts : list OutcomeTally) : Prop := {
  ti_nodup : NoDup (map t_bps ts);
  ti_weight b : field_at t_weight ts b = field_at t_weight base b + weightFor vs b;
  ti_count b : field_at t_voteCount ts b = field_at t_voteCount base b + countFor vs b;
  ti_total : sumZ (map t_weight ts) = sumZ (map t_weight base) + sumZ (map weight vs);
  ti_dom b : b ∈ map t_bps ts ↔ b ∈ map t_bps base ∨ ∃ v, v ∈ vs ∧ sellerGetsBps v = b;
}.

Lemma fold_tally_inv vs base : NoDup (map t_bps base) → tally_inv base vs (foldl tallyVote base vs).
Proof.
  revert base; induction vs as [|v vs IH]; intros base Hnd; cbn [foldl].
  { unfold weightFor, countFor. constructor; intros; cbn; [done|lia|lia|lia|set_solver]. }
  assert (Hnd' : NoDup (map t_bps (tallyVote base v))).
  { rewrite tallyVote_bps. case_decide; [done|]. rewrite NoDup_app. split_and!; [done|set_solver|].
    apply NoDup_singleton. }
  destruct (IH _ Hnd') as [H1 H2 H3 H4 H5].
  constructor.
  - done.
  - intros b. unfold weightFor in *. rewrite H2, tallyVote_field_weight. cbn [map]. rewrite sumZ_cons. lia.
  - intros b. unfold countFor in *. rewrite H3, tallyVote_field_count. cbn [map]. rewrite sumZ_cons. lia.
  - rewrite H4, tallyVote_total. cbn [map]. rewrite sumZ_cons. lia.
  - intros b. rewrite H5, tallyVote_bps. case_decide; set_solver.
Qed.

Lemma field_at_notin f ts b : b ∉ map t_bps ts → field_at f ts b = 0.
Proof.
  unfold field_at. induction ts as [|t ts IH]; cbn [map]; [done|]. intros Hb.
  rewrite sumZ_cons, IH by set_solver.
  destruct (Z.eqb_spec (t_bps t) b) as [<-|]; [set_solver|done].
Qed.

Lemma field_at_elem f ts t : NoDup (map t_bps ts) → t ∈ ts → field_at f ts (t_bps t) = f t.
Proof.
  induction ts as [|u ts IH]; [set_solver|]. cbn [map]. intros [Hu Hnd]%NoDup_cons [->|Ht]%elem_of_cons.
  - unfold field_at. cbn [map]. rewrite sumZ_cons, Z.eqb_refl. fold (field_at f ts (t_bps u)).
    rewrite field_at_notin by done. lia.
  - unfold field_at. cbn [map]. rewrite sumZ_cons. fold (field_at f ts (t_bps t)). rewrite IH by done.
    destruct (Z.eqb_spec (t_bps u) (t_bps t)) as [Heq|]; [|lia].
    destruct Hu. rewrite Heq. apply list_elem_of_fmap. by exists t.
Qed.

Lemma tally_elem vs t : t ∈ tallyVotes vs →
  t_weight t = weightFor vs (t_bps t) ∧ t_voteCount t = countFor vs (t_bps t) ∧
  ∃ v, v ∈ vs ∧ sellerGetsBps v = t_bps t.
Proof.
  unfold tallyVotes. rewrite js_sort_perm. intros Ht.
  destruct (fold_tally_inv vs [] ltac:(constructor)) as [H1 H2 H3 _ H5].
  rewrite <-(field_at_elem t_weight _ t H1 Ht), <-(field_at_elem t_voteCount _ t H1 Ht), H2, H3.
  split_and!; [done..|]. 
  assert (t_bps t ∈ map t_bps (foldl tallyVote [] vs)) as Hin by (apply list_elem_of_fmap; by exists t).
  apply H5 in Hin as [?|?]; [set_solver|done].
Qed.

Lemma tally_exists vs v : v ∈ vs → ∃ t, t ∈ tallyVotes vs ∧ t_bps t = sellerGetsBps v.
Proof.
  intros Hv. destruct (fold_tally_inv vs [] ltac:(constructor)) as [_ _ _ _ H5].
  assert (sellerGetsBps v ∈ map t_bps (foldl tallyVote [] vs)) as Hin by (apply H5; eauto).
  apply list_elem_of_fmap in Hin as (t & Ht & Hin). exists t.
  unfold tallyVotes. by rewrite js_sort_perm.
Qed.

(** Outcome [b1] with weight [w1] is at least as good as [b2] with [w2]. *)
Definition beats (b1 w1 b2 w2 : Z) : Prop := w2 < w1 ∨ (w1 = w2 ∧ b1 ≤ b2).

Lemma compareTallies_le a b : cmp_le compareTallies a b ↔ beats (t_bps a) (t_weight a) (t_bps b) (t_weight b).
Proof. unfold cmp_le, compareTallies, beats. case_ifs; zb; lia. Qed.

Lemma leader_beats vs l : head (tallyVotes vs) = Some l →
  l ∈ tallyVotes vs ∧
  ∀ v, v ∈ vs → beats (t_bps l) (weightFor vs (t_bps l)) (sellerGetsBps v) (weightFor vs (sellerGetsBps v)).
Proof.
  intros Hh. assert (Hl : l ∈ tallyVotes vs).
  { destruct (tallyVotes vs); [done|]. cbn in Hh. simplify_eq. set_solver. }
  split; [done|]. intros v Hv. destruct (tally_exists vs v Hv) as (t & Ht & Hb).
  pose proof (tally_elem vs l Hl) as (<- & _). rewrite <-Hb.
  pose proof (tally_elem vs t Ht) as (<- & _).
  destruct (tallyVotes vs) as [|x r] eqn:Hs; [done|]. cbn in Hh. simplify_eq.
  apply elem_of_cons in Ht as [->|Ht]; [unfold beats; lia|].
  unfold tallyVotes in Hs. apply js_sort_head in Hs as [_ Hs].
  - rewrite Forall_forall in Hs. apply compareTallies_le. by apply Hs.
  - intros x y. rewrite !compareTallies_le. unfold beats. lia.
  - intros x y z. rewrite !compareTallies_le. unfold beats. lia.
Qed.

Lemma head_tally_None vs : head (tallyVotes vs) = None ↔ vs = [].
Proof.
  split; [|by intros ->]. destruct vs as [|v vs]; [done|]. intros Hn.
  destruct (tally_exists (v :: vs) v) as (t & Ht & _); [set_solver|].
  destruct (tallyVotes (v :: vs)); [set_solver|done].
Qed.

(** ** The contract agrees *)

Definition weightsFit (vs : list MediatorVote) : Prop :=
  Forall (λ v, 0 ≤ weight v) vs ∧ sumZ (map weight vs) ≤ Contract.U32_MAX.

Lemma contract_weight vs b : weightsFit vs → Contract.weight_for_outcome vs b = weightFor vs b.
Proof.
  intros [Hn Hs]. unfold Contract.weight_for_outcome, weightFor.
  enough (H : ∀ a, 0 ≤ a → a + sumZ (map weight vs) ≤ Contract.U32_MAX →
    foldl (λ total v, if sellerGetsBps v =? b then Contract.saturating_add total (weight v) else total) a vs
    = a + sumZ (map (λ v, if sellerGetsBps v =? b then weight v else 0) vs) ∧
    sumZ (map (λ v, if sellerGetsBps v =? b then weight v else 0) vs) ≤ sumZ (map weight vs)).
  { by destruct (H 0); [lia|lia|]. }
  clear Hs. induction Hn as [|v vs Hv Hn IH]; intros a Ha Hle; cbn [foldl map] in *.
  { unfold sumZ; cbn. lia. }
  rewrite !sumZ_cons in *.
  assert (0 ≤ sumZ (map weight vs)) by (apply sumZ_nonneg, list.Forall_fmap; done).
  destruct (sellerGetsBps v =? b).
  - assert (Contract.saturating_add a (weight v) = a + weight v) as ->
      by (unfold Contract.saturating_add; lia).
    destruct (IH (a + weight v)) as [-> ?]; lia.
  - destruct (IH a) as [-> ?]; lia.
Qed.

(** The scan keeps the best candidate seen. *)
Lemma plurality_scan vs ps best : weightsFit vs →
  let '(b, w, seen) := best in
  (seen = true → w = weightFor vs b) →
  let '(b', w', seen') := foldl (Contract.plurality_step vs) best ps in
  (seen' = true ↔ seen = true ∨ ps ≠ []) ∧ (seen' = true → w' = weightFor vs b') ∧
  (seen' = true → (seen = true ∧ b' = b) ∨ ∃ v, v ∈ ps ∧ sellerGetsBps v = b') ∧
  (seen = true → beats b' w' b w) ∧
  (∀ v, v ∈ ps → beats b' w' (sellerGetsBps v) (weightFor vs (sellerGetsBps v))).
Proof.
  intros Hfit. revert best; induction ps as [|p ps IH]; intros [[b w] seen]; cbn [foldl].
  { intros Hw. split_and!; [naive_solver|done|naive_solver|unfold beats; lia|set_solver]. }
  intros Hw. cbn [Contract.plurality_step]. rewrite contract_weight by done.
  set (c := weightFor vs (sellerGetsBps p)).
  destruct (negb seen || (w <? c) || ((c =? w) && (sellerGetsBps p <? b))) eqn:Hwin.
  - specialize (IH (sellerGetsBps p, c, true)). cbn in IH.
    destruct (foldl _ _ ps) as [[b' w'] seen']. destruct IH as (H1 & H2 & H3 & H4 & H5); [done|].
    specialize (H4 eq_refl). split_and!.
    + naive_solver.
    + done.
    + intros Hs. destruct (H3 Hs) as [[_ ->]|(v & Hv & <-)]; [right; exists p; set_solver|right; exists v; set_solver].
    + intros Hs. subst seen. cbn in Hwin. zb. unfold beats in *. lia.
    + intros v [->|Hv]%elem_of_cons; [done|auto].
  - specialize (IH (b, w, seen)). cbn in IH.
    destruct (foldl _ _ ps) as [[b' w'] seen']. destruct IH as (H1 & H2 & H3 & H4 & H5); [done|].
    apply orb_false_iff in Hwin as [[Hs Hlt]%orb_false_iff Heq]. apply negb_false_iff in Hs. subst seen.
    specialize (H4 eq_refl). split_and!.
    + naive_solver.
    + done.
    + intros Hs. destruct (H3 Hs) as [?|(v & Hv & <-)]; [by left|right; exists v; set_solver].
    + done.
    + intros v [->|Hv]%elem_of_cons; [|auto]. fold c. zb. unfold beats in *. lia.
Qed.

(** C17: parity with the chain: on every nonempty set of votes whose weights are
    nonnegative and fit a [u32], the outcome and weight at the head of the
    backend's tally are exactly the contract's plurality outcome, tie-breaking
    included. *)
Theorem tally_leader_is_contract_plurality vs (Hne : vs ≠ []) (Hfit : weightsFit vs) :
  ∃ l, head (tallyVotes vs) = Some l ∧ Contract.plurality_outcome vs = (t_bps l, t_weight l).
Proof.
  destruct (head (tallyVotes vs)) as [l|] eqn:Hh; [|by apply head_tally_None in Hh].
  exists l. split; [done|]. apply leader_beats in Hh as [Hl Hbest].
  destruct (tally_elem vs l Hl) as (Hw & _ & v0 & Hv0 & Hb0).
  pose proof (plurality_scan vs vs (0, 0, false) Hfit ltac:(done)) as Hscan.
  unfold Contract.plurality_outcome. destruct (foldl _ _ vs) as [[b w] seen].
  destruct Hscan as (H1 & H2 & H3 & _ & H5).
  assert (seen = true) as -> by (apply H1; by right).
  destruct (H3 eq_refl) as [[? _]|(v & Hv & <-)]; [done|].
  specialize (H2 eq_refl). specialize (H5 v0 Hv0). specialize (Hbest v Hv). rewrite Hb0 in H5.
  unfold beats in *. cbn. f_equal; lia.
Qed.

Definition sampleVotes : list MediatorVote :=
  [ {| mediator := "m1"; sellerGetsBps := 7000; weight := 2; rationaleHash := "h"; votedAt := 1 |};
    {| mediator := "m2"; sellerGetsBps := 3000; weight := 2; rationaleHash := "h"; votedAt := 2 |} ].

Lemma tally_leader_is_contract_plurality_witness :
  ∃ l, head (tallyVotes sampleVotes) = Some l ∧
    Contract.plurality_outcome sampleVotes = (t_bps l, t_weight l).
Proof.
  apply (tally_leader_is_contract_plurality sampleVotes); [done|].
  split; [repeat constructor; cbn; lia|by vm_compute].
Defined.

(** The tally is exact: one entry per outcome voted for and none besides,
    carrying the total weight and the number of votes behind it, and the
    weights of the entries add up to the total weight cast. *)
Theorem tallyVotes_exact vs :
  NoDup (map t_bps (tallyVotes vs)) ∧
  (∀ b, b ∈ map t_bps (tallyVotes vs) ↔ ∃ v, v ∈ vs ∧ sellerGetsBps v = b) ∧
  (∀ t, t ∈ tallyVotes vs → t_weight t = weightFor vs (t_bps t) ∧ t_voteCount t = countFor vs (t_bps t)) ∧
  sumZ (map t_weight (tallyVotes vs)) = sumZ (map weight vs).
Proof.
  destruct (fold_tally_inv vs [] ltac:(constructor)) as [H1 _ _ H4 H5].
  assert (Hp : tallyVotes vs ≡ₚ foldl tallyVote [] vs) by apply js_sort_perm.
  assert (Hm : map t_bps (tallyVotes vs) ≡ₚ map t_bps (foldl tallyVote [] vs)) by (by apply fmap_Permutation).
  split_and!.
  - by rewrite Hm.
  - intros b. rewrite Hm, H5. set_solver.
  - intros t Ht. apply tally_elem in Ht as (? & ? & _). done.
  - assert (Hm' : map t_weight (tallyVotes vs) ≡ₚ map t_weight (foldl tallyVote [] vs)) by (by apply fmap_Permutation).
    by rewrite Hm', H4.
Qed.

(** ** Resolution *)

(** A pending resolution is exactly the leading outcome when it has quorum,
    else the leading outcome by fallback once the window that opened with the
    first vote has closed and enough weight has voted in total; otherwise the
    dispute stays open. *)
Theorem pendingResolution_spec st now c l (Hl : head (tallyVotes (votes st)) = Some l) :
  let tw := sumZ (map weight (votes st)) in
  pendingResolution st now c =
    if requiredWeight c <=? t_weight l
    then Some {| r_bps := t_bps l; r_weight := t_weight l; via := quorum |}
    else match openedAt st with
         | Some o => if (o + voteWindowSecs c <=? now) && (fallbackMinWeight c <=? tw)
                     then Some {| r_bps := t_bps l; r_weight := t_weight l; via := fallback |}
                     else None
         | None => None
         end.
Proof.
  intros tw. unfold pendingResolution. cbn [quorumStatus tallies quorumReached fallbackAvailable].
  rewrite Hl, foldl_add_map, Z.add_0_l. fold tw.
  destruct (requiredWeight c <=? t_weight l); [done|]. cbn [negb andb].
  destruct (openedAt st); [|done]. cbn [fmap option_fmap option_map].
  by destruct ((_ <=? now) && _).
Qed.

Definition sampleState : DisputeVoteState :=
  {| tradeId := "t"; amount := 20000000000; votes := sampleVotes; openedAt := Some 1 |}.
Definition sampleConfig : QuorumConfig Z :=
  {| enabled := true; valueThreshold := 10000000000; requiredWeight := 3; voteWindowSecs := 100;
     fallbackMinWeight := 2 |}.

Lemma pendingResolution_spec_witness :
  pendingResolution sampleState 200 sampleConfig =
  Some {| r_bps := 3000; r_weight := 2; via := fallback |}.
Proof.
  rewrite (pendingResolution_spec sampleState 200 sampleConfig
    {| t_bps := 3000; t_weight := 2; t_voteCount := 1 |} eq_refl).
  reflexivity.
Defined.

(** No stranded escrow under the module's own reading of a policy it
    accepts: once votes worth at least the fallback minimum are in and the
    window has closed, some outcome is applied, and it is one a mediator voted for. *)
Theorem resolution_live st now c o
    (Hopen : openedAt st = Some o) (Hpos : 0 < fallbackMinWeight c)
    (Hw : fallbackMinWeight c ≤ sumZ (map weight (votes st))) (Hnow : o + voteWindowSecs c ≤ now) :
  ∃ r, pendingResolution st now c = Some r ∧
    r_weight r = weightFor (votes st) (r_bps r) ∧ ∃ v, v ∈ votes st ∧ sellerGetsBps v = r_bps r.
Proof.
  destruct (head (tallyVotes (votes st))) as [l|] eqn:Hh.
  2: { apply head_tally_None in Hh. rewrite Hh in Hw. cbn in Hw. lia. }
  pose proof (leader_beats _ _ Hh) as [Hl _]. apply tally_elem in Hl as (Hlw & _ & v & Hv & Hb).
  unfold pendingResolution. cbn [quorumStatus tallies quorumReached fallbackAvailable].
  rewrite Hh, Hopen, foldl_add_map, Z.add_0_l.
  destruct (requiredWeight c <=? t_weight l); cbn [negb andb fmap option_fmap option_map].
  - eexists. split; [reflexivity|]. cbn. eauto.
  - rewrite (proj2 (Z.leb_le _ _) Hnow), (proj2 (Z.leb_le _ _) Hw).
    eexists. split; [reflexivity|]. cbn. eauto.
Qed.

Lemma resolution_live_witness :
  ∃ r, pendingResolution sampleState 101 sampleConfig = Some r ∧
    r_weight r = weightFor sampleVotes (r_bps r) ∧ ∃ v, v ∈ sampleVotes ∧ sellerGetsBps v = r_bps r.
Proof. apply (resolution_live sampleState 101 sampleConfig 1); [done|cbn; lia..]. Defined.

(** The validator's stated reason for refusing a fallback threshold above
    the quorum threshold, that a vote set short of quorum could never meet it,
    does not hold: two mediators disagreeing with weight 2 each miss a quorum of
    3 and still meet a fallback minimum of 4. *)
Theorem fallback_above_quorum_is_reachable :
  let c := {| enabled := true; valueThreshold := 0; requiredWeight := 3; voteWindowSecs := 100;
              fallbackMinWeight := 4 |} in
  quorumReached (quorumStatus sampleState 200 c) = false ∧
  fallbackAvailable (quorumStatus sampleState 200 c) = true ∧
  assertQuorumConfigValid {| enabled := true; valueThreshold := 0; requiredWeight := JInt 3;
    voteWindowSecs := JInt 100; fallbackMinWeight := JInt 4 |}
  = Err (validationError "fallbackMinWeight must not exceed requiredWeight").
Proof. split_and!; reflexivity. Qed.

(** ** Casting votes *)

(** [evaluateVote] decides exactly the rule: a vote is allowed iff the
    ruling is an integer in 0..10000, the rationale is not blank, the trade is
    on the quorum path and the mediator has not voted; the first failing
    condition in that order is the one reported, and [ALREADY_RESOLVED] never is. *)
Theorem evaluateVote_spec st med bps hash c :
  let e := evaluateVote st med bps hash c in
  let inRange := isInteger bps && negb (jlt bps 0) && negb (jgt bps BPS_DIVISOR) in
  let voted := existsb (λ v, bool_decide (mediator v = med)) (votes st) in
  (allowed e = true ↔ (∃ z, bps = JInt z ∧ 0 ≤ z ≤ 10000) ∧ trim hash ≠ "" ∧
     requiresQuorum (amount st) c = true ∧ med ∉ map mediator (votes st)) ∧
  (rejection e =
     if negb inRange then Some INVALID_BPS
     else if bool_decide (trim hash = "") then Some MISSING_RATIONALE
     else if negb (requiresQuorum (amount st) c) then Some QUORUM_NOT_REQUIRED
     else if voted then Some ALREADY_VOTED else None) ∧
  rejection e ≠ Some ALREADY_RESOLVED.
Proof.
  intros e inRange voted.
  assert (Hv : voted = true ↔ med ∈ map mediator (votes st)).
  { unfold voted. rewrite existsb_exists, list_elem_of_fmap. setoid_rewrite <-list_elem_of_In.
    setoid_rewrite bool_decide_eq_true. naive_solver. }
  assert (Hr : (negb (isInteger bps) || jlt bps 0 || jgt bps BPS_DIVISOR) = negb inRange)
    by (unfold inRange; by destruct (isInteger bps), (jlt bps 0), (jgt bps BPS_DIVISOR)).
  assert (Hz : inRange = true ↔ ∃ z, bps = JInt z ∧ 0 ≤ z ≤ 10000).
  { unfold inRange, BPS_DIVISOR. destruct bps as [z| | | |]; [|split; [done|naive_solver]..].
    cbn. zb. split; [intros; exists z; split; [done|lia]|]. intros (z' & [= <-] & ?). lia. }
  assert (Hh : (strlen (trim hash) =? 0)%nat = bool_decide (trim hash = "")).
  { destruct (trim hash); [done|]. by rewrite bool_decide_eq_false_2. }
  unfold e, evaluateVote. rewrite Hr, Hh. fold voted.
  rewrite <-Hz, <-Hv. clear Hr Hz Hv Hh.
  destruct inRange, voted, (requiresQuorum (amount st) c); cbn;
    destruct (decide (trim hash = "")) as [Ht|Ht];
    rewrite ?(bool_decide_eq_true_2 _ Ht), ?(bool_decide_eq_false_2 _ Ht); cbn; naive_solver.
Qed.

(** One recorded vote, as [cast_dispute_vote] appends it: permitted by the
    service, with a weight the weight validator accepts, and opening the window
    if it is the first. *)
Inductive cast (c : QuorumConfig Z) : DisputeVoteState → DisputeVoteState → Prop :=
| cast_vote st med bps hash w now :
    assertVoteAllowed c st med (JInt bps) hash = Ok tt →
    assertMediatorWeightValid (JInt w) = Ok tt →
    cast c st {|
      tradeId := tradeId st; amount := amount st;
      votes := votes st ++ [{| mediator := med; sellerGetsBps := bps; weight := w;
                               rationaleHash := hash; votedAt := now |}];
      openedAt := Some (default now (openedAt st)) |}.

Record votes_inv (st : DisputeVoteState) : Prop := {
  vi_once : NoDup (map mediator (votes st));
  vi_bps : Forall (λ v, 0 ≤ sellerGetsBps v ≤ 10000) (votes st);
  vi_weight : Forall (λ v, 1 ≤ weight v ≤ 10) (votes st);
  vi_opened : votes st ≠ [] → is_Some (openedAt st);
}.

Lemma evaluateVote_allowed st med bps hash c :
  allowed (evaluateVote st med bps hash c) = true →
  (∃ z, bps = JInt z ∧ 0 ≤ z ≤ 10000) ∧ med ∉ map mediator (votes st).
Proof.
  unfold evaluateVote. case_ifs; cbn; try done. intros _. unfold BPS_DIVISOR in *. split.
  - destruct bps as [z| | | |]; cbn in Hc; try done. exists z. zb. split; [done|lia].
  - apply not_true_iff_false in Hc2. rewrite list_elem_of_fmap. intros (v & -> & Hv). apply Hc2.
    apply existsb_exists. exists v. split; [by apply list_elem_of_In|]. by rewrite bool_decide_eq_true_2.
Qed.

Lemma weight_valid w : assertMediatorWeightValid w = Ok tt → ∃ z, w = JInt z ∧ 1 ≤ z ≤ 10.
Proof.
  unfold assertMediatorWeightValid, MAX_MEDIATOR_WEIGHT. intros H. inv_ok.
  destruct w as [z| | | |]; cbn in *; try done. exists z. zb. split; [done|lia].
Qed.

Lemma cast_inv c st st' : cast c st st' → votes_inv st → votes_inv st'.
Proof.
  intros [st0 med bps hash w now Ha Hw] [H1 H2 H3 H4].
  unfold assertVoteAllowed in Ha. apply throwIf_Ok, negb_false_iff, evaluateVote_allowed in Ha as [(z & [= <-] & Hz) Hm].
  apply weight_valid in Hw as (z' & [= <-] & Hz').
  constructor; cbn.
  - rewrite map_app, NoDup_app. cbn. split_and!; [done|set_solver|apply NoDup_singleton].
  - rewrite Forall_app. split; [done|]. by constructor.
  - rewrite Forall_app. split; [done|]. by constructor.
  - intros _. by eexists.
Qed.

(** In every state reached by casting permitted votes, no mediator has
    voted twice, every recorded ruling is a valid one, every weight is within
    the contract's bounds, the window is open as soon as there is a vote, and so
    the total weight is at most ten per mediator. *)
Theorem reachable_votes_inv c st st' (H0 : votes st = []) (Hr : rtc (cast c) st st') :
  votes_inv st' ∧ sumZ (map weight (votes st')) ≤ 10 * Z.of_nat (length (votes st')).
Proof.
  assert (Hi : votes_inv st) by (constructor; rewrite H0; [constructor..|done]).
  enough (Hinv : votes_inv st').
  { split; [done|]. destruct Hinv as [_ _ Hw _]. rewrite <-(length_map weight). apply sumZ_bound.
    rewrite list.Forall_fmap. eapply Forall_impl; [exact Hw|]. cbn. lia. }
  clear H0. induction Hr; eauto using cast_inv.
Qed.

Lemma reachable_votes_inv_witness :
  let st := {| tradeId := "t"; amount := 20000000000; votes := []; openedAt := None |} in
  let st' := {| tradeId := "t"; amount := 20000000000;
     votes := [{| mediator := "m1"; sellerGetsBps := 7000; weight := 2; rationaleHash := "h"; votedAt := 5 |}];
     openedAt := Some 5 |} in
  votes_inv st' ∧ sumZ (map weight (votes st')) ≤ 10 * Z.of_nat (length (votes st')).
Proof.
  intros st st'. apply (reachable_votes_inv sampleConfig st st'); [reflexivity|].
  apply rtc_once. apply (cast_vote sampleConfig st "m1" 7000 "h" 2 5); reflexivity.
Defined.

(** The policy validator accepts exactly the policies the contract's
    [set_quorum_config] accepts, over all numbers a client can send. *)
Theorem assertQuorumConfigValid_iff c :
  assertQuorumConfigValid c = Ok tt ↔
  0 ≤ valueThreshold c ∧ ∃ r w f, requiredWeight c = JInt r ∧ voteWindowSecs c = JInt w ∧
    fallbackMinWeight c = JInt f ∧ 0 < r ∧ 0 < w ∧ 0 < f ≤ r.
Proof.
  destruct c as [en vt [r| | | |] [w| | | |] [f| | | |]]; unfold assertQuorumConfigValid;
    cbn -[throwIf]; split.
  all: try (intros H; inv_ok; cbn in *; discriminate).
  all: try (intros (? & ? & ? & ? & ? & ? & ? & _); discriminate).
  - intros H. inv_ok. cbn in *. zb. split; [lia|]. exists r, w, f. split_and!; try done; lia.
  - intros (Hv & r' & w' & f' & [= <-] & [= <-] & [= <-] & ? & ? & ? & ?). unfold throwIf.
    rewrite (proj2 (Z.ltb_ge vt 0)), (proj2 (Z.leb_gt r 0)), (proj2 (Z.leb_gt w 0)),
      (proj2 (Z.leb_gt f 0)) by lia. cbn. by rewrite (proj2 (Z.ltb_ge r f)).
Qed.
