(* ===== verification/DeadlineExtension.v ===== *)
(** * Deadline extensions: [backend/src/services/deadlineExtension.service.ts]

    The backend mirror of the on-chain extension caps. Times are Unix seconds
    ([Z]); the policy validator, which must reject non-integers, takes a policy
    with [jsnum] fields. *)

From S2P Require Import Prelude JsString Errors.

Definition DEFAULT_MAX_EXTENSIONS : Z := 3.
Definition DEFAULT_MAX_TOTAL_EXTENSION_SECS : Z := 30 * 24 * 60 * 60.
Definition EXTENSION_POLICY_CEILING_COUNT : Z := 12.
Definition EXTENSION_POLICY_CEILING_SECS : Z := 365 * 24 * 60 * 60.

Record ExtensionPolicy (num : Type) : Type := {
  maxExtensions : num;
  maxTotalExtensionSecs : num;
}.
Arguments maxExtensions {num}. Arguments maxTotalExtensionSecs {num}.

Definition DEFAULT_EXTENSION_POLICY : ExtensionPolicy Z :=
  {| maxExtensions := DEFAULT_MAX_EXTENSIONS;
     maxTotalExtensionSecs := DEFAULT_MAX_TOTAL_EXTENSION_SECS |}.

Record TradeExtensionState : Type := {
  tradeId : string;
  extensionsUsed : Z;
  originalDeadline : option Z;
  currentDeadline : option Z;
}.

Record ExtensionBudget : Type := {
  b_tradeId : string;
  b_extensionsUsed : Z;
  extensionsRemaining : Z;
  b_originalDeadline : option Z;
  extendedBySecs : Z;
  extensionSecsRemaining : Z;
  isFinalExtension : bool;
  isExhausted : bool;
}.

Inductive ExtensionRejection : Type :=
| NO_DEADLINE | COUNT_EXHAUSTED | LIFETIME_CAP_EXCEEDED | NOT_IN_FUTURE
| NOT_LATER_THAN_CURRENT | ALREADY_EXPIRED.

Record ExtensionEvaluation : Type := {
  allowed : bool;
  rejection : option ExtensionRejection;
  reason : option string;
  budget : ExtensionBudget;
}.

(** [a ?? b] *)
Definition nullish {A} (a b : option A) : option A :=
  match a with Some _ => a | None => b end.

Definition extensionBudget (state : TradeExtensionState) (policy : ExtensionPolicy Z) : ExtensionBudget :=
  let original := nullish (originalDeadline state) (currentDeadline state) in
  let extendedBy :=
    match original, currentDeadline state with
    | Some o, Some c => Z.max 0 (c - o)
    | _, _ => 0
    end in
  let remaining := Z.max 0 (maxExtensions policy - extensionsUsed state) in
  let secsRemaining := Z.max 0 (maxTotalExtensionSecs policy - extendedBy) in
  {| b_tradeId := tradeId state;
     b_extensionsUsed := extensionsUsed state;
     extensionsRemaining := remaining;
     b_originalDeadline := original;
     extendedBySecs := extendedBy;
     extensionSecsRemaining := secsRemaining;
     isFinalExtension := remaining =? 1;
     isExhausted := (remaining =? 0) || (secsRemaining =? 0) |}.

Definition refuse (r : ExtensionRejection) (m : string) (b : ExtensionBudget) : ExtensionEvaluation :=
  {| allowed := false; rejection := Some r; reason := Some m; budget := b |}.

Definition evaluateExtension (state : TradeExtensionState) (newDeadline now : Z)
    (policy : ExtensionPolicy Z) : ExtensionEvaluation :=
  let b := extensionBudget state policy in
  match currentDeadline state with
  | None => refuse NO_DEADLINE "Trade has no deadline to extend" b
  | Some current =>
      if current <=? now then
        refuse ALREADY_EXPIRED "Cannot extend a deadline that has already passed" b
      else if newDeadline <=? now then
        refuse NOT_IN_FUTURE "New deadline must be in the future" b
      else if newDeadline <=? current then
        refuse NOT_LATER_THAN_CURRENT "New deadline must be later than the current deadline" b
      else if maxExtensions policy <=? extensionsUsed state then
        refuse COUNT_EXHAUSTED ("Trade has used all " +:+ toString (maxExtensions policy)
          +:+ " permitted deadline extensions") b
      else
        let original := default current (originalDeadline state) in
        let extendedBy := newDeadline - original in
        if maxTotalExtensionSecs policy <? extendedBy then
          refuse LIFETIME_CAP_EXCEEDED ("New deadline extends the trade " +:+ toString extendedBy
            +:+ "s past its original deadline, exceeding the "
            +:+ toString (maxTotalExtensionSecs policy) +:+ "s lifetime cap") b
        else {| allowed := true; rejection := None; reason := None; budget := b |}
  end.

Definition validationError (m : string) : error := AppError VALIDATION_ERROR m 400.

Definition assertPolicyWithinCeilings (policy : ExtensionPolicy jsnum) : result error unit :=
  _ ← throwIf (negb (isInteger (maxExtensions policy)) || jlt (maxExtensions policy) 0)
        (validationError "maxExtensions must be a non-negative integer");
  _ ← throwIf (negb (isInteger (maxTotalExtensionSecs policy)) || jlt (maxTotalExtensionSecs policy) 0)
        (validationError "maxTotalExtensionSecs must be a non-negative integer");
  _ ← throwIf (jgt (maxExtensions policy) EXTENSION_POLICY_CEILING_COUNT)
        (validationError ("maxExtensions exceeds the policy ceiling of "
          +:+ toString EXTENSION_POLICY_CEILING_COUNT));
  throwIf (jgt (maxTotalExtensionSecs policy) EXTENSION_POLICY_CEILING_SECS)
    (validationError ("maxTotalExtensionSecs exceeds the policy ceiling of "
      +:+ toString EXTENSION_POLICY_CEILING_SECS)).

(** [DeadlineExtensionService.assertExtensionAllowed] *)
Definition assertExtensionAllowed (policy : ExtensionPolicy Z) (state : TradeExtensionState)
    (newDeadline now : Z) : result error ExtensionBudget :=
  let e := evaluateExtension state newDeadline now policy in
  if negb (allowed e) then
    Err (AppError DOMAIN_ERROR (default "Deadline extension not permitted"%string (reason e)) 409)
  else Ok (budget e).

(** ** Properties *)

(** What it takes for an extension to be permitted. *)
Definition permitted (st : TradeExtensionState) (new now : Z) (p : ExtensionPolicy Z) : Prop :=
  ∃ cur, currentDeadline st = Some cur ∧ now < cur < new ∧
    extensionsUsed st < maxExtensions p ∧
    new - default cur (originalDeadline st) ≤ maxTotalExtensionSecs p.

Lemma allowed_iff st new now p : allowed (evaluateExtension st new now p) = true ↔ permitted st new now p.
Proof.
  unfold evaluateExtension, permitted. destruct (currentDeadline st) as [cur|]; [|naive_solver].
  case_ifs; cbn; zb; split; try done; try (intros (cur' & [= <-] & ?); lia).
  intros _. exists cur. split_and!; try done; lia.
Qed.

(** An extension is allowed iff the trade has a live deadline, the new one
    is later, an extension is left and the lifetime cap holds; when it is not,
    exactly one rejection code is reported, and the throwing form answers 409. *)
Theorem evaluateExtension_spec p st new now :
  let e := evaluateExtension st new now p in
  (allowed e = true ↔ permitted st new now p) ∧ (allowed e = true ↔ rejection e = None) ∧
  match assertExtensionAllowed p st new now with
  | Ok b => permitted st new now p ∧ b = extensionBudget st p
  | Err err => ¬ permitted st new now p ∧ statusOf err = Some 409
  end.
Proof.
  intros e. split_and!; [apply allowed_iff| |].
  - unfold e, evaluateExtension. destruct (currentDeadline st); case_ifs; cbn; naive_solver.
  - unfold assertExtensionAllowed.
    destruct (allowed (evaluateExtension st new now p)) eqn:Ha; cbn.
    2: { split; [|done]. rewrite <-allowed_iff. congruence. }
    split; [by apply allowed_iff|]. unfold evaluateExtension. destruct (currentDeadline st); [|done]. by case_ifs.
Qed.

(** The state after the chain applies an allowed extension. *)
Definition applyExtension (st : TradeExtensionState) (new : Z) : TradeExtensionState :=
  {| tradeId := tradeId st; extensionsUsed := extensionsUsed st + 1;
     originalDeadline := nullish (originalDeadline st) (currentDeadline st);
     currentDeadline := Some new |}.

(** [extended p n st st']: [n] extensions, each allowed when it was applied. *)
Inductive extended (p : ExtensionPolicy Z) : nat → TradeExtensionState → TradeExtensionState → Prop :=
| extended_0 st : extended p 0 st st
| extended_S n st new now st' :
    allowed (evaluateExtension st new now p) = true →
    extended p n (applyExtension st new) st' → extended p (S n) st st'.

Lemma extended_count p n st st' : extended p n st st' → extensionsUsed st' = extensionsUsed st + Z.of_nat n.
Proof. induction 1; cbn [applyExtension extensionsUsed] in *; lia. Qed.

(** The caps bound the whole life of a trade: starting from a fresh trade
    with deadline [d], however many extensions are allowed and whenever they are
    requested, their number never exceeds the policy's count and the deadline
    in force never moves past [d] by more than the lifetime cap; it never moves
    back either. *)
Theorem extensions_bounded p n tid d st'
    (Hp : 0 ≤ maxExtensions p) (Hs : 0 ≤ maxTotalExtensionSecs p)
    (Hx : extended p n {| tradeId := tid; extensionsUsed := 0; originalDeadline := None;
                          currentDeadline := Some d |} st') :
  Z.of_nat n ≤ maxExtensions p ∧
  ∃ cur, currentDeadline st' = Some cur ∧ d ≤ cur ≤ d + maxTotalExtensionSecs p.
Proof.
  enough (H : ∀ n st st', extended p n st st' → extensionsUsed st ≤ maxExtensions p →
    nullish (originalDeadline st) (currentDeadline st) = Some d →
    (∃ cur, currentDeadline st = Some cur ∧ d ≤ cur ≤ d + maxTotalExtensionSecs p) →
    extensionsUsed st' ≤ maxExtensions p ∧
    ∃ cur, currentDeadline st' = Some cur ∧ d ≤ cur ≤ d + maxTotalExtensionSecs p).
  { destruct (H _ _ _ Hx) as [Hc Hd]; cbn; [lia|done|exists d; split; [done|lia]|].
    rewrite (extended_count _ _ _ _ Hx) in Hc. cbn in Hc. split; [lia|done]. }
  clear -Hs. induction 1 as [|n st new now st' Ha _ IH]; intros Hu Ho Hc; [done|].
  apply allowed_iff in Ha as (cur & Hcur & Hlt & Hn & Hcap).
  destruct Hc as (cur' & Hcur' & Hrange). rewrite Hcur in Hcur'. injection Hcur' as <-.
  assert (default cur (originalDeadline st) = d) as Hod.
  { destruct (originalDeadline st); cbn in *; [congruence|]. rewrite Hcur in Ho. congruence. }
  apply IH; cbn.
  - lia.
  - by rewrite Ho.
  - exists new. split; [done|lia].
Qed.

Lemma extensions_bounded_witness :
  Z.of_nat 1 ≤ maxExtensions DEFAULT_EXTENSION_POLICY ∧
  ∃ cur, currentDeadline {| tradeId := "t"; extensionsUsed := 1; originalDeadline := Some 1000;
    currentDeadline := Some 2000 |} = Some cur ∧
    1000 ≤ cur ≤ 1000 + maxTotalExtensionSecs DEFAULT_EXTENSION_POLICY.
Proof.
  apply (extensions_bounded DEFAULT_EXTENSION_POLICY 1 "t" 1000); [by vm_compute..|].
  eapply (extended_S _ 0 _ 2000 500); [reflexivity|]. apply extended_0.
Defined.

(** The budget shown to clients is coherent with the verdict: for a live
    deadline not earlier than the original one, the budget is exhausted iff no
    later deadline would be accepted, and when it is not, extending by one
    second would be. *)
Theorem exhausted_iff_refused p st now cur
    (Hc : currentDeadline st = Some cur) (Hlive : now < cur)
    (Ho : default cur (originalDeadline st) ≤ cur) :
  (isExhausted (extensionBudget st p) = true ↔
     ∀ new, allowed (evaluateExtension st new now p) = false) ∧
  (isExhausted (extensionBudget st p) = false →
     allowed (evaluateExtension st (cur + 1) now p) = true).
Proof.
  assert (He : isExhausted (extensionBudget st p) = true ↔
    maxExtensions p ≤ extensionsUsed st ∨ maxTotalExtensionSecs p ≤ cur - default cur (originalDeadline st)).
  { unfold extensionBudget. cbn. rewrite Hc. destruct (originalDeadline st) as [o|]; cbn in *; zb; lia. }
  assert (Hno : isExhausted (extensionBudget st p) = false →
     allowed (evaluateExtension st (cur + 1) now p) = true).
  { intros Hf. apply allowed_iff. exists cur. apply not_true_iff_false in Hf. rewrite He in Hf.
    split_and!; [done|lia..]. }
  split; [|done]. split.
  - rewrite He. intros Hex new. apply not_true_iff_false. rewrite allowed_iff.
    intros (cur' & Hc' & Hlt & Hu & Hcap). rewrite Hc in Hc'. injection Hc' as <-. lia.
  - intros Hall. apply not_false_iff_true. intros Hf. specialize (Hno Hf).
    by rewrite Hall in Hno.
Qed.

Lemma exhausted_iff_refused_witness :
  let st := {| tradeId := "t"; extensionsUsed := 3; originalDeadline := Some 1000;
               currentDeadline := Some 2000 |} in
  (isExhausted (extensionBudget st DEFAULT_EXTENSION_POLICY) = true ↔
     ∀ new, allowed (evaluateExtension st new 1500 DEFAULT_EXTENSION_POLICY) = false) ∧
  (isExhausted (extensionBudget st DEFAULT_EXTENSION_POLICY) = false →
     allowed (evaluateExtension st (2000 + 1) 1500 DEFAULT_EXTENSION_POLICY) = true).
Proof. intros st. apply (exhausted_iff_refused DEFAULT_EXTENSION_POLICY st 1500 2000); cbn; [done|lia|lia]. Defined.

(** An admin policy is accepted iff both fields are integers between zero
    and the ceiling the contract enforces. *)
Theorem assertPolicyWithinCeilings_iff p :
  assertPolicyWithinCeilings p = Ok tt ↔
  ∃ n s, maxExtensions p = JInt n ∧ maxTotalExtensionSecs p = JInt s ∧
    0 ≤ n ≤ 12 ∧ 0 ≤ s ≤ 31536000.
Proof.
  destruct p as [[n| | | |] [s| | | |]]; unfold assertPolicyWithinCeilings; cbn -[throwIf]; split.
  all: try (intros H; inv_ok; cbn in *; discriminate).
  all: try (intros (? & ? & ? & ? & _); discriminate).
  - intros H. inv_ok. cbn in *. zb. exists n, s.
    unfold EXTENSION_POLICY_CEILING_COUNT, EXTENSION_POLICY_CEILING_SECS in *.
    split_and!; try done; lia.
  - intros (n' & s' & [= <-] & [= <-] & ? & ?).
    unfold throwIf, EXTENSION_POLICY_CEILING_COUNT, EXTENSION_POLICY_CEILING_SECS.
    rewrite (proj2 (Z.ltb_ge n 0)), (proj2 (Z.ltb_ge s 0)), (proj2 (Z.ltb_ge 12 n)),
      (proj2 (Z.ltb_ge (365 * 24 * 60 * 60) s)) by lia. done.
Qed.
