(* ===== verification/DeadlineContract.v ===== *)
(** * Deadline extensions on the chain: [extend_deadline], [set_extension_policy],
      [get_extension_policy] and [get_extension_status] of [contracts/amana_escrow/src/lib.rs]

    The contract the backend's [DeadlineExtension] mirrors. The storage is that of one trade and
    the policy; an assertion that fails is its message and leaves the storage alone. [signed]
    are the addresses whose authorisation the host found, [timestamp] the ledger's. Integers
    are [Z] in the range of their type: the contract's own checks keep its arithmetic in range. *)

From S2P Require Import Prelude JsString DeadlineExtension.

Definition DEFAULT_MAX_DEADLINE_EXTENSIONS : Z := 3.
Definition DEFAULT_MAX_TOTAL_EXTENSION_SECS : Z := 30 * 24 * 60 * 60.
Definition EXTENSION_POLICY_CEILING_SECS : Z := 365 * 24 * 60 * 60.
Definition EXTENSION_POLICY_CEILING_COUNT : Z := 12.
Definition EVENT_SCHEMA_VERSION : Z := 1.

Inductive TradeStatus : Type := Created | Funded | Delivered | Completed | Disputed | Cancelled.
#[global] Instance TradeStatus_eq_dec : EqDecision TradeStatus.
Proof. solve_decision. Defined.

Record Trade : Type := { trade_id : Z; buyer : string; seller : string; status : TradeStatus; updated_at : Z; expires_at : option Z }.
Record TradeEvent : Type := { event_type : string; ev_timestamp : Z; actor : string; data : string }.
Record ExtensionPolicy : Type := { max_extensions : Z; max_total_extension_secs : Z }.
Record Storage : Type := {
  Admin : option string; Policy : option ExtensionPolicy; TheTrade : option Trade;
  ExtensionCount : option Z; OriginalDeadline : option Z; TradeHistory : option (list TradeEvent) }.

Record DeadlineExtensionBudgetEvent : Type := {
  e_trade_id : Z; extensions_used : Z; extensions_remaining : Z; original_deadline_ : Z; extended_by_secs : Z; extension_secs_remaining : Z; schema_version : Z }.
Record DeadlineExtendedEvent : Type := { d_trade_id : Z; old_deadline : Z; new_deadline_ : Z }.
Record ExtensionStatus : Type := {
  s_trade_id : Z; s_extensions_used : Z; s_extensions_remaining : Z; s_original_deadline : option Z; s_extended_by_secs : Z;
  s_extension_secs_remaining : Z; is_final_extension : bool; is_exhausted : bool }.

Definition saturating_sub (a b : Z) : Z := Z.max 0 (a - b).

Definition require {A} (o : option A) (m : string) : result string A := match o with Some a => Ok a | None => Err m end.
Definition assert (b : bool) (m : string) : result string unit := throwIf (negb b) m.
Definition UNAUTHORIZED : string := "Error(Auth, InvalidAction)".

Section Contract.
Context (signed : string → bool) (timestamp : Z).
Definition require_auth (a : string) : result string unit := assert (signed a) UNAUTHORIZED.

Definition get_extension_policy (s : Storage) : ExtensionPolicy :=
  default {| max_extensions := DEFAULT_MAX_DEADLINE_EXTENSIONS; max_total_extension_secs := DEFAULT_MAX_TOTAL_EXTENSION_SECS |} (Policy s).
Definition extension_count (s : Storage) : Z := default 0 (ExtensionCount s).
Definition load_trade (s : Storage) : result string Trade := require (TheTrade s) "Trade not found".

Definition record_trade_event (type actor data : string) (history : option (list TradeEvent)) : option (list TradeEvent) :=
  Some (default [] history ++ [{| event_type := type; ev_timestamp := timestamp; actor := actor; data := data |}]).

Definition extend_deadline (new_deadline : Z) (s : Storage) : result string (Storage * (DeadlineExtensionBudgetEvent * DeadlineExtendedEvent)) :=
  trade ← load_trade s;
  _ ← require_auth (buyer trade);
  _ ← require_auth (seller trade);
  _ ← assert (bool_decide (status trade = Funded)) "Trade must be Funded to extend deadline";
  old_deadline ← require (expires_at trade) "Trade has no deadline to extend";
  _ ← assert (timestamp <? old_deadline) "Cannot extend a deadline that has already passed";
  _ ← assert (timestamp <? new_deadline) "New deadline must be in the future";
  _ ← assert (old_deadline <? new_deadline) "New deadline must be later than the current deadline";
  let policy := get_extension_policy s in
  let used := extension_count s in
  _ ← assert (used <? max_extensions policy) "Trade has exhausted its deadline extension allowance";
  let original := default old_deadline (OriginalDeadline s) in
  let extended_by := saturating_sub new_deadline original in
  _ ← assert (extended_by <=? max_total_extension_secs policy) "New deadline exceeds the maximum total extension for this trade";
  Ok ({| Admin := Admin s; Policy := Policy s;
         TheTrade := Some {| trade_id := trade_id trade; buyer := buyer trade; seller := seller trade; status := status trade;
                             updated_at := timestamp; expires_at := Some new_deadline |};
         ExtensionCount := Some (used + 1);
         OriginalDeadline := if used =? 0 then Some original else OriginalDeadline s;
         TradeHistory := record_trade_event "deadline_extended" (buyer trade) "delivery deadline extended" (TradeHistory s) |},
      ({| e_trade_id := trade_id trade; extensions_used := used + 1; extensions_remaining := max_extensions policy - (used + 1); original_deadline_ := original;
          extended_by_secs := extended_by; extension_secs_remaining := saturating_sub (max_total_extension_secs policy) extended_by;
          schema_version := EVENT_SCHEMA_VERSION |},
       {| d_trade_id := trade_id trade; old_deadline := old_deadline; new_deadline_ := new_deadline |})).

Definition set_extension_policy (count secs : Z) (s : Storage) : result string Storage :=
  admin ← require (Admin s) "Not initialized";
  _ ← require_auth admin;
  _ ← assert (count <=? EXTENSION_POLICY_CEILING_COUNT) "max_extensions exceeds the policy ceiling";
  _ ← assert (secs <=? EXTENSION_POLICY_CEILING_SECS) "max_total_extension_secs exceeds the policy ceiling";
  Ok {| Admin := Admin s; Policy := Some {| max_extensions := count; max_total_extension_secs := secs |};
        TheTrade := TheTrade s; ExtensionCount := ExtensionCount s; OriginalDeadline := OriginalDeadline s; TradeHistory := TradeHistory s |}.
End Contract.

Definition get_extension_status (s : Storage) : result string ExtensionStatus :=
  trade ← load_trade s;
  let policy := get_extension_policy s in
  let used := extension_count s in
  let original := match OriginalDeadline s with Some o => Some o | None => expires_at trade end in
  let extended_by := match original, expires_at trade with Some original, Some current => saturating_sub current original | _, _ => 0 end in
  let secs_remaining := saturating_sub (max_total_extension_secs policy) extended_by in
  let count_remaining := saturating_sub (max_extensions policy) used in
  Ok {| s_trade_id := trade_id trade; s_extensions_used := used; s_extensions_remaining := count_remaining; s_original_deadline := original;
        s_extended_by_secs := extended_by; s_extension_secs_remaining := secs_remaining; is_final_extension := count_remaining =? 1;
        is_exhausted := (count_remaining =? 0) || (secs_remaining =? 0) |}.

(** ** What the backend mirrors *)

(** The calls the contract receives; [Elsewhere]: any other function of the contract, which may
    move the trade on and write its history but has no business with its deadlines. *)
Inductive Call : Type :=
| Extend (signed : string → bool) (timestamp new_deadline : Z)
| SetPolicy (signed : string → bool) (count secs : Z)
| Elsewhere (now_ : TradeStatus) (at_ : Z) (history : option (list TradeEvent)).

Definition moved (st : TradeStatus) (at_ : Z) (t : Trade) : Trade :=
  {| trade_id := trade_id t; buyer := buyer t; seller := seller t; status := st; updated_at := at_; expires_at := expires_at t |}.
Definition receive (s : Storage) (c : Call) : Storage :=
  match c with
  | Extend signed now new => match extend_deadline signed now new s with Ok (s', _) => s' | Err _ => s end
  | SetPolicy signed count secs => match set_extension_policy signed count secs s with Ok s' => s' | Err _ => s end
  | Elsewhere st at_ h => {| Admin := Admin s; Policy := Policy s; TheTrade := moved st at_ <$> TheTrade s; ExtensionCount := ExtensionCount s;
                             OriginalDeadline := OriginalDeadline s; TradeHistory := h |}
  end.
(** The arguments of [set_extension_policy] are unsigned. *)
Definition unsigned (c : Call) : Prop := match c with SetPolicy _ count secs => 0 ≤ count ∧ 0 ≤ secs | _ => True end.

(** What the backend reads from the chain. *)
Definition mirrored (s : Storage) (t : Trade) : TradeExtensionState :=
  {| tradeId := toString (trade_id t); extensionsUsed := extension_count s; originalDeadline := OriginalDeadline s; currentDeadline := expires_at t |}.
Definition mirroredPolicy (s : Storage) : DeadlineExtension.ExtensionPolicy Z :=
  {| maxExtensions := max_extensions (get_extension_policy s); maxTotalExtensionSecs := max_total_extension_secs (get_extension_policy s) |}.

(** The message the contract stops with where the backend reports [r]. *)
Definition assertion (r : ExtensionRejection) : string :=
  match r with
  | NO_DEADLINE => "Trade has no deadline to extend"
  | ALREADY_EXPIRED => "Cannot extend a deadline that has already passed"
  | NOT_IN_FUTURE => "New deadline must be in the future"
  | NOT_LATER_THAN_CURRENT => "New deadline must be later than the current deadline"
  | COUNT_EXHAUSTED => "Trade has exhausted its deadline extension allowance"
  | LIFETIME_CAP_EXCEEDED => "New deadline exceeds the maximum total extension for this trade"
  end.

(** The contract's figures and the backend's. *)
Definition announced (e : DeadlineExtensionBudgetEvent) (b : ExtensionBudget) : Prop :=
  toString (e_trade_id e) = b_tradeId b ∧ extensions_used e = b_extensionsUsed b ∧ extensions_remaining e = extensionsRemaining b ∧
  Some (original_deadline_ e) = b_originalDeadline b ∧ extended_by_secs e = extendedBySecs b ∧ extension_secs_remaining e = extensionSecsRemaining b.
Definition reported (x : ExtensionStatus) (b : ExtensionBudget) : Prop :=
  toString (s_trade_id x) = b_tradeId b ∧ s_extensions_used x = b_extensionsUsed b ∧ s_extensions_remaining x = extensionsRemaining b ∧
  s_original_deadline x = b_originalDeadline b ∧ s_extended_by_secs x = extendedBySecs b ∧ s_extension_secs_remaining x = extensionSecsRemaining b ∧
  is_final_extension x = isFinalExtension b ∧ is_exhausted x = isExhausted b.

Definition allowedPolicy (p : ExtensionPolicy) : Prop := 0 ≤ max_extensions p ≤ 12 ∧ 0 ≤ max_total_extension_secs p ≤ 31536000.

(** The trade [t] was created with the deadline [d]: none of it moved yet, or within a year. *)
Record sound (d : option Z) (t : Trade) (s : Storage) : Prop := {
  so_trade : TheTrade s = Some t;
  so_policy : allowedPolicy (get_extension_policy s);
  so_count : 0 ≤ extension_count s ≤ 12;
  so_deadline : OriginalDeadline s = None ∧ extension_count s = 0 ∧ expires_at t = d ∨
    ∃ o cur, d = Some o ∧ OriginalDeadline s = Some o ∧ 0 < extension_count s ∧ expires_at t = Some cur ∧ o < cur ≤ o + 31536000 }.

Lemma extend_cases signed now new s t : TheTrade s = Some t → 0 ≤ max_total_extension_secs (get_extension_policy s) →
  match extend_deadline signed now new s with
  | Ok (s', (b, _)) => signed (buyer t) = true ∧ signed (seller t) = true ∧ status t = Funded ∧
      ∃ cur, expires_at t = Some cur ∧ now < cur < new ∧ extension_count s < max_extensions (get_extension_policy s) ∧
        new - default cur (OriginalDeadline s) ≤ max_total_extension_secs (get_extension_policy s) ∧
        allowed (evaluateExtension (mirrored s t) new now (mirroredPolicy s)) = true
  | Err m => signed (buyer t) = false ∨ signed (seller t) = false ∨ status t ≠ Funded ∨
      ∃ r, rejection (evaluateExtension (mirrored s t) new now (mirroredPolicy s)) = Some r ∧ m = assertion r
  end.
Proof.
  intros Ht Hp. unfold extend_deadline, load_trade, require_auth, assert, evaluateExtension. cbn [mirrored currentDeadline extensionsUsed originalDeadline mirroredPolicy maxExtensions maxTotalExtensionSecs].
  rewrite Ht. cbn [require mbind result_bind].
  destruct (signed (buyer t)); cbn [negb throwIf mbind result_bind]; [|by left]. destruct (signed (seller t)); cbn [negb throwIf mbind result_bind]; [|by right; left].
  case_bool_decide as Hf; cbn [negb throwIf mbind result_bind]; [|by right; right; left].
  destruct (expires_at t) as [cur|]; cbn [require mbind result_bind]; [|right; right; right; by eexists].
  destruct (Z.leb_spec cur now), (Z.ltb_spec now cur); try lia; cbn [negb throwIf mbind result_bind]; [right; right; right; by eexists|].
  destruct (Z.leb_spec new now), (Z.ltb_spec now new); try lia; cbn [negb throwIf mbind result_bind]; [right; right; right; by eexists|].
  destruct (Z.leb_spec new cur), (Z.ltb_spec cur new); try lia; cbn [negb throwIf mbind result_bind]; [right; right; right; by eexists|].
  set (p := get_extension_policy s) in *. set (used := extension_count s).
  destruct (Z.leb_spec (max_extensions p) used), (Z.ltb_spec used (max_extensions p)); try lia; cbn [negb throwIf mbind result_bind]; [right; right; right; by eexists|].
  set (o := default cur (OriginalDeadline s)). unfold saturating_sub.
  destruct (Z.ltb_spec (max_total_extension_secs p) (new - o)), (Z.leb_spec (Z.max 0 (new - o)) (max_total_extension_secs p)); try lia; cbn [negb throwIf mbind result_bind];
    [right; right; right; by eexists|]. split_and!; try done. exists cur. split_and!; done || lia.
Qed.

Lemma extend_result signed now new s s' b e : extend_deadline signed now new s = Ok (s', (b, e)) → ∃ t cur, TheTrade s = Some t ∧ expires_at t = Some cur ∧
  let o := default cur (OriginalDeadline s) in
  Policy s' = Policy s ∧ TheTrade s' = Some {| trade_id := trade_id t; buyer := buyer t; seller := seller t; status := status t; updated_at := now; expires_at := Some new |} ∧
  extension_count s' = extension_count s + 1 ∧ OriginalDeadline s' = (if extension_count s =? 0 then Some o else OriginalDeadline s) ∧
  b = {| e_trade_id := trade_id t; extensions_used := extension_count s + 1; extensions_remaining := max_extensions (get_extension_policy s) - (extension_count s + 1);
         original_deadline_ := o; extended_by_secs := saturating_sub new o;
         extension_secs_remaining := saturating_sub (max_total_extension_secs (get_extension_policy s)) (saturating_sub new o); schema_version := EVENT_SCHEMA_VERSION |}.
Proof.
  unfold extend_deadline, load_trade, require_auth, assert. intros H. destruct (TheTrade s) as [t|] eqn:Ht; [|done]. cbn [require mbind result_bind] in H.
  destruct (expires_at t) as [cur|] eqn:Hc; inv_ok; [|by cbn in *].
  exists t, cur. cbn [require mbind result_bind] in *. inv_ok. cbn in *. simplify_eq. cbn. done.
Qed.

Lemma receive_sound d s t c : sound d t s → unsigned c → ∃ t', sound d t' (receive s c) ∧ buyer t' = buyer t ∧ seller t' = seller t ∧ trade_id t' = trade_id t.
Proof.
  intros [Ht [Hp1 Hp2] Hc Hd] Hu. destruct c as [signed now new|signed count secs|st at_ h]; cbn [receive].
  - pose proof (extend_cases signed now new s t Ht ltac:(lia)) as H. destruct (extend_deadline signed now new s) as [[s' [b e]]|m] eqn:He; [|by exists t].
    destruct H as (_ & _ & _ & cur & Hcur & Hn & Hu' & Hcap & _). apply extend_result in He as (t' & cur' & Ht' & Hcur' & Hpol & Hs & Hcount & Ho & _).
    rewrite Ht in Ht'. injection Ht' as <-. rewrite Hcur in Hcur'. injection Hcur' as <-. eexists. split; [split; [exact Hs| | |]|done].
    + unfold get_extension_policy. by rewrite Hpol.
    + rewrite Hcount. lia.
    + rewrite Hcount, Ho. cbn. right. destruct Hd as [(Hn' & H0 & Hd)|(o & cur' & -> & Ho' & H0 & Hcur' & Hb)].
      * rewrite Hn' in *. rewrite H0. cbn. exists cur, new. cbn in Hcap. split_and!; try done; try congruence; lia.
      * rewrite Ho' in *. rewrite Hcur in Hcur'. injection Hcur' as <-. cbn in Hcap. destruct (Z.eqb_spec (extension_count s) 0); [lia|]. exists o, new. split_and!; try done; lia.
  - exists t. split; [|done]. destruct (set_extension_policy signed count secs s) as [s'|] eqn:He; [|by split].
    unfold set_extension_policy, require_auth, assert in He. destruct (Admin s); [|done]. cbn [require mbind result_bind] in He. inv_ok. zb. unfold EXTENSION_POLICY_CEILING_COUNT, EXTENSION_POLICY_CEILING_SECS in *.
    cbn in Hu. split; cbn; try done. split; cbn; lia.
  - exists (moved st at_ t). split; [|done]. split; cbn; try done. by rewrite Ht.
Qed.

Lemma run_sound d cs : ∀ s t, sound d t s → Forall unsigned cs → ∃ t', sound d t' (foldl receive s cs) ∧ buyer t' = buyer t ∧ seller t' = seller t ∧ trade_id t' = trade_id t.
Proof.
  induction cs as [|c cs IH]; intros s t Hs Hu; [by exists t|]. apply Forall_cons in Hu as [Hc Hu]. destruct (receive_sound d s t c Hs Hc) as (t1 & H1 & Hb & Hse & Hid).
  destruct (IH _ t1 H1 Hu) as (t2 & H2 & Hb2 & Hse2 & Hid2). exists t2. split_and!; try done; congruence.
Qed.

(** C26: Let a trade be created under a policy within the ceilings, and let the contract receive
    any calls: extensions by whoever signs, changes of the policy, and other functions moving
    the trade on. Then for every further extension the contract and the backend agree: with both
    parties' signatures on a funded trade it succeeds exactly when the backend's evaluation of
    the mirrored state allows it, otherwise it stops at the assertion of the reason the backend
    reports; the budget event of a successful one and the status query carry the figures of the
    backend's budget. And whatever the policy was changed to in between, the deadline has moved
    at most twelve times and by at most a year. *)
Theorem mirror_refines_contract s0 t0 calls : TheTrade s0 = Some t0 → ExtensionCount s0 = None → OriginalDeadline s0 = None → allowedPolicy (get_extension_policy s0) →
  Forall unsigned calls → let s := foldl receive s0 calls in ∃ t, TheTrade s = Some t ∧ trade_id t = trade_id t0 ∧ buyer t = buyer t0 ∧ seller t = seller t0 ∧
  (∀ signed now new, match extend_deadline signed now new s with
     | Ok (s', (budget, _)) => signed (buyer t) = true ∧ signed (seller t) = true ∧ status t = Funded ∧
         allowed (evaluateExtension (mirrored s t) new now (mirroredPolicy s)) = true ∧
         ∃ t', TheTrade s' = Some t' ∧ expires_at t' = Some new ∧ announced budget (extensionBudget (mirrored s' t') (mirroredPolicy s'))
     | Err m => signed (buyer t) = false ∨ signed (seller t) = false ∨ status t ≠ Funded ∨
         ∃ r, rejection (evaluateExtension (mirrored s t) new now (mirroredPolicy s)) = Some r ∧ m = assertion r
     end) ∧
  (∃ x, get_extension_status s = Ok x ∧ reported x (extensionBudget (mirrored s t) (mirroredPolicy s))) ∧
  extension_count s ≤ 12 ∧ ∀ d, expires_at t0 = Some d → ∃ cur, expires_at t = Some cur ∧ d ≤ cur ≤ d + 365 * 24 * 60 * 60.
Proof.
  intros Ht0 Hc0 Ho0 Hp0 Hu. assert (sound (expires_at t0) t0 s0) as Hs0.
  { split; [done|done| |left]; unfold extension_count; rewrite Hc0; cbn; [lia|done]. }
  destruct (run_sound _ calls _ _ Hs0 Hu) as (t & Hs & Hb & Hse & Hid). intros s. fold s in Hs. exists t. pose proof Hs as [Ht [Hp1 Hp2] Hc Hd].
  split_and!; try done.
  - intros signed now new. pose proof (extend_cases signed now new s t Ht ltac:(lia)) as H. destruct (extend_deadline signed now new s) as [[s' [b e]]|m] eqn:He; [|done].
    destruct H as (H1 & H2 & H3 & cur & Hcur & Hn & Hu' & Hcap & Hr). split_and!; try done.
    apply extend_result in He as (t' & cur' & Ht' & Hcur' & Hpol & Hs' & Hcount & Ho & ->). rewrite Ht in Ht'. injection Ht' as <-. rewrite Hcur in Hcur'. injection Hcur' as <-.
    eexists. split_and!; [exact Hs'|done|]. unfold announced, extensionBudget, mirrored, mirroredPolicy, saturating_sub. cbn. rewrite Hcount, Ho. unfold get_extension_policy. rewrite Hpol.
    fold (get_extension_policy s). destruct Hd as [(Hn' & H0 & Hd)|(o & cur' & _ & Ho' & H0 & _ & _)].
    + rewrite Hn', H0 in *. cbn. split_and!; try done; lia.
    + rewrite Ho' in *. destruct (Z.eqb_spec (extension_count s) 0); [lia|]. cbn. split_and!; try done; lia.
  - unfold get_extension_status, load_trade. rewrite Ht. cbn [require mbind result_bind]. eexists. split; [reflexivity|].
    unfold reported, extensionBudget, mirrored, mirroredPolicy, saturating_sub. cbn. destruct (OriginalDeadline s), (expires_at t); cbn; done.
  - lia.
  - intros d Hd0. rewrite Hd0 in Hd. destruct Hd as [(_ & _ & ->)|(o & cur & [= <-] & _ & _ & -> & H)]; eexists; split; try done; lia.
Qed.

(** ** Samples *)

Definition everyone (a : string) : bool := true.
Definition created : Trade := {| trade_id := 7; buyer := "GB"; seller := "GS"; status := Created; updated_at := 10; expires_at := Some 1000 |}.
Definition opened : Storage := {| Admin := Some "GA"%string; Policy := None; TheTrade := Some created; ExtensionCount := None; OriginalDeadline := None; TradeHistory := None |}.
Definition calls : list Call :=
  [Extend everyone 20 2000; Elsewhere Funded 30 None; Extend everyone 40 2000; Extend (String.eqb "GB") 45 3000; SetPolicy everyone 2 10000;
   SetPolicy everyone 13 10000; Extend everyone 1500 11001; Extend everyone 1500 11000; Extend everyone 1600 11500].
Example calls_received : let s := foldl receive opened calls in
  (expires_at <$> TheTrade s) = Some (Some 11000) ∧ ExtensionCount s = Some 2 ∧ OriginalDeadline s = Some 1000 ∧
  match extend_deadline everyone 1600 12000 s with Err m => m = assertion COUNT_EXHAUSTED | Ok _ => False end.
Proof. vm_compute. done. Qed.

Lemma mirror_refines_contract_witness : let s := foldl receive opened calls in ∃ t, TheTrade s = Some t ∧
  (∃ x, get_extension_status s = Ok x ∧ reported x (extensionBudget (mirrored s t) (mirroredPolicy s))) ∧
  ∃ cur, expires_at t = Some cur ∧ 1000 ≤ cur ≤ 1000 + 365 * 24 * 60 * 60.
Proof.
  destruct (mirror_refines_contract opened created calls) as (t & Ht & _ & _ & _ & _ & Hx & _ & Hd).
  - reflexivity.
  - reflexivity.
  - reflexivity.
  - split; split; discriminate.
  - repeat constructor; discriminate.
  - exists t. split; [exact Ht|]. split; [exact Hx|]. apply Hd. reflexivity.
Defined.
