(* ===== verification/Disputes.v ===== *)
(** * Disputes: [backend/src/services/disputeTransitions.ts],
      [backend/src/services/dispute.service.ts], [backend/src/lib/accessControl.ts]

    The dispute table is any [Table] keyed by [tradeId] (unique in the schema);
    a row carries its numeric [id] and the optimistic-concurrency [version].
    [now] is the clock. Between the read and the guarded write of
    [transitionDisputeStatus] other transactions may commit: the parameter
    [between] is what they did to the table. A call that throws leaves the table
    as it was, since the write happens in a transaction. *)

From S2P Require Import Prelude JsString Errors DbClient Prisma.

Inductive DisputeStatus : Type := OPEN | UNDER_REVIEW | RESOLVED | CLOSED.

#[global] Instance DisputeStatus_eq_dec : EqDecision DisputeStatus.
Proof. solve_decision. Defined.

Definition statusName (s : DisputeStatus) : string :=
  match s with
  | OPEN => "OPEN" | UNDER_REVIEW => "UNDER_REVIEW" | RESOLVED => "RESOLVED" | CLOSED => "CLOSED"
  end.

Definition COMPLETED_DISPUTE_STATUSES : list DisputeStatus := [RESOLVED; CLOSED].

Definition VALID_TRANSITIONS (s : DisputeStatus) : list DisputeStatus :=
  match s with
  | OPEN => [UNDER_REVIEW; CLOSED]
  | UNDER_REVIEW => [RESOLVED; CLOSED]
  | RESOLVED => []
  | CLOSED => []
  end.

Definition includes {A} `{EqDecision A} (l : list A) (x : A) : bool := bool_decide (x ∈ l).

Definition getAllowedTransitions (s : DisputeStatus) : list DisputeStatus := VALID_TRANSITIONS s.
Definition isValidTransition (from to : DisputeStatus) : bool := includes (getAllowedTransitions from) to.
Definition isTerminalDisputeStatus (s : DisputeStatus) : bool := includes COMPLETED_DISPUTE_STATUSES s.

Definition resolvedAtForStatus (s : DisputeStatus) (now : Z) : option Z :=
  match s with RESOLVED | CLOSED => Some now | _ => None end.

Definition assertValidTransition (currentStatus requestedStatus : DisputeStatus) : result error unit :=
  let allowedNext := getAllowedTransitions currentStatus in
  throwIf (negb (includes allowedNext requestedStatus))
    (AppError DISPUTE_STATUS_TRANSITION_INVALID
      ("Cannot transition dispute from " +:+ statusName currentStatus +:+ " to "
        +:+ statusName requestedStatus) 422).

Definition assertTransitionApplied (applied : bool) : result error unit :=
  throwIf (negb applied)
    (AppError DISPUTE_STATUS_CONFLICT "Dispute status changed concurrently; retry the transition" 409).

(** ** Rows *)

Record TradeSummary : Type := { buyerAddress : string; sellerAddress : string; amountUsdc : string }.

Record Dispute : Type := {
  id : Z;
  tradeId : string;
  initiator : string;
  reason : string;
  status : DisputeStatus;
  version : Z;
  resolvedAt : option Z;
  createdAt : Z;
  updatedAt : Z;
  trade : TradeSummary;
}.

(** The [data] of an update; [updatedAt] is maintained by the schema. *)
Definition setStatus (s : DisputeStatus) (r : option Z) (now : Z) (d : Dispute) : Dispute :=
  {| id := id d; tradeId := tradeId d; initiator := initiator d; reason := reason d;
     status := s; version := version d + 1;
     resolvedAt := match r with Some t => Some t | None => resolvedAt d end;
     createdAt := createdAt d; updatedAt := now; trade := trade d |}.

Definition setReason (s : string) (now : Z) (d : Dispute) : Dispute :=
  {| id := id d; tradeId := tradeId d; initiator := initiator d; reason := s;
     status := status d; version := version d; resolvedAt := resolvedAt d;
     createdAt := createdAt d; updatedAt := now; trade := trade d |}.

(** The API shape; times are serialised with [toISOString]. *)
Record DisputeResponse : Type := {
  r_id : Z; r_tradeId : string; r_initiator : string; r_reason : string;
  r_status : DisputeStatus; r_createdAt : Z; r_updatedAt : Z; r_resolvedAt : option Z;
  r_trade : TradeSummary;
}.

Definition toDisputeResponse (d : Dispute) : DisputeResponse :=
  {| r_id := id d; r_tradeId := tradeId d; r_initiator := initiator d; r_reason := reason d;
     r_status := status d; r_createdAt := createdAt d; r_updatedAt := updatedAt d;
     r_resolvedAt := resolvedAt d; r_trade := trade d |}.

(** ** The mediator allowlist *)

Definition isBlank (s : string) : bool := bool_decide (s = ""%string).

Definition getMediatorAllowlist (adminPubkeysRaw : string) : list string :=
  List.filter (λ s, negb (isBlank s)) (map trim (split "," adminPubkeysRaw)).

Definition isMediatorAddress (adminPubkeysRaw address : string) : bool :=
  includes (getMediatorAllowlist adminPubkeysRaw) address.

Section Service.
Context {T : Type} `{!Table string Dispute T}.

(** ** Transitions *)

Definition applyDisputeStatusTransition (tx : T) (dispute : Dispute) (newStatus : DisputeStatus)
    (now : Z) : bool * T :=
  let r := resolvedAtForStatus newStatus now in
  let res := updateMany
    (λ d, bool_decide (id d = id dispute ∧ status d = status dispute ∧ version d = version dispute))
    (setStatus newStatus r now) tx in
  (0 <? res.1, res.2).

Definition syncDisputeResolvedFromChain (tx : T) (tid : string) (now : Z) : result error T :=
  match findUnique tid tx with
  | None => Ok tx
  | Some dispute =>
      if isTerminalDisputeStatus (status dispute) then Ok tx
      else
        let res := updateMany
          (λ d, bool_decide (id d = id dispute ∧ status d ∈ [OPEN; UNDER_REVIEW]
                             ∧ version d = version dispute))
          (setStatus RESOLVED (Some now) now) tx in
        if res.1 =? 0 then Err (PlainError "Dispute concurrency conflict during chain sync")
        else Ok res.2
  end.

(** [nextId] and [summary] are what the database fills in. *)
Definition syncDisputeInitiatedFromChain (tx : T) (tid initiator : string) (nextId now : Z)
    (summary : TradeSummary) : result error T :=
  match findUnique tid tx with
  | Some _ => Ok tx
  | None =>
      match create tid
        {| id := nextId; tradeId := tid;
           initiator := storedAddress (if isBlank initiator then "unknown" else initiator);
           reason := "On-chain dispute initiation"; status := OPEN; version := 0;
           resolvedAt := None; createdAt := now; updatedAt := now; trade := summary |} tx with
      | Some tx' => Ok tx'
      | None => Err (PlainError "P2002")
      end
  end.

(** ** [DisputeService] *)

Definition requireMediator (adminPubkeysRaw mediatorAddress : string) : result error unit :=
  throwIf (negb (isMediatorAddress adminPubkeysRaw mediatorAddress))
    (AppError AUTH_ERROR "Unauthorized: Not a mediator" 403).

Definition getDisputeByTradeId (db : T) (tid : string) : option DisputeResponse :=
  toDisputeResponse <$> findUnique tid db.

Record DisputeCleanupResult : Type := { purgedCount : Z; tradeIds : list string }.

Definition purgeCompletedDisputeData (adminPubkeysRaw : string) (db : T) (mediatorAddress : string)
    (olderThanDays now : Z) : result error (DisputeCleanupResult * T) :=
  _ ← requireMediator adminPubkeysRaw mediatorAddress;
  let cutoff := now - olderThanDays * 24 * 60 * 60 * 1000 in
  let completed := findMany
    (λ d, includes COMPLETED_DISPUTE_STATUSES (status d)
          && match resolvedAt d with Some r => r <=? cutoff | None => false end
          && negb (isBlank (reason d))) db in
  if (length completed =? 0)%nat then Ok ({| purgedCount := 0; tradeIds := [] |}, db)
  else
    let ids := map id completed in
    let db' := (updateMany (λ d, includes ids (id d)) (setReason "" now) db).2 in
    Ok ({| purgedCount := Z.of_nat (length completed); tradeIds := map tradeId completed |}, db').

Definition transitionDisputeStatus (adminPubkeysRaw : string) (db : T) (between : T → T)
    (tid mediatorAddress : string) (newStatus : DisputeStatus) (now : Z)
    : result error (DisputeResponse * T) :=
  _ ← requireMediator adminPubkeysRaw mediatorAddress;
  match findUnique tid db with
  | None => Err (AppError DISPUTE_NOT_FOUND ("No dispute found for trade: " +:+ tid) 404)
  | Some dispute =>
      if bool_decide (status dispute = newStatus) then Ok (toDisputeResponse dispute, db)
      else
        _ ← assertValidTransition (status dispute) newStatus;
        let '(applied, tx) := applyDisputeStatusTransition (between db) dispute newStatus now in
        _ ← assertTransitionApplied applied;
        match findFirst (λ d, bool_decide (id d = id dispute)) tx with
        | Some updated => Ok (toDisputeResponse updated, tx)
        | None => Err (PlainError "P2025")
        end
  end.
End Service.

(** ** The status order *)

Definition rank (s : DisputeStatus) : nat :=
  match s with OPEN => 0 | UNDER_REVIEW => 1 | RESOLVED => 2 | CLOSED => 2 end.

(** Mediator transitions only move forward: each one strictly raises the
    stage of the dispute, a status is terminal exactly when nothing leaves it,
    and so a dispute undergoes at most two transitions in its life. *)
Theorem transitions_forward :
  (∀ a b, isValidTransition a b = true → (rank a < rank b)%nat) ∧
  (∀ a, isTerminalDisputeStatus a = true ↔ getAllowedTransitions a = []) ∧
  (∀ n a b, nsteps (λ x y, isValidTransition x y = true) n a b → (n ≤ 2)%nat).
Proof.
  assert (Hr : ∀ a b, isValidTransition a b = true → (rank a < rank b)%nat)
    by (intros [] []; vm_compute; intros; (discriminate || lia)).
  split_and!; [done|by intros []|].
  assert (Hn : ∀ n a b, nsteps (λ x y, isValidTransition x y = true) n a b → (n + rank a ≤ rank b)%nat).
  { induction 1 as [|n x y z Hs _ IH]; [lia|]. apply Hr in Hs. lia. }
  intros n a b Hs. apply Hn in Hs. destruct b; cbn in Hs; lia.
Qed.

Section Properties.
Context {T : Type} `{!Table string Dispute T, !TableLaws string Dispute T}.
Implicit Types (t : T) (d : Dispute).

(** A well-formed table: rows sit under their trade id and numeric ids are unique. *)
Record wf (t : T) : Prop := {
  wf_key k d : findUnique k t = Some d → tradeId d = k;
  wf_id k1 k2 d1 d2 : findUnique k1 t = Some d1 → findUnique k2 t = Some d2 → id d1 = id d2 → k1 = k2;
}.

(** Any guarded [updateMany] on the id of one row touches that row only. *)
Lemma updateMany_one t tid d (p : Dispute → bool) f : wf t → findUnique tid t = Some d →
  (∀ d', p d' = true → id d' = id d) →
  let r := updateMany p f t in
  (0 < r.1 ↔ p d = true) ∧ findUnique tid r.2 = Some (if p d then f d else d) ∧
  ∀ k, k ≠ tid → findUnique k r.2 = findUnique k t.
Proof.
  intros [_ Hid] Hd Hp. cbn. split_and!.
  - rewrite updateMany_hit. split; [|eauto]. intros (k & d' & Hk & Hpd).
    rewrite (Hid _ _ _ _ Hk Hd (Hp _ Hpd)) in Hk. by simplify_eq.
  - rewrite updateMany_rows, Hd. cbn. by destruct (p d).
  - intros k Hk. rewrite updateMany_rows. destruct (findUnique k t) as [d'|] eqn:Hk'; [|done]. cbn.
    destruct (p d') eqn:Hpd; [|done]. destruct Hk. apply (Hid _ _ _ _ Hk' Hd (Hp _ Hpd)).
Qed.

(** An update that keeps ids and trade ids keeps the table well formed. *)
Lemma wf_updateMany t p f : wf t → (∀ d, id (f d) = id d ∧ tradeId (f d) = tradeId d) →
  wf (updateMany p f t).2.
Proof.
  intros [Hk Hi] Hf.
  assert (H : ∀ k d, findUnique k (updateMany p f t).2 = Some d →
    ∃ d0, findUnique k t = Some d0 ∧ id d = id d0 ∧ tradeId d = tradeId d0).
  { intros k d. rewrite updateMany_rows. destruct (findUnique k t) as [d0|]; [|done]. cbn.
    intros [= <-]. exists d0. destruct (p d0); [|done]. split; [done|apply Hf]. }
  split.
  - intros k d (d0 & H0 & _ & ->)%H. eauto.
  - intros k1 k2 d1 d2 (e1 & H1 & -> & _)%H (e2 & H2 & -> & _)%H. eauto.
Qed.

Lemma apply_fresh t tid d s now : wf t → findUnique tid t = Some d →
  ∃ t', applyDisputeStatusTransition t d s now = (true, t') ∧ wf t' ∧
    findUnique tid t' = Some (setStatus s (resolvedAtForStatus s now) now d) ∧
    ∀ k, k ≠ tid → findUnique k t' = findUnique k t.
Proof.
  intros Hwf Hd. unfold applyDisputeStatusTransition.
  set (p := λ d', bool_decide _). set (f := setStatus s _ now).
  destruct (updateMany_one t tid d p f Hwf Hd) as (Hc & Hr & Ho).
  { intros d'. unfold p. by intros (? & _)%bool_decide_eq_true. }
  assert (p d = true) as Hp by (by apply bool_decide_eq_true_2).
  rewrite Hp in Hr. eexists. split; [|split_and!].
  - f_equal. apply Z.ltb_lt, Hc, Hp.
  - by apply wf_updateMany.
  - done.
  - done.
Qed.

Lemma apply_stale t tid d d' s now : wf t → findUnique tid t = Some d' → id d' = id d →
  (status d' ≠ status d ∨ version d' ≠ version d) →
  (applyDisputeStatusTransition t d s now).1 = false.
Proof.
  intros Hwf Hd Hid Hne. unfold applyDisputeStatusTransition. cbn.
  set (p := λ x, bool_decide _).
  destruct (updateMany_one t tid d' p (setStatus s (resolvedAtForStatus s now) now) Hwf Hd) as (Hc & _).
  { intros x. unfold p. intros (-> & _)%bool_decide_eq_true. done. }
  assert (p d' = false) as Hp by (apply bool_decide_eq_false_2; naive_solver).
  rewrite Hp in Hc. apply Z.ltb_ge. destruct (Z.le_gt_cases (updateMany p (setStatus s (resolvedAtForStatus s now) now) t).1 0); [done|].
  apply Hc in H. done.
Qed.

Lemma findFirst_id t tid d e : wf t → findUnique tid t = Some e → id e = id d →
  findFirst (λ x, bool_decide (id x = id d)) t = Some e.
Proof.
  intros [_ Hi] He Hid. destruct (findFirst _ t) as [x|] eqn:Hf.
  - apply findFirst_Some in Hf as (k & Hk & Hx%bool_decide_eq_true).
    assert (k = tid) as -> by (eapply Hi; [exact Hk|exact He|congruence]). congruence.
  - rewrite findFirst_None in Hf. specialize (Hf _ _ He). apply bool_decide_eq_false in Hf. done.
Qed.

(** Without interference [transitionDisputeStatus] is total and does what it
    says on every branch: 403 for a non-mediator, 404 without a dispute, the
    unchanged dispute when the status already holds (a retry), 422 for a move
    the map does not list, and otherwise the one row gets the new status, the
    next version and, for a terminal status, its resolution time, every other
    row is untouched and the table stays well formed. *)
Theorem transition_sequential adm t tid med new now (Hwf : wf t) :
  let run := transitionDisputeStatus adm t (λ t, t) tid med new now in
  if negb (isMediatorAddress adm med) then ∃ m, run = Err (AppError AUTH_ERROR m 403)
  else match findUnique tid t with
  | None => ∃ m, run = Err (AppError DISPUTE_NOT_FOUND m 404)
  | Some d =>
      if bool_decide (status d = new) then run = Ok (toDisputeResponse d, t)
      else if isValidTransition (status d) new then
        let d' := setStatus new (resolvedAtForStatus new now) now d in
        ∃ t', run = Ok (toDisputeResponse d', t') ∧ wf t' ∧ findUnique tid t' = Some d' ∧
          version d' = version d + 1 ∧
          (isTerminalDisputeStatus new = true → resolvedAt d' = Some now) ∧
          ∀ k, k ≠ tid → findUnique k t' = findUnique k t
      else ∃ m, run = Err (AppError DISPUTE_STATUS_TRANSITION_INVALID m 422)
  end.
Proof.
  intros run. unfold run, transitionDisputeStatus, requireMediator.
  destruct (negb (isMediatorAddress adm med)); [by eexists|]. cbn [throwIf mbind result_bind].
  destruct (findUnique tid t) as [d|] eqn:Hd; [|by eexists].
  destruct (bool_decide (status d = new)); [done|].
  unfold assertValidTransition. fold (isValidTransition (status d) new).
  destruct (isValidTransition (status d) new); [|by eexists]. cbn [negb throwIf mbind result_bind].
  destruct (apply_fresh t tid d new now Hwf Hd) as (t' & -> & Hwf' & Hd' & Ho).
  cbn [assertTransitionApplied negb throwIf mbind result_bind].
  rewrite (findFirst_id t' tid d _ Hwf' Hd') by done.
  eexists. split_and!; [done|done|done|done| |done]. by destruct new.
Qed.

(** Optimistic concurrency: whatever other transactions commit between the
    read and the write, if the dispute's status or version is no longer the one
    read, the transition is refused with 409 and nothing is written. *)
Theorem transition_conflict adm t between tid med new now d d'
    (Hm : isMediatorAddress adm med = true) (Hd : findUnique tid t = Some d)
    (Hs : status d ≠ new) (Hv : isValidTransition (status d) new = true)
    (Hwf : wf (between t)) (Hd' : findUnique tid (between t) = Some d') (Hid : id d' = id d)
    (Hch : status d' ≠ status d ∨ version d' ≠ version d) :
  ∃ m, transitionDisputeStatus adm t between tid med new now
       = Err (AppError DISPUTE_STATUS_CONFLICT m 409).
Proof.
  unfold transitionDisputeStatus, requireMediator. rewrite Hm, Hd, bool_decide_eq_false_2 by done.
  cbn [negb throwIf mbind result_bind]. unfold assertValidTransition.
  fold (isValidTransition (status d) new). rewrite Hv. cbn [negb throwIf mbind result_bind].
  pose proof (apply_stale (between t) tid d d' new now Hwf Hd' Hid Hch) as Ha.
  destruct (applyDisputeStatusTransition _ _ _ _) as [a tx]. cbn in Ha. subst a. by eexists.
Qed.

(** Of two mediators who read the same dispute, at most one wins: once the
    first one's transition is applied, the second's is refused with 409, even
    if both ask for the same status. *)
Theorem concurrent_transitions_one_winner adm t tid med s1 now1 s2 now2 d
    (Hwf : wf t) (Hm : isMediatorAddress adm med = true) (Hd : findUnique tid t = Some d)
    (Hs2 : status d ≠ s2) (Hv2 : isValidTransition (status d) s2 = true) :
  (applyDisputeStatusTransition t d s1 now1).1 = true ∧
  ∃ m, transitionDisputeStatus adm t (λ t, (applyDisputeStatusTransition t d s1 now1).2) tid med s2 now2
       = Err (AppError DISPUTE_STATUS_CONFLICT m 409).
Proof.
  destruct (apply_fresh t tid d s1 now1 Hwf Hd) as (t' & Ha & Hwf' & Hd' & _).
  rewrite Ha. split; [done|].
  unfold transitionDisputeStatus, requireMediator. rewrite Hm, Hd, bool_decide_eq_false_2 by done.
  cbn [negb throwIf mbind result_bind]. unfold assertValidTransition.
  fold (isValidTransition (status d) s2). rewrite Hv2, Ha. cbn [negb throwIf mbind result_bind snd].
  pose proof (apply_stale t' tid d _ s2 now2 Hwf' Hd' eq_refl ltac:(right; cbn; lia)) as Hst.
  destruct (applyDisputeStatusTransition t' d s2 now2) as [a tx]. cbn in Hst. subst a. by eexists.
Qed.

(** The authoritative chain sync resolves a dispute from either live status
    and never reopens or re-resolves a finished one; without interference it
    cannot fail. *)
Theorem syncDisputeResolved_spec t tid now (Hwf : wf t) :
  ∃ t', syncDisputeResolvedFromChain t tid now = Ok t' ∧ wf t' ∧
    (∀ k, k ≠ tid → findUnique k t' = findUnique k t) ∧
    findUnique tid t' =
      (λ d, if isTerminalDisputeStatus (status d) then d
            else setStatus RESOLVED (Some now) now d) <$> findUnique tid t.
Proof.
  unfold syncDisputeResolvedFromChain.
  destruct (findUnique tid t) as [d|] eqn:Hd; [|exists t; by rewrite Hd].
  destruct (isTerminalDisputeStatus (status d)) eqn:Ht.
  { exists t. cbn. rewrite Ht. done. }
  set (p := λ x, bool_decide _). set (f := setStatus RESOLVED (Some now) now).
  destruct (updateMany_one t tid d p f Hwf Hd) as (Hc & Hr & Ho).
  { intros x. unfold p. by intros (? & _)%bool_decide_eq_true. }
  assert (Hp : p d = true).
  { apply bool_decide_eq_true_2. split_and!; [done| |done]. revert Ht. destruct (status d); cbn; set_solver. }
  pose proof (proj2 Hc Hp) as Hpos. cbn zeta. destruct (Z.eqb_spec (updateMany p f t).1 0); [lia|].
  eexists. split_and!; [done|by apply wf_updateMany|done|]. cbn. rewrite Hr, Hp, Ht. done.
Qed.
(** A row whose free text the purge must clear. *)
Definition purgeable (cutoff : Z) (d : Dispute) : bool :=
  includes COMPLETED_DISPUTE_STATUSES (status d)
  && match resolvedAt d with Some r => r <=? cutoff | None => false end
  && negb (isBlank (reason d)).

(** The purge clears the free text of exactly the disputes that finished
    before the cutoff and still have one, changes no status, version or other
    row, reports exactly their trade ids, and running it again finds nothing. *)
Theorem purge_spec adm t med days now (Hwf : wf t) (Hm : isMediatorAddress adm med = true) :
  let cutoff := now - days * 24 * 60 * 60 * 1000 in
  ∃ res t', purgeCompletedDisputeData adm t med days now = Ok (res, t') ∧
    (∀ k, findUnique k t' = (λ d, if purgeable cutoff d then setReason "" now d else d) <$> findUnique k t) ∧
    (∀ k, k ∈ tradeIds res ↔ ∃ d, findUnique k t = Some d ∧ purgeable cutoff d = true) ∧
    purgedCount res = Z.of_nat (length (tradeIds res)) ∧
    purgeCompletedDisputeData adm t' med days now = Ok ({| purgedCount := 0; tradeIds := [] |}, t').
Proof.
  intros cutoff. unfold purgeCompletedDisputeData, requireMediator. rewrite Hm.
  cbn [negb throwIf mbind result_bind]. fold cutoff.
  change (λ d, includes COMPLETED_DISPUTE_STATUSES (status d) && _ && _) with (purgeable cutoff).
  assert (Hempty : ∀ t0, (∀ k d, findUnique k t0 = Some d → purgeable cutoff d = false) →
    findMany (purgeable cutoff) t0 = []).
  { intros t0 H0. destruct (findMany (purgeable cutoff) t0) as [|x l] eqn:Hl; [done|exfalso].
    assert (x ∈ findMany (purgeable cutoff) t0) as (k & Hk & Hp)%findMany_elem by (rewrite Hl; set_solver).
    by rewrite (H0 _ _ Hk) in Hp. }
  destruct (findMany (purgeable cutoff) t) as [|x l] eqn:Hl.
  - cbn. exists {| purgedCount := 0; tradeIds := [] |}, t. rewrite Hl.
    assert (Hn : ∀ k d, findUnique k t = Some d → purgeable cutoff d = false).
    { intros k d Hd. apply not_true_is_false. intros Hp.
      assert (d ∈ findMany (purgeable cutoff) t) by (apply findMany_elem; eauto). rewrite Hl in *. set_solver. }
    split_and!; [done| | |done|done].
    + intros k. destruct (findUnique k t) as [d|] eqn:Hk; [|done]. cbn. by rewrite (Hn _ _ Hk).
    + intros k. split; [set_solver|]. intros (d & Hd & Hp). by rewrite (Hn _ _ Hd) in Hp.
  - cbn [length Nat.eqb]. rewrite <-Hl. set (ids := map id (findMany (purgeable cutoff) t)).
    assert (Hids : ∀ k d, findUnique k t = Some d → includes ids (id d) = purgeable cutoff d).
    { intros k d Hd. apply eq_true_iff_eq. unfold includes. rewrite bool_decide_eq_true.
      unfold ids. rewrite list_elem_of_fmap. split.
      - intros (e & He & (k' & Hk' & Hp)%findMany_elem).
        rewrite (wf_id t Hwf _ _ _ _ Hd Hk' He) in Hd. by simplify_eq.
      - intros Hp. exists d. split; [done|]. apply findMany_elem; eauto. }
    assert (Hrows : ∀ k, findUnique k (updateMany (λ d, includes ids (id d)) (setReason "" now) t).2
      = (λ d, if purgeable cutoff d then setReason "" now d else d) <$> findUnique k t).
    { intros k. rewrite updateMany_rows. destruct (findUnique k t) as [d|] eqn:Hk; [|done]. cbn.
      by rewrite (Hids _ _ Hk). }
    eexists _, _. split_and!; [done|done| | |].
    + intros k. cbn. rewrite list_elem_of_fmap. setoid_rewrite findMany_elem. split.
      * intros (d & -> & k' & Hk' & Hp). exists d. by rewrite (wf_key t Hwf _ _ Hk').
      * intros (d & Hd & Hp). exists d. split; [by rewrite (wf_key t Hwf _ _ Hd)|eauto].
    + cbn [purgedCount tradeIds]. rewrite length_map, Hl. done.
    + rewrite Hempty; [done|]. intros k d. rewrite Hrows.
      destruct (findUnique k t) as [e|]; [|done]. cbn. intros [= <-].
      destruct (purgeable cutoff e) eqn:Hp; [|done]. unfold purgeable. cbn. by rewrite andb_false_r.
Qed.
End Properties.

(** ** Witnesses, on a concrete table *)

Definition sampleTrade : TradeSummary :=
  {| buyerAddress := "GB"; sellerAddress := "GS"; amountUsdc := "10" |}.
Definition sampleDispute : Dispute :=
  {| id := 1; tradeId := "t1"; initiator := "GB"; reason := "late"; status := OPEN; version := 0;
     resolvedAt := None; createdAt := 10; updatedAt := 10; trade := sampleTrade |}.
Definition sampleTable : gmap string Dispute := {[ "t1"%string := sampleDispute ]}.

Lemma sampleTable_wf : wf sampleTable.
Proof.
  unfold sampleTable. split; cbn.
  - intros k d [<- <-]%lookup_singleton_Some. done.
  - intros k1 k2 d1 d2 [<- _]%lookup_singleton_Some [<- _]%lookup_singleton_Some _. done.
Qed.

Lemma transition_sequential_witness :
  ∃ t' : gmap string Dispute,
    transitionDisputeStatus "GM" sampleTable (λ t, t) "t1" "GM" UNDER_REVIEW 20
    = Ok (toDisputeResponse (setStatus UNDER_REVIEW None 20 sampleDispute), t').
Proof.
  destruct (transition_sequential "GM" sampleTable "t1" "GM" UNDER_REVIEW 20 sampleTable_wf) as (t' & H & _).
  exists t'. exact H.
Defined.

Definition bumpReview (t : gmap string Dispute) : gmap string Dispute :=
  (applyDisputeStatusTransition t sampleDispute UNDER_REVIEW 15).2.

Lemma bumpReview_eq : bumpReview sampleTable = {[ "t1"%string := setStatus UNDER_REVIEW None 15 sampleDispute ]}.
Proof. reflexivity. Qed.

Lemma bumpReview_wf : wf (bumpReview sampleTable).
Proof.
  rewrite bumpReview_eq. split; cbn.
  - intros k d [<- <-]%lookup_singleton_Some. done.
  - intros k1 k2 d1 d2 [<- _]%lookup_singleton_Some [<- _]%lookup_singleton_Some _. done.
Qed.

Lemma transition_conflict_witness :
  ∃ m, transitionDisputeStatus "GM" sampleTable bumpReview "t1" "GM" CLOSED 20
       = Err (AppError DISPUTE_STATUS_CONFLICT m 409).
Proof.
  apply (transition_conflict "GM" sampleTable bumpReview "t1" "GM" CLOSED 20 sampleDispute
    (setStatus UNDER_REVIEW None 15 sampleDispute)); try done.
  - exact bumpReview_wf.
  - right. cbn. lia.
Defined.

Lemma concurrent_transitions_one_winner_witness :
  (applyDisputeStatusTransition sampleTable sampleDispute CLOSED 15).1 = true ∧
  ∃ m, transitionDisputeStatus "GM" sampleTable
         (λ t, (applyDisputeStatusTransition t sampleDispute CLOSED 15).2) "t1" "GM" CLOSED 20
       = Err (AppError DISPUTE_STATUS_CONFLICT m 409).
Proof.
  apply (concurrent_transitions_one_winner "GM" sampleTable "t1" "GM" CLOSED 15 CLOSED 20 sampleDispute);
    try done. exact sampleTable_wf.
Defined.

Lemma syncDisputeResolved_spec_witness :
  ∃ t', syncDisputeResolvedFromChain sampleTable "t1" 30 = Ok t' ∧ wf t' ∧
    (∀ k, k ≠ "t1"%string → findUnique k t' = findUnique k sampleTable) ∧
    findUnique "t1"%string t' =
      (λ d, if isTerminalDisputeStatus (status d) then d
            else setStatus RESOLVED (Some 30) 30 d) <$> findUnique "t1"%string sampleTable.
Proof. apply (syncDisputeResolved_spec sampleTable "t1" 30). exact sampleTable_wf. Defined.

Lemma purge_spec_witness :
  let cutoff := 30 - 90 * 24 * 60 * 60 * 1000 in
  ∃ res t', purgeCompletedDisputeData "GM" sampleTable "GM" 90 30 = Ok (res, t') ∧
    (∀ k, findUnique k t' = (λ d, if purgeable cutoff d then setReason "" 30 d else d) <$> findUnique k sampleTable) ∧
    (∀ k, k ∈ tradeIds res ↔ ∃ d, findUnique k sampleTable = Some d ∧ purgeable cutoff d = true) ∧
    purgedCount res = Z.of_nat (length (tradeIds res)) ∧
    purgeCompletedDisputeData "GM" t' "GM" 90 30 = Ok ({| purgedCount := 0; tradeIds := [] |}, t').
Proof. apply (purge_spec "GM" sampleTable "GM" 90 30); [exact sampleTable_wf|reflexivity]. Defined.
