(* ===== verification/PayoutIntent.v ===== *)
(** * Payout intents: [backend/src/services/payoutIntent.service.ts]

    The durable record that makes fund-moving calls idempotent. The intent
    table is any [Table] keyed by the unique [idempotencyKey]; [sha256] is a
    parameter. A method that throws may still have written (nothing here runs in
    a transaction), so every method returns the table it leaves behind together
    with its result. *)

From S2P Require Import Prelude JsString Prisma.

Inductive PayoutIntentStatus : Type := PENDING | SUBMITTED | CONFIRMED | FAILED.
Inductive PayoutKind : Type := RELEASE | MILESTONE_RELEASE | REFUND | CLAWBACK.

#[global] Instance PayoutIntentStatus_eq_dec : EqDecision PayoutIntentStatus.
Proof. solve_decision. Defined.
#[global] Instance PayoutKind_eq_dec : EqDecision PayoutKind.
Proof. solve_decision. Defined.

Definition kindName (k : PayoutKind) : string :=
  match k with
  | RELEASE => "RELEASE" | MILESTONE_RELEASE => "MILESTONE_RELEASE"
  | REFUND => "REFUND" | CLAWBACK => "CLAWBACK"
  end.

Definition TERMINAL_STATUSES : list PayoutIntentStatus := [CONFIRMED].
Definition UNRESOLVED_STATUSES : list PayoutIntentStatus := [PENDING; SUBMITTED].

Record PayoutIntentInput : Type := {
  in_idempotencyKey : option string;
  in_kind : PayoutKind;
  in_tradeId : string;
  in_milestoneIndex : option Z;
  in_amountUsdc : string;
  in_destination : string;
  in_requestedBy : string;
}.

Record PayoutIntent : Type := {
  idempotencyKey : string;
  kind : PayoutKind;
  tradeId : string;
  milestoneIndex : option Z;
  amountUsdc : string;
  destination : string;
  requestedBy : string;
  status : PayoutIntentStatus;
  txHash : option string;
  duplicateAttempts : Z;
  submittedAt : option Z;
  confirmedAt : option Z;
  lastError : option string;
  updatedAt : Z;
}.

#[global] Instance PayoutIntent_eq_dec : EqDecision PayoutIntent.
Proof. solve_decision. Defined.

Record PayoutIntentResult : Type := { intent : PayoutIntent; duplicate : bool }.

Inductive payout_error : Type :=
| DuplicatePayoutError (i : PayoutIntent)
| PrismaError (code : string).

(** The [data] of the updates. *)
Definition bumpDuplicate (now : Z) (i : PayoutIntent) : PayoutIntent :=
  {| idempotencyKey := idempotencyKey i; kind := kind i; tradeId := tradeId i;
     milestoneIndex := milestoneIndex i; amountUsdc := amountUsdc i; destination := destination i;
     requestedBy := requestedBy i; status := status i; txHash := txHash i;
     duplicateAttempts := duplicateAttempts i + 1; submittedAt := submittedAt i;
     confirmedAt := confirmedAt i; lastError := lastError i; updatedAt := now |}.

Definition markSubmitted (hash : string) (now : Z) (i : PayoutIntent) : PayoutIntent :=
  {| idempotencyKey := idempotencyKey i; kind := kind i; tradeId := tradeId i;
     milestoneIndex := milestoneIndex i; amountUsdc := amountUsdc i; destination := destination i;
     requestedBy := requestedBy i; status := SUBMITTED; txHash := Some hash;
     duplicateAttempts := duplicateAttempts i; submittedAt := Some now;
     confirmedAt := confirmedAt i; lastError := lastError i; updatedAt := now |}.

(** A JavaScript string is falsy when it is absent or empty. *)
Definition truthy (s : option string) : option string :=
  match s with Some ""%string => None | _ => s end.

Definition markConfirmed (hash : option string) (now : Z) (i : PayoutIntent) : PayoutIntent :=
  {| idempotencyKey := idempotencyKey i; kind := kind i; tradeId := tradeId i;
     milestoneIndex := milestoneIndex i; amountUsdc := amountUsdc i; destination := destination i;
     requestedBy := requestedBy i; status := CONFIRMED;
     txHash := match truthy hash with Some h => Some h | None => txHash i end;
     duplicateAttempts := duplicateAttempts i; submittedAt := submittedAt i;
     confirmedAt := Some now; lastError := lastError i; updatedAt := now |}.

Definition markFailed (reason : string) (now : Z) (i : PayoutIntent) : PayoutIntent :=
  {| idempotencyKey := idempotencyKey i; kind := kind i; tradeId := tradeId i;
     milestoneIndex := milestoneIndex i; amountUsdc := amountUsdc i; destination := destination i;
     requestedBy := requestedBy i; status := FAILED; txHash := txHash i;
     duplicateAttempts := duplicateAttempts i; submittedAt := submittedAt i;
     confirmedAt := confirmedAt i; lastError := Some (take_chars 2000 reason); updatedAt := now |}.

Inductive chainStatus : Type := SUCCESS | TX_FAILED | NOT_FOUND.

Section Service.
Context (sha256 : string → string).
Context {T : Type} `{!Table string PayoutIntent T}.

Definition payoutIdentity (input : PayoutIntentInput) : string :=
  join "|" [kindName (in_kind input); in_tradeId input;
            match in_milestoneIndex input with Some m => toString m | None => "-" end;
            in_amountUsdc input; toLowerCase (in_destination input)].

Definition derivePayoutIdempotencyKey (input : PayoutIntentInput) : string :=
  "derived:" +:+ sha256 (payoutIdentity input).

Definition claimKey (input : PayoutIntentInput) : string :=
  match in_idempotencyKey input with Some k => k | None => derivePayoutIdempotencyKey input end.

Definition handleExisting (db : T) (key : string) (now : Z) : T * result payout_error PayoutIntentResult :=
  match update key (bumpDuplicate now) db with
  | None => (db, Err (PrismaError "P2025"))
  | Some (existing, db') =>
      if bool_decide (status existing ∈ TERMINAL_STATUSES)
      then (db', Err (DuplicatePayoutError existing))
      else (db', Ok {| intent := existing; duplicate := true |})
  end.

Definition claim (db : T) (input : PayoutIntentInput) (now : Z)
    : T * result payout_error PayoutIntentResult :=
  let key := claimKey input in
  let row := {| idempotencyKey := key; kind := in_kind input; tradeId := in_tradeId input;
    milestoneIndex := in_milestoneIndex input; amountUsdc := in_amountUsdc input;
    destination := in_destination input; requestedBy := in_requestedBy input; status := PENDING;
    txHash := None; duplicateAttempts := 0; submittedAt := None; confirmedAt := None;
    lastError := None; updatedAt := now |} in
  match create key row db with
  | Some db' => (db', Ok {| intent := row; duplicate := false |})
  | None => handleExisting db key now
  end.

(** [prisma.payoutIntent.update({ where: { idempotencyKey }, data })] *)
Definition updateIntent (db : T) (key : string) (f : PayoutIntent → PayoutIntent)
    : T * result payout_error PayoutIntent :=
  match update key f db with
  | Some (i, db') => (db', Ok i)
  | None => (db, Err (PrismaError "P2025"))
  end.

Definition recordSubmission (db : T) (key hash : string) (now : Z) : T * result payout_error PayoutIntent :=
  updateIntent db key (markSubmitted hash now).

Definition confirm (db : T) (key : string) (hash : option string) (now : Z)
    : T * result payout_error PayoutIntent :=
  updateIntent db key (markConfirmed hash now).

Definition fail_ (db : T) (key reason : string) (now : Z) : T * result payout_error PayoutIntent :=
  updateIntent db key (markFailed reason now).

Definition findByKey (db : T) (key : string) : option PayoutIntent := findUnique key db.

Definition findUnresolved (db : T) (olderThanMs : Z) (limit : nat) (now : Z) : list PayoutIntent :=
  take limit (js_sort (λ a b, updatedAt a - updatedAt b)
    (findMany (λ i, bool_decide (status i ∈ UNRESOLVED_STATUSES)
                    && (updatedAt i <? now - olderThanMs)) db)).

Record ReconcileCounts : Type := { scanned : Z; confirmed : Z; failed : Z; pending : Z }.

(** One intent of the sweep: the table and (confirmed, failed, pending). *)
Definition reconcileOne (lookup : string → chainStatus) (now : Z) (db : T) (i : PayoutIntent)
    : T * result payout_error (Z * Z * Z) :=
  match truthy (txHash i) with
  | None =>
      let '(db', r) := fail_ db (idempotencyKey i) "Reconciled: no transaction was submitted" now in
      (db', _ ← r; Ok (0, 1, 0))
  | Some h =>
      match lookup h with
      | SUCCESS => let '(db', r) := confirm db (idempotencyKey i) None now in (db', _ ← r; Ok (1, 0, 0))
      | TX_FAILED =>
          let '(db', r) := fail_ db (idempotencyKey i) "Reconciled: transaction failed on-chain" now in
          (db', _ ← r; Ok (0, 1, 0))
      | NOT_FOUND => (db, Ok (0, 0, 1))
      end
  end.

Fixpoint reconcileLoop (lookup : string → chainStatus) (now : Z) (db : T) (is_ : list PayoutIntent)
    (acc : Z * Z * Z) : T * result payout_error (Z * Z * Z) :=
  match is_ with
  | [] => (db, Ok acc)
  | i :: rest =>
      match reconcileOne lookup now db i with
      | (db', Err e) => (db', Err e)
      | (db', Ok d) =>
          reconcileLoop lookup now db' rest
            (acc.1.1 + d.1.1, acc.1.2 + d.1.2, acc.2 + d.2)
      end
  end.

Definition reconcile (db : T) (lookup : string → chainStatus) (olderThanMs : Z) (limit : nat) (now : Z)
    : T * result payout_error ReconcileCounts :=
  let intents := findUnresolved db olderThanMs limit now in
  let '(db', r) := reconcileLoop lookup now db intents (0, 0, 0) in
  (db', c ← r; Ok {| scanned := Z.of_nat (length intents); confirmed := c.1.1;
                     failed := c.1.2; pending := c.2 |}).
End Service.

(** ** Correctness *)

(** The row of an intent carries its own key. *)
Definition keyed {T} `{!Table string PayoutIntent T} (db : T) : Prop :=
  ∀ k i, findUnique k db = Some i → idempotencyKey i = k.

(** The calls of the service, as one step of a run; [granted] is the key whose
    payout the step authorised the caller to submit. *)
Inductive payoutOp : Type :=
| Claim (input : PayoutIntentInput)
| RecordSubmission (key hash : string)
| Confirm (key : string) (hash : option string)
| Fail_ (key reason : string)
| Reconcile (lookup : string → chainStatus) (olderThanMs : Z) (limit : nat).

Section Spec.
Context (sha256 : string → string).
Context {T : Type} `{!Table string PayoutIntent T, !TableLaws string PayoutIntent T}.

Definition step (db : T) (op : payoutOp * Z) : T * option string :=
  let now := op.2 in
  match op.1 with
  | Claim input =>
      let '(db', r) := claim sha256 db input now in
      (db', match r with
            | Ok {| duplicate := false |} => Some (claimKey sha256 input)
            | _ => None
            end)
  | RecordSubmission key hash => ((recordSubmission db key hash now).1, None)
  | Confirm key hash => ((confirm db key hash now).1, None)
  | Fail_ key reason => ((fail_ db key reason now).1, None)
  | Reconcile lookup olderThanMs limit => ((reconcile db lookup olderThanMs limit now).1, None)
  end.

(** The payouts a sequence of calls authorises, in order. *)
Fixpoint grants (db : T) (ops : list (payoutOp * Z)) : list string :=
  match ops with
  | [] => []
  | op :: rest => let '(db', g) := step db op in option_list g ++ grants db' rest
  end.

(** The table after a sequence of calls. *)
Definition run (db : T) (ops : list (payoutOp * Z)) : T := foldl (λ db op, (step db op).1) db ops.

(** The intent of a key is marked failed. *)
Definition isFailed (db : T) (k : string) : Prop := ∃ i, findUnique k db = Some i ∧ status i = FAILED.

(** What an intent pays, to whom and at whose request. *)
Definition samePayout (i j : PayoutIntent) : Prop :=
  idempotencyKey i = idempotencyKey j ∧ kind i = kind j ∧ tradeId i = tradeId j ∧
  milestoneIndex i = milestoneIndex j ∧ amountUsdc i = amountUsdc j ∧
  destination i = destination j ∧ requestedBy i = requestedBy j.

#[global] Instance samePayout_preorder : PreOrder samePayout.
Proof. split; [done|]. unfold samePayout. intros x y z. naive_solver congruence. Qed.

(** No operation ever removes a key or changes what its intent pays. *)
Definition keeps (db db' : T) : Prop :=
  ∀ k i, findUnique k db = Some i → ∃ j, findUnique k db' = Some j ∧ samePayout i j.

Lemma keeps_refl db : keeps db db.
Proof. intros k i Hi. by exists i. Qed.

Lemma keeps_trans db1 db2 db3 : keeps db1 db2 → keeps db2 db3 → keeps db1 db3.
Proof. intros H1 H2 k i (j & Hj & Hij)%H1. apply H2 in Hj as (j' & Hj' & Hjj). exists j'. split; [done|by transitivity j]. Qed.

Lemma keeps_some db db' k : keeps db db' → is_Some (findUnique k db) → is_Some (findUnique k db').
Proof. intros H [i Hi]. apply H in Hi as (j & Hj & _). eauto. Qed.

#[local] Hint Resolve keeps_refl keeps_trans : ts.

Lemma updateIntent_keeps db key f : (∀ i, samePayout i (f i)) → keeps db (updateIntent db key f).1.
Proof.
  intros Hf k i Hk. unfold updateIntent. destruct (update key f db) as [[i' db']|] eqn:Hu; [|by exists i].
  apply update_inv in Hu as (v & Hv & -> & Hk' & Ho). cbn.
  destruct (decide (k = key)) as [->|]; [|rewrite Ho by done; by exists i].
  rewrite Hv in Hk. simplify_eq. eauto.
Qed.

Lemma handleExisting_keeps db key now : keeps db (handleExisting db key now).1.
Proof.
  pose proof (updateIntent_keeps db key (bumpDuplicate now) ltac:(done)) as H.
  unfold updateIntent, handleExisting in *. destruct (update _ _ db) as [[i db']|]; [|done].
  by case_ifs.
Qed.

Lemma reconcileOne_keeps lookup now db i : keeps db (reconcileOne lookup now db i).1.
Proof.
  unfold reconcileOne, fail_, confirm. destruct (truthy _); [destruct (lookup _)|]; try apply keeps_refl;
  match goal with |- context [updateIntent ?d ?k ?f] =>
    pose proof (updateIntent_keeps d k f ltac:(done)) as H; destruct (updateIntent d k f); exact H end.
Qed.

Lemma reconcileLoop_keeps lookup now is_ : ∀ db acc, keeps db (reconcileLoop lookup now db is_ acc).1.
Proof.
  induction is_ as [|i rest IH]; intros db acc; cbn [reconcileLoop]; [auto with ts|].
  pose proof (reconcileOne_keeps lookup now db i) as H.
  destruct (reconcileOne lookup now db i) as [db' [d|e]]; [|exact H].
  eauto with ts.
Qed.

Lemma reconcile_keeps db lookup olderThanMs limit now :
  keeps db (reconcile db lookup olderThanMs limit now).1.
Proof.
  unfold reconcile.
  pose proof (reconcileLoop_keeps lookup now (findUnresolved db olderThanMs limit now) db (0, 0, 0)) as H.
  by destruct (reconcileLoop _ _ _ _ _).
Qed.

#[local] Hint Resolve updateIntent_keeps reconcile_keeps : ts.

(** The intent a free key is given. *)
Lemma claim_recorded db input now : findUnique (claimKey sha256 input) db = None →
  ∃ row db', claim sha256 db input now = (db', Ok {| intent := row; duplicate := false |}) ∧
    idempotencyKey row = claimKey sha256 input ∧
    (kind row = in_kind input ∧ tradeId row = in_tradeId input ∧ milestoneIndex row = in_milestoneIndex input ∧
     amountUsdc row = in_amountUsdc input ∧ destination row = in_destination input ∧
     requestedBy row = in_requestedBy input ∧ status row = PENDING ∧ txHash row = None) ∧
    findUnique (claimKey sha256 input) db' = Some row ∧
    ∀ k, k ≠ claimKey sha256 input → findUnique k db' = findUnique k db.
Proof.
  intros Hf. unfold claim. cbv zeta.
  match goal with |- context [create _ ?r _] =>
    destruct (create_free _ r db Hf) as (db' & -> & Hk & Ho); exists r, db' end.
  by split_and!.
Qed.

(** A claim is granted exactly when its key was free, and then occupies it. *)
Lemma claim_fresh db input now : findUnique (claimKey sha256 input) db = None →
  ∃ row db', claim sha256 db input now = (db', Ok {| intent := row; duplicate := false |}) ∧
    status row = PENDING ∧ txHash row = None ∧ idempotencyKey row = claimKey sha256 input ∧
    findUnique (claimKey sha256 input) db' = Some row ∧
    ∀ k, k ≠ claimKey sha256 input → findUnique k db' = findUnique k db.
Proof.
  intros Hf. destruct (claim_recorded db input now Hf) as (row & db' & -> & ? & ? & ? & ?).
  exists row, db'. naive_solver.
Qed.

Lemma claim_existing db input now i : findUnique (claimKey sha256 input) db = Some i →
  ∃ db', claim sha256 db input now =
      (db', if bool_decide (status i = CONFIRMED)
            then Err (DuplicatePayoutError (bumpDuplicate now i))
            else Ok {| intent := bumpDuplicate now i; duplicate := true |}) ∧
    findUnique (claimKey sha256 input) db' = Some (bumpDuplicate now i) ∧
    ∀ k, k ≠ claimKey sha256 input → findUnique k db' = findUnique k db.
Proof.
  intros Hf. unfold claim. cbv zeta. rewrite create_taken by done. unfold handleExisting.
  destruct (update_found _ (bumpDuplicate now) db i Hf) as (db' & -> & Hk & Ho).
  exists db'. split; [|done]. cbn [status bumpDuplicate].
  assert (status i ∈ TERMINAL_STATUSES ↔ status i = CONFIRMED) as Hiff
    by (unfold TERMINAL_STATUSES; set_solver).
  case_bool_decide; case_bool_decide; tauto.
Qed.

Lemma step_keeps db op : keeps db (step db op).1.
Proof.
  unfold step. destruct op as [[input|key hash|key hash|key reason|lookup older limit] now]; cbn [fst snd].
  - intros k j Hk. destruct (findUnique (claimKey sha256 input) db) as [i|] eqn:Hf.
    + destruct (claim_existing db input now i Hf) as (db' & -> & Hk' & Ho). cbn.
      destruct (decide (k = claimKey sha256 input)) as [->|]; [|rewrite Ho by done; by exists j].
      rewrite Hf in Hk. injection Hk as <-. by exists (bumpDuplicate now i).
    + destruct (claim_fresh db input now Hf) as (row & db' & -> & _ & _ & _ & Hk' & Ho). cbn.
      rewrite Ho by congruence. by exists j.
  - by apply updateIntent_keeps.
  - by apply updateIntent_keeps.
  - by apply updateIntent_keeps.
  - auto with ts.
Qed.

Lemma step_grant db op k : (step db op).2 = Some k →
  findUnique k db = None ∧ is_Some (findUnique k (step db op).1).
Proof.
  unfold step. destruct op as [[input|key hash|key hash|key reason|lookup older limit] now]; cbn [fst snd]; [|done..].
  destruct (findUnique (claimKey sha256 input) db) as [i|] eqn:Hf.
  - destruct (claim_existing db input now i Hf) as (db' & -> & _). by case_bool_decide.
  - destruct (claim_fresh db input now Hf) as (row & db' & -> & _ & _ & _ & Hk' & Ho). cbn.
    intros [= <-]. by rewrite Hk'.
Qed.

Lemma grants_taken ops k : ∀ db, is_Some (findUnique k db) → k ∉ grants db ops.
Proof.
  induction ops as [|op ops IH]; intros db Hk; cbn [grants]; [set_solver|].
  pose proof (keeps_some _ _ k (step_keeps db op) Hk) as Hk'. pose proof (step_grant db op) as Hg.
  destruct (step db op) as [db' [g|]]; cbn in *; [|by apply IH].
  rewrite list_elem_of_In. intros [->|Hin%list_elem_of_In]; [|by eapply IH].
  destruct (Hg k eq_refl) as [Hn _]. rewrite Hn in Hk. by destruct Hk.
Qed.

Lemma run_keeps ops : ∀ db, keeps db (run db ops).
Proof.
  induction ops as [|op ops IH]; intros db; [apply keeps_refl|].
  cbn. eapply keeps_trans; [apply step_keeps|apply IH].
Qed.

(** In any sequence of calls, failures and sweeps included, each key is authorised for
    submission at most once: [fail] does not release it (see [failed_key_not_retryable]). *)
Lemma keys_granted_once (db : T) (ops : list (payoutOp * Z)) :
  NoDup (grants db ops) ∧ ∀ k, k ∈ grants db ops → findUnique k db = None.
Proof.
  split.
  - revert db. induction ops as [|op ops IH]; intros db; cbn [grants]; [constructor|].
    pose proof (step_grant db op) as Hg. destruct (step db op) as [db' [g|]]; cbn in *; [|apply IH].
    constructor; [|apply IH]. destruct (Hg g eq_refl) as [_ Hs]. by apply grants_taken.
  - intros k Hk. apply eq_None_not_Some. intros Hs. by eapply grants_taken.
Qed.

(** C1: No double payout. Once a call has authorised the submission of a key, then through any
    claims, submissions, confirmations, failures of other keys and reconciliation sweeps
    that do not mark this key failed (a crash is a sequence that stops and is retried), no
    call authorises it again. Its intent still records the payout that was authorised, and
    every claim of the key is answered with it: an error once it is CONFIRMED, a duplicate
    while it is PENDING or SUBMITTED. *)
Theorem no_double_payout (db : T) (op op' : payoutOp * Z) (ops : list (payoutOp * Z)) (k : string) :
  (step db op).2 = Some k →
  let start := (step db op).1 in
  (∀ n, ¬ isFailed (run start (take n ops)) k) →
  let db' := run start ops in
  (step db' op').2 ≠ Some k ∧
  ∃ first i, findUnique k start = Some first ∧ findUnique k db' = Some i ∧ samePayout first i ∧
    status i ∈ [PENDING; SUBMITTED; CONFIRMED] ∧
    ∀ input now, claimKey sha256 input = k →
      (claim sha256 db' input now).2 =
        if bool_decide (status i = CONFIRMED) then Err (DuplicatePayoutError (bumpDuplicate now i))
        else Ok {| intent := bumpDuplicate now i; duplicate := true |}.
Proof.
  intros Hg. cbv zeta. intros Hfail. destruct (step_grant _ _ _ Hg) as [_ [first Hfirst]].
  destruct (run_keeps ops _ k first Hfirst) as (i & Hi & Hsame). split.
  - intros Hg'%step_grant. destruct Hg' as [Hn _]. congruence.
  - exists first, i. split_and!; [done..| |].
    + specialize (Hfail (length ops)). rewrite firstn_all in Hfail.
      destruct (status i) eqn:Hs; [set_solver..|]. destruct Hfail. by exists i.
    + intros input now <-. by destruct (claim_existing _ input now i Hi) as (d & -> & _).
Qed.

(** [claim] on every branch: a free key gets a PENDING intent and
    [duplicate: false]; a key that is CONFIRMED raises [DuplicatePayoutError]; any
    other existing key is returned with [duplicate: true]; both count the attempt
    and leave every other row alone. *)
Theorem claim_spec (db : T) (input : PayoutIntentInput) (now : Z) :
  let key := claimKey sha256 input in
  let '(db', r) := claim sha256 db input now in
  (∀ k, k ≠ key → findUnique k db' = findUnique k db) ∧
  match findUnique key db with
  | None => ∃ row, r = Ok {| intent := row; duplicate := false |} ∧
      status row = PENDING ∧ txHash row = None ∧ findUnique key db' = Some row
  | Some i =>
      findUnique key db' = Some (bumpDuplicate now i) ∧
      r = if bool_decide (status i = CONFIRMED)
          then Err (DuplicatePayoutError (bumpDuplicate now i))
          else Ok {| intent := bumpDuplicate now i; duplicate := true |}
  end.
Proof.
  cbv zeta. destruct (findUnique (claimKey sha256 input) db) as [i|] eqn:Hf.
  - destruct (claim_existing db input now i Hf) as (db' & -> & Hk & Ho). done.
  - destruct (claim_fresh db input now Hf) as (row & db' & -> & ? & ? & _ & Hk & Ho). eauto 10.
Qed.

(** The key of a failed payout is never released: once [fail] has recorded the
    failure, every later claim on the key still answers [duplicate: true]. *)
Theorem failed_key_not_retryable (db : T) (input : PayoutIntentInput) (reason : string) (t1 t2 : Z) i :
  findUnique (claimKey sha256 input) db = Some i →
  let failed := markFailed reason t1 i in
  (claim sha256 (fail_ db (claimKey sha256 input) reason t1).1 input t2).2
  = Ok {| intent := bumpDuplicate t2 failed; duplicate := true |}.
Proof.
  intros Hf. cbv zeta. unfold fail_, updateIntent.
  destruct (update_found _ (markFailed reason t1) db i Hf) as (db' & -> & Hk & _). cbn [fst].
  destruct (claim_existing db' input t2 _ Hk) as (db2 & -> & _). done.
Qed.

End Spec.

Section Sweep.
Context {T : Type} `{!Table string PayoutIntent T, !TableLaws string PayoutIntent T}.

(** What the sweep does to one selected intent. *)
Definition resolveIntent (lookup : string → chainStatus) (now : Z) (i : PayoutIntent) : PayoutIntent :=
  match truthy (txHash i) with
  | None => markFailed "Reconciled: no transaction was submitted" now i
  | Some h =>
      match lookup h with
      | SUCCESS => markConfirmed None now i
      | TX_FAILED => markFailed "Reconciled: transaction failed on-chain" now i
      | NOT_FOUND => i
      end
  end.

Lemma reconcileOne_spec lookup now db i :
  (findUnique (idempotencyKey i) db = Some i ∨
   findUnique (idempotencyKey i) db = Some (resolveIntent lookup now i)) →
  ∃ db' d, reconcileOne lookup now db i = (db', Ok d) ∧ d.1.1 + d.1.2 + d.2 = 1 ∧
    findUnique (idempotencyKey i) db' = Some (resolveIntent lookup now i) ∧
    ∀ k, k ≠ idempotencyKey i → findUnique k db' = findUnique k db.
Proof.
  unfold reconcileOne, resolveIntent, fail_, confirm, updateIntent.
  destruct (truthy (txHash i)) as [h|]; [destruct (lookup h)|]; intros Hf.
  3: { exists db, (0, 0, 1). naive_solver. }
  all: match goal with |- context [update ?k ?f _] =>
    destruct Hf as [Hf|Hf];
    destruct (update_found k f db _ Hf) as (db' & -> & Hk & Ho) end;
    eexists db', _; (split; [reflexivity|]); by split_and!.
Qed.

Lemma reconcileLoop_spec lookup now db0 is_ : keyed db0 →
  (∀ i, i ∈ is_ → findUnique (idempotencyKey i) db0 = Some i) →
  ∀ db acc,
  (∀ k i, findUnique k db0 = Some i →
     findUnique k db = Some i ∨ findUnique k db = Some (resolveIntent lookup now i)) →
  ∃ db' c, reconcileLoop lookup now db is_ acc = (db', Ok c) ∧
    c.1.1 + c.1.2 + c.2 = acc.1.1 + acc.1.2 + acc.2 + Z.of_nat (length is_) ∧
    (∀ i, i ∈ is_ → findUnique (idempotencyKey i) db' = Some (resolveIntent lookup now i)) ∧
    (∀ k, (∀ i, i ∈ is_ → idempotencyKey i ≠ k) → findUnique k db' = findUnique k db).
Proof.
  intros Hkeyed. induction is_ as [|i rest IH]; intros Hin db acc Hinv; cbn [reconcileLoop].
  { exists db, acc. cbn. split_and!; [done|lia|set_solver|done]. }
  assert (Hi : findUnique (idempotencyKey i) db0 = Some i) by (apply Hin; set_solver).
  destruct (reconcileOne_spec lookup now db i (Hinv _ _ Hi)) as (db1 & d & -> & Hd & Hk & Ho).
  destruct (IH ltac:(set_solver) db1 (acc.1.1 + d.1.1, acc.1.2 + d.1.2, acc.2 + d.2)) as (db' & c & -> & Hc & Hr & Hu).
  { intros k j Hj. destruct (decide (k = idempotencyKey i)) as [->|Hne].
    - rewrite Hi in Hj. simplify_eq. by right.
    - rewrite Ho by done. by apply Hinv. }
  exists db', c. split_and!; [done|cbn in *; lia| |].
  - intros j [->|Hj]%list_elem_of_In; [|by apply Hr, list_elem_of_In].
    destruct (decide (j ∈ rest)); [by apply Hr|]. rewrite Hu; [done|].
    intros m Hm Heq. assert (Hm0 : findUnique (idempotencyKey m) db0 = Some m) by (apply Hin; set_solver).
    rewrite Heq, Hi in Hm0. by simplify_eq.
  - intros k Hne. rewrite Hu by set_solver. apply Ho. intros ->. by apply (Hne i); [set_solver|].
Qed.

Lemma findUnresolved_elem db olderThanMs limit now i : i ∈ findUnresolved db olderThanMs limit now →
  (∃ k, findUnique k db = Some i) ∧ (status i = PENDING ∨ status i = SUBMITTED) ∧
  updatedAt i < now - olderThanMs.
Proof.
  unfold findUnresolved. intros H%elem_of_take_in. rewrite js_sort_perm in H.
  apply (findMany_elem (K := string)) in H as (k & Hk & Hp). zb. destruct Hp as [Hp Ht].
  split_and!; [eauto| |lia]. unfold UNRESOLVED_STATUSES in Hp. set_solver.
Qed.

(** The reconciliation sweep is total and exact: it only selects PENDING or
    SUBMITTED intents untouched for [olderThanMs]; each one is confirmed if the
    chain reports success, failed if it reports failure or no hash was ever
    recorded, and left as it is when the chain does not know; every other row is
    unchanged, and the three counters add up to the number scanned. *)
Theorem reconcile_spec (db : T) (lookup : string → chainStatus) (olderThanMs : Z) (limit : nat) (now : Z) :
  keyed db →
  ∃ db' c, reconcile db lookup olderThanMs limit now = (db', Ok c) ∧
    scanned c = confirmed c + failed c + pending c ∧ scanned c ≤ Z.of_nat limit ∧
    ∀ k i, findUnique k db = Some i →
      (i ∈ findUnresolved db olderThanMs limit now ∧
         status i ∈ [PENDING; SUBMITTED] ∧ updatedAt i < now - olderThanMs ∧
         findUnique k db' = Some (resolveIntent lookup now i))
      ∨ (i ∉ findUnresolved db olderThanMs limit now ∧ findUnique k db' = Some i).
Proof.
  intros Hkeyed. unfold reconcile. set (sel := findUnresolved db olderThanMs limit now).
  assert (Hsel : ∀ i, i ∈ sel → findUnique (idempotencyKey i) db = Some i).
  { intros i ((k & Hk) & _)%findUnresolved_elem. by rewrite (Hkeyed _ _ Hk). }
  destruct (reconcileLoop_spec lookup now db sel Hkeyed Hsel db (0, 0, 0)) as (db' & c & -> & Hc & Hr & Hu);
    [by left|].
  eexists db', _. split; [reflexivity|]. cbn in *. split_and!; [lia| |].
  - unfold sel, findUnresolved. rewrite length_take. lia.
  - intros k i Hk. destruct (decide (i ∈ sel)) as [Hi|Hi]; [left|right].
    + destruct (findUnresolved_elem _ _ _ _ _ Hi) as (_ & Hst & Ht).
      split_and!; [done|set_solver|done|]. rewrite <-(Hkeyed _ _ Hk). by apply Hr.
    + split; [done|]. rewrite Hu; [done|]. intros j Hj <-.
      rewrite (Hsel j Hj) in Hk. by simplify_eq.
Qed.
End Sweep.

(** ** Derived keys *)

(** The parts [derivePayoutIdempotencyKey] hashes. *)
Lemma payoutIdentity_inj a b :
  lacks "|" (in_tradeId a) → lacks "|" (in_amountUsdc a) → lacks "|" (toLowerCase (in_destination a)) →
  lacks "|" (in_tradeId b) → lacks "|" (in_amountUsdc b) → lacks "|" (toLowerCase (in_destination b)) →
  payoutIdentity a = payoutIdentity b →
  in_kind a = in_kind b ∧ in_tradeId a = in_tradeId b ∧ in_milestoneIndex a = in_milestoneIndex b ∧
  in_amountUsdc a = in_amountUsdc b ∧ toLowerCase (in_destination a) = toLowerCase (in_destination b).
Proof.
  assert (Hk : ∀ k, lacks "|" (kindName k)) by (intros []; reflexivity).
  assert (Hm : ∀ m : option Z, lacks "|" (match m with Some m => toString m | None => "-" end)).
  { intros [m|]; [by apply toString_lacks|reflexivity]. }
  intros Ha1 Ha2 Ha3 Hb1 Hb2 Hb3 Heq. unfold payoutIdentity in Heq.
  apply (f_equal (split "|")) in Heq.
  rewrite !split_join in Heq by (done || by repeat constructor).
  injection Heq as Hkind Ht Hmi Ham Hd. split_and!; [|done| |done|done].
  - destruct (in_kind a), (in_kind b); done.
  - destruct (in_milestoneIndex a) as [m|], (in_milestoneIndex b) as [n|]; [|exfalso..|done].
    + f_equal. by apply toString_inj.
    + by apply (toString_not_dash m).
    + by apply (toString_not_dash n).
Qed.

(** The derived idempotency key identifies the payout: for a collision-free
    hash, and fields that do not contain the separator, two requests derive the
    same key exactly when they agree on kind, trade, milestone, amount and
    (case-insensitive) destination; the requester never matters. *)
Theorem derived_key_identifies (sha256 : string → string) (a b : PayoutIntentInput) :
  (∀ x y, sha256 x = sha256 y → x = y) →
  lacks "|" (in_tradeId a) → lacks "|" (in_amountUsdc a) → lacks "|" (toLowerCase (in_destination a)) →
  lacks "|" (in_tradeId b) → lacks "|" (in_amountUsdc b) → lacks "|" (toLowerCase (in_destination b)) →
  derivePayoutIdempotencyKey sha256 a = derivePayoutIdempotencyKey sha256 b ↔
  in_kind a = in_kind b ∧ in_tradeId a = in_tradeId b ∧ in_milestoneIndex a = in_milestoneIndex b ∧
  in_amountUsdc a = in_amountUsdc b ∧ toLowerCase (in_destination a) = toLowerCase (in_destination b).
Proof.
  intros Hinj Ha1 Ha2 Ha3 Hb1 Hb2 Hb3. split.
  - unfold derivePayoutIdempotencyKey. intros [= H]. apply Hinj in H. by apply payoutIdentity_inj.
  - intros (Hk & Ht & Hm & Ha & Hd). unfold derivePayoutIdempotencyKey, payoutIdentity.
    by rewrite Hk, Ht, Hm, Ha, Hd.
Qed.

(** ** Witnesses *)

Definition sampleInput : PayoutIntentInput :=
  {| in_idempotencyKey := Some "k1"; in_kind := RELEASE; in_tradeId := "t1"; in_milestoneIndex := None;
     in_amountUsdc := "10.5"; in_destination := "GABC"; in_requestedBy := "GREQ" |}.

Definition sampleIntent : PayoutIntent :=
  {| idempotencyKey := "k1"; kind := RELEASE; tradeId := "t1"; milestoneIndex := None;
     amountUsdc := "10.5"; destination := "GABC"; requestedBy := "GREQ"; status := SUBMITTED;
     txHash := Some "h1"; duplicateAttempts := 0; submittedAt := Some 5; confirmedAt := None;
     lastError := None; updatedAt := 5 |}.

Definition sampleDb : gmap string PayoutIntent := {[ "k1"%string := sampleIntent ]}.

Lemma failed_key_not_retryable_witness :
  (claim id (fail_ sampleDb "k1" "boom" 7).1 sampleInput 9).2
  = Ok {| intent := bumpDuplicate 9 (markFailed "boom" 7 sampleIntent); duplicate := true |}.
Proof. apply (failed_key_not_retryable id sampleDb sampleInput "boom" 7 9 sampleIntent). reflexivity. Defined.

Lemma sampleDb_keyed : keyed sampleDb.
Proof. intros k i H. change (sampleDb !! k = Some i) in H. unfold sampleDb in H. apply lookup_singleton_Some in H as [<- <-]. reflexivity. Qed.

Lemma reconcile_spec_witness :
  ∃ (db' : gmap string PayoutIntent) c,
    reconcile sampleDb (λ _, SUCCESS) 60000 100 100000 = (db', Ok c) ∧
    scanned c = confirmed c + failed c + pending c.
Proof.
  destruct (reconcile_spec sampleDb (λ _, SUCCESS) 60000 100 100000 sampleDb_keyed) as (db' & c & H & Hc & _).
  exists db', c. split; [exact H|exact Hc].
Defined.

Lemma derived_key_identifies_witness :
  derivePayoutIdempotencyKey id sampleInput = derivePayoutIdempotencyKey id
    {| in_idempotencyKey := None; in_kind := RELEASE; in_tradeId := "t1"; in_milestoneIndex := None;
       in_amountUsdc := "10.5"; in_destination := "gabc"; in_requestedBy := "GOTHER" |}.
Proof. apply derived_key_identifies; done. Defined.

(** A claim, its submission, a retry by another requester and the confirmation: none of them
    nor a sweep in between authorises the key again. *)
Lemma no_double_payout_witness :
  let ops := [(RecordSubmission "k1" "h1", 2); (Claim sampleInput, 3);
              (Reconcile (λ _, NOT_FOUND) 60000 100, 100000); (Confirm "k1" None, 100001)] in
  let start := (step id (∅ : gmap string PayoutIntent) (Claim sampleInput, 1)).1 in
  (step id (run id start ops) (Claim sampleInput, 100002)).2 ≠ Some "k1"%string ∧
  (status <$> findUnique "k1" (run id start ops)) = Some CONFIRMED.
Proof.
  cbv zeta. split; [|vm_compute; reflexivity].
  apply (no_double_payout id (∅ : gmap string PayoutIntent) (Claim sampleInput, 1)); [vm_compute; reflexivity|].
  intros n (i & Hi & Hs).
  do 4 (destruct n as [|n]; [vm_compute in Hi; injection Hi as <-; discriminate Hs|]).
  cbn [take] in Hi. rewrite firstn_nil in Hi. vm_compute in Hi. injection Hi as <-. discriminate Hs.
Defined.

Lemma claim_spec_witness :
  (claim id sampleDb sampleInput 9).2 = Ok {| intent := bumpDuplicate 9 sampleIntent; duplicate := true |}.
Proof.
  pose proof (claim_spec id sampleDb sampleInput 9) as H. cbv zeta in H.
  destruct (claim id sampleDb sampleInput 9) as [db' r]. destruct H as [_ H].
  exact (proj2 H).
Defined.
