(* ===== verification/CircuitBreaker.v ===== *)
(** * The circuit breaker of the RPC clients: [backend/src/lib/circuitBreaker.ts]

    A breaker with a failure threshold, a cool-down and a success threshold.
    Every read of the clock is an argument. An operation is awaited, so other
    calls may reach the same breaker before it settles: an operation therefore
    transforms the breaker together with the world [W]. The registry of
    breakers for the metrics endpoint is not modelled. *)

From S2P Require Import Prelude.

Module Breaker.

Inductive CircuitState : Type := CLOSED | OPEN | HALF_OPEN.

#[global] Instance CircuitState_eq_dec : EqDecision CircuitState.
Proof. solve_decision. Defined.

Record CircuitBreakerOptions : Type := {
  opt_failureThreshold : option Z;
  opt_successThreshold : option Z;
  opt_cooldownMs : option Z;
}.

Record CircuitBreaker : Type := mkBreaker {
  state : CircuitState;
  failureCount : Z;
  successCount : Z;
  openedAt : option Z;
  failureThreshold : Z;
  successThreshold : Z;
  cooldownMs : Z;
  name : string;
}.

Inductive breaker_error (E : Type) : Type :=
| CircuitBreakerOpenError (name : string)
| OperationError (e : E).
Arguments CircuitBreakerOpenError {E} name.
Arguments OperationError {E} e.

Definition newCircuitBreaker (name : string) (options : CircuitBreakerOptions) : CircuitBreaker :=
  {| state := CLOSED; failureCount := 0; successCount := 0; openedAt := None;
     failureThreshold := default 5 (opt_failureThreshold options);
     successThreshold := default 2 (opt_successThreshold options);
     cooldownMs := default 30000 (opt_cooldownMs options); name := name |}.

(** The mutable fields, rewritten. *)
Definition set (cb : CircuitBreaker) (s : CircuitState) (f n : Z) (o : option Z) : CircuitBreaker :=
  mkBreaker s f n o (failureThreshold cb) (successThreshold cb) (cooldownMs cb) (name cb).

Definition transitionIfCooldownElapsed (now : Z) (cb : CircuitBreaker) : CircuitBreaker :=
  match state cb, openedAt cb with
  | OPEN, Some t => if now - t >=? cooldownMs cb then set cb HALF_OPEN 0 0 (openedAt cb) else cb
  | _, _ => cb
  end.

Definition onSuccess (cb : CircuitBreaker) : CircuitBreaker :=
  match state cb with
  | HALF_OPEN =>
      let successCount' := successCount cb + 1 in
      if successCount' >=? successThreshold cb then set cb CLOSED 0 0 None
      else set cb HALF_OPEN (failureCount cb) successCount' (openedAt cb)
  | _ => set cb (state cb) 0 (successCount cb) (openedAt cb)
  end.

Definition onFailure (now : Z) (cb : CircuitBreaker) : CircuitBreaker :=
  match state cb with
  | HALF_OPEN => set cb OPEN 0 0 (Some now)
  | _ =>
      let failureCount' := failureCount cb + 1 in
      if failureCount' >=? failureThreshold cb then set cb OPEN failureCount' 0 (Some now)
      else set cb (state cb) failureCount' (successCount cb) (openedAt cb)
  end.

Section Call.
Context {W E A : Type}.

Definition call (operation : CircuitBreaker * W → CircuitBreaker * W * result E A)
    (t0 t1 : Z) (cb : CircuitBreaker) (w : W) : CircuitBreaker * W * result (breaker_error E) A :=
  let cb := transitionIfCooldownElapsed t0 cb in
  match state cb with
  | OPEN => (cb, w, Err (CircuitBreakerOpenError (name cb)))
  | _ =>
      match operation (cb, w) with
      | (cb', w', Ok a) => (onSuccess cb', w', Ok a)
      | (cb', w', Err e) => (onFailure t1 cb', w', Err (OperationError e))
      end
  end.

(** An operation that no other call overtakes. *)
Definition alone (f : W → W * result E A) : CircuitBreaker * W → CircuitBreaker * W * result E A :=
  λ cw, let '(w', r) := f cw.2 in (cw.1, w', r).
End Call.

(** ** All interleavings of concurrent calls

    A call is an entry, and later the success or failure of its operation;
    between the two any other call may take a step. *)

Inductive event : Type :=
| Enter (now : Z)
| Success
| Failure (now : Z).

Definition handle (cb : CircuitBreaker) (e : event) : CircuitBreaker :=
  match e with
  | Enter now => transitionIfCooldownElapsed now cb
  | Success => onSuccess cb
  | Failure now => onFailure now cb
  end.

Definition step (cb cb' : CircuitBreaker) : Prop := ∃ e, cb' = handle cb e.
Definition reachable (options : CircuitBreakerOptions) (cb : CircuitBreaker) : Prop :=
  ∃ n, rtc step (newCircuitBreaker n options) cb.

(** Configurations that make sense: the code never checks them. *)
Definition validOptions (options : CircuitBreakerOptions) : Prop :=
  1 ≤ default 5 (opt_failureThreshold options) ∧ 1 ≤ default 2 (opt_successThreshold options).

Record inv (cb : CircuitBreaker) : Prop := {
  inv_thresholds : 1 ≤ failureThreshold cb ∧ 1 ≤ successThreshold cb;
  inv_counts : 0 ≤ failureCount cb ∧ 0 ≤ successCount cb;
  inv_closed : state cb = CLOSED →
    openedAt cb = None ∧ failureCount cb < failureThreshold cb ∧ successCount cb = 0;
  inv_opened : state cb ≠ CLOSED → is_Some (openedAt cb);
  inv_half : state cb = HALF_OPEN → successCount cb < successThreshold cb;
}.

Lemma inv_set cb s f n o : inv cb → 0 ≤ f → 0 ≤ n →
  (s = CLOSED → o = None ∧ f < failureThreshold cb ∧ n = 0) →
  (s ≠ CLOSED → is_Some o) → (s = HALF_OPEN → n < successThreshold cb) → inv (set cb s f n o).
Proof. intros [??] ?????. by constructor. Qed.

Lemma inv_handle cb e : inv cb → inv (handle cb e).
Proof.
  intros Hi. pose proof Hi as [[Hf Hs] [Hc1 Hc2] Hclosed Hopen Hhalf].
  destruct e as [now| |now]; cbn [handle].
  - unfold transitionIfCooldownElapsed. destruct (state cb) eqn:Hst; [done| |done].
    destruct (openedAt cb) as [t|] eqn:Ho; [|done]. case_ifs; [|done].
    apply inv_set; [done|lia|lia|done|done|intros _; lia].
  - unfold onSuccess. destruct (state cb) eqn:Hst.
    + destruct (Hclosed eq_refl) as (? & ? & ?). apply inv_set; [done|lia|lia| |done|done]. intros _. split_and!; [done|lia|done].
    + apply inv_set; [done|lia|lia|done|by intros _; apply Hopen|done].
    + cbv zeta. rewrite Z.geb_leb. case_ifs; zb.
      * apply inv_set; [done|lia|lia| |done|done]. intros _. split_and!; [done|lia|done].
      * apply inv_set; [done|lia|lia|done|by intros _; apply Hopen|intros _; lia].
  - unfold onFailure. cbv zeta. rewrite Z.geb_leb.
    destruct (state cb) eqn:Hst; case_ifs; zb; apply inv_set; try done; try lia.
    + intros _. destruct (Hclosed eq_refl) as (? & ? & ?). split_and!; [done|lia|done].
Qed.

Lemma inv_new n options : validOptions options → inv (newCircuitBreaker n options).
Proof. intros [??]. constructor; cbn; try done; try lia. intros _. split_and!; [done|lia|done]. Qed.

Lemma reachable_wf (options : CircuitBreakerOptions) (cb : CircuitBreaker) :
  validOptions options → reachable options cb → inv cb.
Proof.
  intros Hv [n Hr]. pose proof (inv_new n options Hv) as Hi. revert Hi.
  induction Hr as [|x y z [e ->] _ IH]; [done|]. intros Hi. by apply IH, inv_handle.
Qed.

(** Under every interleaving of concurrent calls the breaker is well formed:
    CLOSED means fewer failures than the threshold and no opening time; OPEN and
    HALF_OPEN always carry an opening time, so the cool-down can always be
    measured; a HALF_OPEN breaker has not yet reached its success threshold. *)
Theorem reachable_inv (options : CircuitBreakerOptions) (cb : CircuitBreaker) :
  validOptions options → reachable options cb → inv cb.
Proof. apply reachable_wf. Qed.

(** Fail fast, and only while cooling down: in a reachable OPEN breaker a call
    is refused exactly when less than [cooldownMs] has passed since it opened; a
    refusal neither runs the operation nor changes the breaker or the world. *)
Theorem open_refuses_until_cooldown {W E A : Type} (options : CircuitBreakerOptions) (cb : CircuitBreaker)
    (operation : CircuitBreaker * W → CircuitBreaker * W * result E A) (t0 t1 : Z) (w : W) :
  validOptions options → reachable options cb → state cb = OPEN →
  ∃ t, openedAt cb = Some t ∧
    (t0 - t < cooldownMs cb →
       call operation t0 t1 cb w = (cb, w, Err (CircuitBreakerOpenError (name cb)))) ∧
    (cooldownMs cb ≤ t0 - t →
       call operation t0 t1 cb w =
       match operation (set cb HALF_OPEN 0 0 (Some t), w) with
       | (cb', w', Ok a) => (onSuccess cb', w', Ok a)
       | (cb', w', Err e) => (onFailure t1 cb', w', Err (OperationError e))
       end).
Proof.
  intros Hv Hr Hst. apply reachable_wf in Hr; [|done].
  destruct (inv_opened _ Hr) as [t Ht]; [by rewrite Hst|]. exists t. split; [done|].
  unfold call, transitionIfCooldownElapsed. rewrite Hst, Ht, Z.geb_leb. split; intros Hc.
  - rewrite (proj2 (Z.leb_gt _ _)) by lia. cbv zeta. by rewrite Hst.
  - by rewrite (proj2 (Z.leb_le _ _)) by lia.
Qed.

(** ** Sequential calls *)

(** The breaker after the outcomes [rs] of consecutive calls: (entry time, failure
    time, succeeded). Refused calls do not settle an operation. *)
Definition callOnce (cb : CircuitBreaker) (c : Z * Z * bool) : CircuitBreaker * bool :=
  let '(cb', _, r) := call (A := unit) (alone (λ _ : unit, (tt, if c.2 then Ok tt else Err tt))) c.1.1 c.1.2 cb tt in
  (cb', match r with Err (CircuitBreakerOpenError _) => false | _ => true end).

Fixpoint callMany (cb : CircuitBreaker) (cs : list (Z * Z * bool)) : CircuitBreaker * list bool :=
  match cs with
  | [] => (cb, [])
  | c :: cs' =>
      let '(cb1, admitted) := callOnce cb c in
      let '(cb2, l) := callMany cb1 cs' in (cb2, admitted :: l)
  end.

Lemma callOnce_closed cb c : state cb = CLOSED →
  callOnce cb c = (if c.2 then onSuccess cb else onFailure c.1.2 cb, true).
Proof.
  intros Hs. unfold callOnce, call, transitionIfCooldownElapsed. rewrite Hs.
  unfold alone. cbn. rewrite Hs. cbn. by destruct c.2.
Qed.

Lemma callMany_failures cs : ∀ cb, state cb = CLOSED → Forall (λ c, c.2 = false) cs →
  failureCount cb + Z.of_nat (length cs) < failureThreshold cb →
  callMany cb cs = (set cb CLOSED (failureCount cb + Z.of_nat (length cs)) (successCount cb) (openedAt cb),
                    replicate (length cs) true).
Proof.
  induction cs as [|c cs IH]; intros cb Hs Hf Hlt; cbn [callMany length replicate].
  { destruct cb; cbn in *. subst. by rewrite Z.add_0_r. }
  inversion Hf as [|?? Hc Hcs]; subst. rewrite callOnce_closed, Hc by done.
  cbn [length] in Hlt. rewrite Nat2Z.inj_succ in Hlt.
  assert (onFailure c.1.2 cb = set cb CLOSED (failureCount cb + 1) (successCount cb) (openedAt cb)) as Hof.
  { unfold onFailure. rewrite Hs. cbv zeta. rewrite Z.geb_leb, (proj2 (Z.leb_gt _ _)) by lia. done. }
  rewrite Hof. rewrite IH; [|done|done|cbn; lia]. unfold set. cbn -[Z.of_nat Z.add]. do 2 f_equal. lia.
Qed.

(** The breaker opens exactly at the threshold: from a CLOSED breaker with no
    recorded failures, [failureThreshold - 1] consecutive failing calls are all
    admitted and leave it CLOSED, the next failing call opens it at the instant of
    that failure, and a success in between clears the count. *)
Theorem opens_at_threshold (cb : CircuitBreaker) (cs : list (Z * Z * bool)) (c s : Z * Z * bool) :
  inv cb → state cb = CLOSED → failureCount cb = 0 →
  Forall (λ c, c.2 = false) cs → Z.of_nat (length cs) = failureThreshold cb - 1 →
  c.2 = false → s.2 = true →
  let cb1 := (callMany cb cs).1 in
  (callMany cb cs).2 = replicate (length cs) true ∧ state cb1 = CLOSED ∧
  callOnce cb1 c = (set cb OPEN (failureThreshold cb) 0 (Some c.1.2), true) ∧
  callOnce cb1 s = (cb, true).
Proof.
  intros Hi Hs H0 Hf Hl Hc Hsu. cbv zeta. rewrite callMany_failures by (done || lia). cbn [fst snd].
  split_and!; [done|done| |].
  - rewrite callOnce_closed, Hc by done. unfold onFailure.
    cbn [set state failureCount failureThreshold]. cbv zeta. rewrite Z.geb_leb, (proj2 (Z.leb_le _ _)) by lia.
    unfold set. cbn. do 2 f_equal. lia.
  - rewrite callOnce_closed, Hsu by done. unfold onSuccess, set. cbn. destruct cb; cbn in *. by subst.
Qed.

Lemma callOnce_half cb c : state cb = HALF_OPEN →
  callOnce cb c = (if c.2 then onSuccess cb else onFailure c.1.2 cb, true).
Proof.
  intros Hs. unfold callOnce, call, transitionIfCooldownElapsed. rewrite Hs.
  unfold alone. cbn. rewrite Hs. cbn. by destruct c.2.
Qed.

Lemma callMany_recover cs : ∀ cb, state cb = HALF_OPEN → Forall (λ c, c.2 = true) cs →
  successCount cb + Z.of_nat (length cs) < successThreshold cb →
  callMany cb cs = (set cb HALF_OPEN (failureCount cb) (successCount cb + Z.of_nat (length cs)) (openedAt cb),
                    replicate (length cs) true).
Proof.
  induction cs as [|c cs IH]; intros cb Hs Hf Hlt; cbn [callMany length replicate].
  { destruct cb; cbn in *. subst. by rewrite Z.add_0_r. }
  inversion Hf as [|?? Hc Hcs]; subst. rewrite callOnce_half, Hc by done.
  cbn [length] in Hlt. rewrite Nat2Z.inj_succ in Hlt.
  assert (onSuccess cb = set cb HALF_OPEN (failureCount cb) (successCount cb + 1) (openedAt cb)) as ->.
  { unfold onSuccess. rewrite Hs. cbv zeta. rewrite Z.geb_leb, (proj2 (Z.leb_gt _ _)) by lia. done. }
  rewrite IH; [|done|done|cbn; lia]. unfold set. cbn -[Z.of_nat Z.add]. do 2 f_equal. lia.
Qed.

(** Recovery: in HALF_OPEN every call is admitted; [successThreshold] successes
    in a row close the breaker with its counters cleared, and a failure at any
    earlier point opens it again from the instant of that failure. *)
Theorem half_open_recovers (cb : CircuitBreaker) (cs : list (Z * Z * bool)) (s f : Z * Z * bool) :
  inv cb → state cb = HALF_OPEN → Forall (λ c, c.2 = true) cs →
  successCount cb + Z.of_nat (length cs) < successThreshold cb → s.2 = true → f.2 = false →
  let cb1 := (callMany cb cs).1 in
  state cb1 = HALF_OPEN ∧
  (successCount cb + Z.of_nat (length cs) + 1 = successThreshold cb →
     callOnce cb1 s = (set cb CLOSED 0 0 None, true)) ∧
  callOnce cb1 f = (set cb OPEN 0 0 (Some f.1.2), true).
Proof.
  intros Hi Hs Hf Hl Hsu Hfa. cbv zeta. rewrite callMany_recover by done. cbn [fst snd].
  split_and!; [done| |].
  - intros Heq. rewrite callOnce_half, Hsu by done. unfold onSuccess.
    cbn [set state successCount successThreshold]. cbv zeta. rewrite Z.geb_leb, (proj2 (Z.leb_le _ _)) by lia. done.
  - rewrite callOnce_half, Hfa by done. unfold onFailure. cbn. done.
Qed.

(** ** Witnesses *)

Definition defaults : CircuitBreakerOptions := {| opt_failureThreshold := None; opt_successThreshold := None; opt_cooldownMs := None |}.

Definition opened : CircuitBreaker := mkBreaker OPEN 5 0 (Some 104) 5 2 30000 "rpc".

Lemma defaults_valid : validOptions defaults.
Proof. split; cbn; lia. Qed.

Lemma opened_reachable : reachable defaults opened.
Proof.
  exists "rpc"%string.
  do 4 (eapply rtc_l; [by exists (Failure 100)|]). eapply rtc_l; [by exists (Failure 104)|]. apply rtc_refl.
Qed.

Lemma reachable_inv_witness : inv opened.
Proof. apply (reachable_inv defaults); [exact defaults_valid|exact opened_reachable]. Defined.

Lemma open_refuses_until_cooldown_witness :
  call (alone (λ n : nat, (S n, Ok (E := unit) n))) 1000 1001 opened 0%nat
  = (opened, 0%nat, Err (CircuitBreakerOpenError "rpc")).
Proof.
  destruct (open_refuses_until_cooldown defaults opened (alone (λ n : nat, (S n, Ok (E := unit) n))) 1000 1001 0%nat
    defaults_valid opened_reachable eq_refl) as (t & [= <-] & H & _).
  apply H. cbn. lia.
Defined.

Lemma opens_at_threshold_witness :
  (callMany (newCircuitBreaker "rpc" defaults) (replicate 4 (0, 1, false))).2 = replicate 4 true.
Proof.
  apply (opens_at_threshold (newCircuitBreaker "rpc" defaults) (replicate 4 (0, 1, false)) (5, 6, false) (5, 6, true));
    try reflexivity; [apply inv_new, defaults_valid|repeat constructor].
Defined.

Lemma half_open_recovers_witness :
  callOnce (callMany (mkBreaker HALF_OPEN 0 0 (Some 104) 5 2 30000 "rpc") [(40000, 40001, true)]).1 (50000, 50001, true)
  = (mkBreaker CLOSED 0 0 None 5 2 30000 "rpc", true).
Proof.
  apply (half_open_recovers (mkBreaker HALF_OPEN 0 0 (Some 104) 5 2 30000 "rpc") [(40000, 40001, true)]
    (50000, 50001, true) (60000, 60001, false)); try reflexivity; [|repeat constructor].
  constructor; cbn; try done; try lia.
Defined.
End Breaker.
