(* ===== verification/SimpleBreaker.v ===== *)
(** * The second circuit breaker: [backend/src/lib/circuit-breaker.ts]

    A simpler breaker (one success closes it, the time of the last failure starts
    the timeout), and a simulation that shows when it agrees with the one of
    [CircuitBreaker.v]. *)

From S2P Require Import Prelude CircuitBreaker.

Module Simple.

Inductive CircuitState : Type := closed | open | half_open.

#[global] Instance CircuitState_eq_dec : EqDecision CircuitState.
Proof. solve_decision. Defined.

Record CircuitBreaker : Type := mkSimple {
  state : CircuitState;
  failureCount : Z;
  lastFailureTime : Z;
  failureThreshold : Z;
  resetTimeoutMs : Z;
}.

Definition newCircuitBreaker (failureThreshold resetTimeoutMs : Z) : CircuitBreaker :=
  mkSimple closed 0 0 failureThreshold resetTimeoutMs.

Definition set (cb : CircuitBreaker) (s : CircuitState) (f t : Z) : CircuitBreaker :=
  mkSimple s f t (failureThreshold cb) (resetTimeoutMs cb).

(** Reading the state may move it. *)
Definition getState (now : Z) (cb : CircuitBreaker) : CircuitBreaker * CircuitState :=
  let cb' := match state cb with
             | open => if now - lastFailureTime cb >=? resetTimeoutMs cb
                       then set cb half_open (failureCount cb) (lastFailureTime cb) else cb
             | _ => cb
             end in
  (cb', state cb').

Definition recordSuccess (cb : CircuitBreaker) : CircuitBreaker :=
  match state cb with
  | half_open => set cb closed 0 (lastFailureTime cb)
  | _ => set cb (state cb) 0 (lastFailureTime cb)
  end.

Definition recordFailure (now : Z) (cb : CircuitBreaker) : CircuitBreaker :=
  let failureCount' := failureCount cb + 1 in
  match state cb with
  | half_open => set cb open failureCount' now
  | _ => if failureCount' >=? failureThreshold cb then set cb open failureCount' now
         else set cb (state cb) failureCount' now
  end.

Definition isAvailable (now : Z) (cb : CircuitBreaker) : CircuitBreaker * bool :=
  let '(cb', current) := getState now cb in
  (cb', bool_decide (current = closed) || bool_decide (current = half_open)).

Definition reset (cb : CircuitBreaker) : CircuitBreaker :=
  set cb closed 0 (lastFailureTime cb).

Definition defaultBreaker : CircuitBreaker := newCircuitBreaker 5 30000.

Inductive simple_error (E : Type) : Type :=
| BreakerOpen
| OperationError (e : E).
Arguments BreakerOpen {E}.
Arguments OperationError {E} e.

Definition withCircuitBreaker {W E A : Type}
    (operation : CircuitBreaker * W → CircuitBreaker * W * result E A)
    (t0 t1 : Z) (breaker : CircuitBreaker) (w : W) : CircuitBreaker * W * result (simple_error E) A :=
  let '(breaker, available) := isAvailable t0 breaker in
  if negb available then (breaker, w, Err BreakerOpen)
  else match operation (breaker, w) with
       | (b, w', Ok a) => (recordSuccess b, w', Ok a)
       | (b, w', Err e) => (recordFailure t1 b, w', Err (OperationError e))
       end.

Definition callOnce (cb : CircuitBreaker) (c : Z * Z * bool) : CircuitBreaker * bool :=
  let '(cb', _, r) := withCircuitBreaker (A := unit) (E := unit)
    (λ cw, (cw.1, cw.2, if c.2 then Ok tt else Err tt)) c.1.1 c.1.2 cb tt in
  (cb', match r with Err BreakerOpen => false | _ => true end).

Fixpoint callMany (cb : CircuitBreaker) (cs : list (Z * Z * bool)) : CircuitBreaker * list bool :=
  match cs with
  | [] => (cb, [])
  | c :: cs' =>
      let '(cb1, admitted) := callOnce cb c in
      let '(cb2, l) := callMany cb1 cs' in (cb2, admitted :: l)
  end.

(** The simulation relation between the two breakers. *)
Definition stateOf (s : Breaker.CircuitState) : CircuitState :=
  match s with Breaker.CLOSED => closed | Breaker.OPEN => open | Breaker.HALF_OPEN => half_open end.

Record sim (a : Breaker.CircuitBreaker) (b : CircuitBreaker) : Prop := {
  sim_state : state b = stateOf (Breaker.state a);
  sim_count : Breaker.state a = Breaker.CLOSED → failureCount b = Breaker.failureCount a;
  sim_opened : Breaker.state a ≠ Breaker.CLOSED → Breaker.openedAt a = Some (lastFailureTime b);
  sim_threshold : failureThreshold b = Breaker.failureThreshold a;
  sim_cooldown : resetTimeoutMs b = Breaker.cooldownMs a;
  sim_success : Breaker.successThreshold a = 1;
  sim_successes : 0 ≤ Breaker.successCount a;
}.

(** Entering and settling a call preserve the simulation. *)
Lemma sim_enter a b now : sim a b → sim (Breaker.transitionIfCooldownElapsed now a) (getState now b).1.
Proof.
  intros [Hst Hc Ho Ht Hcd Hs Hn]. unfold Breaker.transitionIfCooldownElapsed, getState. rewrite Hst.
  destruct (Breaker.state a) eqn:Ha; cbn [stateOf fst]; try (constructor; rewrite ?Ha; done).
  rewrite (Ho ltac:(done)), Hcd.
  destruct (now - lastFailureTime b >=? Breaker.cooldownMs a); constructor; rewrite ?Ha; try done.
Qed.

Lemma sim_settle a b (ok : bool) now : sim a b → Breaker.state a ≠ Breaker.OPEN →
  sim (if ok then Breaker.onSuccess a else Breaker.onFailure now a)
      (if ok then recordSuccess b else recordFailure now b).
Proof.
  intros [Hst Hc Ho Ht Hcd Hs Hn] Hne.
  unfold Breaker.onSuccess, Breaker.onFailure, recordSuccess, recordFailure. rewrite Hst, Ht.
  destruct ok, (Breaker.state a) eqn:Ha; cbn [stateOf]; try (by constructor).
  - rewrite Hs, Z.geb_leb, (proj2 (Z.leb_le _ _)) by lia. by constructor.
  - rewrite (Hc eq_refl). cbv zeta.
    destruct (Breaker.failureCount a + 1 >=? Breaker.failureThreshold a); by constructor.
Qed.

Lemma sim_call a b c : sim a b →
  sim (Breaker.callOnce a c).1 (callOnce b c).1 ∧ (Breaker.callOnce a c).2 = (callOnce b c).2.
Proof.
  intros Hsim. pose proof (sim_enter a b c.1.1 Hsim) as He.
  unfold Breaker.callOnce, callOnce, Breaker.call, withCircuitBreaker, isAvailable, Breaker.alone.
  destruct (getState c.1.1 b) as [b1 s] eqn:Hg. cbn [fst] in He.
  assert (s = state b1) as -> by (unfold getState in Hg; congruence).
  pose proof (sim_state _ _ He) as Hst. cbv zeta. cbn [fst snd].
  destruct (Breaker.state (Breaker.transitionIfCooldownElapsed c.1.1 a)) eqn:Ha; rewrite Hst; cbn [stateOf].
  2: { by split. }
  all: pose proof (sim_settle _ _ c.2 c.1.2 He ltac:(by rewrite Ha)) as Hset; cbn; destruct c.2; by split.
Qed.

(** C28: The two breakers agree: configured alike, with a success threshold of one,
    they admit and refuse exactly the same calls of every sequential run, whatever
    the clock does, and end in the same state. *)
Theorem breakers_equivalent (a : Breaker.CircuitBreaker) (b : CircuitBreaker) (cs : list (Z * Z * bool)) :
  sim a b →
  (Breaker.callMany a cs).2 = (callMany b cs).2 ∧
  state (callMany b cs).1 = stateOf (Breaker.state (Breaker.callMany a cs).1).
Proof.
  revert a b. induction cs as [|c cs IH]; intros a b Hs; cbn [Breaker.callMany callMany].
  { split; [done|apply sim_state, Hs]. }
  destruct (sim_call a b c Hs) as [H1 H2].
  destruct (Breaker.callOnce a c) as [a1 r1], (callOnce b c) as [b1 r2]. cbn in *. subst.
  destruct (IH _ _ H1) as [H3 H4].
  destruct (Breaker.callMany a1 cs), (callMany b1 cs). cbn in *. by subst.
Qed.

(** A fresh or a reset breaker is available at once, and a breaker that has
    opened is unavailable until [resetTimeoutMs] after its last failure, however
    calls overlap: the operation is not run and the breaker does not move. *)
Theorem simple_availability (cb : CircuitBreaker) (now t : Z) :
  (isAvailable now (reset cb)).2 = true ∧
  (isAvailable now cb).2 = negb (bool_decide (state cb = open) && (now - lastFailureTime cb <? resetTimeoutMs cb)) ∧
  ((isAvailable now cb).2 = false → (isAvailable now cb).1 = cb) ∧
  lastFailureTime (recordFailure t cb) = t ∧
  (state cb = half_open ∨ failureThreshold cb ≤ failureCount cb + 1 → state (recordFailure t cb) = open).
Proof.
  unfold isAvailable, getState, recordFailure, reset. cbn [state set]. split_and!.
  - done.
  - destruct (state cb) eqn:Hs; cbn; rewrite ?Hs; try done.
    rewrite Z.geb_leb. destruct (Z.leb_spec (resetTimeoutMs cb) (now - lastFailureTime cb)); cbn; rewrite ?Hs; cbn.
    + by rewrite (proj2 (Z.ltb_ge _ _)) by lia.
    + by rewrite (proj2 (Z.ltb_lt _ _)) by lia.
  - destruct (state cb) eqn:Hs; cbn; rewrite ?Hs; try done.
    destruct (now - lastFailureTime cb >=? resetTimeoutMs cb); done.
  - destruct (state cb); cbn; case_ifs; done.
  - intros H. cbv zeta. destruct (state cb) eqn:Hs; cbn; try done.
    all: rewrite Z.geb_leb, (proj2 (Z.leb_le _ _)); [done|destruct H; [done|lia]].
Qed.

Lemma breakers_equivalent_witness :
  sim (Breaker.newCircuitBreaker "rpc" {| Breaker.opt_failureThreshold := Some 2; Breaker.opt_successThreshold := Some 1;
         Breaker.opt_cooldownMs := None |}) (newCircuitBreaker 2 30000) ∧
  (callMany (newCircuitBreaker 2 30000) [(0, 1, false); (2, 3, false); (4, 5, true); (40000, 40001, true)]).2
  = [true; true; false; true].
Proof.
  assert (Hs : sim (Breaker.newCircuitBreaker "rpc" {| Breaker.opt_failureThreshold := Some 2;
    Breaker.opt_successThreshold := Some 1; Breaker.opt_cooldownMs := None |}) (newCircuitBreaker 2 30000))
    by (constructor; done).
  split; [exact Hs|].
  destruct (breakers_equivalent _ _ [(0, 1, false); (2, 3, false); (4, 5, true); (40000, 40001, true)] Hs) as [H _].
  rewrite <-H. reflexivity.
Defined.

Lemma simple_availability_witness :
  state (recordFailure 9 (mkSimple half_open 5 1 5 30000)) = open.
Proof. apply (simple_availability (mkSimple half_open 5 1 5 30000) 0 9). left. reflexivity. Defined.
End Simple.
