(* ===== verification/Retry.v ===== *)
(** * The retry wrapper: [backend/src/lib/retry.ts]

    Error classification on values of unknown shape, the full-jitter delay, and
    the retry loop. The loop talks to the outside through four streams indexed
    by the attempt: what the operation returned or threw, what the clock read
    when it settled, and the random number of the delay. It is run with fuel
    [maxRetries + 1], which [retryAsync_total] shows is always enough. *)

From S2P Require Import Prelude JsString JsValue.

Definition DEFAULT_MAX_RETRIES : Z := 3.
Definition DEFAULT_BASE_DELAY_MS : Z := 200.
Definition DEFAULT_CAP_MS : Z := 10000.
Definition DEFAULT_BUDGET_MS : Z := 30000.

Inductive RetryOutcome : Type := success | exhausted | non_retryable | budget_exceeded.

Record RetryOptions : Type := {
  maxRetries : option Z;
  baseDelayMs : option Z;
  capMs : option Z;
  budgetMs : option Z;
  shouldRetry : option (jsval → bool);
  backoffMs : option (list Z);
}.

(** ** Classification *)

Definition RETRYABLE_PRISMA_CODES : list string := ["P1001"; "P1002"; "P1017"; "P2024"; "P2028"]%string.

Definition RETRYABLE_SUPABASE_CODES : list string :=
  ["PGRST301"; "57P01"; "57P02"; "57P03"; "08006"; "08001"; "40001"; "40P01"]%string.

Definition RETRYABLE_HTTP_STATUSES : list Z := [429; 500; 502; 503; 504].

Definition isClientError (status : Z) : bool :=
  (400 <=? status) && (status <? 500) && negb (status =? 429).

(** The first candidate that converts to a positive integer. *)
Fixpoint firstStatus (candidates : list jsval) : option Z :=
  match candidates with
  | [] => None
  | c :: cs =>
      match toNumber c with
      | JInt n => if 0 <? n then Some n else firstStatus cs
      | _ => firstStatus cs
      end
  end.

Definition extractHttpStatus (error : jsval) : option Z :=
  if negb (isObject error) then None
  else firstStatus [getProp error "status"; getProp error "statusCode";
                    getProp (getProp error "response") "status";
                    getProp (getProp error "response") "statusCode"].

Definition asString (v : jsval) : option string :=
  match v with VStr s => Some s | _ => None end.

Definition extractPrismaCode (error : jsval) : option string :=
  if negb (isObject error) then None else asString (getProp error "code").

Definition extractSupabaseCode (error : jsval) : option string :=
  if negb (isObject error) then None
  else match getProp error "code" with
       | VStr (String c s) => Some (String c s)
       | _ =>
           let details := orElse (getProp error "details") (getProp error "error") in
           if isObject details then asString (getProp details "code") else None
       end.

Definition isNetworkError (error : jsval) : bool :=
  match error with
  | VObj (Some message) _ =>
      let msg := toLowerCase message in
      contains "econnrefused" msg || contains "econnreset" msg || contains "etimedout" msg
      || contains "network" msg || contains "socket hang up" msg || contains "fetch failed" msg
  | _ => false
  end.

(** [code && SET.has(code)] *)
Definition hasCode (codes : list string) (code : option string) : bool :=
  match code with
  | Some c => negb (bool_decide (c = ""%string)) && bool_decide (c ∈ codes)
  | None => false
  end.

Definition classifyError (error : jsval) : bool :=
  match extractHttpStatus error with
  | Some httpStatus =>
      if isClientError httpStatus then false else bool_decide (httpStatus ∈ RETRYABLE_HTTP_STATUSES)
  | None =>
      if hasCode RETRYABLE_PRISMA_CODES (extractPrismaCode error) then true
      else if hasCode RETRYABLE_SUPABASE_CODES (extractSupabaseCode error) then true
      else isNetworkError error
  end.

Definition isRetryableNetworkError (error : jsval) : bool :=
  match extractHttpStatus error with
  | None => false
  | Some s => if s =? 429 then true else (500 <=? s) && (s <? 600)
  end.

(** ** Jitter *)

(** [Math.floor(randFn() * window)]: the product of the random double [r.1 / r.2]
    and the window is rounded to a double before its floor is taken. *)
Definition computeJitteredDelay (attempt baseDelay cap : Z) (rand : Z * Z) : jsnum :=
  let window := Z.min cap (baseDelay * 2 ^ attempt) in
  jfloor (roundDouble (rand.1 * window) rand.2).

(** ** The loop *)

(** What the loop lets the outside see, in order. *)
Inductive retryEvent : Type :=
| Called (attempt : Z)
| RecordAttempt (attempt : Z)
| OnRetry (error : jsval) (attempt : Z) (delay : jsnum)
| Sleep (delay : jsnum)
| RecordOutcome (outcome : RetryOutcome) (totalAttempts durationMs : Z).

(** [backoffMs[Math.min(attempt, backoffMs.length - 1)] ?? 0]; index -1 of an
    empty array is [undefined]. *)
Definition legacyDelay (delays : list Z) (attempt : Z) : Z :=
  let i := Z.min attempt (Z.of_nat (length delays) - 1) in
  if i <? 0 then 0 else default 0 (delays !! Z.to_nat i).

(** [duration + delay > budget] *)
Definition overBudget (duration : Z) (delay : jsnum) (budget : Z) : bool := jgt delay (budget - duration).

Section Loop.
Context {A : Type}.
Context (operation : Z → result jsval A) (clock : Z → Z) (rand : Z → Z * Z).
Context (options : RetryOptions) (startTime : Z).

Definition delayFor (attempt : Z) : jsnum :=
  match backoffMs options with
  | Some delays => JInt (legacyDelay delays attempt)
  | None => computeJitteredDelay attempt (default DEFAULT_BASE_DELAY_MS (baseDelayMs options))
              (default DEFAULT_CAP_MS (capMs options)) (rand attempt)
  end.

Definition retryable (error : jsval) : bool := default classifyError (shouldRetry options) error.

(** One turn of [while (true)]: stop with a result, or go round again. *)
Definition turn (attempt : Z) : list retryEvent * option (result jsval A) :=
  let durationMs := clock attempt - startTime in
  match operation attempt with
  | Ok a => ([Called attempt; RecordOutcome success (attempt + 1) durationMs], Some (Ok a))
  | Err error =>
      if negb (retryable error) then
        ([Called attempt; RecordOutcome non_retryable (attempt + 1) durationMs], Some (Err error))
      else if default DEFAULT_MAX_RETRIES (maxRetries options) <=? attempt then
        ([Called attempt; RecordOutcome exhausted (attempt + 1) durationMs], Some (Err error))
      else
        let delayMs := delayFor attempt in
        if overBudget durationMs delayMs (default DEFAULT_BUDGET_MS (budgetMs options)) then
          ([Called attempt; RecordOutcome budget_exceeded (attempt + 1) durationMs], Some (Err error))
        else ([Called attempt; RecordAttempt (attempt + 1); OnRetry error (attempt + 1) delayMs; Sleep delayMs], None)
  end.

Fixpoint loop (fuel : nat) (attempt : Z) : option (list retryEvent * result jsval A) :=
  match fuel with
  | O => None
  | S fuel' =>
      match turn attempt with
      | (evs, Some r) => Some (evs, r)
      | (evs, None) =>
          match loop fuel' (attempt + 1) with
          | Some (evs', r) => Some (evs ++ evs', r)
          | None => None
          end
      end
  end.

Definition retryAsync : option (list retryEvent * result jsval A) :=
  loop (S (Z.to_nat (default DEFAULT_MAX_RETRIES (maxRetries options)))) 0.

(** ** Correctness *)

Abbreviation limit := (default DEFAULT_MAX_RETRIES (maxRetries options)).

Lemma turn_continues attempt evs : turn attempt = (evs, None) →
  attempt < limit ∧ (∃ e, operation attempt = Err e ∧ retryable e = true ∧
    evs = [Called attempt; RecordAttempt (attempt + 1); OnRetry e (attempt + 1) (delayFor attempt); Sleep (delayFor attempt)]) ∧
  overBudget (clock attempt - startTime) (delayFor attempt) (default DEFAULT_BUDGET_MS (budgetMs options)) = false.
Proof.
  unfold turn. destruct (operation attempt) as [a|e]; [done|].
  destruct (retryable e) eqn:Hr; cbn [negb]; [|done].
  destruct (limit <=? attempt) eqn:Hl; [done|]. cbv zeta. case_ifs; [done|].
  intros [= <-]. zb. split_and!; [lia|eauto|done].
Qed.

(** How a run ends: the attempt that settles it and why. *)
Definition settles (n : Z) (o : RetryOutcome) (r : result jsval A) : Prop :=
  operation n = r ∧
  match o with
  | success => isOk r = true
  | non_retryable => ∃ e, r = Err e ∧ retryable e = false
  | exhausted => ∃ e, r = Err e ∧ retryable e = true ∧ limit ≤ n
  | budget_exceeded => ∃ e, r = Err e ∧ retryable e = true ∧ n < limit ∧
      overBudget (clock n - startTime) (delayFor n) (default DEFAULT_BUDGET_MS (budgetMs options)) = true
  end.

Lemma turn_stops attempt evs r : turn attempt = (evs, Some r) →
  ∃ o, settles attempt o r ∧ evs = [Called attempt; RecordOutcome o (attempt + 1) (clock attempt - startTime)].
Proof.
  unfold turn, settles. destruct (operation attempt) as [a|e].
  { intros [= <- <-]. exists success. naive_solver. }
  destruct (retryable e) eqn:Hr; cbn [negb].
  - destruct (limit <=? attempt) eqn:Hl; cbv zeta.
    + intros [= <- <-]. zb. exists exhausted. naive_solver.
    + case_ifs; [|done]. intros [= <- <-]. zb. exists budget_exceeded. split; [|done]. split; [done|].
      exists e. split_and!; [done|done|lia|done].
  - intros [= <- <-]. exists non_retryable. naive_solver.
Qed.

(** The events of a run that retried at [a, a + 1, ..., n - 1] and settled at [n]. *)
Fixpoint retriesFrom (a : Z) (k : nat) (evs : list retryEvent) : Prop :=
  match k with
  | O => evs = []
  | S k' => ∃ e rest, operation a = Err e ∧ retryable e = true ∧ a < limit ∧
      overBudget (clock a - startTime) (delayFor a) (default DEFAULT_BUDGET_MS (budgetMs options)) = false ∧
      evs = [Called a; RecordAttempt (a + 1); OnRetry e (a + 1) (delayFor a); Sleep (delayFor a)] ++ rest ∧
      retriesFrom (a + 1) k' rest
  end.

Lemma loop_spec fuel : ∀ a, limit - a < Z.of_nat fuel → (0 < fuel)%nat →
  ∃ k evs o r, loop fuel a = Some (evs ++ [Called (a + Z.of_nat k);
      RecordOutcome o (a + Z.of_nat k + 1) (clock (a + Z.of_nat k) - startTime)], r) ∧
    retriesFrom a k evs ∧ settles (a + Z.of_nat k) o r ∧ a + Z.of_nat k ≤ Z.max a limit.
Proof.
  induction fuel as [|fuel IH]; intros a Hf Hpos; [lia|]. cbn [loop].
  destruct (turn a) as [evs [r|]] eqn:Ht.
  - apply turn_stops in Ht as (o & Hs & ->). exists O, [], o, r. rewrite Z.add_0_r.
    split_and!; [done|done|done|lia].
  - apply turn_continues in Ht as (Hlt & (e & He & Hr & ->) & Hb).
    destruct (IH (a + 1)) as (k & evs & o & r & -> & Hrt & Hs & Hk); [lia|lia|].
    eexists (S k), (_ ++ evs), o, r. replace (a + Z.of_nat (S k)) with (a + 1 + Z.of_nat k) by lia.
    rewrite <-app_assoc. split_and!; [done| |done|lia]. cbn [retriesFrom]. eauto 10.
Qed.

(** The retry loop always terminates, after at most [maxRetries + 1] calls of the
    operation. Every earlier attempt failed with a retryable error and its sleep
    fitted the time budget; the last attempt either succeeded (its value is
    returned), or failed with a non-retryable error, on the last permitted
    attempt, or with a delay that would overrun the budget (its error is
    thrown). Exactly one outcome is recorded, with the number of calls made. *)
Theorem retryAsync_total :
  ∃ n evs o r, retryAsync = Some (evs ++ [Called (Z.of_nat n);
      RecordOutcome o (Z.of_nat n + 1) (clock (Z.of_nat n) - startTime)], r) ∧
    retriesFrom 0 n evs ∧ settles (Z.of_nat n) o r ∧ Z.of_nat n ≤ Z.max 0 limit.
Proof.
  unfold retryAsync. destruct (loop_spec (S (Z.to_nat limit)) 0) as (k & evs & o & r & H); [lia|lia|].
  rewrite !Z.add_0_l in H. eauto.
Qed.
End Loop.

(** The jittered delay is a whole number of milliseconds between zero and
    [min(cap, base * 2^attempt)]: for every random double in [0, 1) and after
    rounding of the product. *)
Theorem jitter_bounds (attempt baseDelay cap : Z) (rand : Z * Z) :
  0 ≤ attempt → 0 ≤ baseDelay → 0 ≤ cap < 2 ^ 53 → 0 ≤ rand.1 < rand.2 →
  ∃ d, computeJitteredDelay attempt baseDelay cap rand = JInt d ∧
    0 ≤ d ≤ cap ∧ d ≤ baseDelay * 2 ^ attempt.
Proof.
  intros Ha Hb Hc Hr. unfold computeJitteredDelay. cbv zeta.
  pose proof (Z.pow_pos_nonneg 2 attempt ltac:(lia) Ha) as Hp.
  assert (0 ≤ baseDelay * 2 ^ attempt) by nia.
  destruct (roundDouble_floor (rand.1 * Z.min cap (baseDelay * 2 ^ attempt)) rand.2
    (Z.min cap (baseDelay * 2 ^ attempt))) as (z & -> & Hz); [nia|lia|nia|lia|].
  exists z. split; [done|lia].
Qed.

(** The classification is the documented decision table: an HTTP status, when
    one can be read, decides alone, and only 429, 500, 502, 503 and 504 are
    retried; otherwise the error is retried exactly when it carries a transient
    Prisma or Supabase code or is a network-level [Error]. *)
Theorem classifyError_spec (error : jsval) :
  classifyError error = true ↔
  match extractHttpStatus error with
  | Some s => s ∈ [429; 500; 502; 503; 504]
  | None =>
      (∃ c, extractPrismaCode error = Some c ∧ c ∈ RETRYABLE_PRISMA_CODES) ∨
      (∃ c, extractSupabaseCode error = Some c ∧ c ∈ RETRYABLE_SUPABASE_CODES) ∨
      isNetworkError error = true
  end.
Proof.
  unfold classifyError. destruct (extractHttpStatus error) as [s|].
  - destruct (isClientError s) eqn:Hc.
    + unfold isClientError in Hc. zb. split; [done|]. rewrite !elem_of_cons, elem_of_nil. lia.
    + rewrite bool_decide_eq_true. done.
  - assert (Hcode : ∀ codes c, ""%string ∉ codes →
      hasCode codes c = true ↔ ∃ c', c = Some c' ∧ c' ∈ codes).
    { intros codes [c|] Hne; cbn; [|naive_solver]. zb. split; [naive_solver|].
      intros (c' & [= <-] & Hin). split; [|done]. intros ->. done. }
    rewrite <-!Hcode by (unfold RETRYABLE_PRISMA_CODES, RETRYABLE_SUPABASE_CODES; set_solver).
    destruct (hasCode RETRYABLE_PRISMA_CODES _), (hasCode RETRYABLE_SUPABASE_CODES _), (isNetworkError error); naive_solver.
Qed.

(** The deprecated helper disagrees with the classification: an HTTP 501 is
    retryable for [isRetryableNetworkError] and final for [classifyError],
    whatever else the error carries. *)
Theorem http_501_classified_differently (error : jsval) :
  extractHttpStatus error = Some 501 →
  isRetryableNetworkError error = true ∧ classifyError error = false.
Proof. unfold isRetryableNetworkError, classifyError. intros ->. split; reflexivity. Qed.

(** ** Witnesses *)

Lemma jitter_bounds_witness :
  ∃ d, computeJitteredDelay 3 200 10000 (9007199254740991, 9007199254740992) = JInt d ∧
    0 ≤ d ≤ 10000 ∧ d ≤ 200 * 2 ^ 3.
Proof. apply jitter_bounds; cbn; lia. Defined.

Lemma http_501_classified_differently_witness :
  classifyError (VObj (Some "x"%string) [("status", VStr "501")]%string) = false.
Proof.
  apply (http_501_classified_differently (VObj (Some "x"%string) [("status", VStr "501")]%string)).
  vm_compute. reflexivity.
Defined.

(** A run on concrete streams: two network failures, then a value. *)
Example retryAsync_example :
  retryAsync (λ n, if n <? 2 then Err (VObj (Some "fetch failed"%string) []) else Ok 7)
    (λ n, 100 + n) (λ _, (1, 2)) {| maxRetries := None; baseDelayMs := None; capMs := None; budgetMs := None;
      shouldRetry := None; backoffMs := None |} 100
  = Some ([Called 0; RecordAttempt 1; OnRetry (VObj (Some "fetch failed"%string) []) 1 (JInt 100); Sleep (JInt 100);
           Called 1; RecordAttempt 2; OnRetry (VObj (Some "fetch failed"%string) []) 2 (JInt 200); Sleep (JInt 200);
           Called 2; RecordOutcome success 3 2], Ok 7).
Proof. vm_compute. reflexivity. Qed.
