(* ===== verification/EventHandlers.v ===== *)
(** * On-chain event handlers: [backend/src/services/eventHandlers.ts], [backend/src/types/events.ts]

    What one parsed contract event does to the database. A handler runs inside
    a transaction: [Tx] is the trade, dispute and clawback tables it sees. The
    isolation level lets other transactions commit between two statements; [between] is
    what they do to the trade table between the read and the write of
    [applyStatusTransition], and to the dispute table between those of
    [syncDisputeFromEvent]. The relations of the schema are enforced: [isUser]
    and [isStream] are the wallet addresses and streams with a row, and an
    insert that refers to a missing row fails with P2003. Logs, metrics and
    webhooks are the list of effects of a handler that returns. The client is
    the generated one, which always has [findUnique] and [upsert] (the branches
    for partial test doubles are not modelled). *)

From S2P Require Import Prelude JsString JsValue DbClient Prisma Disputes.

Inductive EventType : Type :=
| TradeCreated | TradeFunded | DeliveryConfirmed | FundsReleased
| DisputeInitiated | DisputeResolved | StreamClawback.

Inductive TradeStatus : Type :=
| PENDING_SIGNATURE | CREATED | FUNDED | DELIVERED | COMPLETED | DISPUTED | CANCELLED | EXPIRED.

#[global] Instance EventType_eq_dec : EqDecision EventType.
Proof. solve_decision. Defined.
#[global] Instance TradeStatus_eq_dec : EqDecision TradeStatus.
Proof. solve_decision. Defined.

Definition EVENT_TO_STATUS (e : EventType) : option TradeStatus :=
  match e with
  | TradeCreated => Some CREATED
  | TradeFunded => Some FUNDED
  | DeliveryConfirmed => Some DELIVERED
  | FundsReleased => Some COMPLETED
  | DisputeInitiated => Some DISPUTED
  | DisputeResolved => Some COMPLETED
  | StreamClawback => None
  end.

Record ParsedEvent : Type := {
  eventType : EventType;
  ev_tradeId : string;
  ledgerSequence : Z;
  contractId : string;
  eventId : string;
  data : list (string * jsval);
}.

(** [Partial<Record<EventType, TradeStatus[]>>]: a missing key is [undefined]. *)
Definition VALID_PREDECESSORS (e : EventType) : option (list TradeStatus) :=
  match e with
  | TradeFunded => Some [CREATED]
  | DeliveryConfirmed => Some [FUNDED]
  | FundsReleased => Some [DELIVERED]
  | DisputeInitiated => Some [FUNDED; DELIVERED]
  | DisputeResolved => Some [DISPUTED]
  | TradeCreated | StreamClawback => None
  end.

(** ** Rows *)

Record TradeRow : Type := {
  tradeId : string;
  buyerAddress : string;
  sellerAddress : string;
  amountUsdc : string;
  version : Z;
  status : TradeStatus;
  fundedAt : option Z;
  deliveredAt : option Z;
  completedAt : option Z;
  updatedAt : Z;
}.

Record TradeCreatePayload : Type := {
  p_tradeId : string;
  p_buyerAddress : jsval;
  p_sellerAddress : jsval;
  p_amountUsdc : option string;
  p_status : option TradeStatus;
  p_version : Z;
}.

(** The row an insert stores: the schema's defaults for the absent columns. *)
Definition rowOfPayload (p : TradeCreatePayload) (buyer seller : string) (now : Z) : TradeRow :=
  {| tradeId := p_tradeId p; buyerAddress := buyer; sellerAddress := seller;
     amountUsdc := default "0"%string (p_amountUsdc p); version := p_version p;
     status := default CREATED (p_status p); fundedAt := None; deliveredAt := None;
     completedAt := None; updatedAt := now |}.

(** [{ status, version: { increment: 1 }, updatedAt }]; an [undefined] status is not written. *)
Definition setTradeStatus (s : option TradeStatus) (now : Z) (t : TradeRow) : TradeRow :=
  {| tradeId := tradeId t; buyerAddress := buyerAddress t; sellerAddress := sellerAddress t;
     amountUsdc := amountUsdc t; version := version t + 1; status := default (status t) s;
     fundedAt := fundedAt t; deliveredAt := deliveredAt t; completedAt := completedAt t;
     updatedAt := now |}.

Record DisputeRow : Type := {
  d_tradeId : string;
  d_initiator : string;
  d_reason : string;
  d_status : DisputeStatus;
  d_version : Z;
  d_resolvedAt : option Z;
}.

Definition resolveRow (now : Z) (d : DisputeRow) : DisputeRow :=
  {| d_tradeId := d_tradeId d; d_initiator := d_initiator d; d_reason := d_reason d;
     d_status := RESOLVED; d_version := d_version d + 1; d_resolvedAt := Some now |}.

Record ClawbackRow : Type := {
  c_streamId : string; c_admin : string; c_amount : string; c_txHash : string; c_timestamp : Z;
}.

(** ** Effects and errors *)

Record EscrowEvent : Type := {
  e_tradeId : string; e_eventType : EventType; e_toStatus : TradeStatus;
  e_ledger : Z; e_contractId : string; e_actor : option jsval;
  e_amountUsdc : option string; e_extra : list (string * jsval);
}.

Inductive effect : Type :=
| LogEscrowEvent (e : EscrowEvent)
| RecordTradeFunnelEvent (stage : string)
| RecordTradeGmv (amount stage : string)
| WebhookDispatch (tradeId : string) (status : TradeStatus) (ledger : Z).

Inductive handler_error : Type :=
| PrismaCode (code : string)
| PrismaValidation
| ConcurrencyConflict.

(** [event.data.k] *)
Definition field (event : ParsedEvent) (k : string) : jsval := lookupField k (data event).

(** [v || ""] *)
Definition orEmpty (v : jsval) : jsval := if isTruthy v then v else VStr "".

(** [v || undefined] *)
Definition truthyOrUndefined (v : jsval) : option jsval := if isTruthy v then Some v else None.

(** [v != null ? String(v) : undefined] *)
Definition amountOf (event : ParsedEvent) : option string :=
  let v := field event "amount_usdc" in if isNullish v then None else Some (toStr v).

Section Handlers.
Context {TT TD TC : Type} `{!Table string TradeRow TT, !Table string DisputeRow TD,
  !Table (string * string) ClawbackRow TC}.
Context (isUser isStream : string → bool).

Record Tx : Type := mkTx { trades : TT; disputes : TD; clawbacks : TC }.

(** What other transactions commit between two statements of a handler. *)
Record Interference : Type := { between : TT → TT; betweenDisputes : TD → TD }.

(** ** Trades *)

(** [upsert({ where, update, create })]. The client rejects a [create] whose
    address columns are not strings before it runs; the insert needs both
    addresses to be users. *)
Definition upsertTrade (trades : TT) (tid : string) (p : TradeCreatePayload) (now : Z) : result handler_error TT :=
  match p_buyerAddress p, p_sellerAddress p with
  | VStr buyer, VStr seller =>
      match update tid (setTradeStatus (p_status p) now) trades with
      | Some (_, trades') => Ok trades'
      | None =>
          if negb (isUser buyer && isUser seller) then Err (PrismaCode "P2003")
          else match create (p_tradeId p) (rowOfPayload p buyer seller now) trades with
               | Some trades' => Ok trades'
               | None => Err (PrismaCode "P2002")
               end
      end
  | _, _ => Err PrismaValidation
  end.

Definition applyStatusTransition (between : TT → TT) (tx : TT) (event : ParsedEvent)
    (createPayload : TradeCreatePayload) (now : Z) : result handler_error TT :=
  match findUnique (ev_tradeId event) tx with
  | None => upsertTrade (between tx) (ev_tradeId event) createPayload now
  | Some existing =>
      match VALID_PREDECESSORS (eventType event) with
      | None => Ok (between tx)
      | Some preds =>
          if negb (bool_decide (status existing ∈ preds)) then Ok (between tx)
          else
            let res := updateMany
              (λ t, bool_decide (tradeId t = ev_tradeId event ∧ status t = status existing
                                 ∧ version t = version existing))
              (setTradeStatus (EVENT_TO_STATUS (eventType event)) now) (between tx) in
            if res.1 =? 0 then Err ConcurrencyConflict else Ok res.2
      end
  end.

(** The payload of every handler but [handleTradeCreated]. *)
Definition bareTrade (event : ParsedEvent) : TradeCreatePayload :=
  {| p_tradeId := ev_tradeId event; p_buyerAddress := VStr ""; p_sellerAddress := VStr "";
     p_amountUsdc := None; p_status := EVENT_TO_STATUS (eventType event); p_version := 1 |}.

Definition logOf (event : ParsedEvent) (ty : EventType) (to : TradeStatus) (actor : option jsval)
    (amount : option string) (extra : list (string * jsval)) : effect :=
  LogEscrowEvent {| e_tradeId := ev_tradeId event; e_eventType := ty; e_toStatus := to;
    e_ledger := ledgerSequence event; e_contractId := contractId event; e_actor := actor;
    e_amountUsdc := amount; e_extra := extra |}.

Definition webhook (event : ParsedEvent) (s : TradeStatus) : effect :=
  WebhookDispatch (ev_tradeId event) s (ledgerSequence event).

Abbreviation handlerResult := (result handler_error (Tx * list effect)).

Definition handleTradeCreated (other : Interference) (tx : Tx) (event : ParsedEvent) (now : Z) : handlerResult :=
  trades' ← applyStatusTransition (between other) (trades tx) event
    {| p_tradeId := ev_tradeId event; p_buyerAddress := orEmpty (field event "buyer");
       p_sellerAddress := orEmpty (field event "seller");
       p_amountUsdc := Some (toStr (orElse (orElse (field event "amount_usdc") (field event "amount")) (VStr "0")));
       p_status := EVENT_TO_STATUS (eventType event); p_version := 1 |} now;
  Ok (mkTx trades' (disputes tx) (clawbacks tx),
      [logOf event TradeCreated CREATED (truthyOrUndefined (field event "buyer")) (amountOf event)
         [("seller", field event "seller")]%string;
       RecordTradeFunnelEvent "created"; webhook event CREATED]).

Definition handleTradeFunded (other : Interference) (tx : Tx) (event : ParsedEvent) (now : Z) : handlerResult :=
  trades' ← applyStatusTransition (between other) (trades tx) event (bareTrade event) now;
  Ok (mkTx trades' (disputes tx) (clawbacks tx),
      [logOf event TradeFunded FUNDED None (amountOf event) [("note", VStr "funds_locked_in_escrow")]%string;
       RecordTradeFunnelEvent "funded"; webhook event FUNDED]).

Definition handleDeliveryConfirmed (other : Interference) (tx : Tx) (event : ParsedEvent) (now : Z) : handlerResult :=
  trades' ← applyStatusTransition (between other) (trades tx) event (bareTrade event) now;
  Ok (mkTx trades' (disputes tx) (clawbacks tx),
      [logOf event DeliveryConfirmed DELIVERED None None [];
       RecordTradeFunnelEvent "delivered"; webhook event DELIVERED]).

Definition handleFundsReleased (other : Interference) (tx : Tx) (event : ParsedEvent) (now : Z) : handlerResult :=
  trades' ← applyStatusTransition (between other) (trades tx) event (bareTrade event) now;
  Ok (mkTx trades' (disputes tx) (clawbacks tx),
      [logOf event FundsReleased COMPLETED None (amountOf event) [("note", VStr "funds_released_to_seller")]%string;
       RecordTradeFunnelEvent "released"; RecordTradeGmv (default "0"%string (amountOf event)) "released";
       webhook event COMPLETED]).

(** ** Disputes *)

(** The insert of a dispute row: the trade and the initiator must exist. *)
Definition createDispute (trades : TT) (disputes : TD) (row : DisputeRow) : result handler_error TD :=
  match findUnique (d_tradeId row) trades with
  | None => Err (PrismaCode "P2003")
  | Some _ =>
      if negb (isUser (d_initiator row)) then Err (PrismaCode "P2003")
      else match create (d_tradeId row) row disputes with
           | Some disputes' => Ok disputes'
           | None => Err (PrismaCode "P2002")
           end
  end.

Definition syncDisputeFromEvent (between : TD → TD) (trades : TT) (disputes : TD) (event : ParsedEvent) (resolved : bool)
    (now : Z) : result handler_error TD :=
  let existing := findUnique (ev_tradeId event) disputes in
  let disputes := between disputes in
  if negb resolved then
    match existing with
    | None => createDispute trades disputes
        {| d_tradeId := ev_tradeId event;
           d_initiator := storedAddress (toStr (orElse (field event "initiator") (VStr "")));
           d_reason := toStr (orElse (field event "reason") (VStr "Dispute initiated on-chain"));
           d_status := OPEN; d_version := 0; d_resolvedAt := None |}
    | Some _ => Ok disputes
    end
  else
    match existing with
    | Some _ => Ok (updateMany (λ d, bool_decide (d_tradeId d = ev_tradeId event ∧ d_status d = OPEN))
                      (resolveRow now) disputes).2
    | None => Ok disputes
    end.

Definition handleDisputeInitiated (other : Interference) (tx : Tx) (event : ParsedEvent) (now : Z) : handlerResult :=
  trades' ← applyStatusTransition (between other) (trades tx) event (bareTrade event) now;
  disputes' ← syncDisputeFromEvent (betweenDisputes other) trades' (disputes tx) event false now;
  Ok (mkTx trades' disputes' (clawbacks tx),
      [logOf event DisputeInitiated DISPUTED (truthyOrUndefined (field event "initiator")) None
         [("reason", field event "reason")]%string;
       RecordTradeFunnelEvent "disputed"; webhook event DISPUTED]).

Definition handleDisputeResolved (other : Interference) (tx : Tx) (event : ParsedEvent) (now : Z) : handlerResult :=
  trades' ← applyStatusTransition (between other) (trades tx) event (bareTrade event) now;
  disputes' ← syncDisputeFromEvent (betweenDisputes other) trades' (disputes tx) event true now;
  Ok (mkTx trades' disputes' (clawbacks tx),
      [logOf event DisputeResolved COMPLETED (truthyOrUndefined (field event "resolver")) None
         [("resolution", field event "resolution")]%string;
       webhook event COMPLETED]).

(** ** Clawbacks *)

Definition handleStreamClawback (tx : Tx) (event : ParsedEvent) (now : Z) : handlerResult :=
  let streamId := toStr (orElse (orElse (field event "stream_id") (field event "streamId"))
                                (VStr (ev_tradeId event))) in
  let admin := toStr (orElse (field event "admin") (VStr "")) in
  let amount := toStr (orElse (field event "amount") (VStr "0")) in
  if bool_decide (streamId = ""%string) then Ok (tx, [])
  else
    let log := LogEscrowEvent {| e_tradeId := streamId; e_eventType := StreamClawback; e_toStatus := CANCELLED;
      e_ledger := ledgerSequence event; e_contractId := contractId event; e_actor := Some (VStr admin);
      e_amountUsdc := Some amount; e_extra := [("stream_id", VStr streamId)]%string |} in
    match findUnique (streamId, eventId event) (clawbacks tx) with
    | Some _ => Ok (tx, [log])
    | None =>
        if negb (isStream streamId) then Err (PrismaCode "P2003")
        else match create (streamId, eventId event)
          {| c_streamId := streamId; c_admin := admin; c_amount := amount; c_txHash := eventId event;
             c_timestamp := now |} (clawbacks tx) with
        | Some c' => Ok (mkTx (trades tx) (disputes tx) c', [log])
        | None => Err (PrismaCode "P2002")
        end
    end.

Definition dispatchEvent (other : Interference) (tx : Tx) (event : ParsedEvent) (now : Z) : handlerResult :=
  match eventType event with
  | TradeCreated => handleTradeCreated other tx event now
  | TradeFunded => handleTradeFunded other tx event now
  | DeliveryConfirmed => handleDeliveryConfirmed other tx event now
  | FundsReleased => handleFundsReleased other tx event now
  | DisputeInitiated => handleDisputeInitiated other tx event now
  | DisputeResolved => handleDisputeResolved other tx event now
  | StreamClawback => handleStreamClawback tx event now
  end.
End Handlers.

(** ** Correctness *)

(** The lifecycle the events drive. *)
Inductive edge : TradeStatus → TradeStatus → Prop :=
| edge_funded : edge CREATED FUNDED
| edge_delivered : edge FUNDED DELIVERED
| edge_released : edge DELIVERED COMPLETED
| edge_disputed s : s = FUNDED ∨ s = DELIVERED → edge s DISPUTED
| edge_resolved : edge DISPUTED COMPLETED.

Definition accepts (e : EventType) (s : TradeStatus) : bool :=
  match VALID_PREDECESSORS e with Some l => bool_decide (s ∈ l) | None => false end.

Lemma accepts_edge e s : accepts e s = true → ∃ s', EVENT_TO_STATUS e = Some s' ∧ edge s s'.
Proof.
  unfold accepts, VALID_PREDECESSORS, EVENT_TO_STATUS.
  destruct e; rewrite ?bool_decide_eq_true, ?elem_of_cons, ?elem_of_nil; intros H; try done;
    eexists; (split; [reflexivity|]); destruct s; (constructor || naive_solver); naive_solver.
Qed.

(** An accepted event takes the trade to a status it does not accept again. *)
Lemma accepts_once e s' : EVENT_TO_STATUS e = Some s' → accepts e s' = false.
Proof. destruct e; intros [= <-]; reflexivity. Qed.

(** A trade no event accepts. *)
Lemma stuck_status e s :
  s = PENDING_SIGNATURE ∨ s = COMPLETED ∨ s = CANCELLED ∨ s = EXPIRED → accepts e s = false.
Proof. destruct e; intros [->|[->|[->| ->]]]; reflexivity. Qed.

Section Spec.
Context {TT TD TC : Type} `{!Table string TradeRow TT, !Table string DisputeRow TD,
  !Table (string * string) ClawbackRow TC,
  !TableLaws string TradeRow TT, !TableLaws string DisputeRow TD, !TableLaws (string * string) ClawbackRow TC}.
Context (isUser isStream : string → bool).

(** Rows carry their own key. *)
Definition keyedTrades (t : TT) : Prop := ∀ k r, findUnique k t = Some r → tradeId r = k.
Definition keyedDisputes (t : TD) : Prop := ∀ k r, findUnique k t = Some r → d_tradeId r = k.

(** The handler runs alone. *)
Definition alone : Interference (TT := TT) (TD := TD) := {| between := λ t, t; betweenDisputes := λ t, t |}.

Definition applied (event : ParsedEvent) (now : Z) (t : TradeRow) : TradeRow :=
  if accepts (eventType event) (status t)
  then setTradeStatus (EVENT_TO_STATUS (eventType event)) now t else t.

(** A guarded update of one row of a keyed table. *)
Lemma updateMany_trade (tx : TT) tid t (f : TradeRow → TradeRow) :
  keyedTrades tx → findUnique tid tx = Some t →
  let p := λ r, bool_decide (tradeId r = tid ∧ status r = status t ∧ version r = version t) in
  0 < (updateMany p f tx).1 ∧ findUnique tid (updateMany p f tx).2 = Some (f t) ∧
  ∀ k, k ≠ tid → findUnique k (updateMany p f tx).2 = findUnique k tx.
Proof.
  intros Hk Ht p.
  assert (Hp : p t = true) by (unfold p; apply bool_decide_eq_true; by rewrite (Hk _ _ Ht)).
  split_and!.
  - apply (updateMany_hit (K := string)). eauto.
  - rewrite (updateMany_rows (K := string)), Ht. cbn. by rewrite Hp.
  - intros k Hne. rewrite (updateMany_rows (K := string)).
    destruct (findUnique k tx) as [r|] eqn:Hr; [|done]. cbn.
    destruct (p r) eqn:Hpr; [|done]. unfold p in Hpr. zb. destruct Hpr as [Htid _].
    by rewrite (Hk _ _ Hr) in Htid.
Qed.

Lemma applyStatusTransition_existing (tx : TT) event payload now t :
  keyedTrades tx → findUnique (ev_tradeId event) tx = Some t →
  ∃ tx', applyStatusTransition isUser (λ t, t) tx event payload now = Ok tx' ∧
    findUnique (ev_tradeId event) tx' = Some (applied event now t) ∧
    ∀ k, k ≠ ev_tradeId event → findUnique k tx' = findUnique k tx.
Proof.
  intros Hk Ht. unfold applyStatusTransition, applied, accepts. rewrite Ht.
  destruct (VALID_PREDECESSORS (eventType event)) as [preds|]; [|by exists tx].
  destruct (bool_decide (status t ∈ preds)); cbn [negb]; [|by exists tx]. cbv zeta.
  destruct (updateMany_trade tx _ t (setTradeStatus (EVENT_TO_STATUS (eventType event)) now) Hk Ht) as (Hc & Hrow & Ho).
  rewrite (proj2 (Z.eqb_neq _ 0)) by lia. eauto.
Qed.

Lemma applyStatusTransition_absent (tx : TT) event payload now :
  findUnique (ev_tradeId event) tx = None → p_tradeId payload = ev_tradeId event →
  ∀ buyer seller, p_buyerAddress payload = VStr buyer → p_sellerAddress payload = VStr seller →
  if isUser buyer && isUser seller then
    ∃ tx', applyStatusTransition isUser (λ t, t) tx event payload now = Ok tx' ∧
      findUnique (ev_tradeId event) tx' = Some (rowOfPayload payload buyer seller now) ∧
      ∀ k, k ≠ ev_tradeId event → findUnique k tx' = findUnique k tx
  else applyStatusTransition isUser (λ t, t) tx event payload now = Err (PrismaCode "P2003").
Proof.
  intros Ht Hid buyer seller Hb Hs. unfold applyStatusTransition, upsertTrade.
  rewrite Ht, Hb, Hs, update_missing by done.
  destruct (isUser buyer && isUser seller); cbn [negb]; [|done]. rewrite Hid.
  destruct (create_free (ev_tradeId event) (rowOfPayload payload buyer seller now) tx Ht) as (tx' & -> & Hrow & Ho).
  eauto.
Qed.

(** What a successful transition did, whichever branch it took. *)
Lemma applyStatusTransition_Ok (tx tx' : TT) event payload now :
  keyedTrades tx → p_tradeId payload = ev_tradeId event →
  applyStatusTransition isUser (λ t, t) tx event payload now = Ok tx' →
  (∀ k, k ≠ ev_tradeId event → findUnique k tx' = findUnique k tx) ∧
  match findUnique (ev_tradeId event) tx with
  | Some t => findUnique (ev_tradeId event) tx' = Some (applied event now t)
  | None => ∃ b s, isUser b = true ∧ isUser s = true ∧
      findUnique (ev_tradeId event) tx' = Some (rowOfPayload payload b s now)
  end.
Proof.
  intros Hk Hid Hok. destruct (findUnique (ev_tradeId event) tx) as [t|] eqn:Ht.
  - destruct (applyStatusTransition_existing tx event payload now t Hk Ht) as (tx1 & H1 & Hrow & Ho).
    rewrite Hok in H1. injection H1 as <-. done.
  - pose proof (applyStatusTransition_absent tx event payload now Ht Hid) as Ha.
    destruct (p_buyerAddress payload) as [| | | | |b|] eqn:Hb, (p_sellerAddress payload) as [| | | | |s|] eqn:Hs;
      try (unfold applyStatusTransition, upsertTrade in Hok; rewrite Ht, Hb, ?Hs in Hok; done).
    specialize (Ha b s eq_refl eq_refl). destruct (isUser b && isUser s) eqn:Hu; [|congruence].
    destruct Ha as (tx1 & H1 & Hrow & Ho). rewrite Hok in H1. injection H1 as <-. zb. naive_solver.
Qed.

(** Every handler but the clawback one is a status transition followed by effects
    on the other tables. *)
Lemma dispatch_transition (other : Interference) (tx tx' : Tx) event now effs :
  dispatchEvent (TT := TT) (TD := TD) (TC := TC) isUser isStream other tx event now = Ok (tx', effs) →
  (eventType event = StreamClawback ∧ trades tx' = trades tx) ∨
  (∃ payload, p_tradeId payload = ev_tradeId event ∧ p_status payload = EVENT_TO_STATUS (eventType event) ∧
    p_version payload = 1 ∧
    applyStatusTransition isUser (between other) (trades tx) event payload now = Ok (trades tx')).
Proof.
  unfold dispatchEvent. destruct (eventType event) eqn:He.
  7: { left. split; [done|]. unfold handleStreamClawback in *. cbv zeta in *.
       case_ifs_in H. 1: by simplify_eq.
       all: destruct (findUnique _ (clawbacks tx)); [by simplify_eq|].
       all: try done. destruct (create _ _ _); by simplify_eq. }
  all: right; unfold handleTradeCreated, handleTradeFunded, handleDeliveryConfirmed, handleFundsReleased,
         handleDisputeInitiated, handleDisputeResolved, bareTrade in *; inv_ok; simplify_eq;
       eexists; (split_and!; [..|cbn [trades]; eassumption]); rewrite ?He; reflexivity.
Qed.

(** A transaction commits, or is rolled back when its handler throws. *)
Definition commit (tx : Tx (TT := TT) (TD := TD) (TC := TC)) (e : ParsedEvent * Z) : Tx :=
  match dispatchEvent isUser isStream alone tx e.1 e.2 with Ok (tx', _) => tx' | Err _ => tx end.

Definition run (tx : Tx) (es : list (ParsedEvent * Z)) : Tx := foldl commit tx es.

Lemma commit_trades tx e : keyedTrades (trades tx) →
  keyedTrades (trades (commit tx e)) ∧
  ∀ k t, findUnique k (trades tx) = Some t →
    findUnique k (trades (commit tx e)) = Some t ∨
    (k = ev_tradeId e.1 ∧ accepts (eventType e.1) (status t) = true ∧
     findUnique k (trades (commit tx e)) = Some (setTradeStatus (EVENT_TO_STATUS (eventType e.1)) e.2 t)).
Proof.
  intros Hk. unfold commit. destruct (dispatchEvent _ _ _ tx e.1 e.2) as [[tx' effs]|] eqn:Hd; [|by eauto].
  apply dispatch_transition in Hd as [[_ ->]|(payload & Hid & _ & _ & Ha)]; [by eauto|].
  apply applyStatusTransition_Ok in Ha as [Ho Hrow]; [|done..]. split.
  - intros k r Hr. destruct (decide (k = ev_tradeId e.1)) as [->|Hne]; [|rewrite Ho in Hr by done; eauto].
    destruct (findUnique (ev_tradeId e.1) (trades tx)) as [t|] eqn:Ht.
    + rewrite Hrow in Hr. injection Hr as <-. unfold applied. case_ifs; cbn; eauto.
    + destruct Hrow as (b & s & _ & _ & Hrow). rewrite Hrow in Hr. by injection Hr as <-.
  - intros k t Ht. destruct (decide (k = ev_tradeId e.1)) as [->|Hne]; [|left; by rewrite Ho].
    rewrite Ht in Hrow. unfold applied in Hrow. case_ifs_in Hrow; [right|left]; eauto.
Qed.

(** The path of one trade through a run. *)
Lemma run_lifecycle (tx : Tx) (es : list (ParsedEvent * Z)) k t :
  keyedTrades (trades tx) → findUnique k (trades tx) = Some t →
  ∃ t', findUnique k (trades (run tx es)) = Some t' ∧
    version t ≤ version t' ∧ nsteps edge (Z.to_nat (version t' - version t)) (status t) (status t') ∧
    buyerAddress t' = buyerAddress t ∧ sellerAddress t' = sellerAddress t ∧ amountUsdc t' = amountUsdc t ∧
    (version t' = version t → t' = t).
Proof.
  unfold run. revert tx t. induction es as [|e es IH]; intros tx t Hk Ht; cbn [foldl].
  { exists t. rewrite Z.sub_diag. split_and!; [done|lia|constructor|done..]. }
  destruct (commit_trades tx e Hk) as [Hk' Hc]. destruct (Hc k t Ht) as [Ht'|(-> & Hacc & Ht')].
  { by apply IH. }
  apply accepts_edge in Hacc as (s' & Hs' & Hedge). rewrite Hs' in Ht'.
  destruct (IH _ _ Hk' Ht') as (t' & Hfin & Hv & Hn & Hb & Hs & Ha & _). cbn in Hv, Hn, Hb, Hs, Ha.
  exists t'. split_and!; [done|lia| |done..|lia].
  replace (Z.to_nat (version t' - version t)) with (S (Z.to_nat (version t' - (version t + 1)))) by lia.
  by econstructor.
Qed.

(** Events only ever move a trade forward through its lifecycle. After any
    sequence of contract events, in any order and with any repetitions, a trade
    that existed is still there with the same parties and amount, and its
    optimistic version counts exactly the lifecycle edges
    (CREATED - FUNDED - DELIVERED - COMPLETED, with the DISPUTED detour) it took. *)
Theorem lifecycle_forward (tx : Tx) (es : list (ParsedEvent * Z)) k t :
  keyedTrades (trades tx) → findUnique k (trades tx) = Some t →
  ∃ t', findUnique k (trades (run tx es)) = Some t' ∧
    version t ≤ version t' ∧ nsteps edge (Z.to_nat (version t' - version t)) (status t) (status t') ∧
    buyerAddress t' = buyerAddress t ∧ sellerAddress t' = sellerAddress t ∧ amountUsdc t' = amountUsdc t ∧
    (version t' = version t → t' = t).
Proof. apply run_lifecycle. Qed.

(** COMPLETED, CANCELLED and EXPIRED trades are final for the chain events, and so
    is PENDING_SIGNATURE: no event, not even [TradeCreated], ever moves a trade out
    of the status the API creates it in. *)
Theorem unmoved_statuses (tx : Tx) (es : list (ParsedEvent * Z)) k t :
  keyedTrades (trades tx) → findUnique k (trades tx) = Some t →
  status t = PENDING_SIGNATURE ∨ status t = COMPLETED ∨ status t = CANCELLED ∨ status t = EXPIRED →
  findUnique k (trades (run tx es)) = Some t.
Proof.
  unfold run. intros Hk Ht Hst. revert tx Hk Ht. induction es as [|e es IH]; intros tx Hk Ht; [done|]. cbn [foldl].
  destruct (commit_trades tx e Hk) as [Hk' Hc]. destruct (Hc k t Ht) as [Ht'|(_ & Hacc & _)]; [by apply IH|].
  by rewrite stuck_status in Hacc.
Qed.

(** Optimistic locking: if another transaction changes the trade's status or
    version between the read and the write of an accepted event, the handler
    throws (so its transaction rolls back) and does not overwrite that change. *)
Theorem transition_conflict_detected (other : TT → TT) (tx : TT) event payload now t t' :
  keyedTrades tx → keyedTrades (other tx) →
  findUnique (ev_tradeId event) tx = Some t → accepts (eventType event) (status t) = true →
  findUnique (ev_tradeId event) (other tx) = Some t' → (status t' ≠ status t ∨ version t' ≠ version t) →
  applyStatusTransition isUser other tx event payload now = Err ConcurrencyConflict.
Proof.
  intros Hk Hk' Ht Hacc Ht' Hne. unfold applyStatusTransition, accepts in *. rewrite Ht.
  destruct (VALID_PREDECESSORS (eventType event)) as [preds|]; [|done]. rewrite Hacc. cbn [negb]. cbv zeta.
  match goal with |- context [updateMany ?p ?f ?x] =>
    pose proof (updateMany_count (K := string) p f x); pose proof (updateMany_hit (K := string) p f x) as Hhit;
    destruct (Z.eqb_spec (updateMany p f x).1 0); [done|] end.
  destruct (proj1 Hhit ltac:(lia)) as (k & r & Hr & Hp). zb. destruct Hp as (Hid & Hs & Hv).
  rewrite (Hk' _ _ Hr) in Hid. subst k. rewrite Ht' in Hr. simplify_eq. naive_solver.
Qed.

(** ** Errors of a handler that runs alone *)

Lemma applyStatusTransition_not_P2002 (tx : TT) event payload now :
  p_tradeId payload = ev_tradeId event →
  applyStatusTransition isUser (λ t, t) tx event payload now ≠ Err (PrismaCode "P2002").
Proof.
  intros Hid. unfold applyStatusTransition. destruct (findUnique (ev_tradeId event) tx) as [t|] eqn:Ht.
  - destruct (VALID_PREDECESSORS _); [|done]. case_ifs; done.
  - unfold upsertTrade. destruct (p_buyerAddress payload), (p_sellerAddress payload); try done.
    rewrite update_missing, Hid by done. case_ifs; [done|].
    match goal with |- context [create ?k ?v ?t] => destruct (create_free k v t Ht) as (t' & -> & _) end. done.
Qed.

Lemma sync_not_P2002 (t : TT) (d : TD) event resolved now :
  syncDisputeFromEvent isUser (λ d, d) t d event resolved now ≠ Err (PrismaCode "P2002").
Proof.
  unfold syncDisputeFromEvent. cbv zeta. destruct resolved; cbn [negb]; [by destruct (findUnique _ d)|].
  destruct (findUnique (ev_tradeId event) d) eqn:Hd; [done|]. unfold createDispute. cbn [d_tradeId].
  destruct (findUnique _ t); [|done]. case_ifs; [done|].
  match goal with |- context [create ?k ?v d] => destruct (create_free k v d Hd) as (t' & -> & _) end. done.
Qed.

(** A handler that runs alone never violates a unique constraint. *)
Lemma dispatch_not_P2002 (tx : Tx) event now :
  dispatchEvent (TC := TC) isUser isStream alone tx event now ≠ Err (PrismaCode "P2002").
Proof.
  unfold dispatchEvent. destruct (eventType event) eqn:He.
  7: { unfold handleStreamClawback. cbv zeta. case_bool_decide; [done|].
       destruct (findUnique _ (clawbacks tx)) eqn:Hc; [done|]. case_ifs; [done|].
       match goal with |- context [create ?k ?v ?c] => destruct (create_free k v c Hc) as (c' & -> & _) end. done. }
  all: unfold handleTradeCreated, handleTradeFunded, handleDeliveryConfirmed, handleFundsReleased,
         handleDisputeInitiated, handleDisputeResolved; cbn [alone between betweenDisputes].
  all: intros H; apply bind_Err in H as [H|(t' & _ & H)];
       [by eapply applyStatusTransition_not_P2002; [|exact H]|]; try done.
  all: apply bind_Err in H as [H|(d' & _ & H)]; [by eapply sync_not_P2002|done].
Qed.

(** ** Replay *)

(** Databases with the same rows. *)
Definition sameRows (a b : Tx (TT := TT) (TD := TD) (TC := TC)) : Prop :=
  (∀ k : string, findUnique k (trades a) = findUnique k (trades b)) ∧
  (∀ k : string, findUnique k (disputes a) = findUnique k (disputes b)) ∧
  (∀ k : string * string, findUnique k (clawbacks a) = findUnique k (clawbacks b)).

#[global] Instance sameRows_equiv : Equivalence sameRows.
Proof.
  split.
  - intros a. by split_and!.
  - intros a b (? & ? & ?). by split_and!.
  - intros a b c (H1 & H2 & H3) (H4 & H5 & H6). split_and!; intros k; by rewrite ?H1, ?H2, ?H3.
Qed.

Lemma transition_replay (tx tx1 : TT) event payload now1 now2 : keyedTrades tx →
  p_tradeId payload = ev_tradeId event → p_status payload = EVENT_TO_STATUS (eventType event) →
  applyStatusTransition isUser (λ t, t) tx event payload now1 = Ok tx1 →
  ∃ tx2, applyStatusTransition isUser (λ t, t) tx1 event payload now2 = Ok tx2 ∧
    ∀ k, findUnique k tx2 = findUnique k tx1.
Proof.
  intros Hk Hid Hst Ha. pose proof (applyStatusTransition_Ok _ _ _ _ _ Hk Hid Ha) as [Ho Hrow].
  assert (Hr : ∃ t1, findUnique (ev_tradeId event) tx1 = Some t1 ∧ tradeId t1 = ev_tradeId event ∧
                     accepts (eventType event) (status t1) = false).
  { destruct (findUnique (ev_tradeId event) tx) as [t|] eqn:Ht.
    - eexists. split; [exact Hrow|]. unfold applied. destruct (accepts (eventType event) (status t)) eqn:Hacc.
      + split; [exact (Hk _ _ Ht)|]. apply accepts_edge in Hacc as (s' & Hs' & _). rewrite Hs'. by apply accepts_once.
      + split; [exact (Hk _ _ Ht)|done].
    - destruct Hrow as (b & s & _ & _ & Hrow). eexists. split; [exact Hrow|]. split; [exact Hid|]. cbn.
      rewrite Hst. destruct (EVENT_TO_STATUS (eventType event)) eqn:He; [by apply accepts_once|].
      unfold accepts. destruct (eventType event); done. }
  destruct Hr as (t1 & Ht1 & Hid1 & Hacc1).
  assert (Hk1 : keyedTrades tx1).
  { intros k r Hkr. destruct (decide (k = ev_tradeId event)) as [->|Hne].
    - rewrite Ht1 in Hkr. by injection Hkr as <-.
    - rewrite Ho in Hkr by done. eauto. }
  destruct (applyStatusTransition_existing tx1 event payload now2 t1 Hk1 Ht1) as (tx2 & H2 & Hrow2 & Ho2).
  exists tx2. split; [done|]. intros k. destruct (decide (k = ev_tradeId event)) as [->|Hne]; [|by apply Ho2].
  rewrite Hrow2, Ht1. unfold applied. by rewrite Hacc1.
Qed.

Lemma sync_replay (t1 t2 : TT) (d d1 : TD) event resolved now1 now2 :
  syncDisputeFromEvent isUser (λ d, d) t1 d event resolved now1 = Ok d1 →
  ∃ d2, syncDisputeFromEvent isUser (λ d, d) t2 d1 event resolved now2 = Ok d2 ∧
    ∀ k, findUnique k d2 = findUnique k d1.
Proof.
  unfold syncDisputeFromEvent. cbv zeta. destruct resolved; cbn [negb].
  - destruct (findUnique (ev_tradeId event) d) as [r|] eqn:Hr; intros [= <-].
    + match goal with |- context [updateMany ?p (resolveRow now1) d] => set (P := p) end.
      destruct (findUnique (ev_tradeId event) (updateMany P (resolveRow now1) d).2) eqn:He.
      2: { exfalso. rewrite (updateMany_rows (K := string)), Hr in He. done. }
      eexists. split; [reflexivity|]. intros k. rewrite !(updateMany_rows (K := string)).
      destruct (findUnique k d) as [x|]; [|done]. cbn. destruct (P x) eqn:Hp; [|by rewrite Hp].
      assert (P (resolveRow now1 x) = false) as -> by (unfold P; apply bool_decide_eq_false; cbn; naive_solver).
      done.
    + exists d. by rewrite Hr.
  - destruct (findUnique (ev_tradeId event) d) as [r|] eqn:Hr.
    { intros [= <-]. exists d. by rewrite Hr. }
    unfold createDispute at 1. cbn [d_tradeId d_initiator].
    destruct (findUnique (ev_tradeId event) t1); [|done]. destruct (isUser _); cbn [negb]; [|done].
    destruct (create _ _ d) as [d'|] eqn:Hc; [|done]. intros [= <-].
    apply create_inv in Hc as (_ & Hrow & _). exists d'. by rewrite Hrow.
Qed.

(** Redelivery is harmless: processing an event a second time succeeds, emits the
    same effects, and leaves every row of every table as the first time left it. *)
Theorem dispatch_idempotent (tx tx1 : Tx) event now1 now2 effs :
  keyedTrades (trades tx) →
  dispatchEvent isUser isStream alone tx event now1 = Ok (tx1, effs) →
  ∃ tx2, dispatchEvent isUser isStream alone tx1 event now2 = Ok (tx2, effs) ∧ sameRows tx2 tx1.
Proof.
  intros Hk. unfold dispatchEvent. destruct (eventType event) eqn:He.
  7: { unfold handleStreamClawback. cbv zeta. set (sid := toStr _) at 1.
       change (toStr (orElse (orElse (field event "stream_id") (field event "streamId")) (VStr (ev_tradeId event)))) with sid.
       case_bool_decide; [intros [= <- <-]; exists tx; by split|].
       destruct (findUnique (sid, eventId event) (clawbacks tx)) eqn:Hf.
       { intros [= <- <-]. exists tx. by rewrite Hf. }
       destruct (isStream sid); cbn [negb]; [|done]. destruct (create _ _ (clawbacks tx)) as [c'|] eqn:Hc; [|done].
       intros [= <- <-]. apply create_inv in Hc as (_ & Hrow & _). cbn [clawbacks]. rewrite Hrow. by eexists. }
  all: unfold handleTradeCreated, handleTradeFunded, handleDeliveryConfirmed, handleFundsReleased,
         handleDisputeInitiated, handleDisputeResolved; intros Hd; inv_ok; simplify_eq; cbn [trades disputes clawbacks alone between betweenDisputes] in *.
  all: match goal with H : applyStatusTransition _ _ _ _ ?p _ = Ok _ |- _ =>
         destruct (transition_replay _ _ event p now1 now2 Hk eq_refl eq_refl H) as (t2 & -> & Ht2) end;
       cbn [mbind result_bind].
  5,6: match goal with H : syncDisputeFromEvent _ _ _ _ _ _ _ = Ok _ |- _ =>
         destruct (sync_replay _ t2 _ _ event _ now1 now2 H) as (d2 & -> & Hd2) end; cbn [mbind result_bind].
  all: eexists; (split; [reflexivity|]); by split_and!.
Qed.

(** ** Disputes and notifications *)

(** A dispute opened on-chain takes a FUNDED or DELIVERED trade to DISPUTED and,
    unless the dispute was already recorded, inserts it as OPEN with the event's
    initiator and reason. The insert needs the initiator to be a known user, so an
    event that carries no initiator makes the whole transaction fail unless there
    is a user with the empty address. *)
Theorem disputeInitiated_spec (tx : Tx) event now t :
  keyedTrades (trades tx) → eventType event = DisputeInitiated →
  findUnique (ev_tradeId event) (trades tx) = Some t → status t = FUNDED ∨ status t = DELIVERED →
  findUnique (ev_tradeId event) (disputes tx) = None →
  let initiator := storedAddress (toStr (orElse (field event "initiator") (VStr ""))) in
  if isUser initiator then
    ∃ tx' effs d, dispatchEvent isUser isStream alone tx event now = Ok (tx', effs) ∧
      findUnique (ev_tradeId event) (trades tx') = Some (setTradeStatus (Some DISPUTED) now t) ∧
      findUnique (ev_tradeId event) (disputes tx') = Some d ∧
      d_status d = OPEN ∧ d_initiator d = initiator ∧ d_version d = 0
  else dispatchEvent isUser isStream alone tx event now = Err (PrismaCode "P2003").
Proof.
  intros Hk He Ht Hst Hd. cbv zeta. unfold dispatchEvent, handleDisputeInitiated. rewrite He. cbn [alone between betweenDisputes].
  destruct (applyStatusTransition_existing (trades tx) event (bareTrade event) now t Hk Ht) as (t' & -> & Hrow & _).
  assert (Happ : applied event now t = setTradeStatus (Some DISPUTED) now t).
  { unfold applied. rewrite He. destruct Hst as [-> | ->]; reflexivity. }
  rewrite Happ in Hrow. cbn [mbind result_bind]. unfold syncDisputeFromEvent. cbn [negb]. cbv zeta. rewrite Hd.
  unfold createDispute. cbn [d_tradeId d_initiator]. rewrite Hrow.
  destruct (isUser _) eqn:Hu; cbn [negb mbind result_bind]; [|done].
  match goal with |- context [create ?k ?r ?d] =>
    destruct (create_free k r d Hd) as (d' & -> & Hrow' & _) end.
  cbn [mbind result_bind]. eexists _, _, _. split; [reflexivity|]. split_and!; [exact Hrow|exact Hrow'|done..].
Qed.

(** When the chain resolves a dispute the trade is completed, but the dispute row
    is only resolved if it is still OPEN: a dispute under review keeps its status,
    its version and an empty [resolvedAt]. *)
Theorem disputeResolved_spec (tx : Tx) event now t d :
  keyedTrades (trades tx) → keyedDisputes (disputes tx) → eventType event = DisputeResolved →
  findUnique (ev_tradeId event) (trades tx) = Some t → status t = DISPUTED →
  findUnique (ev_tradeId event) (disputes tx) = Some d →
  ∃ tx' effs, dispatchEvent isUser isStream alone tx event now = Ok (tx', effs) ∧
    findUnique (ev_tradeId event) (trades tx') = Some (setTradeStatus (Some COMPLETED) now t) ∧
    findUnique (ev_tradeId event) (disputes tx') =
      Some (if bool_decide (d_status d = OPEN) then resolveRow now d else d).
Proof.
  intros Hk Hkd He Ht Hst Hd. unfold dispatchEvent, handleDisputeResolved. rewrite He. cbn [alone between betweenDisputes].
  destruct (applyStatusTransition_existing (trades tx) event (bareTrade event) now t Hk Ht) as (t' & -> & Hrow & _).
  assert (Happ : applied event now t = setTradeStatus (Some COMPLETED) now t).
  { unfold applied. by rewrite He, Hst. }
  rewrite Happ in Hrow. cbn [mbind result_bind]. unfold syncDisputeFromEvent. cbn [negb]. cbv zeta. rewrite Hd.
  cbn [mbind result_bind]. eexists _, _. split; [reflexivity|]. split; [exact Hrow|]. cbn [disputes].
  rewrite (updateMany_rows (K := string)), Hd. cbn. f_equal.
  pose proof (Hkd _ _ Hd) as Hid. case_bool_decide; case_bool_decide; naive_solver.
Qed.

(** An event for a trade the backend has never seen is not stored: the bare row
    the handlers build refers to a user with the empty address, so unless one
    exists every event but [TradeCreated] and [StreamClawback] fails. *)
Theorem unknown_trade_rejected (tx : Tx) event now :
  findUnique (ev_tradeId event) (trades tx) = None → isUser "" = false →
  eventType event ≠ TradeCreated → eventType event ≠ StreamClawback →
  dispatchEvent isUser isStream alone tx event now = Err (PrismaCode "P2003").
Proof.
  intros Ht Hu H1 H2.
  pose proof (applyStatusTransition_absent (trades tx) event (bareTrade event) now Ht eq_refl "" "" eq_refl eq_refl) as Ha.
  rewrite Hu in Ha. cbn [andb] in Ha. unfold dispatchEvent.
  destruct (eventType event); try done;
    unfold handleTradeFunded, handleDeliveryConfirmed, handleFundsReleased, handleDisputeInitiated, handleDisputeResolved;
    cbn [alone between]; by rewrite Ha.
Qed.

(** A release event the lifecycle does not accept (the trade is not DELIVERED)
    leaves the trade as it is, yet still announces it: subscribers are sent a
    COMPLETED webhook for a trade whose status did not change. *)
Theorem ignored_release_still_announced (tx : Tx) event now t :
  keyedTrades (trades tx) → eventType event = FundsReleased →
  findUnique (ev_tradeId event) (trades tx) = Some t → status t ≠ DELIVERED →
  ∃ tx' effs, dispatchEvent isUser isStream alone tx event now = Ok (tx', effs) ∧
    findUnique (ev_tradeId event) (trades tx') = Some t ∧
    WebhookDispatch (ev_tradeId event) COMPLETED (ledgerSequence event) ∈ effs.
Proof.
  intros Hk He Ht Hst. unfold dispatchEvent, handleFundsReleased. rewrite He. cbn [alone between].
  destruct (applyStatusTransition_existing (trades tx) event (bareTrade event) now t Hk Ht) as (t' & -> & Hrow & _).
  assert (Happ : applied event now t = t).
  { unfold applied, accepts. rewrite He. cbn [VALID_PREDECESSORS]. by rewrite bool_decide_eq_false_2 by set_solver. }
  rewrite Happ in Hrow. cbn [mbind result_bind]. eexists _, _. split; [reflexivity|]. split; [exact Hrow|].
  unfold webhook. set_solver.
Qed.
End Spec.

(** ** Witnesses *)

Definition sampleTrade (s : TradeStatus) : TradeRow :=
  {| tradeId := "t1"; buyerAddress := "GB"; sellerAddress := "GS"; amountUsdc := "10"; version := 1; status := s;
     fundedAt := None; deliveredAt := None; completedAt := None; updatedAt := 5 |}.
Definition sampleDisputeRow : DisputeRow :=
  {| d_tradeId := "t1"; d_initiator := "GB"; d_reason := "late"; d_status := UNDER_REVIEW; d_version := 1; d_resolvedAt := None |}.
Definition sampleEvent (e : EventType) : ParsedEvent :=
  {| eventType := e; ev_tradeId := "t1"; ledgerSequence := 100; contractId := "C"; eventId := "e1";
     data := [("initiator", VStr "GB")]%string |}.
Definition sampleUser (a : string) : bool := bool_decide (a ∈ ["GB"; "GS"; "gb"]%string).

Abbreviation DB := (Tx (TT := gmap string TradeRow) (TD := gmap string DisputeRow) (TC := gmap (string * string) ClawbackRow)).
Definition sampleTx (s : TradeStatus) : DB :=
  mkTx ({[ "t1"%string := sampleTrade s ]} : gmap string TradeRow) (∅ : gmap string DisputeRow) (∅ : gmap (string * string) ClawbackRow).
Definition disputedTx : DB :=
  mkTx ({[ "t1"%string := sampleTrade DISPUTED ]} : gmap string TradeRow)
    ({[ "t1"%string := sampleDisputeRow ]} : gmap string DisputeRow) (∅ : gmap (string * string) ClawbackRow).

Lemma sampleTx_keyed s : keyedTrades (trades (sampleTx s)).
Proof. intros k r H. unfold sampleTx in H. cbn in H. apply lookup_singleton_Some in H as [<- <-]. reflexivity. Qed.

Lemma disputedTx_keyed : keyedTrades (trades disputedTx) ∧ keyedDisputes (disputes disputedTx).
Proof. split; intros k r H; unfold disputedTx in H; cbn in H; apply lookup_singleton_Some in H as [<- <-]; reflexivity. Qed.

Lemma lifecycle_forward_witness :
  ∃ t', findUnique "t1"%string (trades (run sampleUser (λ _, true) (sampleTx CREATED)
      [(sampleEvent FundsReleased, 9); (sampleEvent TradeFunded, 10); (sampleEvent DisputeInitiated, 11)])) = Some t' ∧
    1 ≤ version t'.
Proof.
  destruct (lifecycle_forward sampleUser (λ _, true) (sampleTx CREATED)
    [(sampleEvent FundsReleased, 9); (sampleEvent TradeFunded, 10); (sampleEvent DisputeInitiated, 11)]
    "t1" (sampleTrade CREATED) (sampleTx_keyed CREATED) ltac:(reflexivity)) as (t' & H & Hv & _).
  exists t'. split; [exact H|exact Hv].
Defined.

Lemma unmoved_statuses_witness :
  findUnique "t1"%string (trades (run sampleUser (λ _, true) (sampleTx PENDING_SIGNATURE)
      [(sampleEvent TradeCreated, 9); (sampleEvent TradeFunded, 10)])) = Some (sampleTrade PENDING_SIGNATURE).
Proof.
  apply (unmoved_statuses sampleUser (λ _, true) (sampleTx PENDING_SIGNATURE)
    [(sampleEvent TradeCreated, 9); (sampleEvent TradeFunded, 10)] "t1" (sampleTrade PENDING_SIGNATURE)
    (sampleTx_keyed PENDING_SIGNATURE)); [reflexivity|by left].
Defined.

Lemma transition_conflict_detected_witness :
  applyStatusTransition sampleUser (λ _, trades (sampleTx FUNDED)) (trades (sampleTx CREATED))
    (sampleEvent TradeFunded) (bareTrade (sampleEvent TradeFunded)) 9 = Err ConcurrencyConflict.
Proof.
  apply (transition_conflict_detected sampleUser (λ _, trades (sampleTx FUNDED)) (trades (sampleTx CREATED))
    (sampleEvent TradeFunded) (bareTrade (sampleEvent TradeFunded)) 9 (sampleTrade CREATED) (sampleTrade FUNDED)
    (sampleTx_keyed CREATED) (sampleTx_keyed FUNDED)); try reflexivity. by left.
Defined.

Definition onceDisputed : DB :=
  commit sampleUser (λ _, true) (sampleTx FUNDED) (sampleEvent DisputeInitiated, 9).

Lemma dispatch_idempotent_witness :
  ∃ tx2 effs, dispatchEvent sampleUser (λ _, true) alone onceDisputed (sampleEvent DisputeInitiated) 12 = Ok (tx2, effs) ∧
    sameRows tx2 onceDisputed.
Proof.
  unfold onceDisputed, commit. cbn [fst snd].
  destruct (dispatchEvent sampleUser (λ _, true) alone (sampleTx FUNDED) (sampleEvent DisputeInitiated) 9)
    as [[tx1 effs]|] eqn:Hd; [|vm_compute in Hd; discriminate Hd].
  destruct (dispatch_idempotent sampleUser (λ _, true) (sampleTx FUNDED) tx1 (sampleEvent DisputeInitiated) 9 12 effs
    (sampleTx_keyed FUNDED) Hd) as (tx2 & H & Hs).
  exists tx2, effs. split; [exact H|exact Hs].
Defined.

Lemma disputeInitiated_spec_witness :
  ∃ tx' effs d, dispatchEvent sampleUser (λ _, true) alone (sampleTx FUNDED) (sampleEvent DisputeInitiated) 9 = Ok (tx', effs) ∧
    findUnique "t1"%string (trades tx') = Some (setTradeStatus (Some DISPUTED) 9 (sampleTrade FUNDED)) ∧
    findUnique "t1"%string (disputes tx') = Some d ∧ d_status d = OPEN ∧ d_initiator d = "gb"%string ∧ d_version d = 0.
Proof.
  apply (disputeInitiated_spec sampleUser (λ _, true) (sampleTx FUNDED) (sampleEvent DisputeInitiated) 9 (sampleTrade FUNDED)
    (sampleTx_keyed FUNDED)); try reflexivity. by left.
Defined.

Lemma disputeResolved_spec_witness :
  ∃ tx' effs, dispatchEvent sampleUser (λ _, true) alone disputedTx (sampleEvent DisputeResolved) 9 = Ok (tx', effs) ∧
    findUnique "t1"%string (trades tx') = Some (setTradeStatus (Some COMPLETED) 9 (sampleTrade DISPUTED)) ∧
    findUnique "t1"%string (disputes tx') = Some sampleDisputeRow.
Proof.
  apply (disputeResolved_spec sampleUser (λ _, true) disputedTx (sampleEvent DisputeResolved) 9 (sampleTrade DISPUTED)
    sampleDisputeRow (proj1 disputedTx_keyed) (proj2 disputedTx_keyed)); reflexivity.
Defined.

Lemma unknown_trade_rejected_witness :
  dispatchEvent sampleUser (λ _, true) alone
    (mkTx (∅ : gmap string TradeRow) (∅ : gmap string DisputeRow) (∅ : gmap (string * string) ClawbackRow))
    (sampleEvent TradeFunded) 9 = Err (PrismaCode "P2003").
Proof. apply unknown_trade_rejected; reflexivity || done. Defined.

Lemma ignored_release_still_announced_witness :
  ∃ tx' effs, dispatchEvent sampleUser (λ _, true) alone (sampleTx FUNDED) (sampleEvent FundsReleased) 9 = Ok (tx', effs) ∧
    findUnique "t1"%string (trades tx') = Some (sampleTrade FUNDED) ∧ WebhookDispatch "t1" COMPLETED 100 ∈ effs.
Proof.
  apply (ignored_release_still_announced sampleUser (λ _, true) (sampleTx FUNDED) (sampleEvent FundsReleased) 9
    (sampleTrade FUNDED) (sampleTx_keyed FUNDED)); done.
Defined.
