(* ===== verification/AuditTrail.v ===== *)
(** * The history of a trade

    [services/auditTrail.service.ts]: the events of a trade assembled from its
    rows, redacted for the caller and put in order, and the signed canonical
    payload the audit export carries. The Ed25519 operations and SHA-256 are
    arguments with the law that a signature made with the private key verifies
    with the public one; the text that is signed is modelled in full. *)

From S2P Require Import Prelude JsString JsValue Json Dates Prisma.
From S2P Require AdminGate AuditChain EventHandlers.
Import EventHandlers(TradeStatus(..), TradeStatus_eq_dec).

(** ** Events *)

Inductive TradeEventType : Type :=
| EvCreated | EvFunded | EvManifestSubmitted | EvVideoSubmitted | EvDeliveryConfirmed | EvDisputeInitiated
| EvEvidenceSubmitted | EvResolved | EvCompleted.

Definition eventTypeText (t : TradeEventType) : string :=
  match t with
  | EvCreated => "CREATED" | EvFunded => "FUNDED" | EvManifestSubmitted => "MANIFEST_SUBMITTED"
  | EvVideoSubmitted => "VIDEO_SUBMITTED" | EvDeliveryConfirmed => "DELIVERY_CONFIRMED"
  | EvDisputeInitiated => "DISPUTE_INITIATED" | EvEvidenceSubmitted => "EVIDENCE_SUBMITTED"
  | EvResolved => "RESOLVED" | EvCompleted => "COMPLETED"
  end.

(** The [metadata] objects the service builds. *)
Inductive Metadata : Type :=
| MAmount (amount symbol amountUsdc : string)
| MNone
| MManifest (vehicleRegistration : string) (expectedDeliveryAt : Z)
| MEvidence (mimeType cid filename : string) (retentionExpired : bool)
| MReason (reason : string)
| MDisputeStatus (disputeStatus : string).

Record TradeEvent : Type := { eventType : TradeEventType; timestamp : Z; actor : string; metadata : Metadata }.

(** ** Rows *)

Record AuditTrade : Type := {
  tradeId : string; buyerAddress : string; sellerAddress : string; amountUsdc : string; status : TradeStatus;
  createdAt : Z; updatedAt : Z; fundedAt : option Z; deliveredAt : option Z; completedAt : option Z }.

Record Manifest : Type := { m_createdAt : Z; vehicleRegistration : string; expectedDeliveryAt : Z }.
Record Evidence : Type := { v_tradeId : string; v_createdAt : Z; mimeType : string; cid : string; filename : string; uploadedBy : string }.
Record DisputeRow : Type := { d_createdAt : Z; initiator : string; reason : string; d_status : string; resolvedAt : option Z }.

Inductive trail_error : Type := AuditTrailAccessDeniedError | AuditTrailTradeNotFoundError | AuditSigningConfigError (message : string).

(** ** Redaction *)

(** [process.env.EVIDENCE_METADATA_RETENTION_DAYS], or the validated setting. *)
Definition getEvidenceMetadataRetentionDays (raw : option string) (configured : Z) : Z :=
  match raw with
  | Some s => match parseInt s with JInt n => if 0 <? n then n else configured | _ => configured end
  | None => configured
  end.

Definition isEvidenceMetadataExpired (retentionDays now createdAt : Z) : bool :=
  retentionDays * 24 * 60 * 60 * 1000 <? now - createdAt.

Definition maskVehicleRegistration (value : string) : string :=
  let trimmed := trim value in
  if (strlen trimmed <=? 3)%nat then "***" else (take_chars 3 trimmed +:+ "***")%string.

Section Service.
Context {TT TM TE TD : Type} `{!Table string AuditTrade TT, !Table string Manifest TM, !Table Z Evidence TE, !Table string DisputeRow TD}.
Context (adminPubkeysRaw symbol : string) (retentionDays : Z).

Definition isVideo (mime : string) : bool := bool_decide (is_Some (stripPrefix "video/" mime)).

Definition evidenceEvent (isAdmin : bool) (now : Z) (ev : Evidence) : TradeEvent :=
  let expired := isEvidenceMetadataExpired retentionDays now (v_createdAt ev) in
  {| eventType := if isVideo (mimeType ev) then EvVideoSubmitted else EvEvidenceSubmitted; timestamp := v_createdAt ev;
     actor := if expired && negb isAdmin then "redacted" else uploadedBy ev;
     metadata := MEvidence (mimeType ev) (if expired then "redacted" else cid ev) (if expired then "redacted" else filename ev) expired |}.

Definition fundedStatuses : list TradeStatus := [FUNDED; DELIVERED; COMPLETED; DISPUTED; CANCELLED].
Definition deliveredStatuses : list TradeStatus := [DELIVERED; COMPLETED].

(** The events in the order they are pushed. *)
Definition assembled (isAdmin : bool) (now : Z) (trade : AuditTrade) (manifest : option Manifest) (evidence : list Evidence)
    (dispute : option DisputeRow) : list TradeEvent :=
  [{| eventType := EvCreated; timestamp := createdAt trade; actor := buyerAddress trade;
      metadata := MAmount (amountUsdc trade) symbol (amountUsdc trade) |}] ++
  (if bool_decide (status trade ∈ fundedStatuses) then
     [{| eventType := EvFunded; timestamp := default (updatedAt trade) (fundedAt trade); actor := buyerAddress trade; metadata := MNone |}] else []) ++
  (match manifest with
   | Some m => [{| eventType := EvManifestSubmitted; timestamp := m_createdAt m; actor := sellerAddress trade;
                   metadata := MManifest (if isAdmin then vehicleRegistration m else maskVehicleRegistration (vehicleRegistration m))
                                         (expectedDeliveryAt m) |}]
   | None => []
   end) ++
  map (evidenceEvent isAdmin now) evidence ++
  (if bool_decide (status trade ∈ deliveredStatuses) then
     [{| eventType := EvDeliveryConfirmed; timestamp := default (updatedAt trade) (deliveredAt trade); actor := buyerAddress trade; metadata := MNone |}] else []) ++
  (match dispute with
   | Some d =>
       {| eventType := EvDisputeInitiated; timestamp := d_createdAt d; actor := initiator d; metadata := MReason (reason d) |} ::
       match resolvedAt d with
       | Some t => [{| eventType := EvResolved; timestamp := t; actor := initiator d; metadata := MDisputeStatus (d_status d) |}]
       | None => []
       end
   | None => []
   end) ++
  (if bool_decide (status trade = COMPLETED) then
     [{| eventType := EvCompleted; timestamp := default (updatedAt trade) (completedAt trade); actor := sellerAddress trade; metadata := MNone |}] else []).

Definition byTime (a b : TradeEvent) : Z := timestamp a - timestamp b.

Definition evidenceOf (evidence : TE) (tid : string) : list Evidence :=
  js_sort (λ a b, v_createdAt a - v_createdAt b) (findMany (λ v, bool_decide (v_tradeId v = tid)) evidence).

Definition getTradeHistory (trades : TT) (manifests : TM) (evidence : TE) (disputes : TD) (tid callerAddress : string) (now : Z)
    : result trail_error (list TradeEvent) :=
  match findUnique tid trades with
  | None => Err AuditTrailTradeNotFoundError
  | Some trade =>
      let caller := toLowerCase callerAddress in
      let isBuyer := bool_decide (toLowerCase (buyerAddress trade) = caller) in
      let isSeller := bool_decide (toLowerCase (sellerAddress trade) = caller) in
      let isAdmin := bool_decide (caller ∈ AdminGate.getAdminAllowlistLowercase adminPubkeysRaw) in
      let dispute := findUnique tid disputes in
      let isMediator := negb isBuyer && negb isSeller && bool_decide (is_Some dispute) in
      if negb isBuyer && negb isSeller && negb isMediator && negb isAdmin then Err AuditTrailAccessDeniedError
      else Ok (js_sort byTime (assembled isAdmin now trade (findUnique tid manifests) (evidenceOf evidence tid) dispute))
  end.
End Service.

(** ** The signed payload *)

Definition TextOf (A : Type) : Type := A → string → string.
Definition booleanText (b : bool) (r : string) : string := (if b then "true" else "false") +:+ r.
Definition dateText (t : Z) (r : string) : string := quoted (toISOString t) r.

(** An object with one member, and one with further members after the first. *)
Definition comma (s : string) : string := String "," s.
Definition mem := AuditChain.member.

Definition metadataText (m : Metadata) (r : string) : string :=
  String "{" (match m with
  | MAmount a s u => mem "amount" (quoted a) (comma (mem "symbol" (quoted s) (comma (mem "amountUsdc" (quoted u) (String "}" r)))))
  | MNone => String "}" r
  | MManifest v e => mem "vehicleRegistration" (quoted v) (comma (mem "expectedDeliveryAt" (dateText e) (String "}" r)))
  | MEvidence mt c f x => mem "mimeType" (quoted mt) (comma (mem "cid" (quoted c) (comma (mem "filename" (quoted f)
      (comma (mem "retentionExpired" (booleanText x) (String "}" r)))))))
  | MReason s => mem "reason" (quoted s) (String "}" r)
  | MDisputeStatus s => mem "disputeStatus" (quoted s) (String "}" r)
  end).

Definition eventText (e : TradeEvent) (r : string) : string :=
  String "{" (mem "eventType" (quoted (eventTypeText (eventType e))) (comma (mem "timestamp" (dateText (timestamp e))
    (comma (mem "actor" (quoted (actor e)) (comma (mem "metadata" (metadataText (metadata e)) (String "}" r)))))))).

Fixpoint eventsText (es : list TradeEvent) (r : string) : string :=
  match es with
  | [] => String "]" r
  | [e] => eventText e (String "]" r)
  | e :: es => eventText e (comma (eventsText es r))
  end.

Record CanonicalAuditPayload : Type := { p_tradeId : string; generatedAt : Z; events : list TradeEvent }.
Definition getCanonicalPayload (tid : string) (es : list TradeEvent) (now : Z) : CanonicalAuditPayload :=
  {| p_tradeId := tid; generatedAt := now; events := es |}.

(** [JSON.stringify(payload)] *)
Definition payloadText (p : CanonicalAuditPayload) : string :=
  String "{" (mem "tradeId" (quoted (p_tradeId p)) (comma (mem "generatedAt" (dateText (generatedAt p))
    (comma (mem "events" (λ r, String "[" (eventsText (events p) r)) "}"))))).

Record AuditSigningConfig : Type := { keyId : option string; privateKeyPem : option string; publicKeyPem : option string }.
Record AuditIntegrityMetadata : Type := { i_keyId : string; payloadHash : string; signature : string }.

(** A setting that is missing or empty. *)
Definition setting (s : option string) : option string := match s with Some ""%string | None => None | Some s => Some s end.

Class Signer : Type := {
  sha256 : string → string;
  sign : string → string → string;              (* text, private key *)
  verify : string → string → string → bool;     (* text, public key, signature *)
}.

Section Signing.
Context `{!Signer} (cfg : AuditSigningConfig).

Definition signPayload (p : CanonicalAuditPayload) : result trail_error AuditIntegrityMetadata :=
  match setting (keyId cfg), setting (privateKeyPem cfg) with
  | Some k, Some priv => Ok {| i_keyId := k; payloadHash := sha256 (payloadText p); signature := sign (payloadText p) priv |}
  | _, _ => Err (AuditSigningConfigError "AUDIT_SIGNING_KEY_ID and AUDIT_SIGNING_PRIVATE_KEY_PEM are required")
  end.

Definition verifyPayload (p : CanonicalAuditPayload) (sig : string) : result trail_error bool :=
  match setting (publicKeyPem cfg) with
  | Some pub => Ok (verify (payloadText p) pub sig)
  | None => Err (AuditSigningConfigError "AUDIT_SIGNING_PUBLIC_KEY_PEM is required")
  end.
End Signing.

(** ** The text determines the payload *)

Lemma mem_inj k k' v v' r r' : mem k v r = mem k' v' r' → k = k' ∧ v r = v' r'.
Proof. unfold mem, AuditChain.member. intros [-> H]%AuditChain.quoted_inj. by apply AuditChain.String_inj in H. Qed.

Lemma comma_inj s s' : comma s = comma s' → s = s'.
Proof. apply AuditChain.String_inj. Qed.

Lemma dateText_inj t t' r r' : validTime t = true → validTime t' = true → dateText t r = dateText t' r' → t = t' ∧ r = r'.
Proof. unfold dateText. intros Ht Ht' [H ->]%AuditChain.quoted_inj. split; [|done]. by apply toISOString_inj. Qed.

Lemma booleanText_inj b b' r r' : booleanText b r = booleanText b' r' → b = b' ∧ r = r'.
Proof. destruct b, b'; unfold booleanText; intros H; try discriminate H; split; try done; by injection H. Qed.

Lemma eventTypeText_inj t t' : eventTypeText t = eventTypeText t' → t = t'.
Proof. destruct t, t'; intros H; first [reflexivity | discriminate H]. Qed.

(** The times of an event are dates. *)
Definition datedMetadata (m : Metadata) : Prop := match m with MManifest _ e => validTime e = true | _ => True end.
Definition dated (e : TradeEvent) : Prop := validTime (timestamp e) = true ∧ datedMetadata (metadata e).

(** Peels one member, or one separator, off an equation between two texts. *)
Ltac peel H :=
  repeat first
  [ let Hk := fresh in apply mem_inj in H as [Hk H]; try discriminate Hk; clear Hk
  | let Hk := fresh "Hq" in apply dateText_inj in H as [Hk H]; [|assumption|assumption]
  | let Hk := fresh "Hq" in apply AuditChain.quoted_inj in H as [Hk H]
  | let Hk := fresh "Hq" in apply booleanText_inj in H as [Hk H]
  | lazymatch type of H with
    | String _ _ = String _ _ => apply AuditChain.String_inj in H
    | comma _ = comma _ => apply comma_inj in H
    end ].

Lemma metadataText_inj m m' r r' : datedMetadata m → datedMetadata m' →
  metadataText m r = metadataText m' r' → m = m' ∧ r = r'.
Proof.
  destruct m, m'; unfold metadataText; cbn [datedMetadata]; intros Hm Hm' H; apply AuditChain.String_inj in H;
    try discriminate H; peel H; simplify_eq; done.
Qed.

Lemma eventText_inj e e' r r' : dated e → dated e' → eventText e r = eventText e' r' → e = e' ∧ r = r'.
Proof.
  destruct e, e'; unfold eventText, dated; cbn [eventType timestamp actor metadata]. intros [Ht Hm] [Ht' Hm'] H. peel H.
  apply metadataText_inj in H as [-> H]; [|done..]. peel H. apply eventTypeText_inj in Hq. by simplify_eq.
Qed.

Lemma eventsText_cons e es r : eventsText (e :: es) r = eventText e (match es with [] => String "]" r | _ => comma (eventsText es r) end).
Proof. by destruct es. Qed.

Lemma eventsText_inj es es' r r' : Forall dated es → Forall dated es' → eventsText es r = eventsText es' r' → es = es' ∧ r = r'.
Proof.
  intros Hes. revert es' r r'. induction Hes as [|e es He Hes IH]; intros es' r r' Hes' H.
  - destruct Hes' as [|e' es' He' _]; [by apply AuditChain.String_inj in H as ->|]. rewrite eventsText_cons in H. discriminate H.
  - destruct Hes' as [|e' es' He' Hes']; [rewrite eventsText_cons in H; discriminate H|].
    rewrite !eventsText_cons in H. apply eventText_inj in H as [-> H]; [|done..].
    destruct es as [|x es], es' as [|x' es']; try discriminate H.
    + by apply AuditChain.String_inj in H as ->.
    + apply comma_inj in H. by apply IH in H as [-> ->].
Qed.

(** C34: the signed text covers everything: two payloads with one canonical text have
    the same trade, time and events, in the same order, metadata included. *)
Theorem payload_text_injective p p' : validTime (generatedAt p) = true → validTime (generatedAt p') = true →
  Forall dated (events p) → Forall dated (events p') → payloadText p = payloadText p' → p = p'.
Proof.
  destruct p, p'; unfold payloadText; cbn [p_tradeId generatedAt events]. intros Ht Ht' He He' H.
  apply AuditChain.String_inj in H. apply mem_inj in H as [_ H]. apply AuditChain.quoted_inj in H as [-> H].
  apply comma_inj, mem_inj in H as [_ H]. apply dateText_inj in H as [-> H]; [|done..].
  apply comma_inj, mem_inj in H as [_ H]. apply AuditChain.String_inj in H. apply eventsText_inj in H as [-> _]; done.
Qed.

(** A signed payload verifies with the matching key, and the hash is of the signed text. *)
Theorem signed_payload_verifies `{!Signer} cfg priv pub p :
  (∀ t, verify t pub (sign t priv) = true) →
  setting (privateKeyPem cfg) = Some priv → setting (publicKeyPem cfg) = Some pub → is_Some (setting (keyId cfg)) →
  ∃ i, signPayload cfg p = Ok i ∧ verifyPayload cfg p (signature i) = Ok true ∧ payloadHash i = sha256 (payloadText p).
Proof.
  intros Hv Hp Hq [k Hk]. unfold signPayload, verifyPayload. rewrite Hk, Hp, Hq. eexists. split; [done|]. split; [|done].
  cbn. by rewrite Hv.
Qed.

(** ** Histories *)

Section Facts.
Context {TT TM TE TD : Type} `{!Table string AuditTrade TT, !Table string Manifest TM, !Table Z Evidence TE,
  !Table string DisputeRow TD}.
Context (adminPubkeysRaw symbol : string) (retentionDays : Z).

Lemma byTime_comparator : Comparator byTime.
Proof. apply (comparator_key Z.sub timestamp), comparator_sub. Qed.

Definition isAdmin (caller : string) : bool := bool_decide (toLowerCase caller ∈ AdminGate.getAdminAllowlistLowercase adminPubkeysRaw).
Definition party (caller : string) (t : AuditTrade) : Prop :=
  toLowerCase (buyerAddress t) = toLowerCase caller ∨ toLowerCase (sellerAddress t) = toLowerCase caller.

(** A history is given exactly to the parties, to administrators, and to anyone
    once the trade is disputed; it is the trade's events, each once, oldest first. *)
Theorem history_spec (trades : TT) (manifests : TM) (evidence : TE) (disputes : TD) tid caller now :
  match getTradeHistory adminPubkeysRaw symbol retentionDays trades manifests evidence disputes tid caller now with
  | Ok es => ∃ t, findUnique tid trades = Some t ∧
      (party caller t ∨ isAdmin caller = true ∨ is_Some (findUnique tid disputes)) ∧
      es ≡ₚ assembled symbol retentionDays (isAdmin caller) now t (findUnique tid manifests) (evidenceOf evidence tid) (findUnique tid disputes) ∧
      StronglySorted (cmp_le byTime) es
  | Err AuditTrailTradeNotFoundError => findUnique tid trades = None
  | Err AuditTrailAccessDeniedError => ∃ t, findUnique tid trades = Some t ∧
      ¬ party caller t ∧ isAdmin caller = false ∧ findUnique tid disputes = None
  | Err _ => False
  end.
Proof.
  unfold getTradeHistory, party, isAdmin. destruct (findUnique tid trades) as [t|] eqn:Ht; [|done]. cbv zeta.
  destruct (bool_decide_reflect (toLowerCase (buyerAddress t) = toLowerCase caller)) as [Hb|Hb],
    (bool_decide_reflect (toLowerCase (sellerAddress t) = toLowerCase caller)) as [Hs|Hs],
    (bool_decide_reflect (is_Some (findUnique tid disputes))) as [Hd|Hd],
    (bool_decide_reflect (toLowerCase caller ∈ AdminGate.getAdminAllowlistLowercase adminPubkeysRaw)) as [Ha|Ha]; cbn [negb andb].
  all: try (exists t; split; [done|]; split; [tauto|]; split; [apply js_sort_perm|];
            apply js_sort_sorted; [apply comparator_total, byTime_comparator|apply (cmp_le_trans byTime byTime_comparator)]).
  exists t. split_and!; [done|tauto|done|]. destruct (findUnique tid disputes); [exfalso; eauto|done].
Qed.

(** What each event of a history comes from. *)
Lemma assembled_elem admin now t mf evs d e :
  e ∈ assembled symbol retentionDays admin now t mf evs d ↔
  e = {| eventType := EvCreated; timestamp := createdAt t; actor := buyerAddress t;
         metadata := MAmount (amountUsdc t) symbol (amountUsdc t) |} ∨
  (status t ∈ fundedStatuses ∧
   e = {| eventType := EvFunded; timestamp := default (updatedAt t) (fundedAt t); actor := buyerAddress t; metadata := MNone |}) ∨
  (∃ m, mf = Some m ∧
   e = {| eventType := EvManifestSubmitted; timestamp := m_createdAt m; actor := sellerAddress t;
          metadata := MManifest (if admin then vehicleRegistration m else maskVehicleRegistration (vehicleRegistration m)) (expectedDeliveryAt m) |}) ∨
  (∃ v, v ∈ evs ∧ e = evidenceEvent retentionDays admin now v) ∨
  (status t ∈ deliveredStatuses ∧
   e = {| eventType := EvDeliveryConfirmed; timestamp := default (updatedAt t) (deliveredAt t); actor := buyerAddress t; metadata := MNone |}) ∨
  (∃ dr, d = Some dr ∧ e = {| eventType := EvDisputeInitiated; timestamp := d_createdAt dr; actor := initiator dr; metadata := MReason (reason dr) |}) ∨
  (∃ dr time, d = Some dr ∧ resolvedAt dr = Some time ∧
   e = {| eventType := EvResolved; timestamp := time; actor := initiator dr; metadata := MDisputeStatus (d_status dr) |}) ∨
  (status t = COMPLETED ∧
   e = {| eventType := EvCompleted; timestamp := default (updatedAt t) (completedAt t); actor := sellerAddress t; metadata := MNone |}).
Proof.
  unfold assembled. rewrite !elem_of_app, list_elem_of_singleton, list_elem_of_fmap.
  assert (Hif : ∀ (P : Prop) `{!Decision P} (x : TradeEvent), e ∈ (if bool_decide P then [x] else []) ↔ P ∧ e = x)
    by (intros P ? x; case_bool_decide; set_solver).
  rewrite !Hif. destruct mf as [m|], d as [dr|]; try destruct (resolvedAt dr) eqn:Hr; set_solver.
Qed.

Ltac origin H :=
  destruct H as [->|[[? ->]|[(? & ? & ->)|[(? & ? & ->)|[[? ->]|[(? & ? & ->)|[(? & ? & ? & ? & ->)|[? ->]]]]]]]].

Lemma history_ok (trades : TT) (manifests : TM) (evidence : TE) (disputes : TD) tid caller now es :
  getTradeHistory adminPubkeysRaw symbol retentionDays trades manifests evidence disputes tid caller now = Ok es →
  ∃ t, findUnique tid trades = Some t ∧ es = js_sort byTime (assembled symbol retentionDays (isAdmin caller) now t
    (findUnique tid manifests) (evidenceOf evidence tid) (findUnique tid disputes)).
Proof.
  unfold getTradeHistory. destruct (findUnique tid trades) as [t|]; [|done]. cbv zeta. fold (isAdmin caller).
  destruct (_ && _); [done|]. intros H. exists t. split; [done|]. congruence.
Qed.

(** Nobody but an administrator learns who uploaded evidence past its retention
    or more than three characters of a vehicle registration, and nobody at all
    learns the content identifier or file name of expired evidence. *)
Theorem history_redacted (trades : TT) (manifests : TM) (evidence : TE) (disputes : TD) tid caller now es e :
  getTradeHistory adminPubkeysRaw symbol retentionDays trades manifests evidence disputes tid caller now = Ok es → e ∈ es →
  match metadata e with
  | MEvidence _ c f expired =>
      ∃ v, v ∈ evidenceOf evidence tid ∧ expired = isEvidenceMetadataExpired retentionDays now (v_createdAt v) ∧
        (expired = true → c = "redacted"%string ∧ f = "redacted"%string ∧ (isAdmin caller = false → actor e = "redacted"%string)) ∧
        (expired = false → c = cid v ∧ f = filename v ∧ actor e = uploadedBy v)
  | MManifest reg _ => isAdmin caller = false →
      ∃ m, findUnique tid manifests = Some m ∧ (reg = "***"%string ∨ reg = (take_chars 3 (trim (vehicleRegistration m)) +:+ "***")%string)
  | _ => True
  end.
Proof.
  intros (t & _ & ->)%history_ok He. rewrite js_sort_elem, assembled_elem in He.
  destruct He as [->|[[_ ->]|[(m & Hm & ->)|[(v & Hv & ->)|[[_ ->]|[(d & _ & ->)|[(d & x & _ & _ & ->)|[_ ->]]]]]]]]; try done; cbn.
  - intros Ha. rewrite Ha. exists m. split; [done|]. unfold maskVehicleRegistration. case_ifs; auto.
  - exists v. split; [done|]. split; [done|].
    destruct (isEvidenceMetadataExpired _ _ _); split; intros; try done. cbn. split_and!; try done. intros Ha. by rewrite Ha.
Qed.

(** A cancelled trade's history says it was funded, also when it never was. *)
Theorem cancelled_trade_shows_funding (trades : TT) (manifests : TM) (evidence : TE) (disputes : TD) tid caller now es t :
  getTradeHistory adminPubkeysRaw symbol retentionDays trades manifests evidence disputes tid caller now = Ok es →
  findUnique tid trades = Some t → status t = CANCELLED → fundedAt t = None →
  {| eventType := EvFunded; timestamp := updatedAt t; actor := buyerAddress t; metadata := MNone |} ∈ es.
Proof.
  intros (t' & Ht' & ->)%history_ok Ht Hs Hf. rewrite Ht in Ht'. injection Ht' as <-.
  rewrite js_sort_elem, assembled_elem. right; left. rewrite Hs, Hf. split; [set_solver|done].
Qed.

(** Without [fundedAt], which no transition writes, the funding is dated by the
    row's last update: a manifest submitted before that update never comes
    after the funding that has to precede it. *)
Theorem funding_after_its_consequences (trades : TT) (manifests : TM) (evidence : TE) (disputes : TD) tid caller now t m a f b :
  getTradeHistory adminPubkeysRaw symbol retentionDays trades manifests evidence disputes tid caller now = Ok (a ++ f :: b) →
  findUnique tid trades = Some t → status t ∈ fundedStatuses → fundedAt t = None →
  findUnique tid manifests = Some m → m_createdAt m < updatedAt t → eventType f = EvFunded →
  Forall (λ g, eventType g ≠ EvManifestSubmitted) b ∧ Exists (λ g, eventType g = EvManifestSubmitted) a.
Proof.
  intros (t' & Ht' & Hes)%history_ok Ht Hs Hf Hm Hlt Hft. rewrite Ht in Ht'. injection Ht' as <-.
  assert (∀ e, e ∈ a ++ f :: b ↔ e ∈ assembled symbol retentionDays (isAdmin caller) now t (findUnique tid manifests)
    (evidenceOf evidence tid) (findUnique tid disputes)) as Hin by (intros e; by rewrite Hes, js_sort_elem).
  assert (timestamp f = updatedAt t) as Etf.
  { assert (f ∈ a ++ f :: b) as Hfi by set_solver. rewrite Hin, assembled_elem in Hfi.
    origin Hfi; try discriminate Hft; [by cbn; rewrite Hf|].
    unfold evidenceEvent in Hft. cbn in Hft. destruct (isVideo _); discriminate Hft. }
  assert (StronglySorted (cmp_le byTime) (a ++ f :: b)) as Hsort.
  { rewrite Hes. apply js_sort_sorted; [apply comparator_total, byTime_comparator|apply (cmp_le_trans byTime byTime_comparator)]. }
  apply StronglySorted_app_1_r in Hsort. inversion Hsort as [|?? _ Hall]; subst. rewrite Forall_forall in Hall.
  assert (∀ g, g ∈ b → eventType g ≠ EvManifestSubmitted) as Hb.
  { intros g Hg Hgt. specialize (Hall g Hg). assert (g ∈ a ++ f :: b) as Hgi by set_solver. rewrite Hin, assembled_elem in Hgi.
    origin Hgi; try discriminate Hgt.
    - unfold cmp_le, byTime in Hall. simplify_eq. cbn in Hall. lia.
    - unfold evidenceEvent in Hgt. cbn in Hgt. destruct (isVideo _); discriminate Hgt. }
  split; [by apply Forall_forall|]. apply Exists_exists.
  eexists. assert (Hg2 := proj2 (assembled_elem (isAdmin caller) now t (findUnique tid manifests)
    (evidenceOf evidence tid) (findUnique tid disputes) _) (or_intror (or_intror (or_introl (ex_intro _ m (conj Hm eq_refl)))))).
  rewrite <-Hin in Hg2. apply elem_of_app in Hg2 as [Hg2|[Hg2|Hg2]%elem_of_cons]; [by split; [exact Hg2|]|by rewrite <-Hg2 in Hft|by apply Hb in Hg2].
Qed.
End Facts.

(** ** Concrete runs *)

Definition sampleTrade (s : TradeStatus) : AuditTrade := {|
  tradeId := "T1"; buyerAddress := "gbuyer"; sellerAddress := "gseller"; amountUsdc := "100"; status := s;
  createdAt := 1000; updatedAt := 9000; fundedAt := None; deliveredAt := None; completedAt := None |}.
Definition sampleTrades (s : TradeStatus) : gmap string AuditTrade := {[ "T1"%string := sampleTrade s ]}.
Definition sampleManifest : Manifest := {| m_createdAt := 5000; vehicleRegistration := "LAG-123"; expectedDeliveryAt := 86400000 |}.
Definition sampleManifests : gmap string Manifest := {[ "T1"%string := sampleManifest ]}.
Definition sampleEvidence : gmap Z Evidence :=
  {[ 1 := {| v_tradeId := "T1"; v_createdAt := 4000; mimeType := "video/mp4"; cid := "bafy1"; filename := "a.mp4"; uploadedBy := "gseller" |} ]}.
Definition noDisputes : gmap string DisputeRow := ∅.
Definition sampleHistory (s : TradeStatus) (manifests : gmap string Manifest) (now : Z) : list TradeEvent :=
  match getTradeHistory "GADMIN" "cNGN" 1 (sampleTrades s) manifests sampleEvidence noDisputes "T1" "GBUYER" now with Ok es => es | Err _ => [] end.
Definition samplePayload : CanonicalAuditPayload := getCanonicalPayload "T1" (sampleHistory FUNDED sampleManifests 10000) 10000.

Definition datedMetadata_b (m : Metadata) : bool := match m with MManifest _ e => validTime e | _ => true end.
Definition dated_b (e : TradeEvent) : bool := validTime (timestamp e) && datedMetadata_b (metadata e).
Lemma dated_forallb es : forallb dated_b es = true → Forall dated es.
Proof.
  rewrite forallb_forall. intros H. apply Forall_forall. intros e He%list_elem_of_In%H. apply andb_true_iff in He as [H1 H2].
  split; [done|]. by destruct (metadata e).
Qed.

Example history_order :
  map (λ e, (eventTypeText (eventType e), timestamp e)) (sampleHistory FUNDED sampleManifests 10000) =
  [("CREATED"%string, 1000); ("VIDEO_SUBMITTED"%string, 4000); ("MANIFEST_SUBMITTED"%string, 5000); ("FUNDED"%string, 9000)].
Proof. vm_compute. reflexivity. Qed.

Lemma payload_text_injective_witness : samplePayload = getCanonicalPayload "T1" (sampleHistory FUNDED sampleManifests 10000) 10000.
Proof.
  apply (payload_text_injective samplePayload (getCanonicalPayload "T1" (sampleHistory FUNDED sampleManifests 10000) 10000));
    try (apply dated_forallb); vm_compute; reflexivity.
Defined.

#[local] Instance sampleSigner : Signer := {| sha256 s := s; sign t k := (k +:+ t)%string; verify t k g := bool_decide (g = (k +:+ t)%string) |}.
Definition sampleConfig : AuditSigningConfig := {| keyId := Some "k1"%string; privateKeyPem := Some "key"%string; publicKeyPem := Some "key"%string |}.

Lemma signed_payload_verifies_witness :
  ∃ i, signPayload sampleConfig samplePayload = Ok i ∧ verifyPayload sampleConfig samplePayload (signature i) = Ok true ∧
    payloadHash i = sha256 (payloadText samplePayload).
Proof.
  apply (signed_payload_verifies sampleConfig "key" "key" samplePayload); [|reflexivity|reflexivity|exists "k1"%string; reflexivity].
  intros t. apply bool_decide_eq_true. reflexivity.
Defined.

(** Two days on, with a retention of one day, the video event is redacted. *)
Lemma history_redacted_witness :
  let late := 4000 + 2 * 86400000 in
  let e := {| eventType := EvVideoSubmitted; timestamp := 4000; actor := "redacted";
              metadata := MEvidence "video/mp4" "redacted" "redacted" true |} in
  e ∈ sampleHistory FUNDED sampleManifests late ∧
  ∃ v, v ∈ evidenceOf sampleEvidence "T1" ∧ true = isEvidenceMetadataExpired 1 late (v_createdAt v) ∧
    (true = true → "redacted"%string = "redacted"%string ∧ "redacted"%string = "redacted"%string ∧
      (isAdmin "GADMIN" "GBUYER" = false → "redacted"%string = "redacted"%string)) ∧
    (true = false → "redacted"%string = cid v ∧ "redacted"%string = filename v ∧ "redacted"%string = uploadedBy v).
Proof.
  cbv zeta. assert (Hin : {| eventType := EvVideoSubmitted; timestamp := 4000; actor := "redacted";
    metadata := MEvidence "video/mp4" "redacted" "redacted" true |} ∈ sampleHistory FUNDED sampleManifests (4000 + 2 * 86400000)).
  { apply list_elem_of_In. vm_compute. tauto. }
  split; [exact Hin|].
  refine (history_redacted "GADMIN" "cNGN" 1 (sampleTrades FUNDED) sampleManifests sampleEvidence noDisputes "T1" "GBUYER"
    (4000 + 2 * 86400000) (sampleHistory FUNDED sampleManifests (4000 + 2 * 86400000)) _ _ Hin).
  vm_compute. reflexivity.
Defined.

Lemma cancelled_trade_shows_funding_witness :
  {| eventType := EvFunded; timestamp := 9000; actor := "gbuyer"; metadata := MNone |} ∈ sampleHistory CANCELLED ∅ 10000.
Proof.
  apply (cancelled_trade_shows_funding "GADMIN" "cNGN" 1 (sampleTrades CANCELLED) (∅ : gmap string Manifest) sampleEvidence noDisputes
    "T1" "GBUYER" 10000 (sampleHistory CANCELLED ∅ 10000) (sampleTrade CANCELLED)); vm_compute; reflexivity.
Defined.

Lemma funding_after_its_consequences_witness :
  let es := sampleHistory FUNDED sampleManifests 10000 in
  Forall (λ g, eventType g ≠ EvManifestSubmitted) [] ∧ Exists (λ g, eventType g = EvManifestSubmitted) (take 3 es).
Proof.
  cbv zeta. apply (funding_after_its_consequences "GADMIN" "cNGN" 1 (sampleTrades FUNDED) sampleManifests sampleEvidence noDisputes
    "T1" "GBUYER" 10000 (sampleTrade FUNDED) sampleManifest (take 3 (sampleHistory FUNDED sampleManifests 10000))
    {| eventType := EvFunded; timestamp := 9000; actor := "gbuyer"; metadata := MNone |} []);
  first [vm_compute; reflexivity | unfold fundedStatuses; cbn; set_solver].
Defined.
