(* ===== verification/Optimistic.v ===== *)
(** * Optimistic stores of the web client

    [frontend/src/stores/tradeStore.ts] and [frontend/src/lib/actionDedup.ts]; the
    operations the two stores share are generic in the item. A store action runs up to its first
    [await], leaves a flight behind, and is finished when the request settles;
    between the two other actions run, so a schedule is a sequence of begins and
    settles. Requests, the clock and random keys are arguments. *)

From S2P Require Import Prelude JsString Json.

(** ** De-duplication *)

Record Ids : Type := { correlationId : string; idempotencyKey : string }.
Record DedupEntry : Type := { key : string; ids : Ids; timestamp : Z }.

Definition DEDUP_WINDOW_MS : Z := 3000.

(** The module's map and counter, and the timers it has armed: key,
    correlation id and the time at which each is due. *)
Record Dedup : Type := { dedupMap : gmap string DedupEntry; correlationCounter : Z; timers : list (string * string * Z) }.

Definition getCorrelationId (now : Z) (d : Dedup) : string * Dedup :=
  let n := correlationCounter d + 1 in
  (("corr-" +:+ toString n +:+ "-" +:+ toString now)%string,
   {| dedupMap := dedupMap d; correlationCounter := n; timers := timers d |}).

Definition shouldDedup (actionKey : string) (now : Z) (d : Dedup) : option DedupEntry :=
  match dedupMap d !! actionKey with
  | Some e => if now - timestamp e <? DEDUP_WINDOW_MS then Some e else None
  | None => None
  end.

Definition registerAction (actionKey : string) (i : Ids) (now : Z) (d : Dedup) : Dedup :=
  {| dedupMap := <[actionKey := {| key := actionKey; ids := i; timestamp := now |}]> (dedupMap d);
     correlationCounter := correlationCounter d;
     timers := (actionKey, correlationId i, now + DEDUP_WINDOW_MS) :: timers d |}.

Definition clearDedup (actionKey : string) (d : Dedup) : Dedup :=
  {| dedupMap := delete actionKey (dedupMap d); correlationCounter := correlationCounter d; timers := timers d |}.

(** The [setTimeout] callback of the [n]th armed timer. *)
Definition fireTimer (n : nat) (d : Dedup) : Dedup :=
  match timers d !! n with
  | Some (k, c, _) =>
      {| dedupMap := match dedupMap d !! k with
                     | Some cur => if bool_decide (correlationId (ids cur) = c) then delete k (dedupMap d) else dedupMap d
                     | None => dedupMap d
                     end;
         correlationCounter := correlationCounter d; timers := take n (timers d) ++ drop (S n) (timers d) |}
  | None => d
  end.

(** ** The store *)

Record Store (A P : Type) : Type := {
  items : list A; total : Z; page : Z; statusFilter : option string; isLoading : bool; error : option string;
  pendingActions : gmap string P }.
Arguments items {A P} _. Arguments total {A P} _. Arguments page {A P} _. Arguments statusFilter {A P} _.
Arguments isLoading {A P} _. Arguments error {A P} _. Arguments pendingActions {A P} _.

Definition initialStore {A P} : Store A P :=
  {| items := []; total := 0; page := 1; statusFilter := None; isLoading := false; error := None; pendingActions := ∅ |}.

(** What an action keeps across its [await]. *)
Record Flight (A : Type) : Type := { actionKey : string; target : string; snapshot : option A; prevItems : list A; prevTotal : Z }.
Arguments actionKey {A} _. Arguments target {A} _. Arguments snapshot {A} _. Arguments prevItems {A} _. Arguments prevTotal {A} _.

Section Core.
Context {A P : Type} (matches : string → A → bool).

Definition withItems (l : list A) (n : Z) (p : gmap string P) (s : Store A P) : Store A P :=
  {| items := l; total := n; page := page s; statusFilter := statusFilter s; isLoading := isLoading s; error := error s; pendingActions := p |}.

Definition replaceWith (tid : string) (f : A → A) (l : list A) : list A := map (λ t, if matches tid t then f t else t) l.

(** [const next = { ...s.pendingActions }; delete next[actionKey]] *)
Definition clearPending (k : string) (s : Store A P) : Store A P := withItems (items s) (total s) (delete k (pendingActions s)) s.

(** The optimistic patch, and what is needed to take it back. *)
Definition beginUpdate (k tid : string) (patch : A → A) (pending : P) (s : Store A P) : Flight A * Store A P :=
  ({| actionKey := k; target := tid; snapshot := List.find (matches tid) (items s); prevItems := items s; prevTotal := total s |},
   withItems (replaceWith tid patch (items s)) (total s) (<[k := pending]> (pendingActions s)) s).

Definition rollbackUpdate (f : Flight A) (s : Store A P) : Store A P :=
  withItems (match snapshot f with Some t => replaceWith (target f) (λ _, t) (items s) | None => prevItems f end)
            (total s) (delete (actionKey f) (pendingActions s)) s.

Definition settleUpdate (f : Flight A) (succeeded : bool) (s : Store A P) : Store A P :=
  if succeeded then clearPending (actionKey f) s else rollbackUpdate f s.

Definition beginRemove (k tid : string) (pending : P) (s : Store A P) : Flight A * Store A P :=
  ({| actionKey := k; target := tid; snapshot := None; prevItems := items s; prevTotal := total s |},
   withItems (List.filter (λ t, negb (matches tid t)) (items s)) (total s - 1) (<[k := pending]> (pendingActions s)) s).

Definition settleRemove (f : Flight A) (succeeded : bool) (s : Store A P) : Store A P :=
  if succeeded then clearPending (actionKey f) s
  else withItems (prevItems f) (prevTotal f) (delete (actionKey f) (pendingActions s)) s.

Definition addItem (t : A) (s : Store A P) : Store A P := withItems (t :: items s) (total s + 1) (pendingActions s) s.

(** [fetch...] up to the request, which is sent with the page and filter then in
    the store, and what it does with the answer. *)
Definition beginFetch (s : Store A P) : Store A P :=
  {| items := items s; total := total s; page := page s; statusFilter := statusFilter s; isLoading := true; error := None;
     pendingActions := pendingActions s |}.

Definition settleFetch (answer : result string (list A * Z)) (s : Store A P) : Store A P :=
  match answer with
  | Ok (l, n) => {| items := l; total := n; page := page s; statusFilter := statusFilter s; isLoading := false; error := error s;
                    pendingActions := pendingActions s |}
  | Err m => {| items := items s; total := total s; page := page s; statusFilter := statusFilter s; isLoading := false; error := Some m;
                pendingActions := pendingActions s |}
  end.

Definition setPage (n : Z) (s : Store A P) : Store A P :=
  beginFetch {| items := items s; total := total s; page := n; statusFilter := statusFilter s; isLoading := isLoading s; error := error s;
                pendingActions := pendingActions s |}.

Definition setFilter (status : option string) (s : Store A P) : Store A P :=
  beginFetch {| items := items s; total := total s; page := 1; statusFilter := status; isLoading := isLoading s; error := error s;
                pendingActions := pendingActions s |}.
End Core.

(** The module state and one store. *)
Record App (A P : Type) : Type := { dedup : Dedup; store : Store A P }.
Arguments dedup {A P} _. Arguments store {A P} _.

(** An action that was a duplicate, was sent to the server, or is done. *)
Inductive Call (A : Type) : Type := Duplicate (e : DedupEntry) | InFlight (f : Flight A) (i : Ids) | Done.
Arguments Duplicate {A} _. Arguments InFlight {A} _ _. Arguments Done {A}.

(** [withDedup] up to the call of [fn]. *)
Definition withDedup (k uuid : string) (now : Z) (d : Dedup) : option Ids * Dedup :=
  match shouldDedup k now d with
  | Some _ => (None, d)
  | None => let '(c, d1) := getCorrelationId now d in
            let i := {| correlationId := c; idempotencyKey := uuid |} in
            (Some i, registerAction k i now d1)
  end.

(** ** Trades *)

Module TradeStore.

(** The members of a [TradeResponse] are texts and numbers; a number is kept by its text. *)
Inductive Field : Type := FText (s : string) | FNumber (s : string) | FNull | FUndefined.
#[export] Instance Field_eq_dec : EqDecision Field. Proof. solve_decision. Defined.

Definition Trade : Type := list (string * Field).
Definition Patch : Type := list (string * Field).

Fixpoint field (k : string) (t : Trade) : Field :=
  match t with [] => FUndefined | (k', v) :: t' => if bool_decide (k = k') then v else field k t' end.
Fixpoint assign (k : string) (v : Field) (t : Trade) : Trade :=
  match t with [] => [(k, v)] | (k', v') :: t' => if bool_decide (k = k') then (k, v) :: t' else (k', v') :: assign k v t' end.

(** [{ ...t, ...patch }] *)
Definition spread (patch : Patch) (t : Trade) : Trade := foldl (λ o '(k, v), assign k v o) t patch.

Definition hasId (tid : string) (t : Trade) : bool := bool_decide (field "tradeId" t = FText tid).

(** [JSON.stringify(patch)] *)
Definition fieldText (v : Field) (r : string) : string :=
  match v with FText s => quoted s r | FNumber s => (s +:+ r)%string | FNull => ("null" +:+ r)%string | FUndefined => r end.
Fixpoint membersText (first : bool) (p : Patch) : string :=
  match p with
  | [] => "}"
  | (_, FUndefined) :: p' => membersText first p'
  | (k, v) :: p' => let body := quoted k (String ":" (fieldText v (membersText false p'))) in if first then body else String "," body
  end.
Definition patchText (p : Patch) : string := String "{" (membersText true p).

Definition updateKey (tid : string) (p : Patch) : string := ("update:" +:+ tid +:+ ":" +:+ patchText p)%string.
Definition removeKey (tid : string) : string := ("remove:" +:+ tid)%string.

Notation app := (App Trade Ids).

Definition updateTrade (tid : string) (p : Patch) (hasServer : bool) (uuid : string) (now : Z) (w : app) : Call Trade * app :=
  let k := updateKey tid p in
  match shouldDedup k now (dedup w) with
  | Some e => (Duplicate e, w)
  | None =>
      let '(c, d1) := getCorrelationId now (dedup w) in
      let i := {| correlationId := c; idempotencyKey := uuid |} in
      let '(f, s) := beginUpdate hasId k tid (spread p) i (store w) in
      if hasServer then (InFlight f i, {| dedup := registerAction k i now d1; store := s |})
      else (Done, {| dedup := registerAction k i now d1; store := clearPending k s |})
  end.

Definition updateTradeOptimistic (tid : string) (p : Patch) (corr idem : option string) (uuid : string) (now : Z) (w : app) : Call Trade * app :=
  let '(c, d1) := match corr with Some c => (c, dedup w) | None => getCorrelationId now (dedup w) end in
  let i := {| correlationId := c; idempotencyKey := default uuid idem |} in
  let k := updateKey tid p in
  match shouldDedup k now d1 with
  | Some e => (Duplicate e, {| dedup := d1; store := store w |})
  | None =>
      let '(f, s) := beginUpdate hasId k tid (spread p) i (store w) in
      (InFlight f i, {| dedup := registerAction k i now d1; store := s |})
  end.

Definition removeTrade (tid : string) (hasServer : bool) (uuid : string) (now : Z) (w : app) : Call Trade * app :=
  let k := removeKey tid in
  match shouldDedup k now (dedup w) with
  | Some e => (Duplicate e, w)
  | None =>
      let '(c, d1) := getCorrelationId now (dedup w) in
      let i := {| correlationId := c; idempotencyKey := uuid |} in
      let '(f, s) := beginRemove hasId k tid i (store w) in
      if hasServer then (InFlight f i, {| dedup := registerAction k i now d1; store := s |})
      else (Done, {| dedup := registerAction k i now d1; store := clearPending k s |})
  end.

Definition resolveDisputeOptimistic (tid action : string) := updateTradeOptimistic tid [("status"%string, FText "SETTLED")].
Definition acceptDispute (tid : string) := resolveDisputeOptimistic tid "accept".
Definition rejectDispute (tid : string) := resolveDisputeOptimistic tid "reject".
End TradeStore.

(** ** One submission per window *)

(** Attempts to start an action, and timers that fire. *)
Inductive Tick : Type := Attempt (k uuid : string) (now : Z) | Fire (n : nat) (now : Z).
Definition timeOf (t : Tick) : Z := match t with Attempt _ _ now => now | Fire _ now => now end.

(** Time does not run backwards and no timer fires before it is due. *)
Fixpoint punctual (clock : Z) (ts : list Tick) (d : Dedup) : Prop :=
  match ts with
  | [] => True
  | t :: ts => clock ≤ timeOf t ∧
      match t with
      | Attempt k uuid now => punctual now ts (withDedup k uuid now d).2
      | Fire n now => (∀ k c due, timers d !! n = Some (k, c, due) → due ≤ now) ∧ punctual now ts (fireTimer n d)
      end
  end.

(** The attempts that are let through, with their times. *)
Fixpoint admitted (ts : list Tick) (d : Dedup) : list (string * Z) :=
  match ts with
  | [] => []
  | Attempt k uuid now :: ts =>
      match withDedup k uuid now d with
      | (Some _, d') => (k, now) :: admitted ts d'
      | (None, d') => admitted ts d'
      end
  | Fire n _ :: ts => admitted ts (fireTimer n d)
  end.

Definition freshDedup : Dedup := {| dedupMap := ∅; correlationCounter := 0; timers := [] |}.

Definition corrText (n t : Z) : string := ("corr-" +:+ toString n +:+ "-" +:+ toString t)%string.
Lemma corrText_inj n t n' t' : 0 ≤ n → 0 ≤ n' → corrText n t = corrText n' t' → n = n'.
Proof.
  intros Hn Hn' H. injection H as H. apply split_at_unique in H as [H _]; [by apply toString_inj|by apply toString_no_dash..].
Qed.

(** Correlation ids are numbered; a timer with the id of an entry is that entry's. *)
Record sound (d : Dedup) : Prop := {
  counted : 0 ≤ correlationCounter d;
  entryIds k e : dedupMap d !! k = Some e → ∃ n t, 0 ≤ n ≤ correlationCounter d ∧ correlationId (ids e) = corrText n t;
  timerIds k c due : (k, c, due) ∈ timers d → ∃ n t, 0 ≤ n ≤ correlationCounter d ∧ c = corrText n t;
  ownTimer k e c due : dedupMap d !! k = Some e → (k, c, due) ∈ timers d → correlationId (ids e) = c → due = timestamp e + DEDUP_WINDOW_MS }.

Lemma freshDedup_sound : sound freshDedup.
Proof. split; cbn; [lia|..]; intros; try done; set_solver. Qed.

Lemma withDedup_None k uuid now d d' : withDedup k uuid now d = (None, d') → d' = d.
Proof. unfold withDedup, getCorrelationId. destruct (shouldDedup k now d); by intros [= ]. Qed.

Lemma withDedup_Some k uuid now d i d' : withDedup k uuid now d = (Some i, d') →
  shouldDedup k now d = None ∧ dedupMap d' !! k = Some {| key := k; ids := i; timestamp := now |} ∧
  (∀ k', k' ≠ k → dedupMap d' !! k' = dedupMap d !! k') ∧ (sound d → sound d').
Proof.
  unfold withDedup, getCorrelationId. destruct (shouldDedup k now d) eqn:E; [done|]. intros [= <- <-].
  split; [done|]. unfold registerAction. cbn [dedupMap timers correlationCounter].
  split; [apply lookup_insert_eq|]. split; [intros; by rewrite lookup_insert_ne|]. intros [Hc He Ht Ho].
  set (n := correlationCounter d + 1). fold (corrText n now). split; cbn [dedupMap timers correlationCounter correlationId]; [lia|..].
  - intros k' e [[-> <-]|[_ H]]%lookup_insert_Some; [exists n, now; cbn; split; [lia|done]|].
    destruct (He _ _ H) as (m & t & ? & ?). exists m, t. split; [lia|done].
  - intros k' c due [[= -> -> ->]|H]%elem_of_cons; [exists n, now; split; [lia|done]|].
    destruct (Ht _ _ _ H) as (m & t & ? & ?). exists m, t. split; [lia|done].
  - intros k' e c due [[-> <-]|[Hk H]]%lookup_insert_Some [Heq|H']%elem_of_cons Hcc; cbn in *; try (by simplify_eq).
    + destruct (Ht _ _ _ H') as (m & t & ? & ->). apply corrText_inj in Hcc; lia.
    + by eapply Ho.
Qed.

Lemma fireTimer_spec n d now : sound d → (∀ k c due, timers d !! n = Some (k, c, due) → due ≤ now) →
  sound (fireTimer n d) ∧
  ∀ k e, dedupMap d !! k = Some e → dedupMap (fireTimer n d) !! k = Some e ∨ timestamp e + DEDUP_WINDOW_MS ≤ now.
Proof.
  intros [Hc He Ht Ho] Hdue. unfold fireTimer. destruct (timers d !! n) as [[[k c] due]|] eqn:En; [|split; [done|auto]].
  specialize (Hdue _ _ _ eq_refl). apply list_elem_of_lookup_2 in En.
  assert (∀ x, x ∈ take n (timers d) ++ drop (S n) (timers d) → x ∈ timers d) as Hin.
  { intros x [(i & H & _)%elem_of_take|[i H]%list_elem_of_lookup_1]%elem_of_app; [by eapply list_elem_of_lookup_2|].
    rewrite lookup_drop in H. by eapply list_elem_of_lookup_2. }
  set (m := match dedupMap d !! k with Some cur => if bool_decide (correlationId (ids cur) = c) then delete k (dedupMap d) else dedupMap d | None => dedupMap d end).
  assert (∀ k' e, m !! k' = Some e → dedupMap d !! k' = Some e) as Hm.
  { intros k' e. unfold m. destruct (dedupMap d !! k); [case_bool_decide|]; try done. by intros [_ H']%lookup_delete_Some. }
  split.
  - split; cbn [dedupMap timers correlationCounter]; [done|..]; eauto.
  - intros k' e Hk. cbn [dedupMap]. unfold m. destruct (dedupMap d !! k) as [cur|] eqn:Ek; [case_bool_decide as Hcc|]; auto.
    destruct (decide (k' = k)) as [->|Hne]; [right|left; by rewrite lookup_delete_ne].
    simplify_eq. rewrite <-(Ho _ _ _ _ Ek En eq_refl). done.
Qed.

Lemma punctual_weaken clock clock' ts d : clock' ≤ clock → punctual clock ts d → punctual clock' ts d.
Proof. destruct ts; cbn; [done|]. intros ? [? ?]. split; [lia|done]. Qed.

Lemma punctual_admitted clock ts d : punctual clock ts d → Forall (λ p, clock ≤ p.2) (admitted ts d).
Proof.
  revert clock d. induction ts as [|[k u now|n now] ts IH]; intros clock d; cbn; [constructor|..].
  - intros [Hc Hp]. destruct (withDedup k u now d) as [[i|] d'].
    + constructor; [done|]. apply IH. by eapply punctual_weaken.
    + apply IH. by eapply punctual_weaken.
  - intros (Hc & _ & Hp). apply IH. by eapply punctual_weaken.
Qed.

(** An entry younger than the window keeps its key closed. *)
Lemma entry_blocks clock ts d k e : sound d → punctual clock ts d → dedupMap d !! k = Some e →
  Forall (λ p, p.1 = k → timestamp e + DEDUP_WINDOW_MS ≤ p.2) (admitted ts d).
Proof.
  revert clock d. induction ts as [|[k' u now|n now] ts IH]; intros clock d Hd Hp He; cbn in *; [constructor|..].
  - destruct Hp as [Hc Hp]. destruct (withDedup k' u now d) as [[i|] d'] eqn:E.
    + pose proof (punctual_admitted _ _ _ Hp) as Hlow. apply withDedup_Some in E as (Hn & Hk' & Hfr & Hs). cbn in Hp.
      destruct (decide (k' = k)) as [->|Hne].
      * unfold shouldDedup in Hn. rewrite He in Hn. destruct (Z.ltb_spec (now - timestamp e) DEDUP_WINDOW_MS); [done|].
        constructor; [cbn; lia|]. eapply Forall_impl; [exact Hlow|]. cbn. intros p Hle _. cbn in Hle. lia.
      * constructor; [by cbn|]. apply (IH now d'); auto. by rewrite Hfr.
    + apply withDedup_None in E as ->. by apply (IH now).
  - destruct Hp as (Hc & Hdue & Hp). destruct (fireTimer_spec n d now Hd Hdue) as [Hs Hk].
    destruct (Hk _ _ He) as [He'|Hle]; [by apply (IH now)|].
    eapply Forall_impl; [exact (punctual_admitted _ _ _ Hp)|]. cbn. intros p Hp' _. lia.
Qed.

(** However often an action is fired, and whichever timers run in between, two
    submissions of the same action are at least the window apart. *)
Theorem double_submit_prevented clock ts : punctual clock ts freshDedup →
  ForallOrdPairs (λ a b, a.1 = b.1 → a.2 + DEDUP_WINDOW_MS ≤ b.2) (admitted ts freshDedup).
Proof.
  generalize freshDedup_sound. generalize freshDedup. revert clock.
  induction ts as [|[k u now|n now] ts IH]; intros clock d Hd Hp; cbn in *; [constructor|..].
  - destruct Hp as [Hc Hp]. destruct (withDedup k u now d) as [[i|] d'] eqn:E; cbn in Hp.
    + apply withDedup_Some in E as (_ & Hk & _ & Hs). constructor; [|by apply (IH now); auto].
      eapply Forall_impl; [exact (entry_blocks now ts d' k _ (Hs Hd) Hp Hk)|]. cbn. intros p H Heq. by apply H.
    + apply withDedup_None in E as ->. by apply (IH now).
  - destruct Hp as (Hc & Hdue & Hp). apply (IH now); [|done]. by apply (fireTimer_spec n d now Hd Hdue).
Qed.

(** ** The visible list refines the confirmed one *)

Section Refinement.
Context {A P : Type} (matches : string → A → bool).
Hypothesis one_id : ∀ t t' x, matches t x = true → matches t' x = true → t = t'.

Inductive Act : Type := Begin (n : nat) (k tid : string) (patch : A → A) (pending : P) | Settle (n : nat) (succeeded : bool).

(** The store, and the actions waiting for the server. *)
Definition act (a : Act) (w : Store A P * gmap nat (Flight A)) : Store A P * gmap nat (Flight A) :=
  match a with
  | Begin n k tid patch pending => let '(f, s) := beginUpdate matches k tid patch pending w.1 in (s, <[n := f]> w.2)
  | Settle n succeeded => match w.2 !! n with Some f => (settleUpdate matches f succeeded w.1, delete n w.2) | None => w end
  end.
Definition acts (l : list Act) (w : Store A P * gmap nat (Flight A)) : Store A P * gmap nat (Flight A) := foldl (λ w a, act a w) w l.

(** The specification: what the server has confirmed, and the patches it has yet to answer. *)
Definition Spec : Type := list A * gmap nat (string * (A → A)).
Definition specAct (a : Act) (w : Spec) : Spec :=
  match a with
  | Begin n _ tid patch _ => (w.1, <[n := (tid, patch)]> w.2)
  | Settle n succeeded =>
      match w.2 !! n with
      | Some (tid, patch) => (if succeeded then replaceWith matches tid patch w.1 else w.1, delete n w.2)
      | None => w
      end
  end.
Definition specActs (l : list Act) (w : Spec) : Spec := foldl (λ w a, specAct a w) w l.

(** Patches are of listed items, keep ids, and no item has two in flight. *)
Definition allowed (a : Act) (w : Spec) : Prop :=
  match a with
  | Begin n _ tid patch _ => w.2 !! n = None ∧ (∀ m tid' p, w.2 !! m = Some (tid', p) → tid' ≠ tid) ∧
      (∃ x, x ∈ w.1 ∧ matches tid x = true) ∧ (∀ t x, matches t (patch x) = matches t x)
  | Settle _ _ => True
  end.
Fixpoint disciplined (l : list Act) (w : Spec) : Prop :=
  match l with [] => True | a :: l => allowed a w ∧ disciplined l (specAct a w) end.

Definition shown (open : gmap nat (string * (A → A))) (b v : A) : Prop :=
  (∃ n tid p, open !! n = Some (tid, p) ∧ matches tid b = true ∧ v = p b) ∨
  ((∀ n tid p, open !! n = Some (tid, p) → matches tid b = false) ∧ v = b).

Definition uniqueIds (l : list A) : Prop :=
  ∀ t i j x y, l !! i = Some x → l !! j = Some y → matches t x = true → matches t y = true → i = j.

Record refines (w : Spec) (c : Store A P * gmap nat (Flight A)) : Prop := {
  r_unique : uniqueIds w.1;
  r_keeps n tid p : w.2 !! n = Some (tid, p) → ∀ t x, matches t (p x) = matches t x;
  r_apart m n tid p q : w.2 !! m = Some (tid, p) → w.2 !! n = Some (tid, q) → m = n;
  r_shown : Forall2 (shown w.2) w.1 (items c.1);
  r_flights n : match c.2 !! n, w.2 !! n with
                | Some f, Some (tid, p) => target f = tid ∧ ∃ b, b ∈ w.1 ∧ matches tid b = true ∧ snapshot f = Some b
                | None, None => True
                | _, _ => False
                end }.

Lemma replaceWith_unique tid p l : (∀ t x, matches t (p x) = matches t x) → uniqueIds l → uniqueIds (replaceWith matches tid p l).
Proof.
  unfold replaceWith. intros Hp Hu t i j x y Hi Hj Hx Hy.
  rewrite list_lookup_fmap in Hi, Hj. apply fmap_Some in Hi as (x0 & Hi & ->), Hj as (y0 & Hj & ->).
  apply (Hu t i j x0 y0); auto; [by destruct (matches tid x0); rewrite ?Hp in Hx|by destruct (matches tid y0); rewrite ?Hp in Hy].
Qed.

Lemma unique_same l t x y : uniqueIds l → x ∈ l → y ∈ l → matches t x = true → matches t y = true → x = y.
Proof.
  intros Hu [i Hi]%list_elem_of_lookup_1 [j Hj]%list_elem_of_lookup_1 Hx Hy.
  assert (i = j) as -> by by eapply Hu. congruence.
Qed.

Lemma shown_matches w c b v t : refines w c → shown w.2 b v → matches t v = matches t b.
Proof. intros Hr [(n & tid & p & Ho & _ & ->)|[_ ->]]; [|done]. by eapply r_keeps. Qed.

Lemma find_shown w c tid l base : refines w c → Forall2 (shown w.2) base l → (∀ m tid' p, w.2 !! m = Some (tid', p) → tid' ≠ tid) →
  (∃ x, x ∈ base ∧ matches tid x = true) → ∃ b, b ∈ base ∧ matches tid b = true ∧ List.find (matches tid) l = Some b.
Proof.
  intros Hr Hf Ha. induction Hf as [|b v base l Hs Hf IH]; intros (x & Hx & Hm); [set_solver|]. cbn.
  rewrite (shown_matches w c b v tid Hr Hs). destruct (matches tid b) eqn:Eb.
  - exists b. split; [set_solver|]. split; [done|]. f_equal. destruct Hs as [(n & tid' & p & Ho & Hb & _)|[_ ->]]; [|done].
    destruct (Ha _ _ _ Ho). by eapply one_id.
  - destruct IH as (b' & H1 & H2 & H3); [|exists b'; split; [set_solver|done]].
    exists x. split; [|done]. apply elem_of_cons in Hx as [->|Hx]; [congruence|done].
Qed.

Lemma begin_refines n k tid p pending w c : refines w c → allowed (Begin n k tid p pending) w →
  refines (specAct (Begin n k tid p pending) w) (act (Begin n k tid p pending) c).
Proof.
  intros Hr (Hn & Ha & Hx & Hp). pose proof Hr as [Hu Hk Hs Hsh Hfl]. destruct w as [base open], c as [s fl]. cbn in *.
  split; cbn [fst snd]; [done|..].
  - intros m tid' q [[<- [= <- <-]]|[_ H]]%lookup_insert_Some; [done|by eapply Hk].
  - intros m m' tid' q q' [[<- [= <- <-]]|[Hm H]]%lookup_insert_Some [[<- [= ]]|[Hm' H']]%lookup_insert_Some; subst; try done.
    + by destruct (Ha _ _ _ H').
    + by destruct (Ha _ _ _ H).
    + by eapply Hs.
  - unfold replaceWith. rewrite <-(map_id base). apply Forall2_fmap. eapply Forall2_impl; [exact Hsh|].
    intros b v Hb. pose proof (shown_matches (base, open) (s, fl) b v tid Hr Hb) as Em. rewrite Em. destruct (matches tid b) eqn:Eb.
    + left. exists n, tid, p. split; [apply lookup_insert_eq|]. split; [done|]. f_equal.
      destruct Hb as [(m & tid' & q & Ho & Hb & _)|[_ ->]]; [|done]. destruct (Ha _ _ _ Ho). by eapply one_id.
    + destruct Hb as [(m & tid' & q & Ho & Hb & ->)|[Hb ->]].
      * left. exists m, tid', q. split; [|done]. rewrite lookup_insert_ne; [done|]. intros ->. congruence.
      * right. split; [|done]. intros m tid' q [[<- [= <- <-]]|[_ H]]%lookup_insert_Some; [done|by eapply Hb].
  - intros m. destruct (decide (m = n)) as [->|Hne]; [|rewrite !lookup_insert_ne by done; apply Hfl].
    rewrite !lookup_insert_eq. split; [done|]. cbn.
    destruct (find_shown (base, open) (s, fl) tid (items s) base Hr Hsh Ha Hx) as (b & H1 & H2 & H3). by exists b.
Qed.
Lemma settle_refines n succeeded w c : refines w c → refines (specAct (Settle n succeeded) w) (act (Settle n succeeded) c).
Proof.
  intros Hr. pose proof Hr as [Hu Hk Hs Hsh Hfl]. destruct w as [base open], c as [s fl]. cbn in *. specialize (Hfl n) as Hn.
  destruct (fl !! n) as [f|] eqn:Ef, (open !! n) as [[tid p]|] eqn:Eo; try done.
  destruct Hn as (Htid & b0 & Hb0 & Hm0 & Hsnap). subst tid. pose proof (Hk _ _ _ Eo) as Hp.
  assert (∀ m tid' q, delete n open !! m = Some (tid', q) → open !! m = Some (tid', q) ∧ tid' ≠ target f) as Hdel.
  { intros m tid' q [Hne H]%lookup_delete_Some. split; [done|]. intros ->. by apply Hne, (Hs _ _ _ _ _ Eo H). }
  assert (∀ b v, shown open b v → matches (target f) b = false → shown (delete n open) b v) as Hother.
  { intros b v [(m & tid' & q & Ho & Hb & ->)|[Hb ->]] Hf.
    - left. exists m, tid', q. split; [|done]. rewrite lookup_delete_ne; [done|]. intros <-. congruence.
    - right. split; [|done]. intros m tid' q [H _]%Hdel. by eapply Hb. }
  assert (∀ b v, shown open b v → matches (target f) b = true → v = p b) as Hmine.
  { intros b v [(m & tid' & q & Ho & Hb & ->)|[Hb _]] Hf; [|by rewrite (Hb _ _ _ Eo) in Hf].
    assert (tid' = target f) as -> by by eapply one_id. assert (m = n) as -> by by eapply Hs. congruence. }
  assert (∀ v, matches (target f) v = true → ∀ m tid' q, delete n open !! m = Some (tid', q) → matches tid' v = false) as Hfree.
  { intros v Hv m tid' q [_ Hne]%Hdel. destruct (matches tid' v) eqn:E; [|done]. by destruct Hne; eapply one_id. }
  split; cbn [fst snd].
  - destruct succeeded; [by apply replaceWith_unique|done].
  - intros m tid' q [H _]%Hdel. by eapply Hk.
  - intros m m' tid' q q' [H _]%Hdel [H' _]%Hdel. by eapply Hs.
  - unfold settleUpdate, rollbackUpdate, clearPending, replaceWith. rewrite Hsnap. destruct succeeded; cbn [items withItems].
    + rewrite <-(map_id (items s)). apply Forall2_fmap. eapply Forall2_impl; [exact Hsh|]. intros b v Hb.
      destruct (matches (target f) b) eqn:Eb; [|by apply Hother].
      right. rewrite (Hmine b v Hb Eb). split; [|done]. apply Hfree. by rewrite Hp.
    + rewrite <-(map_id base). apply Forall2_fmap. apply Forall2_same_length_lookup. split; [by eapply Forall2_length|].
      intros i b v Hi Hv. pose proof (Forall2_lookup_lr _ _ _ _ _ _ Hsh Hi Hv) as Hb.
      rewrite (shown_matches (base, open) (s, fl) b v (target f) Hr Hb). destruct (matches (target f) b) eqn:Eb; [|by apply Hother].
      right. split; [by apply Hfree|]. apply (unique_same base (target f)); auto. by eapply list_elem_of_lookup_2.
  - intros m. destruct (decide (m = n)) as [->|Hne]; [by rewrite !lookup_delete_eq|]. rewrite !lookup_delete_ne by done.
    specialize (Hfl m). destruct (fl !! m) as [f'|], (open !! m) as [[tid' q]|] eqn:Em; try done.
    destruct Hfl as (<- & b & Hb & Hmb & Hsb). split; [done|]. exists b. split_and!; try done. destruct succeeded; [|done].
    unfold replaceWith. apply list_elem_of_In, in_map_iff. exists b. split; [|by apply list_elem_of_In].
    destruct (matches (target f) b) eqn:Eb; [|done]. destruct Hne. symmetry. eapply Hs; [exact Eo|].
    by rewrite (one_id _ _ _ Eb Hmb).
Qed.

Lemma acts_refine l w c : refines w c → disciplined l w → refines (specActs l w) (acts l c).
Proof.
  unfold acts, specActs. revert w c. induction l as [|[n k tid p pending|n ok] l IH]; intros w c Hr; cbn [disciplined foldl]; [done|..].
  - intros [Ha Hd]. apply IH; [|done]. by apply begin_refines.
  - intros [_ Hd]. apply IH; [|done]. by apply settle_refines.
Qed.

Lemma start_refines s : uniqueIds (items s) → refines (items s, ∅) (s, ∅).
Proof.
  intros Hu. split; cbn; try done; try (intros; by rewrite lookup_empty in *).
  - apply Forall2_same_length_lookup. split; [done|]. intros i x y Hx Hy. assert (x = y) as -> by congruence. right. split; [|done]. intros n tid p H. by rewrite lookup_empty in H.
Qed.

(** C35: however begins, successes and failures of patches to different items
    interleave, the visible list is the confirmed one with the unanswered patches
    applied; once every request is answered it is exactly the confirmed one, so
    failures leave no trace. *)
Theorem optimistic_refines_confirmed (s : Store A P) (l : list Act) : uniqueIds (items s) → disciplined l (items s, ∅) →
  let confirmed := specActs l (items s, ∅) in
  Forall2 (shown confirmed.2) confirmed.1 (items (acts l (s, ∅)).1) ∧
  (confirmed.2 = ∅ → items (acts l (s, ∅)).1 = confirmed.1).
Proof.
  intros Hu Hd confirmed. pose proof (acts_refine l _ _ (start_refines s Hu) Hd) as [_ _ _ Hsh _]. split; [exact Hsh|].
  intros He. fold confirmed in Hsh. rewrite He in Hsh. revert Hsh. generalize (items (acts l (s, ∅)).1). generalize confirmed.1.
  induction 1 as [|b v base vs [(n & ? & ? & H & _)|[_ ->]] _ IH]; [done|by rewrite lookup_empty in H|by rewrite IH].
Qed.
End Refinement.

(** ** Where schedules go wrong *)

Section Races.
Context {A P : Type} (matches : string → A → bool).

(** A failing request takes back a patch to the same item that the server confirmed meanwhile. *)
Theorem rollback_loses_confirmed (s : Store A P) k k' tid p q pd pd' t :
  List.find (matches tid) (items s) = Some t → (∀ x y, matches tid x = true → matches tid y = true → x ∈ items s → y ∈ items s → x = y) →
  (∀ x, matches tid (p x) = matches tid x) → (∀ x, matches tid (q x) = matches tid x) →
  let '(f, s1) := beginUpdate matches k tid p pd s in
  let '(g, s2) := beginUpdate matches k' tid q pd' s1 in
  items (settleUpdate matches f false (settleUpdate matches g true s2)) = items s.
Proof.
  intros Hf Hu Hp Hq. cbn. rewrite Hf. unfold replaceWith. rewrite !map_map. cbn.
  apply find_some in Hf as [Ht Hm]. rewrite <-(map_id (items s)) at 2. apply map_ext_in. intros x Hx.
  destruct (matches tid x) eqn:Ex; [|by rewrite !Ex]. rewrite Hp, Ex, Hq, Hp, Ex. apply Hu; auto; by apply list_elem_of_In.
Qed.

(** A patch of an item that is not listed, when it fails, puts back the whole old
    list: whatever was fetched or added since is gone. *)
Theorem failed_unlisted_update_discards (s : Store A P) k tid p pd (s' : Store A P) :
  List.find (matches tid) (items s) = None →
  items (settleUpdate matches (beginUpdate matches k tid p pd s).1 false s') = items s.
Proof. intros H. cbn. by rewrite H. Qed.

(** So does a failing removal, always. *)
Theorem failed_remove_discards (s s' : Store A P) k tid pd :
  items (settleRemove (beginRemove matches k tid pd s).1 false s') = items s ∧ total (settleRemove (beginRemove matches k tid pd s).1 false s') = total s.
Proof. done. Qed.

(** Removing what is not listed still counts one down. *)
Theorem remove_unlisted_miscounts (s : Store A P) k tid pd : List.find (matches tid) (items s) = None →
  items (beginRemove matches k tid pd s).2 = items s ∧ total (beginRemove matches k tid pd s).2 = total s - 1.
Proof.
  intros H. split; [|done]. cbn. induction (items s) as [|x l IH]; [done|]. cbn in *. destruct (matches tid x); [done|].
  cbn. f_equal. by apply IH.
Qed.

(** Answers are not matched to requests: with two page changes under way the list
    is that of whichever answer comes last, and need not belong to the page shown. *)
Theorem late_answer_wins (s : Store A P) n m (a b : list A * Z) :
  let s' := settleFetch (Ok a) (settleFetch (Ok b) (setPage m (setPage n s))) in
  page s' = m ∧ items s' = a.1 ∧ total s' = a.2.
Proof. destruct a, b. done. Qed.
End Races.

Import TradeStore.

(** Rejecting a dispute just after accepting it (or the other way round) is taken
    for a repetition: nothing is sent, and the caller gets the ids of the first. *)
Theorem reject_after_accept_dropped tid corr idem uuid uuid' now now' (w : App Trade Ids) f i w' :
  acceptDispute tid corr idem uuid now w = (InFlight f i, w') → now' - now < DEDUP_WINDOW_MS →
  ∃ e w'', rejectDispute tid None None uuid' now' w' = (Duplicate e, w'') ∧ ids e = i ∧ store w'' = store w'.
Proof.
  unfold acceptDispute, rejectDispute, resolveDisputeOptimistic, updateTradeOptimistic. intros H Hlt.
  destruct (match corr with Some c => (c, dedup w) | None => getCorrelationId now (dedup w) end) as [c d1].
  destruct (shouldDedup _ now d1); [done|]. destruct (beginUpdate _ _ _ _ _ _) as [f' s'] eqn:Eb. injection H as <- <- <-.
  unfold getCorrelationId. cbn [dedup]. unfold shouldDedup. cbn [dedupMap registerAction]. rewrite lookup_insert_eq. cbn [timestamp].
  destruct (Z.ltb_spec (now' - now) DEDUP_WINDOW_MS); [|lia]. eexists _, _. done.
Qed.

(** Every trade action registers as [withDedup] does. *)
Lemma updateTrade_dedup tid p server uuid now (w : App Trade Ids) :
  dedup (updateTrade tid p server uuid now w).2 = (withDedup (updateKey tid p) uuid now (dedup w)).2.
Proof.
  unfold updateTrade, withDedup. destruct (shouldDedup _ _ _); [done|]. destruct (getCorrelationId _ _).
  destruct (beginUpdate _ _ _ _ _ _). by destruct server.
Qed.

Lemma removeTrade_dedup tid server uuid now (w : App Trade Ids) :
  dedup (removeTrade tid server uuid now w).2 = (withDedup (removeKey tid) uuid now (dedup w)).2.
Proof.
  unfold removeTrade, withDedup. destruct (shouldDedup _ _ _); [done|]. destruct (getCorrelationId _ _).
  destruct (beginRemove _ _ _ _ _). by destruct server.
Qed.

Lemma field_assign_ne k k' v t : k ≠ k' → field k (assign k' v t) = field k t.
Proof.
  intros Hne. induction t as [|[k0 v0] t IH]; cbn.
  - by rewrite bool_decide_false.
  - destruct (decide (k' = k0)) as [<-|Hk]; [rewrite (bool_decide_true (k' = k')) by done; cbn; by rewrite !bool_decide_false|].
    rewrite (bool_decide_false (k' = k0)) by done. cbn. by rewrite IH.
Qed.

Lemma spread_id tid p t : Forall (λ m, m.1 ≠ "tradeId"%string) p → hasId tid (spread p t) = hasId tid t.
Proof.
  intros Hp. unfold hasId. enough (field "tradeId" (spread p t) = field "tradeId" t) as -> by done.
  revert t. induction Hp as [|[k v] p Hk _ IH]; [done|]. intros t. cbn. unfold spread in IH. rewrite IH. by apply field_assign_ne.
Qed.

Lemma hasId_one tid tid' t : hasId tid t = true → hasId tid' t = true → tid = tid'.
Proof. unfold hasId. rewrite !bool_decide_eq_true. congruence. Qed.

(** ** Concrete runs *)

Definition sample (tid status : string) : Trade := [("tradeId"%string, FText tid); ("status"%string, FText status)].
Definition sampleStore : Store Trade Ids := withItems [sample "t1" "FUNDED"; sample "t2" "FUNDED"] 2 ∅ initialStore.
Definition someIds : Ids := {| correlationId := "c"; idempotencyKey := "i" |}.
Definition settle : Patch := [("status"%string, FText "SETTLED")].
Definition schedule : list (Act (A := Trade) (P := Ids)) :=
  [Begin 0 "a" "t1" (spread settle) someIds; Begin 1 "b" "t2" (spread settle) someIds; Settle 1 false; Settle 0 true].

Lemma settle_keeps tid t : hasId tid (spread settle t) = hasId tid t.
Proof. apply spread_id. repeat constructor; discriminate. Qed.

Lemma optimistic_refines_confirmed_witness :
  (specActs hasId schedule (items sampleStore, ∅)).2 = ∅ ∧
  items (acts hasId schedule (sampleStore, ∅)).1 = [sample "t1" "SETTLED"; sample "t2" "FUNDED"].
Proof.
  split; [reflexivity|].
  assert (uniqueIds hasId (items sampleStore)) as Hu.
  { intros t i j x y Hi Hj Hx Hy. pose proof (lookup_lt_Some _ _ _ Hi) as Li. pose proof (lookup_lt_Some _ _ _ Hj) as Lj. cbn in Li, Lj.
    apply bool_decide_eq_true in Hx, Hy.
    destruct i as [|[|i]], j as [|[|j]]; try lia; cbn in Hi, Hj; injection Hi as <-; injection Hj as <-; vm_compute in Hx, Hy; congruence. }
  destruct (optimistic_refines_confirmed hasId hasId_one sampleStore schedule Hu) as [_ H].
  - split; [split_and!; [done|intros m tid' p H; cbn [snd] in H; by rewrite lookup_empty in H|exists (sample "t1" "FUNDED"); split; [set_solver|reflexivity]|intros; apply settle_keeps]|].
    split; [|done]. split_and!; [done| |exists (sample "t2" "FUNDED"); split; [set_solver|reflexivity]|intros; apply settle_keeps].
    intros m tid' p H. cbn [specAct snd] in H. apply lookup_insert_Some in H as [[_ [= <- _]]|[_ H]]; [discriminate|by rewrite lookup_empty in H].
  - apply H. reflexivity.
Defined.

Lemma double_submit_prevented_witness :
  let ts := [Attempt "k" "u1" 0; Attempt "k" "u2" 100; Fire 0 3000; Attempt "k" "u3" 3000] in
  admitted ts freshDedup = [("k"%string, 0); ("k"%string, 3000)] ∧
  ForallOrdPairs (λ a b, a.1 = b.1 → a.2 + DEDUP_WINDOW_MS ≤ b.2) (admitted ts freshDedup).
Proof.
  split; [vm_compute; reflexivity|].
  apply (double_submit_prevented 0 [Attempt "k" "u1" 0; Attempt "k" "u2" 100; Fire 0 3000; Attempt "k" "u3" 3000]).
  vm_compute. repeat split; try discriminate. intros k c due H. injection H as _ _ <-. discriminate.
Defined.

Example patch_text : patchText settle = String "{" (quoted "status" (String ":" (quoted "SETTLED" "}"))).
Proof. reflexivity. Qed.
