(* ===== verification/DisputeStore.v ===== *)
(** * The dispute store of the web client

    [frontend/src/stores/disputeStore.ts] over the shared operations of
    [Optimistic]; its pending table also keeps the action. *)

From S2P Require Import Prelude JsString Json Optimistic.

Record Dispute : Type := {
  id : Z; tradeId : string; initiator : string; reason : string; status : string; createdAt : string; updatedAt : string;
  resolvedAt : option string; buyerAddress : string; sellerAddress : string; amountUsdc : string }.
Definition hasTrade (tid : string) (d : Dispute) : bool := bool_decide (tradeId d = tid).
Definition resolved (d : Dispute) : Dispute :=
  {| id := id d; tradeId := tradeId d; initiator := initiator d; reason := reason d; status := "RESOLVED"; createdAt := createdAt d;
     updatedAt := updatedAt d; resolvedAt := resolvedAt d; buyerAddress := buyerAddress d; sellerAddress := sellerAddress d; amountUsdc := amountUsdc d |}.

Definition resolveKey (tid action : string) : string := ("resolve-dispute:" +:+ tid +:+ ":" +:+ action)%string.

Definition resolveDisputeOptimistic (tid action : string) (corr idem : option string) (uuid : string) (now : Z) (w : App Dispute (Ids * string))
    : Call Dispute * App Dispute (Ids * string) :=
  let k := resolveKey tid action in
  match shouldDedup k now (dedup w) with
  | Some e => (Duplicate e, w)
  | None =>
      let '(c, d1) := match corr with Some c => (c, dedup w) | None => getCorrelationId now (dedup w) end in
      let i := {| correlationId := c; idempotencyKey := default uuid idem |} in
      let '(f, s) := beginUpdate hasTrade k tid resolved (i, action) (store w) in
      (InFlight f i, {| dedup := registerAction k i now d1; store := s |})
  end.
Definition acceptDispute (tid : string) := resolveDisputeOptimistic tid "accept".
Definition rejectDispute (tid : string) := resolveDisputeOptimistic tid "reject".

(** The status and page of the request [fetchDisputes] sends. *)
Definition fetchQuery (status : option string) (n limit : option Z) (s : Store Dispute (Ids * string)) : option string * Z * Z :=
  let param := match status with Some t => Some t | None => statusFilter s end in
  (if bool_decide (param = Some "all"%string) then None else param, default (page s) n, default 10 limit).

(** ** Properties *)

(** Accepting and rejecting one dispute have keys of their own. *)
Lemma dispute_actions_differ tid a b : a ≠ b → resolveKey tid a ≠ resolveKey tid b.
Proof. intros H E. apply H. unfold resolveKey in E. injection E as E. apply (inj (String.append tid)) in E. by injection E. Qed.

Lemma registered_other k k' i now d : k ≠ k' → dedupMap (registerAction k i now d) !! k' = dedupMap d !! k'.
Proof. intros H. cbn. by rewrite lookup_insert_ne. Qed.

(** A resolution is sent unless the same action on the same trade was registered
    within the window; the other action on it never blocks it. Sent, it shows the
    dispute as resolved and keeps everything else of it; a failure restores it. *)
Theorem resolution_spec tid action corr idem uuid now (w : App Dispute (Ids * string)) :
  let '(c, w') := resolveDisputeOptimistic tid action corr idem uuid now w in
  match shouldDedup (resolveKey tid action) now (dedup w) with
  | Some e => c = Duplicate e ∧ w' = w
  | None => ∃ f i, c = InFlight f i ∧
      (∀ other, other ≠ action → dedupMap (dedup w') !! resolveKey tid other = dedupMap (dedup w) !! resolveKey tid other) ∧
      items (store w') = map (λ d, if hasTrade tid d then resolved d else d) (items (store w)) ∧
      pendingActions (store w') !! resolveKey tid action = Some (i, action) ∧
      (∀ d, List.filter (hasTrade tid) (items (store w)) = [d] → items (settleUpdate hasTrade f false (store w')) = items (store w))
  end.
Proof.
  unfold resolveDisputeOptimistic. destruct (shouldDedup _ now (dedup w)) as [e|]; [done|].
  destruct (match corr with Some c => (c, dedup w) | None => getCorrelationId now (dedup w) end) as [c d1] eqn:Ed.
  assert (dedupMap d1 = dedupMap (dedup w)) as Hd1 by (destruct corr; injection Ed as _ <-; done).
  destruct (beginUpdate _ _ _ _ _ _) as [f s] eqn:Eb. eexists f, _. split; [done|]. cbn [dedup store]. split_and!.
  - intros other Ho. rewrite registered_other by (by apply dispute_actions_differ). by rewrite Hd1.
  - injection Eb as _ <-. reflexivity.
  - injection Eb as _ <-. cbn. by rewrite lookup_insert_eq.
  - intros d Hf. injection Eb as <- <-. cbn. destruct (List.find (hasTrade tid) (items (store w))) as [x|] eqn:Ex; [|done].
    apply find_some in Ex as [Hx Hm]. assert (x = d) as -> by (assert (In x (List.filter (hasTrade tid) (items (store w)))) as Hin by (by apply List.filter_In);
      rewrite Hf in Hin; by destruct Hin as [->|[]]).
    unfold replaceWith. rewrite map_map. rewrite <-(map_id (items (store w))) at 2. apply map_ext_in. intros y Hy.
    destruct (hasTrade tid y) eqn:Ey; [|by rewrite Ey].
    assert (hasTrade tid (resolved y) = hasTrade tid y) as -> by done. rewrite Ey.
    assert (In y (List.filter (hasTrade tid) (items (store w)))) as Hin by (by apply List.filter_In). rewrite Hf in Hin. by destruct Hin as [->|[]].
Qed.

(** [all] is no filter; otherwise the given status, or the one in the store, is asked for. *)
Lemma fetchQuery_status status n limit s : (fetchQuery status n limit s).1.1 =
  match status with Some t => if bool_decide (t = "all"%string) then None else Some t
                  | None => match statusFilter s with Some t => if bool_decide (t = "all"%string) then None else Some t | None => None end end.
Proof.
  unfold fetchQuery. cbn. destruct status as [t|]; [|destruct (statusFilter s) as [t|]; [|done]];
    destruct (decide (t = "all"%string)) as [->|]; rewrite ?bool_decide_true by done; try done; by rewrite !bool_decide_false by congruence.
Qed.
