(* ===== verification/OfflineCache.v ===== *)
(** * The offline cache of the web client

    [frontend/src/lib/offlineCache.ts] over [localStorage], and the hook
    [frontend/src/hooks/useCachedTrades.ts] that serves stale data while it
    fetches. Storage is the list of its items in enumeration order; the browser
    may refuse a write, which is an argument. Texts and values are JSON. *)

From S2P Require Import Prelude JsString JsValue Json JsonText.

(** ** [localStorage] *)

Definition Storage : Type := list (string * string).

Fixpoint getItem (k : string) (s : Storage) : option string :=
  match s with [] => None | (k', v) :: s' => if bool_decide (k = k') then Some v else getItem k s' end.
Definition removeItem (k : string) (s : Storage) : Storage := List.filter (λ p, negb (bool_decide (k = p.1))) s.
Fixpoint setItem (k v : string) (s : Storage) : Storage :=
  match s with [] => [(k, v)] | (k', v') :: s' => if bool_decide (k = k') then (k, v) :: s' else (k', v') :: setItem k v s' end.

(** ** Keys and entries *)

Definition QUOTA_BYTES : Z := 2 * 1024 * 1024.
Definition STORAGE_PREFIX : string := "amana_cache_v1".

Inductive CacheDomain : Type := trades_list | trade_detail | notifications.
#[export] Instance CacheDomain_eq_dec : EqDecision CacheDomain. Proof. solve_decision. Defined.

Definition domainName (d : CacheDomain) : string :=
  match d with trades_list => "trades_list" | trade_detail => "trade_detail" | notifications => "notifications" end.
Definition TTL_MS (d : CacheDomain) : Z :=
  match d with trades_list => 5 * 60 * 1000 | trade_detail => 10 * 60 * 1000 | notifications => 2 * 60 * 1000 end.

Definition domainPrefix (d : CacheDomain) : string := (STORAGE_PREFIX +:+ ":" +:+ domainName d +:+ ":")%string.
Definition storageKey (d : CacheDomain) (k : string) : string := (STORAGE_PREFIX +:+ ":" +:+ domainName d +:+ ":" +:+ k)%string.

Definition startsWith (p s : string) : bool := match stripPrefix p s with Some _ => true | None => false end.
Definition managed (k : string) : bool := startsWith STORAGE_PREFIX k.

(** UTF-16 length, doubled. *)
Definition bytesOf (v : string) : Z := Z.of_nat (strlen v) * 2.

Definition getCacheUsageBytes (s : Storage) : Z := sumZ (map (λ p, if managed p.1 then bytesOf p.2 else 0) s).

Definition storageOf (env : option Storage) : Storage := default [] env.

(** [CacheEntry] as [cacheWrite] serialises it; [None] is [undefined], which [JSON.stringify] leaves out. *)
Definition entryDoc (data : option Doc) (now : Z) : Doc :=
  DObj (match data with Some d => [("data"%string, d)] | None => [] end ++ [("cachedAt"%string, DInt now); ("isStale"%string, DBool false)]).

Record CacheEntry : Type := { data : jsval; cachedAt : jsnum; entryStale : bool }.
Record CacheReadResult : Type := { entry : option CacheEntry; isStale : bool; isMiss : bool }.
Definition miss : CacheReadResult := {| entry := None; isStale := false; isMiss := true |}.

Section Cache.
(** [a < b] for values other than integers, which only foreign text holds, and
    the browser's verdict on a write. *)
Context (foreignLess : jsval → jsval → bool) (accepts : Storage → bool).

Definition less (a b : jsval) : bool :=
  match a, b with
  | VNum (JInt x) _, VNum (JInt y) _ => x <? y
  | VNum (JInt _) _, VNum JPosInf _ => true
  | _, _ => foreignLess a b
  end.

(** The loop of [evictLRU]: the oldest key so far, until an entry cannot be read. *)
Fixpoint oldestKey (s : Storage) (key : option string) (time : jsval) : option string :=
  match s with
  | [] => key
  | (k, raw) :: s' =>
      if negb (managed k) then oldestKey s' key time
      else if bool_decide (raw = ""%string) then oldestKey s' key time
      else match JSON_parse raw with
           | None | Some VNull => Some k
           | Some parsed =>
               let t := orElse (getProp parsed "cachedAt") (VNum (JInt 0) "0") in
               if less t time then oldestKey s' (Some k) t else oldestKey s' key time
           end
  end.

Definition evictLRU (s : Storage) : Storage :=
  match oldestKey s None (VNum JPosInf "Infinity") with Some k => removeItem k s | None => s end.

(** [while (usage + entryBytes > QUOTA && attempts < 100)] *)
Fixpoint makeRoom (attempts : nat) (entryBytes : Z) (s : Storage) : Storage :=
  match attempts with
  | O => s
  | S n => if QUOTA_BYTES <? getCacheUsageBytes s + entryBytes then makeRoom n entryBytes (evictLRU s) else s
  end.

Definition cacheWrite (d : CacheDomain) (k : string) (data : option Doc) (now : Z) (env : option Storage) : option Storage :=
  match env with
  | None => None
  | Some s =>
      let serialised := JSON_stringify (entryDoc data now) in
      let s' := makeRoom 100 (bytesOf serialised) s in
      let written := setItem (storageKey d k) serialised s' in
      Some (if accepts written then written else s')
  end.

Definition cacheRead (d : CacheDomain) (k : string) (now : Z) (env : option Storage) : CacheReadResult * option Storage :=
  match env with
  | None => (miss, None)
  | Some s =>
      match getItem (storageKey d k) s with
      | None | Some ""%string => (miss, env)
      | Some raw =>
          match JSON_parse raw with
          | Some (VObj _ fields) =>
              match lookupField "cachedAt" fields with
              | VNum at_ _ =>
                  if bool_decide ("data"%string ∈ map fst fields) then
                    let stale := match at_ with
                                 | JInt z => TTL_MS d <? now - z
                                 | JNonInt f => TTL_MS d <? now - f
                                 | JNegInf => true
                                 | _ => false
                                 end in
                    ({| entry := Some {| data := lookupField "data" fields; cachedAt := at_; entryStale := stale |}; isStale := stale; isMiss := false |}, env)
                  else (miss, Some (removeItem (storageKey d k) s))
              | _ => (miss, Some (removeItem (storageKey d k) s))
              end
          | _ => (miss, Some (removeItem (storageKey d k) s))
          end
      end
  end.
End Cache.

Definition cacheInvalidate (d : CacheDomain) (k : string) (env : option Storage) : option Storage := removeItem (storageKey d k) <$> env.

Definition removeAll (p : string → bool) (s : Storage) : Storage :=
  foldl (λ s k, removeItem k s) s (List.filter p (map fst s)).
Definition cacheClearDomain (d : CacheDomain) (env : option Storage) : option Storage := removeAll (startsWith (domainPrefix d)) <$> env.
Definition cacheClearAll (env : option Storage) : option Storage := removeAll managed <$> env.

(** ** Storage *)

Lemma getItem_setItem k v s : getItem k (setItem k v s) = Some v.
Proof.
  induction s as [|[k' v'] s IH]; cbn; [by rewrite bool_decide_true|].
  destruct (decide (k = k')) as [<-|Hne]; [rewrite (bool_decide_true (k = k)) by done; cbn; by rewrite bool_decide_true|].
  rewrite (bool_decide_false (k = k')) by done. cbn. by rewrite bool_decide_false.
Qed.

Lemma getItem_setItem_ne k k' v s : k ≠ k' → getItem k (setItem k' v s) = getItem k s.
Proof.
  intros Hne. induction s as [|[k0 v0] s IH]; cbn; [by rewrite bool_decide_false|].
  destruct (decide (k' = k0)) as [<-|Hk]; [rewrite (bool_decide_true (k' = k')) by done; cbn; by rewrite !bool_decide_false|].
  rewrite (bool_decide_false (k' = k0)) by done. cbn. by rewrite IH.
Qed.

Lemma getItem_filter (p : string → bool) k s : getItem k (List.filter (λ x, p x.1) s) = if p k then getItem k s else None.
Proof.
  induction s as [|[k' v] s IH]; cbn; [by destruct (p k)|]. destruct (p k') eqn:E; cbn; rewrite IH.
  - case_bool_decide as Hk; [|done]. subst. by rewrite E.
  - case_bool_decide as Hk; [|done]. subst. by rewrite E.
Qed.

Lemma getItem_removeItem k k' s : getItem k (removeItem k' s) = if bool_decide (k' = k) then None else getItem k s.
Proof. etrans; [exact (getItem_filter (λ x, negb (bool_decide (k' = x))) k s)|]. cbn. by case_bool_decide. Qed.

Lemma filter_twice {A} (p q : A → bool) (l : list A) : List.filter p (List.filter q l) = List.filter (λ x, q x && p x) l.
Proof. induction l as [|x l IH]; cbn; [done|]. destruct (q x); cbn; [|done]. by rewrite IH. Qed.

Lemma removeAll_filter p s : removeAll p s = List.filter (λ x, negb (p x.1)) s.
Proof.
  unfold removeAll. assert (∀ l t, foldl (λ s k, removeItem k s) t l = List.filter (λ x, negb (bool_decide (x.1 ∈ l))) t) as H.
  { induction l as [|k l IH]; intros t; cbn.
    - symmetry. induction t as [|x t IHt]; cbn; [done|]. by rewrite IHt.
    - rewrite IH. unfold removeItem. rewrite filter_twice. apply filter_ext. intros x.
      rewrite (bool_decide_ext (x.1 ∈ k :: l) (k = x.1 ∨ x.1 ∈ l)) by (rewrite elem_of_cons; naive_solver).
      by do 2 case_bool_decide; try case_bool_decide; naive_solver. }
  rewrite H. apply filter_ext_in. intros x Hx. f_equal. destruct (p x.1) eqn:E; [apply bool_decide_eq_true|apply bool_decide_eq_false].
  - apply list_elem_of_In, filter_In. split; [|done]. by apply in_map.
  - intros Hin. apply list_elem_of_In, filter_In in Hin as [_ Hp]. congruence.
Qed.

(** ** Keys *)

Lemma startsWith_app p s : startsWith p (p +:+ s) = true.
Proof. unfold startsWith. induction p as [|c p IH]; [done|]. rewrite app_cons_str. cbn. by rewrite Ascii.eqb_refl. Qed.

Lemma storageKey_managed d k : managed (storageKey d k) = true.
Proof. apply startsWith_app. Qed.

Lemma storageKey_domain d d' k : startsWith (domainPrefix d) (storageKey d' k) = bool_decide (d = d').
Proof. destruct d, d'; reflexivity. Qed.

Lemma storageKey_inj d d' k k' : storageKey d k = storageKey d' k' → d = d' ∧ k = k'.
Proof.
  intros H. assert (d = d') as ->.
  { pose proof (storageKey_domain d d k) as Hd. rewrite H, storageKey_domain in Hd. rewrite (bool_decide_true (d = d)) in Hd by done.
    by apply bool_decide_eq_true in Hd. }
  split; [done|]. destruct d'; cbn in H; by simplify_eq.
Qed.

(** ** Entries *)

Definition exactData (d : option Doc) : Prop := match d with Some d => exact d | None => True end.
Definition writtenAt (raw : string) (t : Z) : Prop := ∃ d, exactData d ∧ Z.abs t < 2 ^ 53 ∧ raw = JSON_stringify (entryDoc d t).

Lemma entry_parses d t : exactData d → Z.abs t < 2 ^ 53 →
  JSON_parse (JSON_stringify (entryDoc d t)) =
  Some (VObj None ([("isStale"%string, VBool false); ("cachedAt"%string, VNum (JInt t) "")] ++
    match d with Some d => [("data"%string, docValue d)] | None => [] end)).
Proof.
  intros Hd Ht. rewrite JSON_roundtrip by (destruct d; cbn; tauto). by destruct d.
Qed.

Lemma entry_nonempty d t : JSON_stringify (entryDoc d t) ≠ ""%string.
Proof. intros H. pose proof (docText_length (entryDoc d t) "") as Hl. unfold JSON_stringify in H. rewrite H in Hl. cbn in Hl. lia. Qed.

Section Facts.
Context (foreignLess : jsval → jsval → bool) (accepts : Storage → bool).

(** A stored entry is read back. *)
Lemma stored_read_back dom k d now later s : exact d → Z.abs now < 2 ^ 53 →
  let stored := setItem (storageKey dom k) (JSON_stringify (entryDoc (Some d) now)) s in
  let stale := TTL_MS dom <? later - now in
  cacheRead dom k later (Some stored) =
  ({| entry := Some {| data := docValue d; cachedAt := JInt now; entryStale := stale |}; isStale := stale; isMiss := false |}, Some stored).
Proof.
  intros Hd Hn stored stale. unfold cacheRead. unfold stored at 1.
  rewrite getItem_setItem. pose proof (entry_nonempty (Some d) now) as Hne. pose proof (entry_parses (Some d) now Hd Hn) as Hp.
  destruct (JSON_stringify (entryDoc (Some d) now)) as [|c r]; [done|]. rewrite Hp. reflexivity.
Qed.

(** Reading what cannot be understood removes that entry only and is a miss. *)
Theorem corrupt_entry_dropped dom k now s raw : getItem (storageKey dom k) s = Some raw → raw ≠ ""%string → JSON_parse raw = None →
  ∃ s', cacheRead dom k now (Some s) = (miss, Some s') ∧ getItem (storageKey dom k) s' = None ∧
    ∀ k', k' ≠ storageKey dom k → getItem k' s' = getItem k' s.
Proof.
  intros Hg Hne Hp. exists (removeItem (storageKey dom k) s). unfold cacheRead. rewrite Hg. destruct raw as [|c raw]; [done|]. rewrite Hp.
  split; [done|]. split; [by rewrite getItem_removeItem, bool_decide_true|]. intros k' Hk. by rewrite getItem_removeItem, bool_decide_false.
Qed.

(** ** Eviction *)

Definition wellWritten (s : Storage) : Prop := Forall (λ p, managed p.1 = true → ∃ t, writtenAt p.2 t) s.
Definition entriesOf (s : Storage) : Storage := List.filter (λ p, managed p.1) s.

Definition oldestOf (acc : option (string * Z)) (s : Storage) (k : string) (t : Z) : Prop :=
  (acc = Some (k, t) ∨ ∃ raw, (k, raw) ∈ s ∧ managed k = true ∧ writtenAt raw t) ∧
  (match acc with Some (_, t0) => t ≤ t0 | None => True end) ∧
  (∀ k' raw, (k', raw) ∈ s → managed k' = true → ∃ t', writtenAt raw t' ∧ t ≤ t').

Definition accKey (acc : option (string * Z)) : option string := fst <$> acc.
Definition accTime (acc : option (string * Z)) (v : jsval) : Prop :=
  match acc with Some (_, t) => ∃ r, v = VNum (JInt t) r | None => v = VNum JPosInf "Infinity" end.

Lemma oldestKey_spec s : wellWritten s → ∀ acc v, accTime acc v →
  match oldestKey foreignLess s (accKey acc) v with
  | Some k => ∃ t, oldestOf acc s k t
  | None => acc = None ∧ entriesOf s = []
  end.
Proof.
  induction 1 as [|[k raw] s Hp _ IH]; intros acc v Hv; cbn [oldestKey entriesOf List.filter fst].
  - destruct acc as [[k t]|]; cbn; [|done]. exists t. split; [by left|]. split; [lia|]. intros ? ? H. by apply elem_of_nil in H.
  - destruct (managed k) eqn:Em; cbn [negb].
    2: { specialize (IH acc v Hv). destruct (oldestKey _ _ _ _); [|done]. destruct IH as (t & Ha & Ht & Hall). exists t. split; [|split; [done|]].
         - destruct Ha as [?|(r & ? & ?)]; [by left|]. right. exists r. split; [set_solver|done].
         - intros k' r [[= -> ->]|H]%elem_of_cons Hm; [congruence|eauto]. }
    destruct (Hp Em) as (t & d & Hd & Ht & Hraw). cbn [snd] in Hraw. rewrite bool_decide_false by (rewrite Hraw; apply entry_nonempty).
    pose proof (entry_parses d t Hd Ht) as Hparse. rewrite <-Hraw in Hparse. rewrite Hparse. cbn [getProp].
    assert (lookupField "cachedAt" ([("isStale"%string, VBool false); ("cachedAt"%string, VNum (JInt t) "")] ++
      match d with Some d => [("data"%string, docValue d)] | None => [] end) = VNum (JInt t) "") as -> by reflexivity.
    cbn [orElse]. assert (writtenAt raw t) as Hw by by exists d.
    assert (less foreignLess (VNum (JInt t) "") v = match acc with Some (_, t0) => t <? t0 | None => true end) as ->.
    { destruct acc as [[k0 t0]|]; cbn in Hv; [destruct Hv as [r ->]|subst v]; reflexivity. }
    assert (∀ acc' v', accTime acc' v' → (match acc with Some (_, t0) => match acc' with Some (_, t1) => t1 ≤ t0 | None => False end | None => True end) →
      (acc' = acc ∨ acc' = Some (k, t)) → (match acc' with Some (_, t1) => t1 ≤ t | None => False end) →
      match oldestKey foreignLess s (accKey acc') v' with Some k' => ∃ t', oldestOf acc ((k, raw) :: s) k' t' | None => False end) as Hgo.
    { intros acc' v' Hv' Hle Hacc Hlt. specialize (IH acc' v' Hv'). destruct (oldestKey _ _ _ _); [|destruct IH as [-> _]; done].
      destruct IH as (t' & Ha & Ht' & Hall). exists t'. split; [|split].
      - destruct Ha as [Ha|(r & ? & ?)]; [|right; exists r; split; [set_solver|done]]. destruct Hacc as [->| ->]; [by left|].
        injection Ha as <- <-. right. exists raw. split; [set_solver|done].
      - destruct acc as [[k0 t0]|], acc' as [[k1 t1]|]; try done. lia.
      - intros k' r [[= -> ->]|H]%elem_of_cons Hm; [|eauto]. exists t. split; [done|]. destruct acc' as [[k1 t1]|]; [lia|done]. }
    destruct acc as [[k0 t0]|].
    + destruct (Z.ltb_spec t t0).
      * specialize (Hgo (Some (k, t)) (VNum (JInt t) "") ltac:(by eexists) ltac:(cbn; lia) ltac:(by right) ltac:(cbn; lia)). cbn in Hgo.
        destruct (oldestKey _ _ _ _); done.
      * specialize (Hgo (Some (k0, t0)) v Hv ltac:(cbn; lia) ltac:(by left) ltac:(cbn; lia)). cbn in Hgo. cbn [accKey]. cbn. destruct (oldestKey _ _ _ _); done.
    + specialize (Hgo (Some (k, t)) (VNum (JInt t) "") ltac:(by eexists) I ltac:(by right) ltac:(cbn; lia)). cbn in Hgo. destruct (oldestKey _ _ _ _); done.
Qed.
(** Eviction removes an entry than which none was written earlier. *)
Lemma evict_oldest s : wellWritten s → entriesOf s ≠ [] → ∃ k raw t, (k, raw) ∈ s ∧ managed k = true ∧ writtenAt raw t ∧
  evictLRU foreignLess s = removeItem k s ∧ ∀ k' raw', (k', raw') ∈ s → managed k' = true → ∃ t', writtenAt raw' t' ∧ t ≤ t'.
Proof.
  intros Hw Hne. unfold evictLRU. pose proof (oldestKey_spec s Hw None (VNum JPosInf "Infinity") eq_refl) as H. cbn in H.
  destruct (oldestKey _ _ _ _) as [k|]; [|by destruct H]. destruct H as (t & [H|(raw & Hin & Hm & Hr)] & _ & Hall); [done|].
  exists k, raw, t. done.
Qed.

Lemma evictLRU_removes s : evictLRU foreignLess s = s ∨ ∃ k, evictLRU foreignLess s = removeItem k s.
Proof. unfold evictLRU. destruct (oldestKey _ _ _ _); eauto. Qed.

Lemma makeRoom_induct (Q : Storage → Prop) n e s : (∀ k s, Q s → Q (removeItem k s)) → Q s → Q (makeRoom foreignLess n e s).
Proof.
  intros Hq. revert s. induction n as [|n IH]; intros s Hs; cbn; [done|]. destruct (_ <? _); [|done]. apply IH.
  destruct (evictLRU_removes s) as [->|[k ->]]; auto.
Qed.

Lemma wellWritten_remove k s : wellWritten s → wellWritten (removeItem k s).
Proof. unfold wellWritten. rewrite !Forall_forall. intros H x [Hx _]%list_elem_of_In%filter_In. apply H. by apply list_elem_of_In. Qed.

Lemma filter_length_lt {A} (p : A → bool) (l : list A) x : x ∈ l → p x = false → (length (List.filter p l) < length l)%nat.
Proof.
  induction l as [|y l IH]; [by intros ?%elem_of_nil|]. cbn. intros [->|Hx]%elem_of_cons Hp.
  - rewrite Hp. pose proof (filter_length_le p l). lia.
  - specialize (IH Hx Hp). destruct (p y); cbn; lia.
Qed.

Lemma evict_count s : wellWritten s → entriesOf s ≠ [] → (length (entriesOf (evictLRU foreignLess s)) < length (entriesOf s))%nat.
Proof.
  intros Hw Hne. destruct (evict_oldest s Hw Hne) as (k & raw & t & Hin & Hm & _ & -> & _).
  assert (entriesOf (removeItem k s) = removeItem k (entriesOf s)) as ->.
  { unfold entriesOf, removeItem. rewrite !filter_twice. apply filter_ext. intros x. apply andb_comm. }
  apply (filter_length_lt _ _ (k, raw)); [|cbn; by rewrite bool_decide_true]. apply list_elem_of_In, filter_In. split; [by apply list_elem_of_In|done].
Qed.

Lemma usage_entries s : entriesOf s = [] → getCacheUsageBytes s = 0.
Proof.
  unfold getCacheUsageBytes, entriesOf. induction s as [|[k v] s IH]; [done|]. cbn. destruct (managed k); [done|]. intros H. unfold sumZ in *. cbn. by rewrite IH.
Qed.

Lemma makeRoom_quota n e s : wellWritten s → (length (entriesOf s) ≤ n)%nat → e ≤ QUOTA_BYTES →
  getCacheUsageBytes (makeRoom foreignLess n e s) + e ≤ QUOTA_BYTES.
Proof.
  revert s. induction n as [|n IH]; intros s Hw Hl He; cbn [makeRoom].
  - rewrite usage_entries; [lia|]. by apply length_zero_iff_nil; lia.
  - destruct (Z.ltb_spec QUOTA_BYTES (getCacheUsageBytes s + e)); [|lia]. destruct (decide (entriesOf s = [])) as [Hz|Hne].
    + rewrite usage_entries in * by done. lia.
    + apply IH; [|pose proof (evict_count s Hw Hne); lia|done]. destruct (evictLRU_removes s) as [->|[k ->]]; [done|by apply wellWritten_remove].
Qed.

Lemma usage_setItem k v s : getCacheUsageBytes (setItem k v s) ≤ getCacheUsageBytes s + bytesOf v.
Proof.
  unfold getCacheUsageBytes, sumZ. induction s as [|[k' v'] s IH]; cbn.
  - destruct (managed k); unfold bytesOf; lia.
  - destruct (decide (k = k')) as [<-|]; [rewrite bool_decide_true by done|rewrite bool_decide_false by done]; cbn; [|lia].
    destruct (managed k); unfold bytesOf in *; lia.
Qed.

(** With at most a hundred entries, all written by the cache, a write of an entry
    that fits keeps the usage within the quota, whatever has to be evicted. *)
Theorem quota_kept dom k d now s : wellWritten s → (length (entriesOf s) ≤ 100)%nat →
  bytesOf (JSON_stringify (entryDoc d now)) ≤ QUOTA_BYTES →
  getCacheUsageBytes (storageOf (cacheWrite foreignLess accepts dom k d now (Some s))) ≤ QUOTA_BYTES.
Proof.
  intros Hw Hl He. unfold cacheWrite. cbv zeta. pose proof (makeRoom_quota 100 _ s Hw Hl He) as Hq.
  assert (0 ≤ bytesOf (JSON_stringify (entryDoc d now))) by (unfold bytesOf; lia).
  revert Hq. generalize (makeRoom foreignLess 100 (bytesOf (JSON_stringify (entryDoc d now))) s). intros t Hq.
  destruct (accepts _); [|change (getCacheUsageBytes t ≤ QUOTA_BYTES); lia]. etrans; [apply usage_setItem|done].
Qed.

(** The lifetimes as documented: five, ten and two minutes. *)
Definition lifetime (d : CacheDomain) : Z :=
  match d with trades_list => 300000 | trade_detail => 600000 | notifications => 120000 end.

Lemma getItem_makeRoom key n e s : getItem key (makeRoom foreignLess n e s) = getItem key s ∨ getItem key (makeRoom foreignLess n e s) = None.
Proof.
  apply (makeRoom_induct (λ t, getItem key t = getItem key s ∨ getItem key t = None)); [|by left].
  intros k t Ht. rewrite getItem_removeItem. case_bool_decide; [by right|done].
Qed.

(** C36: Within the quota and a hundred entries, all written by the cache, and with a browser that
    takes the write: what is written is read back, dated by the time of the write and flagged
    stale exactly when its lifetime is over; the usage stays within the quota; and every other
    item is as it was or evicted, none of them if there was room. *)
Theorem cache_roundtrip dom k d now later s : exact d → Z.abs now < 2 ^ 53 →
  wellWritten s → (length (entriesOf s) ≤ 100)%nat →
  let size := bytesOf (JSON_stringify (entryDoc (Some d) now)) in
  size ≤ QUOTA_BYTES → (∀ s, accepts s = true) →
  ∃ s', cacheWrite foreignLess accepts dom k (Some d) now (Some s) = Some s' ∧
    (let stale := bool_decide (lifetime dom < later - now) in
     cacheRead dom k later (Some s') =
       ({| entry := Some {| data := docValue d; cachedAt := JInt now; entryStale := stale |}; isStale := stale; isMiss := false |}, Some s')) ∧
    getCacheUsageBytes s' ≤ QUOTA_BYTES ∧
    ∀ key, key ≠ storageKey dom k →
      (getItem key s' = getItem key s ∨ getItem key s' = None) ∧
      (getCacheUsageBytes s + size ≤ QUOTA_BYTES → getItem key s' = getItem key s).
Proof.
  intros Hd Hn Hw Hl size Hsize Ha. pose proof (quota_kept dom k (Some d) now s Hw Hl Hsize) as Hq.
  unfold cacheWrite in *. cbv zeta in *. rewrite Ha in *. eexists. split; [done|]. split_and!.
  - cbv zeta. assert (bool_decide (lifetime dom < later - now) = (TTL_MS dom <? later - now)) as ->.
    { assert (lifetime dom = TTL_MS dom) as -> by (by destruct dom). destruct (Z.ltb_spec (TTL_MS dom) (later - now)); [by apply bool_decide_true|apply bool_decide_false; lia]. }
    by apply stored_read_back.
  - exact Hq.
  - intros key Hne. rewrite getItem_setItem_ne by done. split; [apply getItem_makeRoom|].
    intros Hfit. fold size. cbn [makeRoom]. by rewrite (proj2 (Z.ltb_ge _ _)).
Qed.

(** The quota is no cap: an entry larger than all of it empties the cache and is
    written nevertheless. *)
Theorem oversized_entry_evicts_all dom k d now s : wellWritten s → (length (entriesOf s) ≤ 100)%nat →
  QUOTA_BYTES < bytesOf (JSON_stringify (entryDoc d now)) → (∀ s, accepts s = true) →
  ∃ s', cacheWrite foreignLess accepts dom k d now (Some s) = Some s' ∧
    entriesOf s' = [(storageKey dom k, JSON_stringify (entryDoc d now))] ∧ QUOTA_BYTES < getCacheUsageBytes s'.
Proof.
  intros Hw Hl He Ha. unfold cacheWrite. cbv zeta. rewrite Ha. eexists. split; [done|]. set (raw := JSON_stringify (entryDoc d now)) in *.
  assert (∀ n t, wellWritten t → (length (entriesOf t) ≤ n)%nat → entriesOf (makeRoom foreignLess n (bytesOf raw) t) = []) as Hall.
  { induction n as [|n IH]; intros t Ht Hn; cbn [makeRoom]; [by apply length_zero_iff_nil; lia|].
    destruct (Z.ltb_spec QUOTA_BYTES (getCacheUsageBytes t + bytesOf raw)) as [_|Hge].
    - destruct (decide (entriesOf t = [])) as [Hz|Hne].
      + clear IH Hn. apply (makeRoom_induct (λ t, entriesOf t = [])).
        * intros k' t' H. unfold entriesOf, removeItem in *. rewrite filter_twice, <-(filter_ext (λ x, managed x.1 && negb (bool_decide (k' = x.1)))) by (intros; apply andb_comm).
          by rewrite <-filter_twice, H.
        * destruct (evictLRU_removes t) as [->|[k' ->]]; [done|]. unfold entriesOf, removeItem in *.
          rewrite filter_twice, <-(filter_ext (λ x, managed x.1 && negb (bool_decide (k' = x.1)))) by (intros; apply andb_comm).
          by rewrite <-filter_twice, Hz.
      + apply IH; [|pose proof (evict_count t Ht Hne); lia]. destruct (evictLRU_removes t) as [->|[k' ->]]; [done|by apply wellWritten_remove].
    - exfalso. assert (0 ≤ getCacheUsageBytes t); [|lia]. apply sumZ_nonneg, Forall_forall. intros x Hx.
      apply list_elem_of_In, in_map_iff in Hx as (y & <- & _). destruct (managed y.1); unfold bytesOf; lia. }
  specialize (Hall 100%nat s Hw Hl). generalize dependent (makeRoom foreignLess 100 (bytesOf raw) s). intros t Ht.
  assert (entriesOf (setItem (storageKey dom k) raw t) = [(storageKey dom k, raw)] ∧ getCacheUsageBytes (setItem (storageKey dom k) raw t) = bytesOf raw) as [-> ->];
    [|by split]. revert Ht. unfold entriesOf, getCacheUsageBytes, sumZ. induction t as [|[k' v'] t IH]; cbn [setItem List.filter fst snd map foldr].
  - rewrite storageKey_managed. intros _. split; [done|lia].
  - destruct (managed k') eqn:Ek; [done|]. intros Ht. rewrite bool_decide_false by (intros <-; by rewrite storageKey_managed in Ek).
    cbn [List.filter fst snd map foldr]. rewrite Ek. by destruct (IH Ht) as [-> ->].
Qed.

Lemma oldestKey_managed s key time : (∀ k, key = Some k → managed k = true) → ∀ k, oldestKey foreignLess s key time = Some k → managed k = true.
Proof.
  revert key time. induction s as [|[k raw] s IH]; intros key time Hkey k'; cbn [oldestKey]; [apply Hkey|].
  destruct (managed k) eqn:Em; cbn [negb]; [|by apply IH]. case_bool_decide; [by apply IH|].
  destruct (JSON_parse raw) as [[]|]; try (case_match; apply IH; [by intros ? [= <-]|done]); by intros [= <-].
Qed.

Lemma evictLRU_foreign key s : managed key = false → getItem key (evictLRU foreignLess s) = getItem key s.
Proof.
  intros Hk. unfold evictLRU. destruct (oldestKey _ _ _ _) as [k|] eqn:E; [|done]. apply oldestKey_managed in E; [|done].
  rewrite getItem_removeItem, bool_decide_false; [done|]. intros ->. congruence.
Qed.

(** No operation of the cache touches an item that is not the cache's, and
    clearing a domain leaves the other domains alone. *)
Theorem foreign_items_kept dom k d now s key : managed key = false →
  getItem key (storageOf (cacheWrite foreignLess accepts dom k d now (Some s))) = getItem key s ∧
  getItem key (storageOf (cacheRead dom k now (Some s)).2) = getItem key s ∧
  getItem key (storageOf (cacheInvalidate dom k (Some s))) = getItem key s ∧
  getItem key (storageOf (cacheClearAll (Some s))) = getItem key s ∧
  ∀ dom' k', getItem (storageKey dom' k') (storageOf (cacheClearDomain dom (Some s))) =
    if bool_decide (dom = dom') then None else getItem (storageKey dom' k') s.
Proof.
  intros Hk. assert (∀ d' k', storageKey d' k' ≠ key) as Hne by (intros d' k' <-; by rewrite storageKey_managed in Hk).
  assert (∀ n e t, getItem key (makeRoom foreignLess n e t) = getItem key t) as Hroom.
  { induction n as [|n IH]; intros e t; cbn [makeRoom]; [done|]. destruct (_ <? _); [|done]. by rewrite IH, evictLRU_foreign. }
  split_and!.
  - unfold cacheWrite. cbv zeta. destruct (accepts _); cbn [storageOf default from_option id]; [rewrite getItem_setItem_ne by done|]; apply Hroom.
  - unfold cacheRead. destruct (getItem (storageKey dom k) s) as [[|c raw]|]; [done| |done].
    assert (getItem key (removeItem (storageKey dom k) s) = getItem key s) as Hrm by by rewrite getItem_removeItem, bool_decide_false.
    destruct (JSON_parse _) as [[]|]; try exact Hrm. destruct (lookupField _ _); try exact Hrm. by case_bool_decide.
  - cbn. by rewrite getItem_removeItem, bool_decide_false.
  - cbn. rewrite removeAll_filter. etrans; [exact (getItem_filter (λ x, negb (managed x)) key s)|]. cbn. by rewrite Hk.
  - intros dom' k'. cbn. rewrite removeAll_filter. etrans; [exact (getItem_filter (λ x, negb (startsWith (domainPrefix dom) x)) _ s)|].
    cbn -[startsWith domainPrefix storageKey]. rewrite storageKey_domain. by case_bool_decide.
Qed.
End Facts.

(** ** The hook *)

(** The state of [useCachedTrades], its [fetchingRef] and inputs, and the storage. *)
Record Hook : Type := {
  cacheKey : string; isOffline : bool; signedIn : bool; fetching : bool;
  shown : option jsval; shownStale : bool; shownAt : option jsnum; loading : bool; failure : option string;
  env : option Storage }.

Section Hook.
Context (foreignLess : jsval → jsval → bool) (accepts : Storage → bool).

Definition read (k : string) (now : Z) (e : option Storage) : CacheReadResult * option Storage := cacheRead trades_list k now e.

Definition mounted (k : string) (offline signed : bool) (now : Z) (e : option Storage) : Hook :=
  let '(r, e') := read k now e in
  {| cacheKey := k; isOffline := offline; signedIn := signed; fetching := false; shown := data <$> entry r; shownStale := isStale r;
     shownAt := cachedAt <$> entry r; loading := isMiss r; failure := None; env := e' |}.

(** [fetchFresh] up to the request; the key of the request it sends, if any. *)
Definition fetchFresh (h : Hook) : option string * Hook :=
  if negb (signedIn h) || isOffline h || fetching h then (None, h)
  else (Some (cacheKey h),
        {| cacheKey := cacheKey h; isOffline := isOffline h; signedIn := signedIn h; fetching := true; shown := shown h;
           shownStale := shownStale h; shownAt := shownAt h; loading := loading h; failure := None; env := env h |}).

(** The answer to the request for [k]. *)
Definition answered (k : string) (answer : result string Doc) (now : Z) (h : Hook) : Hook :=
  match answer with
  | Ok fresh =>
      {| cacheKey := cacheKey h; isOffline := isOffline h; signedIn := signedIn h; fetching := false; shown := Some (docValue fresh);
         shownStale := false; shownAt := Some (JInt now); loading := false; failure := failure h;
         env := cacheWrite foreignLess accepts trades_list k (Some fresh) now (env h) |}
  | Err m =>
      {| cacheKey := cacheKey h; isOffline := isOffline h; signedIn := signedIn h; fetching := false; shown := shown h;
         shownStale := shownStale h; shownAt := shownAt h; loading := false; failure := Some m; env := env h |}
  end.

(** Other parameters: the cache is read again, then the revalidation effect runs. *)
Definition paramsChanged (k : string) (now : Z) (h : Hook) : option string * Hook :=
  let '(r, e') := read k now (env h) in
  fetchFresh
    {| cacheKey := k; isOffline := isOffline h; signedIn := signedIn h; fetching := fetching h;
       shown := match entry r with Some e => Some (data e) | None => shown h end;
       shownStale := match entry r with Some _ => isStale r | None => shownStale h end;
       shownAt := match entry r with Some e => Some (cachedAt e) | None => shownAt h end;
       loading := match entry r with Some _ => false | None => true end; failure := failure h; env := e' |}.

Definition connectionChanged (offline : bool) (h : Hook) : option string * Hook :=
  fetchFresh {| cacheKey := cacheKey h; isOffline := offline; signedIn := signedIn h; fetching := fetching h; shown := shown h;
                shownStale := shownStale h; shownAt := shownAt h; loading := loading h; failure := failure h; env := env h |}.

Definition invalidateAndRefetch (h : Hook) : option string * Hook :=
  fetchFresh {| cacheKey := cacheKey h; isOffline := isOffline h; signedIn := signedIn h; fetching := fetching h; shown := None;
                shownStale := false; shownAt := None; loading := true; failure := failure h;
                env := cacheInvalidate trades_list (cacheKey h) (env h) |}.

(** With a fetch under way, changing the filter sends nothing, and the answer for
    the old filter is then shown under the new one, as fresh. *)
Theorem filter_change_shows_old_list h k now fresh later : fetching h = true → k ≠ cacheKey h →
  let '(sent, h1) := paramsChanged k now h in
  let h2 := answered (cacheKey h) (Ok fresh) later h1 in
  sent = None ∧ cacheKey h2 = k ∧ shown h2 = Some (docValue fresh) ∧ shownStale h2 = false ∧ loading h2 = false ∧ fetching h2 = false.
Proof.
  intros Hf Hk. unfold paramsChanged, fetchFresh. destruct (read k now (env h)) as [r e']. cbn. rewrite Hf, orb_true_r. done.
Qed.

(** What one session fetched is what the next one shows at once, also offline,
    and it is marked stale exactly when its lifetime is over. *)
Theorem served_offline k fresh now later (h : Hook) s : exact fresh → Z.abs now < 2 ^ 53 → env h = Some s → (∀ s, accepts s = true) →
  let h' := mounted k true (signedIn h) later (env (answered k (Ok fresh) now h)) in
  shown h' = Some (docValue fresh) ∧ shownAt h' = Some (JInt now) ∧ loading h' = false ∧
  shownStale h' = (TTL_MS trades_list <? later - now) ∧ (fetchFresh h').1 = None.
Proof.
  intros Hd Hn He Ha. unfold answered. cbn [env]. rewrite He. unfold mounted, read.
  unfold cacheWrite. rewrite Ha, stored_read_back by auto. cbn. by destruct (signedIn h).
Qed.
End Hook.

(** ** A concrete run *)

Definition numeric (a b : jsval) : bool := false.
Definition willing (s : Storage) : bool := true.
Definition sampleDoc : Doc := DObj [("items"%string, DArr [DStr "t1"; DStr "t2"]); ("total"%string, DInt 2)].
Definition otherItems : Storage := [("theme"%string, "dark"%string); ("amana_cache_v1:notifications:n"%string, "not json"%string)].

Example corrupt_goes_first : evictLRU numeric otherItems = [("theme"%string, "dark"%string)].
Proof. vm_compute. reflexivity. Qed.

Definition twoEntries : Storage :=
  [("theme"%string, "dark"%string); (storageKey trades_list "a", JSON_stringify (entryDoc (Some sampleDoc) 10));
   (storageKey trade_detail "b", JSON_stringify (entryDoc None 5))].

Lemma twoEntries_written : wellWritten twoEntries.
Proof.
  repeat apply Forall_cons_2; try apply Forall_nil_2; cbn [fst snd]; intros Hm; [discriminate Hm|exists 10|exists 5].
  - exists (Some sampleDoc). split; [cbn; lia|]. split; [lia|reflexivity].
  - exists None. split; [done|]. split; [lia|reflexivity].
Qed.

Lemma cache_roundtrip_witness : ∃ s', cacheWrite numeric willing trades_list "p1" (Some sampleDoc) 1000 (Some twoEntries) = Some s' ∧
  isStale (cacheRead trades_list "p1" 400000 (Some s')).1 = true.
Proof.
  destruct (cache_roundtrip numeric willing trades_list "p1" sampleDoc 1000 400000 twoEntries) as (s' & Hs & Hr & _);
    [cbn; lia|lia|exact twoEntries_written|vm_compute; lia|vm_compute; discriminate|reflexivity|].
  exists s'. split; [exact Hs|]. rewrite Hr. vm_compute. reflexivity.
Defined.

Lemma quota_kept_witness :
  getCacheUsageBytes (storageOf (cacheWrite numeric willing trade_detail "c" (Some sampleDoc) 20 (Some twoEntries))) ≤ QUOTA_BYTES.
Proof.
  apply (quota_kept numeric willing trade_detail "c" (Some sampleDoc) 20 twoEntries twoEntries_written); vm_compute; [lia|discriminate].
Defined.

Lemma foreign_items_kept_witness :
  getItem "theme" (storageOf (cacheWrite numeric willing trade_detail "c" (Some sampleDoc) 20 (Some twoEntries))) = getItem "theme" twoEntries.
Proof. apply (foreign_items_kept numeric willing trade_detail "c" (Some sampleDoc) 20 twoEntries "theme"). reflexivity. Defined.

Definition online : Hook := mounted "p1" false true 0 (Some otherItems).
Lemma served_offline_witness :
  let h' := mounted "p1" true true 400000 (env (answered numeric willing "p1" (Ok sampleDoc) 1000 online)) in
  shown h' = Some (docValue sampleDoc) ∧ shownAt h' = Some (JInt 1000) ∧ loading h' = false ∧
  shownStale h' = (TTL_MS trades_list <? 400000 - 1000) ∧ (fetchFresh h').1 = None.
Proof.
  cbv zeta. apply (served_offline numeric willing "p1" sampleDoc 1000 400000 online otherItems); [cbn; lia|lia|vm_compute; reflexivity|reflexivity].
Defined.

Lemma filter_change_shows_old_list_witness :
  let h := (fetchFresh online).2 in
  let '(sent, h1) := paramsChanged "p2" 5 h in
  let h2 := answered numeric willing (cacheKey h) (Ok sampleDoc) 9 h1 in
  sent = None ∧ cacheKey h2 = "p2"%string ∧ shown h2 = Some (docValue sampleDoc) ∧ shownStale h2 = false ∧ loading h2 = false ∧ fetching h2 = false.
Proof. apply (filter_change_shows_old_list numeric willing (fetchFresh online).2 "p2" 5 sampleDoc 9); [reflexivity|discriminate]. Defined.
