(* ===== verification/FeatureFlags.v ===== *)
(** * Feature flags, from the admin's toggle to the browser

    [services/feature-flags.service.ts] and [routes/admin.features.routes.ts] of
    the backend, [app/api/flags/route.ts] and [lib/featureFlags.ts] of the web
    client. Redis is a finite map of texts; a command may fail. Network answers
    and the clock are arguments. *)

From S2P Require Import Prelude JsString JsValue Json JsonText Dates.
From S2P Require DeviceContext AdminGate AuditChain.
Import DeviceContext(toInt32, toInt32_id).

(** ** The backend service *)

Definition FLAG_KEY_PREFIX : string := "feature:".
Definition flagKey (name : string) : string := (FLAG_KEY_PREFIX +:+ name)%string.

(** [z.number()]: an integer, or a numeral with the number it is read as. *)
Inductive Percent : Type := Whole (z : Z) | Numeral (c : ascii) (s : string) (n : jsnum).
Definition percentNum (p : Percent) : jsnum := match p with Whole z => JInt z | Numeral _ _ n => n end.
Definition percentDoc (p : Percent) : Doc := match p with Whole z => DInt z | Numeral c s n => DNum c s n end.

Record FeatureFlagUpdate : Type := { enabled : bool; rolloutPercentage : option Percent }.
Record FeatureFlagRecord : Type := { r_update : FeatureFlagUpdate; updatedAt : Z }.

Definition recordDoc (r : FeatureFlagRecord) : Doc :=
  DObj ([("enabled"%string, DBool (enabled (r_update r)))] ++
        match rolloutPercentage (r_update r) with Some p => [("rolloutPercentage"%string, percentDoc p)] | None => [] end ++
        [("updatedAt"%string, DStr (toISOString (updatedAt r)))]).

(** [hash ^= c; hash = Math.imul(hash, 0x01000193)] *)
Definition fnvStep (hash : Z) (c : ascii) : Z :=
  let x := toInt32 (Z.lxor (toInt32 hash) (code c)) in toInt32 (x * 16777619).
Fixpoint fnv (hash : Z) (s : string) : Z := match s with EmptyString => hash | String c s' => fnv (fnvStep hash c) s' end.
Definition hashToBucket (input : string) : Z := Z.abs (fnv 2166136261 input) mod 100.

Inductive flag_error : Type := RedisDown | RangeError (m : string).

Notation Redis := (gmap string string).

(** Whether a command reaches Redis. *)
Definition redisGet (up : bool) (k : string) (r : Redis) : result flag_error (option string) := if up then Ok (r !! k) else Err RedisDown.

Definition parseFlag (raw : option string) : option jsval :=
  match raw with None | Some ""%string => None | Some t => JSON_parse t end.

Definition getFlag (up : bool) (name : string) (r : Redis) : result flag_error (option jsval) :=
  match redisGet up (flagKey name) r with Ok raw => Ok (parseFlag raw) | Err e => Err e end.

(** [keys] of the first state, each value from the later one. *)
Definition listFlags (up upLater : bool) (r later : Redis) : result flag_error (gmap string jsval) :=
  if negb up then Err RedisDown
  else let keys := List.filter (λ k, match stripPrefix FLAG_KEY_PREFIX k with Some _ => true | None => false end) (map_to_list r).*1 in
       if bool_decide (keys = []) then Ok ∅
       else if negb upLater then Err RedisDown
       else Ok (foldr (λ k acc, match stripPrefix FLAG_KEY_PREFIX k, parseFlag (later !! k) with
                                | Some name, Some v => <[name := v]> acc
                                | _, _ => acc
                                end) ∅ keys).

Definition belowZero (n : jsnum) : bool := match n with JInt z => z <? 0 | JNonInt f => f <? 0 | JNegInf => true | _ => false end.
Definition aboveHundred (n : jsnum) : bool := match n with JInt z => 100 <? z | JNonInt f => 100 <=? f | JPosInf => true | _ => false end.

Definition setFlag (up : bool) (name : string) (u : FeatureFlagUpdate) (now : Z) (r : Redis) : result flag_error FeatureFlagRecord * Redis :=
  if match rolloutPercentage u with Some p => belowZero (percentNum p) || aboveHundred (percentNum p) | None => false end
  then (Err (RangeError "rolloutPercentage must be between 0 and 100"), r)
  else let rec := {| r_update := u; updatedAt := now |} in
       if up then (Ok rec, <[flagKey name := JSON_stringify (recordDoc rec)]> r) else (Err RedisDown, r).

Definition deleteFlag (up : bool) (name : string) (r : Redis) : result flag_error unit * Redis :=
  if up then (Ok tt, delete (flagKey name) r) else (Err RedisDown, r).

Definition atLeastHundred (n : jsnum) : bool := match n with JInt z => 100 <=? z | JNonInt f => 100 <=? f | JPosInf => true | _ => false end.
Definition atMostZero (n : jsnum) : bool := match n with JInt z => z <=? 0 | JNonInt f => f <? 0 | JNegInf => true | _ => false end.
(** [bucket < rollout] for an integer bucket. *)
Definition bucketBelow (b : Z) (n : jsnum) : bool :=
  match n with JInt z => b <? z | JNonInt f => b <=? f | JPosInf => true | _ => false end.

Definition decideFlag (flag : option jsval) (name : string) (userId : option string) : bool :=
  match flag with
  | None => false
  | Some v =>
      if negb (isTruthy v && isTruthy (getProp v "enabled")) then false
      else match getProp v "rolloutPercentage" with
           | VUndefined => true
           | rollout =>
               let n := toNumber rollout in
               if atLeastHundred n then true
               else if atMostZero n then false
               else match userId with
                    | None | Some ""%string => false
                    | Some u => bucketBelow (hashToBucket (name +:+ ":" +:+ u)) n
                    end
           end
  end.

Definition isEnabled (up : bool) (name : string) (userId : option string) (r : Redis) : result flag_error bool :=
  match getFlag up name r with Ok flag => Ok (decideFlag flag name userId) | Err e => Err e end.

(** ** The admin routes *)

(** The answer of [GET /api/admin/features]: refused without a token or to a
    caller the gate does not admit. *)
Inductive FeaturesAnswer : Type := Refused (status : Z) | Flags (flags : gmap string jsval) | Failed (e : flag_error).
Definition getFeatures (token : option string) (admitted : string → bool) (up upLater : bool) (r later : Redis) : FeaturesAnswer :=
  match token with
  | None => Refused 401
  | Some t => if admitted t then match listFlags up upLater r later with Ok f => Flags f | Err e => Failed e end else Refused 403
  end.

Definition nameChar (c : ascii) : bool :=
  let n := N_of_ascii c in
  ((97 <=? n) && (n <=? 122) || (65 <=? n) && (n <=? 90) || (48 <=? n) && (n <=? 57) || (n =? 46) || (n =? 95) || (n =? 45))%N.
Definition validName (name : string) : bool :=
  negb (bool_decide (name = ""%string)) && (strlen name <=? 100)%nat && str_forall nameChar name.

Inductive patch_error : Type := BadRequest | ServiceFailed (e : flag_error) | AuditFailed.

(** [PATCH /api/admin/features/:name]: sets the flag, then writes the audit row. *)
Definition patchFeature {T} (audit : AuditChain.AuditChainEntryInput → T → option T) (up : bool) (name wallet : string)
    (u : FeatureFlagUpdate) (now : Z) (r : Redis) (db : T) : result patch_error FeatureFlagRecord * Redis * T :=
  if negb (validName name) ||
     match rolloutPercentage u with Some p => belowZero (percentNum p) || aboveHundred (percentNum p) | None => false end
  then (Err BadRequest, r, db)
  else match setFlag up name u now r with
  | (Ok rec, r') =>
      match audit {| AuditChain.action := "UPDATE_FEATURE_FLAG"; AuditChain.actorAddress := wallet; AuditChain.targetReference := Some name;
                     AuditChain.note := Some (JSON_stringify (DObj ([("enabled"%string, DBool (enabled u))] ++
                        match rolloutPercentage u with Some p => [("rolloutPercentage"%string, percentDoc p)] | None => [] end)));
                     AuditChain.createdAt := now |} db with
      | Some db' => (Ok rec, r', db')
      | None => (Err AuditFailed, r', db)
      end
  | (Err e, r') => (Err (ServiceFailed e), r', db)
  end.

(** ** The bootstrap route *)

Inductive FlagName : Type := adminUI | clawbackUI | advancedReporting | offlineBanner | tradeWizardV2.
#[export] Instance FlagName_eq_dec : EqDecision FlagName. Proof. solve_decision. Defined.

Definition flagName (f : FlagName) : string :=
  match f with
  | adminUI => "adminUI" | clawbackUI => "clawbackUI" | advancedReporting => "advancedReporting"
  | offlineBanner => "offlineBanner" | tradeWizardV2 => "tradeWizardV2"
  end.
Definition allFlags : list FlagName := [adminUI; clawbackUI; advancedReporting; offlineBanner; tradeWizardV2].
Definition FLAG_CATALOG (f : FlagName) : bool := match f with offlineBanner => true | _ => false end.

(** A value per flag; a partial map has one for some. *)
Definition FeatureFlags : Type := FlagName → bool.
Definition Partial : Type := FlagName → option bool.

(** [process.env] *)
Definition Env : Type := string → option string.
Definition isTrue (v : option string) : bool := bool_decide (v = Some "true"%string).

Definition getFeatureFlags (env : Env) (f : FlagName) : bool :=
  match f with
  | adminUI => isTrue (env "NEXT_PUBLIC_ENABLE_ADMIN_UI") || FLAG_CATALOG f
  | clawbackUI => isTrue (env "NEXT_PUBLIC_ENABLE_CLAWBACK_UI") || FLAG_CATALOG f
  | advancedReporting => isTrue (env "NEXT_PUBLIC_ENABLE_ADVANCED_REPORTING") || FLAG_CATALOG f
  | offlineBanner => negb (isTrue (env "NEXT_PUBLIC_DISABLE_OFFLINE_BANNER")) && FLAG_CATALOG f
  | tradeWizardV2 => isTrue (env "NEXT_PUBLIC_ENABLE_TRADE_WIZARD_V2") || FLAG_CATALOG f
  end.

(** [key.replace(/([A-Z])/g, '_$1').toUpperCase()] on ASCII letters *)
Definition upperChar (c : ascii) : ascii := let n := N_of_ascii c in if ((97 <=? n) && (n <=? 122))%N then ascii_of_N (n - 32) else c.
Definition isUpper (c : ascii) : bool := let n := N_of_ascii c in ((65 <=? n) && (n <=? 90))%N.
Fixpoint snakeUpper (s : string) : string :=
  match s with
  | EmptyString => EmptyString
  | String c s' => if isUpper c then String "_" (String c (snakeUpper s')) else String (upperChar c) (snakeUpper s')
  end.
Definition envKey (f : FlagName) : string := ("NEXT_PUBLIC_ENABLE_" +:+ snakeUpper (flagName f))%string.

(** [fetchBackendFlags]: what an answer of the backend contributes. [None]: the
    request failed or timed out. A [null] record throws, and nothing is contributed. *)
Definition isNull (v : option jsval) : bool := match v with Some VNull => true | _ => false end.
Definition fetchBackendFlags (answer : option FeaturesAnswer) : Partial := λ f,
  match answer with
  | Some (Flags flags) =>
      if existsb (λ g, isNull (flags !! flagName g)) allFlags then None
      else (λ record, isTruthy (getProp record "enabled")) <$> flags !! flagName f
  | _ => None
  end.

Definition resolveFlags (env : Env) (backend : Partial) : FeatureFlags := λ f,
  match backend f with
  | Some b => b
  | None => match env (envKey f) with Some v => bool_decide (v = "true"%string) | None => FLAG_CATALOG f end
  end.

(** [GET /api/flags]; it calls the backend without a token. *)
Definition GET (env : Env) (backend : option string → option FeaturesAnswer) : FeatureFlags :=
  resolveFlags env (fetchBackendFlags (backend None)).

(** ** The browser's cache *)

Definition SERVER_FLAGS_TTL_MS : Z := 30000.

Record Counters : Type := { hits : Z; misses : Z; staleServes : Z; inFlightDedupes : Z; serverRequests : Z; serverErrors : Z; lastLookupAt : option Z }.
Record CacheEntry : Type := { flags : FeatureFlags; fetchedAt : Z; revalidating : bool }.

(** The module's state. *)
Record Flagger : Type := { counters : Counters; cache : option CacheEntry; inFlight : bool }.

Definition noCounts : Counters :=
  {| hits := 0; misses := 0; staleServes := 0; inFlightDedupes := 0; serverRequests := 0; serverErrors := 0; lastLookupAt := None |}.
Definition initial : Flagger := {| counters := noCounts; cache := None; inFlight := false |}.

Definition mergeFlagsWithDefaults (partial : Partial) : FeatureFlags := λ f, match partial f with Some b => b | None => FLAG_CATALOG f end.
Definition catalogDefaults : FeatureFlags := mergeFlagsWithDefaults (λ _, None).

(** What [fetchFlagsFromServer] resolves to. [Err]: it threw, or the status was not OK. *)
Definition fetched (answer : result unit Partial) : FeatureFlags :=
  match answer with Ok p => mergeFlagsWithDefaults p | Err _ => catalogDefaults end.
Definition countAnswer (answer : result unit Partial) (c : Counters) : Counters :=
  {| hits := hits c; misses := misses c; staleServes := staleServes c; inFlightDedupes := inFlightDedupes c; serverRequests := serverRequests c;
     serverErrors := serverErrors c + match answer with Ok _ => 0 | Err _ => 1 end; lastLookupAt := lastLookupAt c |}.

(** What a lookup returns at once: flags, or the pending request. *)
Inductive Served : Type := Now (f : FeatureFlags) | Pending.
(** The request a lookup sends, if any. *)
Inductive Sent : Type := Nothing | Cold | Background.

Definition lookupFlags (now : Z) (m : Flagger) : Served * Sent * Flagger :=
  let c := counters m in
  match cache m with
  | Some e =>
      if now - fetchedAt e <? SERVER_FLAGS_TTL_MS then
        (Now (flags e), Nothing,
         {| counters := {| hits := hits c + 1; misses := misses c; staleServes := staleServes c; inFlightDedupes := inFlightDedupes c;
                           serverRequests := serverRequests c; serverErrors := serverErrors c; lastLookupAt := Some now |};
            cache := cache m; inFlight := inFlight m |})
      else
        (Now (flags e), if revalidating e then Nothing else Background,
         {| counters := {| hits := hits c; misses := misses c; staleServes := staleServes c + 1; inFlightDedupes := inFlightDedupes c;
                           serverRequests := serverRequests c + (if revalidating e then 0 else 1); serverErrors := serverErrors c; lastLookupAt := Some now |};
            cache := Some {| flags := flags e; fetchedAt := fetchedAt e; revalidating := true |}; inFlight := inFlight m |})
  | None =>
      if inFlight m then
        (Pending, Nothing,
         {| counters := {| hits := hits c; misses := misses c; staleServes := staleServes c; inFlightDedupes := inFlightDedupes c + 1;
                           serverRequests := serverRequests c; serverErrors := serverErrors c; lastLookupAt := Some now |};
            cache := None; inFlight := true |})
      else
        (Pending, Cold,
         {| counters := {| hits := hits c; misses := misses c + 1; staleServes := staleServes c; inFlightDedupes := inFlightDedupes c;
                           serverRequests := serverRequests c + 1; serverErrors := serverErrors c; lastLookupAt := Some now |};
            cache := None; inFlight := true |})
  end.

(** The [then] of the background request, and of the cold one. *)
Definition settleBackground (answer : result unit Partial) (now : Z) (m : Flagger) : Flagger :=
  {| counters := countAnswer answer (counters m);
     cache := Some {| flags := fetched answer; fetchedAt := now; revalidating := false |}; inFlight := inFlight m |}.
Definition settleCold (answer : result unit Partial) (now : Z) (m : Flagger) : Flagger :=
  {| counters := countAnswer answer (counters m);
     cache := Some {| flags := fetched answer; fetchedAt := now; revalidating := false |}; inFlight := false |}.

Definition totalLookups (c : Counters) : Z := hits c + misses c + staleServes c + inFlightDedupes c.
Definition networkRequestsSaved (c : Counters) : Z := totalLookups c - serverRequests c.
Definition invalidateFlagCache (m : Flagger) : Flagger := {| counters := counters m; cache := None; inFlight := false |}.

(** ** Percentages *)

Definition exactPercent (p : Percent) : Prop := match p with Whole z => Z.abs z < 2 ^ 53 | Numeral c s n => reads c s n end.

Lemma hashToBucket_range s : 0 ≤ hashToBucket s < 100.
Proof. unfold hashToBucket. apply Z.mod_pos_bound. lia. Qed.

Lemma flagKey_inj a b : flagKey a = flagKey b → a = b.
Proof. unfold flagKey. intros H. by apply (inj (String.append FLAG_KEY_PREFIX)) in H. Qed.

(** Who a flag is on for, by its settings. *)
Definition onFor (u : FeatureFlagUpdate) (name : string) (userId : option string) : Prop :=
  enabled u = true ∧
  match rolloutPercentage u with
  | None => True
  | Some p => atLeastHundred (percentNum p) = true ∨
      (atMostZero (percentNum p) = false ∧ ∃ id, userId = Some id ∧ id ≠ ""%string ∧ bucketBelow (hashToBucket (name +:+ ":" +:+ id)) (percentNum p) = true)
  end.

Lemma decideFlag_record u now name userId : match rolloutPercentage u with Some p => exactPercent p | None => True end →
  decideFlag (parseFlag (Some (JSON_stringify (recordDoc {| r_update := u; updatedAt := now |})))) name userId = true ↔ onFor u name userId.
Proof.
  destruct u as [en roll]. cbn [rolloutPercentage]. intros Hp.
  assert (parseFlag (Some (JSON_stringify (recordDoc {| r_update := {| enabled := en; rolloutPercentage := roll |}; updatedAt := now |}))) =
    Some (docValue (recordDoc {| r_update := {| enabled := en; rolloutPercentage := roll |}; updatedAt := now |}))) as ->.
  { set (d := recordDoc _). assert (exact d) as Hd by (destruct roll as [[]|]; cbn in *; tauto).
    pose proof (JSON_roundtrip d Hd) as Hr. unfold parseFlag. pose proof (docText_length d "") as Hl. unfold JSON_stringify in *.
    destruct (docText d "") as [|c s]; [cbn in Hl; lia|done]. }
  unfold onFor. cbn [enabled rolloutPercentage]. destruct en; [|cbn; split; [by destruct roll|by intros []]].
  assert (getProp (docValue (recordDoc {| r_update := {| enabled := true; rolloutPercentage := roll |}; updatedAt := now |})) "rolloutPercentage" =
    match roll with Some p => VNum (percentNum p) "" | None => VUndefined end) as Hroll by by destruct roll as [[]|].
  assert (isTruthy (docValue (recordDoc {| r_update := {| enabled := true; rolloutPercentage := roll |}; updatedAt := now |})) &&
    isTruthy (getProp (docValue (recordDoc {| r_update := {| enabled := true; rolloutPercentage := roll |}; updatedAt := now |})) "enabled") = true) as Hen
    by by destruct roll as [[]|].
  unfold decideFlag. rewrite Hen, Hroll. cbn [negb]. destruct roll as [p|]; [|by split].
  assert (toNumber (VNum (percentNum p) "") = percentNum p) as -> by done. destruct (atLeastHundred (percentNum p)); [split; auto|].
  destruct (atMostZero (percentNum p)); [split; [done|intros (_ & [?|[? _]]); done]|].
  destruct userId as [[|c id]|].
  - split; [done|]. intros (_ & [?|(_ & id & [= <-] & Hne & _)]); done.
  - split; [intros H; split; [done|right; split; [done|by exists (String c id)]]|]. intros (_ & [?|(_ & id' & [= <-] & _ & Hb)]); done.
  - split; [done|]. intros (_ & [?|(_ & id & ? & _)]); done.
Qed.

(** Once an update is stored, the flag is on for exactly those it names (enabled,
    and everybody, or the users whose bucket is below the percentage), and every
    other flag is as it was. *)
Theorem setFlag_decides name u now r rec r' userId : match rolloutPercentage u with Some p => exactPercent p | None => True end →
  setFlag true name u now r = (Ok rec, r') →
  (∃ b, isEnabled true name userId r' = Ok b ∧ (b = true ↔ onFor u name userId)) ∧
  ∀ other id, other ≠ name → isEnabled true other id r' = isEnabled true other id r.
Proof.
  intros Hp. unfold setFlag. destruct (match rolloutPercentage u with Some p => _ | None => false end); [done|]. intros H.
  assert (r' = <[flagKey name := JSON_stringify (recordDoc {| r_update := u; updatedAt := now |})]> r) as -> by congruence.
  unfold isEnabled, getFlag, redisGet. split.
  - rewrite lookup_insert_eq. eexists. split; [reflexivity|]. by apply decideFlag_record.
  - intros other id Hne. rewrite lookup_insert_ne; [done|]. intros Hk. by apply flagKey_inj in Hk.
Qed.

Definition percentLe (a b : jsnum) : Prop :=
  match a, b with
  | JInt x, JInt y => x ≤ y | JInt x, JNonInt y => x ≤ y | JNonInt x, JInt y => x < y | JNonInt x, JNonInt y => x < y
  | _, _ => False
  end.

(** Raising the percentage of a flag never turns it off for anybody. *)
Theorem rollout_monotone name p q userId : percentLe (percentNum p) (percentNum q) →
  onFor {| enabled := true; rolloutPercentage := Some p |} name userId → onFor {| enabled := true; rolloutPercentage := Some q |} name userId.
Proof.
  unfold onFor. cbn [enabled rolloutPercentage]. intros Hle (_ & H). split; [done|].
  assert (∀ b, 0 ≤ b < 100 → bucketBelow b (percentNum p) = true → bucketBelow b (percentNum q) = true) as Hb.
  { intros b _. destruct (percentNum p), (percentNum q); cbn in *; try done; zb; lia. }
  destruct H as [H|(Hz & id & Hid & Hne & Hbk)].
  - left. destruct (percentNum p), (percentNum q); cbn in *; try done; zb; lia.
  - right. specialize (Hb _ (hashToBucket_range (name +:+ ":" +:+ id)) Hbk). split; [|exists id; done].
    pose proof (hashToBucket_range (name +:+ ":" +:+ id)). destruct (percentNum q); cbn in *; try done; zb; lia.
Qed.

(** ** From the admin to the browser *)

(** The settings of the administrator never reach the browser: the bootstrap
    route calls the backend without a token and is refused, so it answers with
    the environment and the catalog. *)
Theorem toggles_never_reach_browser env admitted up upLater r later f :
  GET env (λ token, Some (getFeatures token admitted up upLater r later)) f = resolveFlags env (λ _, None) f.
Proof. reflexivity. Qed.

(** If it were let in, a flag at zero percent would be on. *)
Theorem percentage_ignored env (r : gmap string jsval) f rest :
  r !! flagName f = Some (VObj None (("enabled"%string, VBool true) :: ("rolloutPercentage"%string, VNum (JInt 0) "0") :: rest)) →
  existsb (λ g, isNull (r !! flagName g)) allFlags = false →
  resolveFlags env (fetchBackendFlags (Some (Flags r))) f = true.
Proof. intros H Hn. unfold resolveFlags, fetchBackendFlags. by rewrite Hn, H. Qed.

(** The environment variables the route reads for two of the flags are not those
    the client reads for them. *)
Theorem env_keys_disagree :
  envKey adminUI = "NEXT_PUBLIC_ENABLE_ADMIN_U_I"%string ∧ envKey clawbackUI = "NEXT_PUBLIC_ENABLE_CLAWBACK_U_I"%string ∧
  ∀ env, env "NEXT_PUBLIC_ENABLE_ADMIN_UI"%string = Some "true"%string → env (envKey adminUI) = None →
    getFeatureFlags env adminUI = true ∧ resolveFlags env (λ _, None) adminUI = false.
Proof.
  split; [reflexivity|]. split; [reflexivity|]. intros env H1 H2. unfold getFeatureFlags, resolveFlags. rewrite H2, H1. done.
Qed.

(** ** The browser's cache *)

Inductive Tick : Type := Lookup (now : Z) | Settle (answer : result unit Partial) (now : Z).

(** The module, the requests under way, and how many lookups and requests there were. *)
Record Page : Type := { module : Flagger; outstanding : list Sent; lookups : Z; requests : Z }.

Definition tick (t : Tick) (p : Page) : Page :=
  match t with
  | Lookup now =>
      let '(_, sent, m) := lookupFlags now (module p) in
      match sent with
      | Nothing => {| module := m; outstanding := outstanding p; lookups := lookups p + 1; requests := requests p |}
      | _ => {| module := m; outstanding := outstanding p ++ [sent]; lookups := lookups p + 1; requests := requests p + 1 |}
      end
  | Settle answer now =>
      match outstanding p with
      | [] => p
      | Cold :: rest => {| module := settleCold answer now (module p); outstanding := rest; lookups := lookups p; requests := requests p |}
      | _ :: rest => {| module := settleBackground answer now (module p); outstanding := rest; lookups := lookups p; requests := requests p |}
      end
  end.
Definition ticks (ts : list Tick) (p : Page) : Page := foldl (λ p t, tick t p) p ts.
Definition opened : Page := {| module := initial; outstanding := []; lookups := 0; requests := 0 |}.

Record coherent (p : Page) : Prop := {
  c_outstanding : outstanding p = match cache (module p) with
    | None => if inFlight (module p) then [Cold] else []
    | Some e => if revalidating e then [Background] else []
    end;
  c_loaded : is_Some (cache (module p)) → inFlight (module p) = false;
  c_lookups : totalLookups (counters (module p)) = lookups p;
  c_requests : serverRequests (counters (module p)) = requests p;
  c_saved : serverRequests (counters (module p)) ≤ misses (counters (module p)) + staleServes (counters (module p));
  c_counts : 0 ≤ hits (counters (module p)) ∧ 0 ≤ misses (counters (module p)) ∧ 0 ≤ staleServes (counters (module p)) ∧
    0 ≤ inFlightDedupes (counters (module p)) }.

Lemma tick_coherent t p : coherent p → coherent (tick t p).
Proof.
  intros [Ho Hl Hn Hr Hs Hc]. destruct p as [[c e fl] out n q]. cbn in *. subst out n q. destruct t as [now|answer now]; cbn.
  - unfold lookupFlags. cbn. destruct e as [[f at_ rv]|]; cbn in *.
    + rewrite Hl by eauto. destruct (_ <? _); [split; cbn; try done; try lia; unfold totalLookups; cbn; lia|].
      destruct rv; split; cbn; try done; try lia; unfold totalLookups; cbn; lia.
    + destruct fl; split; cbn; try done; try lia; try (unfold totalLookups; cbn; lia); by intros [].
  - destruct e as [[f at_ rv]|]; cbn in *.
    + rewrite Hl by eauto. destruct rv; split; cbn; try done; by rewrite ?Hl by eauto.
    + destruct fl; split; cbn; try done.
Qed.

Lemma ticks_coherent ts p : coherent p → coherent (ticks ts p).
Proof. unfold ticks. revert p. induction ts as [|t ts IH]; intros p Hp; cbn; [done|]. by apply IH, tick_coherent. Qed.

Lemma opened_coherent : coherent opened.
Proof. split; cbn; try done; try lia. Qed.

(** Whatever the order of lookups and answers, at most one request is under way,
    the counters agree with what happened, no request is sent without a lookup that
    needed it, and once flags were loaded no lookup waits for the network again. *)
Theorem single_flight ts : let p := ticks ts opened in
  (length (outstanding p) ≤ 1)%nat ∧ totalLookups (counters (module p)) = lookups p ∧
  serverRequests (counters (module p)) = requests p ∧ 0 ≤ networkRequestsSaved (counters (module p)) ∧
  ∀ now, is_Some (cache (module p)) → ∃ f, (lookupFlags now (module p)).1.1 = Now f.
Proof.
  intros p. pose proof (ticks_coherent ts opened opened_coherent) as [Ho _ Hn Hr Hs Hc]. fold p in Ho, Hn, Hr, Hs, Hc. split_and!; try done.
  - rewrite Ho. destruct (cache (module p)) as [[? ? rv]|]; [destruct rv|destruct (inFlight (module p))]; cbn; lia.
  - unfold networkRequestsSaved, totalLookups. lia.
  - intros now [e He]. unfold lookupFlags. rewrite He. destruct (_ <? _); by eexists.
Qed.

(** Stale flags are only served while a request for newer ones is under way. *)
Theorem stale_is_revalidating ts now f : let p := ticks ts opened in
  (lookupFlags now (module p)).1.1 = Now f →
  (∃ e, cache (module p) = Some e ∧ flags e = f ∧ now - fetchedAt e < SERVER_FLAGS_TTL_MS) ∨ outstanding (tick (Lookup now) p) ≠ [].
Proof.
  intros p H. pose proof (ticks_coherent ts opened opened_coherent) as Hp. fold p in Hp. pose proof (tick_coherent (Lookup now) p Hp) as [Ho _ _ _ _ _].
  destruct (cache (module p)) as [e|] eqn:He.
  - unfold lookupFlags in H. rewrite He in H. destruct (Z.ltb_spec (now - fetchedAt e) SERVER_FLAGS_TTL_MS).
    + left. exists e. by injection H as <-.
    + right. intros Hz. rewrite Hz in Ho. cbn in Ho. unfold lookupFlags in Ho. rewrite He in Ho. cbn in Ho.
      destruct (Z.ltb_spec (now - fetchedAt e) SERVER_FLAGS_TTL_MS); [lia|]. by destruct (revalidating e).
  - unfold lookupFlags in H. rewrite He in H. by destruct (inFlight (module p)).
Qed.

(** A failed request is served as the catalog's defaults. *)
Theorem failure_is_failsafe now m f : fetched (Err tt) f = FLAG_CATALOG f ∧
  (∀ e, cache (settleBackground (Err tt) now m) = Some e → flags e f = FLAG_CATALOG f).
Proof. split; [done|]. intros e. cbn. by intros [= <-]. Qed.

(** ** Concrete runs *)

(** The 32-bit FNV-1a digest of the text a, and a bucket. *)
Example fnv_a : DeviceContext.toUint32 (fnv 2166136261 "a") = 3826002220. Proof. vm_compute. reflexivity. Qed.

Definition half : FeatureFlagUpdate := {| enabled := true; rolloutPercentage := Some (Whole 50) |}.

Lemma setFlag_decides_witness :
  ∃ rec r', setFlag true "adminUI" half 0 ∅ = (Ok rec, r') ∧
    (∃ b, isEnabled true "adminUI" (Some "u1"%string) r' = Ok b ∧ (b = true ↔ onFor half "adminUI" (Some "u1"%string))) ∧
    isEnabled true "other" None r' = Ok false.
Proof.
  exists {| r_update := half; updatedAt := 0 |}, {[ "feature:adminUI"%string := JSON_stringify (recordDoc {| r_update := half; updatedAt := 0 |}) ]}.
  assert (Hset : setFlag true "adminUI" half 0 ∅ = (Ok {| r_update := half; updatedAt := 0 |},
    {[ "feature:adminUI"%string := JSON_stringify (recordDoc {| r_update := half; updatedAt := 0 |}) ]})) by reflexivity.
  split; [exact Hset|].
  destruct (setFlag_decides "adminUI" half 0 ∅ _ _ (Some "u1"%string) ltac:(cbn; lia) Hset) as [H1 H2].
  split; [exact H1|]. etrans; [apply (H2 "other"%string None); discriminate|reflexivity].
Defined.

Lemma rollout_monotone_witness : ∃ id,
  onFor half "f" (Some id) ∧ onFor {| enabled := true; rolloutPercentage := Some (Whole 80) |} "f" (Some id).
Proof.
  exists "u1"%string. assert (onFor half "f" (Some "u1"%string)) as H.
  { split; [reflexivity|]. right. split; [reflexivity|]. exists "u1"%string. split; [reflexivity|]. split; [discriminate|vm_compute; reflexivity]. }
  split; [exact H|]. apply (rollout_monotone "f" (Whole 50) (Whole 80) (Some "u1"%string)); [cbn; lia|exact H].
Defined.
