(* ===== verification/TradeDeadline.v ===== *)
(** * Delivery deadlines in the web client

    [frontend/src/lib/tradeDeadline.ts]. Reading a date out of a text is an
    argument ([None] is an invalid date), times are milliseconds; a delivery
    window is a whole number of days, as the creation form stores it. *)

From S2P Require Import Prelude JsString.

Definition MS_PER_DAY : Z := 24 * 60 * 60 * 1000.
Definition DEADLINE_SOON_WINDOW_DAYS : Z := 7.
Definition TERMINAL_STATUSES : list string := ["completed"; "settled"; "cancelled"; "canceled"; "expired"; "refunded"; "failed"]%string.

Inductive TradeDeadlineSource : Type := FromExpiresAt | FromEta | FromDeliveryDays.
Inductive DeadlineState : Type := overdue | due_today | due_soon | on_track | unknown.
#[export] Instance DeadlineState_eq_dec : EqDecision DeadlineState. Proof. solve_decision. Defined.

Record TradeDeadlineLike : Type := {
  status : option string; createdAt : option string; eta : option string; expiresAt : option string; deliveryDays : option Z }.

Record DeadlineInfo : Type := { deadline : option Z; source : option TradeDeadlineSource; daysRemaining : option Z; state : DeadlineState }.

Definition isTerminalStatus (status : option string) : bool :=
  match status with Some s => bool_decide (toLowerCase s ∈ TERMINAL_STATUSES) | None => false end.

Section Deadlines.
Context (Date : string → option Z).

Definition parseDate (value : option string) : option Z :=
  match value with None | Some ""%string => None | Some s => Date s end.

Definition resolveDeadline (trade : option TradeDeadlineLike) : option (Z * TradeDeadlineSource) :=
  match trade with
  | None => None
  | Some t =>
      match parseDate (expiresAt t), parseDate (eta t), parseDate (createdAt t), deliveryDays t with
      | Some d, _, _, _ => Some (d, FromExpiresAt)
      | None, Some d, _, _ => Some (d, FromEta)
      | None, None, Some created, Some days => if 0 <? days then Some (created + days * MS_PER_DAY, FromDeliveryDays) else None
      | _, _, _, _ => None
      end
  end.

(** [Math.ceil(a / b)] *)
Definition ceilDiv (a b : Z) : Z := - ((- a) / b).

Definition getDeadlineInfo (trade : option TradeDeadlineLike) (now windowDays : Z) : DeadlineInfo :=
  match resolveDeadline trade with
  | None => {| deadline := None; source := None; daysRemaining := None; state := unknown |}
  | Some (d, src) =>
      let diffMs := d - now in
      {| deadline := Some d; source := Some src; daysRemaining := Some (ceilDiv diffMs MS_PER_DAY);
         state := if diffMs <? 0 then overdue else if diffMs <? MS_PER_DAY then due_today
                  else if diffMs <=? windowDays * MS_PER_DAY then due_soon else on_track |}
  end.

Definition isNearDeadline (trade : option TradeDeadlineLike) (now windowDays : Z) : bool :=
  if isTerminalStatus (t ← trade; status t) then false
  else match state (getDeadlineInfo trade now windowDays) with overdue | due_today | due_soon => true | _ => false end.

Definition deadlineOf (t : TradeDeadlineLike) : option Z := fst <$> resolveDeadline (Some t).

Definition compareByDeadline (a b : TradeDeadlineLike) : Z :=
  match deadlineOf a, deadlineOf b with
  | Some x, Some y => x - y
  | Some _, None => -1
  | None, Some _ => 1
  | None, None => 0
  end.

(** [toLocaleDateString] is an argument. *)
Definition formatDeadlineLabel (localeDate : Z → string) (info : DeadlineInfo) : option string :=
  match state info with
  | unknown => None
  | overdue => Some "Overdue"%string
  | due_today => Some "Due today"%string
  | due_soon => Some ("Due in " +:+ match daysRemaining info with Some d => toString d | None => "null" end +:+ "d")%string
  | on_track => (λ d, ("Due " +:+ localeDate d)%string) <$> deadline info
  end.

(** ** Facts *)

Lemma ceilDiv_spec a b : 0 < b → b * (ceilDiv a b - 1) < a ≤ b * ceilDiv a b.
Proof. intros Hb. unfold ceilDiv. pose proof (Z.div_mod (- a) b). pose proof (Z.mod_pos_bound (- a) b). nia. Qed.

(** A trade is near its deadline exactly when it is still open and has a
    deadline that is past, less than a day off, or within the window. *)
Theorem near_deadline_spec trade now windowDays :
  isNearDeadline trade now windowDays = true ↔
  isTerminalStatus (t ← trade; status t) = false ∧
  ∃ d src, resolveDeadline trade = Some (d, src) ∧ (d - now < MS_PER_DAY ∨ d - now ≤ windowDays * MS_PER_DAY).
Proof.
  unfold isNearDeadline, getDeadlineInfo. destruct (isTerminalStatus _); [split; [done|by intros [? _]]|].
  destruct (resolveDeadline trade) as [[d src]|]; [|split; [done|by intros (_ & ? & ? & ? & _)]]. cbn [state].
  assert (0 < MS_PER_DAY) by done.
  destruct (Z.ltb_spec (d - now) 0), (Z.ltb_spec (d - now) MS_PER_DAY), (Z.leb_spec (d - now) (windowDays * MS_PER_DAY));
    (split; [intros _; split; [done|]; exists d, src; split; [done|lia] | intros _; reflexivity]) || idtac.
  all: split; [done|]; intros (_ & ? & ? & [= <- <-] & ?); lia.
Qed.

Lemma compareByDeadline_comparator : Comparator compareByDeadline.
Proof. split; unfold compareByDeadline; intros; repeat (destruct (deadlineOf _)); lia. Qed.

Definition dated (t : TradeDeadlineLike) : bool := match deadlineOf t with Some _ => true | None => false end.

Lemma insert_dated x a n : dated x = true → Forall (λ y, dated y = true) a → Forall (λ y, dated y = false) n →
  js_insert compareByDeadline x (a ++ n) = js_insert compareByDeadline x a ++ n.
Proof.
  unfold dated. intros Hx Ha Hn. induction Ha as [|y a Hy Ha IH]; cbn.
  - destruct Hn as [|y n Hy Hn]; [done|]. cbn. unfold compareByDeadline. by destruct (deadlineOf x), (deadlineOf y).
  - destruct (_ <=? _); [done|]. cbn. by rewrite IH.
Qed.

Lemma insert_undated x a n : dated x = false → Forall (λ y, dated y = true) a → Forall (λ y, dated y = false) n →
  js_insert compareByDeadline x (a ++ n) = a ++ x :: n.
Proof.
  unfold dated. intros Hx Ha Hn. induction Ha as [|y a Hy Ha IH]; cbn.
  - destruct Hn as [|y n Hy Hn]; [done|]. cbn. unfold compareByDeadline. by destruct (deadlineOf x), (deadlineOf y).
  - unfold compareByDeadline at 1. destruct (deadlineOf x), (deadlineOf y); try done. by rewrite IH.
Qed.

(** Sorting by deadline lists the trades that have one, soonest first, and then
    all others in the order they came. *)
Theorem deadline_order l :
  js_sort compareByDeadline l = js_sort compareByDeadline (List.filter dated l) ++ List.filter (λ t, negb (dated t)) l ∧
  StronglySorted (λ a b, ∃ x y, deadlineOf a = Some x ∧ deadlineOf b = Some y ∧ x ≤ y) (js_sort compareByDeadline (List.filter dated l)).
Proof.
  assert (∀ l, Forall (λ y, dated y = true) (js_sort compareByDeadline (List.filter dated l))) as Hd.
  { intros k. apply Forall_forall. intros y Hy. rewrite js_sort_elem in Hy. by apply list_elem_of_In, filter_In in Hy as [_ ?]. }
  split.
  - induction l as [|x l IH]; [done|]. change (js_sort compareByDeadline (x :: l)) with (js_insert compareByDeadline x (js_sort compareByDeadline l)).
    rewrite IH. cbn [List.filter]. assert (Forall (λ y, dated y = false) (List.filter (λ t, negb (dated t)) l)) as Hn.
    { apply Forall_forall. intros y [_ Hy]%list_elem_of_In%filter_In. by apply negb_true_iff. }
    destruct (dated x) eqn:Ex; cbn [negb]; [by rewrite insert_dated|by rewrite insert_undated].
  - pose proof (js_sort_sorted compareByDeadline (comparator_total _ compareByDeadline_comparator)
      (cmp_le_trans _ compareByDeadline_comparator) (List.filter dated l)) as Hs.
    specialize (Hd l). revert Hs Hd. generalize (js_sort compareByDeadline (List.filter dated l)).
    induction 1 as [|x s _ IH Hx]; intros Hd; inversion Hd as [|?? Hdx Hds]; subst; constructor; [by apply IH|].
    apply Forall_forall. intros y Hy. rewrite Forall_forall in Hx, Hds. specialize (Hx y Hy). specialize (Hds y Hy).
    unfold dated, cmp_le, compareByDeadline in *. destruct (deadlineOf x) as [a|], (deadlineOf y) as [b|]; try done. exists a, b. split_and!; [done..|lia].
Qed.

(** A deadline less than a day off is reported as one day remaining, not zero. *)
Theorem due_today_counts_one trade now w d src : resolveDeadline trade = Some (d, src) → 0 < d - now < MS_PER_DAY →
  state (getDeadlineInfo trade now w) = due_today ∧ daysRemaining (getDeadlineInfo trade now w) = Some 1.
Proof.
  intros Hd Hr. unfold getDeadlineInfo. rewrite Hd. cbn. destruct (Z.ltb_spec (d - now) 0); [lia|]. destruct (Z.ltb_spec (d - now) MS_PER_DAY); [|lia].
  split; [done|]. f_equal. pose proof (ceilDiv_spec (d - now) MS_PER_DAY). unfold MS_PER_DAY in *. lia.
Qed.
End Deadlines.
