(* ===== verification/Wallet.v ===== *)
(** * Connecting the wallet

    [frontend/src/lib/wallet/state-machine.ts], which derives what to show from
    the probe of the Freighter extension, and the identity store of
    [frontend/src/hooks/useFreighterIdentity.ts], whose operations overlap: an
    operation is started, and its answers arrive later. Texts are looked up by an
    argument. *)

From S2P Require Import Prelude JsString.

(** ** States *)

Inductive WalletState : Type :=
| idle | detecting | absent | locked | connecting | rejected | wrong_network | connected | timeout | error.
#[export] Instance WalletState_eq_dec : EqDecision WalletState. Proof. solve_decision. Defined.

Definition WALLET_STATES : list WalletState :=
  [idle; detecting; absent; locked; connecting; rejected; wrong_network; connected; timeout; error].
Definition BLOCKED_STATES : list WalletState := [absent; locked; rejected; wrong_network; timeout; error].

Inductive WalletProbeError : Type := ProbeDeclined | ProbeLocked | ProbeTimeout | ProbeUnknown.

Record WalletProbe : Type := {
  detected : bool; allowed : bool; hasAddress : bool; network : option string; expectedNetwork : string;
  awaiting : bool; probeError : option WalletProbeError }.

Definition deriveWalletState (p : WalletProbe) : WalletState :=
  if awaiting p then connecting
  else match probeError p with
       | Some ProbeDeclined => rejected
       | Some ProbeTimeout => timeout
       | Some ProbeLocked => locked
       | Some ProbeUnknown => error
       | None =>
           if negb (detected p) then absent
           else if allowed p && negb (hasAddress p) then locked
           else if negb (allowed p) || negb (hasAddress p) then idle
           else match network p with
                | None | Some ""%string => connected
                | Some n => if bool_decide (n = expectedNetwork p) then connected else wrong_network
                end
       end.

Inductive WalletAction : Type := install | unlock | retry | switch_network | connect.

Record WalletStateView : Type := {
  v_state : WalletState; title : string; body : string; ctaLabel : option string; action : option WalletAction; href : option string }.

Definition FREIGHTER_HOME : string := "https://www.freighter.app/".

(** [t] looks a text up by its key, with the expected network where it is mentioned. *)
Definition describeWalletState (t : string → option string → string) (s : WalletState) (expectedNetwork : option string) : WalletStateView :=
  let expected := default ""%string expectedNetwork in
  match s with
  | absent => {| v_state := s; title := t "wallet.absentTitle" None; body := t "wallet.absentBody" None;
                 ctaLabel := Some (t "wallet.absentCta" None); action := Some install; href := Some FREIGHTER_HOME |}
  | locked => {| v_state := s; title := t "wallet.lockedTitle" None; body := t "wallet.lockedBody" None;
                 ctaLabel := Some (t "wallet.lockedCta" None); action := Some unlock; href := Some FREIGHTER_HOME |}
  | rejected => {| v_state := s; title := t "wallet.rejectedTitle" None; body := t "wallet.rejectedBody" None;
                   ctaLabel := Some (t "wallet.rejectedCta" None); action := Some retry; href := None |}
  | wrong_network => {| v_state := s; title := t "wallet.wrongNetworkTitle" None; body := t "wallet.wrongNetworkBody" (Some expected);
                        ctaLabel := Some (t "wallet.wrongNetworkCta" (Some expected)); action := Some switch_network; href := None |}
  | timeout => {| v_state := s; title := t "wallet.timeoutTitle" None; body := t "wallet.timeoutBody" None;
                  ctaLabel := Some (t "wallet.timeoutCta" None); action := Some retry; href := None |}
  | error => {| v_state := s; title := t "common.somethingWentWrong" None; body := t "wallet.timeoutBody" None;
                ctaLabel := Some (t "common.retry" None); action := Some retry; href := None |}
  | connecting => {| v_state := s; title := t "wallet.connecting" None; body := t "wallet.connecting" None; ctaLabel := None; action := None; href := None |}
  | connected => {| v_state := s; title := t "wallet.connect" None; body := ""; ctaLabel := None; action := None; href := None |}
  | _ => {| v_state := s; title := t "wallet.connect" None; body := ""; ctaLabel := Some (t "wallet.connect" None); action := Some connect; href := None |}
  end.

Definition WALLET_CALL_TIMEOUT_MS : Z := 8000.

(** [withWalletTimeout]: the call settles at a time, or never; on a tie [first]
    says whether its callback runs before the timer's. *)
Inductive Raced (E A : Type) : Type := Settled (r : result E A) | TimedOut.
Arguments Settled {E A} _. Arguments TimedOut {E A}.
Definition withWalletTimeout {E A} (call : option (Z * result E A)) (ms : Z) (first : bool) : Z * Raced E A :=
  match call with
  | Some (at_, r) => if (at_ <? ms) || ((at_ =? ms) && first) then (at_, Settled r) else (ms, TimedOut)
  | None => (ms, TimedOut)
  end.

(** The telemetry of a state: its own event, and a failure when it is blocked. *)
Definition trackWalletState (s : WalletState) : list (string * WalletState) :=
  ("wallet_state"%string, s) :: (if bool_decide (s ∈ BLOCKED_STATES) then [("wallet_blocked"%string, s)] else []).

(** The connected state is derived exactly for an authorised extension with an
    address and no pending call or error, on the expected network or on one it does
    not name; every other state but the transient ones tells the user what to do, and the
    blocked states are exactly those that are also reported as failures. *)
Theorem wallet_state_spec t p :
  (deriveWalletState p = connected ↔
     awaiting p = false ∧ probeError p = None ∧ detected p = true ∧ allowed p = true ∧ hasAddress p = true ∧
     (network p = None ∨ network p = Some ""%string ∨ network p = Some (expectedNetwork p))) ∧
  (∀ s e, action (describeWalletState t s e) = None ↔ s = connecting ∨ s = connected) ∧
  (∀ s e, is_Some (ctaLabel (describeWalletState t s e)) ↔ is_Some (action (describeWalletState t s e))) ∧
  (∀ s, s ∈ BLOCKED_STATES ↔ ("wallet_blocked"%string, s) ∈ trackWalletState s).
Proof.
  split_and!.
  - unfold deriveWalletState. destruct p as [dt al ha nw ex aw pe]; cbn. destruct aw; [naive_solver|]. destruct pe as [[]|]; [naive_solver..|].
    destruct dt, al, ha; cbn; try naive_solver. destruct nw as [[|c n]|]; [naive_solver| |naive_solver].
    case_bool_decide as Hn; [rewrite Hn; naive_solver|]. split; [done|]. intros (_ & _ & _ & _ & _ & [?|[?|[= ?]]]); done.
  - intros s e. destruct s; cbn; naive_solver.
  - intros s e. destruct s; cbn; split; intros [? ?]; try done; by eexists.
  - intros s. unfold trackWalletState. case_bool_decide as Hs; split; intros H; try done; [set_solver|].
    apply elem_of_cons in H as [H|H]; [discriminate H|by apply elem_of_nil in H].
Qed.

(** A call always ends by the deadline, with its own result if it was in time. *)
Theorem call_ends_by_deadline {E A} (call : option (Z * result E A)) ms first :
  (withWalletTimeout call ms first).1 ≤ ms ∧
  (∀ at_ r, call = Some (at_, r) → at_ < ms → withWalletTimeout call ms first = (at_, Settled r)) ∧
  (call = None → withWalletTimeout call ms first = (ms, TimedOut)).
Proof.
  unfold withWalletTimeout. destruct call as [[at_ r]|]; split_and!; try done; cbn.
  - destruct (Z.ltb_spec at_ ms); cbn; [lia|]. destruct (Z.eqb_spec at_ ms), first; cbn; lia.
  - intros ? ? [= <- <-] Hlt. apply Z.ltb_lt in Hlt. by rewrite Hlt.
Qed.

(** An extension that names no network counts as being on the right one. *)
Theorem unknown_network_connects p : awaiting p = false → probeError p = None → detected p = true → allowed p = true →
  hasAddress p = true → network p = None → deriveWalletState p = connected.
Proof. unfold deriveWalletState. by intros -> -> -> -> -> ->. Qed.

(** ** The identity store *)

Record Snapshot : Type := { address : option string; isAuthorized : bool; isWalletDetected : bool; isLoading : bool }.
Definition initialState : Snapshot := {| address := None; isAuthorized := false; isWalletDetected := false; isLoading := true |}.

(** The module's variables; [pending] are the operations whose answers are awaited. *)
Inductive Operation : Type := Refresh | Connect.
Record Identity : Type := { storeState : Snapshot; hasInitialized : bool; activeOperationId : nat; pending : gmap nat Operation }.
Definition fresh : Identity := {| storeState := initialState; hasInitialized := false; activeOperationId := 0; pending := ∅ |}.

Definition withLoading (s : Snapshot) : Snapshot :=
  {| address := address s; isAuthorized := isAuthorized s; isWalletDetected := isWalletDetected s; isLoading := true |}.

(** [beginOperation], and the store update before the first [await]. *)
Definition start (op : Operation) (i : Identity) : Identity :=
  let n := S (activeOperationId i) in
  {| storeState := withLoading (storeState i); hasInitialized := hasInitialized i; activeOperationId := n; pending := <[n := op]> (pending i) |}.

Definition refreshIdentityStore (i : Identity) : Identity :=
  start Refresh {| storeState := storeState i; hasInitialized := true; activeOperationId := activeOperationId i; pending := pending i |}.
Definition connectWalletStore (i : Identity) : Identity := start Connect i.
Definition ensureInitialized (i : Identity) : Identity := if hasInitialized i then i else refreshIdentityStore i.

(** What the extension answered to a refresh: each call with its value, or an
    error in the result; [None] when a call threw. *)
Record RefreshAnswers : Type := { connectedResult : option bool; allowedResult : option bool; addressResult : option string }.
Definition isTrue (r : option bool) : bool := match r with Some b => b | None => false end.

Definition refreshed (answers : option RefreshAnswers) : Snapshot :=
  match answers with
  | None => {| address := None; isAuthorized := false; isWalletDetected := false; isLoading := false |}
  | Some a =>
      let hasWallet := isTrue (connectedResult a) in
      let hasPermission := isTrue (allowedResult a) in
      {| address := if hasWallet && hasPermission then addressResult a else None;
         isAuthorized := hasWallet && hasPermission; isWalletDetected := hasWallet; isLoading := false |}
  end.

Definition publish (n : nat) (s : Snapshot) (i : Identity) : Identity :=
  {| storeState := if (n =? activeOperationId i)%nat then s else storeState i; hasInitialized := hasInitialized i;
     activeOperationId := activeOperationId i; pending := delete n (pending i) |}.

Definition refreshDone (n : nat) (answers : option RefreshAnswers) (i : Identity) : Identity := publish n (refreshed answers) i.

(** [requestAccess] answered with an address, or failed: then everything is refreshed. *)
Definition connectDone (n : nat) (answer : option string) (i : Identity) : Identity :=
  match answer with
  | Some a => publish n {| address := Some a; isAuthorized := true; isWalletDetected := true; isLoading := false |} i
  | None => refreshIdentityStore {| storeState := storeState i; hasInitialized := hasInitialized i; activeOperationId := activeOperationId i; pending := delete n (pending i) |}
  end.

Inductive Event : Type := Mount | UserConnects | UserRefreshes | RefreshAnswered (n : nat) (a : option RefreshAnswers) | ConnectAnswered (n : nat) (a : option string).

(** Answers are to operations that are pending. *)
Definition handle (e : Event) (i : Identity) : Identity :=
  match e with
  | Mount => ensureInitialized i
  | UserConnects => connectWalletStore i
  | UserRefreshes => refreshIdentityStore i
  | RefreshAnswered n a => match pending i !! n with Some Refresh => refreshDone n a i | _ => i end
  | ConnectAnswered n a => match pending i !! n with Some Connect => connectDone n a i | _ => i end
  end.
Definition handleAll (es : list Event) (i : Identity) : Identity := foldl (λ i e, handle e i) i es.

(** ** The latest operation decides *)

(** Loading is shown exactly while the latest operation is pending, once one was started. *)
Record settled (i : Identity) : Prop := {
  s_pending n op : pending i !! n = Some op → (0 < n ≤ activeOperationId i)%nat;
  s_loading : activeOperationId i ≠ 0%nat → (isLoading (storeState i) = true ↔ is_Some (pending i !! activeOperationId i)) }.

Lemma start_settled op i : settled i → settled (start op i).
Proof.
  intros [Hp Hl]. split; cbn.
  - intros n o [[<- _]|[_ H]]%lookup_insert_Some; [lia|]. apply Hp in H. lia.
  - intros _. split; [intros _|done]. rewrite lookup_insert_eq. by eexists.
Qed.

Lemma publish_settled n s i : isLoading s = false → settled i → is_Some (pending i !! n) → settled (publish n s i).
Proof.
  intros Hs [Hp Hl] [op Hn]. split; cbn.
  - intros m o [_ H]%lookup_delete_Some. by eapply Hp.
  - intros Ha. destruct (Nat.eqb_spec n (activeOperationId i)) as [->|Hne].
    + rewrite Hs, lookup_delete_eq. split; [done|by intros []].
    + rewrite lookup_delete_ne by done. by apply Hl.
Qed.

Lemma forget_settled n i op : settled i → settled (start op {| storeState := storeState i; hasInitialized := true; activeOperationId := activeOperationId i; pending := delete n (pending i) |}).
Proof.
  intros [Hp Hl]. split; cbn.
  - intros m o [[<- _]|[_ H]]%lookup_insert_Some; [lia|]. apply lookup_delete_Some in H as [_ H]. apply Hp in H. lia.
  - intros _. split; [intros _|done]. rewrite lookup_insert_eq. by eexists.
Qed.

Lemma handle_settled e i : settled i → settled (handle e i).
Proof.
  intros Hi. destruct e as [| | |n a|n a]; cbn.
  - unfold ensureInitialized. destruct (hasInitialized i); [done|]. apply start_settled. by destruct Hi; split.
  - by apply start_settled.
  - apply start_settled. by destruct Hi; split.
  - destruct (pending i !! n) as [[]|] eqn:E; try done. apply publish_settled; [by destruct a|done|by rewrite E].
  - destruct (pending i !! n) as [[]|] eqn:E; try done. destruct a; [apply publish_settled; [done..|by rewrite E]|].
    unfold connectDone, refreshIdentityStore. cbn. by apply forget_settled.
Qed.

Lemma handleAll_settled es i : settled i → settled (handleAll es i).
Proof. unfold handleAll. revert i. induction es as [|e es IH]; intros i Hi; cbn; [done|]. by apply IH, handle_settled. Qed.

Lemma fresh_settled : settled fresh.
Proof. split; cbn; [intros n op H; by rewrite lookup_empty in H|done]. Qed.

(** C38: however operations overlap, the spinner is shown exactly while the operation
    started last is pending, an answer to any earlier operation changes nothing that
    is shown (a failed connection starts a new operation), and the answer to the
    last one is what is shown. *)
Theorem latest_operation_decides es n : let i := handleAll es fresh in
  (activeOperationId i ≠ 0%nat → (isLoading (storeState i) = true ↔ is_Some (pending i !! activeOperationId i))) ∧
  (∀ a, n ≠ activeOperationId i → storeState (handle (RefreshAnswered n a) i) = storeState i) ∧
  (∀ a, n ≠ activeOperationId i → storeState (handle (ConnectAnswered n (Some a)) i) = storeState i) ∧
  (∀ a, pending i !! activeOperationId i = Some Refresh → storeState (handle (RefreshAnswered (activeOperationId i) a) i) = refreshed a) ∧
  (∀ a, pending i !! activeOperationId i = Some Connect →
     address (storeState (handle (ConnectAnswered (activeOperationId i) (Some a)) i)) = Some a).
Proof.
  intros i. split; [by apply handleAll_settled, fresh_settled|]. split_and!; cbn.
  - intros a Hn. destruct (pending i !! n) as [[]|]; try done. cbn. by destruct (Nat.eqb_spec n (activeOperationId i)).
  - intros a Hn. destruct (pending i !! n) as [[]|]; try done. cbn. by destruct (Nat.eqb_spec n (activeOperationId i)).
  - intros a Hp. rewrite Hp. cbn. by rewrite Nat.eqb_refl.
  - intros a Hp. rewrite Hp. cbn. by rewrite Nat.eqb_refl.
Qed.

(** A connection the user dismissed supersedes a refresh started after it. *)
Example stale_failure_supersedes :
  let i := handleAll [UserConnects; UserRefreshes; ConnectAnswered 1 None] fresh in
  activeOperationId i = 3%nat ∧ storeState (handle (RefreshAnswered 2 None) i) = storeState i.
Proof. vm_compute. split; reflexivity. Qed.
