(* ===== verification/BulkImport.v ===== *)
(** * Bulk import of trades

    [frontend/src/lib/bulkImport.ts]: parsing the CSV text a cooperative pastes. *)

From S2P Require Import Prelude JsString JsValue.

Record BulkTradeRow : Type := { sellerAddress : string; amountUsdc : string; buyerLossBps : Z; sellerLossBps : Z }.
Record BulkCsvError : Type := { line : Z; message : string }.
Record BulkCsvResult : Type := { rows : list BulkTradeRow; errors : list BulkCsvError }.

Definition BULK_IMPORT_MAX_ROWS : Z := 50.

(** [/^G[A-Z2-7]{55}$/] *)
Definition base32Char (c : ascii) : bool := let n := N_of_ascii c in ((65 <=? n) && (n <=? 90) || (50 <=? n) && (n <=? 55))%N.
Definition isStellarAddress (s : string) : bool :=
  match s with String "G" r => (strlen r =? 55)%nat && str_forall base32Char r | _ => false end.

(** [/^\d+(?:\.\d{1,7})?$/] *)
Fixpoint spanDigit (s : string) : string * string :=
  match s with
  | String c r => if is_digit c then let '(a, b) := spanDigit r in (String c a, b) else (EmptyString, s)
  | EmptyString => (EmptyString, EmptyString)
  end.
Definition isAmount (s : string) : bool :=
  let '(whole, rest) := spanDigit s in
  negb (bool_decide (whole = ""%string)) &&
  match rest with
  | EmptyString => true
  | String "." frac => str_forall is_digit frac && (1 <=? strlen frac)%nat && (strlen frac <=? 7)%nat
  | _ => false
  end.

(** [/^\d+$/] *)
Definition allDigits (s : string) : bool := negb (bool_decide (s = ""%string)) && str_forall is_digit s.

Definition parseBps (value : option string) (fallback : Z) : option Z :=
  match value with
  | None | Some ""%string => Some fallback
  | Some s =>
      if negb (allDigits s) then None
      else match StringToNumber s with
           | JInt n => if (0 <=? n) && (n <=? 10000) then Some n else None
           | _ => None
           end
  end.

(** [text.split(/\r?\n/)] *)
Definition CR : ascii := "013"%char.
Definition LF : ascii := "010"%char.
Fixpoint dropLastCR (s : string) : string :=
  match s with
  | EmptyString => EmptyString
  | String c EmptyString => if Ascii.eqb c CR then EmptyString else s
  | String c r => String c (dropLastCR r)
  end.
(** Every line but the last ended in a line feed, and loses a carriage return before it. *)
Fixpoint stripCRs (l : list string) : list string :=
  match l with [] => [] | [x] => [x] | x :: l => dropLastCR x :: stripCRs l end.
Definition splitLines (text : string) : list string := stripCRs (split LF text).

(** [/seller/i.test(s)] *)
Definition mentionsSeller (s : string) : bool := contains "seller" (toLowerCase s).

Definition notPositive (n : jsnum) : bool := match n with JInt z => z <=? 0 | JNonInt f => f <? 0 | JNegInf => true | _ => false end.

(** What one line adds: nothing, an error, or a row. *)
Definition parseLine (lineNumber : Z) (rawLine : string) : option (BulkCsvError + BulkTradeRow) :=
  let l := trim rawLine in
  if bool_decide (l = ""%string) || match l with String "#" _ => true | _ => false end then None
  else
    let cells := map trim (split "," l) in
    let seller := default ""%string (cells !! 0%nat) in
    let amount := default ""%string (cells !! 1%nat) in
    if (lineNumber =? 1) && negb (isStellarAddress seller) && mentionsSeller seller then None
    else if negb (isStellarAddress seller) then Some (inl {| line := lineNumber; message := "Invalid sellerAddress" |})
    else if negb (isAmount amount) || notPositive (StringToNumber amount) then Some (inl {| line := lineNumber; message := "Invalid amountUsdc" |})
    else match parseBps (cells !! 2%nat) 5000, parseBps (cells !! 3%nat) 5000 with
         | Some b, Some s =>
             if negb (b + s =? 10000) then Some (inl {| line := lineNumber; message := "Loss splits must sum to 10000" |})
             else Some (inr {| sellerAddress := seller; amountUsdc := amount; buyerLossBps := b; sellerLossBps := s |})
         | _, _ => Some (inl {| line := lineNumber; message := "Loss splits must be integers 0-10000" |})
         end.

Fixpoint parseLines (n : Z) (ls : list string) : BulkCsvResult :=
  match ls with
  | [] => {| rows := []; errors := [] |}
  | l :: ls =>
      let r := parseLines (n + 1) ls in
      match parseLine n l with
      | None => r
      | Some (inl e) => {| rows := rows r; errors := e :: errors r |}
      | Some (inr t) => {| rows := t :: rows r; errors := errors r |}
      end
  end.

Definition parseBulkCsv (text : string) : BulkCsvResult :=
  let r := parseLines 1 (splitLines text) in
  if BULK_IMPORT_MAX_ROWS <? Z.of_nat (length (rows r)) then
    {| rows := []; errors := [{| line := 0; message := "Too many rows: " +:+ toString (Z.of_nat (length (rows r))) +:+
                                    " (maximum " +:+ toString BULK_IMPORT_MAX_ROWS +:+ " per request)" |}] |}
  else r.

(** ** Facts *)

Definition validRow (t : BulkTradeRow) : Prop :=
  isStellarAddress (sellerAddress t) = true ∧ isAmount (amountUsdc t) = true ∧ notPositive (StringToNumber (amountUsdc t)) = false ∧
  0 ≤ buyerLossBps t ≤ 10000 ∧ 0 ≤ sellerLossBps t ≤ 10000 ∧ buyerLossBps t + sellerLossBps t = 10000.

Lemma parseBps_range v d n : 0 ≤ d ≤ 10000 → parseBps v d = Some n → 0 ≤ n ≤ 10000.
Proof.
  intros Hd. unfold parseBps. destruct v as [[|c s]|]; try (intros [= <-]; lia). destruct (negb _); [done|].
  destruct (StringToNumber _); try done. destruct (_ && _) eqn:E; [|done]. intros [= <-]. zb. lia.
Qed.

Lemma parseLine_row n l t : parseLine n l = Some (inr t) → validRow t.
Proof.
  unfold parseLine. cbv zeta. generalize (map trim (split "," (trim l))). intros cells. destruct (_ || _); [done|].
  generalize (default ""%string (cells !! 0%nat)) (default ""%string (cells !! 1%nat)). intros seller amount.
  destruct (_ && _ && _); [done|]. destruct (isStellarAddress seller) eqn:Ea; [|done]. cbn [negb].
  destruct (isAmount amount) eqn:Em; [|done]. cbn [negb orb]. destruct (notPositive _) eqn:Ep; [done|].
  destruct (parseBps (cells !! 2%nat) 5000) as [b|] eqn:Eb; [|done]. destruct (parseBps (cells !! 3%nat) 5000) as [s|] eqn:Es; [|done].
  apply parseBps_range in Eb; [|lia]. apply parseBps_range in Es; [|lia].
  destruct (Z.eqb_spec (b + s) 10000); [|done]. cbn. intros [= <-]. done.
Qed.

Definition rowOf (r : option (BulkCsvError + BulkTradeRow)) : option BulkTradeRow := match r with Some (inr t) => Some t | _ => None end.
Definition errorOf (r : option (BulkCsvError + BulkTradeRow)) : option BulkCsvError := match r with Some (inl e) => Some e | _ => None end.

Lemma parseLines_omap n ls :
  rows (parseLines n ls) = omap rowOf (imap (λ i l, parseLine (n + Z.of_nat i) l) ls) ∧
  errors (parseLines n ls) = omap errorOf (imap (λ i l, parseLine (n + Z.of_nat i) l) ls).
Proof.
  revert n. induction ls as [|l ls IH]; intros n; [done|]. cbn [parseLines imap omap list_omap]. rewrite Z.add_0_r.
  destruct (IH (n + 1)) as [Hr He].
  rewrite (imap_ext _ (λ i l, parseLine (n + 1 + Z.of_nat i) l)) by (intros i x _; cbn; f_equal; lia).
  by destruct (parseLine n l) as [[e|t]|]; cbn; rewrite Hr, He.
Qed.

(** An import yields at most fifty rows, every one with a well-formed address, a
    positive amount and loss splits that add up; unless there are more, each line
    contributes its row or its error, in order, and no row is invented. *)
Theorem parseBulkCsv_spec text : let r := parseBulkCsv text in
  let parsed := imap (λ i l, parseLine (1 + Z.of_nat i) l) (splitLines text) in
  Forall validRow (rows r) ∧ Z.of_nat (length (rows r)) ≤ BULK_IMPORT_MAX_ROWS ∧
  if BULK_IMPORT_MAX_ROWS <? Z.of_nat (length (omap rowOf parsed))
  then rows r = [] ∧ length (errors r) = 1%nat
  else rows r = omap rowOf parsed ∧ errors r = omap errorOf parsed.
Proof.
  intros r parsed. destruct (parseLines_omap 1 (splitLines text)) as [Hr He]. fold parsed in Hr, He.
  assert (Forall validRow (rows (parseLines 1 (splitLines text)))) as Hv.
  { rewrite Hr. apply Forall_forall. intros t (x & Hx & Ht)%list_elem_of_omap. apply elem_of_lookup_imap in Hx as (i & l & -> & _).
    destruct (parseLine _ l) as [[]|] eqn:E; try done. injection Ht as <-. by apply parseLine_row in E. }
  unfold r, parseBulkCsv. rewrite <-Hr. destruct (Z.ltb_spec BULK_IMPORT_MAX_ROWS (Z.of_nat (length (rows (parseLines 1 (splitLines text)))))).
  - by split_and!.
  - split_and!; done.
Qed.

(** ** Printing and parsing *)

Definition formatRow (t : BulkTradeRow) : string :=
  join "," [sellerAddress t; amountUsdc t; toString (buyerLossBps t); toString (sellerLossBps t)].

Definition plain (c : ascii) : bool := negb (is_space c) && negb (Ascii.eqb c ",").

Lemma spanDigit_app s : let '(a, b) := spanDigit s in s = (a +:+ b)%string ∧ str_forall is_digit a = true.
Proof.
  induction s as [|c s IH]; cbn; [done|]. destruct (is_digit c) eqn:E; [|done]. destruct (spanDigit s) as [a b]. destruct IH as [-> H].
  rewrite app_cons_str. cbn. by rewrite E.
Qed.

Lemma digit_plain c : is_digit c = true → plain c = true.
Proof. destruct c as [[] [] [] [] [] [] [] []]; first [discriminate | reflexivity]. Qed.
Lemma base32_plain c : base32Char c = true → plain c = true.
Proof. destruct c as [[] [] [] [] [] [] [] []]; first [discriminate | reflexivity]. Qed.

Lemma address_plain s : isStellarAddress s = true → str_forall plain s = true.
Proof.
  unfold isStellarAddress. destruct s as [|[[] [] [] [] [] [] [] []] s]; try discriminate. intros [_ H]%andb_true_iff. cbn.
  revert H. apply str_forall_impl, base32_plain.
Qed.

Lemma amount_plain s : isAmount s = true → str_forall plain s = true.
Proof.
  unfold isAmount. pose proof (spanDigit_app s) as H. destruct (spanDigit s) as [a b]. destruct H as [-> Ha]. intros [_ Hb]%andb_true_iff.
  rewrite str_forall_app. apply andb_true_iff. split; [revert Ha; apply str_forall_impl, digit_plain|].
  destruct b as [|[[] [] [] [] [] [] [] []] b]; try discriminate; [done|]. apply andb_true_iff in Hb as [[Hb _]%andb_true_iff _].
  cbn. revert Hb. apply str_forall_impl, digit_plain.
Qed.

Lemma bps_reads : forallb (λ k, match parseBps (Some (toString (Z.of_nat k))) 5000 with Some m => m =? Z.of_nat k | None => false end) (seq 0 (Z.to_nat 10001)) = true.
Proof. vm_compute. reflexivity. Qed.

Lemma parseBps_toString z : 0 ≤ z ≤ 10000 → parseBps (Some (toString z)) 5000 = Some z ∧ str_forall plain (toString z) = true.
Proof.
  intros Hz. split.
  - pose proof bps_reads as H. rewrite forallb_forall in H. specialize (H (Z.to_nat z)). rewrite Z2Nat.id in H by lia.
    destruct (parseBps _ _) as [m|]; [f_equal; apply Z.eqb_eq, H|discriminate H]; apply in_seq; lia.
  - unfold toString. destruct (Z.ltb_spec z 0); [lia|]. destruct (natToString_spec z ltac:(lia)) as (Hd & _). revert Hd.
    apply str_forall_impl, digit_plain.
Qed.

Lemma formatRow_plain t : validRow t → str_forall (λ c, negb (is_space c)) (formatRow t) = true ∧
  Forall (lacks ",") [sellerAddress t; amountUsdc t; toString (buyerLossBps t); toString (sellerLossBps t)] ∧
  Forall (λ s, str_forall (λ c, negb (is_space c)) s = true) [sellerAddress t; amountUsdc t; toString (buyerLossBps t); toString (sellerLossBps t)].
Proof.
  intros (Ha & Hm & _ & Hb & Hs & _). apply address_plain in Ha. apply amount_plain in Hm.
  destruct (parseBps_toString _ Hb) as [_ Hpb]. destruct (parseBps_toString _ Hs) as [_ Hps].
  assert (∀ s, str_forall plain s = true → lacks "," s ∧ str_forall (λ c, negb (is_space c)) s = true) as Hpl.
  { intros s H. split; revert H; apply str_forall_impl; unfold plain; intros c [H1 H2]%andb_true_iff; done. }
  destruct (Hpl _ Ha), (Hpl _ Hm), (Hpl _ Hpb), (Hpl _ Hps). split_and!; [|by repeat constructor..].
  unfold formatRow. cbn [join]. repeat (rewrite str_forall_app; apply andb_true_iff; split; [done|]; cbn [str_forall]; apply andb_true_iff; split; [done|]). done.
Qed.

Lemma parseLine_format n t : validRow t → parseLine n (formatRow t) = Some (inr t).
Proof.
  intros Hv. destruct (formatRow_plain t Hv) as (Hp & Hl & Hpl). destruct Hv as (Ha & Hm & Hpos & Hb & Hs & Hsum).
  unfold parseLine. cbv zeta. rewrite (trim_nospace (formatRow t) Hp).
  assert (split "," (formatRow t) = [sellerAddress t; amountUsdc t; toString (buyerLossBps t); toString (sellerLossBps t)]) as ->
    by (unfold formatRow; by rewrite split_join).
  assert (map trim [sellerAddress t; amountUsdc t; toString (buyerLossBps t); toString (sellerLossBps t)] =
    [sellerAddress t; amountUsdc t; toString (buyerLossBps t); toString (sellerLossBps t)]) as ->.
  { rewrite <-(map_id [sellerAddress t; amountUsdc t; toString (buyerLossBps t); toString (sellerLossBps t)]) at 2.
    apply map_ext_Forall. eapply Forall_impl; [exact Hpl|]. intros s H. by apply trim_nospace. }
  cbn [lookup list_lookup default from_option id]. rewrite Ha, Hm, Hpos. destruct (parseBps_toString _ Hb) as [-> _]. destruct (parseBps_toString _ Hs) as [-> _].
  rewrite Hsum, andb_false_r. cbn.
  destruct t as [a m b s]. cbn in *. unfold isStellarAddress in Ha. by destruct a as [|[[] [] [] [] [] [] [] []] a].
Qed.

Lemma stripCRs_plain l : Forall (λ s, str_forall (λ c, negb (is_space c)) s = true) l → stripCRs l = l.
Proof.
  assert (∀ s, str_forall (λ c, negb (is_space c)) s = true → dropLastCR s = s) as Hd.
  { induction s as [|c s IH]; [done|]. cbn. intros [Hc Hs]%andb_true_iff. rewrite IH by done. destruct s; [|done].
    by destruct (Ascii.eqb_spec c CR) as [->|]. }
  induction 1 as [|x l Hx Hl IH]; [done|]. cbn. destruct l; [done|]. by rewrite Hd, IH.
Qed.

(** A list of at most fifty valid rows, printed one per line, is read back exactly. *)
Theorem bulk_roundtrip ts : Forall validRow ts → Z.of_nat (length ts) ≤ BULK_IMPORT_MAX_ROWS →
  parseBulkCsv (join LF (map formatRow ts)) = {| rows := ts; errors := [] |}.
Proof.
  intros Hv Hl. assert (parseLines 1 (splitLines (join LF (map formatRow ts))) = {| rows := ts; errors := [] |}) as H.
  { destruct ts as [|t ts]; [reflexivity|]. unfold splitLines. rewrite split_join; [|done|].
    - rewrite stripCRs_plain. 2: { apply Forall_map. eapply Forall_impl; [exact Hv|]. intros x Hx. by apply formatRow_plain. }
      clear Hl. generalize 1. induction Hv as [|x l Hx _ IH]; intros n; [done|]. cbn [map parseLines]. by rewrite parseLine_format, IH.
    - apply Forall_map. eapply Forall_impl; [exact Hv|]. intros x Hx. destruct (formatRow_plain x Hx) as [H _]. revert H. unfold lacks.
      apply str_forall_impl. intros c. by destruct (Ascii.eqb_spec c LF) as [->|]. }
  unfold parseBulkCsv. rewrite H. cbn [rows errors]. by destruct (Z.ltb_spec BULK_IMPORT_MAX_ROWS (Z.of_nat (length ts))); [lia|].
Qed.

(** A header whose first cell does not mention the seller is reported as an error,
    not skipped. *)
Example other_header_is_an_error : parseBulkCsv "address,amount" = {| rows := []; errors := [{| line := 1; message := "Invalid sellerAddress" |}] |}.
Proof. vm_compute. reflexivity. Qed.

(** The importing user's row, and the witness of the round trip. *)
Definition sampleRow : BulkTradeRow := {|
  sellerAddress := "GAAAAAAAAAAAAAAAAAAAAAAAAAAAAAAAAAAAAAAAAAAAAAAAAAAAAAAA"; amountUsdc := "12.5"; buyerLossBps := 2500; sellerLossBps := 7500 |}.

Lemma bulk_roundtrip_witness : parseBulkCsv (join LF (map formatRow [sampleRow; sampleRow])) = {| rows := [sampleRow; sampleRow]; errors := [] |}.
Proof.
  apply (bulk_roundtrip [sampleRow; sampleRow]); [|vm_compute; discriminate].
  repeat apply Forall_cons_2; try apply Forall_nil_2; (split; [reflexivity|]; split; [reflexivity|]; split; [vm_compute; reflexivity|]; cbn; lia).
Defined.
