(* ===== verification/ErrorMapping.v ===== *)
(** * Errors on their way to the user

    [errors/serviceErrorConverter.ts], [errors/service.errors.ts],
    [services/contractClawbackError.service.ts] and [middleware/errorHandler.ts]
    of the backend, and [frontend/src/lib/errorHandler.ts], which reads what they
    answer. The [details] of an error are left out but for [retryable]. *)

From S2P Require Import Prelude JsString JsValue.
From S2P Require Errors.
Import Errors(ErrorCode(..), ErrorCode_eq_dec).

(** ** Errors *)

(** The text of a code; the service errors have codes of their own. *)
Definition codeText (c : ErrorCode) : string :=
  match c with
  | VALIDATION_ERROR => "VALIDATION_ERROR" | AUTH_ERROR => "AUTH_ERROR" | DOMAIN_ERROR => "DOMAIN_ERROR" | INFRA_ERROR => "INFRA_ERROR"
  | NOT_FOUND => "NOT_FOUND" | INTERNAL_ERROR => "INTERNAL_ERROR" | TRADE_NOT_FOUND => "TRADE_NOT_FOUND"
  | TRADE_ACCESS_DENIED => "TRADE_ACCESS_DENIED" | TRADE_INVALID_STATUS => "TRADE_INVALID_STATUS" | TRADE_BUILD_FAILED => "TRADE_BUILD_FAILED"
  | DISPUTE_INVALID_CATEGORY => "DISPUTE_INVALID_CATEGORY" | DISPUTE_STATUS_TRANSITION_INVALID => "DISPUTE_STATUS_TRANSITION_INVALID"
  | DISPUTE_STATUS_CONFLICT => "DISPUTE_STATUS_CONFLICT" | DISPUTE_NOT_FOUND => "DISPUTE_NOT_FOUND"
  | PAYMENT_PROVIDER_ERROR => "PAYMENT_PROVIDER_ERROR" | PAYMENT_PROVIDER_TIMEOUT => "PAYMENT_PROVIDER_TIMEOUT"
  | PAYMENT_INSUFFICIENT_FUNDS => "PAYMENT_INSUFFICIENT_FUNDS" | RATE_LIMIT_EXCEEDED => "RATE_LIMIT_EXCEEDED"
  | ADMIN_QUOTA_EXCEEDED => "ADMIN_QUOTA_EXCEEDED" | ADMIN_OPERATION_TIMEOUT => "ADMIN_OPERATION_TIMEOUT"
  | CLAWBACK_UNAUTHORIZED => "CLAWBACK_UNAUTHORIZED" | CLAWBACK_INSUFFICIENT_VESTED => "CLAWBACK_INSUFFICIENT_VESTED"
  | CLAWBACK_INVALID_AMOUNT => "CLAWBACK_INVALID_AMOUNT" | CLAWBACK_STREAM_NOT_FOUND => "CLAWBACK_STREAM_NOT_FOUND"
  | CLAWBACK_INVALID_STATUS => "CLAWBACK_INVALID_STATUS" | CLAWBACK_TOO_LARGE => "CLAWBACK_TOO_LARGE"
  | SUBMISSION_VALIDATION_ERROR => "SUBMISSION_VALIDATION_ERROR" | SUBMISSION_NETWORK_ERROR => "SUBMISSION_NETWORK_ERROR"
  | SUBMISSION_CONTRACT_ERROR => "SUBMISSION_CONTRACT_ERROR" | SUBMISSION_AUTHORIZATION_ERROR => "SUBMISSION_AUTHORIZATION_ERROR"
  end.

(** An [AppError]; [retryable] is the member of a classified service error. *)
Record AppError : Type := { code : string; message : string; statusCode : Z; retryable : option bool }.
Definition appError (c : ErrorCode) (m : string) (s : Z) : AppError := {| code := codeText c; message := m; statusCode := s; retryable := None |}.

(** The shape the converters read out of a caught value. *)
Record ExternalServiceError : Type := {
  isError : bool; e_message : option string; e_error : option string; e_code : option string; network : bool; timeout : bool;
  response : option (option Z * option string) }.

Inductive Thrown : Type :=
| TApp (e : AppError)                 (* an [AppError], of this module or another *)
| TNullish                            (* [null] or [undefined] *)
| TText (s : string)
| TObject (e : ExternalServiceError).

Inductive ServiceType : Type := STELLAR | IPFS | DATABASE | REDIS | WEBHOOK | EXTERNAL_API.
Definition serviceName (s : ServiceType) : string :=
  match s with STELLAR => "stellar" | IPFS => "ipfs" | DATABASE => "database" | REDIS => "redis" | WEBHOOK => "webhook" | EXTERNAL_API => "external_api" end.

(** [re.test(s)] for an alternation of literals, ignoring case. *)
Definition includesAny (parts : list string) (s : string) : bool := existsb (λ p, contains p s) parts.
Definition mentions (parts : list string) (s : string) : bool := includesAny parts (toLowerCase s).

(** ** [ServiceErrorConverter] *)

Definition isNetworkError (e : ExternalServiceError) : bool :=
  network e || includesAny ["network"; "econnrefused"; "enotfound"; "etimedout"; "connection reset"; "connection refused"]%string
                 (toLowerCase (default ""%string (e_message e))).
Definition isTimeoutError (e : ExternalServiceError) : bool :=
  timeout e || includesAny ["timeout"; "timed out"; "time out"]%string (toLowerCase (default ""%string (e_message e))).

(** [a || b] on texts *)
Definition orText (a : option string) (b : string) : string := match a with None | Some ""%string => b | Some s => s end.

Definition convertHttpError (status : Z) (statusText : option string) (context : string) : AppError :=
  let text := orText statusText "Unknown" in
  if status =? 400 then appError VALIDATION_ERROR (context +:+ " service rejected request: " +:+ text) 400
  else if (status =? 401) || (status =? 403) then appError AUTH_ERROR (context +:+ " service authentication failed") 401
  else if status =? 404 then appError NOT_FOUND (context +:+ " resource not found") 404
  else if status =? 429 then appError RATE_LIMIT_EXCEEDED (context +:+ " rate limit exceeded") 429
  else if (status =? 500) || (status =? 502) || (status =? 503) then
    appError PAYMENT_PROVIDER_ERROR (context +:+ " service unavailable (" +:+ toString status +:+ ")") 503
  else if status =? 504 then appError PAYMENT_PROVIDER_TIMEOUT (context +:+ " service timeout") 504
  else appError INFRA_ERROR (context +:+ " service error: " +:+ toString status +:+ " " +:+ text) status.

Definition extractMessage (t : Thrown) : string :=
  match t with
  | TText s => s
  | TObject e => if isError e then default ""%string (e_message e) else orText (e_message e) (orText (e_error e) "Unknown error")
  | TApp e => message e
  | TNullish => "Unknown error"
  end.

(** [None]: reading a property of [null] or [undefined] throws a [TypeError]. *)
Definition convertToAppError (t : Thrown) (serviceType : ServiceType) (context : option string) : option AppError :=
  let ctx := orText context (serviceName serviceType) in
  let unknown := appError INTERNAL_ERROR (ctx +:+ " service error: " +:+ extractMessage t) 500 in
  match t with
  | TApp e => Some e
  | TNullish => None
  | TText _ => Some unknown
  | TObject e =>
      if isNetworkError e then Some (appError INFRA_ERROR (ctx +:+ " service unavailable: Network error") 503)
      else if isTimeoutError e then Some (appError PAYMENT_PROVIDER_TIMEOUT (ctx +:+ " service timeout") 504)
      else match response e with
           | Some (Some status, statusText) => if status =? 0 then Some unknown else Some (convertHttpError status statusText ctx)
           | _ => Some unknown
           end
  end.

Definition withErrorConversion {A} (outcome : A + Thrown) (serviceType : ServiceType) (context : option string) : A + option AppError :=
  match outcome with inl a => inl a | inr t => inr (convertToAppError t serviceType context) end.
Definition convertStellarError (t : Thrown) := convertToAppError t STELLAR.
Definition convertIPFSError (t : Thrown) := convertToAppError t IPFS.
Definition convertWebhookError (t : Thrown) := convertToAppError t WEBHOOK.

(** ** Classified service errors *)

Definition classified (c m : string) (s : Z) (again : bool) : AppError := {| code := c; message := m; statusCode := s; retryable := Some again |}.

Definition errorMessage (t : Thrown) : string :=
  match t with
  | TText s => s
  | TApp e => message e
  | TNullish => "Unknown service error"
  | TObject e =>
      if isError e then default ""%string (e_message e)
      else match e_message e, e_error e with Some m, _ => m | None, Some m => m | None, None => "Unknown service error" end
  end.
Definition responseStatus (t : Thrown) : option Z := match t with TObject e => '(s, _) ← response e; s | _ => None end.
Definition errorCode (t : Thrown) : option string := match t with TObject e => e_code e | TApp e => Some (code e) | _ => None end.

Definition classifyHorizonResultCode (c : string) (t : Thrown) : AppError :=
  if bool_decide (c ∈ ["op_underfunded"; "tx_insufficient_balance"]%string) then
    classified "STELLAR_INSUFFICIENT_BALANCE" "Stellar account has insufficient balance" 402 false
  else if bool_decide (c = "tx_bad_seq"%string) then classified "STELLAR_BAD_SEQUENCE" "Stellar transaction sequence is stale" 409 true
  else if bool_decide (c ∈ ["tx_too_late"; "tx_too_early"]%string) then
    classified "STELLAR_TRANSACTION_TIMING" "Stellar transaction is outside its valid time bounds" 409 true
  else if bool_decide (c ∈ ["op_no_destination"; "op_no_trust"]%string) then
    classified "STELLAR_ACCOUNT_NOT_FOUND" "Stellar destination account or trustline was not found" 404 false
  else classified "STELLAR_UNKNOWN_ERROR" (errorMessage t) 502 true.

Definition classifyStellarServiceError (t : Thrown) : AppError :=
  let status := responseStatus t in
  let m := errorMessage t in
  match errorCode t with
  | Some (String "t" (String "x" (String "_" r))) => classifyHorizonResultCode (String "t" (String "x" (String "_" r))) t
  | _ =>
      if bool_decide (status = Some 404) || mentions ["not found"]%string m then
        classified "STELLAR_CONTRACT_NOT_FOUND" "Soroban contract data was not found" 404 false
      else if bool_decide (status = Some 429) || mentions ["rate limit"; "try_again_later"]%string m then
        classified "STELLAR_RATE_LIMITED" "Stellar service rate limit exceeded" 429 true
      else if mentions ["timeout"; "timed out"; "deadline"]%string m then classified "STELLAR_TIMEOUT" "Stellar service timed out" 504 true
      else classified "STELLAR_UNKNOWN_ERROR" m 502 true
  end.

Definition classifyDatabaseServiceError (t : Thrown) : AppError :=
  if bool_decide (errorCode t = Some "P2002"%string) then classified "DATABASE_UNIQUE_CONSTRAINT" "Database unique constraint violated" 409 false
  else classified "DATABASE_UNKNOWN_ERROR" (errorMessage t) 500 false.

Definition classifyIpfsServiceError (t : Thrown) : AppError :=
  if bool_decide (responseStatus t = Some 404) then classified "IPFS_NOT_FOUND" "IPFS content was not found" 404 false
  else classified "IPFS_UNKNOWN_ERROR" (errorMessage t) 502 true.

Definition classifyCacheServiceError (t : Thrown) : AppError :=
  classified (if mentions ["timeout"; "timed out"]%string (errorMessage t) then "CACHE_TIMEOUT" else "CACHE_UNKNOWN_ERROR") (errorMessage t) 503 true.

(** ** Clawback panics *)

Definition CONTRACT_CLAWBACK_ERROR_CODES : list ErrorCode :=
  [CLAWBACK_UNAUTHORIZED; CLAWBACK_INSUFFICIENT_VESTED; CLAWBACK_INVALID_AMOUNT; CLAWBACK_STREAM_NOT_FOUND; CLAWBACK_INVALID_STATUS].

Definition parseContractClawbackErrorCode (rawMessage : string) : option ErrorCode :=
  List.find (λ c, contains (codeText c) rawMessage) CONTRACT_CLAWBACK_ERROR_CODES.

Definition mapClawbackErrorCode (c : ErrorCode) : AppError :=
  match c with
  | CLAWBACK_UNAUTHORIZED => appError c "Admin clawback failed: caller is not the authorised contract admin." 403
  | CLAWBACK_STREAM_NOT_FOUND => appError c "Admin clawback failed: no escrow trade record was found for the given ID." 404
  | CLAWBACK_INVALID_AMOUNT => appError c "Admin clawback failed: the requested amount must be greater than zero." 400
  | CLAWBACK_INSUFFICIENT_VESTED => appError c "Admin clawback failed: the requested amount exceeds the vested (escrowed) balance." 422
  | CLAWBACK_INVALID_STATUS => appError c "Admin clawback failed: the trade is not in Funded status and cannot be clawed back." 409
  | _ => appError INTERNAL_ERROR "Admin clawback failed: unknown contract error." 500
  end.

(** [JSON.stringify] of what is neither an error nor a text; [None] is [undefined],
    and scanning it throws. *)
Definition mapContractClawbackError (stringify : Thrown → option string) (t : Thrown) : option AppError :=
  m ← match t with
      | TApp e => Some (message e)
      | TText s => Some s
      | TObject e => if isError e then Some (default ""%string (e_message e)) else stringify t
      | TNullish => stringify t
      end;
  Some match parseContractClawbackErrorCode m with
       | Some c => mapClawbackErrorCode c
       | None => appError DOMAIN_ERROR ("Admin clawback failed: " +:+ m) 500
       end.

(** ** The error middleware *)

Record Payload : Type := { p_code : string; p_message : string }.

(** The status and body of the answer. *)
Inductive Raised : Type := RApp (e : AppError) | RZod | ROther (status : option Z) (m : string).
Definition errorHandler (production : bool) (err : Raised) : Z * Payload :=
  match err with
  | RApp e => (statusCode e, {| p_code := code e; p_message := message e |})
  | RZod => (400, {| p_code := codeText VALIDATION_ERROR; p_message := "Validation failed" |})
  | ROther status m => (default 500 status, {| p_code := codeText INTERNAL_ERROR; p_message := if production then "Internal server error" else m |})
  end.

(** ** What the client makes of an answer *)

Inductive ToastType : Type := ToastWarning | ToastError.
Record ErrorInfo : Type := { title : string; i_message : string; i_type : ToastType }.

(** The keys of [ERROR_MESSAGE_MAP], with title and type; the message shown is the
    backend's, which the mapped one replaces when it is empty. *)
Definition ERROR_MESSAGE_MAP : list (string * (string * string * ToastType)) := [
  ("VALIDATION_ERROR", ("Invalid Input", "Please check your input and try again.", ToastWarning));
  ("AUTH_ERROR", ("Authentication Failed", "Please log in again to continue.", ToastError));
  ("DOMAIN_ERROR", ("Operation Not Allowed", "This operation is not allowed in the current state.", ToastError));
  ("INFRA_ERROR", ("Service Unavailable", "Our service is temporarily unavailable. Please try again later.", ToastError));
  ("NOT_FOUND", ("Not Found", "The requested resource was not found.", ToastWarning));
  ("INTERNAL_ERROR", ("Something Went Wrong", "An unexpected error occurred. Please try again.", ToastError));
  ("TRADE_NOT_FOUND", ("Trade Not Found", "The trade you're looking for doesn't exist or has been removed.", ToastWarning));
  ("TRADE_ACCESS_DENIED", ("Access Denied", "You don't have permission to access this trade.", ToastError));
  ("TRADE_INVALID_STATUS", ("Invalid Trade Status", "This operation cannot be performed on the current trade status.", ToastWarning));
  ("TRADE_BUILD_FAILED", ("Trade Creation Failed", "Failed to create the trade. Please try again.", ToastError));
  ("DISPUTE_INVALID_CATEGORY", ("Invalid Dispute Category", "Please select a valid dispute category.", ToastWarning));
  ("DISPUTE_STATUS_TRANSITION_INVALID", ("Invalid Dispute Status", "This dispute status transition is not allowed.", ToastError));
  ("DISPUTE_STATUS_CONFLICT", ("Dispute Conflict", "This dispute has been modified by another user. Please refresh.", ToastWarning));
  ("DISPUTE_NOT_FOUND", ("Dispute Not Found", "The dispute you're looking for doesn't exist.", ToastWarning));
  ("PAYMENT_PROVIDER_ERROR", ("Payment Error", "There was an error processing the payment. Please try again.", ToastError));
  ("PAYMENT_PROVIDER_TIMEOUT", ("Payment Timeout", "The payment request timed out. Please try again.", ToastWarning));
  ("PAYMENT_INSUFFICIENT_FUNDS", ("Insufficient Funds", "You don't have enough funds to complete this transaction.", ToastError));
  ("RATE_LIMIT_EXCEEDED", ("Too Many Requests", "Please wait a moment before trying again.", ToastWarning));
  ("ADMIN_QUOTA_EXCEEDED", ("Admin Quota Exceeded", "You've hit the rate limit for this admin action. Try again later.", ToastWarning));
  ("ADMIN_OPERATION_TIMEOUT", ("Operation Timed Out", "The admin operation took too long to complete. Please try again.", ToastWarning));
  ("CLAWBACK_TOO_LARGE", ("Amount Too Large", "The requested clawback amount exceeds the stream's remaining vested balance.", ToastWarning));
  ("CLAWBACK_INVALID_AMOUNT", ("Invalid Amount", "Enter a clawback amount greater than zero.", ToastWarning))]%string.

Definition STATUS_CODE_MAP : list (Z * ToastType) :=
  [(400, ToastWarning); (401, ToastError); (403, ToastError); (404, ToastWarning); (429, ToastWarning);
   (500, ToastError); (502, ToastError); (503, ToastError); (504, ToastWarning)].

(** An [ApiError] with its status and the body, or any other error. *)
Inductive ClientError : Type := ApiError (status : Z) (m : string) (data : option Payload) | OtherError (m : string).

Definition parseBackendError (data : option Payload) : option Payload :=
  p ← data; if bool_decide (p_code p = ""%string) || bool_decide (p_message p = ""%string) then None else Some p.

Definition mapped (c : string) : option (string * string * ToastType) := snd <$> List.find (λ p, bool_decide (p.1 = c)) ERROR_MESSAGE_MAP.

Definition getErrorInfo (e : ClientError) : ErrorInfo :=
  match e with
  | ApiError status m data =>
      let fallback := {| title := if status =? 0 then "Network Error" else "Error " +:+ toString status;
                         i_message := orText (Some m) "An unexpected error occurred";
                         i_type := default ToastError (snd <$> List.find (λ p, p.1 =? status) STATUS_CODE_MAP) |} in
      match parseBackendError data with
      | Some b => match mapped (p_code b) with
                  | Some (t, dm, ty) => {| title := t; i_message := orText (Some (p_message b)) dm; i_type := ty |}
                  | None => fallback
                  end
      | None => fallback
      end
  | OtherError m => {| title := "Error"; i_message := orText (Some m) "An unexpected error occurred"; i_type := ToastError |}
  end.

Definition isNetworkFailure (e : ClientError) : bool :=
  match e with ApiError status _ _ => status =? 0 | OtherError m => includesAny ["network"; "fetch"; "timeout"]%string (toLowerCase m) end.

(** A predicate on the code of a structured answer, or else on the status. *)
Definition byCode (codes : list ErrorCode) (onStatus : Z → bool) (e : ClientError) : bool :=
  match e with
  | ApiError status _ data =>
      match parseBackendError data with
      | Some b => bool_decide (p_code b ∈ map codeText codes)
      | None => onStatus status
      end
  | OtherError _ => false
  end.
Definition isAuthError : ClientError → bool := byCode [AUTH_ERROR; TRADE_ACCESS_DENIED] (λ s, (s =? 401) || (s =? 403)).
Definition isForbiddenError : ClientError → bool := byCode [TRADE_ACCESS_DENIED] (λ s, s =? 403).
Definition isValidationError : ClientError → bool := byCode [VALIDATION_ERROR] (λ s, s =? 400).
Definition isNotFoundError : ClientError → bool := byCode [NOT_FOUND] (λ s, s =? 404).
Definition isRetryableError (e : ClientError) : bool :=
  match e with
  | ApiError _ _ _ => byCode [PAYMENT_PROVIDER_TIMEOUT; INFRA_ERROR; RATE_LIMIT_EXCEEDED] (λ s, (s =? 0) || (s =? 429) || (500 <=? s)) e
  | OtherError _ => isNetworkFailure e
  end.

(** The error the client raises for an answer of the backend. *)
Definition received (m : string) (answer : Z * Payload) : ClientError := ApiError answer.1 m (Some answer.2).

(** ** Facts *)

Lemma contains_app p a b : contains p (a +:+ p +:+ b) = true.
Proof.
  assert (String.prefix p (p +:+ b) = true) as Hp.
  { induction p as [|c p IH]; [by destruct b|]. rewrite app_cons_str. cbn. by destruct (Ascii.ascii_dec c c). }
  assert (∀ s, String.prefix p s = true → contains p s = true) as Hc by (intros s Hs; destruct s; cbn [contains]; by rewrite Hs).
  induction a as [|c a IH]; [by apply Hc|]. rewrite app_cons_str. cbn [contains]. rewrite IH. apply orb_true_r.
Qed.

(** Converting an error of a service is total but for [null]; an [AppError] is kept;
    a network failure is 503, a timeout 504, and the status of anything new is a 4xx or
    5xx of the documented table, or the foreign status where that table has none. *)
Theorem converter_spec t svc ctx :
  (convertToAppError t svc ctx = None ↔ t = TNullish) ∧
  (∀ e, t = TApp e → convertToAppError t svc ctx = Some e) ∧
  (∀ e x, t = TObject x → convertToAppError t svc ctx = Some e →
     if isNetworkError x then code e = codeText INFRA_ERROR ∧ statusCode e = 503
     else if isTimeoutError x then code e = codeText PAYMENT_PROVIDER_TIMEOUT ∧ statusCode e = 504
     else statusCode e ∈ [400; 401; 404; 429; 500; 503; 504] ∨ (code e = codeText INFRA_ERROR ∧ responseStatus t = Some (statusCode e))) ∧
  (∀ e, convertToAppError t svc ctx = Some e → convertToAppError (TApp e) svc ctx = Some e).
Proof.
  split_and!; [|by intros e ->| |done].
  - destruct t as [e| |s|x]; cbn; try (split; done). destruct (isNetworkError x); [done|]. destruct (isTimeoutError x); [done|].
    destruct (response x) as [[[s|] st]|]; [|done..]. by destruct (s =? 0).
  - intros e x ->. unfold convertToAppError, responseStatus. destruct (isNetworkError x); [by intros [= <-]|]. destruct (isTimeoutError x); [by intros [= <-]|].
    destruct (response x) as [[[s|] st]|]; [|intros [= <-]; left; cbn; set_solver..].
    destruct (s =? 0); [intros [= <-]; left; cbn; set_solver|]. intros [= <-]. unfold convertHttpError.
    repeat (case_match; [left; cbn; set_solver|]). right. done.
Qed.

(** A redirect of a service becomes a redirect of the API. *)
Theorem foreign_status_answered svc x p : isNetworkError x = false → isTimeoutError x = false → response x = Some (Some 302, None) →
  ∃ e, convertToAppError (TObject x) svc None = Some e ∧ (errorHandler p (RApp e)).1 = 302.
Proof. intros Hn Ht Hr. unfold convertToAppError. rewrite Hn, Ht, Hr. eexists. split; [reflexivity|done]. Qed.

(** A panic of the contract's clawback reaches the user with its own code and a
    4xx status, whatever surrounds the code in the text; any other text is reported
    as a domain error. *)
Theorem clawback_panic_mapped stringify c pre post : c ∈ CONTRACT_CLAWBACK_ERROR_CODES →
  (∀ d, d ∈ CONTRACT_CLAWBACK_ERROR_CODES → contains (codeText d) (pre +:+ codeText c +:+ post) = true → d = c) →
  ∃ e, mapContractClawbackError stringify (TText (pre +:+ codeText c +:+ post)) = Some e ∧ code e = codeText c ∧ 400 ≤ statusCode e < 500 ∧
    ∀ production, p_code (errorHandler production (RApp e)).2 = codeText c.
Proof.
  intros Hc Hu. exists (mapClawbackErrorCode c). unfold mapContractClawbackError. cbn [mbind option_bind].
  assert (parseContractClawbackErrorCode (pre +:+ codeText c +:+ post) = Some c) as ->.
  { unfold parseContractClawbackErrorCode. destruct (List.find _ _) as [d|] eqn:E.
    - apply find_some in E as [Hd Hin]. f_equal. apply Hu; [by apply list_elem_of_In|done].
    - apply list_elem_of_In in Hc. pose proof (find_none _ _ E _ Hc) as Hn. cbn beta in Hn. by rewrite contains_app in Hn. }
  split; [done|]. unfold CONTRACT_CLAWBACK_ERROR_CODES in Hc.
  repeat (apply elem_of_cons in Hc as [->|Hc]; [split; [done|split; [cbn; lia|done]]|]). by apply elem_of_nil in Hc.
Qed.

(** Nullish values escape both converters, which are meant to answer with an [AppError] always. *)
Theorem nullish_escapes svc ctx : convertToAppError TNullish svc ctx = None ∧ mapContractClawbackError (λ _, None) TNullish = None.
Proof. done. Qed.

Definition allCodes : list ErrorCode :=
  [VALIDATION_ERROR; AUTH_ERROR; DOMAIN_ERROR; INFRA_ERROR; NOT_FOUND; INTERNAL_ERROR; TRADE_NOT_FOUND; TRADE_ACCESS_DENIED;
   TRADE_INVALID_STATUS; TRADE_BUILD_FAILED; DISPUTE_INVALID_CATEGORY; DISPUTE_STATUS_TRANSITION_INVALID; DISPUTE_STATUS_CONFLICT;
   DISPUTE_NOT_FOUND; PAYMENT_PROVIDER_ERROR; PAYMENT_PROVIDER_TIMEOUT; PAYMENT_INSUFFICIENT_FUNDS; RATE_LIMIT_EXCEEDED;
   ADMIN_QUOTA_EXCEEDED; ADMIN_OPERATION_TIMEOUT; CLAWBACK_UNAUTHORIZED; CLAWBACK_INSUFFICIENT_VESTED; CLAWBACK_INVALID_AMOUNT;
   CLAWBACK_STREAM_NOT_FOUND; CLAWBACK_INVALID_STATUS; CLAWBACK_TOO_LARGE; SUBMISSION_VALIDATION_ERROR; SUBMISSION_NETWORK_ERROR;
   SUBMISSION_CONTRACT_ERROR; SUBMISSION_AUTHORIZATION_ERROR].
Definition known (c : ErrorCode) : bool := bool_decide (is_Some (mapped (codeText c))).

Lemma codeText_inj c d : codeText c = codeText d → c = d.
Proof. destruct c, d; intros H; first [reflexivity | discriminate H]. Qed.

(** An [AppError] with a message arrives as a structured body. *)
Lemma structured c m : m ≠ ""%string →
  parseBackendError (Some {| p_code := codeText c; p_message := m |}) = Some {| p_code := codeText c; p_message := m |}.
Proof. intros Hm. unfold parseBackendError. cbn. rewrite (bool_decide_false (codeText c = _)) by (by destruct c). by rewrite bool_decide_false. Qed.

(** The client's predicates on it go by the code alone. *)
Lemma byCode_structured production c m s tm codes onStatus : m ≠ ""%string →
  byCode codes onStatus (received tm (errorHandler production (RApp (appError c m s)))) = bool_decide (c ∈ codes).
Proof.
  intros Hm. unfold byCode, received. cbn [errorHandler appError statusCode code message fst snd]. rewrite structured by done. cbn [p_code].
  apply bool_decide_ext. rewrite list_elem_of_fmap.
  split; [intros (d & H & Hd); by apply codeText_inj in H as ->|intros H; by exists c].
Qed.

(** An error raised in the backend arrives at the client with its status, its
    message and the type and title of its code; exactly eight codes have no entry
    there and are shown by their status. *)
Theorem client_shows_backend_error production c m s tm : m ≠ ""%string →
  let answer := errorHandler production (RApp (appError c m s)) in
  let info := getErrorInfo (received tm answer) in
  answer.1 = s ∧
  (known c = true → ∃ t d ty, mapped (codeText c) = Some (t, d, ty) ∧ info = {| title := t; i_message := m; i_type := ty |}) ∧
  (known c = false ↔ c ∈ [CLAWBACK_UNAUTHORIZED; CLAWBACK_INSUFFICIENT_VESTED; CLAWBACK_STREAM_NOT_FOUND; CLAWBACK_INVALID_STATUS;
     SUBMISSION_VALIDATION_ERROR; SUBMISSION_NETWORK_ERROR; SUBMISSION_CONTRACT_ERROR; SUBMISSION_AUTHORIZATION_ERROR]) ∧
  (∀ codes onStatus, byCode codes onStatus (received tm answer) = bool_decide (c ∈ codes)).
Proof.
  intros Hm. cbv zeta. cbn [errorHandler appError statusCode code message fst]. split; [done|].
  pose proof (structured c m Hm) as Hp.
  split_and!.
  - intros Hk. apply bool_decide_eq_true in Hk as [[[t d] ty] Hk]. exists t, d, ty. split; [done|].
    unfold received, getErrorInfo. cbn [fst snd]. rewrite Hp. cbn [p_code p_message]. rewrite Hk. by destruct m.
  - destruct c; vm_compute; split; intros H; try discriminate H; try (repeat constructor); exfalso;
      repeat (apply elem_of_cons in H as [H|H]; [discriminate H|]); by apply elem_of_nil in H.
  - intros codes onStatus. by apply (byCode_structured production c m s tm).
Qed.

(** The client's retry rule ignores what the service errors say about retrying. *)
Theorem retryable_ignored m t : isRetryableError (received m (errorHandler true (RApp (classifyHorizonResultCode "tx_bad_seq" t)))) = false ∧
  retryable (classifyHorizonResultCode "tx_bad_seq" t) = Some true.
Proof. split; reflexivity. Qed.

(** A missing trade or dispute is not a not-found error for the client. *)
Theorem missing_trade_is_not_notFound production m s tm : m ≠ ""%string →
  isNotFoundError (received tm (errorHandler production (RApp (appError TRADE_NOT_FOUND m s)))) = false.
Proof. intros Hm. unfold isNotFoundError. by rewrite byCode_structured. Qed.

(** ** Concrete runs *)

Lemma clawback_panic_mapped_witness :
  ∃ e, mapContractClawbackError (λ _, None) (TText ("HostError: " +:+ codeText CLAWBACK_INVALID_STATUS +:+ " at 7")) = Some e ∧
    code e = codeText CLAWBACK_INVALID_STATUS ∧ 400 ≤ statusCode e < 500 ∧
    ∀ production, p_code (errorHandler production (RApp e)).2 = codeText CLAWBACK_INVALID_STATUS.
Proof.
  apply (clawback_panic_mapped (λ _, None) CLAWBACK_INVALID_STATUS "HostError: " " at 7"); [unfold CONTRACT_CLAWBACK_ERROR_CODES; set_solver|].
  intros d _. destruct d; vm_compute; intros H; first [reflexivity | discriminate H].
Defined.

Lemma client_shows_backend_error_witness :
  let info := getErrorInfo (received "" (errorHandler true (RApp (appError TRADE_ACCESS_DENIED "no" 403)))) in
  info = {| title := "Access Denied"; i_message := "no"; i_type := ToastError |} ∧ known TRADE_ACCESS_DENIED = true.
Proof.
  cbv zeta. destruct (client_shows_backend_error true TRADE_ACCESS_DENIED "no" 403 "" ltac:(discriminate)) as (_ & H & _ & _).
  destruct (H eq_refl) as (t & d & ty & Hm & Hi). split; [|reflexivity]. etrans; [exact Hi|]. vm_compute in Hm. injection Hm as <- _ <-. reflexivity.
Defined.
