(* ===== verification/AuthHelper.v ===== *)
(** * Bearer tokens on requests: [lib/authHelper.ts] and [middleware/auth.middleware.ts]

    The header is taken apart, the token's shape is checked, [AuthService.validateToken]
    ([Auth]) decides, and what it throws is classified. The validation is an
    argument: its outcome for each token. *)

From S2P Require Import Prelude JsString JsValue Json.
From S2P Require Errors Auth ErrorMapping.
Import Errors(ErrorCode(..)).
Import Auth(exn, Thrown, JwtThrown, jwtError(..), JWTPayload).
Import ErrorMapping(AppError, appError, ExternalServiceError, TObject, ServiceType(..), convertToAppError).

Inductive AuthErrorType : Type := MISSING_HEADER | INVALID_FORMAT | INVALID_TOKEN | EXPIRED_TOKEN | NETWORK_ERROR | CONFIG_ERROR.

(** A classified error, with the [errorType] of its details where it has one. *)
Record AuthError : Type := { appErr : AppError; errorType : option AuthErrorType }.
Definition unauthorized (m : string) (t : AuthErrorType) : AuthError := {| appErr := appError AUTH_ERROR m 401; errorType := Some t |}.

Definition missingHeader : AuthError := unauthorized "Missing Authorization header" MISSING_HEADER.
Definition badFormat : AuthError := unauthorized "Invalid Authorization header format. Expected: Bearer <token>" INVALID_FORMAT.
Definition emptyToken : AuthError := unauthorized "Empty token in Authorization header" INVALID_FORMAT.

Definition extractAuthHeader (authorization : option string) : result AuthError string :=
  match authorization with
  | None | Some ""%string => Err missingHeader
  | Some h =>
      match stripPrefix "Bearer " h with
      | None => Err badFormat
      | Some _ => match split " " h !! 1%nat with
                  | Some token => if bool_decide (token = ""%string) || bool_decide (trim token = ""%string) then Err emptyToken else Ok token
                  | None => Err emptyToken
                  end
      end
  end.

(** [None]: the shape is that of a JWT. *)
Definition validateTokenFormat (token : string) : option AuthError :=
  if bool_decide (token = ""%string) then Some (unauthorized "Invalid token: not a string" INVALID_TOKEN)
  else let parts := split "." token in
       if negb (length parts =? 3)%nat then Some (unauthorized "Invalid token format: expected JWT with 3 parts" INVALID_TOKEN)
       else if existsb (λ p, bool_decide (p = ""%string)) parts then Some (unauthorized "Invalid token format: empty token part" INVALID_TOKEN)
       else None.

Definition isNetworkError (m : string) : bool :=
  ErrorMapping.includesAny ["network"; "econnrefused"; "enotfound"; "etimedout"; "connection reset"; "connection refused"; "redis"; "timeout"]%string (toLowerCase m).

(** A plain error as the converter sees it. *)
Definition asExternal (m : string) : ExternalServiceError :=
  {| ErrorMapping.isError := true; ErrorMapping.e_message := Some m; ErrorMapping.e_error := None; ErrorMapping.e_code := None;
     ErrorMapping.network := false; ErrorMapping.timeout := false; ErrorMapping.response := None |}.

Definition classifyAuthError (e : exn) : AuthError :=
  match e with
  | Thrown (Errors.AppError c m s) => {| appErr := appError c m s; errorType := None |}
  | JwtThrown TokenExpiredError => unauthorized "Token expired" EXPIRED_TOKEN
  | JwtThrown JsonWebTokenError => unauthorized "Invalid token" INVALID_TOKEN
  | JwtThrown NotBeforeError => unauthorized "Token not yet valid" INVALID_TOKEN
  | Thrown (Errors.PlainError m) =>
      if isNetworkError m then
        {| appErr := default (appError INTERNAL_ERROR m 500) (convertToAppError (TObject (asExternal m)) REDIS (Some "auth_service"%string)); errorType := None |}
      else if contains "JWT_SECRET" m || contains "not set" m then
        {| appErr := appError INFRA_ERROR "Authentication service configuration error" 500; errorType := Some CONFIG_ERROR |}
      else unauthorized "Authentication failed" INVALID_TOKEN
  end.

Section Request.
Context (validateFn : string → result exn JWTPayload).

Definition authenticateRequest (authorization : option string) : result AuthError JWTPayload :=
  match extractAuthHeader authorization with
  | Err e => Err e
  | Ok token => match validateTokenFormat token with
                | Some e => Err e
                | None => match validateFn token with Ok user => Ok user | Err e => Err (classifyAuthError e) end
                end
  end.

(** [authMiddleware]: the user the handler gets, or the status and code answered. *)
Definition authMiddleware (authorization : option string) : JWTPayload + Z * string :=
  match authenticateRequest authorization with
  | Ok user => inl user
  | Err e => inr (ErrorMapping.statusCode (appErr e), ErrorMapping.code (appErr e))
  end.
End Request.

(** ** Properties *)

(** [Bearer], a blank, the token, and nothing or a further blank. *)
Definition bearerOf (h token : string) : Prop :=
  lacks " " token ∧ ∃ rest, h = ("Bearer " +:+ token +:+ rest)%string ∧ (rest = ""%string ∨ ∃ r, rest = String " " r).
(** Three parts, none of them empty, with points between them. *)
Definition jwtShaped (token : string) : Prop := ∃ a b c, token = (a +:+ "." +:+ b +:+ "." +:+ c)%string ∧
  lacks "." a ∧ lacks "." b ∧ lacks "." c ∧ a ≠ ""%string ∧ b ≠ ""%string ∧ c ≠ ""%string.

(** One of the words occurs in a text. *)
Definition occurs (words : list string) (m : string) : Prop := ∃ w a b, w ∈ words ∧ m = (a +:+ w +:+ b)%string.

(** The status and the code a failed validation is answered with: those of an application
    error; 401 for what the JWT library rejects; for any other error, by its message, an
    unavailable service when the network is named, a timeout when one is named and a server
    error when Redis is; 500 when the configuration is; and 401 otherwise. *)
Definition causeAnswer (e : exn) (status : Z) (code : string) : Prop :=
  match e with
  | JwtThrown _ => status = 401 ∧ code = "AUTH_ERROR"%string
  | Thrown (Errors.AppError c _ s) => status = s ∧ code = ErrorMapping.codeText c
  | Thrown (Errors.PlainError m) =>
      let network := occurs ["network"; "econnrefused"; "enotfound"; "etimedout"; "connection reset"; "connection refused"]%string (toLowerCase m) in
      let late := occurs ["timeout"]%string (toLowerCase m) in
      let redis := occurs ["redis"]%string (toLowerCase m) in
      let config := occurs ["JWT_SECRET"; "not set"]%string m in
      (network → status = 503 ∧ code = "INFRA_ERROR"%string) ∧
      (¬ network → late → status = 504 ∧ code = "PAYMENT_PROVIDER_TIMEOUT"%string) ∧
      (¬ network → ¬ late → redis → 500 ≤ status) ∧
      (¬ network → ¬ late → ¬ redis → config → status = 500 ∧ code = "INFRA_ERROR"%string) ∧
      (¬ network → ¬ late → ¬ redis → ¬ config → status = 401 ∧ code = "AUTH_ERROR"%string)
  end.

Lemma stripPrefix_Some p s r : stripPrefix p s = Some r ↔ s = (p +:+ r)%string.
Proof.
  revert s. induction p as [|a p IH]; intros s; cbn [stripPrefix append]; [split; [by intros [= ->]|by intros ->]|].
  destruct s as [|b s]; [done|]. destruct (Ascii.eqb_spec a b) as [->|Hn]; [rewrite IH; split; [by intros ->|by intros [= ->]]|].
  split; [done|]. by intros [= ->].
Qed.

Lemma split_head c s : ∃ p ps, split c s = p :: ps ∧ lacks c p ∧ (ps = [] ∧ s = p ∨ ∃ r, s = (p +:+ String c r)%string ∧ ps = split c r).
Proof.
  induction s as [|d s IH]; [exists ""%string, []; split_and!; [done|done|by left]|]. destruct IH as (p & ps & Hs & Hl & Hr).
  cbn [split]. destruct (Ascii.eqb_spec d c) as [->|Hd].
  - exists ""%string, (split c s). split_and!; [done|done|]. right. by exists s.
  - rewrite Hs. exists (String d p), ps. split_and!; [done|unfold lacks in *; cbn; apply Ascii.eqb_neq in Hd; by rewrite Hd|].
    destruct Hr as [[-> ->]|(r & -> & ->)]; [by left|right; by exists r].
Qed.

Lemma split_blank token rest : lacks " " token → rest = ""%string ∨ (∃ r, rest = String " " r) → split " " (token +:+ rest) !! 0%nat = Some token.
Proof.
  intros Hl [->|[r ->]]; [rewrite app_nil_r_str, split_none by done; done|]. by rewrite split_app.
Qed.

Lemma trim_pointed token : jwtShaped token → token ≠ ""%string ∧ trim token ≠ ""%string.
Proof.
  intros (a & b & c & -> & _ & _ & _ & Ha & _). split; [by destruct a|].
  assert (∀ s, trim (s +:+ "." +:+ (b +:+ "." +:+ c)) ≠ ""%string) as H; [|apply H].
  assert (∀ t, trimEnd (String "." t) ≠ ""%string) as Hd by (intros t; cbn; by destruct (trimEnd t)).
  assert (∀ s t, trimEnd (s +:+ String "." t) ≠ ""%string) as He.
  { intros s t. induction s as [|d s IH]; [apply Hd|]. rewrite app_cons_str. cbn [trimEnd]. by destruct (trimEnd (s +:+ String "." t)). }
  intros s. unfold trim. change ("." +:+ (b +:+ "." +:+ c)) with (String "." (b +:+ "." +:+ c)).
  generalize (b +:+ "." +:+ c)%string as t. intros t. induction s as [|d s IH]; [apply Hd|].
  rewrite app_cons_str. cbn [trimStart]. destruct (is_space d); [exact IH|]. change (String d (s +:+ String "." t)) with (String d s +:+ String "." t). apply He.
Qed.

(** The header names a token exactly as the specification reads it, up to blank tokens,
    which have no shape of a JWT. *)
Lemma extractAuthHeader_spec a token : jwtShaped token →
  extractAuthHeader a = Ok token ↔ ∃ h, a = Some h ∧ bearerOf h token.
Proof.
  intros Hj. destruct (trim_pointed token Hj) as [Hne Ht]. unfold extractAuthHeader. destruct a as [h|]; [|split; [done|by intros (? & ? & _)]].
  destruct h as [|c h]; [split; [done|intros (h & [= <-] & _ & r & H & _); discriminate H]|].
  set (h' := String c h). clearbody h'. clear c h.
  destruct (stripPrefix "Bearer " h') as [r|] eqn:Hp.
  - apply stripPrefix_Some in Hp. assert (split " " h' = "Bearer"%string :: split " " r) as -> by (rewrite Hp; reflexivity). cbn.
    destruct (split_head " " r) as (p & ps & Hps & Hl & Hr). rewrite Hps. cbn. split.
    + destruct (bool_decide (p = ""%string)) eqn:He; [done|]. cbn. destruct (bool_decide (trim p = ""%string)); [done|].
      intros [= ->]. exists h'. split; [done|]. split; [done|].
      destruct Hr as [[-> ->]|(t & -> & ->)]; [exists ""%string; rewrite app_nil_r_str; auto|exists (String " " t); eauto].
    + intros (h & [= <-] & Hlt & rest & Hh & Hrest). rewrite Hp in Hh. assert (r = (token +:+ rest)%string) as E by (by injection Hh).
      pose proof (split_blank token rest Hlt Hrest) as H0. rewrite <-E, Hps in H0. injection H0 as ->. by rewrite !bool_decide_eq_false_2.
  - split; [done|]. intros (h & [= <-] & _ & rest & -> & _). by rewrite (proj2 (stripPrefix_Some "Bearer " _ (token +:+ rest)) eq_refl) in Hp.
Qed.

Lemma validateTokenFormat_None token : validateTokenFormat token = None ↔ jwtShaped token.
Proof.
  unfold validateTokenFormat, jwtShaped. split.
  - case_bool_decide as He; [done|]. cbv zeta.
    destruct (split_head "." token) as (a & ps & -> & Ha & Hr). destruct Hr as [[-> ->]|(r & -> & ->)]; [done|].
    destruct (split_head "." r) as (b & ps & -> & Hb & Hr). destruct Hr as [[-> ->]|(r' & -> & ->)]; [done|].
    destruct (split_head "." r') as (c & ps & -> & Hc & Hr). destruct Hr as [[-> ->]|(r'' & -> & ->)].
    2: { destruct (split_head "." r'') as (? & ? & -> & _). done. }
    cbn. repeat case_bool_decide; try done. intros _. by exists a, b, c.
  - intros (a & b & c & -> & Ha & Hb & Hc & Hna & Hnb & Hnc). rewrite bool_decide_eq_false_2 by (by destruct a). cbv zeta.
    change (a +:+ "." +:+ b +:+ "." +:+ c) with (a +:+ String "." (b +:+ String "." c)).
    rewrite !split_app, split_none by done. cbn. by rewrite !bool_decide_eq_false_2.
Qed.

Lemma contains_spec p s : contains p s = true ↔ ∃ a b, s = (a +:+ p +:+ b)%string.
Proof.
  assert (∀ p s, String.prefix p s = true ↔ ∃ b, s = (p +:+ b)%string) as Hp.
  { clear. induction p as [|c p IH]; intros s; [split; [by exists s|by destruct s]|]. destruct s as [|d s]; cbn.
    - split; [done|]. intros [b H]. discriminate H.
    - destruct (ascii_dec c d) as [->|Hn]; [rewrite IH; split; intros [b H]; exists b; [by rewrite H|by injection H]|].
      split; [done|]. intros [b H]. by injection H. }
  split; [|intros (a & b & ->); apply ErrorMapping.contains_app].
  induction s as [|d s IH]; cbn [contains]; rewrite orb_true_iff, Hp.
  - intros [[b H]|]; [by exists ""%string, b|done].
  - intros [[b H]|(a & b & ->)%IH]; [by exists ""%string, b|by exists (String d a), b].
Qed.

Lemma includesAny_spec words m : ErrorMapping.includesAny words m = true ↔ occurs words m.
Proof.
  unfold ErrorMapping.includesAny, occurs. rewrite existsb_exists. setoid_rewrite contains_spec. setoid_rewrite list_elem_of_In. naive_solver.
Qed.

Lemma occurs_cons w ws m : occurs (w :: ws) m ↔ occurs [w] m ∨ occurs ws m.
Proof. unfold occurs. set_solver. Qed.

Lemma classify_plain m : causeAnswer (Thrown (Errors.PlainError m))
  (ErrorMapping.statusCode (appErr (classifyAuthError (Thrown (Errors.PlainError m)))))
  (ErrorMapping.code (appErr (classifyAuthError (Thrown (Errors.PlainError m))))).
Proof.
  unfold causeAnswer. cbn [classifyAuthError]. cbv zeta.
  set (net := ["network"; "econnrefused"; "enotfound"; "etimedout"; "connection reset"; "connection refused"]%string).
  assert (isNetworkError m = true ↔ occurs net (toLowerCase m) ∨ occurs ["redis"]%string (toLowerCase m) ∨ occurs ["timeout"]%string (toLowerCase m)) as Hnet.
  { unfold isNetworkError. rewrite includesAny_spec. unfold net. rewrite !(occurs_cons _ (_ :: _)). tauto. }
  assert (contains "JWT_SECRET" m || contains "not set" m = true ↔ occurs ["JWT_SECRET"; "not set"]%string m) as Hconf.
  { rewrite <-includesAny_spec. unfold ErrorMapping.includesAny. cbn [existsb]. by rewrite orb_false_r. }
  destruct (isNetworkError m).
  - assert (ErrorMapping.isNetworkError (asExternal m) = true ↔ occurs net (toLowerCase m)) as H1 by (apply includesAny_spec).
    assert (ErrorMapping.isTimeoutError (asExternal m) = true ↔ occurs ["timeout"; "timed out"; "time out"]%string (toLowerCase m)) as H2 by (apply includesAny_spec).
    rewrite (occurs_cons "timeout") in H2. unfold convertToAppError. cbn [ErrorMapping.response asExternal].
    destruct (ErrorMapping.isNetworkError (asExternal m)); [cbn; naive_solver|].
    destruct (ErrorMapping.isTimeoutError (asExternal m)); cbn; split_and!; intros; try tauto; try lia; naive_solver.
  - destruct (contains "JWT_SECRET" m || contains "not set" m); cbn; split_and!; intros; try tauto; naive_solver.
Qed.

Lemma classify_cause e : causeAnswer e (ErrorMapping.statusCode (appErr (classifyAuthError e))) (ErrorMapping.code (appErr (classifyAuthError e))).
Proof. destruct e as [[c m s|m]|[]]; [done|apply classify_plain|done..]. Qed.

(** C18: The handler runs exactly for a request whose header is [Bearer], a blank and a token (what
    follows a further blank is ignored) of
    the shape of a JWT that the token service accepts. Without such a header the answer is
    401, and when the service refuses the token it is the one its cause calls for
    ([causeAnswer]). *)
Theorem authenticate_spec validateFn authorization :
  (∀ user, authMiddleware validateFn authorization = inl user ↔
     ∃ h token, authorization = Some h ∧ bearerOf h token ∧ jwtShaped token ∧ validateFn token = Ok user) ∧
  ((¬ ∃ h token, authorization = Some h ∧ bearerOf h token ∧ jwtShaped token) →
     authMiddleware validateFn authorization = inr (401, "AUTH_ERROR"%string)) ∧
  (∀ h token e, authorization = Some h → bearerOf h token → jwtShaped token → validateFn token = Err e →
     ∃ status code, authMiddleware validateFn authorization = inr (status, code) ∧ causeAnswer e status code).
Proof.
  assert (∀ h token, authorization = Some h → bearerOf h token → jwtShaped token →
    authMiddleware validateFn authorization = match validateFn token with
      | Ok user => inl user
      | Err e => inr (ErrorMapping.statusCode (appErr (classifyAuthError e)), ErrorMapping.code (appErr (classifyAuthError e))) end) as Hgood.
  { intros h token -> Hb Hj. unfold authMiddleware, authenticateRequest. rewrite (proj2 (extractAuthHeader_spec _ token Hj)) by eauto.
    rewrite (proj2 (validateTokenFormat_None token) Hj). by destruct (validateFn token). }
  assert ((∃ h token, authorization = Some h ∧ bearerOf h token ∧ jwtShaped token) ∨ authMiddleware validateFn authorization = inr (401, "AUTH_ERROR"%string)) as Hcase.
  { unfold authMiddleware, authenticateRequest. destruct (extractAuthHeader authorization) as [token|e] eqn:Hx.
    - destruct (validateTokenFormat token) as [e|] eqn:Hf.
      + right. unfold validateTokenFormat in Hf. destruct (bool_decide _); [by injection Hf as <-|]. destruct (negb _); [by injection Hf as <-|].
        destruct (existsb _ _); [by injection Hf as <-|done].
      + apply validateTokenFormat_None in Hf. apply extractAuthHeader_spec in Hx as (h & ? & ?); [eauto 10|done].
    - right. unfold extractAuthHeader in Hx. destruct authorization as [[|c h]|]; try (by injection Hx as <-).
      destruct (stripPrefix _ _); [|by injection Hx as <-]. destruct (_ !! 1%nat); [|by injection Hx as <-].
      destruct (_ || _); [by injection Hx as <-|done]. }
  split_and!.
  - intros user. split.
    + intros H. destruct Hcase as [(h & token & Ha & Hb & Hj)|Hc]; [|congruence]. exists h, token. split_and!; [done..|].
      rewrite (Hgood h token Ha Hb Hj) in H. by destruct (validateFn token); [injection H as ->|].
    + intros (h & token & Ha & Hb & Hj & Hv). by rewrite (Hgood h token Ha Hb Hj), Hv.
  - intros Hn. by destruct Hcase.
  - intros h token e Ha Hb Hj Hv. rewrite (Hgood h token Ha Hb Hj), Hv. eexists _, _. split; [done|]. apply classify_cause.
Qed.

(** A header with a token, and what the service makes of it. *)
Lemma authenticate_spec_witness :
  authMiddleware (λ _, Err (Thrown (Errors.PlainError "connect ECONNREFUSED"))) (Some "Bearer h.p.s"%string) = inr (503, "INFRA_ERROR"%string) ∧
  authMiddleware (λ _, Err Auth.redisDown) (Some "Bearer h..s"%string) = inr (401, "AUTH_ERROR"%string).
Proof.
  split.
  - destruct (authenticate_spec (λ _, Err (Thrown (Errors.PlainError "connect ECONNREFUSED"))) (Some "Bearer h.p.s"%string)) as (_ & _ & H).
    destruct (H "Bearer h.p.s"%string "h.p.s"%string (Thrown (Errors.PlainError "connect ECONNREFUSED")) eq_refl) as (s & c & -> & Hc & _);
      [|by exists "h"%string, "p"%string, "s"%string|reflexivity|].
    { split; [done|]. exists ""%string. split; [reflexivity|by left]. }
    destruct Hc as [-> ->]; [|reflexivity]. exists "econnrefused"%string, "connect "%string, ""%string. split; [set_solver|reflexivity].
  - reflexivity.
Defined.

(** A Redis failure is answered as an internal error, not as an unavailable service. *)
Example redis_down_is_internal : ErrorMapping.statusCode (appErr (classifyAuthError Auth.redisDown)) = 500.
Proof. reflexivity. Qed.
