(* ===== verification/Middleware.v ===== *)
(** * The gates before the routes

    [middleware/adminFeatureGate.middleware.ts], [middleware/csrf.middleware.ts],
    [middleware/apiVersion.middleware.ts], [middleware/correlationId.middleware.ts],
    [middleware/requireFeature.ts], [middleware/adminTimeout.middleware.ts],
    [middleware/cooperative.middleware.ts] with [lib/cooperativeAccess.ts], and the
    CORS rule of [app.ts]. Random ids and [decodeURIComponent] are arguments. *)

From S2P Require Import Prelude JsString Json Dates.
From S2P Require JsValue AdminGate AuthHelper FeatureFlags.
Import AdminGate(getAdminAllowlistLowercase).

Definition startsWith (p s : string) : bool := match stripPrefix p s with Some _ => true | None => false end.

(** ** The admin area *)

Definition isAdminPath (path : string) : bool :=
  bool_decide (path = "/admin"%string) || startsWith "/admin/" path || bool_decide (path = "/api/admin"%string) || startsWith "/api/admin/" path.

(** [next()], or the status of a refusal; [Thrown] ends as a 500. *)
Inductive Gate : Type := Next | Refuse (status : Z) | ThrownError.

Definition adminFeatureGate (ADMIN_ROUTES_ENABLED : bool) (path : string) : Gate :=
  if negb (isAdminPath path) then Next else if negb ADMIN_ROUTES_ENABLED then Refuse 404 else Next.

Definition CSRF_COOKIE : string := "csrf_token".
Definition SAFE_METHODS : list string := ["GET"; "HEAD"; "OPTIONS"]%string.

(** The text before and after the first [c]. *)
Fixpoint cut (c : ascii) (s : string) : option (string * string) :=
  match s with
  | EmptyString => None
  | String d r => if Ascii.eqb d c then Some (""%string, r) else '(a, b) ← cut c r; Some (String d a, b)
  end.

Record HttpRequest : Type := { path : string; method : string; authorization : option string; cookie : option string; csrfHeader : option string }.

Section Csrf.
Context (decodeURIComponent : string → option string).

(** [None]: a malformed escape throws. *)
Definition cookiePart (part : string) : option (list (string * string)) :=
  match cut "=" part with
  | None => Some []
  | Some (name, value) => v ← decodeURIComponent (trim value); Some [(trim name, v)]
  end.

Fixpoint cookieParts (parts : list string) : option (list (string * string)) :=
  match parts with
  | [] => Some []
  | p :: ps => a ← cookiePart p; b ← cookieParts ps; Some (a ++ b)
  end.

(** The last cookie of a name wins. *)
Definition cookies (header : option string) : option (gmap string string) :=
  foldl (λ m p, <[p.1 := p.2]> m) ∅ <$> cookieParts (split ";" (default ""%string header)).

Definition exempt (r : HttpRequest) : bool :=
  negb (isAdminPath (path r)) || bool_decide (method r ∈ SAFE_METHODS) || match authorization r with Some a => startsWith "Bearer " a | None => false end.

Definition csrfProtection (r : HttpRequest) : Gate :=
  if exempt r then Next
  else match cookies (cookie r) with
       | None => ThrownError
       | Some jar =>
           match (jar !! CSRF_COOKIE : option string), csrfHeader r with
           | Some token, Some header =>
               if bool_decide (token = ""%string) || negb (strlen header =? strlen token)%nat then Refuse 403
               else if negb (strlen (utf8 header) =? strlen (utf8 token))%nat then ThrownError
               else if bool_decide (utf8 token = utf8 header) then Next else Refuse 403
           | _, _ => Refuse 403
           end
       end.
End Csrf.

(** ** API versions *)

Definition API_VERSION : string := "v1".
Definition LEGACY_PATH_PREFIX : string := "/api/legacy".
Definition LEGACY_SUNSET_DATE : string := "Thu, 01 Jan 2027 00:00:00 GMT".
Definition PUBLIC_API_BASE_PATHS : list string :=
  ["/auth"; "/wallet"; "/users"; "/trades"; "/goals"; "/disputes"; "/dispute-categories"; "/stellar"; "/contract"; "/treasury"; "/webhooks"; "/evidence"].

Definition isVersionedPath (path : string) : bool :=
  let normalized := match stripPrefix "/api/" path with Some r => String "/" r | None => path end in
  bool_decide (normalized = "/v1"%string) || startsWith "/v1/" normalized.
Definition isLegacyPublicPath (path : string) : bool :=
  existsb (λ p, bool_decide (path = p) || startsWith (p +:+ "/") path) PUBLIC_API_BASE_PATHS.

(** The version recorded on the request and the headers set. *)
Definition apiVersionMiddleware (path : string) : option string * list (string * string) :=
  if isVersionedPath path then (Some API_VERSION, [("X-Api-Version"%string, API_VERSION)])
  else if isLegacyPublicPath path then
    (Some LEGACY_PATH_PREFIX, [("X-Api-Version"%string, API_VERSION); ("Deprecation", "true"); ("Sunset"%string, LEGACY_SUNSET_DATE)]%string)
  else (None, []).
Definition apiVersionFrom (recorded : option string) : string := default "unversioned"%string recorded.

(** ** Tracing ids *)

Definition wordChar (c : ascii) : bool :=
  let n := N_of_ascii c in
  ((48 <=? n) && (n <=? 57) || (65 <=? n) && (n <=? 90) || (97 <=? n) && (n <=? 122) || (n =? 95) || (n =? 45))%N.
Definition isValidId (value : option string) : bool :=
  match value with
  | None | Some ""%string => false
  | Some v => if (128 <? strlen v)%nat then false else str_forall wordChar v
  end.

(** The correlation id and the request id; both are also sent back. *)
Definition correlationIdMiddleware (incoming : list string) (uuid uuid' : string) : string * string :=
  (match head incoming with Some v => if isValidId (Some v) then v else uuid | None => uuid end, uuid').

(** What is recorded on the request, else its header. *)
Definition traceContextFrom (correlationId requestId : option string) (header : list string) : option string * option string :=
  (correlationId, match requestId with Some r => Some r | None => h ← head header; if isValidId (Some h) then Some h else None end).

(** ** Features and time limits *)

Definition requireFeature (name : string) (sub walletAddress : option string) (up : bool) (r : FeatureFlags.Redis) : Gate :=
  match FeatureFlags.isEnabled up name (match sub with Some s => Some s | None => walletAddress end) r with
  | Ok true => Next
  | Ok false => Refuse 503
  | Err _ => ThrownError
  end.

(** The status a client gets, and when: the handler's if it answers in time. *)
Definition adminTimeoutMiddleware (timeoutMs : Z) (handler : option (Z * Z)) : Z * Z :=
  match handler with
  | Some (t, status) => if t <? timeoutMs then (t, status) else (timeoutMs, 504)
  | None => (timeoutMs, 504)
  end.

(** ** Cooperatives *)

(** One [coop:wallet] entry. *)
Definition pairOf (entry : string) : option (string * string) :=
  let trimmed := trim entry in
  if bool_decide (trimmed = ""%string) then None
  else match cut ":" trimmed with
       | None | Some (EmptyString, _) => None
       | Some (c, w) => let coopId := toLowerCase (trim c) in let wallet := toLowerCase (trim w) in
                        if bool_decide (coopId = ""%string) || bool_decide (wallet = ""%string) then None else Some (coopId, wallet)
       end.

Notation Members := (gmap string (gset string)).
Definition addPair (byCoop : Members) (entry : string) : Members :=
  match pairOf entry with
  | None => byCoop
  | Some (c, w) => <[c := {[w]} ∪ default ∅ (byCoop !! c)]> byCoop
  end.
Definition parsePairs (raw : string) : Members := foldl addPair ∅ (split "," raw).

Section Cooperatives.
Context (COOPERATIVE_ADMINS COOPERATIVE_MEMBERS ADMIN_STELLAR_PUBKEYS : string).

Definition getCooperativeAdmins (cooperativeId : string) : gset string := default ∅ (parsePairs COOPERATIVE_ADMINS !! toLowerCase (trim cooperativeId)).
Definition getCooperativeMembers (cooperativeId : string) : gset string := default ∅ (parsePairs COOPERATIVE_MEMBERS !! toLowerCase (trim cooperativeId)).

Definition isCooperativeAdmin (cooperativeId address : string) : bool :=
  if bool_decide (address = ""%string) then false else bool_decide (toLowerCase (trim address) ∈ getCooperativeAdmins cooperativeId).
Definition isGlobalAdmin (lower : string) : bool := bool_decide (lower ∈ getAdminAllowlistLowercase ADMIN_STELLAR_PUBKEYS).

Definition canViewCooperativeTrades (cooperativeId caller : string) : bool :=
  if bool_decide (caller = ""%string) then false
  else let lower := toLowerCase (trim caller) in isCooperativeAdmin cooperativeId lower || isGlobalAdmin lower.

(** The caller's address in lower case, unless there is none. *)
Definition lowerCaller (walletAddress : option string) : option string :=
  w ← walletAddress; if bool_decide (trim w = ""%string) then None else Some (toLowerCase (trim w)).

Definition requireCooperativeAdmin (walletAddress : option string) (cooperativeId : string) : Gate :=
  match lowerCaller walletAddress with
  | None => Refuse 401
  | Some caller => if isCooperativeAdmin cooperativeId caller || isGlobalAdmin caller then Next else Refuse 403
  end.

Definition requireCooperativeMember (walletAddress : option string) (cooperativeId : string) : Gate :=
  match lowerCaller walletAddress with
  | None => Refuse 401
  | Some caller => if bool_decide (caller ∈ getCooperativeMembers cooperativeId) || isCooperativeAdmin cooperativeId caller || isGlobalAdmin caller
                   then Next else Refuse 403
  end.
End Cooperatives.

(** ** CORS *)

(** Whether a request with this [Origin] is let through; refused, it fails as an error. *)
Definition corsOrigins (raw : string) : list string := List.filter (λ o, negb (bool_decide (o = ""%string))) (map trim (split "," raw)).
Definition corsAllowed (raw : string) (origin : option string) : bool :=
  match corsOrigins raw with
  | [] => true
  | allowlist => match origin with None | Some ""%string => true | Some o => bool_decide (o ∈ allowlist) end
  end.

(** ** Cross-site requests *)

Section CsrfFacts.
Context (decodeURIComponent : string → option string).

(** A request to the admin area that changes something and is not authorised by a
    bearer token passes exactly when its header repeats a token its cookie holds; in
    particular never without that header. *)
Theorem csrf_spec r : csrfProtection decodeURIComponent r = Next ↔
  exempt r = true ∨ ∃ jar token, cookies decodeURIComponent (cookie r) = Some jar ∧ jar !! CSRF_COOKIE = Some token ∧
    token ≠ ""%string ∧ csrfHeader r = Some token.
Proof.
  unfold csrfProtection. destruct (exempt r); [split; [by left|done]|]. split.
  - intros H. right. destruct (cookies _ _) as [jar|]; [|done]. destruct (jar !! CSRF_COOKIE : option string) as [token|] eqn:Hj; [|done].
    destruct (csrfHeader r) as [h|]; [|done]. destruct (bool_decide (token = ""%string)) eqn:He; [done|]. cbn [orb] in H.
    destruct (negb _); [done|]. destruct (negb _); [done|]. case_bool_decide as Hu; [|done]. apply utf8_inj in Hu as ->.
    apply bool_decide_eq_false in He. by exists jar, h.
  - intros [?|(jar & token & -> & Hj & Hn & ->)]; [done|].
    rewrite Hj, (bool_decide_false (token = ""%string)), !Nat.eqb_refl by done. cbn. by rewrite bool_decide_true.
Qed.
End CsrfFacts.

(** A malformed escape in any cookie fails every such request. *)
Example malformed_cookie_fails : csrfProtection (λ v, if JsValue.contains "%" v then None else Some v)
  {| path := "/api/admin/x"; method := "POST"; authorization := None; cookie := Some "theme=%; csrf_token=t"%string; csrfHeader := Some "t"%string |} = ThrownError.
Proof. reflexivity. Qed.

(** ** The admin area is found by its exact spelling *)

(** Express matches routes in any case, the gate does not: with the admin area closed
    a path in capitals still passes. *)
Theorem capitals_pass_closed_gate :
  adminFeatureGate false "/api/admin/features" = Refuse 404 ∧ adminFeatureGate false "/API/ADMIN/features" = Next ∧
  toLowerCase "/API/ADMIN/features" = "/api/admin/features"%string.
Proof. repeat split; reflexivity. Qed.

(** ** Versions *)

Lemma startsWith_spec p s : startsWith p s = true ↔ ∃ r, s = (p +:+ r)%string.
Proof.
  unfold startsWith. destruct (stripPrefix p s) as [r|] eqn:H.
  - apply AuthHelper.stripPrefix_Some in H. split; eauto.
  - split; [done|]. intros (r & Hr). apply AuthHelper.stripPrefix_Some in Hr. congruence.
Qed.

(** Exactly the requests of the public area are tagged with a version, those on
    an old path and no others are told that it is deprecated, and the admin area and
    the health checks are never tagged. *)
Theorem version_signalled p :
  let '(v, headers) := apiVersionMiddleware p in
  (apiVersionFrom v = "unversioned"%string ↔ isVersionedPath p = false ∧ isLegacyPublicPath p = false) ∧
  (("X-Api-Version", API_VERSION)%string ∈ headers ↔ v ≠ None) ∧
  (("Deprecation", "true")%string ∈ headers ↔ isVersionedPath p = false ∧ isLegacyPublicPath p = true) ∧
  (isAdminPath p = true ∨ p = "/health"%string ∨ startsWith "/health/" p = true → v = None ∧ headers = []).
Proof.
  unfold apiVersionMiddleware.
  assert (isAdminPath p = true ∨ p = "/health"%string ∨ startsWith "/health/" p = true → isVersionedPath p = false ∧ isLegacyPublicPath p = false) as Ha.
  { unfold isAdminPath. rewrite !orb_true_iff, !bool_decide_eq_true, !startsWith_spec.
    intros [[[[-> | [r ->]] | ->] | [r ->]] | [-> | [r ->]]]; split; reflexivity. }
  destruct (isVersionedPath p) eqn:Hv; [|destruct (isLegacyPublicPath p) eqn:Hl].
  - split_and!; [split; [done|by intros [? ?]]|split; [done|set_solver]|split; [set_solver|by intros [? ?]]|]. intros [? _]%Ha. done.
  - split_and!; [split; [done|by intros [_ ?]]|split; [done|set_solver]|split; [done|set_solver]|]. intros [_ ?]%Ha. done.
  - split_and!; [done|set_solver|set_solver|done].
Qed.

(** The first of January 2027 is a Friday (day 0 is a Thursday). *)
Theorem sunset_weekday_wrong : (daysFromCivil 2027 1 1 + 4) mod 7 = 5 ∧ JsValue.contains "Thu" LEGACY_SUNSET_DATE = true.
Proof. split; reflexivity. Qed.

(** ** Ids *)

(** Whatever a client sends, the ids that reach the logs and the response are short
    texts of letters, digits, dashes and underscores; a well-formed correlation id of
    the client is kept, its request id never. *)
Theorem tracing_ids_safe incoming uuid uuid' : isValidId (Some uuid) = true → isValidId (Some uuid') = true →
  let '(c, r) := correlationIdMiddleware incoming uuid uuid' in
  (isValidId (Some c) = true ∧ (strlen c ≤ 128)%nat ∧ str_forall wordChar c = true) ∧ r = uuid' ∧
  (∀ v, head incoming = Some v → isValidId (Some v) = true → c = v).
Proof.
  intros Hu Hu'. unfold correlationIdMiddleware.
  assert (∀ v, isValidId (Some v) = true → isValidId (Some v) = true ∧ (strlen v ≤ 128)%nat ∧ str_forall wordChar v = true) as Hval.
  { intros v Hv. split; [done|]. unfold isValidId in Hv. destruct v as [|a v]; [done|]. destruct (Nat.ltb_spec 128 (strlen (String a v))); [done|]. split; [lia|done]. }
  destruct (head incoming) as [v|]; [|split_and!; try apply Hval; done]. destruct (isValidId (Some v)) eqn:Hv.
  - split_and!; try apply (Hval v Hv); [done|]. by intros ? [= <-].
  - split_and!; try apply (Hval uuid Hu); [done|]. intros ? [= <-]. congruence.
Qed.

(** ** Cooperatives *)

Lemma addPair_elem m entry c w : w ∈ default ∅ (addPair m entry !! c) ↔ pairOf entry = Some (c, w) ∨ w ∈ default ∅ (m !! c).
Proof.
  unfold addPair. destruct (pairOf entry) as [[c' w']|]; [|naive_solver]. destruct (decide (c' = c)) as [->|Hn].
  - rewrite lookup_insert_eq. cbn. set_solver.
  - rewrite lookup_insert_ne by done. naive_solver.
Qed.

Lemma addPairs_elem es m c w : w ∈ default ∅ (foldl addPair m es !! c) ↔ (∃ e, e ∈ es ∧ pairOf e = Some (c, w)) ∨ w ∈ default ∅ (m !! c).
Proof.
  revert m. induction es as [|e es IH]; intros m; cbn; [set_solver|]. rewrite IH, addPair_elem. set_solver.
Qed.

Lemma parsePairs_elem raw c w : w ∈ default ∅ (parsePairs raw !! c) ↔ ∃ e, e ∈ split "," raw ∧ pairOf e = Some (c, w).
Proof. unfold parsePairs. rewrite addPairs_elem, lookup_empty. set_solver. Qed.

Section CooperativeFacts.
Context (admins members globals : string).

(** What an entry of a list grants: this wallet, in any case, in this cooperative. *)
Definition listed (raw c w : string) : Prop := ∃ e, e ∈ split "," raw ∧ pairOf e = Some (toLowerCase (trim c), w).

(** The read-only view of a cooperative is open to exactly the wallets listed as its
    members, its administrators and the global administrators; the administrators'
    routes to the latter two; nobody without a wallet gets in. *)
Theorem cooperative_access walletAddress c :
  (requireCooperativeAdmin admins globals walletAddress c = Next ↔
    ∃ w, lowerCaller walletAddress = Some w ∧ (listed admins c (toLowerCase (trim w)) ∨ w ∈ getAdminAllowlistLowercase globals)) ∧
  (requireCooperativeMember admins members globals walletAddress c = Next ↔
    requireCooperativeAdmin admins globals walletAddress c = Next ∨ ∃ w, lowerCaller walletAddress = Some w ∧ listed members c w) ∧
  (requireCooperativeAdmin admins globals walletAddress c = Next ↔
    ∃ w, walletAddress = Some w ∧ canViewCooperativeTrades admins globals c w = true) ∧
  (walletAddress = None → requireCooperativeMember admins members globals walletAddress c = Refuse 401).
Proof.
  assert (∀ w, w ≠ ""%string → isCooperativeAdmin admins c w = true ↔ listed admins c (toLowerCase (trim w))) as Ha.
  { intros w Hw. unfold isCooperativeAdmin. rewrite bool_decide_false by done. rewrite bool_decide_eq_true. apply parsePairs_elem. }
  assert (∀ w, lowerCaller walletAddress = Some w → w ≠ ""%string) as Hne.
  { unfold lowerCaller. destruct walletAddress as [v|]; [|done]. cbn. case_bool_decide as Hv; [done|]. intros w [= <-]. by destruct (trim v). }
  unfold requireCooperativeAdmin, requireCooperativeMember, isGlobalAdmin. split_and!.
  - destruct (lowerCaller walletAddress) as [w|]; [|naive_solver]. specialize (Hne w eq_refl).
    assert (isCooperativeAdmin admins c w || bool_decide (w ∈ getAdminAllowlistLowercase globals) = true ↔
      listed admins c (toLowerCase (trim w)) ∨ w ∈ getAdminAllowlistLowercase globals) as Hor by (by rewrite orb_true_iff, Ha, bool_decide_eq_true).
    destruct (_ || _); naive_solver.
  - destruct (lowerCaller walletAddress) as [w|]; [|naive_solver].
    assert (bool_decide (w ∈ getCooperativeMembers members c) = true ↔ listed members c w) as Hm by (rewrite bool_decide_eq_true; apply parsePairs_elem).
    destruct (bool_decide (w ∈ getCooperativeMembers members c)), (isCooperativeAdmin admins c w), (bool_decide _); cbn; naive_solver.
  - unfold canViewCooperativeTrades, isGlobalAdmin, lowerCaller. destruct walletAddress as [v|]; cbn; [|naive_solver].
    destruct (decide (v = ""%string)) as [->|Hv]; [cbn; naive_solver|].
    destruct (decide (trim v = ""%string)) as [Ht|Ht].
    + rewrite bool_decide_true by done. split; [done|]. intros (w & [= <-] & H). rewrite (bool_decide_false (v = ""%string)), Ht in H by done. cbn in H.
      apply bool_decide_eq_true in H. unfold getAdminAllowlistLowercase in H. apply list_elem_of_In, List.filter_In in H as [_ H]. done.
    + rewrite bool_decide_false by done. destruct (_ || _) eqn:Hor; [split; [|done]|split; [done|]].
      * intros _. exists v. split; [done|]. by rewrite bool_decide_false.
      * intros (w & [= <-] & H). rewrite bool_decide_false in H by done. congruence.
  - by intros ->.
Qed.
End CooperativeFacts.

(** ** Time limits *)

(** A client of an admin route is answered by the deadline at the latest. *)
Theorem admin_answered_in_time timeoutMs handler : 0 ≤ timeoutMs →
  (adminTimeoutMiddleware timeoutMs handler).1 ≤ timeoutMs ∧
  ((adminTimeoutMiddleware timeoutMs handler).2 ≠ 504 → handler = Some (adminTimeoutMiddleware timeoutMs handler)).
Proof.
  intros Ht. unfold adminTimeoutMiddleware. destruct handler as [[t s]|]; [|cbn; split; [lia|done]].
  destruct (Z.ltb_spec t timeoutMs); cbn; (split; [lia|done]).
Qed.
