(* ===== verification/Encryption.v ===== *)
(** * Encrypted columns

    [services/encryption.service.ts], [services/trade.notes.service.ts] and the key
    rotation of [routes/trade.routes.ts]. AES-256-GCM, PBKDF2 and SHA-256 are
    arguments on byte strings, random nonces too; hex and UTF-8 are modelled, and a
    text outside Latin-1 is an error of its own. The trade table is read by both
    services for the parties of a trade. *)

From S2P Require Import Prelude JsString JsValue Json Prisma.
From S2P Require AdminGate.

(** ** Hex and UTF-8 *)

Fixpoint toHex (bytes : string) : string :=
  match bytes with
  | EmptyString => EmptyString
  | String c r => String (hexDigit (N_of_ascii c / 16)) (String (hexDigit (N_of_ascii c mod 16)) (toHex r))
  end.

(** [Buffer.from(text, 'hex')] stops at the first pair that is not hexadecimal. *)
Fixpoint fromHex (text : string) : string :=
  match text with
  | String a (String b r) =>
      match digitIn 16 a, digitIn 16 b with
      | Some x, Some y => String (ascii_of_N (Z.to_N (x * 16 + y))) (fromHex r)
      | _, _ => EmptyString
      end
  | _ => EmptyString
  end.

Fixpoint fromUtf8 (bytes : string) : option string :=
  match bytes with
  | EmptyString => Some EmptyString
  | String c r =>
      if (N_of_ascii c <? 128)%N then String c <$> fromUtf8 r
      else match r with
           | String d r =>
               if ((N_of_ascii c =? 194) || (N_of_ascii c =? 195))%N && ((128 <=? N_of_ascii d) && (N_of_ascii d <? 192))%N
               then String (ascii_of_N ((N_of_ascii c - 192) * 64 + (N_of_ascii d - 128))) <$> fromUtf8 r
               else None
           | EmptyString => None
           end
  end.

(** ** [EncryptionService] *)

Definition IV_LENGTH : nat := 12.
Definition TAG_LENGTH : nat := 16.
Definition DEFAULT_KEY_VERSION : string := "v1".

(** The primitives of node's crypto module the service uses: [open_] throws ([None])
    when the tag does not authenticate the text or the nonce is unusable. *)
Class Crypto := {
  sha256 : string → string;
  pbkdf2 : string → string → string;
  seal : string → string → string → string * string;
  open_ : string → string → string → string → option string;
}.
Class CryptoLaws `{!Crypto} : Prop := {
  open_seal key iv p : strlen iv = IV_LENGTH → open_ key iv (seal key iv p).1 (seal key iv p).2 = Some p;
  seal_length key iv p : strlen (seal key iv p).1 = strlen p;
  tag_length key iv p : strlen (seal key iv p).2 = TAG_LENGTH;
  digest_length s : strlen (sha256 s) = 32%nat;
}.

Inductive crypto_error : Type := InvalidEncryptedPayload | NotAuthentic | NotLatin1.

Record Payload : Type := { keyVersion : string; saltHex : string; ivHex : string; ciphertextHex : string; tagHex : string }.

Section Service.
Context `{!Crypto} (masterSecret : string).

Definition saltFor (tradeId keyVersion : string) : string := sha256 (utf8 (masterSecret +:+ ":" +:+ tradeId +:+ ":" +:+ keyVersion)).

Definition deriveKey (tradeId keyVersion : string) : string := pbkdf2 (utf8 masterSecret) (saltFor tradeId keyVersion).

(** [iv] are the random bytes drawn. *)
Definition encrypt (plaintext tradeId keyVersion iv : string) : string :=
  let '(encrypted, tag) := seal (deriveKey tradeId keyVersion) iv (utf8 plaintext) in
  join ":" [keyVersion; toHex (saltFor tradeId keyVersion); toHex iv; toHex encrypted; toHex tag].

Definition parsePayload (ciphertext : string) : result crypto_error Payload :=
  match split ":" ciphertext with
  | [v; s; i; c; t] =>
      if existsb (λ p, bool_decide (p = ""%string)) [v; s; i; c; t] then Err InvalidEncryptedPayload
      else Ok {| keyVersion := v; saltHex := s; ivHex := i; ciphertextHex := c; tagHex := t |}
  | _ => Err InvalidEncryptedPayload
  end.

Definition decrypt (ciphertext tradeId : string) : result crypto_error string :=
  parsePayload ciphertext ≫= λ payload,
  match open_ (deriveKey tradeId (keyVersion payload)) (fromHex (ivHex payload)) (fromHex (ciphertextHex payload)) (fromHex (tagHex payload)) with
  | Some bytes => match fromUtf8 bytes with Some text => Ok text | None => Err NotLatin1 end
  | None => Err NotAuthentic
  end.

(** [/^v\d+:[0-9a-f]+:[0-9a-f]+:[0-9a-f]+:[0-9a-f]+$/i] *)
Definition isHexRun (s : string) : bool :=
  negb (bool_decide (s = ""%string)) && str_forall (λ c, match digitIn 16 c with Some _ => true | None => false end) s.
Definition isVersion (s : string) : bool :=
  match s with
  | String v digits => (Ascii.eqb v "v" || Ascii.eqb v "V") && negb (bool_decide (digits = ""%string)) && str_forall is_digit digits
  | EmptyString => false
  end.
Definition isEncryptedPayload (value : string) : bool :=
  match split ":" value with
  | [v; s; i; c; t] => isVersion v && isHexRun s && isHexRun i && isHexRun c && isHexRun t
  | _ => false
  end.

Definition rotateCiphertext (ciphertext tradeId newVersion iv : string) : result crypto_error string :=
  if negb (isEncryptedPayload ciphertext) then Ok (encrypt ciphertext tradeId newVersion iv)
  else decrypt ciphertext tradeId ≫= λ plaintext, Ok (encrypt plaintext tradeId newVersion iv).

(** ** Trade notes *)

Record Parties : Type := { buyerAddress : string; sellerAddress : string }.
Record Note : Type := { n_id : Z; n_tradeId : string; authorAddress : string; content : string; createdAt : Z }.
Record NoteView : Type := { w_id : Z; w_author : string; w_content : option string; w_createdAt : Z }.
Inductive notes_error : Type := TradeNoteNotFoundError | TradeNoteAccessDeniedError | DecryptFailed (e : crypto_error) | IdTaken.

Context {TT TN : Type} `{!Table string Parties TT, !Table Z Note TN} (adminPubkeysRaw : string).

Definition isParty (trade : Parties) (caller : string) : bool :=
  bool_decide (toLowerCase (buyerAddress trade) = caller) || bool_decide (toLowerCase (sellerAddress trade) = caller).
Definition isAdmin (caller : string) : bool := bool_decide (caller ∈ AdminGate.getAdminAllowlistLowercase adminPubkeysRaw).

(** The database draws the id; [now] is its clock. *)
Definition addNote (trades : TT) (tradeId author text iv : string) (newId now : Z) (notes : TN) : result notes_error Note * TN :=
  match findUnique tradeId trades with
  | None => (Err TradeNoteNotFoundError, notes)
  | Some trade =>
      let caller := toLowerCase author in
      if negb (isParty trade caller) then (Err TradeNoteAccessDeniedError, notes)
      else let note := {| n_id := newId; n_tradeId := tradeId; authorAddress := caller;
                          content := encrypt text tradeId DEFAULT_KEY_VERSION iv; createdAt := now |} in
           match create newId note notes with
           | Some notes' => (Ok note, notes')
           | None => (Err IdTaken, notes)
           end
  end.

Definition notesOf (tradeId : string) (notes : TN) : list Note := findMany (K := Z) (λ n, bool_decide (n_tradeId n = tradeId)) notes.

Definition newestFirst (x y : Note) : Z := createdAt y - createdAt x.

Definition noteView (tradeId caller : string) (admin : bool) (note : Note) : result notes_error NoteView :=
  if bool_decide (authorAddress note = caller) || admin
  then match decrypt (content note) tradeId with
       | Ok text => Ok {| w_id := n_id note; w_author := authorAddress note; w_content := Some text; w_createdAt := createdAt note |}
       | Err e => Err (DecryptFailed e)
       end
  else Ok {| w_id := n_id note; w_author := authorAddress note; w_content := None; w_createdAt := createdAt note |}.

Fixpoint mapNotes (f : Note → result notes_error NoteView) (l : list Note) : result notes_error (list NoteView) :=
  match l with [] => Ok [] | n :: l => f n ≫= λ v, mapNotes f l ≫= λ vs, Ok (v :: vs) end.

Definition listNotes (trades : TT) (tradeId callerAddress : string) (notes : TN) : result notes_error (list NoteView) :=
  match findUnique tradeId trades with
  | None => Err TradeNoteNotFoundError
  | Some trade =>
      let caller := toLowerCase callerAddress in
      if negb (isParty trade caller) && negb (isAdmin caller) then Err TradeNoteAccessDeniedError
      else mapNotes (noteView tradeId caller (isAdmin caller)) (js_sort newestFirst (notesOf tradeId notes))
  end.

(** ** Key rotation

    The notes are all rotated before the first of them is written; the manifest comes
    last. [iv] draws a nonce per text. *)

Record Manifest : Type := { driverName : string; driverIdNumber : string; vehicleRegistration : string; routeDescription : string }.
Inductive rotate_answer : Type := Rotated (keyVersion : string) | Unauthorized | NoTrade | Forbidden | Failed (e : crypto_error) | Gone.

Context {TM : Type} `{!Table string Manifest TM}.

Fixpoint rotateNotes (tradeId v : string) (iv : Z → string) (l : list Note) : result crypto_error (list (Z * string)) :=
  match l with
  | [] => Ok []
  | n :: l => rotateCiphertext (content n) tradeId v (iv (n_id n)) ≫= λ c, rotateNotes tradeId v iv l ≫= λ r, Ok ((n_id n, c) :: r)
  end.

Definition withContent (c : string) (n : Note) : Note :=
  {| n_id := n_id n; n_tradeId := n_tradeId n; authorAddress := authorAddress n; content := c; createdAt := createdAt n |}.

(** The updates of the notes; one that was deleted meanwhile rejects, the others are written. *)
Fixpoint writeNotes (rotated : list (Z * string)) (notes : TN) : bool * TN :=
  match rotated with
  | [] => (true, notes)
  | (k, c) :: r => match update k (withContent c) notes with
                   | Some (_, notes') => writeNotes r notes'
                   | None => let '(_, notes') := writeNotes r notes in (false, notes')
                   end
  end.

Definition rotateManifest (tradeId v : string) (iv : Z → string) (m : Manifest) : result crypto_error Manifest :=
  rotateCiphertext (driverName m) tradeId v (iv 1) ≫= λ a,
  rotateCiphertext (driverIdNumber m) tradeId v (iv 2) ≫= λ b,
  rotateCiphertext (vehicleRegistration m) tradeId v (iv 3) ≫= λ c,
  rotateCiphertext (routeDescription m) tradeId v (iv 4) ≫= λ d,
  Ok {| driverName := a; driverIdNumber := b; vehicleRegistration := c; routeDescription := d |}.

Definition rotateKey (trades : TT) (callerAddress : option string) (tradeId : string) (requested : option string)
    (ivNotes ivManifest : Z → string) (notes : TN) (manifests : TM) : rotate_answer * (TN * TM) :=
  match callerAddress with
  | None => (Unauthorized, (notes, manifests))
  | Some address =>
      if bool_decide (trim address = ""%string) then (Unauthorized, (notes, manifests))
      else match findUnique tradeId trades with
      | None => (NoTrade, (notes, manifests))
      | Some trade =>
          let caller := toLowerCase (trim address) in
          if negb (isParty trade caller) && negb (isAdmin caller) then (Forbidden, (notes, manifests))
          else let v := default "v2"%string requested in
               match rotateNotes tradeId v ivNotes (notesOf tradeId notes) with
               | Err e => (Failed e, (notes, manifests))
               | Ok rotated =>
                   let '(written, notes') := writeNotes rotated notes in
                   if negb written then (Gone, (notes', manifests))
                   else match findUnique tradeId manifests with
                        | None => (Rotated v, (notes', manifests))
                        | Some m =>
                            match rotateManifest tradeId v ivManifest m with
                            | Err e => (Failed e, (notes', manifests))
                            | Ok m' => match update tradeId (λ _, m') manifests with
                                       | Some (_, manifests') => (Rotated v, (notes', manifests'))
                                       | None => (Gone, (notes', manifests))
                                       end
                            end
                        end
               end
      end
  end.
End Service.

(** ** Hex and UTF-8 are read back *)

Lemma hexDigit_pair c : digitIn 16 (hexDigit (N_of_ascii c / 16)) = Some (Z.of_N (N_of_ascii c / 16)) ∧
  digitIn 16 (hexDigit (N_of_ascii c mod 16)) = Some (Z.of_N (N_of_ascii c mod 16)).
Proof. destruct c as [[] [] [] [] [] [] [] []]; vm_compute; split; reflexivity. Qed.

Lemma fromHex_toHex b : fromHex (toHex b) = b.
Proof.
  induction b as [|c r IH]; [reflexivity|]. cbn [toHex fromHex]. destruct (hexDigit_pair c) as [-> ->]. rewrite IH. f_equal.
  rewrite <-(ascii_N_embedding c) at 3. f_equal. pose proof (N.div_mod (N_of_ascii c) 16). lia.
Qed.

Lemma strlen_toHex b : strlen (toHex b) = (2 * strlen b)%nat.
Proof. induction b as [|c r IH]; [reflexivity|]. cbn [toHex strlen]. rewrite IH. lia. Qed.

Definition isHex (c : ascii) : bool := match digitIn 16 c with Some _ => true | None => false end.

Lemma toHex_hex b : str_forall isHex (toHex b) = true.
Proof.
  induction b as [|c r IH]; [reflexivity|]. cbn [toHex str_forall]. rewrite IH. unfold isHex.
  destruct (hexDigit_pair c) as [-> ->]. reflexivity.
Qed.

Lemma isHex_colon c : isHex c = true → negb (Ascii.eqb c ":") = true.
Proof. destruct (Ascii.eqb_spec c ":") as [->|]; [discriminate|reflexivity]. Qed.

Lemma hex_lacks s : str_forall isHex s = true → lacks ":" s.
Proof. apply str_forall_impl. intros c. apply isHex_colon. Qed.

Lemma toHex_nonempty b : b ≠ ""%string → toHex b ≠ ""%string.
Proof. by destruct b. Qed.

Lemma fromUtf8_char c r : fromUtf8 (utf8Char c r) = String c <$> fromUtf8 r.
Proof. destruct c as [[] [] [] [] [] [] [] []]; reflexivity. Qed.

Lemma fromUtf8_utf8 s : fromUtf8 (utf8 s) = Some s.
Proof. induction s as [|c s IH]; [reflexivity|]. cbn [utf8]. by rewrite fromUtf8_char, IH. Qed.

Lemma utf8_nonempty s : s ≠ ""%string → utf8 s ≠ ""%string.
Proof. destruct s as [|c s]; [done|]. intros _. cbn. destruct (utf8Char_cons c (utf8 s)) as (d & t & ->). done. Qed.

(** Splitting adds up at a separator. *)
Lemma split_nonempty c s : split c s ≠ [].
Proof. induction s as [|d s IH]; [done|]. cbn. destruct (Ascii.eqb d c); [done|]. by destruct (split c s). Qed.

Lemma split_length_app c s t : length (split c (s +:+ String c t)) = (length (split c s) + length (split c t))%nat.
Proof.
  induction s as [|d s IH].
  - change ("" +:+ String c t) with (String c t). cbn [split]. by rewrite Ascii.eqb_refl.
  - rewrite app_cons_str. cbn [split]. destruct (Ascii.eqb d c); [cbn; by rewrite IH|].
    destruct (split c (s +:+ String c t)) eqn:E1; [by apply split_nonempty in E1|].
    destruct (split c s) eqn:E2; [by apply split_nonempty in E2|]. cbn in *. lia.
Qed.

Lemma split_has c s : str_forall (λ d, negb (Ascii.eqb d c)) s = false → (2 ≤ length (split c s))%nat.
Proof.
  induction s as [|d s IH]; [done|]. cbn. destruct (Ascii.eqb d c).
  - intros _. destruct (split c s) eqn:E; [by apply split_nonempty in E|]. cbn. lia.
  - cbn. intros H. specialize (IH H). destruct (split c s); cbn in *; lia.
Qed.

(** ** Texts are read back *)

Section Laws.
Context `{!Crypto, !CryptoLaws} (masterSecret : string).
Notation encrypt := (encrypt masterSecret).
Notation decrypt := (decrypt masterSecret).
Notation rotateCiphertext := (rotateCiphertext masterSecret).

(** The five parts of an encrypted text. *)
Lemma encrypt_parts p t v iv : ∃ s c g, encrypt p t v iv = join ":" [v; toHex s; toHex iv; toHex c; toHex g] ∧
  s = saltFor masterSecret t v ∧ strlen s = 32%nat ∧ strlen c = strlen (utf8 p) ∧ strlen g = TAG_LENGTH ∧
  (strlen iv = IV_LENGTH → open_ (deriveKey masterSecret t v) iv c g = Some (utf8 p)).
Proof.
  unfold Encryption.encrypt. destruct (seal _ _ _) as [c g] eqn:E. exists (saltFor masterSecret t v), c, g.
  pose proof (f_equal fst E) as Ec. pose proof (f_equal snd E) as Eg. cbn in Ec, Eg. subst c g.
  split_and!; [done..|apply digest_length|apply seal_length|apply tag_length|]. intros Hi. by apply open_seal.
Qed.

Lemma nonempty_length s : (0 < strlen s)%nat → s ≠ ""%string.
Proof. destruct s; cbn; [lia|done]. Qed.

Lemma parts_lack v s i c g : lacks ":" v → Forall (lacks ":") [v; toHex s; toHex i; toHex c; toHex g].
Proof. intros Hv. repeat (constructor; [first [exact Hv|apply hex_lacks, toHex_hex]|]). constructor. Qed.

Lemma parse_parts v s i c g : lacks ":" v → v ≠ ""%string → s ≠ ""%string → i ≠ ""%string → g ≠ ""%string →
  parsePayload (join ":" [v; toHex s; toHex i; toHex c; toHex g]) =
  if bool_decide (c = ""%string) then Err InvalidEncryptedPayload
  else Ok {| keyVersion := v; saltHex := toHex s; ivHex := toHex i; ciphertextHex := toHex c; tagHex := toHex g |}.
Proof.
  intros Hl Hv Hs Hi Hg. unfold parsePayload. rewrite split_join by (done || by apply parts_lack). cbn [existsb].
  rewrite (bool_decide_false (v = _)), (bool_decide_false (toHex s = _)), (bool_decide_false (toHex i = _)),
    (bool_decide_false (toHex g = _)) by (done || by apply toHex_nonempty).
  destruct c; [done|]. by rewrite !bool_decide_false by done.
Qed.

Lemma decrypt_encrypt p t v iv : p ≠ ""%string → v ≠ ""%string → lacks ":" v → strlen iv = IV_LENGTH →
  decrypt (encrypt p t v iv) t = Ok p.
Proof.
  intros Hp Hv Hl Hi. destruct (encrypt_parts p t v iv) as (s & c & g & -> & _ & Hs & Hc & Hg & Ho). unfold Encryption.decrypt.
  assert (c ≠ ""%string) as Hc'.
  { apply nonempty_length. rewrite Hc. apply utf8_nonempty in Hp. destruct (utf8 p); [done|cbn; lia]. }
  rewrite parse_parts by (done || apply nonempty_length; rewrite ?Hs, ?Hi, ?Hg; unfold IV_LENGTH, TAG_LENGTH; lia).
  rewrite bool_decide_false by done. cbn -[open_ fromHex deriveKey fromUtf8]. rewrite !fromHex_toHex, Ho by done. by rewrite fromUtf8_utf8.
Qed.

(** The empty text is encrypted but not read back. *)
Theorem empty_text_unreadable t v iv : v ≠ ""%string → lacks ":" v → strlen iv = IV_LENGTH →
  decrypt (encrypt "" t v iv) t = Err InvalidEncryptedPayload.
Proof.
  intros Hv Hl Hi. destruct (encrypt_parts "" t v iv) as (s & c & g & -> & _ & Hs & Hc & Hg & _). unfold Encryption.decrypt.
  rewrite parse_parts by (done || apply nonempty_length; rewrite ?Hs, ?Hi, ?Hg; unfold IV_LENGTH, TAG_LENGTH; lia).
  destruct c; [done|discriminate].
Qed.

(** A version with a colon makes a text nobody can read. *)
Lemma colon_version_unreadable p t v iv t' : str_forall (λ d, negb (Ascii.eqb d ":")) v = false →
  decrypt (encrypt p t v iv) t' = Err InvalidEncryptedPayload.
Proof.
  intros Hv. destruct (encrypt_parts p t v iv) as (s & c & g & -> & _). unfold Encryption.decrypt, parsePayload.
  assert (6 ≤ length (split ":" (join ":" [v; toHex s; toHex iv; toHex c; toHex g])))%nat as Hlen.
  { cbn [join]. rewrite !split_length_app. apply split_has in Hv.
    rewrite !(split_none _ (toHex _)) by apply hex_lacks, toHex_hex. cbn [length]. lia. }
  destruct (split _ _) as [|? [|? [|? [|? [|? [|? ?]]]]]]; try (cbn in Hlen; lia); reflexivity.
Qed.

Lemma isVersion_lacks v : isVersion v = true → v ≠ ""%string ∧ lacks ":" v.
Proof.
  destruct v as [|c d]; [done|]. cbn. rewrite !andb_true_iff, orb_true_iff. intros [[Hc _] Hd]. split; [done|].
  unfold lacks. cbn. apply andb_true_iff. split.
  - destruct Hc as [->%Ascii.eqb_eq | ->%Ascii.eqb_eq]; reflexivity.
  - revert Hd. apply str_forall_impl. intros x Hx. by apply (digit_ne x ":").
Qed.

Lemma isHexRun_toHex b : b ≠ ""%string → isHexRun (toHex b) = true.
Proof.
  intros Hb. unfold isHexRun. rewrite bool_decide_false by (by apply toHex_nonempty). apply toHex_hex.
Qed.

Lemma encrypted_recognised p t v iv : p ≠ ""%string → isVersion v = true → strlen iv = IV_LENGTH → isEncryptedPayload (encrypt p t v iv) = true.
Proof.
  intros Hp Hv Hi. destruct (encrypt_parts p t v iv) as (s & c & g & -> & _ & Hs & Hc & Hg & _). destruct (isVersion_lacks v Hv) as [Hv' Hl].
  unfold isEncryptedPayload. rewrite split_join by (done || by apply parts_lack). rewrite Hv. cbn [andb].
  rewrite !isHexRun_toHex; [done|apply nonempty_length..]; rewrite ?Hs, ?Hi, ?Hg; unfold IV_LENGTH, TAG_LENGTH; try lia.
  rewrite Hc. apply utf8_nonempty in Hp. destruct (utf8 p); [done|cbn; lia].
Qed.

(** What is encrypted for a trade under a proper key version is read back, is
    recognised as encrypted, and can be moved to other proper versions any number of
    times, from plain text too, without the text changing. *)
Theorem rotation_roundtrip p t v iv (moves : list (string * string)) : p ≠ ""%string → isVersion v = true → strlen iv = IV_LENGTH →
  Forall (λ m, isVersion m.1 = true ∧ strlen m.2 = IV_LENGTH) moves →
  ∃ c, foldl (λ c m, c ≫= λ c, rotateCiphertext c t m.1 m.2) (Ok (encrypt p t v iv)) moves = Ok c ∧
    isEncryptedPayload c = true ∧ decrypt c t = Ok p ∧
    ∀ raw, isEncryptedPayload raw = false → raw ≠ ""%string → ∃ c', rotateCiphertext raw t v iv = Ok c' ∧ decrypt c' t = Ok raw.
Proof.
  intros Hp Hv Hi Hm. destruct (isVersion_lacks v Hv) as [Hv' Hl].
  assert (∃ c, foldl (λ c m, c ≫= λ c, rotateCiphertext c t m.1 m.2) (Ok (encrypt p t v iv)) moves = Ok c ∧
    isEncryptedPayload c = true ∧ decrypt c t = Ok p) as (c & H1 & H2 & H3).
  2: { exists c. split_and!; [done..|]. intros raw Hr Hn. unfold Encryption.rotateCiphertext. rewrite Hr. cbn [negb].
       eexists. split; [done|]. by apply decrypt_encrypt. }
  clear Hl Hv'. revert v iv Hv Hi. induction Hm as [|[w i] moves [Hw Hwi] _ IH]; intros v iv Hv Hi; cbn [foldl].
  - eexists. split; [done|]. split; [by apply encrypted_recognised|]. destruct (isVersion_lacks v Hv). by apply decrypt_encrypt.
  - destruct (isVersion_lacks v Hv) as [Hv' Hl]. cbn [mbind result_bind fst snd]. unfold Encryption.rotateCiphertext at 2.
    rewrite encrypted_recognised by done. cbn [negb]. rewrite decrypt_encrypt by done. by apply IH.
Qed.

(** A version that is not [v] and digits is encrypted again by the next rotation: the
    reader then gets the inner ciphertext. *)
Theorem odd_version_encrypts_twice p t v iv w iw : isVersion v = false → lacks ":" v → isVersion w = true → strlen iw = IV_LENGTH →
  ∃ c, rotateCiphertext (encrypt p t v iv) t w iw = Ok c ∧ decrypt c t = Ok (encrypt p t v iv).
Proof.
  intros Hv Hl Hw Hiw. destruct (isVersion_lacks w Hw) as [Hw' Hlw]. unfold Encryption.rotateCiphertext.
  assert (isEncryptedPayload (encrypt p t v iv) = false) as ->.
  { destruct (encrypt_parts p t v iv) as (s & c & g & -> & _). unfold isEncryptedPayload.
    rewrite split_join by (done || by apply parts_lack). by rewrite Hv. }
  cbn [negb]. eexists. split; [done|]. apply decrypt_encrypt; try done.
  destruct (encrypt_parts p t v iv) as (s & c & g & -> & _). cbn [join]. destruct v; done.
Qed.

(** ** The length of what is stored *)

Lemma strlen_join c l : l ≠ [] → strlen (join c l) = (sum_list_with strlen l + (length l - 1))%nat.
Proof.
  induction l as [|p l IH]; [done|]. intros _. destruct l as [|q l]; [cbn; lia|].
  change (join c (p :: q :: l)) with (p +:+ String c (join c (q :: l))). rewrite strlen_app. cbn [strlen]. rewrite IH by done. cbn. lia.
Qed.

Lemma encrypt_length p t v iv : strlen iv = IV_LENGTH →
  strlen (encrypt p t v iv) = (strlen v + 124 + 2 * strlen (utf8 p))%nat.
Proof.
  intros Hi. destruct (encrypt_parts p t v iv) as (s & c & g & -> & _ & Hs & Hc & Hg & _).
  rewrite strlen_join by done. cbn [sum_list_with length]. rewrite !strlen_toHex, Hs, Hi, Hc, Hg. unfold IV_LENGTH, TAG_LENGTH. lia.
Qed.
End Laws.

(** ** Notes *)

Section Notes.
Context `{!Crypto, !CryptoLaws} (masterSecret : string).
Context {TT TN TM : Type} `{!Table string Parties TT, !Table Z Note TN, !TableLaws Z Note TN, !Table string Manifest TM, !TableLaws string Manifest TM}.
Context (adminPubkeysRaw : string).
Notation decrypt := (decrypt masterSecret).

Definition readable (tradeId : string) (n : Note) : Prop := ∃ p, decrypt (content n) tradeId = Ok p.
Definition allReadable (tradeId : string) (notes : TN) : Prop := ∀ n, n ∈ notesOf tradeId notes → readable tradeId n.

Lemma notesOf_elem tradeId (notes : TN) n : n ∈ notesOf tradeId notes ↔ ∃ k, findUnique k notes = Some n ∧ n_tradeId n = tradeId.
Proof. unfold notesOf. rewrite (findMany_elem (K := Z)). by setoid_rewrite bool_decide_eq_true. Qed.

Lemma mapNotes_ok f l : (∀ n, n ∈ l → ∃ v, f n = Ok v) → ∃ vs, mapNotes f l = Ok vs ∧ Forall2 (λ n v, f n = Ok v) l vs.
Proof.
  induction l as [|n l IH]; intros Hf; [by exists []|]. destruct (Hf n) as [v Hv]; [set_solver|].
  destruct IH as (vs & Hvs & H2); [set_solver|]. exists (v :: vs). cbn. rewrite Hv. cbn. rewrite Hvs. split; [done|by constructor].
Qed.

Lemma mapNotes_inv f l vs : mapNotes f l = Ok vs → Forall2 (λ n v, f n = Ok v) l vs.
Proof.
  revert vs. induction l as [|n l IH]; cbn; intros vs E; [injection E as <-; constructor|].
  apply bind_Ok in E as (v & Hv & E). apply bind_Ok in E as (vs' & Hvs & [= <-]). constructor; auto.
Qed.

Definition mayRead (caller : string) (n : Note) : bool := bool_decide (authorAddress n = caller) || isAdmin adminPubkeysRaw caller.

(** What a viewer is shown of a note. *)
Definition shown (tradeId caller : string) (n : Note) (v : NoteView) : Prop :=
  w_id v = n_id n ∧ w_author v = authorAddress n ∧ w_createdAt v = createdAt n ∧
  if mayRead caller n then ∃ p, decrypt (content n) tradeId = Ok p ∧ w_content v = Some p else w_content v = None.

Lemma noteView_shown tradeId caller n v : noteView masterSecret tradeId caller (isAdmin adminPubkeysRaw caller) n = Ok v → shown tradeId caller n v.
Proof.
  unfold noteView, shown, mayRead. destruct (_ || _); [|by intros [= <-]]. destruct (decrypt _ _) eqn:E; [|done]. intros [= <-]. cbn. naive_solver.
Qed.

Lemma noteView_readable tradeId caller n : readable tradeId n → ∃ v, noteView masterSecret tradeId caller (isAdmin adminPubkeysRaw caller) n = Ok v.
Proof. intros [p Hp]. unfold noteView. rewrite Hp. destruct (_ || _); eauto. Qed.

(** Notes are listed to the parties and administrators only, each once and newest
    first; the text is shown to its author and to administrators, to nobody else. *)
Theorem notes_private (trades : TT) tradeId viewer (notes : TN) :
  let caller := toLowerCase viewer in
  match listNotes masterSecret adminPubkeysRaw trades tradeId viewer notes with
  | Ok vs => (∃ t, findUnique tradeId trades = Some t ∧ (isParty t caller = true ∨ isAdmin adminPubkeysRaw caller = true)) ∧
      ∃ ns, ns ≡ₚ notesOf tradeId notes ∧ StronglySorted (cmp_le newestFirst) ns ∧ Forall2 (shown tradeId caller) ns vs
  | Err e => allReadable tradeId notes →
      e = TradeNoteNotFoundError ∧ findUnique tradeId trades = None ∨
      e = TradeNoteAccessDeniedError ∧ ∃ t, findUnique tradeId trades = Some t ∧ isParty t caller = false ∧ isAdmin adminPubkeysRaw caller = false
  end.
Proof.
  intros caller. unfold listNotes. fold caller. destruct (findUnique tradeId trades) as [t|]; [|auto].
  destruct (negb (isParty t caller) && negb (isAdmin adminPubkeysRaw caller)) eqn:Ha; zb; [naive_solver|].
  set (ns := js_sort _ _). destruct (mapNotes _ ns) as [vs|e] eqn:E.
  - split; [exists t; split; [done|]; destruct Ha; auto|]. exists ns. split_and!; [apply js_sort_perm| |].
    + apply js_sort_sorted; unfold cmp_le, newestFirst; intros; lia.
    + apply mapNotes_inv in E. eapply Forall2_impl; [exact E|]. apply noteView_shown.
  - intros Hr. destruct (mapNotes_ok (noteView masterSecret tradeId caller (isAdmin adminPubkeysRaw caller)) ns) as (vs & Hvs & _); [|congruence].
    intros n Hn. apply noteView_readable, Hr. unfold ns in Hn. by rewrite js_sort_elem in Hn.
Qed.

(** A note that was stored is read back by its author and by administrators exactly
    as it was written, other parties see that it exists, and everything readable
    before stays readable. *)
Theorem note_read_back (trades : TT) tradeId author text iv newId now (notes notes' : TN) note viewer :
  addNote masterSecret trades tradeId author text iv newId now notes = (Ok note, notes') →
  allReadable tradeId notes → text ≠ ""%string → strlen iv = IV_LENGTH →
  (∃ t, findUnique tradeId trades = Some t ∧ (isParty t (toLowerCase viewer) = true ∨ isAdmin adminPubkeysRaw (toLowerCase viewer) = true)) →
  allReadable tradeId notes' ∧
  ∃ vs, listNotes masterSecret adminPubkeysRaw trades tradeId viewer notes' = Ok vs ∧
    {| w_id := newId; w_author := toLowerCase author; w_createdAt := now;
       w_content := if bool_decide (toLowerCase author = toLowerCase viewer) || isAdmin adminPubkeysRaw (toLowerCase viewer) then Some text else None |} ∈ vs.
Proof.
  intros Hadd Hr Ht Hi (t & Hf & Hv). unfold addNote in Hadd. rewrite Hf in Hadd. destruct (negb (isParty t _)) eqn:Hp; [done|].
  set (n := {| n_id := newId; n_tradeId := tradeId; authorAddress := _; content := _; createdAt := now |}) in *.
  destruct (create newId n notes) as [db|] eqn:Hc; [|done]. injection Hadd as <- <-.
  assert (decrypt (content n) tradeId = Ok text) as Hd by (by apply decrypt_encrypt).
  apply create_inv in Hc as (Hfree & Hnew & Hother).
  assert (∀ m, m ∈ notesOf tradeId db ↔ m = n ∨ m ∈ notesOf tradeId notes) as Hel.
  { intros m. rewrite !notesOf_elem. split.
    - intros (k & Hk & Hm). destruct (decide (k = newId)) as [->|Hne]; [left; congruence|right]. rewrite Hother in Hk by done. eauto.
    - intros [->|(k & Hk & Hm)]; [by exists newId|]. exists k. rewrite Hother; [done|]. congruence. }
  assert (allReadable tradeId db) as Hr' by (intros m [->|Hm]%Hel; [by exists text|by apply Hr]).
  split; [done|]. unfold listNotes. rewrite Hf. destruct (negb _ && negb _) eqn:Ha; [exfalso; zb; destruct Ha, Hv; congruence|].
  set (caller := toLowerCase viewer) in *.
  destruct (mapNotes_ok (noteView masterSecret tradeId caller (isAdmin adminPubkeysRaw caller)) (js_sort newestFirst (notesOf tradeId db))) as (vs & Hvs & H2).
  { intros m Hm. apply noteView_readable, Hr'. by rewrite js_sort_elem in Hm. }
  exists vs. split; [done|]. assert (n ∈ js_sort newestFirst (notesOf tradeId db)) as Hin by (apply js_sort_elem, Hel; auto).
  apply list_elem_of_lookup in Hin as [j Hj]. destruct (Forall2_lookup_l _ _ _ _ _ H2 Hj) as (v & Hv' & Hview).
  apply noteView_shown in Hview as (H1 & H3 & H4 & H5). apply list_elem_of_lookup. exists j. rewrite Hv'. f_equal.
  destruct v as [a b c d]. cbn in *. subst a b d. f_equal. unfold mayRead in H5. cbn [authorAddress n] in H5. fold caller.
  destruct (_ || _); [destruct H5 as (p & Hp' & ->); congruence|done].
Qed.

(** ** Rotation *)

(** A stored text the service wrote: recognised, and read as [p]. *)
Definition holds (tradeId c p : string) : Prop := isEncryptedPayload c = true ∧ decrypt c tradeId = Ok p ∧ p ≠ ""%string.

Lemma holds_unique tradeId c p q : holds tradeId c p → holds tradeId c q → p = q.
Proof. intros (_ & Hp & _) (_ & Hq & _). congruence. Qed.

(** Such a text under the key of version [v] and the bytes [iv]. *)
Definition heldUnder (tradeId v iv c p : string) : Prop :=
  holds tradeId c p ∧ ∃ body tag, c = join ":" [v; toHex (saltFor masterSecret tradeId v); toHex iv; body; tag].

Lemma rotate_holds tradeId c p v iv : holds tradeId c p → isVersion v = true → strlen iv = IV_LENGTH →
  ∃ c', rotateCiphertext masterSecret c tradeId v iv = Ok c' ∧ heldUnder tradeId v iv c' p.
Proof.
  intros (He & Hd & Hp) Hv Hi. unfold rotateCiphertext. rewrite He, Hd. cbn. eexists. split; [done|].
  destruct (isVersion_lacks v Hv). split; [split_and!; [by apply encrypted_recognised|by apply decrypt_encrypt|done]|].
  unfold encrypt. destruct (seal _ _ _) as [body tag]. by exists (toHex body), (toHex tag).
Qed.

Definition rotatedTo (R : Note → string → Prop) (n : Note) (r : Z * string) : Prop := r.1 = n_id n ∧ R n r.2.

Lemma rotateNotes_ok (R : Note → string → Prop) tradeId v iv l :
  (∀ n, n ∈ l → ∃ c, rotateCiphertext masterSecret (content n) tradeId v (iv (n_id n)) = Ok c ∧ R n c) →
  ∃ r, rotateNotes masterSecret tradeId v iv l = Ok r ∧ Forall2 (rotatedTo R) l r.
Proof.
  intros Hl. induction l as [|n l IH]; [by exists []|]. destruct (Hl n) as (c & Hc & Hh); [set_solver|].
  destruct IH as (r & Hr & H2); [set_solver|].
  exists ((n_id n, c) :: r). cbn. rewrite Hc. cbn. rewrite Hr. split; [done|]. by constructor.
Qed.

(** Writing the rotated notes touches them and no other row. *)
Lemma writeNotes_spec (R : Note → string → Prop) l r (notes : TN) : Forall2 (rotatedTo R) l r → NoDup (map n_id l) →
  (∀ n, n ∈ l → findUnique (n_id n) notes = Some n) →
  ∃ notes', writeNotes r notes = (true, notes') ∧
    (∀ k, k ∉ map n_id l → findUnique k notes' = findUnique k notes) ∧
    (∀ n, n ∈ l → ∃ c, findUnique (n_id n) notes' = Some (withContent c n) ∧ R n c).
Proof.
  intros H2. revert notes. induction H2 as [|n [k c] l r [Hk Hc] _ IH]; intros notes Hn Hf.
  { exists notes. split_and!; [done..|intros ? []%elem_of_nil]. }
  cbn in Hk, Hc. subst k. inversion Hn as [|?? Hni Hn']; subst.
  destruct (update_found (n_id n) (withContent c) notes n) as (db & Hu & Hs & Ho); [apply Hf; set_solver|].
  destruct (IH db Hn') as (notes' & Hw & Hout & Hin).
  { intros m Hm. rewrite Ho; [apply Hf; set_solver|]. intros He. apply Hni. rewrite <-He. apply list_elem_of_fmap. eauto. }
  exists notes'. cbn [writeNotes]. rewrite Hu. split_and!; [done| |].
  - intros k Hk. cbn [map] in Hk. rewrite Hout by set_solver. apply Ho. set_solver.
  - intros m [->|Hm]%elem_of_cons; [|by apply Hin]. exists c. split; [|done]. by rewrite Hout.
Qed.

Lemma notes_found tradeId (notes : TN) : keyed n_id notes → ∀ n, n ∈ notesOf tradeId notes → findUnique (n_id n) notes = Some n.
Proof. intros Hk n (k & Hn & _)%notesOf_elem. by rewrite (Hk k n Hn). Qed.

Lemma rotateManifest_ok tradeId v iv m a b c d : holds tradeId (driverName m) a → holds tradeId (driverIdNumber m) b →
  holds tradeId (vehicleRegistration m) c → holds tradeId (routeDescription m) d → isVersion v = true → (∀ k, strlen (iv k) = IV_LENGTH) →
  ∃ m', rotateManifest masterSecret tradeId v iv m = Ok m' ∧ heldUnder tradeId v (iv 1) (driverName m') a ∧ heldUnder tradeId v (iv 2) (driverIdNumber m') b ∧
    heldUnder tradeId v (iv 3) (vehicleRegistration m') c ∧ heldUnder tradeId v (iv 4) (routeDescription m') d.
Proof.
  intros Ha Hb Hc Hd Hv Hi. unfold rotateManifest.
  destruct (rotate_holds _ _ _ v (iv 1) Ha Hv (Hi _)) as (? & -> & ?), (rotate_holds _ _ _ v (iv 2) Hb Hv (Hi _)) as (? & -> & ?),
    (rotate_holds _ _ _ v (iv 3) Hc Hv (Hi _)) as (? & -> & ?), (rotate_holds _ _ _ v (iv 4) Hd Hv (Hi _)) as (? & -> & ?).
  cbn. eexists. split; [done|]. cbn. done.
Qed.

(** What a manifest holds. *)
Definition manifestHolds (tradeId : string) (m : Manifest) (t : Manifest) : Prop :=
  holds tradeId (driverName m) (driverName t) ∧ holds tradeId (driverIdNumber m) (driverIdNumber t) ∧
  holds tradeId (vehicleRegistration m) (vehicleRegistration t) ∧ holds tradeId (routeDescription m) (routeDescription t).

Definition manifestUnder (tradeId v : string) (iv : Z → string) (m : Manifest) (t : Manifest) : Prop :=
  heldUnder tradeId v (iv 1) (driverName m) (driverName t) ∧ heldUnder tradeId v (iv 2) (driverIdNumber m) (driverIdNumber t) ∧
  heldUnder tradeId v (iv 3) (vehicleRegistration m) (vehicleRegistration t) ∧ heldUnder tradeId v (iv 4) (routeDescription m) (routeDescription t).

(** C39: Let every note and manifest text of a trade be one the service wrote under a proper
    version (recognised as encrypted, readable, not empty), and let a party or an administrator
    ask for a rotation to a proper version. It succeeds; then every note and the manifest hold
    the text they held, sealed under the new version with the bytes drawn for it; nothing else
    is touched. A text under an odd version is not recognised and is encrypted once more
    ([odd_version_encrypts_twice]). *)
Theorem rotation_keeps_texts (trades : TT) address tradeId requested ivN ivM (notes : TN) (manifests : TM) t :
  findUnique tradeId trades = Some t → trim address ≠ ""%string →
  isParty t (toLowerCase (trim address)) = true ∨ isAdmin adminPubkeysRaw (toLowerCase (trim address)) = true →
  isVersion (default "v2"%string requested) = true → (∀ k, strlen (ivN k) = IV_LENGTH) → (∀ k, strlen (ivM k) = IV_LENGTH) →
  keyed n_id notes → (∀ n, n ∈ notesOf tradeId notes → ∃ p, holds tradeId (content n) p) →
  (∀ m, findUnique tradeId manifests = Some m → ∃ x, manifestHolds tradeId m x) →
  ∃ notes' manifests', rotateKey masterSecret adminPubkeysRaw trades (Some address) tradeId requested ivN ivM notes manifests =
    (Rotated (default "v2"%string requested), (notes', manifests')) ∧
  (∀ k n, findUnique k notes = Some n → n_tradeId n = tradeId → ∃ c, findUnique k notes' = Some (withContent c n) ∧
    ∀ p, holds tradeId (content n) p → heldUnder tradeId (default "v2"%string requested) (ivN k) c p) ∧
  (∀ k, (∀ n, findUnique k notes = Some n → n_tradeId n ≠ tradeId) → findUnique k notes' = findUnique k notes) ∧
  (∀ m x, findUnique tradeId manifests = Some m → manifestHolds tradeId m x → ∃ m', findUnique tradeId manifests' = Some m' ∧ manifestUnder tradeId (default "v2"%string requested) ivM m' x) ∧
  (∀ k, k ≠ tradeId → findUnique k manifests' = findUnique k manifests).
Proof.
  intros Hf Ha Hp Hv HiN HiM Hk Hn Hm. unfold rotateKey. rewrite bool_decide_false, Hf by done.
  destruct (negb _ && negb _) eqn:Hg; [exfalso; zb; destruct Hg, Hp; congruence|]. set (v := default _ _) in *. clear Hg.
  destruct (rotateNotes_ok (λ n c, ∀ p, holds tradeId (content n) p → heldUnder tradeId v (ivN (n_id n)) c p) tradeId v ivN (notesOf tradeId notes)) as (r & -> & H2).
  { intros n [p Hp']%Hn. destruct (rotate_holds tradeId (content n) p v (ivN (n_id n)) Hp' Hv (HiN _)) as (c & Hc & Hh).
    exists c. split; [done|]. intros q Hq. by rewrite (holds_unique _ _ _ _ Hq Hp'). }
  pose proof (notes_found tradeId notes Hk) as Hfind.
  destruct (writeNotes_spec _ _ r notes H2) as (notes' & -> & Hout & Hin); [by apply (findMany_NoDup n_id)|done|]. cbn [negb].
  assert ((∀ k n, findUnique k notes = Some n → n_tradeId n = tradeId → ∃ c, findUnique k notes' = Some (withContent c n) ∧ ∀ p, holds tradeId (content n) p → heldUnder tradeId v (ivN k) c p) ∧
    (∀ k, (∀ n, findUnique k notes = Some n → n_tradeId n ≠ tradeId) → findUnique k notes' = findUnique k notes)) as [HA HB].
  { split.
    - intros k n Hkn Ht. rewrite <-(Hk k n Hkn). apply Hin, notesOf_elem. eauto.
    - intros k Hne. apply Hout. rewrite list_elem_of_fmap. intros (n & -> & Hn'). pose proof (Hfind n Hn') as Hn''.
      apply notesOf_elem in Hn' as (? & _ & Ht). by apply (Hne n Hn''). }
  destruct (findUnique tradeId manifests) as [m|] eqn:Hman.
  - destruct (Hm m eq_refl) as (x & H1 & H3 & H4 & H5). destruct (rotateManifest_ok tradeId v ivM m _ _ _ _ H1 H3 H4 H5 Hv HiM) as (m' & -> & Hm').
    destruct (update_found tradeId (λ _, m') manifests m Hman) as (ms & -> & Hs & Ho). exists notes', ms. split_and!; try done.
    intros m0 y [= <-] (E1 & E2 & E3 & E4). exists m'. split; [done|].
    by rewrite (holds_unique _ _ _ _ H1 E1), (holds_unique _ _ _ _ H3 E2), (holds_unique _ _ _ _ H4 E3), (holds_unique _ _ _ _ H5 E4) in Hm'.
  - exists notes', manifests. split_and!; done.
Qed.

(** The version is not checked: a party that asks for one with a colon makes every note
    of the trade unreadable for good, and is told that the rotation succeeded. *)
Theorem rotation_can_destroy (trades : TT) address tradeId v ivN ivM (notes : TN) (manifests : TM) t :
  findUnique tradeId trades = Some t → trim address ≠ ""%string → isParty t (toLowerCase (trim address)) = true →
  str_forall (λ d, negb (Ascii.eqb d ":")) v = false → keyed n_id notes →
  (∀ n, n ∈ notesOf tradeId notes → ∃ p, holds tradeId (content n) p) → findUnique tradeId manifests = None →
  ∃ notes', rotateKey masterSecret adminPubkeysRaw trades (Some address) tradeId (Some v) ivN ivM notes manifests = (Rotated v, (notes', manifests)) ∧
  ∀ k n, findUnique k notes = Some n → n_tradeId n = tradeId →
    ∃ n', findUnique k notes' = Some n' ∧ ∀ t', decrypt (content n') t' = Err InvalidEncryptedPayload.
Proof.
  intros Hf Ha Hp Hv Hk Hn Hm. unfold rotateKey. rewrite bool_decide_false, Hf, Hp by done. cbn [negb andb default]. unfold default, id.
  destruct (rotateNotes_ok (λ _ c, ∀ t', decrypt c t' = Err InvalidEncryptedPayload) tradeId v ivN (notesOf tradeId notes)) as (r & -> & H2).
  { intros n [p (He & Hd & _)]%Hn. unfold rotateCiphertext. rewrite He, Hd. cbn. eexists. split; [done|]. intros t'. by apply colon_version_unreadable. }
  destruct (writeNotes_spec _ _ r notes H2) as (notes' & -> & _ & Hin); [by apply (findMany_NoDup n_id)|by apply notes_found|]. cbn [negb].
  rewrite Hm. exists notes'. split; [done|]. intros k n Hkn Ht. rewrite <-(Hk k n Hkn).
  destruct (Hin n) as (c & Hc & Hr); [apply notesOf_elem; eauto|]. eauto.
Qed.
End Notes.

(** ** Concrete runs *)

Module Toy.
Definition tag : string := repeat_char "t" 16.
#[global] Instance crypto : Crypto := {|
  sha256 _ := repeat_char "s" 32; pbkdf2 secret salt := (secret +:+ salt)%string; seal _ _ p := (p, tag);
  open_ _ _ c t := if bool_decide (t = tag) then Some c else None |}.
#[global] Instance crypto_laws : CryptoLaws.
Proof. split; [intros; cbn; by rewrite bool_decide_true|reflexivity..]. Qed.

Definition iv : string := repeat_char "i" 12.
Definition trades : gmap string Parties := {[ "T1"%string := {| buyerAddress := "GB"; sellerAddress := "GS" |} ]}.
Definition added : result notes_error Note * gmap Z Note := addNote "secret" trades "T1" "GB" "call me" iv 7 100 (∅ : gmap Z Note).
Definition manifests : gmap string Manifest := {[ "T1"%string :=
  {| driverName := encrypt "secret" "Ada" "T1" "v1" iv; driverIdNumber := encrypt "secret" "42" "T1" "v1" iv;
     vehicleRegistration := encrypt "secret" "KJA-1" "T1" "v1" iv; routeDescription := encrypt "secret" "north" "T1" "v1" iv |} ]}.
End Toy.

Example note_is_ciphertext : ∃ n notes, Toy.added = (Ok n, notes) ∧ authorAddress n = "gb"%string ∧
  content n = join ":" ["v1"; toHex (repeat_char "s" 32); toHex Toy.iv; toHex "call me"; toHex Toy.tag].
Proof. vm_compute. by eexists _, _. Qed.

Lemma rotation_roundtrip_witness : ∃ c,
  foldl (λ c m, c ≫= λ c, rotateCiphertext "secret" c "T1" m.1 m.2) (Ok (encrypt "secret" "naïve"%string "T1" "v1" Toy.iv))
    [("v2", Toy.iv); ("v3", Toy.iv)]%string = Ok c ∧ decrypt "secret" c "T1" = Ok "naïve"%string.
Proof.
  destruct (rotation_roundtrip "secret" "naïve" "T1" "v1" Toy.iv [("v2", Toy.iv); ("v3", Toy.iv)]%string) as (c & H1 & _ & H2 & _);
    [discriminate|reflexivity|reflexivity|repeat constructor|]. exists c. split; [exact H1|exact H2].
Defined.

Lemma note_read_back_witness : ∃ n notes vs, Toy.added = (Ok n, notes) ∧
  listNotes "secret" "GADMIN" Toy.trades "T1" "gs" notes = Ok vs ∧ {| w_id := 7; w_author := "gb"; w_createdAt := 100; w_content := None |} ∈ vs.
Proof.
  destruct Toy.added as [[n|e] notes] eqn:E; [|vm_compute in E; discriminate E]. exists n, notes.
  destruct (note_read_back "secret" "GADMIN" Toy.trades "T1" "GB" "call me" Toy.iv 7 100 ∅ notes n "gs") as (_ & vs & H1 & H2);
    [exact E| |discriminate|reflexivity| |].
  - intros m (k & Hk & _)%notesOf_elem. cbn in Hk. rewrite lookup_empty in Hk. discriminate Hk.
  - exists {| buyerAddress := "GB"; sellerAddress := "GS" |}. split; [reflexivity|]. left. reflexivity.
  - exists vs. split; [reflexivity|]. split; [exact H1|exact H2].
Defined.

Lemma rotation_keeps_texts_witness : ∃ notes' manifests',
  rotateKey "secret" "" Toy.trades (Some " GS "%string) "T1" None (λ _, Toy.iv) (λ _, Toy.iv) Toy.added.2 Toy.manifests = (Rotated "v2", (notes', manifests')) ∧
  ∃ c, findUnique 7 notes' = Some (withContent c {| n_id := 7; n_tradeId := "T1"; authorAddress := "gb";
      content := encrypt "secret" "call me" "T1" "v1" Toy.iv; createdAt := 100 |}) ∧ heldUnder "secret" "T1" "v2" Toy.iv c "call me".
Proof.
  assert (∀ p, p ≠ ""%string → holds "secret" "T1" (encrypt "secret" p "T1" "v1" Toy.iv) p) as Hh.
  { intros p Hp. split_and!; [by apply encrypted_recognised|by apply decrypt_encrypt|done]. }
  assert (∀ k n, findUnique k Toy.added.2 = Some n → k = 7 ∧ n = {| n_id := 7; n_tradeId := "T1"; authorAddress := "gb";
      content := encrypt "secret" "call me" "T1" "v1" Toy.iv; createdAt := 100 |}) as Hn.
  { intros k n Hk. change Toy.added.2 with ({[ 7 := {| n_id := 7; n_tradeId := "T1"; authorAddress := "gb";
      content := encrypt "secret" "call me" "T1" "v1" Toy.iv; createdAt := 100 |} ]} : gmap Z Note) in Hk.
    cbn [findUnique gmapTable] in Hk. apply lookup_singleton_Some in Hk as [<- <-]. done. }
  destruct (rotation_keeps_texts "secret" "" Toy.trades " GS " "T1" None (λ _, Toy.iv) (λ _, Toy.iv) Toy.added.2 Toy.manifests
    {| buyerAddress := "GB"; sellerAddress := "GS" |}) as (notes' & manifests' & H1 & H2 & _).
  - reflexivity.
  - discriminate.
  - left. reflexivity.
  - reflexivity.
  - intros k. reflexivity.
  - intros k. reflexivity.
  - intros k n Hk. destruct (Hn k n Hk) as [-> ->]. reflexivity.
  - intros n (k & Hk & _)%notesOf_elem. destruct (Hn k n Hk) as [_ ->]. exists "call me"%string. apply Hh. discriminate.
  - intros m Hm. unfold Toy.manifests in Hm; cbn [findUnique gmapTable] in Hm. apply lookup_singleton_Some in Hm as [_ <-].
    exists {| driverName := "Ada"; driverIdNumber := "42"; vehicleRegistration := "KJA-1"; routeDescription := "north" |}.
    split_and!; apply Hh; discriminate.
  - exists notes', manifests'. split; [exact H1|]. destruct (H2 7 _ eq_refl eq_refl) as (c & Hc & Hp). exists c. split; [exact Hc|].
    apply Hp, Hh. discriminate.
Defined.
