(* ===== verification/Manifest.v ===== *)
(** * Delivery manifests

    [services/manifest.service.ts], [routes/manifest.routes.ts] and
    [routes/trade.manifest.routes.ts]: the seller files who drives the goods, encrypted,
    and the parties and mediators read it back, each in a view of its own. The columns
    are encrypted by [Encryption]; IPFS and the transaction builder of
    [services/contract.service.ts] are arguments, and so is zod's [datetime()] with the
    instant [new Date] reads from an accepted text. *)

From S2P Require Import Prelude JsString JsValue JsonText Dates Prisma Encryption.
From S2P Require AdminGate EventHandlers.
Import EventHandlers (TradeStatus, TradeStatus_eq_dec, FUNDED).

Record Trade : Type := { buyer : string; seller : string; status : TradeStatus }.

Record SubmitManifestInput : Type := {
  i_tradeId : string; i_callerAddress : string; i_driverName : string; i_driverIdNumber : string;
  i_vehicleRegistration : string; i_routeDescription : string; i_expectedDeliveryAt : Z }.

Record DeliveryManifest : Type := {
  d_id : Z; d_tradeId : string; d_driverName : string; d_driverIdNumber : string; d_vehicleRegistration : string;
  d_routeDescription : string; d_expectedDeliveryAt : Z; d_driverNameHash : string; d_driverIdHash : string; d_createdAt : Z }.

Inductive manifest_error : Type :=
| ManifestForbiddenError | ManifestAccessDeniedError | ManifestConflictError | ManifestTradeStatusError (current : TradeStatus)
| ManifestTradeNotFoundError | ManifestNotFoundError | Undecryptable (e : crypto_error).

(** The [status] member of the error classes; other errors go to the error middleware. *)
Definition errorStatus (e : manifest_error) : option Z :=
  match e with
  | ManifestForbiddenError | ManifestAccessDeniedError => Some 403
  | ManifestConflictError => Some 409
  | ManifestTradeStatusError _ => Some 400
  | ManifestTradeNotFoundError | ManifestNotFoundError => Some 404
  | Undecryptable _ => None
  end.

(** [toUpperCase()] of a Latin-1 character; the capitals of the micro sign and of y with
    diaeresis are not Latin-1 and are left out. *)
Definition upperText (c : ascii) : string :=
  let n := N_of_ascii c in
  if (n =? 223)%N then "SS"
  else if (((97 <=? n) && (n <=? 122)) || ((224 <=? n) && (n <=? 246)) || ((248 <=? n) && (n <=? 254)))%N
  then String (ascii_of_N (n - 32)) "" else String c "".

Definition maskDriverName (driverName : string) : string :=
  (upperText (match trim driverName with String c _ => c | EmptyString => "D"%char end) +:+ "****")%string.
Definition maskDriverIdNumber : string := "ID-****".

(** [process.env.MANIFEST_PII_RETENTION_DAYS], or the validated setting. *)
Definition getManifestRetentionDays (raw : option string) (configured : Z) : Z :=
  match raw with
  | Some s => match parseInt s with
              | JInt n => if 0 <? n then n else configured
              | _ => configured
              end
  | None => configured
  end.

Definition isOutsideRetentionWindow (retentionDays now createdAt : Z) : bool :=
  retentionDays * 24 * 60 * 60 * 1000 <? now - createdAt.

(** ** [ManifestService] *)

(** The three shapes of an answer; all of them carry the dates and [retentionExpired]. *)
Inductive RoleView : Type :=
| BuyerView (driverName driverIdNumber vehicleRegistration routeDescription : string)
| MediatorView (driverNameHash driverIdHash vehicleRegistration routeDescription : string)
| SellerView (driverName driverIdNumber driverNameHash driverIdHash vehicleRegistration routeDescription : string).
Record View : Type := { roleView : RoleView; v_expectedDeliveryAt : Z; v_createdAt : Z; retentionExpired : bool }.

(** The entries [logPiiAccess] writes: the trade and the reader. *)
Notation PiiLog := (list (string * string)).

Section Service.
Context `{!Crypto} (masterSecret : string) {TT TM : Type} `{!Table string Trade TT, !Table string DeliveryManifest TM}.
Context (adminPubkeysRaw : string) (retentionDays : Z).

Definition hashText (value : string) : string := toHex (sha256 (utf8 value)).

Definition manifestRow (input : SubmitManifestInput) (iv : Z → string) (newId now : Z) : DeliveryManifest :=
  let enc text n := encrypt masterSecret text (i_tradeId input) DEFAULT_KEY_VERSION (iv n) in
  {| d_id := newId; d_tradeId := i_tradeId input; d_driverName := enc (i_driverName input) 1; d_driverIdNumber := enc (i_driverIdNumber input) 2;
     d_vehicleRegistration := enc (i_vehicleRegistration input) 3; d_routeDescription := enc (i_routeDescription input) 4;
     d_expectedDeliveryAt := i_expectedDeliveryAt input; d_driverNameHash := hashText (i_driverName input);
     d_driverIdHash := hashText (i_driverIdNumber input); d_createdAt := now |}.

(** [between] is what others commit between the check and the insertion. *)
Definition submitManifest (input : SubmitManifestInput) (iv : Z → string) (newId now : Z) (between : TM → TM)
    (trades : TT) (manifests : TM) : result manifest_error DeliveryManifest * TM :=
  match findUnique (i_tradeId input) trades with
  | None => (Err ManifestTradeNotFoundError, manifests)
  | Some trade =>
      if negb (bool_decide (toLowerCase (seller trade) = toLowerCase (i_callerAddress input))) then (Err ManifestForbiddenError, manifests)
      else if negb (bool_decide (status trade = FUNDED)) then (Err (ManifestTradeStatusError (status trade)), manifests)
      else match findUnique (i_tradeId input) manifests with
           | Some _ => (Err ManifestConflictError, manifests)
           | None =>
               let row := manifestRow input iv newId now in
               match create (i_tradeId input) row (between manifests) with
               | Some manifests' => (Ok row, manifests')
               | None => (Err ManifestConflictError, between manifests)
               end
           end
  end.

Definition parseMediatorAllowlist : list string := AdminGate.getMediatorAllowlist adminPubkeysRaw.

Definition readColumn (tradeId c : string) : result manifest_error string :=
  match decrypt masterSecret c tradeId with Ok p => Ok p | Err e => Err (Undecryptable e) end.

Definition viewOf (isBuyer isMediator expired : bool) (m : DeliveryManifest) (name idNumber registration route : string) : RoleView :=
  if isBuyer then BuyerView (maskDriverName name) maskDriverIdNumber registration route
  else if isMediator then MediatorView (d_driverNameHash m) (d_driverIdHash m) (d_vehicleRegistration m) (d_routeDescription m)
  else if expired then SellerView "REDACTED" "REDACTED" (d_driverNameHash m) (d_driverIdHash m) registration route
  else SellerView name idNumber (d_driverNameHash m) (d_driverIdHash m) registration route.

(** The view, and the accesses logged. *)
Definition getManifestByTradeId (tradeId callerAddress : string) (now : Z) (trades : TT) (manifests : TM) : result manifest_error View * PiiLog :=
  match findUnique tradeId trades with
  | None => (Err ManifestTradeNotFoundError, [])
  | Some trade =>
      let caller := toLowerCase callerAddress in
      let isBuyer := bool_decide (toLowerCase (buyer trade) = caller) in
      let isSeller := bool_decide (toLowerCase (seller trade) = caller) in
      let isMediator := existsb (λ address, bool_decide (toLowerCase address = caller)) parseMediatorAllowlist in
      if negb isBuyer && negb isSeller && negb isMediator then (Err ManifestAccessDeniedError, [])
      else match findUnique tradeId manifests with
           | None => (Err ManifestNotFoundError, [])
           | Some m =>
               let expired := isOutsideRetentionWindow retentionDays now (d_createdAt m) in
               match (readColumn tradeId (d_driverName m) ≫= λ name, readColumn tradeId (d_driverIdNumber m) ≫= λ idNumber,
                      readColumn tradeId (d_vehicleRegistration m) ≫= λ registration, readColumn tradeId (d_routeDescription m) ≫= λ route,
                      Ok {| roleView := viewOf isBuyer isMediator expired m name idNumber registration route;
                            v_expectedDeliveryAt := d_expectedDeliveryAt m; v_createdAt := d_createdAt m; retentionExpired := expired |}) with
               | Ok v => (Ok v, [(tradeId, callerAddress)])
               | Err e => (Err e, [])
               end
           end
  end.
End Service.

(** ** The routes *)

Inductive Answer : Type := Status (code : Z) | Sent (v : View) | Created (manifestId : Z) (ipfsHash : option string) (unsignedXdr : string) | NextError.

Definition answerError (e : manifest_error) : Answer := match errorStatus e with Some s => Status s | None => NextError end.

(** [z.string().min(n)], with [trim()] before it where the schema trims. *)
Definition text (trimmed : bool) (n : nat) (v : jsval) (k : string) : option string :=
  match getProp v k with
  | VStr s => let s := if trimmed then trim s else s in if (n <=? strlen s)%nat then Some s else None
  | _ => None
  end.

Section Routes.
Context (datetime : string → option Z).

Record ManifestBody : Type := { b_driverName : string; b_driverIdNumber : string; b_vehicleRegistration : string; b_routeDescription : string; b_expectedDeliveryAt : Z }.

Definition manifestBodySchema (v : jsval) : option ManifestBody :=
  name ← text false 1 v "driverName"; idNumber ← text false 1 v "driverIdNumber"; registration ← text false 1 v "vehicleRegistration";
  route ← text false 1 v "routeDescription"; due ← text false 0 v "expectedDeliveryAt"; at_ ← datetime due;
  Some {| b_driverName := name; b_driverIdNumber := idNumber; b_vehicleRegistration := registration; b_routeDescription := route; b_expectedDeliveryAt := at_ |}.

Record TradeManifestBody : Type := { b_name : string; b_phone : string; b_licensePlate : string; b_vehicleType : string; b_from : string; b_to : string; b_toAt : Z }.

Definition deliveryWindowSchema (v : jsval) : option (string * string * Z) :=
  from ← text false 0 v "from"; until ← text false 0 v "to"; fromAt ← datetime from; toAt ← datetime until;
  if fromAt <? toAt then Some (from, until, toAt) else None.

Definition tradeManifestBodySchema (v : jsval) : option TradeManifestBody :=
  name ← text true 1 v "driverName"; phone ← text true 5 v "phone"; plate ← text true 1 v "licensePlate"; vehicle ← text true 1 v "vehicleType";
  window ← deliveryWindowSchema (getProp v "estimatedDeliveryWindow");
  Some {| b_name := name; b_phone := phone; b_licensePlate := plate; b_vehicleType := vehicle; b_from := window.1.1; b_to := window.1.2; b_toAt := window.2 |}.

Context `{!Crypto} (masterSecret : string) {TT TM : Type} `{!Table string Trade TT, !Table string DeliveryManifest TM}.
Context (adminPubkeysRaw : string) (retentionDays : Z).
Notation submit := (submitManifest masterSecret).
Notation getView := (getManifestByTradeId masterSecret adminPubkeysRaw retentionDays).

(** [GET /trades/:id/manifest], the same in both routers but for the trimmed caller. *)
Definition getManifest (callerAddress : option string) (tradeId : string) (now : Z) (trades : TT) (manifests : TM) : Answer * PiiLog :=
  match callerAddress with
  | None => (Status 401, [])
  | Some caller =>
      if bool_decide (caller = ""%string) then (Status 401, [])
      else match getView tradeId caller now trades manifests with
           | (Ok v, log) => (Sent v, log)
           | (Err e, log) => (match e with
                              | ManifestTradeNotFoundError | ManifestNotFoundError => Status 404
                              | ManifestAccessDeniedError => Status 403
                              | _ => NextError
                              end, log)
           end
  end.

(** [POST] of [routes/manifest.routes.ts]. The builder answers [None] when it throws. *)
Definition postManifest (callerAddress : option string) (tradeId : string) (body : jsval) (buildTx : string → string → option string)
    (iv : Z → string) (newId now : Z) (between : TM → TM) (trades : TT) (manifests : TM) : Answer * TM :=
  match callerAddress with
  | None => (Status 401, manifests)
  | Some caller =>
      if bool_decide (caller = ""%string) then (Status 401, manifests)
      else match manifestBodySchema body with
           | None => (Status 400, manifests)
           | Some b =>
               let input := {| i_tradeId := tradeId; i_callerAddress := caller; i_driverName := b_driverName b; i_driverIdNumber := b_driverIdNumber b;
                 i_vehicleRegistration := b_vehicleRegistration b; i_routeDescription := b_routeDescription b; i_expectedDeliveryAt := b_expectedDeliveryAt b |} in
               match submit input iv newId now between trades manifests with
               | (Err e, manifests') => (answerError e, manifests')
               | (Ok row, manifests') =>
                   (match buildTx (d_driverNameHash row) (d_driverIdHash row) with Some xdr => Created (d_id row) None xdr | None => NextError end, manifests')
               end
           end
  end.

(** The document [routes/trade.manifest.routes.ts] pins to IPFS. *)
Definition manifestJson (tradeId caller : string) (b : TradeManifestBody) (now : Z) : Doc :=
  DObj [("tradeId", DStr tradeId); ("sellerAddress", DStr caller); ("driverName", DStr (b_name b)); ("phone", DStr (b_phone b));
        ("licensePlate", DStr (b_licensePlate b)); ("vehicleType", DStr (b_vehicleType b));
        ("estimatedDeliveryWindow", DObj [("from", DStr (b_from b)); ("to", DStr (b_to b))]); ("submittedAt", DStr (toISOString now))]%string.

Definition routeText (b : TradeManifestBody) (ipfsHash : string) : string :=
  "phone=" +:+ b_phone b +:+ "; vehicleType=" +:+ b_vehicleType b +:+ "; deliveryWindow=" +:+ b_from b +:+ "/" +:+ b_to b +:+ "; ipfsHash=" +:+ ipfsHash.

(** [POST] of [routes/trade.manifest.routes.ts], with what was uploaded. [uploadFile]
    answers [None] when the service is unavailable. *)
Definition postTradeManifest (callerAddress : option string) (tradeId : string) (body : jsval) (uploadFile : string → string → option string)
    (buildTx : string → option string) (iv : Z → string) (newId now : Z) (between : TM → TM) (trades : TT) (manifests : TM)
    : Answer * TM * list string :=
  match callerAddress with
  | None => (Status 401, manifests, [])
  | Some address =>
      let caller := trim address in
      if bool_decide (caller = ""%string) then (Status 401, manifests, [])
      else match tradeManifestBodySchema body with
           | None => (Status 400, manifests, [])
           | Some b =>
               let document := JSON_stringify (manifestJson tradeId caller b now) in
               match uploadFile document ("trade-" +:+ tradeId +:+ "-manifest.json") with
               | None => (Status 503, manifests, [document])
               | Some ipfsHash =>
                   let input := {| i_tradeId := tradeId; i_callerAddress := caller; i_driverName := b_name b; i_driverIdNumber := b_phone b;
                     i_vehicleRegistration := b_licensePlate b; i_routeDescription := routeText b ipfsHash; i_expectedDeliveryAt := b_toAt b |} in
                   match submit input iv newId now between trades manifests with
                   | (Err e, manifests') => (answerError e, manifests', [document])
                   | (Ok row, manifests') =>
                       (match buildTx ipfsHash with Some xdr => Created (d_id row) (Some ipfsHash) xdr | None => NextError end, manifests', [document])
                   end
               end
           end
  end.
End Routes.

(** ** What is filed is read back, by each in his own view *)

Section Facts.
Context `{!Crypto, !CryptoLaws} (masterSecret : string).
Context {TT TM : Type} `{!Table string Trade TT, !Table string DeliveryManifest TM, !TableLaws string DeliveryManifest TM}.
Context (adminPubkeysRaw : string) (retentionDays : Z).
Notation submit := (submitManifest masterSecret).
Notation getView := (getManifestByTradeId masterSecret adminPubkeysRaw retentionDays).

Definition isMediator (caller : string) : bool := existsb (λ address, bool_decide (toLowerCase address = toLowerCase caller)) (parseMediatorAllowlist adminPubkeysRaw).
Definition same (a b : string) : bool := bool_decide (toLowerCase a = toLowerCase b).

(** A manifest is filed exactly by the seller of a funded trade that has none, also
    when others file at the same moment; it is then the one row added, and a refused
    request leaves no trace. *)
Theorem submit_spec input iv newId now between (trades : TT) (manifests : TM) :
  let tid := i_tradeId input in
  let '(a, manifests') := submit input iv newId now between trades manifests in
  (isOk a = true ↔ ∃ t, findUnique tid trades = Some t ∧ same (seller t) (i_callerAddress input) = true ∧ status t = FUNDED ∧
     findUnique tid manifests = None ∧ findUnique tid (between manifests) = None) ∧
  match a with
  | Ok row => row = manifestRow masterSecret input iv newId now ∧ findUnique tid manifests' = Some row ∧
      ∀ k, k ≠ tid → findUnique k manifests' = findUnique k (between manifests)
  | Err e => (manifests' = manifests ∨ manifests' = between manifests) ∧
      (e = ManifestConflictError ↔ ∃ t, findUnique tid trades = Some t ∧ same (seller t) (i_callerAddress input) = true ∧ status t = FUNDED ∧
         (is_Some (findUnique tid manifests) ∨ is_Some (findUnique tid (between manifests))))
  end.
Proof.
  intros tid. unfold submitManifest, same. fold tid. destruct (findUnique tid trades) as [t|] eqn:Ht.
  2: { cbn. split; [split; [done|by intros (? & ? & _)]|]. split; [auto|]. split; [done|by intros (? & ? & _)]. }
  destruct (bool_decide (toLowerCase (seller t) = _)) eqn:Hs; cbn [negb].
  2: { cbn. split; [split; [done|intros (? & [= <-] & ? & _); congruence]|]. split; [auto|]. split; [done|intros (? & [= <-] & ? & _); congruence]. }
  destruct (bool_decide (status t = FUNDED)) eqn:Hf; cbn [negb].
  2: { apply bool_decide_eq_false in Hf. cbn. split; [split; [done|intros (? & [= <-] & _ & ? & _); congruence]|].
       split; [auto|]. split; [done|intros (? & [= <-] & _ & ? & _); congruence]. }
  apply bool_decide_eq_true in Hf. destruct (findUnique tid manifests) as [m|] eqn:Hm.
  { cbn. split; [split; [done|by intros (? & _ & _ & _ & ? & _)]|]. split; [auto|]. split; [eauto 10|done]. }
  set (row := manifestRow _ _ _ _ _). destruct (create tid row (between manifests)) as [ms|] eqn:Hc.
  - apply create_inv in Hc as (H1 & H2 & H3). cbn. split; [split; [eauto 10|done]|]. done.
  - apply create_None in Hc as [m Hc]. cbn. split; [|split; [auto|split; [intros _; exists t; rewrite Hc; eauto 10|done]]].
    split; [done|]. intros (t' & _ & _ & _ & _ & Hn). congruence.
Qed.

Lemma getView_at tid caller now (trades : TT) (manifests : TM) t m : findUnique tid trades = Some t → findUnique tid manifests = Some m →
  same (buyer t) caller || same (seller t) caller || isMediator caller = true →
  ∀ name idNumber registration route, decrypt masterSecret (d_driverName m) tid = Ok name → decrypt masterSecret (d_driverIdNumber m) tid = Ok idNumber →
  decrypt masterSecret (d_vehicleRegistration m) tid = Ok registration → decrypt masterSecret (d_routeDescription m) tid = Ok route →
  getView tid caller now trades manifests =
    (Ok {| roleView := viewOf (same (buyer t) caller) (isMediator caller) (isOutsideRetentionWindow retentionDays now (d_createdAt m)) m name idNumber registration route;
           v_expectedDeliveryAt := d_expectedDeliveryAt m; v_createdAt := d_createdAt m;
           retentionExpired := isOutsideRetentionWindow retentionDays now (d_createdAt m) |}, [(tid, caller)]).
Proof.
  intros Ht Hm Ha name idn reg route H1 H2 H3 H4. unfold getManifestByTradeId. rewrite Ht. fold (same (buyer t) caller) (same (seller t) caller) (isMediator caller).
  destruct (negb _ && negb _ && negb _) eqn:Hn.
  { rewrite !andb_true_iff, !negb_true_iff in Hn. destruct Hn as [[E1 E2] E3]. rewrite E1, E2, E3 in Ha. discriminate. }
  rewrite Hm. unfold readColumn. by rewrite H1, H2, H3, H4.
Qed.

(** What the seller files is read back: the seller gets the driver's identity within
    the retention window and a redaction after it, the buyer the initial of the name,
    mediators the digests, everybody else nothing; and every reading is logged. *)
Theorem manifest_read_back input iv newId now between (trades : TT) (manifests manifests' : TM) row caller later t :
  submit input iv newId now between trades manifests = (Ok row, manifests') →
  i_driverName input ≠ ""%string → i_driverIdNumber input ≠ ""%string → i_vehicleRegistration input ≠ ""%string → i_routeDescription input ≠ ""%string →
  (∀ n, strlen (iv n) = IV_LENGTH) → findUnique (i_tradeId input) trades = Some t →
  let expired := isOutsideRetentionWindow retentionDays later now in
  let nameHash := hashText (i_driverName input) in
  let idHash := hashText (i_driverIdNumber input) in
  match getView (i_tradeId input) caller later trades manifests' with
  | (Ok v, log) => log = [(i_tradeId input, caller)] ∧ v_expectedDeliveryAt v = i_expectedDeliveryAt input ∧ v_createdAt v = now ∧ retentionExpired v = expired ∧
      roleView v = (if same (buyer t) caller
                    then BuyerView (maskDriverName (i_driverName input)) "ID-****" (i_vehicleRegistration input) (i_routeDescription input)
                    else if isMediator caller then MediatorView nameHash idHash (d_vehicleRegistration row) (d_routeDescription row)
                    else if expired then SellerView "REDACTED" "REDACTED" nameHash idHash (i_vehicleRegistration input) (i_routeDescription input)
                    else SellerView (i_driverName input) (i_driverIdNumber input) nameHash idHash (i_vehicleRegistration input) (i_routeDescription input)) ∧
      (same (buyer t) caller || same (seller t) caller || isMediator caller = true)
  | (Err e, log) => e = ManifestAccessDeniedError ∧ log = [] ∧ same (buyer t) caller || same (seller t) caller || isMediator caller = false
  end.
Proof.
  intros Hsub Hn Hi Hv Hr Hiv Ht expired nameHash idHash.
  pose proof (submit_spec input iv newId now between trades manifests) as Hspec. cbv zeta in Hspec. rewrite Hsub in Hspec.
  destruct Hspec as (_ & -> & Hrow & _).
  destruct (same (buyer t) caller || same (seller t) caller || isMediator caller) eqn:Ha.
  - rewrite (getView_at _ caller later trades manifests' t _ Ht Hrow Ha (i_driverName input) (i_driverIdNumber input) (i_vehicleRegistration input) (i_routeDescription input))
      by (apply decrypt_encrypt; done || apply Hiv). cbn. done.
  - unfold getManifestByTradeId. rewrite Ht. fold (same (buyer t) caller) (same (seller t) caller) (isMediator caller).
    rewrite !orb_false_iff in Ha. destruct Ha as [[-> ->] ->]. cbn. done.
Qed.

(** The view of a mediator carries the vehicle and the route as they are stored: in
    cipher, which nobody but the server reads. *)
Theorem mediator_reads_cipher tid caller now (trades : TT) (manifests : TM) t m v log : findUnique tid trades = Some t → findUnique tid manifests = Some m →
  same (buyer t) caller = false → isMediator caller = true → getView tid caller now trades manifests = (Ok v, log) →
  roleView v = MediatorView (d_driverNameHash m) (d_driverIdHash m) (d_vehicleRegistration m) (d_routeDescription m).
Proof.
  intros Ht Hm Hb Hmed. unfold getManifestByTradeId. rewrite Ht, Hm. fold (same (buyer t) caller) (same (seller t) caller) (isMediator caller).
  rewrite Hb, Hmed, andb_false_r. unfold readColumn. do 4 destruct (decrypt _ _ _); cbn; try done; by intros [= <- _].
Qed.

(** The columns declared for the vehicle and the name hold 100 and 255 characters: no
    registration fits in cipher, and no name of more than 65 bytes. *)
Theorem registration_exceeds_column input iv newId now : (∀ n, strlen (iv n) = IV_LENGTH) →
  let row := manifestRow masterSecret input iv newId now in
  (100 < strlen (d_vehicleRegistration row))%nat ∧
  ((strlen (d_driverName row) ≤ 255)%nat ↔ (strlen (utf8 (i_driverName input)) ≤ 64)%nat).
Proof. intros Hi. cbn. rewrite !encrypt_length by done. cbn [strlen DEFAULT_KEY_VERSION]. unfold DEFAULT_KEY_VERSION. cbn [strlen]. lia. Qed.
End Facts.

(** ** The routes *)

Section RouteFacts.
Context (datetime : string → option Z) `{!Crypto} (masterSecret : string).
Context {TT TM : Type} `{!Table string Trade TT, !Table string DeliveryManifest TM, !TableLaws string DeliveryManifest TM}.
Notation post := (postTradeManifest datetime masterSecret).

(** The driver's name, telephone and number plate are pinned to IPFS in clear before
    anybody asks whose trade it is: whatever the tables hold, also for a trade of others
    or none. *)
Theorem uploaded_before_checked address tid body upload buildTx iv newId now between (trades : TT) (manifests : TM) b :
  trim address ≠ ""%string → tradeManifestBodySchema datetime body = Some b →
  (post (Some address) tid body upload buildTx iv newId now between trades manifests).2 = [JSON_stringify (manifestJson tid (trim address) b now)].
Proof.
  intros Ha Hb. unfold postTradeManifest. rewrite bool_decide_false, Hb by done. destruct (upload _ _); [|done].
  by destruct (submitManifest _ _ _ _ _ _ _ _) as [[] ?].
Qed.

(** When the transaction cannot be built, the manifest stays: the seller gets no
    transaction to sign, then or at any later attempt. *)
Theorem unbuilt_manifest_stays address tid body upload buildTx iv newId now between (trades : TT) (manifests manifests' : TM) log :
  post (Some address) tid body upload buildTx iv newId now between trades manifests = (NextError, manifests', log) →
  ∀ address' body' upload' buildTx' iv' newId' now' between',
    let '(a, _, _) := post (Some address') tid body' upload' buildTx' iv' newId' now' between' trades manifests' in
    ∀ id cid xdr, a ≠ Created id cid xdr.
Proof.
  intros Hp address' body' upload' buildTx' iv' newId' now' between'.
  assert (is_Some (findUnique tid manifests')) as [m Hm].
  { revert Hp. unfold postTradeManifest. case_bool_decide; [done|]. destruct (tradeManifestBodySchema _ _); [|done]. destruct (upload _ _); [|done].
    unfold submitManifest. cbn [i_tradeId]. destruct (findUnique tid trades); [|done]. case_ifs; try done.
    destruct (findUnique tid manifests); [done|]. destruct (create _ _ _) as [ms|] eqn:Hcr; [|done]. apply create_inv in Hcr as (_ & Hcr & _).
    destruct (buildTx _); [done|]. intros [= <- _]. eauto. }
  unfold postTradeManifest. case_bool_decide; [done|]. destruct (tradeManifestBodySchema _ _); [|done]. destruct (upload' _ _); [|done].
  unfold submitManifest. cbn [i_tradeId]. destruct (findUnique tid trades); [|done]. rewrite Hm. case_ifs; done.
Qed.

(** The body the web client sends ([frontend/src/app/vault/page.tsx]) is refused by the
    router that is mounted first, whatever it says. *)
Theorem client_body_refused address tid name phone plate due upload buildTx iv newId now between (trades : TT) (manifests : TM) :
  trim address ≠ ""%string →
  post (Some address) tid (VObj None [("driverName", VStr name); ("driverIdNumber", VStr phone); ("vehicleRegistration", VStr plate);
      ("routeDescription", VStr "Driver manifest submitted from vault."); ("expectedDeliveryAt", VStr due)]%string)
    upload buildTx iv newId now between trades manifests = (Status 400, manifests, []).
Proof.
  intros Ha. unfold postTradeManifest. rewrite bool_decide_false by done. set (body := VObj None _).
  assert (text true 5 body "phone" = None) as Hp by reflexivity. unfold tradeManifestBodySchema. rewrite Hp.
  by destruct (text true 1 body "driverName").
Qed.
End RouteFacts.

(** ** Concrete runs *)

Definition toyTrades : gmap string Trade := {[ "T1"%string := {| buyer := "GB"; seller := "GS"; status := FUNDED |} ]}.
Definition toyInput : SubmitManifestInput := {| i_tradeId := "T1"; i_callerAddress := "gs"; i_driverName := "ada"; i_driverIdNumber := "42";
  i_vehicleRegistration := "KJA-1"; i_routeDescription := "north"; i_expectedDeliveryAt := 5000 |}.
Definition filed := submitManifest "secret" toyInput (λ _, Toy.iv) 7 1000 id toyTrades (∅ : gmap string DeliveryManifest).
Definition read (caller : string) (now : Z) := getManifestByTradeId "secret" "GMED" 30 "T1" caller now toyTrades filed.2.

Example views_differ :
  (let v c now := match read c now with (Ok v, _) => Some (roleView v) | _ => None end in
   v "GB" 2000 = Some (BuyerView "A****" "ID-****" "KJA-1" "north") ∧
   v "GS" 2000 = Some (SellerView "ada" "42" (hashText "ada") (hashText "42") "KJA-1" "north") ∧
   v "GS" (1001 + 30 * 86400000) = Some (SellerView "REDACTED" "REDACTED" (hashText "ada") (hashText "42") "KJA-1" "north"))%string ∧
  (read "GX" 2000).1 = Err ManifestAccessDeniedError.
Proof. vm_compute. done. Qed.

Lemma manifest_read_back_witness : ∃ v log, read "GS" 2000 = (Ok v, log) ∧
  roleView v = SellerView "ada" "42" (hashText "ada") (hashText "42") "KJA-1" "north" ∧ log = [("T1", "GS")]%string.
Proof.
  destruct filed as [[row|e] db] eqn:E; [|vm_compute in E; discriminate E].
  pose proof (manifest_read_back "secret" "GMED" 30 toyInput (λ _, Toy.iv) 7 1000 id toyTrades ∅ db row "GS" 2000
    {| buyer := "GB"; seller := "GS"; status := FUNDED |} E ltac:(discriminate) ltac:(discriminate) ltac:(discriminate) ltac:(discriminate)
    (λ _, eq_refl) eq_refl) as H. cbv zeta in H.
  unfold read. rewrite E. cbn [snd]. change (i_tradeId toyInput) with "T1"%string in H.
  destruct (getManifestByTradeId _ _ _ _ _ _ _ _) as [[v|e] log].
  - exists v, log. destruct H as (-> & _ & _ & _ & -> & _). split; [reflexivity|]. split; [vm_compute; reflexivity|reflexivity].
  - destruct H as (_ & _ & H). vm_compute in H. discriminate H.
Defined.

Example first_submission_wins :
  (submitManifest "secret" toyInput (λ _, Toy.iv) 8 1001 id toyTrades filed.2).1 = Err ManifestConflictError.
Proof. vm_compute. done. Qed.

Lemma submit_spec_witness : isOk filed.1 = true ∧ findUnique "T1"%string filed.2 = Some (manifestRow "secret" toyInput (λ _, Toy.iv) 7 1000).
Proof.
  pose proof (submit_spec "secret" toyInput (λ _, Toy.iv) 7 1000 id toyTrades ∅) as H. cbv zeta in H. unfold filed.
  destruct (submitManifest _ _ _ _ _ _ _ _) as [[row|e] db] eqn:E; [|vm_compute in E; discriminate E].
  destruct H as (_ & -> & H & _). split; [reflexivity|exact H].
Defined.
