(* ===== verification/Evidence.v ===== *)
(** * Evidence

    [services/evidence.service.ts] with its routes, the gateway and signed URLs of
    [services/ipfs.service.ts], and the dispute listing of
    [services/trade.evidence.service.ts]. The upload to Pinata, the malware scanner, the
    answers of the gateways, HMAC, [localeCompare] and the host of a URL (the WHATWG
    parser) are arguments. A buffer is a byte string. *)

From S2P Require Import Prelude JsString Prisma.
From S2P Require AdminGate EventHandlers AuditTrail.
Import EventHandlers (TradeStatus, TradeStatus_eq_dec, DISPUTED).

Record Trade : Type := { tradeId : string; buyerAddress : string; sellerAddress : string; status : TradeStatus }.
Record Evidence : Type := {
  e_id : Z; e_tradeId : string; cid : string; filename : string; mimeType : string; uploadedBy : string; createdAt : Z }.

Inductive evidence_error : Type :=
| EvidenceAccessDeniedError | EvidenceTradeNotFoundError | EvidenceValidationError (message : string) | EvidenceScanError (message : string)
| ServiceUnavailableError (message : string) | IdTaken.

(** The [status] member of the classes; the database error has none. *)
Definition errorStatus (e : evidence_error) : Z :=
  match e with
  | EvidenceAccessDeniedError => 403 | EvidenceTradeNotFoundError => 404 | EvidenceValidationError _ => 400
  | EvidenceScanError _ | ServiceUnavailableError _ => 503 | IdTaken => 500
  end.

Definition UNAVAILABLE : evidence_error := ServiceUnavailableError "IPFS service unavailable. Please retry shortly.".

(** ** URLs *)

(** [gateway.replace(/\/$/, '')] *)
Fixpoint dropSlash (s : string) : string :=
  match s with
  | String "/"%char EmptyString => EmptyString
  | String c r => String c (dropSlash r)
  | EmptyString => EmptyString
  end.

Definition getFileUrl (gateway cid : string) : string := dropSlash gateway +:+ "/" +:+ cid.

(** A signed URL by its parts; [url.searchParams.set] appends the two parameters. *)
Record SignedUrl : Type := { s_base : string; s_expires : Z; s_signature : string; s_expiresAt : Z }.

Definition getSignedFileUrl (hmac : string → string → string) (gateway secret : string) (ttlSeconds now : Z) (cid : string) : SignedUrl :=
  let safeTtl := Z.min 3600 (Z.max 1 ttlSeconds) in
  let expiresAt := now + safeTtl * 1000 in
  let expires := expiresAt / 1000 in
  {| s_base := getFileUrl gateway cid; s_expires := expires; s_signature := hmac secret (cid +:+ ":" +:+ toString expires); s_expiresAt := expiresAt |}.

(** [url.replace(/\/+[^/]+$/, '')]: the last segment, with the slashes before it. *)
Fixpoint skipSlashes (s : string) : string :=
  match s with String "/"%char r => skipSlashes r | _ => s end.
Definition lastSegment (s : string) : bool :=
  match s with
  | String "/"%char r => let r := skipSlashes r in negb (bool_decide (r = ""%string)) && str_forall (λ c, negb (Ascii.eqb c "/")) r
  | _ => false
  end.
Fixpoint dropLastSegment (s : string) : string :=
  if lastSegment s then EmptyString else match s with String c r => String c (dropLastSegment r) | EmptyString => EmptyString end.

(** ** [EvidenceService] *)

(** The in-process caches: resolved URLs and the circuit of every gateway URL. *)
Record Circuit : Type := { failures : Z; openUntil : Z }.
Notation UrlCache := (gmap string string).
Notation Circuits := (gmap string Circuit).

Record EvidenceView : Type := {
  w_id : Z; w_cid : string; w_filename : string; w_mimeType : string; w_uploadedBy : string; w_url : option string;
  w_createdAt : Z; w_expired : bool }.

Record File : Type := { buffer : string; originalname : string; mimetype : string; size : option Z }.
Record ScanResult : Type := { clean : bool; reason : option string }.
Inductive Scanned : Type := ScanAnswer (r : ScanResult) | ScanThrew (message : option string).

Definition allowed : list string := ["video/mp4"; "video/webm"].

(** [buffer.toString('ascii')] clears the high bit of every byte. *)
Definition asciiChar (c : ascii) : ascii := ascii_of_N (N_of_ascii c mod 128).

Definition sniffMimeType (b : string) : option string :=
  match b with
  | String _ (String _ (String _ (String _ (String f (String t (String y (String p _))))))) =>
      if (12 <=? strlen b)%nat && bool_decide (map asciiChar [f; t; y; p] = ["f"; "t"; "y"; "p"]%char) then Some "video/mp4"
      else match b with
           | String a (String b' (String c (String d _))) =>
               if bool_decide (map N_of_ascii [a; b'; c; d] = [26; 69; 223; 163]%N) then Some "video/webm" else None
           | _ => None
           end
  | String a (String b' (String c (String d _))) =>
      if bool_decide (map N_of_ascii [a; b'; c; d] = [26; 69; 223; 163]%N) then Some "video/webm" else None
  | _ => None
  end%string.

Definition runEvidenceScan (required : bool) (scan : Scanned) : result evidence_error ScanResult :=
  match scan with
  | ScanAnswer r => Ok r
  | ScanThrew m => if required then Err (EvidenceScanError (default "Evidence scan service unavailable"%string m)) else Ok {| clean := true; reason := None |}
  end.

(** [process.env.EVIDENCE_SCAN_REQUIRED], or the validated setting. *)
Definition scanRequired (raw : option string) (configured : bool) : bool :=
  match raw with Some s => bool_decide (toLowerCase s = "true"%string) | None => configured end.

Section Service.
Context {TT TE : Type} `{!Table string Trade TT, !Table Z Evidence TE}.
Context (adminPubkeysRaw gateway : string) (retentionDays EVIDENCE_MAX_BYTES : Z).

Definition isEvidenceMetadataExpired (now createdAt : Z) : bool := retentionDays * 24 * 60 * 60 * 1000 <? now - createdAt.

Definition resolveGatewayUrl (cid : string) (cache : UrlCache) : string * UrlCache :=
  match cache !! cid with
  | Some url => (url, cache)
  | None => let url := getFileUrl gateway cid in (url, <[cid := url]> cache)
  end.

Definition isParty (trade : Trade) (caller : string) : bool :=
  bool_decide (toLowerCase (buyerAddress trade) = caller) || bool_decide (toLowerCase (sellerAddress trade) = caller).
Definition isAdmin (caller : string) : bool := bool_decide (caller ∈ AdminGate.getAdminAllowlistLowercase adminPubkeysRaw).

Definition evidenceView (admin : bool) (now : Z) (r : Evidence) (cache : UrlCache) : EvidenceView * UrlCache :=
  let expired := isEvidenceMetadataExpired now (createdAt r) in
  let '(url, cache) := if expired then (None, cache) else let '(u, c) := resolveGatewayUrl (cid r) cache in (Some u, c) in
  ({| w_id := e_id r; w_cid := if expired then "redacted" else cid r; w_filename := if expired then "redacted" else filename r;
      w_mimeType := mimeType r; w_uploadedBy := if expired && negb admin then "redacted" else uploadedBy r; w_url := url;
      w_createdAt := createdAt r; w_expired := expired |}, cache).

Fixpoint evidenceViews (admin : bool) (now : Z) (l : list Evidence) (cache : UrlCache) : list EvidenceView * UrlCache :=
  match l with
  | [] => ([], cache)
  | r :: l => let '(v, cache) := evidenceView admin now r cache in
              let '(vs, cache) := evidenceViews admin now l cache in (v :: vs, cache)
  end.

Definition oldestFirst (x y : Evidence) : Z := createdAt x - createdAt y.
Definition evidenceOf (tid : string) (evidence : TE) : list Evidence := findMany (K := Z) (λ r, bool_decide (e_tradeId r = tid)) evidence.

Definition getEvidenceByTradeId (tid callerAddress : string) (now : Z) (trades : TT) (evidence : TE) (cache : UrlCache)
    : result evidence_error (list EvidenceView) * UrlCache :=
  match findUnique tid trades with
  | None => (Err EvidenceTradeNotFoundError, cache)
  | Some trade =>
      let caller := toLowerCase callerAddress in
      if negb (isParty trade caller) && negb (isAdmin caller) then (Err EvidenceAccessDeniedError, cache)
      else let '(vs, cache) := evidenceViews (isAdmin caller) now (js_sort oldestFirst (evidenceOf tid evidence)) cache in (Ok vs, cache)
  end.

(** The upload: [uploadFile] is Pinata, [scan] what the scanner does. With it come the
    file sent to IPFS, if any, and the table. *)
Definition uploadVideoEvidence (tid callerAddress : string) (file : File) (required : bool) (scan : Scanned)
    (uploadFile : string → string → result string string) (newId now : Z) (trades : TT) (evidence : TE) (cache : UrlCache)
    : result evidence_error (Z * string * string) * option string * TE * UrlCache :=
  match findUnique tid trades with
  | None => (Err EvidenceTradeNotFoundError, None, evidence, cache)
  | Some trade =>
      let caller := toLowerCase callerAddress in
      if negb (isParty trade caller) then (Err EvidenceAccessDeniedError, None, evidence, cache)
      else if negb (bool_decide (mimetype file ∈ allowed)) then (Err (EvidenceValidationError "Unsupported file type"), None, evidence, cache)
      else if negb (bool_decide (sniffMimeType (buffer file) = Some (mimetype file)))
      then (Err (EvidenceValidationError "File content does not match declared MIME type"), None, evidence, cache)
      else if EVIDENCE_MAX_BYTES <? default (Z.of_nat (strlen (buffer file))) (size file)
      then (Err (EvidenceValidationError "File too large"), None, evidence, cache)
      else match runEvidenceScan required scan with
           | Err e => (Err e, None, evidence, cache)
           | Ok r =>
               if negb (clean r)
               then (Err (EvidenceValidationError (match reason r with Some (String c m) => String c m | _ => "Evidence blocked by malware scanner" end)), None, evidence, cache)
               else match uploadFile (buffer file) (originalname file) with
                    | Err m => (Err (ServiceUnavailableError m), Some (buffer file), evidence, cache)
                    | Ok c =>
                        let row := {| e_id := newId; e_tradeId := tid; cid := c; filename := originalname file; mimeType := mimetype file;
                                      uploadedBy := caller; createdAt := now |} in
                        match create newId row evidence with
                        | None => (Err IdTaken, Some (buffer file), evidence, cache)
                        | Some evidence' => let '(url, cache') := resolveGatewayUrl c cache in
                                            (Ok (newId, c, url), Some (buffer file), evidence', cache')
                        end
                    end
           end
  end.

(** ** Gateways *)

Context (hostname : string → option string).

Definition parseGatewayAllowlist (raw : string) : list string :=
  List.filter (λ s, negb (bool_decide (s = ""%string))) (map (λ v, toLowerCase (trim v)) (split "," raw)).

Definition isGatewayAllowed (gatewayBase : string) (allowlist : list string) : bool :=
  match allowlist with
  | [] => true
  | _ => match hostname gatewayBase with Some host => bool_decide (toLowerCase host ∈ allowlist) | None => false end
  end.

Definition configuredUrls (gatewayUrls : option string) (allowlist : list string) (cid : string) : list string :=
  match gatewayUrls with
  | None => []
  | Some raw => map (λ base, base +:+ "/" +:+ cid)%string
                  (List.filter (λ base, isGatewayAllowed base allowlist)
                     (map dropSlash (List.filter (λ g, negb (bool_decide (g = ""%string))) (map trim (split "," raw)))))
  end.

Definition resolveGatewayUrls (gatewayUrls : option string) (allowlistRaw cid : string) (cache : UrlCache) : result evidence_error (list string) * UrlCache :=
  let allowlist := parseGatewayAllowlist allowlistRaw in
  match configuredUrls gatewayUrls allowlist cid with
  | [] => let '(fallback, cache) := resolveGatewayUrl cid cache in
          if isGatewayAllowed (dropLastSegment fallback) allowlist then (Ok [fallback], cache)
          else (Err (ServiceUnavailableError "No allowed IPFS gateway configured"), cache)
  | urls => (Ok urls, cache)
  end.
End Service.

Section Gateways.
Context (threshold cooldownMs : Z).

Definition isGatewayCircuitOpen (url : string) (now : Z) (circuits : Circuits) : bool :=
  match circuits !! url with Some state => now <? openUntil state | None => false end.
Definition onGatewaySuccess (url : string) (circuits : Circuits) : Circuits := delete url circuits.
Definition onGatewayFailure (url : string) (now : Z) (circuits : Circuits) : Circuits :=
  let current := default {| failures := 0; openUntil := 0 |} (circuits !! url) in
  let failures := failures current + 1 in
  <[url := {| failures := failures; openUntil := if threshold <=? failures then now + cooldownMs else 0 |}]> circuits.

(** [axios.get] of a URL: the status of the answer, or [None] when it throws; an answer
    of 500 and more throws too ([validateStatus]). *)
Definition settled (answer : option Z) : option Z := match answer with Some s => if s <? 500 then Some s else None | None => None end.

(** The loop of [streamFromIPFS]: the gateway that answered, those asked in order, and
    the circuits. The clock is read at every gateway before and after the request. *)
Fixpoint tryGateways (urls : list string) (answers : string → option Z) (clock : nat → Z) (circuits : Circuits)
    : option (string * Z) * list string * Circuits :=
  match urls with
  | [] => (None, [], circuits)
  | url :: rest =>
      if isGatewayCircuitOpen url (clock 0%nat) circuits then tryGateways rest answers (λ n, clock (S n)) circuits
      else match settled (answers url) with
           | Some status => (Some (url, status), [url], onGatewaySuccess url circuits)
           | None => let '(r, asked, circuits') := tryGateways rest answers (λ n, clock (S (S n))) (onGatewayFailure url (clock 1%nat) circuits) in
                     (r, url :: asked, circuits')
           end
  end.

Definition streamFromIPFS (urls : result evidence_error (list string)) (answers : string → option Z) (clock : nat → Z) (circuits : Circuits)
    : result evidence_error (string * Z) * list string * Circuits :=
  match urls with
  | Err e => (Err e, [], circuits)
  | Ok urls => match tryGateways urls answers clock circuits with
               | (Some r, asked, circuits) => (Ok r, asked, circuits)
               | (None, asked, circuits) => (Err UNAVAILABLE, asked, circuits)
               end
  end.
End Gateways.

(** ** [TradeEvidenceListService] *)

Record ManifestRow : Type := { m_id : Z; m_createdAt : Z }.
Inductive EvidenceType : Type := VideoType | ManifestType.
#[global] Instance EvidenceType_eq_dec : EqDecision EvidenceType.
Proof. solve_decision. Defined.

Inductive Item : Type :=
| VideoItem (id cid filename mimeType uploadedBy : string) (download : SignedUrl) (createdAt : Z)
| ManifestItem (id tradeId : string) (createdAt : Z).
Definition itemId (i : Item) : string := match i with VideoItem id _ _ _ _ _ _ | ManifestItem id _ _ => id end.
Definition itemCreatedAt (i : Item) : Z := match i with VideoItem _ _ _ _ _ _ t | ManifestItem _ _ t => t end.

Inductive list_error : Type := DisputeEvidenceTradeNotFoundError | DisputeEvidenceAccessDeniedError | TradeNotDisputedError.
Record Page : Type := { items : list Item; p_page : Z; p_limit : Z; p_total : Z; p_totalPages : Z }.

Section Listing.
Context {TT TE TM TD D : Type} `{!Table string Trade TT, !Table Z Evidence TE, !Table string ManifestRow TM, !Table string D TD}.
Context (adminPubkeysRaw : string) (sign : string → SignedUrl) (localeCompare : string → string → Z).

Definition videoItem (r : Evidence) : Item :=
  VideoItem ("video:" +:+ toString (e_id r)) (cid r) (filename r) (mimeType r) (uploadedBy r) (sign (cid r)) (createdAt r).
Definition manifestItem (tid : string) (m : ManifestRow) : Item := ManifestItem ("manifest:" +:+ toString (m_id m)) tid (m_createdAt m).

Definition paginationResponse (its : list Item) (total page limit : Z) : Page :=
  {| items := its; p_page := page; p_limit := limit; p_total := total; p_totalPages := pagesOf total limit |}.
Definition paginate (its : list Item) (page limit : Z) : Page :=
  paginationResponse (slice ((page - 1) * limit) limit its) (Z.of_nat (length its)) page limit.

(** [orderBy: [{ createdAt: 'desc' }, { id: 'desc' }]] *)
Definition newestRow (x y : Evidence) : Z := cmpLex (λ x y, createdAt y - createdAt x) (λ x y, e_id y - e_id x) x y.
Definition newestItem (x y : Item) : Z := cmpLex (λ x y, itemCreatedAt y - itemCreatedAt x) (λ x y, localeCompare (itemId y) (itemId x)) x y.

Definition listVideos (tid : string) (page limit : Z) (evidence : TE) : Page :=
  let rows := js_sort newestRow (evidenceOf tid evidence) in
  paginationResponse (map videoItem (slice ((page - 1) * limit) limit rows)) (Z.of_nat (length (evidenceOf tid evidence))) page limit.

Definition listManifest (tid : string) (page limit : Z) (manifests : TM) : Page :=
  paginate (match findUnique tid manifests with Some m => [manifestItem tid m] | None => [] end) page limit.

Definition allItems (tid : string) (evidence : TE) (manifests : TM) : list Item :=
  map videoItem (js_sort newestRow (evidenceOf tid evidence)) ++
  match findUnique tid manifests with Some m => [manifestItem tid m] | None => [] end.

Definition list_ (tid callerAddress : string) (type : option EvidenceType) (page limit : Z) (trades : TT) (disputes : TD) (evidence : TE) (manifests : TM)
    : result list_error Page :=
  match findUnique tid trades with
  | None => Err DisputeEvidenceTradeNotFoundError
  | Some trade =>
      let caller := toLowerCase callerAddress in
      if negb (isParty trade caller) && negb (isAdmin adminPubkeysRaw caller) then Err DisputeEvidenceAccessDeniedError
      else if negb (bool_decide (status trade = DISPUTED)) && negb (match (findUnique tid disputes : option D) with Some _ => true | None => false end)
      then Err TradeNotDisputedError
      else match type with
           | Some ManifestType => Ok (listManifest tid page limit manifests)
           | Some VideoType => Ok (listVideos tid page limit evidence)
           | None => Ok (paginate (js_sort newestItem (allItems tid evidence manifests)) page limit)
           end
  end.
End Listing.

(** ** Listing: who sees what, and for how long *)

Section ListFacts.
Context {TT TE : Type} `{!Table string Trade TT, !Table Z Evidence TE, !TableLaws Z Evidence TE}.
Context (adminPubkeysRaw gateway : string) (retentionDays EVIDENCE_MAX_BYTES : Z).

(** The cache holds nothing but what would be resolved again. *)
Definition cache_ok (cache : UrlCache) : Prop := ∀ c u, cache !! c = Some u → u = getFileUrl gateway c.

Lemma resolve_ok c (cache : UrlCache) : cache_ok cache → (resolveGatewayUrl gateway c cache).1 = getFileUrl gateway c ∧ cache_ok (resolveGatewayUrl gateway c cache).2.
Proof.
  intros Hc. unfold resolveGatewayUrl. destruct (cache !! c : option string) as [u|] eqn:E; cbn; [split; [by apply Hc|done]|].
  split; [done|]. intros c' u [[<- <-]|[_ H]]%lookup_insert_Some; [done|by apply Hc].
Qed.

(** What a reader is shown of a record. *)
Definition shown (admin : bool) (now : Z) (r : Evidence) : EvidenceView :=
  let expired := isEvidenceMetadataExpired retentionDays now (createdAt r) in
  {| w_id := e_id r; w_cid := if expired then "redacted" else cid r; w_filename := if expired then "redacted" else filename r; w_mimeType := mimeType r;
     w_uploadedBy := if expired && negb admin then "redacted" else uploadedBy r;
     w_url := if expired then None else Some (getFileUrl gateway (cid r)); w_createdAt := createdAt r; w_expired := expired |}.

Lemma evidenceViews_shown admin now l cache : cache_ok cache →
  (evidenceViews gateway retentionDays admin now l cache).1 = map (shown admin now) l ∧ cache_ok (evidenceViews gateway retentionDays admin now l cache).2.
Proof.
  revert cache. induction l as [|r l IH]; intros cache Hc; [done|]. cbn [evidenceViews map].
  assert ((evidenceView gateway retentionDays admin now r cache).1 = shown admin now r ∧ cache_ok (evidenceView gateway retentionDays admin now r cache).2) as [Hv Hc'].
  { unfold evidenceView, shown. destruct (isEvidenceMetadataExpired _ _ _); [done|]. destruct (resolve_ok (cid r) cache Hc) as [Hr Hc'].
    destruct (resolveGatewayUrl _ _ _) as [u c]. cbn in *. by subst u. }
  destruct (evidenceView _ _ _ _ _ _) as [v c]. cbn in *. destruct (IH c Hc') as [H1 H2]. destruct (evidenceViews _ _ _ _ _ c). cbn in *. by subst.
Qed.

(** The evidence of a trade is listed to its parties and to administrators only,
    every record once and the oldest first; past the retention time its content
    identifier, name and address are withheld from everybody and its uploader from all
    but administrators, and before that nothing is; the URL cache changes nothing. *)
Theorem evidence_listed tid callerAddress now (trades : TT) (evidence : TE) cache : cache_ok cache →
  let caller := toLowerCase callerAddress in
  let '(a, cache') := getEvidenceByTradeId adminPubkeysRaw gateway retentionDays tid callerAddress now trades evidence cache in
  cache_ok cache' ∧
  match a with
  | Ok vs => (∃ t, findUnique tid trades = Some t ∧ (isParty t caller = true ∨ isAdmin adminPubkeysRaw caller = true)) ∧
      ∃ rs, rs ≡ₚ evidenceOf tid evidence ∧ StronglySorted (cmp_le oldestFirst) rs ∧ vs = map (shown (isAdmin adminPubkeysRaw caller) now) rs
  | Err e => e = EvidenceTradeNotFoundError ∧ findUnique tid trades = None ∨
      e = EvidenceAccessDeniedError ∧ ∃ t, findUnique tid trades = Some t ∧ isParty t caller = false ∧ isAdmin adminPubkeysRaw caller = false
  end.
Proof.
  intros Hc caller. unfold getEvidenceByTradeId. fold caller. destruct (findUnique tid trades) as [t|]; [|auto].
  destruct (negb (isParty t caller) && negb (isAdmin adminPubkeysRaw caller)) eqn:Ha.
  { apply andb_true_iff in Ha as [H1%negb_true_iff H2%negb_true_iff]. split; [done|]. right. eauto. }
  destruct (evidenceViews_shown (isAdmin adminPubkeysRaw caller) now (js_sort oldestFirst (evidenceOf tid evidence)) cache Hc) as [H1 H2].
  destruct (evidenceViews _ _ _ _ _ cache) as [vs c]. cbn in *. subst vs. split; [done|]. split.
  - exists t. split; [done|]. apply andb_false_iff in Ha as [H%negb_false_iff|H%negb_false_iff]; auto.
  - eexists. split; [apply js_sort_perm|]. split; [|done]. apply js_sort_sorted; unfold cmp_le, oldestFirst; lia.
Qed.

End ListFacts.

(** ** Uploads *)

Section UploadFacts.
Context {TT TE : Type} `{!Table string Trade TT, !Table Z Evidence TE, !TableLaws Z Evidence TE} (gateway : string) (EVIDENCE_MAX_BYTES : Z).

(** What must hold for a file to leave the server. *)
Definition acceptable (tid caller : string) (file : File) (required : bool) (scan : Scanned) (trades : TT) : Prop :=
  (∃ t, findUnique tid trades = Some t ∧ isParty t caller = true) ∧ mimetype file ∈ allowed ∧ sniffMimeType (buffer file) = Some (mimetype file) ∧
  default (Z.of_nat (strlen (buffer file))) (size file) ≤ EVIDENCE_MAX_BYTES ∧
  ((∃ r, scan = ScanAnswer r ∧ clean r = true) ∨ (∃ m, scan = ScanThrew m) ∧ required = false).

(** A file goes to IPFS exactly when a party of the trade sends a video whose bytes
    are of the declared kind, within the size, that the scanner did not object to; it is
    then recorded once, under its content identifier and the sender's address, and
    otherwise nothing is recorded. A scanner that fails blocks only where it is required. *)
Theorem upload_spec tid callerAddress file required scan uploadFile newId now (trades : TT) (evidence : TE) cache : cache_ok gateway cache →
  let caller := toLowerCase callerAddress in
  let '(a, sent, evidence', cache') := uploadVideoEvidence gateway EVIDENCE_MAX_BYTES tid callerAddress file required scan uploadFile newId now trades evidence cache in
  cache_ok gateway cache' ∧ (is_Some sent ↔ acceptable tid caller file required scan trades) ∧ (∀ b, sent = Some b → b = buffer file) ∧
  match a with
  | Ok (n, c, url) => n = newId ∧ sent = Some (buffer file) ∧ uploadFile (buffer file) (originalname file) = Ok c ∧ url = getFileUrl gateway c ∧
      findUnique newId evidence = None ∧
      findUnique newId evidence' = Some {| e_id := newId; e_tradeId := tid; cid := c; filename := originalname file; mimeType := mimetype file;
                                           uploadedBy := caller; createdAt := now |} ∧
      ∀ k, k ≠ newId → findUnique k evidence' = findUnique k evidence
  | Err e => evidence' = evidence ∧ (sent = None → errorStatus e ∈ [400; 403; 404; 503])
  end.
Proof.
  intros Hc caller. unfold uploadVideoEvidence, acceptable. fold caller.
  destruct (findUnique tid trades) as [t|]; [|split_and!; try done; [split; [by intros []|intros ((? & ? & _) & _); done]|set_solver]].
  destruct (isParty t caller) eqn:Hp; cbn [negb]; [|split_and!; try done; [split; [by intros []|intros ((? & [= <-] & ?) & _); congruence]|set_solver]].
  destruct (bool_decide (mimetype file ∈ allowed)) eqn:Hm; cbn [negb]; zb; [|split_and!; try done; [split; [by intros []|tauto]|set_solver]].
  destruct (bool_decide (sniffMimeType _ = _)) eqn:Hs; cbn [negb]; zb; [|split_and!; try done; [split; [by intros []|tauto]|set_solver]].
  destruct (EVIDENCE_MAX_BYTES <? _) eqn:Hz; zb; [split_and!; try done; [split; [by intros []|lia]|set_solver]|].
  assert (∀ P : Prop, P → ((∃ t0, Some t = Some t0 ∧ isParty t0 caller = true) ∧ mimetype file ∈ allowed ∧ sniffMimeType (buffer file) = Some (mimetype file) ∧
    default (Z.of_nat (strlen (buffer file))) (size file) ≤ EVIDENCE_MAX_BYTES ∧ P)) as Hall by eauto 10.
  destruct (runEvidenceScan required scan) as [r|e] eqn:Hr.
  2: { destruct scan as [|m]; [done|]. destruct required; [|done]. injection Hr as <-. split_and!; try done; [|set_solver].
       split; [by intros []|]. intros (_ & _ & _ & _ & [(r & ? & _)|[_ ?]]); done. }
  assert (clean r = true ↔ (∃ r, scan = ScanAnswer r ∧ clean r = true) ∨ (∃ m, scan = ScanThrew m) ∧ required = false) as Hcl.
  { destruct scan as [r'|m]; cbn in Hr.
    - injection Hr as ->. split; [eauto|]. intros [(? & [= <-] & ?)|[[? ?] _]]; done.
    - destruct required; [done|]. injection Hr as <-. split; [eauto|done]. }
  destruct (clean r); cbn [negb].
  2: { split_and!; try done; [split; [by intros []|intros (_ & _ & _ & _ & H%Hcl); done]|set_solver]. }
  destruct (uploadFile _ _) as [c|m] eqn:Hu; [|split_and!; try done; [split; [intros _; apply Hall, Hcl; done|eauto]|by intros b [= <-]]].
  set (row := {| e_id := newId; e_tradeId := tid |}). destruct (create newId row evidence) as [ev|] eqn:Hcr.
  2: { split_and!; try done; [split; [intros _; apply Hall, Hcl; done|eauto]|by intros b [= <-]]. }
  apply create_inv in Hcr as (H1 & H2 & H3). destruct (resolve_ok gateway c cache Hc) as [Hurl Hc']. destruct (resolveGatewayUrl _ _ _) as [url c']. cbn in Hurl, Hc'. subst url.
  split_and!; try done; [split; [intros _; apply Hall, Hcl; done|eauto]|by intros b [= <-]].
Qed.
End UploadFacts.

(** ** Gateways *)

Section GatewayFacts.
Context (threshold cooldownMs : Z).
Notation tryGateways := (tryGateways threshold cooldownMs).
Notation onGatewayFailure := (onGatewayFailure threshold cooldownMs).

Lemma failure_other url url' now (circuits : Circuits) : url ≠ url' → onGatewayFailure url now circuits !! url' = circuits !! url'.
Proof. intros H. unfold Evidence.onGatewayFailure. by rewrite lookup_insert_ne. Qed.

Definition openAt (circuits : Circuits) (clock : nat → Z) (url : string) : Prop := ∃ n, isGatewayCircuitOpen url (clock n) circuits = true.

(** Of distinct gateways the proxy asks, in order, those whose circuit is closed, up
    to the first that answers below 500 and returns its answer; the circuit of that one
    is cleared, every one that failed has one failure more, the others are as they
    were; and it gives up only when every gateway failed or was open. *)
Theorem gateways_in_order urls answers clock circuits : NoDup urls →
  let '(r, asked, circuits') := tryGateways urls answers clock circuits in
  asked `sublist_of` urls ∧
  (∀ u, u ∈ asked → ∃ n, isGatewayCircuitOpen u (clock n) circuits = false) ∧
  (∀ u, u ∉ asked → circuits' !! u = circuits !! u) ∧
  ∃ failed, Forall (λ u, settled (answers u) = None ∧ ∃ n, circuits' !! u = onGatewayFailure u (clock n) circuits !! u) failed ∧
  match r with
  | Some (url, status) => asked = failed ++ [url] ∧ answers url = Some status ∧ status < 500 ∧ circuits' !! url = None ∧
      ∃ before after, urls = before ++ url :: after ∧ ∀ u, u ∈ before → u ∈ failed ∨ openAt circuits clock u
  | None => asked = failed ∧ ∀ u, u ∈ urls → u ∈ failed ∨ openAt circuits clock u
  end.
Proof.
  intros Hn. revert clock circuits. induction Hn as [|url rest Hni Hn IH]; intros clock circuits; cbn [Evidence.tryGateways].
  { split_and!; [constructor|set_solver|done|]. exists []. split_and!; [constructor|done|set_solver]. }
  destruct (isGatewayCircuitOpen url (clock 0%nat) circuits) eqn:Ho.
  - specialize (IH (λ n, clock (S n)) circuits). destruct (tryGateways _ _ _ _) as [[r asked] cs].
    destruct IH as (H1 & H2 & H3 & failed & Hf & Hr). split_and!; [by apply sublist_cons|intros u [n Hu]%H2; eauto|done|].
    exists failed. split. { eapply Forall_impl; [exact Hf|]. intros u [? [n Hu]]. eauto. }
    assert (openAt circuits clock url) as Hop by (by exists 0%nat).
    destruct r as [[w s]|].
    + destruct Hr as (-> & ? & ? & ? & b & a & -> & Hb). split_and!; try done. exists (url :: b), a. split; [done|].
      intros u [->|[?|[n Hu]]%Hb]%elem_of_cons; [by right|by left|right; by exists (S n)].
    + destruct Hr as [-> Hb]. split; [done|]. intros u [->|[?|[n Hu]]%Hb]%elem_of_cons; [by right|by left|right; by exists (S n)].
  - destruct (settled (answers url)) as [status|] eqn:Hs.
    + assert (answers url = Some status ∧ status < 500) as [Ha Hlt].
      { unfold settled in Hs. destruct (answers url) as [s|]; [|done]. destruct (Z.ltb_spec s 500); [by simplify_eq|done]. }
      unfold onGatewaySuccess. split_and!.
      * apply sublist_skip, sublist_nil_l.
      * intros u ->%list_elem_of_singleton. eauto.
      * intros u Hu. apply lookup_delete_ne. set_solver.
      * exists []. split; [constructor|]. split_and!; try done; [apply lookup_delete_eq|]. exists [], rest. split; [done|set_solver].
    + specialize (IH (λ n, clock (S (S n))) (onGatewayFailure url (clock 1%nat) circuits)).
      destruct (tryGateways _ _ _ _) as [[r asked] cs]. destruct IH as (H1 & H2 & H3 & failed & Hf & Hr).
      assert (∀ u, u ∈ rest → onGatewayFailure url (clock 1%nat) circuits !! u = circuits !! u) as Hsame.
      { intros u Hu. apply failure_other. set_solver. }
      assert (∀ u, u ∈ asked → u ∈ rest) as Hin by (intros u Hu; by eapply elem_of_submseteq, sublist_submseteq).
      assert (url ∉ asked) as Hna by (intros Hu; by apply Hni, Hin).
      assert (∀ u n, u ∈ rest → isGatewayCircuitOpen u n (onGatewayFailure url (clock 1%nat) circuits) = isGatewayCircuitOpen u n circuits) as Hopen.
      { intros u n Hu. unfold isGatewayCircuitOpen. by rewrite Hsame. }
      assert (∀ u, u ∈ failed → u ∈ asked) as Hfa by (destruct r as [[? ?]|]; [destruct Hr as (-> & _)|destruct Hr as [-> _]]; set_solver).
      split_and!.
      * by apply sublist_skip.
      * intros u [->|Hu]%elem_of_cons; [eauto|]. destruct (H2 u Hu) as [n Hu']. rewrite Hopen in Hu' by auto. eauto.
      * intros u Hu. rewrite H3 by set_solver. apply failure_other. set_solver.
      * exists (url :: failed). split.
        { constructor; [split; [done|]; exists 1%nat; by apply H3|].
          apply Forall_forall. intros u Hu. rewrite Forall_forall in Hf. destruct (Hf u Hu) as [Hs' [n Hu']]. split; [done|]. exists (S (S n)).
          rewrite Hu'. unfold Evidence.onGatewayFailure at 1 3. rewrite !lookup_insert_eq, Hsame by auto. done. }
        assert (∀ u, u ∈ rest → openAt (onGatewayFailure url (clock 1%nat) circuits) (λ n, clock (S (S n))) u → openAt circuits clock u) as Hmove.
        { intros u Hu [n Hu']. rewrite Hopen in Hu' by done. by exists (S (S n)). }
        destruct r as [[w s]|].
        -- destruct Hr as (-> & ? & ? & ? & b & a & -> & Hb). split_and!; try done. exists (url :: b), a. split; [done|].
           intros u [->|Hu]%elem_of_cons; [left; set_solver|]. destruct (Hb u Hu) as [?|?]; [left; set_solver|right; apply Hmove; [set_solver|done]].
        -- destruct Hr as [-> Hb]. split; [done|]. intros u [->|Hu]%elem_of_cons; [left; set_solver|].
           destruct (Hb u Hu) as [?|?]; [left; set_solver|right; by apply Hmove].
Qed.

(** A circuit opens with the configured number of failures in a row and no sooner,
    for the cool-down counted from the last of them; an answer closes it. *)
Theorem circuit_opens url (times : list Z) (circuits : Circuits) now : circuits !! url = None →
  let c := foldl (λ c t, onGatewayFailure url t c) circuits times in
  isGatewayCircuitOpen url now c = match last times with
                                   | Some t => (threshold <=? Z.of_nat (length times)) && (now <? t + cooldownMs) || (Z.of_nat (length times) <? threshold) && (now <? 0)
                                   | None => false
                                   end ∧
  isGatewayCircuitOpen url now (onGatewaySuccess url c) = false.
Proof.
  intros H0. split; [|unfold isGatewayCircuitOpen, onGatewaySuccess; by rewrite lookup_delete_eq].
  assert (foldl (λ c t, onGatewayFailure url t c) circuits times !! url =
    match last times with
    | Some t => Some {| failures := Z.of_nat (length times); openUntil := if threshold <=? Z.of_nat (length times) then t + cooldownMs else 0 |}
    | None => None
    end) as He.
  { induction times as [|t times IH] using rev_ind; [done|]. rewrite foldl_app, last_snoc, length_app. cbn [foldl length].
    unfold Evidence.onGatewayFailure at 1. rewrite lookup_insert_eq, IH. destruct (last times) as [t'|] eqn:El; cbn.
    - replace (Z.of_nat (length times + 1)) with (Z.of_nat (length times) + 1) by lia. done.
    - apply last_None in El as ->. done. }
  unfold isGatewayCircuitOpen. rewrite He. destruct (last times) as [t|]; [|done]. cbn [openUntil].
  destruct (Z.leb_spec threshold (Z.of_nat (length times))), (Z.ltb_spec (Z.of_nat (length times)) threshold); lia.
Qed.
End GatewayFacts.

(** ** The dispute listing, page by page *)

Section Pages.
Context {TT TE TM TD D : Type} `{!Table string Trade TT, !Table Z Evidence TE, !Table string ManifestRow TM, !Table string D TD}.
Context (adminPubkeysRaw : string) (sign : string → SignedUrl) (localeCompare : string → string → Z) (localeCompare_ok : Comparator localeCompare).

Lemma newestItem_comparator : Comparator (newestItem localeCompare).
Proof.
  apply comparator_lex; [|apply (comparator_flip (λ x y, localeCompare (itemId x) (itemId y))), comparator_key, localeCompare_ok].
  apply (comparator_flip (λ x y, itemCreatedAt x - itemCreatedAt y)), (comparator_key Z.sub), comparator_sub.
Qed.

Lemma newestRow_comparator : Comparator newestRow.
Proof.
  apply comparator_lex; [apply (comparator_flip (λ x y, createdAt x - createdAt y))|apply (comparator_flip (λ x y, e_id x - e_id y))];
    apply (comparator_key Z.sub), comparator_sub.
Qed.

Lemma sorted_newest {A} (f : A → Z) (c d : A → A → Z) (l : list A) : (∀ x y, c x y = f y - f x) →
  StronglySorted (cmp_le (cmpLex c d)) l → StronglySorted (λ x y, f y ≤ f x) l.
Proof.
  intros Hc. induction 1 as [|x l _ IH Hx]; constructor; [done|]. eapply Forall_impl; [exact Hx|]. intros y Hy.
  unfold cmp_le, cmpLex in Hy. rewrite Hc in Hy. destruct (Z.eqb_spec (f y - f x) 0); lia.
Qed.

Lemma sorted_map {A B} (R : B → B → Prop) (f : A → B) (l : list A) : StronglySorted (λ x y, R (f x) (f y)) l → StronglySorted R (map f l).
Proof. induction 1 as [|x l _ IH Hx]; cbn; constructor; [done|]. by apply Forall_map. Qed.

(** The items a filter selects. *)
Definition selected (tid : string) (type : option EvidenceType) (evidence : TE) (manifests : TM) : list Item :=
  match type with
  | Some VideoType => map (videoItem sign) (evidenceOf tid evidence)
  | Some ManifestType => match findUnique tid manifests with Some m => [manifestItem tid m] | None => [] end
  | None => map (videoItem sign) (evidenceOf tid evidence) ++ match findUnique tid manifests with Some m => [manifestItem tid m] | None => [] end
  end.

Definition mayList (tid caller : string) (trades : TT) (disputes : TD) : Prop :=
  ∃ t, findUnique tid trades = Some t ∧ (isParty t caller = true ∨ isAdmin adminPubkeysRaw caller = true) ∧
    (status t = DISPUTED ∨ is_Some (findUnique tid disputes : option D)).

(** All that is listed, in the order of the pages. *)
Definition listed (tid : string) (type : option EvidenceType) (evidence : TE) (manifests : TM) : list Item :=
  match type with
  | Some VideoType => map (videoItem sign) (js_sort newestRow (evidenceOf tid evidence))
  | Some ManifestType => selected tid type evidence manifests
  | None => js_sort (newestItem localeCompare) (allItems sign tid evidence manifests)
  end.

Lemma listed_selected tid type (evidence : TE) (manifests : TM) : listed tid type evidence manifests ≡ₚ selected tid type evidence manifests.
Proof.
  destruct type as [[]|]; cbn; [by rewrite js_sort_perm|done|]. rewrite js_sort_perm. unfold allItems. by rewrite js_sort_perm.
Qed.

Lemma listed_sorted tid type (evidence : TE) (manifests : TM) :
  StronglySorted (λ x y, itemCreatedAt y ≤ itemCreatedAt x) (listed tid type evidence manifests).
Proof.
  destruct type as [[]|]; cbn [listed selected].
  - apply sorted_map. cbn. eapply (sorted_newest createdAt), js_sort_sorted; [reflexivity|apply comparator_total, newestRow_comparator|].
    apply (cmp_le_trans _ newestRow_comparator).
  - destruct (findUnique tid manifests); repeat constructor.
  - eapply (sorted_newest itemCreatedAt), js_sort_sorted; [reflexivity|apply comparator_total, newestItem_comparator|].
    apply (cmp_le_trans _ newestItem_comparator).
Qed.

Lemma list_page tid caller type page limit (trades : TT) (disputes : TD) (evidence : TE) (manifests : TM) :
  let l := listed tid type evidence manifests in
  match list_ adminPubkeysRaw sign localeCompare tid caller type page limit trades disputes evidence manifests with
  | Ok p => mayList tid (toLowerCase caller) trades disputes ∧
      p = paginationResponse (slice ((page - 1) * limit) limit l) (Z.of_nat (length l)) page limit
  | Err _ => ¬ mayList tid (toLowerCase caller) trades disputes
  end.
Proof.
  intros l. unfold list_, mayList. set (c := toLowerCase caller). destruct (findUnique tid trades) as [t|]; [|by intros (? & ? & _)].
  destruct (negb (isParty t c) && negb (isAdmin adminPubkeysRaw c)) eqn:Ha.
  { apply andb_true_iff in Ha as [H1%negb_true_iff H2%negb_true_iff]. intros (? & [= <-] & [?|?] & _); congruence. }
  destruct (negb (bool_decide (status t = DISPUTED)) && _) eqn:Hd.
  { apply andb_true_iff in Hd as [H1%negb_true_iff%bool_decide_eq_false H2].
    intros (? & [= <-] & _ & [?|[d Hd]]); [done|]. rewrite Hd in H2. discriminate. }
  assert (∃ t0, Some t = Some t0 ∧ (isParty t0 c = true ∨ isAdmin adminPubkeysRaw c = true) ∧
    (status t0 = DISPUTED ∨ is_Some (findUnique tid disputes : option D))) as Hm.
  { exists t. split; [done|]. split; [apply andb_false_iff in Ha as [H%negb_false_iff|H%negb_false_iff]; auto|].
    apply andb_false_iff in Hd as [H%negb_false_iff%bool_decide_eq_true|H%negb_false_iff]; [auto|].
    right. destruct (findUnique tid disputes : option D); [eauto|done]. }
  destruct type as [[]|]; (split; [exact Hm|]); unfold l, listed; try reflexivity.
  unfold listVideos. rewrite slice_map. f_equal. by rewrite length_map, js_sort_perm.
Qed.

(** The evidence of a disputed trade is listed to its parties and to administrators
    only; the pages together show every selected item exactly once, the newest first,
    with the same total on each. *)
Theorem dispute_pages tid caller type limit (trades : TT) (disputes : TD) (evidence : TE) (manifests : TM) : 1 ≤ limit →
  let page k := list_ adminPubkeysRaw sign localeCompare tid caller type k limit trades disputes evidence manifests in
  (∀ k, isOk (page k) = true ↔ mayList tid (toLowerCase caller) trades disputes) ∧
  ∃ all, all ≡ₚ selected tid type evidence manifests ∧ StronglySorted (λ x y, itemCreatedAt y ≤ itemCreatedAt x) all ∧
    (∀ k p, page k = Ok p → p_total p = Z.of_nat (length all) ∧ p_totalPages p = pagesOf (Z.of_nat (length all)) limit) ∧
    (mayList tid (toLowerCase caller) trades disputes →
     concat (map (λ k, match page (Z.of_nat k + 1) with Ok p => items p | Err _ => [] end) (seq 0 (Z.to_nat (pagesOf (Z.of_nat (length all)) limit)))) = all).
Proof.
  intros Hl page. split.
  { intros k. pose proof (list_page tid caller type k limit trades disputes evidence manifests) as H. cbv zeta in H. fold (page k) in H.
    destruct (page k); cbn; [tauto|]. split; [done|]. intros Hm. by destruct H. }
  set (all := listed tid type evidence manifests). exists all. split; [apply listed_selected|]. split; [apply listed_sorted|]. split.
  - intros k p Hp. pose proof (list_page tid caller type k limit trades disputes evidence manifests) as H. cbv zeta in H. fold (page k) in H.
    rewrite Hp in H. destruct H as [_ ->]. done.
  - intros Hm. transitivity (concat (map (λ k, slice (Z.of_nat k * limit) limit all) (seq 0 (Z.to_nat (pagesOf (Z.of_nat (length all)) limit))))).
    + f_equal. apply map_ext. intros k. pose proof (list_page tid caller type (Z.of_nat k + 1) limit trades disputes evidence manifests) as H.
      cbv zeta in H. fold (page (Z.of_nat k + 1)) in H. destruct (page (Z.of_nat k + 1)); [|done]. destruct H as [_ ->]. cbn [items paginationResponse].
      f_equal. lia.
    + apply pages_whole. lia.
Qed.
End Pages.

(** Only gateways of the allowlist are ever asked, and with an allowlist that allows none
    of them the request is refused instead of going anywhere. *)
Theorem only_allowed_gateways gateway hostname gatewayUrls allowlistRaw c cache urls cache' u :
  resolveGatewayUrls gateway hostname gatewayUrls allowlistRaw c cache = (Ok urls, cache') → u ∈ urls →
  (∃ base, u = (base +:+ "/" +:+ c)%string ∧ isGatewayAllowed hostname base (parseGatewayAllowlist allowlistRaw) = true) ∨
  u = (resolveGatewayUrl gateway c cache).1 ∧ isGatewayAllowed hostname (dropLastSegment u) (parseGatewayAllowlist allowlistRaw) = true.
Proof.
  unfold resolveGatewayUrls. destruct (configuredUrls _ _ _ _) as [|w ws] eqn:E.
  - destruct (resolveGatewayUrl gateway c cache) as [f c']. destruct (isGatewayAllowed _ (dropLastSegment f) _) eqn:Ha; [|done].
    intros [= <- <-] ->%list_elem_of_singleton. by right.
  - intros [= <- <-] Hu. left. rewrite <-E in Hu. unfold configuredUrls in Hu. destruct gatewayUrls as [raw|]; [|set_solver].
    apply list_elem_of_fmap in Hu as (base & -> & Hb). exists base. split; [done|].
    apply list_elem_of_In, List.filter_In in Hb as [_ Hb]. done.
Qed.

(** A signed URL is good for an hour at the longest, and its signature covers the content
    identifier and the second it ends. *)
Theorem signed_url_bound hmac gateway secret ttl now c : let u := getSignedFileUrl hmac gateway secret ttl now c in
  now + 1000 ≤ s_expiresAt u ≤ now + 3600 * 1000 ∧ 1000 * s_expires u ≤ s_expiresAt u < 1000 * s_expires u + 1000 ∧
  s_signature u = hmac secret (c +:+ ":" +:+ toString (s_expires u))%string.
Proof.
  cbn. split; [lia|]. split; [|done]. generalize (now + Z.min 3600 (Z.max 1 ttl) * 1000). intros e.
  pose proof (Z.div_mod e 1000 ltac:(lia)). pose proof (Z.mod_pos_bound e 1000 ltac:(lia)). lia.
Qed.

(** ** Concrete runs *)

Definition day : Z := 86400000.
Definition toyTrades : gmap string Trade := {[ "5"%string := {| tradeId := "5"; buyerAddress := "GB"; sellerAddress := "GS"; status := DISPUTED |} ]}.
Definition clip (n : Z) (t : Z) : Evidence :=
  {| e_id := n; e_tradeId := "5"; cid := "bafy" +:+ toString n; filename := "clip.mp4"; mimeType := "video/mp4"; uploadedBy := "gb"; createdAt := t |}.
Definition toyEvidence : gmap Z Evidence := {[ 9 := clip 9 day; 10 := clip 10 day ]}.
Definition noDisputes : gmap string unit := ∅.
Definition toyManifests : gmap string ManifestRow := {[ "5"%string := {| m_id := 3; m_createdAt := 0 |} ]}.
Definition toySign (c : string) : SignedUrl := {| s_base := c; s_expires := 0; s_signature := ""; s_expiresAt := 0 |}.

(** Past the retention time a party is refused the content identifier by one service and
    given it, with a download address, by the other, which is the one that is mounted
    first under [GET /trades/:id/evidence]. *)
Example listing_ignores_retention :
  (match getEvidenceByTradeId "" "https://ipfs" 90 "5" "GB" (100 * day) toyTrades toyEvidence ∅ with
   | (Ok vs, _) => map w_cid vs = ["redacted"; "redacted"]%string
   | _ => False
   end) ∧
  match list_ "" toySign strCmp "5" "GB" (Some VideoType) 1 20 toyTrades noDisputes toyEvidence toyManifests with
  | Ok p => map itemId (items p) = ["video:10"; "video:9"]%string ∧
            map (λ i, match i with VideoItem _ c _ _ _ _ _ => c | _ => ""%string end) (items p) = ["bafy10"; "bafy9"]%string
  | Err _ => False
  end.
Proof. vm_compute. done. Qed.

(** Videos of one instant are listed by number alone and by the text of the number with
    the manifest. *)
Example mixed_listing_by_text :
  match list_ "" toySign strCmp "5" "GB" None 1 20 toyTrades noDisputes toyEvidence toyManifests with
  | Ok p => map itemId (items p) = ["video:9"; "video:10"; "manifest:3"]%string
  | Err _ => False
  end.
Proof. vm_compute. done. Qed.

(** The marker is compared with the high bits cleared. *)
Example high_bits_ignored : sniffMimeType (String "0" (String "0" (String "0" (String "0"
  (String (ascii_of_N (102 + 128)) (String "t" (String "y" (String "p" "abcd")))))))) = Some "video/mp4"%string.
Proof. reflexivity. Qed.

Lemma evidence_listed_witness :
  ∃ vs cache, getEvidenceByTradeId "" "https://ipfs/" 90 "5" "GS" (2 * day) toyTrades toyEvidence ∅ = (Ok vs, cache) ∧
    ∃ rs, rs ≡ₚ evidenceOf "5" toyEvidence ∧ vs = map (shown "https://ipfs/" 90 false (2 * day)) rs.
Proof.
  pose proof (evidence_listed "" "https://ipfs/" 90 "5" "GS" (2 * day) toyTrades toyEvidence ∅ (λ c u (H : ∅ !! c = Some u), ltac:(rewrite lookup_empty in H; discriminate H))) as H.
  cbv zeta in H. destruct (getEvidenceByTradeId _ _ _ _ _ _ _ _ _) as [[vs|e] cache] eqn:E; [|vm_compute in E; discriminate E].
  destruct H as (_ & _ & rs & Hp & _ & Hv). exists vs, cache. split; [reflexivity|]. exists rs. split; [exact Hp|exact Hv].
Defined.

Definition clipFile : File := {| buffer := "0000ftypisom"; originalname := "a.mp4"; mimetype := "video/mp4"; size := None |}.
Lemma upload_spec_witness :
  let '(a, sent, ev, _) := uploadVideoEvidence "https://ipfs" 100 "5" "GB" clipFile false (ScanThrew None) (λ _ _, Ok "bafy1"%string) 11 day toyTrades toyEvidence ∅ in
  a = Ok (11, "bafy1", "https://ipfs/bafy1")%string ∧ sent = Some (buffer clipFile) ∧
  acceptable 100 "5" "gb" clipFile false (ScanThrew None) toyTrades ∧ findUnique 9 ev = Some (clip 9 day).
Proof.
  pose proof (upload_spec "https://ipfs" 100 "5" "GB" clipFile false (ScanThrew None) (λ _ _, Ok "bafy1"%string) 11 day toyTrades toyEvidence ∅
    (λ c u (H : ∅ !! c = Some u), ltac:(rewrite lookup_empty in H; discriminate H))) as H. cbv zeta in H.
  destruct (uploadVideoEvidence _ _ _ _ _ _ _ _ _ _ _ _ _) as [[[a sent] ev] c] eqn:E.
  assert (a = Ok (11, "bafy1", "https://ipfs/bafy1")%string ∧ sent = Some (buffer clipFile)) as [-> ->].
  { apply (f_equal (λ x, (x.1.1.1, x.1.1.2))) in E. vm_compute in E. injection E as <- <-. split; reflexivity. }
  destruct H as (_ & [Hs _] & _ & _ & _ & _ & _ & _ & _ & Ho). split; [reflexivity|]. split; [reflexivity|]. split; [apply Hs; by eexists|].
  rewrite Ho; [reflexivity|discriminate].
Defined.

Definition twoGateways : list string := ["https://a/x"; "https://b/x"; "https://c/x"]%string.
Definition toyAnswers (u : string) : option Z := if bool_decide (u = "https://c/x"%string) then Some 200 else Some 503.
Lemma gateways_in_order_witness :
  let '(r, asked, c) := tryGateways 1 1000 twoGateways toyAnswers (λ n, Z.of_nat n) {[ "https://b/x"%string := {| failures := 1; openUntil := 50 |} ]} in
  r = Some ("https://c/x"%string, 200) ∧ asked = ["https://a/x"; "https://c/x"]%string ∧ asked `sublist_of` twoGateways.
Proof.
  pose proof (gateways_in_order 1 1000 twoGateways toyAnswers (λ n, Z.of_nat n) {[ "https://b/x"%string := {| failures := 1; openUntil := 50 |} ]}) as H.
  destruct (tryGateways _ _ _ _ _ _) as [[r asked] c] eqn:E.
  assert (r = Some ("https://c/x"%string, 200) ∧ asked = ["https://a/x"; "https://c/x"]%string) as [-> ->].
  { apply (f_equal (λ x, (x.1.1, x.1.2))) in E. vm_compute in E. injection E as <- <-. split; reflexivity. }
  split; [reflexivity|]. split; [reflexivity|]. apply H. by apply (bool_decide_unpack (NoDup twoGateways)).
Defined.

Lemma circuit_opens_witness :
  isGatewayCircuitOpen "g" 1099 (foldl (λ c t, onGatewayFailure 2 1000 "g" t c) ∅ [50; 100]) = true ∧
  isGatewayCircuitOpen "g" 1100 (foldl (λ c t, onGatewayFailure 2 1000 "g" t c) ∅ [50; 100]) = false.
Proof.
  split; [rewrite (proj1 (circuit_opens 2 1000 "g" [50; 100] ∅ 1099 (lookup_empty _)))|rewrite (proj1 (circuit_opens 2 1000 "g" [50; 100] ∅ 1100 (lookup_empty _)))];
    reflexivity.
Defined.

Lemma dispute_pages_witness : ∃ all, all ≡ₚ selected toySign "5" None toyEvidence toyManifests ∧
  concat (map (λ k, match list_ "" toySign strCmp "5" "GB" None (Z.of_nat k + 1) 2 toyTrades noDisputes toyEvidence toyManifests with
                    | Ok p => items p | Err _ => [] end) (seq 0 (Z.to_nat (pagesOf (Z.of_nat (length all)) 2)))) = all.
Proof.
  destruct (dispute_pages "" toySign strCmp strCmp_comparator "5" "GB" None 2 toyTrades noDisputes toyEvidence toyManifests ltac:(lia)) as (_ & all & Hp & _ & _ & Hc).
  exists all. split; [exact Hp|]. apply Hc. exists {| tradeId := "5"; buyerAddress := "GB"; sellerAddress := "GS"; status := DISPUTED |}.
  split; [reflexivity|]. split; left; reflexivity.
Defined.
