(* ===== verification/EscrowRelease.v ===== *)
(** * Release schedules and milestone releases

    [routes/escrow.schedule.routes.ts] and [routes/escrow.release.routes.ts]: the parties
    of a trade agree on milestones, and the buyer or an administrator asks for the
    transaction that releases one, after its payout has been claimed
    ([PayoutIntent]). The transaction builder is an argument that may throw. Due dates are
    instants: [datetime()] of the schema and [new Date] are left to the caller.
    [hasStore]: the injected client has the optional milestone table. *)

From S2P Require Import Prelude JsString JsValue Dates Prisma.
From S2P Require PayoutIntent AdminGate EventHandlers.
Import EventHandlers (TradeStatus, TradeStatus_eq_dec, CREATED, FUNDED, DELIVERED, DISPUTED).

Record Trade : Type := { t_id : Z; tradeId : string; buyerAddress : string; sellerAddress : string; status : TradeStatus }.
Record Milestone : Type := {
  m_tradeId : string; milestoneIndex : Z; amountUsdc : string; dueAt : Z; conditionHash : option string; releasedAt : option Z }.

(** [caller]: the trimmed wallet of the token. *)
Definition caller (walletAddress : option string) : option string :=
  match walletAddress with
  | Some w => if bool_decide (trim w = ""%string) then None else Some (trim w)
  | None => None
  end.

(** [tradeWhere]: the trade id, or the row number. *)
Definition tradeWhere (id : string) (t : Trade) : bool :=
  bool_decide (tradeId t = id) || match StringToNumber id with JInt n => (0 <? n) && (t_id t =? n) | _ => false end.

Definition canRelease (adminPubkeysRaw : string) (t : Trade) (walletAddress : string) : bool :=
  let callerAddress := toLowerCase walletAddress in
  bool_decide (toLowerCase (buyerAddress t) = callerAddress) || bool_decide (callerAddress ∈ AdminGate.getMediatorAllowlist adminPubkeysRaw).

Definition isBuyerOrSeller (t : Trade) (walletAddress : string) : bool :=
  bool_decide (toLowerCase (buyerAddress t) = toLowerCase walletAddress) || bool_decide (toLowerCase (sellerAddress t) = toLowerCase walletAddress).

(** An [Idempotency-Key] header that is blank counts as absent. *)
Definition idempotencyKeyFrom (header : list string) : option string :=
  match header with
  | raw :: _ => if bool_decide (trim raw = ""%string) then None else Some (trim raw)
  | [] => None
  end.

(** ** Schedules *)

Record MilestoneInput : Type := { i_index : Z; i_amount : string; i_dueAt : Z; i_hash : option string }.

(** [/^\d+(\.\d{1,7})?$/] *)
Definition isAmount (s : string) : bool :=
  match split "." s with
  | [a] => negb (bool_decide (a = ""%string)) && str_forall is_digit a
  | [a; b] => negb (bool_decide (a = ""%string)) && str_forall is_digit a && (1 <=? strlen b)%nat && (strlen b <=? 7)%nat && str_forall is_digit b
  | _ => false
  end.

Definition milestoneSchema (m : MilestoneInput) : bool :=
  (0 <=? i_index m) && isAmount (i_amount m) && match i_hash m with Some h => (strlen h <=? 64)%nat | None => true end.
Definition createScheduleBodySchema (ms : list MilestoneInput) : bool :=
  (1 <=? length ms)%nat && (length ms <=? 100)%nat && forallb milestoneSchema ms.

Definition rowOf (tid : string) (m : MilestoneInput) : Milestone :=
  {| m_tradeId := tid; milestoneIndex := i_index m; amountUsdc := i_amount m; dueAt := i_dueAt m; conditionHash := i_hash m; releasedAt := None |}.

Record ScheduleView : Type := { v_tradeId : string; milestoneCount : Z; nextReleaseDate : option Z; milestones : list Milestone }.
Inductive ScheduleAnswer : Type := Refused (status : Z) | Schedule (status : Z) (v : ScheduleView) | ScheduleError.

Section Schedules.
Context (hasStore : bool).
Context {TT TM : Type} `{!Table Z Trade TT, !Table (string * Z) Milestone TM}.

Definition byIndex (x y : Milestone) : Z := milestoneIndex x - milestoneIndex y.
Definition scheduleOf (tid : string) (ms : TM) : list Milestone :=
  js_sort byIndex (findMany (K := string * Z) (λ m, bool_decide (m_tradeId m = tid)) ms).

(** The rows are created one after the other; a taken index throws. *)
Fixpoint createAll (tid : string) (l : list MilestoneInput) (ms : TM) : bool * TM :=
  match l with
  | [] => (true, ms)
  | m :: l => match create (tid, i_index m) (rowOf tid m) ms with
              | Some ms' => createAll tid l ms'
              | None => (false, ms)
              end
  end.

Definition postSchedule (walletAddress : option string) (id : string) (body : list MilestoneInput) (now : Z) (trades : TT) (ms : TM) : ScheduleAnswer * TM :=
  if negb (createScheduleBodySchema body) then (Refused 400, ms)
  else match caller walletAddress with
  | None => (Refused 401, ms)
  | Some wallet =>
      match findFirst (K := Z) (tradeWhere id) trades with
      | None => (Refused 404, ms)
      | Some t =>
          if negb (bool_decide (status t = CREATED)) && negb (bool_decide (status t = FUNDED)) then (Refused 400, ms)
          else if negb (isBuyerOrSeller t wallet) then (Refused 403, ms)
          else if negb hasStore then (Refused 500, ms)
          else let '(_, ms') := deleteMany (λ m, bool_decide (m_tradeId m = tradeId t)) ms in
               match createAll (tradeId t) body ms' with
               | (false, ms'') => (ScheduleError, ms'')
               | (true, ms'') =>
                   let created := map (rowOf (tradeId t)) body in
                   (Schedule 201 {| v_tradeId := tradeId t; milestoneCount := Z.of_nat (length created);
                                    nextReleaseDate := dueAt <$> List.find (λ m, now <? dueAt m) created; milestones := created |}, ms'')
               end
      end
  end.

Definition getSchedule (walletAddress : option string) (id : string) (now : Z) (trades : TT) (ms : TM) : ScheduleAnswer :=
  match caller walletAddress with
  | None => Refused 401
  | Some _ =>
      match findFirst (K := Z) (tradeWhere id) trades with
      | None => Refused 404
      | Some t =>
          if negb hasStore then Refused 500
          else let rows := scheduleOf (tradeId t) ms in
          Schedule 200 {| v_tradeId := tradeId t; milestoneCount := Z.of_nat (length rows);
                          nextReleaseDate := dueAt <$> List.find (λ m, (now <? dueAt m) && match releasedAt m with None => true | Some _ => false end) rows;
                          milestones := rows |}
      end
  end.
End Schedules.

(** ** Releases *)

Record ReleaseRequest : Type := { r_wallet : option string; r_id : string; r_index : Z; r_header : list string }.
Inductive ReleaseAnswer : Type :=
| Failed (status : Z)
| InProgress (intent : PayoutIntent.PayoutIntent)
| AlreadyReleased (intent : PayoutIntent.PayoutIntent)
| Issued (unsignedXdr idempotencyKey : string)
| NextError.

Section Releases.
Context (sha256 : string → string) (adminPubkeysRaw : string) (hasStore : bool).
Context {TT TM TI : Type} `{!Table Z Trade TT, !Table (string * Z) Milestone TM, !Table string PayoutIntent.PayoutIntent TI}.

Definition payoutInput (req : ReleaseRequest) (t : Trade) (wallet : string) (m : Milestone) : PayoutIntent.PayoutIntentInput :=
  {| PayoutIntent.in_idempotencyKey := idempotencyKeyFrom (r_header req); PayoutIntent.in_kind := PayoutIntent.MILESTONE_RELEASE;
     PayoutIntent.in_tradeId := tradeId t; PayoutIntent.in_milestoneIndex := Some (r_index req); PayoutIntent.in_amountUsdc := amountUsdc m;
     PayoutIntent.in_destination := sellerAddress t; PayoutIntent.in_requestedBy := wallet |}.

(** The checks before the claim, in order: the trade and the milestone, or the status. *)
Definition releasable (req : ReleaseRequest) (now : Z) (trades : TT) (ms : TM) : result Z (Trade * string * Milestone) :=
  if r_index req <? 0 then Err 400
  else match caller (r_wallet req) with
  | None => Err 401
  | Some wallet =>
      match findFirst (K := Z) (tradeWhere (r_id req)) trades with
      | None => Err 404
      | Some t =>
          if negb (bool_decide (status t = FUNDED)) && negb (bool_decide (status t = DELIVERED)) then Err 400
          else if negb (canRelease adminPubkeysRaw t wallet) then Err 403
          else if negb hasStore then Err 404
          else let schedule := scheduleOf (tradeId t) ms in
               match schedule with
               | [] => Err 404
               | _ =>
                   if forallb (λ m, match releasedAt m with Some _ => true | None => false end) schedule then Err 409
                   else match List.find (λ m, milestoneIndex m =? r_index req) schedule with
                        | None => Err 400
                        | Some m =>
                            match releasedAt m with
                            | Some _ => Err 409
                            | None => if now <? dueAt m then Err 400 else Ok (t, wallet, m)
                            end
                        end
               end
      end
  end.

Definition releaseMilestone (req : ReleaseRequest) (buildTx : string → string → Z → option string) (now : Z) (trades : TT) (ms : TM) (intents : TI)
    : ReleaseAnswer * TI :=
  match releasable req now trades ms with
  | Err s => (Failed s, intents)
  | Ok (t, wallet, m) =>
      match PayoutIntent.claim sha256 intents (payoutInput req t wallet m) now with
      | (intents', Err (PayoutIntent.DuplicatePayoutError i)) => (AlreadyReleased i, intents')
      | (intents', Err (PayoutIntent.PrismaError _)) => (NextError, intents')
      | (intents', Ok r) =>
          if PayoutIntent.duplicate r then (InProgress (PayoutIntent.intent r), intents')
          else match buildTx (tradeId t) wallet (r_index req) with
               | Some xdr => (Issued xdr (PayoutIntent.idempotencyKey (PayoutIntent.intent r)), intents')
               | None => (NextError, intents')
               end
      end
  end.
End Releases.

(** ** A schedule is what was last agreed *)

Section ScheduleFacts.
Context (hasStore : bool).
Context {TT TM : Type} `{!Table Z Trade TT, !Table (string * Z) Milestone TM, !TableLaws (string * Z) Milestone TM}.

Definition milestoneKey (m : Milestone) : string * Z := (m_tradeId m, milestoneIndex m).

(** Rows of other keys are left alone, and a new row is one of the list. *)
Lemma createAll_frame tid l (ms : TM) : let ms' := (createAll tid l ms).2 in
  (∀ k, (∀ m, m ∈ l → k ≠ (tid, i_index m)) → findUnique k ms' = findUnique k ms) ∧
  (∀ k r, findUnique k ms' = Some r → findUnique k ms = Some r ∨ ∃ m, m ∈ l ∧ k = (tid, i_index m) ∧ r = rowOf tid m).
Proof.
  revert ms. induction l as [|x l IH]; intros ms; cbn [createAll]; [split; auto|].
  destruct (create _ _ ms) as [db|] eqn:Hc; [|cbn; split; auto]. apply create_inv in Hc as (Hn & Hnew & Ho). destruct (IH db) as [H1 H2]. split.
  - intros k Hk. rewrite H1 by set_solver. apply Ho, Hk. set_solver.
  - intros k r [H|(y & ? & ? & ?)]%H2; [|right; exists y; set_solver].
    destruct (decide (k = (tid, i_index x))) as [->|Hne]; [right; exists x; split; [set_solver|]; split; congruence|left; by rewrite <-Ho].
Qed.

Lemma createAll_taken tid l (ms : TM) m : m ∈ l → is_Some (findUnique (tid, i_index m) ms) → (createAll tid l ms).1 = false.
Proof.
  revert ms. induction l as [|x l IH]; intros ms Hin Hs; [by apply elem_of_nil in Hin|]. cbn [createAll].
  destruct (create _ _ ms) as [db|] eqn:Hc; [|done]. apply create_inv in Hc as (Hn & Hnew & Ho).
  apply elem_of_cons in Hin as [->|Hin]; [rewrite Hn in Hs; by destruct Hs|]. apply IH; [done|].
  destruct (decide ((tid, i_index m) = (tid, i_index x))) as [->|Hne]; [by rewrite Hnew|by rewrite Ho].
Qed.

Lemma createAll_spec tid l (ms : TM) : (∀ m, m ∈ l → findUnique (tid, i_index m) ms = None) →
  let '(ok, ms') := createAll tid l ms in
  (ok = true ↔ NoDup (i_index <$> l)) ∧ (ok = true → ∀ m, m ∈ l → findUnique (tid, i_index m) ms' = Some (rowOf tid m)).
Proof.
  revert ms. induction l as [|m l IH]; intros ms Hfree; cbn [createAll].
  { split; [split; [intros _; constructor|done]|intros _ m []%elem_of_nil]. }
  destruct (create_free (tid, i_index m) (rowOf tid m) ms) as (db & Hc & Hs & Ho); [apply Hfree; set_solver|]. rewrite Hc.
  assert (NoDup (i_index <$> m :: l) ↔ i_index m ∉ i_index <$> l ∧ NoDup (i_index <$> l)) as Hnc by apply NoDup_cons.
  destruct (decide (i_index m ∈ i_index <$> l)) as [Hdup|Hnd].
  - pose proof Hdup as (m' & Heq & Hm')%list_elem_of_fmap.
    pose proof (createAll_taken tid l db m' Hm') as Hf. destruct (createAll tid l db) as [ok ms']. cbn in Hf.
    rewrite Hf by (rewrite <-Heq, Hs; eauto). rewrite Hnc. split; [split; [done|tauto]|done].
  - assert (∀ x, x ∈ l → i_index x ≠ i_index m) as Hne by (intros x Hx He; apply Hnd, list_elem_of_fmap; eauto).
    specialize (IH db). pose proof (createAll_frame tid l db) as [Hfr _]. destruct (createAll tid l db) as [ok ms']. destruct IH as (H1 & H3).
    { intros x Hx. rewrite Ho; [apply Hfree; set_solver|]. intros [= He]. by apply (Hne x Hx). }
    split; [rewrite Hnc, H1; tauto|]. intros Hok x [->|Hx]%elem_of_cons; [|by apply H3]. cbn in Hfr. rewrite Hfr; [done|].
    intros y Hy [= He]. by apply (Hne y Hy).
Qed.

Lemma scheduleOf_elem tid (ms : TM) m : m ∈ scheduleOf tid ms ↔ ∃ k, findUnique k ms = Some m ∧ m_tradeId m = tid.
Proof. unfold scheduleOf. rewrite js_sort_elem, (findMany_elem (K := string * Z)). by setoid_rewrite bool_decide_eq_true. Qed.

Lemma scheduleOf_sorted tid (ms : TM) : StronglySorted (cmp_le byIndex) (scheduleOf tid ms).
Proof. apply js_sort_sorted; unfold cmp_le, byIndex; lia. Qed.

(** The parties and the state a schedule may be set in. *)
Definition mayPlan (walletAddress : option string) (id : string) (trades : TT) (t : Trade) : Prop :=
  hasStore = true ∧ findFirst (K := Z) (tradeWhere id) trades = Some t ∧ (status t = CREATED ∨ status t = FUNDED) ∧
  ∃ wallet, caller walletAddress = Some wallet ∧ isBuyerOrSeller t wallet = true.

Lemma postSchedule_cases walletAddress id body now (trades : TT) (ms : TM) :
  let '(a, ms') := postSchedule hasStore walletAddress id body now trades ms in
  (∃ s, a = Refused s ∧ ms' = ms ∧ ¬ (createScheduleBodySchema body = true ∧ ∃ t, mayPlan walletAddress id trades t)) ∨
  ∃ t, mayPlan walletAddress id trades t ∧ createScheduleBodySchema body = true ∧
    let '(ok, ms'') := createAll (tradeId t) body (deleteMany (K := string * Z) (λ m, bool_decide (m_tradeId m = tradeId t)) ms).2 in
    ms' = ms'' ∧ (if ok then ∃ v, a = Schedule 201 v ∧ milestones v = map (rowOf (tradeId t)) body else a = ScheduleError).
Proof.
  unfold postSchedule, mayPlan. destruct (createScheduleBodySchema body); cbn [negb].
  2: { left. eexists. split_and!; [done..|]. by intros [? _]. }
  destruct (caller walletAddress) as [w|].
  2: { left. eexists. split_and!; [done..|]. by intros (_ & t & _ & _ & _ & w & ? & _). }
  destruct (findFirst (tradeWhere id) trades) as [t|].
  2: { left. eexists. split_and!; [done..|]. by intros (_ & t & _ & ? & _). }
  destruct (negb (bool_decide (status t = CREATED)) && _) eqn:Hs.
  { apply andb_true_iff in Hs as [H1%negb_true_iff%bool_decide_eq_false H2%negb_true_iff%bool_decide_eq_false].
    left. eexists. split_and!; [done..|]. intros (_ & t' & _ & [= <-] & [?|?] & _); done. }
  destruct (isBuyerOrSeller t w) eqn:Hp; cbn [negb].
  2: { left. eexists. split_and!; [done..|]. intros (_ & t' & _ & [= <-] & _ & w' & [= <-] & ?). congruence. }
  destruct hasStore eqn:Hstore; cbn [negb].
  2: { left. eexists. split_and!; [done..|]. by intros (_ & t' & ? & _). }
  assert (status t = CREATED ∨ status t = FUNDED) as Hst.
  { apply andb_false_iff in Hs as [H%negb_false_iff%bool_decide_eq_true|H%negb_false_iff%bool_decide_eq_true]; auto. }
  destruct (deleteMany _ ms) as [n db] eqn:Hd. destruct (createAll (tradeId t) body db) as [ok ms'] eqn:Hc.
  assert ((deleteMany (K := string * Z) (λ m, bool_decide (m_tradeId m = tradeId t)) ms).2 = db) as He by (by rewrite Hd).
  destruct ok; right; exists t; (split; [eauto 10|]; split; [done|]); rewrite He, Hc; eauto.
Qed.

(** After the deletion no row of the trade is left. *)
Lemma deleted_rows tid (ms : TM) : keyed milestoneKey ms → let ms' := (deleteMany (K := string * Z) (λ m, bool_decide (m_tradeId m = tid)) ms).2 in
  ∀ k, findUnique k ms' = if bool_decide (k.1 = tid) then None else findUnique k ms.
Proof.
  intros Hk ms' k. unfold ms'. rewrite deleteMany_rows. destruct (findUnique k ms) as [r|] eqn:E; [|by case_bool_decide]. cbn.
  pose proof (Hk k r E) as <-. cbn. by case_bool_decide.
Qed.

(** A schedule is set exactly by a party of a trade that is created or funded, from
    milestones with distinct numbers; the schedule of the trade is then those
    milestones and no others, and the schedules of other trades are untouched. *)
Theorem schedule_replaced walletAddress id body now (trades : TT) (ms : TM) : keyed milestoneKey ms →
  let '(a, ms') := postSchedule hasStore walletAddress id body now trades ms in
  ((∃ v, a = Schedule 201 v) ↔ createScheduleBodySchema body = true ∧ NoDup (i_index <$> body) ∧ ∃ t, mayPlan walletAddress id trades t) ∧
  (∀ v, a = Schedule 201 v → ∃ t, mayPlan walletAddress id trades t ∧ milestones v = map (rowOf (tradeId t)) body ∧
     scheduleOf (tradeId t) ms' ≡ₚ map (rowOf (tradeId t)) body ∧ StronglySorted (cmp_le byIndex) (scheduleOf (tradeId t) ms') ∧
     ∀ k, k.1 ≠ tradeId t → findUnique k ms' = findUnique k ms) ∧
  (∀ s, a = Refused s → ms' = ms).
Proof.
  intros Hk. pose proof (postSchedule_cases walletAddress id body now trades ms) as Hcases.
  destruct (postSchedule _ _ _ _ _ _ _) as [a ms']. destruct Hcases as [(s & -> & -> & Hs)|(t & Hm & Hb & Hc)].
  { split_and!; [|done|done]. split; [by intros [? ?]|]. intros (? & _ & ?). by destruct Hs. }
  pose proof (deleted_rows (tradeId t) ms Hk) as Hdel. cbv zeta in Hdel. set (db := (deleteMany _ ms).2) in *.
  pose proof (createAll_spec (tradeId t) body db) as Hspec. pose proof (createAll_frame (tradeId t) body db) as [Hfr Hnew].
  destruct (createAll (tradeId t) body db) as [ok ms'']. destruct Hc as [-> Hc]. cbn in Hfr, Hnew.
  destruct Hspec as [Hok Hrows]. { intros m _. rewrite Hdel. by rewrite bool_decide_true. }
  split_and!.
  - rewrite <-Hok. destruct ok; [destruct Hc as (v & -> & _); split; [eauto|eauto]|subst a; split; [by intros [? ?]|by intros (_ & ? & _)]].
  - intros v Hv. exists t. destruct ok; [|congruence]. destruct Hc as (v' & -> & Hv'). injection Hv as <-.
    assert (NoDup (i_index <$> body)) as Hn by (by apply Hok).
    assert (∀ k r, findUnique k ms'' = Some r → milestoneKey r = k) as Hk'.
    { intros k r [H|(m & _ & -> & ->)]%Hnew; [|done]. rewrite Hdel in H. case_bool_decide; [done|]. by apply Hk. }
    split_and!; [done|done| |apply scheduleOf_sorted|].
    + unfold scheduleOf. rewrite js_sort_perm. apply NoDup_Permutation.
      * eapply NoDup_fmap_1, (findMany_NoDup milestoneKey). exact Hk'.
      * apply (NoDup_fmap_1 milestoneIndex). change (map (rowOf (tradeId t)) body) with (rowOf (tradeId t) <$> body). by rewrite <-list_fmap_compose.
      * intros r. rewrite (findMany_elem (K := string * Z)), list_elem_of_In, in_map_iff. setoid_rewrite <-list_elem_of_In. split.
        -- intros (k & [H|(m & ? & _ & ->)]%Hnew & Ht%bool_decide_eq_true); [|eauto]. rewrite Hdel in H.
           case_bool_decide as Hkt; [done|]. apply Hk in H. subst k. by destruct Hkt.
        -- intros (m & <- & Hin). exists (tradeId t, i_index m). split; [by apply Hrows|]. by apply bool_decide_eq_true.
    + intros k Hne. rewrite Hfr, Hdel by (intros m _ ->; done). by rewrite bool_decide_false.
  - intros s ->. destruct ok; [by destruct Hc as (? & ? & _)|done].
Qed.

(** A number that occurs twice fails the request after the old schedule is gone: of it
    nothing is left, and of the new one a part. *)
Theorem duplicate_index_loses walletAddress id body now (trades : TT) (ms : TM) t : keyed milestoneKey ms →
  mayPlan walletAddress id trades t → createScheduleBodySchema body = true → ¬ NoDup (i_index <$> body) →
  let '(a, ms') := postSchedule hasStore walletAddress id body now trades ms in
  a = ScheduleError ∧ ∀ r, r ∈ scheduleOf (tradeId t) ms' → ∃ m, m ∈ body ∧ r = rowOf (tradeId t) m.
Proof.
  intros Hk Hm Hb Hn. pose proof (postSchedule_cases walletAddress id body now trades ms) as Hcases.
  destruct (postSchedule _ _ _ _ _ _ _) as [a ms']. destruct Hcases as [(s & -> & -> & Hs)|(t' & Hm' & _ & Hc)]; [destruct Hs; eauto|].
  assert (t' = t) as -> by (destruct Hm as (_ & H1 & _), Hm' as (_ & H2 & _); congruence).
  pose proof (deleted_rows (tradeId t) ms Hk) as Hdel. cbv zeta in Hdel. set (db := (deleteMany _ ms).2) in *.
  pose proof (createAll_spec (tradeId t) body db) as Hspec. pose proof (createAll_frame (tradeId t) body db) as [_ Hnew].
  destruct (createAll (tradeId t) body db) as [ok ms'']. destruct Hc as [-> Hc]. cbn in Hnew.
  destruct Hspec as [Hok _]. { intros m _. rewrite Hdel. by rewrite bool_decide_true. }
  destruct ok; [by destruct Hn; apply Hok|]. split; [done|]. intros r (k & [H|(m & ? & _ & ->)]%Hnew & Ht)%scheduleOf_elem; [|eauto].
  rewrite Hdel in H. case_bool_decide as Hkt; [done|]. apply Hk in H. subst k. by destruct Hkt.
Qed.
End ScheduleFacts.

(** ** Releases are claimed first *)

Section ReleaseFacts.
Context (sha256 : string → string) (adminPubkeysRaw : string) (hasStore : bool).
Context {TT TM TI : Type} `{!Table Z Trade TT, !Table (string * Z) Milestone TM, !Table string PayoutIntent.PayoutIntent TI,
  !TableLaws Z Trade TT, !TableLaws (string * Z) Milestone TM, !TableLaws string PayoutIntent.PayoutIntent TI}.
Notation releasable := (releasable adminPubkeysRaw hasStore).
Notation release := (releaseMilestone sha256 adminPubkeysRaw hasStore).

(** The trade a request names: by its id on the chain, or by the number of its row. *)
Definition named (id : string) (t : Trade) : Prop :=
  tradeId t = id ∨ 0 < t_id t ∧ StringToNumber id = JInt (t_id t).

(** The conditions of a release, spelled out: the wallet of the token is not blank and is
    the buyer, or stands in the list of administrators, in lower case both; the trade is
    the one the database returns among those named, and has been funded; the milestone is
    on its schedule, unreleased and due. *)
Record due (req : ReleaseRequest) (now : Z) (trades : TT) (ms : TM) (t : Trade) (wallet : string) (m : Milestone) : Prop := {
  due_wallet : ∃ raw, r_wallet req = Some raw ∧ wallet = trim raw ∧ wallet ≠ ""%string;
  due_trade : named (r_id req) t ∧ findFirst (K := Z) (tradeWhere (r_id req)) trades = Some t;
  due_status : status t = FUNDED ∨ status t = DELIVERED;
  due_caller : toLowerCase wallet = toLowerCase (buyerAddress t) ∨
    ∃ entry, entry ∈ split "," adminPubkeysRaw ∧ toLowerCase wallet = trim entry;
  due_store : hasStore = true;
  due_milestone : (∃ row, findUnique row ms = Some m) ∧ m_tradeId m = tradeId t ∧ milestoneIndex m = r_index req;
  due_index : 0 ≤ r_index req;
  due_unreleased : releasedAt m = None;
  due_now : dueAt m ≤ now;
}.

Lemma caller_spec raw w : caller raw = Some w ↔ ∃ r, raw = Some r ∧ w = trim r ∧ w ≠ ""%string.
Proof. unfold caller. destruct raw as [r|]; [case_bool_decide|]; naive_solver. Qed.

Lemma tradeWhere_spec id t : tradeWhere id t = true ↔ named id t.
Proof.
  unfold tradeWhere, named. rewrite orb_true_iff, bool_decide_eq_true. destruct (StringToNumber id); try naive_solver.
  rewrite andb_true_iff, Z.ltb_lt, Z.eqb_eq. split; intros [H|H]; [by left|right|by left|right]; [destruct H as [? ->]; done|].
  destruct H as [H [= ->]]. done.
Qed.

Lemma toLowerCase_nonempty w : w ≠ ""%string → toLowerCase w ≠ ""%string.
Proof. by destruct w. Qed.

Lemma canRelease_spec t w : w ≠ ""%string → canRelease adminPubkeysRaw t w = true ↔
  toLowerCase w = toLowerCase (buyerAddress t) ∨ ∃ entry, entry ∈ split "," adminPubkeysRaw ∧ toLowerCase w = trim entry.
Proof.
  intros Hw. unfold canRelease, AdminGate.getMediatorAllowlist. rewrite orb_true_iff, !bool_decide_eq_true, list_elem_of_In, filter_In, in_map_iff.
  pose proof (toLowerCase_nonempty w Hw). rewrite negb_true_iff, bool_decide_eq_false. setoid_rewrite list_elem_of_In. naive_solver.
Qed.

Lemma releasable_due req now (trades : TT) (ms : TM) : keyed milestoneKey ms → ∀ t w m,
  releasable req now trades ms = Ok (t, w, m) ↔ due req now trades ms t w m.
Proof.
  intros Hk t w m. unfold EscrowRelease.releasable. destruct (Z.ltb_spec (r_index req) 0); [split; [done|intros []; lia]|].
  destruct (caller (r_wallet req)) as [w'|] eqn:Hw; [|split; [done|intros [Hw'%caller_spec]; congruence]].
  pose proof Hw as (raw & Hraw & Hww & Hne)%caller_spec.
  assert (∀ t' w'' m', due req now trades ms t' w'' m' → w'' = w') as Hwu by (intros t' w'' m' [Hw'%caller_spec]; congruence).
  destruct (findFirst _ trades) as [t'|] eqn:Ht; [|split; [done|intros [_ [_ ?]]; congruence]].
  assert (∀ t'' w'' m', due req now trades ms t'' w'' m' → t'' = t') as Htu by (intros t'' w'' m' [_ [_ ?]]; congruence).
  assert (named (r_id req) t') as Hnamed by (apply findFirst_Some in Ht as (? & _ & Ht); by apply tradeWhere_spec).
  destruct (negb (bool_decide (status t' = FUNDED)) && _) eqn:Hs.
  { apply andb_true_iff in Hs as [H1%negb_true_iff%bool_decide_eq_false H2%negb_true_iff%bool_decide_eq_false].
    split; [done|]. intros Hd. rewrite <-(Htu _ _ _ Hd) in *. by destruct (due_status _ _ _ _ _ _ _ Hd). }
  assert (status t' = FUNDED ∨ status t' = DELIVERED) as Hst.
  { apply andb_false_iff in Hs as [H'%negb_false_iff%bool_decide_eq_true|H'%negb_false_iff%bool_decide_eq_true]; auto. }
  pose proof (canRelease_spec t' w' Hne) as Hcan.
  destruct (canRelease _ t' w') eqn:Hc; cbn [negb].
  2: { split; [done|]. intros Hd. pose proof (due_caller _ _ _ _ _ _ _ Hd) as Hc'. rewrite (Htu _ _ _ Hd), (Hwu _ _ _ Hd), <-Hcan in Hc'. done. }
  destruct (hasStore) eqn:Hstore; cbn [negb]; [|split; [done|intros []; congruence]].
  assert (∀ t'' w'' m', due req now trades ms t'' w'' m' → m' ∈ scheduleOf (tradeId t') ms) as Hin.
  { intros t'' w'' m' Hd. rewrite <-(Htu _ _ _ Hd). apply scheduleOf_elem. destruct (due_milestone _ _ _ _ _ _ _ Hd) as ([k ?] & ? & _). eauto. }
  destruct (scheduleOf (tradeId t') ms) as [|x l] eqn:El.
  { split; [done|]. intros Hd%Hin. by apply elem_of_nil in Hd. }
  rewrite <-El in *. destruct (forallb _ _) eqn:Hall.
  { split; [done|]. intros Hd. rewrite forallb_forall in Hall. pose proof (Hin _ _ _ Hd) as Hm.
    apply list_elem_of_In in Hm. apply Hall in Hm. by rewrite (due_unreleased _ _ _ _ _ _ _ Hd) in Hm. }
  destruct (List.find _ _) as [m'|] eqn:Hf.
  - pose proof Hf as [Hin' Hidx%Z.eqb_eq]%find_some. apply list_elem_of_In, scheduleOf_elem in Hin' as (k' & Hk' & Ht').
    assert (∀ t'' w'' m0, due req now trades ms t'' w'' m0 → m0 = m') as Huniq.
    { intros t'' w'' m0 Hd. destruct (due_milestone _ _ _ _ _ _ _ Hd) as ([k Hk0] & Ht0 & Hi). rewrite (Htu _ _ _ Hd) in Ht0.
      pose proof (Hk _ _ Hk0) as E1. pose proof (Hk _ _ Hk') as E2. unfold milestoneKey in *. congruence. }
    destruct (releasedAt m') as [r|] eqn:Hr.
    { split; [done|]. intros Hd. pose proof (due_unreleased _ _ _ _ _ _ _ Hd) as Hn. rewrite (Huniq _ _ _ Hd) in Hn. congruence. }
    destruct (Z.ltb_spec now (dueAt m')).
    { split; [done|]. intros Hd. pose proof (due_now _ _ _ _ _ _ _ Hd) as Hn. rewrite (Huniq _ _ _ Hd) in Hn. lia. }
    split.
    + intros [= <- <- <-]. constructor; eauto 10; try done. by apply Hcan.
    + intros Hd. by rewrite (Htu _ _ _ Hd), (Hwu _ _ _ Hd), (Huniq _ _ _ Hd).
  - split; [done|]. intros Hd. pose proof (Hin _ _ _ Hd) as Hm. apply list_elem_of_In in Hm. pose proof (find_none _ _ Hf _ Hm) as Hn. cbn in Hn.
    destruct (due_milestone _ _ _ _ _ _ _ Hd) as (_ & _ & Hi). lia.
Qed.

Lemma due_unique req now (trades : TT) (ms : TM) t w m t' w' m' : keyed milestoneKey ms →
  due req now trades ms t w m → due req now trades ms t' w' m' → (t, w, m) = (t', w', m').
Proof. intros Hk H1%(releasable_due _ _ _ _ Hk) H2%(releasable_due _ _ _ _ Hk). congruence. Qed.

(** The key of a payout: the first [Idempotency-Key] header, trimmed, unless it is blank, or
    else the digest of what is paid. *)
Definition payoutKey (req : ReleaseRequest) (t : Trade) (m : Milestone) (k : string) : Prop :=
  (∃ raw rest, r_header req = raw :: rest ∧ k = trim raw ∧ k ≠ ""%string) ∨
  (∀ raw rest, r_header req = raw :: rest → trim raw = ""%string) ∧
  k = "derived:" +:+ sha256 ("MILESTONE_RELEASE|" +:+ tradeId t +:+ "|" +:+ toString (r_index req) +:+ "|" +:+
                             amountUsdc m +:+ "|" +:+ toLowerCase (sellerAddress t)).

Lemma claimKey_spec req t w m k : k = PayoutIntent.claimKey sha256 (payoutInput req t w m) ↔ payoutKey req t m k.
Proof.
  unfold payoutKey, PayoutIntent.claimKey, PayoutIntent.derivePayoutIdempotencyKey, PayoutIntent.payoutIdentity, payoutInput, idempotencyKeyFrom.
  cbn -[append]. change (join "|" _) with ("MILESTONE_RELEASE" +:+ String "|" (tradeId t +:+ String "|" (toString (r_index req) +:+ String "|"
    (amountUsdc m +:+ String "|" (toLowerCase (sellerAddress t)))))).
  destruct (r_header req) as [|raw rest]; [naive_solver|].
  case_bool_decide as Hb; split; [naive_solver| |naive_solver|]; intros [(r & l & [= <- <-] & -> & Hn)|[Hn ->]]; try done.
  by destruct Hb; apply (Hn raw rest).
Qed.

(** The intent a request records. *)
Definition recorded (req : ReleaseRequest) (t : Trade) (w : string) (m : Milestone) (i : PayoutIntent.PayoutIntent) : Prop :=
  PayoutIntent.kind i = PayoutIntent.MILESTONE_RELEASE ∧ PayoutIntent.tradeId i = tradeId t ∧ PayoutIntent.milestoneIndex i = Some (r_index req) ∧
  PayoutIntent.amountUsdc i = amountUsdc m ∧ PayoutIntent.destination i = sellerAddress t ∧ PayoutIntent.requestedBy i = w ∧
  PayoutIntent.status i = PayoutIntent.PENDING.

(** The answer to a request whose key is taken. *)
Definition inUse (now : Z) (i : PayoutIntent.PayoutIntent) : ReleaseAnswer :=
  match PayoutIntent.status i with
  | PayoutIntent.CONFIRMED => AlreadyReleased (PayoutIntent.bumpDuplicate now i)
  | _ => InProgress (PayoutIntent.bumpDuplicate now i)
  end.

(** One request that passes the checks. *)
Lemma release_claimed req buildTx now (trades : TT) (ms : TM) (intents : TI) t w m : releasable req now trades ms = Ok (t, w, m) →
  let k := PayoutIntent.claimKey sha256 (payoutInput req t w m) in
  let '(a, intents') := release req buildTx now trades ms intents in
  (∀ k', k' ≠ k → findUnique k' intents' = findUnique k' intents) ∧
  match findUnique k intents with
  | Some i => a = inUse now i ∧ findUnique k intents' = Some (PayoutIntent.bumpDuplicate now i)
  | None => a = match buildTx (tradeId t) w (r_index req) with Some xdr => Issued xdr k | None => NextError end ∧
      ∃ i, findUnique k intents' = Some i ∧ recorded req t w m i
  end.
Proof.
  intros Hr k. unfold releaseMilestone. rewrite Hr. fold k. set (input := payoutInput req t w m) in *.
  destruct (findUnique k intents) as [i|] eqn:Hi.
  - destruct (PayoutIntent.claim_existing sha256 intents input now i Hi) as (db & -> & Hnew & Ho). unfold inUse.
    destruct (PayoutIntent.status i); rewrite ?bool_decide_true, ?bool_decide_false by done; cbn; by split_and!.
  - destruct (PayoutIntent.claim_recorded sha256 intents input now Hi) as (row & db & -> & Hrow & Hfields & Hnew & Ho). cbn. rewrite Hrow. fold k.
    destruct (buildTx _ _ _); split_and!; try done; exists row; split; try done; unfold recorded; naive_solver.
Qed.

(** C27: A request whose milestone is due is issued a transaction exactly when its payout key is
    free and the builder succeeds, and the intent recorded under the key is that payout; while
    a key is in use (and not marked failed) the request is told so and nothing is issued. A
    request with nothing due gets an error of the client and claims nothing; some trade is
    found whenever one is named, and no intent but that of the key is touched. *)
Theorem release_spec req buildTx now (trades : TT) (ms : TM) (intents : TI) : keyed milestoneKey ms →
  (∀ t w m k, due req now trades ms t w m → payoutKey req t m k → ¬ PayoutIntent.isFailed intents k) →
  let '(a, intents') := release req buildTx now trades ms intents in
  (∀ xdr k, a = Issued xdr k ↔ ∃ t w m, due req now trades ms t w m ∧ payoutKey req t m k ∧
     findUnique k intents = None ∧ buildTx (tradeId t) w (r_index req) = Some xdr) ∧
  (∀ t w m k, due req now trades ms t w m → payoutKey req t m k →
     (∀ k', k' ≠ k → findUnique k' intents' = findUnique k' intents) ∧
     match findUnique k intents with
     | Some i => a = inUse now i ∧ findUnique k intents' = Some (PayoutIntent.bumpDuplicate now i)
     | None => ∃ i, findUnique k intents' = Some i ∧ recorded req t w m i
     end) ∧
  ((∃ s, a = Failed s) ↔ ¬ ∃ t w m, due req now trades ms t w m) ∧
  (∀ s, a = Failed s → intents' = intents ∧ 400 ≤ s < 500) ∧
  (∀ row t, findUnique row trades = Some t → named (r_id req) t →
     ∃ t', named (r_id req) t' ∧ findFirst (K := Z) (tradeWhere (r_id req)) trades = Some t').
Proof.
  intros Hk Hlive. pose proof (releasable_due req now trades ms Hk) as Hdue.
  assert (∀ row t, findUnique row trades = Some t → named (r_id req) t →
     ∃ t', named (r_id req) t' ∧ findFirst (K := Z) (tradeWhere (r_id req)) trades = Some t') as Hnamed.
  { intros row t Ht Hn. destruct (findFirst _ trades) as [t'|] eqn:Hf.
    - exists t'. split; [|done]. apply findFirst_Some in Hf as (? & _ & Hp). by apply tradeWhere_spec.
    - rewrite (findFirst_None (K := Z)) in Hf. specialize (Hf _ _ Ht). apply tradeWhere_spec in Hn. congruence. }
  destruct (releasable req now trades ms) as [[[t w] m]|s] eqn:Hr.
  2: { unfold releaseMilestone. rewrite Hr. split_and!; [| | | |done].
       - intros xdr k. split; [done|]. by intros (t & w & m & [=]%Hdue & _).
       - intros t w m k Hd%Hdue. done.
       - split; [|eauto]. intros _ (t & w & m & [=]%Hdue).
       - intros s' [= ->]. split; [done|]. revert Hr. unfold EscrowRelease.releasable.
         repeat case_match; intros E; simplify_eq; lia. }
  pose proof (proj1 (Hdue t w m) eq_refl) as Hd.
  pose proof (release_claimed req buildTx now trades ms intents t w m Hr) as Hrel.
  assert (∀ t' w' m' k, due req now trades ms t' w' m' → payoutKey req t' m' k →
            (t', w', m') = (t, w, m) ∧ k = PayoutIntent.claimKey sha256 (payoutInput req t w m)) as Huniq.
  { intros t' w' m' k Hd' Hp. pose proof (due_unique _ _ _ _ _ _ _ _ _ _ Hk Hd' Hd) as [= -> -> ->]. split; [done|]. by apply claimKey_spec. }
  assert (payoutKey req t m (PayoutIntent.claimKey sha256 (payoutInput req t w m))) as Hpk by (by apply (claimKey_spec req t w m)).
  specialize (Hlive _ _ _ _ Hd Hpk). revert Hrel Huniq Hpk Hlive. generalize (PayoutIntent.claimKey sha256 (payoutInput req t w m)) as k.
  destruct (release req buildTx now trades ms intents) as [a intents']. intros k [Ho Ha] Huniq Hpk Hlive.
  assert (∀ s, a ≠ Failed s) as Hnf.
  { intros s ->. destruct (findUnique k intents) as [i|]; [unfold inUse in Ha; destruct (PayoutIntent.status i)|destruct (buildTx _ _ _)]; by destruct Ha. }
  split_and!; [| | | |done].
  - intros xdr k0. split.
    + intros ->. exists t, w, m. destruct (findUnique k intents) as [i|] eqn:Hi.
      * unfold inUse in Ha. destruct (PayoutIntent.status i); by destruct Ha.
      * destruct (buildTx _ _ _); destruct Ha as [Ha _]; [injection Ha as -> ->|]; done.
    + intros (t' & w' & m' & Hd' & Hp' & Hfree & Hb). destruct (Huniq _ _ _ _ Hd' Hp') as [[= -> -> ->] ->]. rewrite Hfree, Hb in Ha. by destruct Ha.
  - intros t' w' m' k' Hd' Hp'. destruct (Huniq _ _ _ _ Hd' Hp') as [[= -> -> ->] ->]. split; [done|]. destruct (findUnique k intents); tauto.
  - split; [intros [s ->]; by destruct (Hnf s)|]. intros Hn. destruct Hn. eauto.
  - intros s ->. by destruct (Hnf s).
Qed.

(** ** Runs of requests, with whatever else happens to the intents *)

Inductive event : Type :=
| Ask (req : ReleaseRequest) (buildTx : string → string → Z → option string) (now : Z) (trades : TT) (ms : TM)
| Other (op : PayoutIntent.payoutOp * Z).

(** What a payout is: trade, milestone, amount and destination. *)
Notation Payout := (string * Z * string * string)%type.
Definition payoutOf (req : ReleaseRequest) (t : Trade) (m : Milestone) : Payout :=
  (tradeId t, r_index req, amountUsdc m, toLowerCase (sellerAddress t)).

Definition eventStep (intents : TI) (e : event) : TI * option (string * Payout) :=
  match e with
  | Ask req buildTx now trades ms =>
      let '(a, intents') := release req buildTx now trades ms intents in
      (intents', match a, releasable req now trades ms with Issued _ k, Ok (t, _, m) => Some (k, payoutOf req t m) | _, _ => None end)
  | Other op => ((PayoutIntent.step sha256 intents op).1, None)
  end.

(** The intents after a sequence of events. *)
Definition runEvents (intents : TI) (es : list event) : TI := foldl (λ intents e, (eventStep intents e).1) intents es.

(** An intent records a payout. *)
Definition pays (p : Payout) (i : PayoutIntent.PayoutIntent) : Prop :=
  p = (PayoutIntent.tradeId i, default (-1) (PayoutIntent.milestoneIndex i), PayoutIntent.amountUsdc i, toLowerCase (PayoutIntent.destination i)).

(** The key a payout has when the client names none. *)
Definition derivedKey (p : Payout) : string :=
  let '(tid, idx, amount, seller) := p in
  "derived:" +:+ sha256 (join "|" [PayoutIntent.kindName PayoutIntent.MILESTONE_RELEASE; tid; toString idx; amount; seller]).

Definition headerless (e : event) : Prop := match e with Ask req _ _ _ _ => idempotencyKeyFrom (r_header req) = None | Other _ => True end.

Lemma release_keeps req buildTx now (trades : TT) (ms : TM) intents : PayoutIntent.keeps intents (release req buildTx now trades ms intents).2.
Proof.
  destruct (releasable req now trades ms) as [[[t w] m]|s] eqn:Hr; [|unfold releaseMilestone; rewrite Hr; apply PayoutIntent.keeps_refl].
  pose proof (release_claimed req buildTx now trades ms intents t w m Hr) as H. destruct (release _ _ _ _ _ _) as [a intents']. destruct H as [Ho H].
  intros k i Hi. destruct (decide (k = PayoutIntent.claimKey sha256 (payoutInput req t w m))) as [->|Hne]; [|exists i; by rewrite Ho].
  rewrite Hi in H. destruct H as [_ H]. by exists (PayoutIntent.bumpDuplicate now i).
Qed.

Lemma eventStep_facts intents e : PayoutIntent.keeps intents (eventStep intents e).1 ∧
  ∀ k p, (eventStep intents e).2 = Some (k, p) →
    findUnique k intents = None ∧ (∃ i, findUnique k (eventStep intents e).1 = Some i ∧ pays p i) ∧ (headerless e → k = derivedKey p).
Proof.
  destruct e as [req buildTx now trades ms|op]; cbn [eventStep].
  2: { split; [exact (PayoutIntent.step_keeps sha256 intents op)|by intros]. }
  pose proof (release_keeps req buildTx now trades ms intents) as Hkeep.
  destruct (releasable req now trades ms) as [[[t w] m]|s] eqn:Hr.
  2: { destruct (release _ _ _ _ _ _) as [[] ?]; by split. }
  pose proof (release_claimed req buildTx now trades ms intents t w m Hr) as H. destruct (release _ _ _ _ _ _) as [a intents']. cbn in Hkeep.
  split; [exact Hkeep|]. destruct a as [| | |xdr k'|]; try done. intros k p [= -> <-]. destruct H as [_ H].
  destruct (findUnique _ intents) as [i|] eqn:Hi; [unfold inUse in H; destruct (PayoutIntent.status i); by destruct H|].
  destruct H as [Ha (i & Hnew & Hrec)]. destruct (buildTx _ _ _); [|done]. injection Ha as _ ->. split_and!; [done| |].
  - exists i. split; [done|]. unfold recorded in Hrec. unfold pays, payoutOf. destruct Hrec as (_ & -> & -> & -> & -> & _). done.
  - intros Hh. cbn in Hh. unfold PayoutIntent.claimKey, PayoutIntent.derivePayoutIdempotencyKey, PayoutIntent.payoutIdentity, payoutInput.
    cbn -[derivedKey]. by rewrite Hh.
Qed.

Lemma runEvents_keeps es : ∀ intents, PayoutIntent.keeps intents (runEvents intents es).
Proof.
  induction es as [|e es IH]; intros intents; [apply PayoutIntent.keeps_refl|]. cbn.
  eapply PayoutIntent.keeps_trans; [apply eventStep_facts|apply IH].
Qed.

(** C15: Once a transaction has been issued for a payout, then through any requests, submissions,
    confirmations, failures of other payouts and sweeps that do not mark its key failed, no
    request is issued another transaction under that key; nor, while the clients name no keys
    of their own, another one for that payout, that is for the same milestone of the same trade
    with its amount and destination. The intent of the key still records the payout, and every
    request for the key that is otherwise due is told that it is in progress or already
    released. *)
Theorem one_transaction_per_payout (intents : TI) e e' es k p :
  (eventStep intents e).2 = Some (k, p) →
  let start := (eventStep intents e).1 in
  (∀ n, ¬ PayoutIntent.isFailed (runEvents start (take n es)) k) →
  let intents' := runEvents start es in
  (∀ k' p', (eventStep intents' e').2 = Some (k', p') → k' ≠ k ∧ (headerless e → headerless e' → p' ≠ p)) ∧
  ∃ i, findUnique k intents' = Some i ∧ pays p i ∧ PayoutIntent.status i ∈ [PayoutIntent.PENDING; PayoutIntent.SUBMITTED; PayoutIntent.CONFIRMED] ∧
    ∀ req buildTx now trades ms t w m, keyed milestoneKey ms → due req now trades ms t w m → payoutKey req t m k →
      (release req buildTx now trades ms intents').1 = inUse now i.
Proof.
  intros Hg. cbv zeta. intros Hfail. destruct (eventStep_facts intents e) as [_ H]. destruct (H _ _ Hg) as (_ & (i0 & Hi0 & Hp0) & Hd).
  destruct (runEvents_keeps es _ _ _ Hi0) as (i & Hi & Hsame). specialize (Hfail (length es)). rewrite firstn_all in Hfail.
  set (intents' := runEvents _ es) in *. split.
  - intros k' p' Hg'. destruct (eventStep_facts intents' e') as [_ H']. destruct (H' _ _ Hg') as (Hn & _ & Hd').
    assert (k' ≠ k) as Hne by congruence. split; [done|]. intros Hh Hh' ->. by rewrite (Hd Hh), (Hd' Hh') in Hne.
  - exists i. split_and!; [done| | |].
    + destruct Hsame as (_ & _ & Ht & Hm & Ha & Hdest & _). unfold pays in *. by rewrite <-Ht, <-Hm, <-Ha, <-Hdest.
    + destruct (PayoutIntent.status i) eqn:Hs; [set_solver..|]. destruct Hfail. by exists i.
    + intros req buildTx now trades ms t w m Hk Hdue%(releasable_due _ _ _ _ Hk) Hpk%(claimKey_spec req t w m).
      pose proof (release_claimed req buildTx now trades ms intents' t w m Hdue) as Hrel. destruct (release _ _ _ _ _ _) as [a db].
      destruct Hrel as [_ Hrel]. rewrite <-Hpk, Hi in Hrel. by destruct Hrel.
Qed.

(** A client that names a fresh key is issued another transaction for a milestone whose
    payout is under way or even confirmed. *)
Theorem header_bypasses_guard req buildTx now (trades : TT) (ms : TM) (intents : TI) t w m k xdr :
  releasable req now trades ms = Ok (t, w, m) → idempotencyKeyFrom (r_header req) = Some k → findUnique k intents = None →
  buildTx (tradeId t) w (r_index req) = Some xdr →
  (release req buildTx now trades ms intents).1 = Issued xdr k.
Proof.
  intros Hr Hh Hk Hb. unfold releaseMilestone. rewrite Hr.
  assert (PayoutIntent.claimKey sha256 (payoutInput req t w m) = k) as Hkey by (unfold PayoutIntent.claimKey; cbn; by rewrite Hh).
  destruct (PayoutIntent.claim_fresh sha256 intents (payoutInput req t w m) now) as (row & db & -> & _ & _ & Hrow & _); [by rewrite Hkey|].
  cbn. by rewrite Hb, Hrow, Hkey.
Qed.

(** When the transaction cannot be built the key stays claimed: the next request is told
    that a release is in progress. *)
Theorem unbuilt_release_stays req buildTx buildTx' now now' (trades : TT) (ms : TM) (intents intents' : TI) t w m :
  releasable req now trades ms = Ok (t, w, m) → releasable req now' trades ms = Ok (t, w, m) →
  release req buildTx now trades ms intents = (NextError, intents') → findUnique (PayoutIntent.claimKey sha256 (payoutInput req t w m)) intents = None →
  ∃ i, (release req buildTx' now' trades ms intents').1 = InProgress i.
Proof.
  intros Hr Hr' Hrel Hfree. unfold releaseMilestone in Hrel. rewrite Hr in Hrel.
  destruct (PayoutIntent.claim_fresh sha256 intents (payoutInput req t w m) now Hfree) as (row & db & Hc & Hst & _ & _ & Hnew & _).
  rewrite Hc in Hrel. cbn in Hrel. destruct (buildTx _ _ _); [done|]. injection Hrel as <-.
  unfold releaseMilestone. rewrite Hr'. destruct (PayoutIntent.claim_existing sha256 db (payoutInput req t w m) now' row Hnew) as (db' & -> & _).
  rewrite bool_decide_false by (by rewrite Hst). cbn. eauto.
Qed.
End ReleaseFacts.

(** ** Concrete runs *)

Definition sampleTrades : gmap Z Trade := {[
  1 := {| t_id := 1; tradeId := "2"; buyerAddress := "GB"; sellerAddress := "GS"; status := FUNDED |};
  2 := {| t_id := 2; tradeId := "900"; buyerAddress := "GB"; sellerAddress := "GX"; status := FUNDED |} ]}.
Definition firstHalf : MilestoneInput := {| i_index := 0; i_amount := "50.5"; i_dueAt := 1000; i_hash := None |}.
Definition secondHalf : MilestoneInput := {| i_index := 1; i_amount := "49.5"; i_dueAt := 2000; i_hash := None |}.
Definition noMilestones : gmap (string * Z) Milestone := ∅.
Definition plannedByBuyer := postSchedule true (Some "gb"%string) "900" [secondHalf; firstHalf] 500 sampleTrades noMilestones.

(** A number names a trade by its id on the chain or by its row: here "2" is both, and the
    request goes to whichever the database returns first. *)
Example ambiguous_trade : map tradeId (List.filter (tradeWhere "2") (map snd (map_to_list sampleTrades))) ≡ₚ ["2"; "900"]%string.
Proof. vm_compute. apply Permutation_refl || apply perm_swap. Qed.

(** The next release date of the answer is that of the first milestone of the request that
    is still to come, not the earliest. *)
Example next_release_by_request_order :
  match plannedByBuyer with
  | (Schedule 201 v, ms) => nextReleaseDate v = Some 2000 ∧
      match getSchedule true (Some "anybody"%string) "900" 500 sampleTrades ms with Schedule 200 v => nextReleaseDate v = Some 1000 | _ => False end
  | _ => False
  end.
Proof. vm_compute. done. Qed.

(** An administrator whose key is listed in capitals, as Stellar keys are, may not release. *)
Example admin_in_capitals_refused : canRelease "GADMIN" {| t_id := 1; tradeId := "2"; buyerAddress := "GB"; sellerAddress := "GS"; status := FUNDED |} "GADMIN" = false.
Proof. reflexivity. Qed.

Lemma noMilestones_keyed : keyed milestoneKey noMilestones.
Proof. intros k m Hm. cbn in Hm. unfold noMilestones in Hm. rewrite lookup_empty in Hm. discriminate Hm. Qed.

Lemma schedule_replaced_witness : ∃ v, plannedByBuyer.1 = Schedule 201 v ∧ scheduleOf "900" plannedByBuyer.2 ≡ₚ map (rowOf "900") [secondHalf; firstHalf].
Proof.
  pose proof (schedule_replaced true (Some "gb"%string) "900" [secondHalf; firstHalf] 500 sampleTrades noMilestones noMilestones_keyed) as H.
  fold plannedByBuyer in H.
  assert (∃ v, plannedByBuyer.1 = Schedule 201 v) as [v Hv] by (vm_compute; eexists; reflexivity).
  revert H Hv. generalize plannedByBuyer as r. intros [a ms] H Hv. cbn [fst snd] in *. subst a.
  destruct H as (_ & H & _). destruct (H v eq_refl) as (t & Hm & _ & Hp & _). exists v. split; [reflexivity|].
  assert (tradeId t = "900"%string) as <-; [|exact Hp].
  destruct Hm as (_ & Hf & _). vm_compute in Hf. injection Hf as <-. reflexivity.
Defined.

Definition halves : gmap (string * Z) Milestone := {[ ("900"%string, 0) := rowOf "900" firstHalf; ("900"%string, 1) := rowOf "900" secondHalf ]}.
Lemma halves_keyed : keyed milestoneKey halves.
Proof. intros k m Hm. cbn in Hm. unfold halves in Hm. apply lookup_insert_Some in Hm as [[<- <-]|[_ Hm]]; [reflexivity|]. apply lookup_singleton_Some in Hm as [<- <-]. reflexivity. Qed.

Definition half (header : list string) : ReleaseRequest := {| r_wallet := Some "GB"%string; r_id := "900"; r_index := 0; r_header := header |}.
Definition build (tid w : string) (n : Z) : option string := Some ("xdr-" +:+ tid)%string.
Definition noIntents : gmap string PayoutIntent.PayoutIntent := ∅.
Definition released := releaseMilestone (λ s, s) "" true (half []) build 1500 sampleTrades halves noIntents.

Lemma release_spec_witness : ∃ k, released.1 = Issued "xdr-900" k ∧
  (∃ t w m, due "" true (half []) 1500 sampleTrades halves t w m ∧ payoutKey (λ s, s) (half []) t m k) ∧
  k = "derived:MILESTONE_RELEASE|900|0|50.5|gx"%string.
Proof.
  pose proof (release_spec (λ s, s) "" true (half []) build 1500 sampleTrades halves noIntents halves_keyed) as H. unfold released.
  destruct (releaseMilestone _ _ _ _ _ _ _ _ _) as [a intents] eqn:E.
  assert (a = Issued "xdr-900" "derived:MILESTONE_RELEASE|900|0|50.5|gx") as -> by (apply (f_equal fst) in E; vm_compute in E; symmetry; exact E).
  destruct H as (H1 & _). { intros t w m k _ _ (i & Hi & _). cbn in Hi. unfold noIntents in Hi. rewrite lookup_empty in Hi. discriminate Hi. }
  eexists. split; [reflexivity|]. split; [|reflexivity].
  destruct (proj1 (H1 _ _) eq_refl) as (t & w & m & Hd & Hp & _). exists t, w, m. split; [exact Hd|exact Hp].
Defined.

(** The same milestone twice, with another key. *)
Example second_transaction : (releaseMilestone (λ s, s) "" true (half []) build 1500 sampleTrades halves released.2).1 = InProgress (PayoutIntent.bumpDuplicate 1500
    (PayoutIntent.Build_PayoutIntent "derived:MILESTONE_RELEASE|900|0|50.5|gx" PayoutIntent.MILESTONE_RELEASE "900" (Some 0) "50.5" "GX" "GB"
       PayoutIntent.PENDING None 0 None None None 1500)) ∧
  (releaseMilestone (λ s, s) "" true (half ["mine"%string]) build 1500 sampleTrades halves released.2).1 = Issued "xdr-900" "mine".
Proof. vm_compute. done. Qed.

(** A release, the same request again, its submission and confirmation: the next request is
    told that the milestone has been released. *)
Lemma one_transaction_per_payout_witness :
  let ask now := Ask (half []) build now sampleTrades halves in
  let k := "derived:MILESTONE_RELEASE|900|0|50.5|gx"%string in
  let es := [ask 1600; Other (PayoutIntent.RecordSubmission k "h", 1700); Other (PayoutIntent.Confirm k None, 1800)] in
  let start := (eventStep (λ s, s) "" true noIntents (ask 1500)).1 in
  (∀ k' p', (eventStep (λ s, s) "" true (runEvents (λ s, s) "" true start es) (ask 1900)).2 = Some (k', p') → k' ≠ k) ∧
  (PayoutIntent.status <$> findUnique k (runEvents (λ s, s) "" true start es)) = Some PayoutIntent.CONFIRMED.
Proof.
  cbv zeta. split; [|vm_compute; reflexivity]. intros k' p' H.
  refine (proj1 (proj1 (one_transaction_per_payout (λ s, s) "" true noIntents (Ask (half []) build 1500 sampleTrades halves) _ _ _ ("900"%string, 0, "50.5"%string, "gx"%string) _ _) k' p' H)).
  - vm_compute. reflexivity.
  - intros n (i & Hi & Hs). do 3 (destruct n as [|n]; [vm_compute in Hi; injection Hi as <-; discriminate Hs|]).
    cbn [take] in Hi. rewrite firstn_nil in Hi. vm_compute in Hi. injection Hi as <-. discriminate Hs.
Defined.
