(* ===== verification/EventDecoder.v ===== *)
(** * Decoding contract events: [backend/src/lib/eventDecoder.ts], [backend/src/types/generated/events.generated.ts]

    Raw Soroban events to [ParsedEvent]. The SDK's [scValToNative] is a
    parameter that may throw; a raw event's map payload is the list of its
    entries ([entry.key.value], [entry.val.value]). *)

From S2P Require Import Prelude JsString JsValue EventHandlers.

(** ** The generated schema *)

Inductive GeneratedEventType : Type :=
| GInitialized | GTradeCreated | GTradeFunded | GTradeCancelled | GTradeCancelledByBuyer
| GContractUpgraded | GDeliveryConfirmed | GFundsReleased | GDisputeResolved | GEvidenceSubmitted
| GDisputeInitiated | GVideoProofSubmitted | GTradeExpired | GDeadlineExtended | GManifestSubmitted
| GMediatorAdded | GMediatorRemoved | GFeeRateUpdated | GFeesWithdrawn | GPathPaymentInitiated
| GPathPaymentExecuted | GAdminClawback | GClawbackExecuted | GTimelockOperationQueued | GTimelockOperationExecuted
| GTimelockOperationCancelled | GContractUpgradeQueued | GDisputeVoteCast | GDisputeQuorumResolved | GQuorumConfigUpdated
| GMediatorWeightUpdated | GDeadlineExtensionBudget | GExtensionPolicyUpdated.

Definition TOPIC_TO_EVENT_TYPE : list (string * GeneratedEventType) := [
  ("amana", GInitialized); ("TRDCRT", GTradeCreated); ("TRDFND", GTradeFunded);
  ("TRDCAN", GTradeCancelled); ("TCNBYR", GTradeCancelledByBuyer); ("UPGRAD", GContractUpgraded);
  ("DELCNF", GDeliveryConfirmed); ("RELSD", GFundsReleased); ("DISRES", GDisputeResolved);
  ("EVDSUB", GEvidenceSubmitted); ("DISINI", GDisputeInitiated); ("VIDPRF", GVideoProofSubmitted);
  ("TRDEXP", GTradeExpired); ("DEDEXT", GDeadlineExtended); ("MNFST", GManifestSubmitted);
  ("MEDADD", GMediatorAdded); ("MEDREM", GMediatorRemoved); ("FEEUPD", GFeeRateUpdated);
  ("FEEWTH", GFeesWithdrawn); ("PTHINT", GPathPaymentInitiated); ("PTHPAY", GPathPaymentExecuted);
  ("ADMCLW", GAdminClawback); ("CLWBCK", GClawbackExecuted); ("TLKQUE", GTimelockOperationQueued);
  ("TLKEXE", GTimelockOperationExecuted); ("TLKCAN", GTimelockOperationCancelled); ("UPGQUE", GContractUpgradeQueued);
  ("DVOTE", GDisputeVoteCast); ("DQURES", GDisputeQuorumResolved); ("QURCFG", GQuorumConfigUpdated);
  ("MEDWGT", GMediatorWeightUpdated); ("DEDBGT", GDeadlineExtensionBudget); ("EXTPOL", GExtensionPolicyUpdated)]%string.

Definition EVENT_TOPICS (e : GeneratedEventType) : list string :=
  match e with
  | GInitialized => ["amana"; "initialized"]%string
  | GTradeCreated => ["TRDCRT"]%string
  | GTradeFunded => ["TRDFND"]%string
  | GTradeCancelled => ["TRDCAN"]%string
  | GTradeCancelledByBuyer => ["TCNBYR"]%string
  | GContractUpgraded => ["UPGRAD"]%string
  | GDeliveryConfirmed => ["DELCNF"]%string
  | GFundsReleased => ["RELSD"]%string
  | GDisputeResolved => ["DISRES"]%string
  | GEvidenceSubmitted => ["EVDSUB"]%string
  | GDisputeInitiated => ["DISINI"]%string
  | GVideoProofSubmitted => ["VIDPRF"]%string
  | GTradeExpired => ["TRDEXP"]%string
  | GDeadlineExtended => ["DEDEXT"]%string
  | GManifestSubmitted => ["MNFST"]%string
  | GMediatorAdded => ["MEDADD"]%string
  | GMediatorRemoved => ["MEDREM"]%string
  | GFeeRateUpdated => ["FEEUPD"]%string
  | GFeesWithdrawn => ["FEEWTH"]%string
  | GPathPaymentInitiated => ["PTHINT"]%string
  | GPathPaymentExecuted => ["PTHPAY"]%string
  | GAdminClawback => ["ADMCLW"]%string
  | GClawbackExecuted => ["CLWBCK"]%string
  | GTimelockOperationQueued => ["TLKQUE"]%string
  | GTimelockOperationExecuted => ["TLKEXE"]%string
  | GTimelockOperationCancelled => ["TLKCAN"]%string
  | GContractUpgradeQueued => ["UPGQUE"]%string
  | GDisputeVoteCast => ["DVOTE"]%string
  | GDisputeQuorumResolved => ["DQURES"]%string
  | GQuorumConfigUpdated => ["QURCFG"]%string
  | GMediatorWeightUpdated => ["MEDWGT"]%string
  | GDeadlineExtensionBudget => ["DEDBGT"]%string
  | GExtensionPolicyUpdated => ["EXTPOL"]%string
  end.


#[global] Instance GeneratedEventType_eq_dec : EqDecision GeneratedEventType.
Proof. solve_decision. Defined.

(** [OBJECT[key]] on a record literal. *)
Fixpoint assoc {B} (k : string) (l : list (string * B)) : option B :=
  match l with
  | [] => None
  | (k', b) :: l' => if bool_decide (k = k') then Some b else assoc k l'
  end.

(** ** Event types *)

Definition GENERATED_TO_EVENT_TYPE (g : GeneratedEventType) : option EventType :=
  match g with
  | GTradeCreated => Some TradeCreated
  | GTradeFunded => Some TradeFunded
  | GDeliveryConfirmed => Some DeliveryConfirmed
  | GFundsReleased => Some FundsReleased
  | GDisputeInitiated => Some DisputeInitiated
  | GDisputeResolved => Some DisputeResolved
  | GClawbackExecuted => Some StreamClawback
  | _ => None
  end.

Definition LEGACY_SYMBOL_ALIASES : list (string * EventType) := [
  ("TradeCreated", TradeCreated); ("trade_created", TradeCreated);
  ("TradeFunded", TradeFunded); ("trade_funded", TradeFunded);
  ("DeliveryConfirmed", DeliveryConfirmed); ("delivery_confirmed", DeliveryConfirmed);
  ("FundsReleased", FundsReleased); ("funds_released", FundsReleased);
  ("DisputeInitiated", DisputeInitiated); ("dispute_initiated", DisputeInitiated);
  ("DisputeResolved", DisputeResolved); ("dispute_resolved", DisputeResolved);
  ("StreamClawback", StreamClawback); ("stream_clawback", StreamClawback)]%string.

Definition resolveEventType (symbol : string) : option EventType :=
  match assoc symbol TOPIC_TO_EVENT_TYPE with
  | Some generated => GENERATED_TO_EVENT_TYPE generated
  | None => assoc symbol LEGACY_SYMBOL_ALIASES
  end.

(** ** Raw events *)

Inductive RawValue : Type :=
| RawMap (entries : list (jsval * jsval))
| RawOther.

Section Decoder.
Context {ScVal : Type} (scValToNative : ScVal → option jsval).

Record RawEvent : Type := {
  topic : option (list ScVal);
  ledger : Z;
  raw_contractId : option string;
  raw_id : string;
  value : option RawValue;
}.

Definition extractSymbolValue (v : ScVal) : option string := toStr <$> scValToNative v.

Definition extractScalarValue (v : ScVal) : string :=
  match scValToNative v with Some n => toStr n | None => "unknown" end.

(** Later assignments to a key shadow earlier ones. *)
Definition decodeData (v : option RawValue) : list (string * jsval) :=
  match v with
  | None => []
  | Some RawOther => [("raw"%string, VObj None [])]
  | Some (RawMap entries) =>
      foldl (λ d e, if isTruthy e.1 then (toStr e.1, e.2) :: d else d) [("raw"%string, VObj None [])] entries
  end.

Definition decodeContractEvent (rawEvent : RawEvent) (fallbackContractId : string) : option ParsedEvent :=
  match topic rawEvent with
  | None | Some [] => None
  | Some (t0 :: ts) =>
      match extractSymbolValue t0 with
      | None | Some ""%string => None
      | Some eventSymbol =>
          match resolveEventType eventSymbol with
          | None => None
          | Some eventType =>
              Some {| eventType := eventType;
                      ev_tradeId := match ts with t1 :: _ => extractScalarValue t1 | [] => "unknown" end;
                      ledgerSequence := ledger rawEvent;
                      contractId := default fallbackContractId (raw_contractId rawEvent);
                      eventId := raw_id rawEvent;
                      data := decodeData (value rawEvent) |}
          end
      end
  end.

(** ** Correctness *)

(** The decoder accepts exactly the contract's topics: an event published under
    its generated topic decodes to the event type it is mapped to, and is skipped
    when the backend does not react to it; its ledger, id and contract survive. *)
Theorem decode_generated_topics (e : GeneratedEventType) (raw : RawEvent) (fallback sym : string) t0 ts rest :
  EVENT_TOPICS e = sym :: rest → topic raw = Some (t0 :: ts) → scValToNative t0 = Some (VStr sym) →
  match GENERATED_TO_EVENT_TYPE e with
  | None => decodeContractEvent raw fallback = None
  | Some ty => ∃ ev, decodeContractEvent raw fallback = Some ev ∧ eventType ev = ty ∧
      ledgerSequence ev = ledger raw ∧ eventId ev = raw_id raw ∧
      contractId ev = default fallback (raw_contractId raw)
  end.
Proof.
  intros Htop Ht Hn. unfold decodeContractEvent, extractSymbolValue. rewrite Ht, Hn.
  destruct e; cbn [EVENT_TOPICS] in Htop; injection Htop as <- <-; cbn; eauto 10.
Qed.

(** The contract publishes its trade events under a single topic and carries the
    trade id in the payload, but the decoder reads the trade id from the second
    topic: every such event decodes to the trade "unknown", whatever it carries. *)
Theorem single_topic_loses_trade (e : GeneratedEventType) (raw : RawEvent) (fallback : string) t0 ev :
  GENERATED_TO_EVENT_TYPE e ≠ None → topic raw = Some [t0] →
  scValToNative t0 = VStr <$> head (EVENT_TOPICS e) →
  decodeContractEvent raw fallback = Some ev →
  length (EVENT_TOPICS e) = 1%nat ∧ ev_tradeId ev = "unknown"%string.
Proof.
  intros He Ht Hn Hd. split; [destruct e; done|]. unfold decodeContractEvent in Hd. rewrite Ht in Hd.
  destruct (extractSymbolValue t0) as [[|c s]|]; [done| |done].
  destruct (resolveEventType _); [|done]. by injection Hd as <-.
Qed.
End Decoder.

(** No generated topic is shadowed by a legacy alias: the two tables are disjoint, and
    every legacy alias still resolves to the event type it names. *)
Theorem legacy_aliases_resolve (s : string) (ty : EventType) :
  (s, ty) ∈ LEGACY_SYMBOL_ALIASES → assoc s TOPIC_TO_EVENT_TYPE = None ∧ resolveEventType s = Some ty.
Proof.
  unfold LEGACY_SYMBOL_ALIASES. rewrite !elem_of_cons, elem_of_nil.
  intros H. repeat destruct H as [[= -> ->]|H]; try done; split; reflexivity.
Qed.

(** ** Witnesses *)

Definition sampleRaw : RawEvent (ScVal := string) :=
  {| topic := Some ["TRDFND"%string]; ledger := 7; raw_contractId := None; raw_id := "e1";
     value := Some (RawMap [(VStr "trade_id", VBigInt 42)]) |}.

Lemma decode_generated_topics_witness :
  ∃ ev, decodeContractEvent (λ s, Some (VStr s)) sampleRaw "C" = Some ev ∧ eventType ev = TradeFunded ∧
    ledgerSequence ev = 7 ∧ eventId ev = "e1"%string ∧ contractId ev = "C"%string.
Proof.
  apply (decode_generated_topics (λ s, Some (VStr s)) GTradeFunded sampleRaw "C" "TRDFND" "TRDFND" [] []); reflexivity.
Defined.

Lemma single_topic_loses_trade_witness :
  ∃ ev, decodeContractEvent (λ s, Some (VStr s)) sampleRaw "C" = Some ev ∧ ev_tradeId ev = "unknown"%string.
Proof.
  eexists. split; [reflexivity|].
  apply (single_topic_loses_trade (λ s, Some (VStr s)) GTradeFunded sampleRaw "C" "TRDFND"); done.
Defined.

Lemma legacy_aliases_resolve_witness : resolveEventType "trade_funded" = Some TradeFunded.
Proof. apply (legacy_aliases_resolve "trade_funded" TradeFunded). unfold LEGACY_SYMBOL_ALIASES. set_solver. Defined.
