(* ===== verification/EventListener.v ===== *)
(** * The event listener: [backend/src/services/eventListener.service.ts], [backend/src/config/eventListener.config.ts]

    The polling service that applies contract events to the database. [Db] is
    what it shares with other processes: the application tables [D] that the
    handlers change, the [ProcessedEvent] markers and the [ChainEventOutbox].
    The handler is a parameter, as in [processEventAtomically]; a transaction
    either returns the new database or is rolled back. Both tables are keyed by
    (ledger, contract, event id), which also stands for the surrogate [id] of an
    outbox row. [other] is what concurrent workers commit just before the
    transaction. The SDK conversion, the RPC and the texts of errors are
    parameters; timers are the delay of the next poll. *)

From Stdlib Require Import QArith Qminmax.
From S2P Require Import Prelude JsString JsValue Prisma CircuitBreaker EventHandlers EventDecoder.
#[local] Open Scope Z_scope.

Record EventListenerConfig : Type := {
  rpcUrl : string;
  cfg_contractId : string;
  pollIntervalMs : Z;
  backoffInitialMs : Z;
  backoffMaxMs : Z;
  processedLedgersCacheSize : Z;
  outboxMaxAttempts : Z;
}.

Definition eventKey : Type := Z * string * string.
Definition keyOf (ev : ParsedEvent) : eventKey := (ledgerSequence ev, contractId ev, eventId ev).

(** The template [ledger:contract:eventId]. *)
Definition cacheKey (k : eventKey) : string :=
  toString k.1.1 +:+ String ":" (k.1.2 +:+ String ":" k.2).

Inductive OutboxStatus : Type := PENDING | RETRYING | PROCESSED | DEAD_LETTER.

#[global] Instance OutboxStatus_eq_dec : EqDecision OutboxStatus.
Proof. solve_decision. Defined.

(** The columns the listener reads or changes; the event's own columns and payload
    are only stored. *)
Record OutboxRow : Type := {
  o_status : OutboxStatus;
  attempts : Z;
  nextAttemptAt : Z;
  lastError : option string;
  deadLetteredAt : option Z;
  processedAt : option Z;
}.

Record EventListener : Type := {
  processedEvents : list string;
  lastLedger : Z;
  running : bool;
  currentBackoffMs : Z;
  stellarCircuit : Breaker.CircuitBreaker;
  nextPoll : option Q;
}.

Definition setCache (c : list string) (ledger : Z) (l : EventListener) : EventListener :=
  {| processedEvents := c; lastLedger := ledger; running := running l;
     currentBackoffMs := currentBackoffMs l; stellarCircuit := stellarCircuit l; nextPoll := nextPoll l |}.

Definition newListener (config : EventListenerConfig) : EventListener :=
  {| processedEvents := []; lastLedger := 0; running := false;
     currentBackoffMs := backoffInitialMs config;
     stellarCircuit := Breaker.newCircuitBreaker "stellar-rpc"
       {| Breaker.opt_failureThreshold := Some 3; Breaker.opt_successThreshold := Some 2;
          Breaker.opt_cooldownMs := Some 30000 |};
     nextPoll := None |}.

(** [set.add(x)]: insertion order, no duplicates. *)
Definition setAdd (x : string) (s : list string) : list string :=
  if bool_decide (x ∈ s) then s else s ++ [x].

(** [parseInt(s, 10)]; [None] is NaN. *)
Definition parseInt10 (s : string) : option Z :=
  let '(neg, r) := signed (trimStart s) in
  let '(v, n, _) := spanDigits 10 r 0 0 in
  if (n =? 0)%nat then None else Some (if neg then - v else v).

Definition ledgerFromProcessedEventKey (key : string) : Z :=
  match split ":" key with
  | [] | ""%string :: _ => -1
  | segment :: _ => default (-1) (parseInt10 segment)
  end.

Definition byLedger (a b : string) : Z := ledgerFromProcessedEventKey a - ledgerFromProcessedEventKey b.

Definition evictOldEvents (config : EventListenerConfig) (s : list string) : list string :=
  if Z.of_nat (length s) <=? processedLedgersCacheSize config then s
  else
    let sorted := js_sort byLedger s in
    let toRemove := Z.of_nat (length sorted) - processedLedgersCacheSize config in
    List.filter (λ x, negb (bool_decide (x ∈ take (Z.to_nat toRemove) sorted))) s.

(** ** Polling and backoff *)

Definition scheduleNextPoll (delayMs : Q) (l : EventListener) : EventListener :=
  if negb (running l) then l
  else {| processedEvents := processedEvents l; lastLedger := lastLedger l; running := running l;
          currentBackoffMs := currentBackoffMs l; stellarCircuit := stellarCircuit l; nextPoll := Some delayMs |}.

Definition setBackoff (ms : Z) (l : EventListener) : EventListener :=
  {| processedEvents := processedEvents l; lastLedger := lastLedger l; running := running l;
     currentBackoffMs := ms; stellarCircuit := stellarCircuit l; nextPoll := nextPoll l |}.

(** [rand] is the value of [Math.random()]; its products are exact here. *)
Definition handleBackoff (config : EventListenerConfig) (rand : Q) (l : EventListener) : EventListener :=
  let jitter := (rand * inject_Z (currentBackoffMs l) * (1 # 10))%Q in
  let delay := Qmin (inject_Z (currentBackoffMs l) + jitter) (inject_Z (backoffMaxMs config)) in
  setBackoff (Z.min (currentBackoffMs l * 2) (backoffMaxMs config)) (scheduleNextPoll delay l).

Definition resetBackoff (config : EventListenerConfig) (l : EventListener) : EventListener :=
  setBackoff (backoffInitialMs config) l.

Definition stop (l : EventListener) : EventListener :=
  {| processedEvents := processedEvents l; lastLedger := lastLedger l; running := false;
     currentBackoffMs := currentBackoffMs l; stellarCircuit := stellarCircuit l; nextPoll := None |}.

Definition computeRetryDelay (config : EventListenerConfig) (attemptNumber : Z) : Z :=
  let exponent := Z.max (attemptNumber - 1) 0 in
  let baseDelay := backoffInitialMs config * 2 ^ exponent in
  Z.min baseDelay (backoffMaxMs config).

Definition isOutboxReadyForAttempt (row : OutboxRow) (now : Z) : bool :=
  match o_status row with
  | PROCESSED | DEAD_LETTER => false
  | _ => negb (now <? nextAttemptAt row)
  end.

Section Service.
Context {D TP TO ScVal : Type} `{!Table eventKey eventKey TP, !Table eventKey OutboxRow TO}.
Context (scValToNative : ScVal → option jsval) (errorText : handler_error → string).
Context (handler : D → ParsedEvent → Z → result handler_error D).
Context (config : EventListenerConfig).

Record Db : Type := mkDb { app : D; processed : TP; outbox : TO }.

Definition isAlreadyProcessed (db : Db) (key : eventKey) : bool :=
  match findUnique key (processed db) with Some _ => true | None => false end.

Definition isPrismaUniqueConstraintError (err : handler_error) : bool :=
  match err with PrismaCode c => bool_decide (c = "P2002"%string) | _ => false end.

(** The body of both transactions: the handler, then the marker. *)
Definition handleAndMark (db : Db) (event : ParsedEvent) (now : Z) : result handler_error Db :=
  app' ← handler (app db) event now;
  match create (keyOf event) (keyOf event) (processed db) with
  | Some p' => Ok (mkDb app' p' (outbox db))
  | None => Err (PrismaCode "P2002")
  end.

Definition processEventAtomically (db : Db) (event : ParsedEvent) (now : Z) : result handler_error Db :=
  match handleAndMark db event now with
  | Ok db' => Ok db'
  | Err err => if isPrismaUniqueConstraintError err then Ok db else Err err
  end.

(** ** The outbox *)

Definition newOutboxRow (now : Z) : OutboxRow :=
  {| o_status := PENDING; attempts := 0; nextAttemptAt := now; lastError := None;
     deadLetteredAt := None; processedAt := None |}.

(** [upsert({ create, update: {} })] *)
Definition ensureOutboxRecord (db : Db) (event : ParsedEvent) (now : Z) : Db * OutboxRow :=
  match findUnique (keyOf event) (outbox db) with
  | Some row => (db, row)
  | None =>
      match create (keyOf event) (newOutboxRow now) (outbox db) with
      | Some o' => (mkDb (app db) (processed db) o', newOutboxRow now)
      | None => (db, newOutboxRow now)
      end
  end.

Definition markOutboxProcessed (increment : Z) (now : Z) (row : OutboxRow) : OutboxRow :=
  {| o_status := PROCESSED; attempts := attempts row + increment; nextAttemptAt := now;
     lastError := None; deadLetteredAt := None; processedAt := Some now |}.

(** [chainEventOutbox.update]; P2025 when the row is gone. *)
Definition updateOutbox (db : Db) (key : eventKey) (f : OutboxRow → OutboxRow) : result handler_error Db :=
  match update key f (outbox db) with
  | Some (_, o') => Ok (mkDb (app db) (processed db) o')
  | None => Err (PrismaCode "P2025")
  end.

Definition processOutboxEventAtomically (db : Db) (event : ParsedEvent) (now : Z) : result handler_error Db :=
  let tx :=
    match findUnique (keyOf event) (outbox db) with
    | Some {| o_status := PROCESSED |} => Ok db
    | _ =>
        db1 ← handleAndMark db event now;
        updateOutbox db1 (keyOf event) (markOutboxProcessed 1 now)
    end in
  match tx with
  | Ok db' => Ok db'
  | Err err =>
      if negb (isPrismaUniqueConstraintError err) then Err err
      else updateOutbox db (keyOf event) (markOutboxProcessed 0 now)
  end.

Definition recordOutboxFailure (db : Db) (key : eventKey) (row : OutboxRow) (err : handler_error) (now : Z)
    : result handler_error Db :=
  let nextAttempts := attempts row + 1 in
  let canRetry := nextAttempts <? outboxMaxAttempts config in
  let retryDelayMs := computeRetryDelay config nextAttempts in
  updateOutbox db key (λ r,
    {| o_status := if canRetry then RETRYING else DEAD_LETTER;
       attempts := nextAttempts;
       nextAttemptAt := if canRetry then now + retryDelayMs else now;
       lastError := Some (take_chars 2000 (errorText err));
       deadLetteredAt := if canRetry then None else Some now;
       processedAt := processedAt r |}).

(** ** One event *)

(** The bookkeeping after an event was handled. *)
Definition remember (key : eventKey) (l : EventListener) : EventListener :=
  setCache (evictOldEvents config (setAdd (cacheKey key) (processedEvents l)))
    (if lastLedger l <? key.1.1 then key.1.1 else lastLedger l) l.

Definition processParsed (supportsOutbox : bool) (other : Db → Db) (l : EventListener) (db : Db)
    (event : ParsedEvent) (now : Z) : EventListener * Db * result handler_error unit :=
  let key := keyOf event in
  if bool_decide (cacheKey key ∈ processedEvents l) then (l, db, Ok tt)
  else if isAlreadyProcessed db key
  then (setCache (setAdd (cacheKey key) (processedEvents l)) (lastLedger l) l, db, Ok tt)
  else if negb supportsOutbox then
    match processEventAtomically (other db) event now with
    | Ok db' => (remember key l, db', Ok tt)
    | Err e => (l, other db, Err e)
    end
  else
    let '(db1, row) := ensureOutboxRecord db event now in
    if negb (isOutboxReadyForAttempt row now) then (l, db1, Ok tt)
    else
      let db1 := other db1 in
      match processOutboxEventAtomically db1 event now with
      | Ok db2 => (remember key l, db2, Ok tt)
      | Err e =>
          match recordOutboxFailure db1 key row e now with
          | Ok db2 => (l, db2, Ok tt)
          | Err e' => (l, db1, Err e')
          end
      end.

Definition processEvent (supportsOutbox : bool) (other : Db → Db) (l : EventListener) (db : Db)
    (rawEvent : RawEvent (ScVal := ScVal)) (now : Z) : EventListener * Db * result handler_error unit :=
  match decodeContractEvent scValToNative rawEvent (cfg_contractId config) with
  | None => (l, db, Ok tt)
  | Some event => processParsed supportsOutbox other l db event now
  end.

(** ** Polling *)

Fixpoint processBatch (supportsOutbox : bool) (l : EventListener) (db : Db)
    (events : list (RawEvent (ScVal := ScVal))) (now : Z) : EventListener * Db * result handler_error unit :=
  match events with
  | [] => (l, db, Ok tt)
  | e :: rest =>
      match processEvent supportsOutbox (λ db, db) l db e now with
      | (l', db', Ok _) => processBatch supportsOutbox l' db' rest now
      | (l', db', Err err) => (l', db', Err err)
      end
  end.

Definition withCircuit (cb : Breaker.CircuitBreaker) (l : EventListener) : EventListener :=
  {| processedEvents := processedEvents l; lastLedger := lastLedger l; running := running l;
     currentBackoffMs := currentBackoffMs l; stellarCircuit := cb; nextPoll := nextPoll l |}.

(** [getEvents] is the RPC: it is asked for the events from [startLedger] on, and
    may throw. [t0], [t1] are the breaker's clock reads. *)
Definition pollEvents (supportsOutbox : bool)
    (getEvents : option Z → result unit (list (RawEvent (ScVal := ScVal))))
    (t0 t1 now : Z) (rand : Q) (l : EventListener) (db : Db) : EventListener * Db :=
  if negb (running l) then (l, db)
  else
    let startLedger := if 0 <? lastLedger l then Some (lastLedger l + 1) else None in
    let '(cb, _, response) :=
      Breaker.call (Breaker.alone (λ u : unit, (u, getEvents startLedger))) t0 t1 (stellarCircuit l) tt in
    let l := withCircuit cb l in
    match response with
    | Ok events =>
        match processBatch supportsOutbox l db events now with
        | (l', db', Ok _) => (scheduleNextPoll (inject_Z (pollIntervalMs config)) (resetBackoff config l'), db')
        | (l', db', Err _) => (handleBackoff config rand l', db')
        end
    | Err (Breaker.CircuitBreakerOpenError _) => (scheduleNextPoll (inject_Z (Breaker.cooldownMs cb)) l, db)
    | Err (Breaker.OperationError _) => (handleBackoff config rand l, db)
    end.

(** ** Start and stop *)

Definition byLedgerDesc (a b : eventKey) : Z := b.1.1 - a.1.1.

(** [findMany({ orderBy: { ledgerSequence: desc }, take })] *)
Definition recentEvents (db : Db) (n : nat) : list eventKey :=
  take n (js_sort byLedgerDesc (findMany (λ _, true) (processed db))).

Definition start (db : Db) (l : EventListener) : EventListener :=
  if running l then l
  else
    let l := {| processedEvents := processedEvents l; lastLedger := lastLedger l; running := true;
                currentBackoffMs := currentBackoffMs l; stellarCircuit := stellarCircuit l; nextPoll := nextPoll l |} in
    let l := match recentEvents db 1 with
             | latest :: _ => setCache (setAdd (cacheKey latest) (processedEvents l)) latest.1.1 l
             | [] => l
             end in
    scheduleNextPoll 0 l.

Definition warmProcessedEventCache (db : Db) (l : EventListener) : EventListener :=
  setCache (foldl (λ s k, setAdd (cacheKey k) s) (processedEvents l)
              (recentEvents db (Z.to_nat (processedLedgersCacheSize config)))) (lastLedger l) l.
End Service.

(** ** Correctness *)

Lemma setAdd_elem x y s : y ∈ setAdd x s ↔ y = x ∨ y ∈ s.
Proof. unfold setAdd. case_bool_decide; [set_solver|]. set_solver. Qed.

Lemma setAdd_NoDup x s : NoDup s → NoDup (setAdd x s).
Proof.
  unfold setAdd. case_bool_decide; [done|]. intros Hs. apply NoDup_app. split_and!; [done| |apply NoDup_singleton].
  set_solver.
Qed.

Lemma evict_subset config s x : x ∈ evictOldEvents config s → x ∈ s.
Proof.
  unfold evictOldEvents. case_ifs; [done|]. rewrite list_elem_of_In, List.filter_In, <-list_elem_of_In. tauto.
Qed.

Lemma byLedger_total x y : cmp_le byLedger x y ∨ cmp_le byLedger y x.
Proof. unfold cmp_le, byLedger. lia. Qed.

Lemma byLedger_trans x y z : cmp_le byLedger x y → cmp_le byLedger y z → cmp_le byLedger x z.
Proof. unfold cmp_le, byLedger. lia. Qed.

(** Removing the members of one part of a duplicate-free list leaves the other part. *)
Lemma filter_not_in_app (a b s : list string) : NoDup (a ++ b) → s ≡ₚ a ++ b →
  List.filter (λ x, negb (bool_decide (x ∈ a))) s ≡ₚ b.
Proof.
  intros Hnd Hp. apply NoDup_app in Hnd as (Ha & Hab & Hb).
  apply NoDup_Permutation.
  - apply NoDup_ListNoDup, List.NoDup_filter, NoDup_ListNoDup. rewrite Hp. apply NoDup_app. done.
  - done.
  - intros x. rewrite list_elem_of_In, List.filter_In, <-list_elem_of_In, Hp, elem_of_app. zb.
    split; [tauto|]. intros Hx. split; [by right|]. intros Hxa. by apply (Hab x).
Qed.

(** Eviction bounds the cache and forgets the oldest ledgers first: it keeps at
    most [processedLedgersCacheSize] keys, only keys that were there, exactly that
    many when it has to evict, and never a key of an older ledger than one it drops. *)
Theorem evictOldEvents_spec (config : EventListenerConfig) (s : list string) :
  NoDup s → 0 ≤ processedLedgersCacheSize config →
  let s' := evictOldEvents config s in
  Z.of_nat (length s') = Z.min (Z.of_nat (length s)) (processedLedgersCacheSize config) ∧
  (∀ x, x ∈ s' → x ∈ s) ∧
  (∀ x y, x ∈ s → x ∉ s' → y ∈ s' → ledgerFromProcessedEventKey x ≤ ledgerFromProcessedEventKey y).
Proof.
  intros Hnd Hsz. cbv zeta. pose proof (evict_subset config s) as Hsub. split_and!; [|done|].
  all: unfold evictOldEvents in *; destruct (Z.leb_spec (Z.of_nat (length s)) (processedLedgersCacheSize config)) as [Hle|Hgt];
    [lia || done|]; cbv zeta in *.
  all: set (sorted := js_sort byLedger s) in *; set (n := Z.to_nat _) in *.
  all: assert (Hperm : s ≡ₚ take n sorted ++ drop n sorted) by (rewrite take_drop; unfold sorted; by rewrite js_sort_perm).
  all: assert (Hnd' : NoDup (take n sorted ++ drop n sorted)) by (rewrite <-Hperm; done).
  all: pose proof (filter_not_in_app _ _ _ Hnd' Hperm) as Hf.
  - rewrite (Permutation_length Hf), length_drop.
    assert (length sorted = length s) as Hlen by (apply Permutation_length, js_sort_perm).
    unfold n. rewrite Hlen. lia.
  - intros x y Hx Hnx Hy. rewrite Hf in Hy, Hnx.
    assert (Hxt : x ∈ take n sorted) by (rewrite Hperm, elem_of_app in Hx; tauto).
    pose proof (js_sort_sorted byLedger byLedger_total byLedger_trans s) as Hss. fold sorted in Hss.
    rewrite <-(take_drop n sorted) in Hss.
    assert (Hc : cmp_le byLedger x y) by (eapply StronglySorted_app_1_elem_of; eauto).
    unfold cmp_le, byLedger in Hc. lia.
Qed.

(** The backoff after failed polls is bounded: it doubles up to
    [backoffMaxMs], and the delay of the next poll is at least the current backoff
    and never above the maximum, whatever jitter is drawn. *)
Theorem handleBackoff_bounds (config : EventListenerConfig) (rand : Q) (l : EventListener) :
  running l = true → 0 ≤ currentBackoffMs l ≤ backoffMaxMs config → (0 <= rand)%Q →
  let l' := handleBackoff config rand l in
  currentBackoffMs l ≤ currentBackoffMs l' ≤ backoffMaxMs config ∧
  (currentBackoffMs l' = 2 * currentBackoffMs l ∨ currentBackoffMs l' = backoffMaxMs config) ∧
  ∃ d, nextPoll l' = Some d ∧ (inject_Z (currentBackoffMs l) <= d)%Q ∧ (d <= inject_Z (backoffMaxMs config))%Q.
Proof.
  intros Hr Hb Hrand. unfold handleBackoff, scheduleNextPoll. rewrite Hr. cbn [negb]. cbv zeta.
  cbn [currentBackoffMs setBackoff nextPoll]. split_and!; [lia|lia|lia|].
  eexists. split; [reflexivity|]. split; [|apply Q.le_min_r]. apply Q.min_glb.
  - rewrite <-(Qplus_0_r (inject_Z (currentBackoffMs l))) at 1. apply Qplus_le_r.
    apply Qmult_le_0_compat; [|done]. apply Qmult_le_0_compat; [done|].
    change 0%Q with (inject_Z 0). rewrite <-Zle_Qle. lia.
  - rewrite <-Zle_Qle. lia.
Qed.

Lemma computeRetryDelay_bounds config n : 0 ≤ backoffInitialMs config ≤ backoffMaxMs config →
  0 ≤ backoffInitialMs config ≤ computeRetryDelay config n ∧ computeRetryDelay config n ≤ backoffMaxMs config.
Proof.
  intros H. unfold computeRetryDelay. cbv zeta.
  pose proof (Z.pow_pos_nonneg 2 (Z.max (n - 1) 0)) as Hp. nia.
Qed.

(** Cache keys identify events, as long as contract ids have no colon. *)
Lemma cacheKey_inj k1 k2 : lacks ":" k1.1.2 → lacks ":" k2.1.2 → cacheKey k1 = cacheKey k2 → k1 = k2.
Proof.
  destruct k1 as [[l1 c1] e1], k2 as [[l2 c2] e2]. unfold cacheKey. cbn [fst snd]. intros H1 H2 H.
  apply split_at_unique in H as [Hl H]; [|by apply toString_lacks..]. apply toString_inj in Hl.
  apply split_at_unique in H as [Hc He]; [|done..]. by subst.
Qed.

(** What the listener asks of a handler: it never trips a unique constraint of its
    own, because the listener takes such an error for a duplicate delivery. *)
Class SafeHandler {D : Type} (handler : D → ParsedEvent → Z → result handler_error D) : Prop :=
  no_unique_violation d ev now e : handler d ev now = Err e → isPrismaUniqueConstraintError e = false.

Section Spec.
Context {D TP TO ScVal : Type} `{!Table eventKey eventKey TP, !Table eventKey OutboxRow TO,
  !TableLaws eventKey eventKey TP, !TableLaws eventKey OutboxRow TO}.
Context (scValToNative : ScVal → option jsval) (errorText : handler_error → string).
Context (handler : D → ParsedEvent → Z → result handler_error D).
Context (config : EventListenerConfig).

Abbreviation DB := (Db (D := D) (TP := TP) (TO := TO)).

Lemma handleAndMark_Ok (db db' : DB) ev now : handleAndMark handler db ev now = Ok db' →
  handler (app db) ev now = Ok (app db') ∧ findUnique (keyOf ev) (processed db) = None ∧
  findUnique (keyOf ev) (processed db') = Some (keyOf ev) ∧
  (∀ k, k ≠ keyOf ev → findUnique k (processed db') = findUnique k (processed db)) ∧
  outbox db' = outbox db.
Proof.
  unfold handleAndMark. intros H. apply bind_Ok in H as (a & Ha & H).
  destruct (create _ _ _) as [p'|] eqn:Hc; [|done]. injection H as <-.
  apply create_inv in Hc as (Hn & Hs & Ho). done.
Qed.

Lemma updateOutbox_Ok (db db' : DB) key f : updateOutbox db key f = Ok db' →
  app db' = app db ∧ processed db' = processed db ∧
  ∃ row, findUnique key (outbox db) = Some row ∧ findUnique key (outbox db') = Some (f row) ∧
    ∀ k, k ≠ key → findUnique k (outbox db') = findUnique k (outbox db).
Proof.
  unfold updateOutbox. destruct (update _ _ _) as [[r o']|] eqn:Hu; [|done]. intros [= <-].
  apply update_inv in Hu as (v & ? & -> & ? & ?). eauto 10.
Qed.

Lemma ensureOutboxRecord_spec (db : DB) ev now :
  let '(db', row) := ensureOutboxRecord db ev now in
  app db' = app db ∧ processed db' = processed db ∧ findUnique (keyOf ev) (outbox db') = Some row ∧
  (∀ k, k ≠ keyOf ev → findUnique k (outbox db') = findUnique k (outbox db)) ∧
  (findUnique (keyOf ev) (outbox db) = Some row ∨
   (findUnique (keyOf ev) (outbox db) = None ∧ row = newOutboxRow now)).
Proof.
  unfold ensureOutboxRecord. destruct (findUnique (keyOf ev) (outbox db)) as [row|] eqn:Hf; [by eauto 10|].
  destruct (create_free (keyOf ev) (newOutboxRow now) (outbox db) Hf) as (o' & -> & Hs & Ho). cbn. eauto 10.
Qed.

(** What one delivery does to the application state and to the markers. *)
Definition unchanged (db db' : DB) : Prop := app db' = app db ∧ processed db' = processed db.
Definition appliedOnce (ev : ParsedEvent) (now : Z) (db db' : DB) : Prop :=
  handler (app db) ev now = Ok (app db') ∧ findUnique (keyOf ev) (processed db) = None ∧
  findUnique (keyOf ev) (processed db') = Some (keyOf ev) ∧
  ∀ k, k ≠ keyOf ev → findUnique k (processed db') = findUnique k (processed db).

Lemma processOutbox_cases (db db' : DB) ev now : processOutboxEventAtomically handler db ev now = Ok db' →
  unchanged db db' ∨ appliedOnce ev now db db'.
Proof.
  unfold processOutboxEventAtomically. cbv zeta.
  match goal with |- context [match ?m with Ok _ => _ | Err _ => _ end] => destruct m as [d|e] eqn:Htx end.
  - intros [= <-]. assert (Htx' : unchanged db d ∨
      (handleAndMark handler db ev now ≫= λ db1, updateOutbox db1 (keyOf ev) (markOutboxProcessed 1 now)) = Ok d).
    { destruct (findUnique (keyOf ev) (outbox db)) as [[[] ]|]; try (by right). left. by injection Htx as <-. }
    destruct Htx' as [Hu|H]; [by left|right]. apply bind_Ok in H as (db1 & H1 & H2).
    apply handleAndMark_Ok in H1 as (Hh & Hn & Hs & Ho & _). apply updateOutbox_Ok in H2 as (Ha & Hp & _).
    unfold appliedOnce. by rewrite Ha, Hp.
  - destruct (isPrismaUniqueConstraintError e); cbn [negb]; [|done].
    intros H. apply updateOutbox_Ok in H as (? & ? & _). by left.
Qed.

Lemma processParsed_cases so l (db : DB) ev now l' db' r :
  processParsed errorText handler config so (λ db, db) l db ev now = (l', db', r) →
  unchanged db db' ∨ appliedOnce ev now db db'.
Proof.
  unfold processParsed. cbv zeta. case_bool_decide; [intros [= <- <- <-]; by left|].
  destruct (isAlreadyProcessed db (keyOf ev)); [intros [= <- <- <-]; by left|].
  destruct so; cbn [negb].
  - pose proof (ensureOutboxRecord_spec db ev now) as He.
    destruct (ensureOutboxRecord db ev now) as [db1 row]. destruct He as (Ha & Hp & _).
    assert (Hback : ∀ d, unchanged db1 d ∨ appliedOnce ev now db1 d → unchanged db d ∨ appliedOnce ev now db d).
    { intros d. unfold unchanged, appliedOnce. by rewrite Ha, Hp. }
    destruct (isOutboxReadyForAttempt row now); cbn [negb]; [|intros [= <- <- <-]; by apply Hback; left].
    destruct (processOutboxEventAtomically handler db1 ev now) as [db2|e] eqn:Ho.
    { intros [= <- <- <-]. by apply Hback, processOutbox_cases. }
    destruct (recordOutboxFailure _ _ db1 _ row e now) as [db2|e'] eqn:Hr; intros [= <- <- <-]; apply Hback; left; [|done].
    by apply updateOutbox_Ok in Hr as (? & ? & _).
  - unfold processEventAtomically. destruct (handleAndMark handler db ev now) as [d|e] eqn:Hh.
    { intros [= <- <- <-]. right. apply handleAndMark_Ok in Hh as (? & ? & ? & ? & _). done. }
    destruct (isPrismaUniqueConstraintError e); intros [= <- <- <-]; by left.
Qed.

(** ** Exactly once *)

(** What can happen to a listener: the RPC delivers an event (again, out of order,
    twice), or the process restarts with an empty cache. *)
Inductive op : Type :=
| Deliver (rawEvent : RawEvent (ScVal := ScVal)) (now : Z)
| Restart.

Definition isNew (db db' : DB) (key : eventKey) : bool :=
  negb (isAlreadyProcessed db key) && isAlreadyProcessed db' key.

(** One step; the event it committed, if any. *)
Definition stepOp (so : bool) (s : EventListener * DB) (o : op) : EventListener * DB * list (ParsedEvent * Z) :=
  match o with
  | Restart => (warmProcessedEventCache config s.2 (start s.2 (newListener config)), s.2, [])
  | Deliver raw now =>
      let '(l', db', _) := processEvent scValToNative errorText handler config so (λ db, db) s.1 s.2 raw now in
      match decodeContractEvent scValToNative raw (cfg_contractId config) with
      | Some ev => (l', db', if isNew s.2 db' (keyOf ev) then [(ev, now)] else [])
      | None => (l', db', [])
      end
  end.

Fixpoint runOps (so : bool) (s : EventListener * DB) (ops : list op) : EventListener * DB * list (ParsedEvent * Z) :=
  match ops with
  | [] => (s, [])
  | o :: ops' =>
      let '(s1, log1) := stepOp so s o in
      let '(s2, log2) := runOps so s1 ops' in (s2, log1 ++ log2)
  end.

(** The specification: the handler applied to the committed events, in order. *)
Fixpoint replay (d : D) (log : list (ParsedEvent * Z)) : result handler_error D :=
  match log with
  | [] => Ok d
  | (ev, now) :: rest => d' ← handler d ev now; replay d' rest
  end.

Lemma stepOp_cases so s o l' db' log : stepOp so s o = (l', db', log) →
  (unchanged s.2 db' ∧ log = []) ∨
  (∃ ev now, log = [(ev, now)] ∧ appliedOnce ev now s.2 db').
Proof.
  destruct s as [l db]. unfold stepOp. destruct o as [raw now|]; [|intros [= <- <- <-]; by left].
  cbn [fst snd]. unfold processEvent.
  destruct (decodeContractEvent scValToNative raw (cfg_contractId config)) as [ev|]; [|intros [= <- <- <-]; by left].
  destruct (processParsed _ _ _ _ _ l db ev now) as [[l1 db1] r] eqn:Hp.
  intros [= <- <- <-]. unfold isNew, isAlreadyProcessed.
  apply processParsed_cases in Hp as [[Ha Hpr]|Hap].
  - left. split; [done|]. rewrite Hpr. by destruct (findUnique (keyOf ev) (processed db)).
  - right. exists ev, now. split; [|done]. destruct Hap as (_ & -> & -> & _). done.
Qed.

(** The committed events, and what they did. *)
Lemma runOps_spec (so : bool) (ops : list op) (l : EventListener) (db : DB) l' db' log :
  runOps so (l, db) ops = (l', db', log) →
  NoDup (map (λ e, keyOf e.1) log) ∧
  (∀ e, e ∈ log → findUnique (keyOf e.1) (processed db) = None ∧ is_Some (findUnique (keyOf e.1) (processed db'))) ∧
  (∀ k, is_Some (findUnique k (processed db)) → is_Some (findUnique k (processed db'))) ∧
  replay (app db) log = Ok (app db').
Proof.
  revert l db log. induction ops as [|o ops IH]; intros l db log; cbn [runOps].
  { intros [= <- <- <-]. split_and!; [constructor|set_solver|done|done]. }
  destruct (stepOp so (l, db) o) as [[l1 db1] log1] eqn:Hs.
  destruct (runOps so (l1, db1) ops) as [[l2 db2] log2] eqn:Hr. intros [= <- <- <-].
  destruct (IH _ _ _ Hr) as (Hnd & Hnew & Hmono & Hrep).
  apply stepOp_cases in Hs as [[[Ha Hp] ->]|(ev & now & -> & Hh & Hn & Hy & Ho)]; cbn [app snd] in *.
  - rewrite Ha, Hp in *. done.
  - assert (Hk : ∀ k, is_Some (findUnique k (processed db)) → is_Some (findUnique k (processed db1))).
    { intros k Hk. rewrite Ho; [done|]. intros ->. rewrite Hn in Hk. by destruct Hk. }
    split_and!.
    + cbn. constructor; [|done]. rewrite list_elem_of_In, List.in_map_iff. intros (e & He & Hin%list_elem_of_In).
      destruct (Hnew e Hin) as [Hnone _]. rewrite He, Hy in Hnone. done.
    + intros e [->|Hin]%elem_of_cons; cbn [fst].
      * split; [done|]. apply Hmono. rewrite Hy. by eexists.
      * destruct (Hnew e Hin) as [Hnone Hsome]. split; [|done].
        destruct (decide (keyOf e.1 = keyOf ev)) as [Heq|Hne]; [by rewrite Heq, Hy in Hnone|by rewrite <-Ho].
    + intros k Hks. by apply Hmono, Hk.
    + cbn [replay List.app]. rewrite Hh. cbn [mbind result_bind]. done.
Qed.

(** C2: Exactly-once processing. Over any sequence of deliveries (duplicates, reorderings and
    failures included) and restarts, with or without the outbox, no event is
    committed twice or if it had been committed before, and the application state
    is the handler applied, in order, to exactly the committed events. *)
Theorem exactly_once (so : bool) (ops : list op) (l : EventListener) (db : DB) l' db' log :
  runOps so (l, db) ops = (l', db', log) →
  NoDup (map (λ e, keyOf e.1) log) ∧
  (∀ e, e ∈ log → findUnique (keyOf e.1) (processed db) = None ∧ is_Some (findUnique (keyOf e.1) (processed db'))) ∧
  (∀ k, is_Some (findUnique k (processed db)) → is_Some (findUnique k (processed db'))) ∧
  replay (app db) log = Ok (app db').
Proof. apply runOps_spec. Qed.

(** A concurrent duplicate is harmless: if another worker committed the same
    event after this one looked it up, the whole transaction is rolled back and
    the error swallowed, so the application state stays what the other worker
    left, in both modes. *)
Theorem concurrent_duplicate_harmless (so : bool) (other : DB → DB) l (db : DB) ev now l' db' r :
  (∀ d, app d = app db → is_Some (findUnique (keyOf ev) (processed (other d))) ∧ app (other d) = app (other db)) →
  processParsed errorText handler config so other l db ev now = (l', db', r) →
  app db' = app (other db) ∨ app db' = app db.
Proof.
  intros Hother. unfold processParsed. cbv zeta. case_bool_decide; [intros [= <- <- <-]; by right|].
  destruct (isAlreadyProcessed db (keyOf ev)); [intros [= <- <- <-]; by right|].
  destruct so; cbn [negb].
  - pose proof (ensureOutboxRecord_spec db ev now) as He.
    destruct (ensureOutboxRecord db ev now) as [db1 row]. destruct He as (Ha & _).
    destruct (isOutboxReadyForAttempt row now); cbn [negb]; [|intros [= <- <- <-]; by right].
    destruct (Hother db1 Ha) as [[x Hx] Happ].
    destruct (processOutboxEventAtomically handler (other db1) ev now) as [db2|e] eqn:Ho.
    + intros [= <- <- <-]. left. apply processOutbox_cases in Ho as [[Hu _]|(_ & Hn & _)]; congruence.
    + destruct (recordOutboxFailure _ _ (other db1) _ row e now) as [db2|e'] eqn:Hr; intros [= <- <- <-]; left; [|done].
      apply updateOutbox_Ok in Hr as (Hr & _). congruence.
  - unfold processEventAtomically. destruct (Hother db eq_refl) as [[x Hx] _].
    destruct (handleAndMark handler (other db) ev now) as [d|e] eqn:Hh.
    + apply handleAndMark_Ok in Hh as (_ & Hn & _). congruence.
    + destruct (isPrismaUniqueConstraintError e); intros [= <- <- <-]; by left.
Qed.

(** ** Polls *)

(** While the breaker of the RPC is open a poll asks for nothing, processes nothing
    and comes back after the cool-down. *)
Lemma poll_skipped_when_open (so : bool) getEvents t0 t1 now rand l (db : DB) opened :
  running l = true → Breaker.state (stellarCircuit l) = Breaker.OPEN →
  Breaker.openedAt (stellarCircuit l) = Some opened → t0 - opened < Breaker.cooldownMs (stellarCircuit l) →
  pollEvents scValToNative errorText handler config so getEvents t0 t1 now rand l db =
  (scheduleNextPoll (inject_Z (Breaker.cooldownMs (stellarCircuit l))) (withCircuit (stellarCircuit l) l), db).
Proof.
  intros Hr Hst Ho Hlt. unfold pollEvents. rewrite Hr. cbn [negb]. cbv zeta.
  unfold Breaker.call, Breaker.transitionIfCooldownElapsed.
  rewrite Hst, Ho, Z.geb_leb, (proj2 (Z.leb_gt _ _)) by lia. cbv zeta. by rewrite Hst.
Qed.

(** ** Nothing is dropped *)

(** The cache only holds committed events, and so do PROCESSED outbox rows. *)
Record sound (l : EventListener) (db : DB) : Prop := {
  sound_cache s : s ∈ processedEvents l → ∃ k, cacheKey k = s ∧ is_Some (findUnique k (processed db));
  sound_ids k : is_Some (findUnique k (processed db)) → lacks ":" k.1.2;
  sound_outbox k row : findUnique k (outbox db) = Some row → o_status row = PROCESSED →
    is_Some (findUnique k (processed db));
}.

Definition recorded (key : eventKey) (db : DB) : Prop :=
  is_Some (findUnique key (processed db)) ∨
  ∃ row, findUnique key (outbox db) = Some row ∧ o_status row ≠ PROCESSED.


Lemma handleAndMark_unmarked (db : DB) ev now e : SafeHandler handler →
  findUnique (keyOf ev) (processed db) = None → handleAndMark handler db ev now = Err e →
  isPrismaUniqueConstraintError e = false.
Proof.
  intros Hno Hn. unfold handleAndMark. intros [H|(d & _ & H)]%bind_Err; [by eapply no_unique_violation|].
  destruct (create_free (keyOf ev) (keyOf ev) (processed db) Hn) as (p' & Hc & _). by rewrite Hc in H.
Qed.

Lemma sound_remember l (db : DB) k : sound l db → is_Some (findUnique k (processed db)) → sound (remember config k l) db.
Proof.
  intros [Hc Hi Ho] Hk. split; [|done..]. intros s Hs%evict_subset%setAdd_elem. destruct Hs as [->|Hs]; eauto.
Qed.

Lemma sound_mono l (db db' : DB) ev now : sound l db → lacks ":" (contractId ev) →
  unchanged db db' ∨ appliedOnce ev now db db' →
  (∀ k row, findUnique k (outbox db') = Some row → o_status row = PROCESSED → is_Some (findUnique k (processed db'))) →
  sound l db'.
Proof.
  intros [Hc Hi _] Hl Hcase Ho. destruct Hcase as [[_ Hp]|(_ & Hn & Hy & Hoth)].
  - split; rewrite ?Hp; try done. by rewrite <-Hp.
  - split; [| |done].
    + intros s Hs. destruct (Hc s Hs) as (k & Hk & Hsome). exists k. split; [done|].
      rewrite Hoth; [done|]. intros ->. rewrite Hn in Hsome. by destruct Hsome.
    + intros k Hk. destruct (decide (k = keyOf ev)) as [->|Hne]; [done|]. apply Hi. by rewrite <-Hoth.
Qed.

Lemma processOutbox_unmarked (db db' : DB) ev now : SafeHandler handler →
  findUnique (keyOf ev) (processed db) = None →
  (∀ row, findUnique (keyOf ev) (outbox db) = Some row → o_status row ≠ PROCESSED) →
  processOutboxEventAtomically handler db ev now = Ok db' →
  appliedOnce ev now db db' ∧
  (∀ k, k ≠ keyOf ev → findUnique k (outbox db') = findUnique k (outbox db)).
Proof.
  intros Hno Hn Hrow. unfold processOutboxEventAtomically. cbv zeta.
  assert (Htx : match findUnique (keyOf ev) (outbox db) with
    | Some {| o_status := PROCESSED |} => Ok db
    | _ => handleAndMark handler db ev now ≫= λ db1, updateOutbox db1 (keyOf ev) (markOutboxProcessed 1 now)
    end = handleAndMark handler db ev now ≫= λ db1, updateOutbox db1 (keyOf ev) (markOutboxProcessed 1 now)).
  { destruct (findUnique (keyOf ev) (outbox db)) as [[[] ????]|]; try done. by destruct (Hrow _ eq_refl). }
  rewrite Htx. destruct (handleAndMark handler db ev now) as [db1|e] eqn:Hh; cbn [mbind result_bind].
  - apply handleAndMark_Ok in Hh as (Hh & _ & Hy & Ho & Hout).
    destruct (updateOutbox db1 _ _) as [d|e] eqn:Hu.
    + intros [= <-]. apply updateOutbox_Ok in Hu as (Ha & Hp & row & _ & _ & Hoo).
      unfold appliedOnce. rewrite Ha, Hp. split; [done|]. intros k Hk. by rewrite Hoo, Hout.
    + unfold updateOutbox in Hu. destruct (update _ _ _) as [[]|]; [done|]. injection Hu as <-. done.
  - by rewrite (handleAndMark_unmarked db ev now e).
Qed.

Lemma ensure_sound l (db : DB) ev now : sound l db → lacks ":" (contractId ev) →
  sound l (ensureOutboxRecord db ev now).1.
Proof.
  intros Hs Hl. pose proof (ensureOutboxRecord_spec db ev now) as He.
  destruct (ensureOutboxRecord db ev now) as [db1 row]. destruct He as (Ha & Hp & Hrow & Hoth & Hcase). cbn [fst].
  apply (sound_mono l db db1 ev now Hs Hl); [by left|].
  intros k r Hr Hst. rewrite Hp. destruct (decide (k = keyOf ev)) as [->|Hne].
  - rewrite Hrow in Hr. injection Hr as <-. destruct Hcase as [Hold|[_ ->]]; [by eapply sound_outbox|done].
  - rewrite Hoth in Hr by done. by eapply sound_outbox.
Qed.

Lemma failure_sound l (db db' : DB) ev row e now : sound l db → lacks ":" (contractId ev) →
  recordOutboxFailure errorText config db (keyOf ev) row e now = Ok db' →
  sound l db' ∧ recorded (keyOf ev) db'.
Proof.
  intros Hs Hl Hf. apply updateOutbox_Ok in Hf as (Ha & Hp & r0 & _ & Hnew & Hoth). split.
  - apply (sound_mono l db db' ev now Hs Hl); [by left|]. intros k r Hr Hst. rewrite Hp.
    destruct (decide (k = keyOf ev)) as [->|Hne].
    + rewrite Hnew in Hr. injection Hr as <-. cbn in Hst. by case_ifs_in Hst.
    + rewrite Hoth in Hr by done. by eapply sound_outbox.
  - right. eexists. split; [exact Hnew|]. cbn. by case_ifs.
Qed.

Lemma outbox_sound l (db db' : DB) ev now : sound l db → lacks ":" (contractId ev) →
  appliedOnce ev now db db' → (∀ k, k ≠ keyOf ev → findUnique k (outbox db') = findUnique k (outbox db)) →
  sound (remember config (keyOf ev) l) db'.
Proof.
  intros Hs Hl Hap Hoth. pose proof Hap as (_ & Hn & Hy & Ho).
  apply sound_remember; [|by rewrite Hy]. apply (sound_mono l db db' ev now Hs Hl); [by right|].
  intros k r Hr Hst. destruct (decide (k = keyOf ev)) as [->|Hne]; [by rewrite Hy|].
  rewrite Ho, Hoth in * by done. by eapply sound_outbox.
Qed.

(** As long as the handler does not itself violate a unique constraint, a delivered event
    whose processing returns is committed or kept in the outbox. *)
Lemma processParsed_sound (so : bool) l (db : DB) ev now l' db' r :
  SafeHandler handler → sound l db → lacks ":" (contractId ev) →
  processParsed errorText handler config so (λ db, db) l db ev now = (l', db', r) →
  sound l' db' ∧ (r = Ok tt → recorded (keyOf ev) db').
Proof.
  intros Hno Hs Hl. unfold processParsed. cbv zeta. case_bool_decide as Hcache.
  { intros [= <- <- <-]. split; [done|]. intros _. left.
    destruct (sound_cache _ _ Hs _ Hcache) as (k & Hk & Hsome).
    by rewrite <-(cacheKey_inj k (keyOf ev) (sound_ids _ _ Hs k Hsome) Hl Hk). }
  unfold isAlreadyProcessed. destruct (findUnique (keyOf ev) (processed db)) as [x|] eqn:Hp.
  { intros [= <- <- <-]. split; [|intros _; left; by rewrite Hp]. destruct Hs as [Hc Hi Ho]. split; [|done..].
    intros s [->|Hin]%setAdd_elem; [|by apply Hc]. exists (keyOf ev). by rewrite Hp. }
  destruct so; cbn [negb].
  - pose proof (ensureOutboxRecord_spec db ev now) as He. pose proof (ensure_sound l db ev now Hs Hl) as Hs1.
    destruct (ensureOutboxRecord db ev now) as [db1 row]. destruct He as (_ & Hp1 & Hrow & _). cbn [fst] in Hs1.
    assert (Hst : o_status row ≠ PROCESSED).
    { intros Hst. destruct (sound_outbox _ _ Hs1 _ _ Hrow Hst) as [y Hy]. rewrite Hp1, Hp in Hy. done. }
    destruct (isOutboxReadyForAttempt row now); cbn [negb].
    2: { intros [= <- <- <-]. split; [done|]. intros _. right. eauto. }
    destruct (processOutboxEventAtomically handler db1 ev now) as [db2|e] eqn:Ho.
    + intros [= <- <- <-]. apply processOutbox_unmarked in Ho as [Hap Hoth]; [|done|by rewrite Hp1|].
      2: { intros r' Hr'. rewrite Hrow in Hr'. by injection Hr' as <-. }
      split; [by eapply outbox_sound|]. intros _. left. destruct Hap as (_ & _ & Hy & _). by rewrite Hy.
    + destruct (recordOutboxFailure _ _ db1 _ row e now) as [db2|e'] eqn:Hr; intros [= <- <- <-]; [|done].
      destruct (failure_sound l db1 db2 ev row e now Hs1 Hl Hr). done.
  - unfold processEventAtomically. destruct (handleAndMark handler db ev now) as [d|e] eqn:Hh.
    + intros [= <- <- <-]. apply handleAndMark_Ok in Hh as (Hh & _ & Hy & Ho & Hout).
      split; [|intros _; left; by rewrite Hy].
      apply (outbox_sound l db d ev now Hs Hl); [done|]. intros k _. by rewrite Hout.
    + rewrite (handleAndMark_unmarked db ev now e Hno Hp Hh). intros [= <- <- <-]. done.
Qed.

(** A unique violation raised by the handler itself is mistaken for a duplicate
    delivery: the transaction is rolled back, nothing is stored for the event, and
    yet the listener caches it as processed and moves its cursor past it. *)
Theorem handler_unique_violation_loses_event l (db : DB) ev now :
  handler (app db) ev now = Err (PrismaCode "P2002") →
  cacheKey (keyOf ev) ∉ processedEvents l → findUnique (keyOf ev) (processed db) = None →
  processParsed errorText handler config false (λ db, db) l db ev now = (remember config (keyOf ev) l, db, Ok tt).
Proof.
  intros Hh Hc Hp. unfold processParsed. cbv zeta. rewrite bool_decide_eq_false_2 by done.
  unfold isAlreadyProcessed. rewrite Hp. cbn [negb].
  unfold processEventAtomically, handleAndMark. rewrite Hh. reflexivity.
Qed.

(** Committing an event is what moves the cursor. *)
Lemma processParsed_committed l (db : DB) ev now l' db' r :
  findUnique (keyOf ev) (processed db) = None → is_Some (findUnique (keyOf ev) (processed db')) →
  processParsed errorText handler config true (λ db, db) l db ev now = (l', db', r) →
  l' = remember config (keyOf ev) l.
Proof.
  intros Hn Hy. assert (Hun : ∀ d, unchanged db d → d = db' → False).
  { intros d [_ Hp] <-. rewrite Hp, Hn in Hy. by destruct Hy. }
  unfold processParsed. cbv zeta. case_bool_decide; [intros [= <- <- <-]; exfalso; by eapply Hun|].
  unfold isAlreadyProcessed. rewrite Hn. cbn [negb].
  pose proof (ensureOutboxRecord_spec db ev now) as Hens.
  destruct (ensureOutboxRecord db ev now) as [d row]. destruct Hens as (Ha & Hp & _).
  destruct (isOutboxReadyForAttempt row now); cbn [negb]; [|intros [= <- <- <-]; exfalso; by eapply Hun].
  destruct (processOutboxEventAtomically handler d ev now) as [d2|e]; [by intros [= <- <- <-]|].
  destruct (recordOutboxFailure _ _ d _ _ _ now) as [d3|] eqn:Hr; intros [= <- <- <-]; exfalso; [|by eapply Hun].
  apply updateOutbox_Ok in Hr as (? & ? & _). apply (Hun d3); [|done]. unfold unchanged. split; congruence.
Qed.

(** The cursor can pass a failed event: if an event fails and is scheduled for
    retry, and an event of a later ledger then succeeds, the next poll starts after
    the later ledger, so the RPC is not asked for the failed event again. *)
Theorem cursor_passes_failed_event l (db : DB) bad good now e l1 db1 l2 db2 :
  handler (app db) bad now = Err e → isPrismaUniqueConstraintError e = false →
  1 < outboxMaxAttempts config → cacheKey (keyOf bad) ∉ processedEvents l →
  findUnique (keyOf bad) (processed db) = None → findUnique (keyOf bad) (outbox db) = None →
  processParsed errorText handler config true (λ db, db) l db bad now = (l1, db1, Ok tt) →
  lastLedger l ≤ ledgerSequence bad < ledgerSequence good →
  processParsed errorText handler config true (λ db, db) l1 db1 good now = (l2, db2, Ok tt) →
  findUnique (keyOf good) (processed db1) = None → is_Some (findUnique (keyOf good) (processed db2)) →
  (∃ row, findUnique (keyOf bad) (outbox db1) = Some row ∧ o_status row = RETRYING) ∧
  lastLedger l1 = lastLedger l ∧ ledgerSequence bad < lastLedger l2 + 1.
Proof.
  intros Hh He Hmax Hc Hp Ho H1 Hled H2 Hg Hg'. unfold processParsed in H1. cbv zeta in H1.
  rewrite bool_decide_eq_false_2 in H1 by done. unfold isAlreadyProcessed in H1. rewrite Hp in H1. cbn [negb] in H1.
  pose proof (ensureOutboxRecord_spec db bad now) as Hens.
  destruct (ensureOutboxRecord db bad now) as [d row]. destruct Hens as (Ha & Hpp & Hrow & _ & [Hold|[_ ->]]); [congruence|].
  assert (Hready : isOutboxReadyForAttempt (newOutboxRow now) now = true)
    by (unfold isOutboxReadyForAttempt; cbn; by rewrite Z.ltb_irrefl).
  rewrite Hready in H1. cbn [negb] in H1.
  assert (Hfail : processOutboxEventAtomically handler d bad now = Err e).
  { unfold processOutboxEventAtomically, handleAndMark. rewrite Hrow, Ha, Hh. cbn. by rewrite He. }
  rewrite Hfail in H1. destruct (recordOutboxFailure _ _ d _ _ e now) as [d1|] eqn:Hr; [|done].
  injection H1 as <- <-. apply updateOutbox_Ok in Hr as (_ & _ & r0 & _ & Hnew & _).
  split_and!; [|done|].
  - eexists. split; [exact Hnew|]. cbn. by rewrite (proj2 (Z.ltb_lt _ _)) by lia.
  - rewrite (processParsed_committed l d1 good now l2 db2 (Ok tt) Hg Hg' H2).
    unfold remember. cbn [lastLedger setCache keyOf fst snd].
    destruct (Z.ltb_spec (lastLedger l) (ledgerSequence good)); lia.
Qed.

(** ** The outbox state machine *)

Definition rowInv (row : OutboxRow) : Prop :=
  match o_status row with
  | PENDING => attempts row = 0 ∧ deadLetteredAt row = None
  | RETRYING => 1 ≤ attempts row < outboxMaxAttempts config ∧ deadLetteredAt row = None
  | DEAD_LETTER => attempts row = Z.max 1 (outboxMaxAttempts config) ∧ is_Some (deadLetteredAt row)
  | PROCESSED => 0 ≤ attempts row ≤ Z.max 1 (outboxMaxAttempts config) ∧ deadLetteredAt row = None
  end.

Definition outboxInv (db : DB) : Prop := ∀ k row, findUnique k (outbox db) = Some row → rowInv row.

Lemma updateOutbox_inv (db db' : DB) key f : outboxInv db → updateOutbox db key f = Ok db' →
  (∀ row, findUnique key (outbox db) = Some row → rowInv (f row)) → outboxInv db'.
Proof.
  intros Hi Hu Hf. apply updateOutbox_Ok in Hu as (_ & _ & row & Hrow & Hnew & Hoth). intros k r Hr.
  destruct (decide (k = key)) as [->|Hne].
  - rewrite Hnew in Hr. injection Hr as <-. by apply Hf.
  - rewrite Hoth in Hr by done. by eapply Hi.
Qed.

Lemma markProcessed_inv n now row : 0 ≤ n ≤ 1 → rowInv row → o_status row = PENDING ∨ o_status row = RETRYING →
  rowInv (markOutboxProcessed n now row).
Proof. unfold rowInv. intros Hn Hr [Hs|Hs]; rewrite Hs in Hr; cbn; (split; [lia|done]). Qed.

Lemma ready_status row now : isOutboxReadyForAttempt row now = true → o_status row = PENDING ∨ o_status row = RETRYING.
Proof. unfold isOutboxReadyForAttempt. destruct (o_status row); naive_solver. Qed.

Lemma processOutbox_inv (db db' : DB) ev now row : outboxInv db →
  findUnique (keyOf ev) (outbox db) = Some row → isOutboxReadyForAttempt row now = true →
  processOutboxEventAtomically handler db ev now = Ok db' → outboxInv db'.
Proof.
  intros Hi Hrow Hready. apply ready_status in Hready.
  assert (Hmark : ∀ n r, 0 ≤ n ≤ 1 → findUnique (keyOf ev) (outbox db) = Some r → rowInv (markOutboxProcessed n now r)).
  { intros n r Hn Hr. rewrite Hrow in Hr. injection Hr as <-. apply markProcessed_inv; [done|by eapply Hi|done]. }
  unfold processOutboxEventAtomically. cbv zeta. rewrite Hrow.
  match goal with |- context [match ?m with Ok _ => _ | Err _ => _ end] => destruct m as [d|e] eqn:Htx end.
  - intros [= <-]. destruct row as [[] ?????]; cbn in Hready; destruct Hready as [|]; try done.
    all: apply bind_Ok in Htx as (db1 & H1 & H2); apply handleAndMark_Ok in H1 as (_ & _ & _ & _ & Hout).
    all: eapply (updateOutbox_inv db1); [|exact H2|]; [intros k r; rewrite Hout; apply Hi|].
    all: intros r Hr; rewrite Hout in Hr; apply Hmark; [lia|done].
  - destruct (isPrismaUniqueConstraintError e); cbn [negb]; [|done]. intros Hu.
    eapply updateOutbox_inv; [exact Hi|exact Hu|]. intros r Hr. apply Hmark; [lia|done].
Qed.

Lemma recordFailure_inv (db db' : DB) key row e now : outboxInv db → rowInv row →
  o_status row = PENDING ∨ o_status row = RETRYING →
  recordOutboxFailure errorText config db key row e now = Ok db' → outboxInv db'.
Proof.
  intros Hi Hr Hst Hf. eapply updateOutbox_inv; [exact Hi|exact Hf|]. intros r _. unfold rowInv in *. cbn.
  assert (0 ≤ attempts row ∧ (attempts row < outboxMaxAttempts config ∨ attempts row = 0)) as [H0 H1].
  { destruct Hst as [Hs|Hs]; rewrite Hs in Hr; lia. }
  destruct (Z.ltb_spec (attempts row + 1) (outboxMaxAttempts config)); (split; [lia|done || by eexists]).
Qed.

Lemma processParsed_outboxInv so l (db : DB) ev now l' db' r : outboxInv db →
  processParsed errorText handler config so (λ db, db) l db ev now = (l', db', r) → outboxInv db'.
Proof.
  intros Hi. unfold processParsed. cbv zeta. case_bool_decide; [by intros [= <- <- <-]|].
  destruct (isAlreadyProcessed db (keyOf ev)); [by intros [= <- <- <-]|]. destruct so; cbn [negb].
  - pose proof (ensureOutboxRecord_spec db ev now) as He.
    destruct (ensureOutboxRecord db ev now) as [d row]. destruct He as (_ & _ & Hrow & Hoth & Hcase).
    assert (Hi1 : outboxInv d).
    { intros k x Hx. destruct (decide (k = keyOf ev)) as [->|Hne]; [|rewrite Hoth in Hx by done; by eapply Hi].
      rewrite Hrow in Hx. injection Hx as <-. destruct Hcase as [Hold|[_ ->]]; [by eapply Hi|done]. }
    destruct (isOutboxReadyForAttempt row now) eqn:Hready; cbn [negb]; [|by intros [= <- <- <-]].
    destruct (processOutboxEventAtomically handler d ev now) as [d2|e] eqn:Ho.
    { intros [= <- <- <-]. by eapply processOutbox_inv. }
    destruct (recordOutboxFailure _ _ d _ row e now) as [d2|] eqn:Hf; intros [= <- <- <-]; [|done].
    eapply recordFailure_inv; [exact Hi1|by eapply Hi1|by eapply ready_status|exact Hf].
  - unfold processEventAtomically. destruct (handleAndMark handler db ev now) as [d|e] eqn:Hh.
    + intros [= <- <- <-]. apply handleAndMark_Ok in Hh as (_ & _ & _ & _ & Hout). intros k x. rewrite Hout. apply Hi.
    + destruct (isPrismaUniqueConstraintError e); by intros [= <- <- <-].
Qed.

(** Retries are bounded: through any sequence of deliveries and restarts every outbox
    row keeps a consistent attempt count (none while PENDING, fewer than
    [outboxMaxAttempts] while RETRYING, exactly the maximum once it is
    dead-lettered), and a dead letter always carries its timestamp. *)
Theorem outbox_attempts_bounded (so : bool) (ops : list op) l (db : DB) l' db' log :
  outboxInv db → runOps so (l, db) ops = (l', db', log) → outboxInv db'.
Proof.
  revert l db log. induction ops as [|o ops IH]; intros l db log Hi; cbn [runOps].
  { by intros [= <- <- <-]. }
  destruct (stepOp so (l, db) o) as [[l1 db1] log1] eqn:Hs.
  destruct (runOps so (l1, db1) ops) as [[l2 db2] log2] eqn:Hr. intros [= <- <- <-].
  refine (IH _ _ _ _ Hr). revert Hs. unfold stepOp. destruct o as [raw now|]; [|by intros [= <- <- <-]].
  unfold processEvent. cbn [fst snd]. destruct (decodeContractEvent _ _ _) as [ev|]; [|by intros [= <- <- <-]].
  destruct (processParsed _ _ _ _ _ l db ev now) as [[l3 db3] r] eqn:Hp. intros [= <- <- <-]. by eapply processParsed_outboxInv.
Qed.
End Spec.

(** ** The listener with the real handlers *)

Section Composition.
Context {TT TD TC TP TO ScVal : Type} `{!Table string TradeRow TT, !Table string DisputeRow TD,
  !Table (string * string) ClawbackRow TC, !Table eventKey eventKey TP, !Table eventKey OutboxRow TO,
  !TableLaws string TradeRow TT, !TableLaws string DisputeRow TD, !TableLaws (string * string) ClawbackRow TC,
  !TableLaws eventKey eventKey TP, !TableLaws eventKey OutboxRow TO}.
Context (scValToNative : ScVal → option jsval) (errorText : handler_error → string).
Context (isUser isStream : string → bool) (config : EventListenerConfig).

(** [dispatchEvent] as the listener calls it. *)
Definition dispatchHandler (tx : Tx (TT := TT) (TD := TD) (TC := TC)) (ev : ParsedEvent) (now : Z)
    : result handler_error Tx :=
  r ← dispatchEvent isUser isStream alone tx ev now; Ok r.1.

#[global] Instance dispatchHandler_safe : SafeHandler dispatchHandler.
Proof.
  intros d ev now e H. apply bind_Err in H as [H|(r & _ & H)]; [|done].
  pose proof (dispatch_not_P2002 isUser isStream d ev now) as Hn.
  destruct e as [c| |]; [|done..]. cbn. apply bool_decide_eq_false. intros ->. by apply Hn.
Qed.

Lemma replay_run log : ∀ tx tx', replay dispatchHandler tx log = Ok tx' → run isUser isStream tx log = tx'.
Proof.
  induction log as [|[ev now] log IH]; intros tx tx'; cbn [replay run foldl]; [by intros [= <-]|].
  intros H. apply bind_Ok in H as (d & Hd & H). apply bind_Ok in Hd as ([d1 effs] & Hd & H1). injection H1 as <-.
  apply IH in H. rewrite <-H. unfold run, commit. cbn [fst snd foldl]. by rewrite Hd.
Qed.

(** C3: End to end: whatever the RPC delivers, in whatever order and however often, and
    however often the service restarts or an event fails, a trade in the database
    only ever moves forward along its lifecycle, and its version counts exactly
    the steps it took; parties and amount never change. *)
Theorem listener_lifecycle (so : bool) (ops : list (op (ScVal := ScVal))) l
    (db : Db (D := Tx (TT := TT) (TD := TD) (TC := TC)) (TP := TP) (TO := TO)) l' db' log k t :
  keyedTrades (trades (app db)) → findUnique k (trades (app db)) = Some t →
  runOps scValToNative errorText dispatchHandler config so (l, db) ops = (l', db', log) →
  ∃ t', findUnique k (trades (app db')) = Some t' ∧ version t ≤ version t' ∧
    nsteps edge (Z.to_nat (version t' - version t)) (status t) (status t') ∧
    buyerAddress t' = buyerAddress t ∧ sellerAddress t' = sellerAddress t ∧ amountUsdc t' = amountUsdc t.
Proof.
  intros Hk Ht Hr. apply runOps_spec in Hr as (_ & _ & _ & Hrep). apply replay_run in Hrep.
  destruct (run_lifecycle isUser isStream (app db) log k t Hk Ht) as (t' & Hfin & H).
  rewrite Hrep in Hfin. exists t'. naive_solver.
Qed.

(** C4: No event is dropped. With the handlers of the code base, each transaction running alone
    (where none of them violates a unique constraint), and contract ids without a colon: a
    delivered event whose processing returns is either committed (its marker is stored) or
    kept in the outbox as pending, retrying or dead-lettered; and it leaves the listener
    sound again, so that the in-memory cache never hides an event that was not committed. *)
Theorem no_event_dropped (so : bool) l
    (db : Db (D := Tx (TT := TT) (TD := TD) (TC := TC)) (TP := TP) (TO := TO)) ev now l' db' r :
  sound l db → lacks ":" (contractId ev) →
  processParsed errorText dispatchHandler config so (λ db, db) l db ev now = (l', db', r) →
  sound l' db' ∧ (r = Ok tt → recorded (keyOf ev) db').
Proof. apply processParsed_sound. exact _. Qed.
End Composition.

(** ** Witnesses *)

Definition sampleConfig : EventListenerConfig :=
  {| rpcUrl := "http://rpc"; cfg_contractId := "C"; pollIntervalMs := 10000; backoffInitialMs := 1000;
     backoffMaxMs := 30000; processedLedgersCacheSize := 2; outboxMaxAttempts := 5 |}.

(** An application state that counts the events it saw, and refuses clawbacks. *)
Definition countHandler (d : Z) (ev : ParsedEvent) (now : Z) : result handler_error Z :=
  match eventType ev with StreamClawback => Err ConcurrencyConflict | _ => Ok (d + 1) end.

Abbreviation SampleDb := (Db (D := Z) (TP := gmap eventKey eventKey) (TO := gmap eventKey OutboxRow)).
Definition emptyDb : SampleDb := mkDb 0 (∅ : gmap eventKey eventKey) (∅ : gmap eventKey OutboxRow).

Definition rawOf (sym id : string) (led : Z) : RawEvent (ScVal := string) :=
  {| topic := Some [sym]; ledger := led; raw_contractId := Some "C"%string; raw_id := id; value := None |}.

Abbreviation native := (λ s : string, Some (VStr s)).
Abbreviation noText := (λ _ : handler_error, ""%string).

Lemma evictOldEvents_spec_witness :
  Z.of_nat (length (evictOldEvents sampleConfig ["7:C:a"; "5:C:b"; "6:C:c"]%string)) = 2.
Proof.
  apply (evictOldEvents_spec sampleConfig ["7:C:a"; "5:C:b"; "6:C:c"]%string); [|cbn; lia].
  repeat (constructor; [set_solver|]). constructor.
Defined.

Lemma handleBackoff_bounds_witness :
  currentBackoffMs (handleBackoff sampleConfig (1 # 2)
    (start emptyDb (newListener sampleConfig))) = 2000.
Proof.
  destruct (handleBackoff_bounds sampleConfig (1 # 2) (start emptyDb (newListener sampleConfig))) as (_ & [H|H] & _);
    [vm_compute; reflexivity|split; vm_compute; discriminate|vm_compute; discriminate| |].
  - rewrite H. vm_compute. reflexivity.
  - exfalso. vm_compute in H. discriminate H.
Defined.

(** One event twice, a restart, and the event once more: it is committed once. *)
Lemma exactly_once_witness :
  let ops := [Deliver (rawOf "TRDFND" "e1" 7) 1; Deliver (rawOf "TRDFND" "e1" 7) 2; Restart;
              Deliver (rawOf "TRDFND" "e1" 7) 3] in
  let '(_, db', log) := runOps native noText countHandler sampleConfig true (newListener sampleConfig, emptyDb) ops in
  app db' = 1 ∧ length log = 1%nat ∧ NoDup (map (λ e, keyOf e.1) log).
Proof.
  cbv zeta.
  destruct (runOps native noText countHandler sampleConfig true (newListener sampleConfig, emptyDb)
    [Deliver (rawOf "TRDFND" "e1" 7) 1; Deliver (rawOf "TRDFND" "e1" 7) 2; Restart; Deliver (rawOf "TRDFND" "e1" 7) 3])
    as [[l' db'] log] eqn:Hr.
  pose proof (exactly_once native noText countHandler sampleConfig true _ _ _ l' db' log Hr) as (Hnd & _).
  assert (Hres : app (l', db', log).1.2 = 1 ∧ length (l', db', log).2 = 1%nat)
    by (rewrite <-Hr; vm_compute; split; reflexivity).
  split; [exact (proj1 Hres)|]. split; [exact (proj2 Hres)|exact Hnd].
Defined.

Definition fundedEvent : ParsedEvent :=
  {| eventType := TradeFunded; ev_tradeId := "t1"; ledgerSequence := 9; contractId := "C"; eventId := "e2"; data := [] |}.
Definition clawbackEvent : ParsedEvent :=
  {| eventType := StreamClawback; ev_tradeId := "s1"; ledgerSequence := 7; contractId := "C"; eventId := "e1"; data := [] |}.

(** Another worker that commits [fundedEvent]. *)
Definition otherWorker (db : SampleDb) : SampleDb :=
  mkDb (app db + 1) (<[keyOf fundedEvent := keyOf fundedEvent]> (processed db)) (outbox db).

Lemma concurrent_duplicate_harmless_witness :
  let '(_, db', _) := processParsed noText countHandler sampleConfig false otherWorker
    (newListener sampleConfig) emptyDb fundedEvent 5 in
  app db' = 1 ∨ app db' = 0.
Proof.
  destruct (processParsed noText countHandler sampleConfig false otherWorker (newListener sampleConfig) emptyDb fundedEvent 5)
    as [[l' db'] r] eqn:Hr.
  apply (concurrent_duplicate_harmless noText countHandler sampleConfig false otherWorker (newListener sampleConfig) emptyDb
    fundedEvent 5 l' db' r); [|exact Hr].
  intros d Hd. split; [|by cbn; rewrite Hd].
  exists (keyOf fundedEvent). cbn. apply lookup_insert_eq.
Defined.

(** A database without trades, and an event it cannot handle: it goes to the outbox. *)
Abbreviation TradeDb := (Db (D := Tx (TT := gmap string TradeRow) (TD := gmap string DisputeRow) (TC := gmap (string * string) ClawbackRow))
  (TP := gmap eventKey eventKey) (TO := gmap eventKey OutboxRow)).
Definition noTrades : TradeDb := mkDb (mkTx (∅ : gmap string TradeRow) (∅ : gmap string DisputeRow) (∅ : gmap (string * string) ClawbackRow))
  (∅ : gmap eventKey eventKey) (∅ : gmap eventKey OutboxRow).

Lemma noTrades_sound : sound (newListener sampleConfig) noTrades.
Proof.
  split; cbn.
  - set_solver.
  - intros k [x Hx]. by rewrite lookup_empty in Hx.
  - intros k row Hr. by rewrite lookup_empty in Hr.
Qed.

Lemma no_event_dropped_witness :
  let '(_, db', r) := processParsed noText (dispatchHandler (λ _, true) (λ _, false)) sampleConfig true (λ db, db)
    (newListener sampleConfig) noTrades fundedEvent 5 in
  r = Ok tt ∧ recorded (keyOf fundedEvent) db'.
Proof.
  destruct (processParsed noText (dispatchHandler (λ _, true) (λ _, false)) sampleConfig true (λ db, db) (newListener sampleConfig) noTrades fundedEvent 5)
    as [[l' db'] r] eqn:Hr.
  assert (r = Ok tt) as Hok by (transitivity (processParsed noText (dispatchHandler (λ _, true) (λ _, false)) sampleConfig true (λ db, db)
    (newListener sampleConfig) noTrades fundedEvent 5).2; [by rewrite Hr|vm_compute; reflexivity]).
  destruct (no_event_dropped noText (λ _, true) (λ _, false) sampleConfig true (newListener sampleConfig) noTrades fundedEvent 5 l' db' r
    noTrades_sound eq_refl Hr) as [_ H].
  split; [exact Hok|exact (H Hok)].
Defined.

Lemma handler_unique_violation_loses_event_witness :
  processParsed noText (λ (_ : Z) (_ : ParsedEvent) (_ : Z), Err (PrismaCode "P2002")) sampleConfig false (λ db, db)
    (newListener sampleConfig) emptyDb fundedEvent 5
  = (remember sampleConfig (keyOf fundedEvent) (newListener sampleConfig), emptyDb, Ok tt).
Proof. apply handler_unique_violation_loses_event; [reflexivity|cbn; set_solver|reflexivity]. Defined.

Definition afterBad : EventListener * SampleDb * result handler_error unit :=
  processParsed noText countHandler sampleConfig true (λ db, db) (newListener sampleConfig) emptyDb clawbackEvent 5.
Definition afterGood : EventListener * SampleDb * result handler_error unit :=
  processParsed noText countHandler sampleConfig true (λ db, db) afterBad.1.1 afterBad.1.2 fundedEvent 5.

Lemma cursor_passes_failed_event_witness :
  lastLedger afterBad.1.1 = 0 ∧ 7 < lastLedger afterGood.1.1 + 1.
Proof.
  apply (cursor_passes_failed_event noText countHandler sampleConfig (newListener sampleConfig) emptyDb clawbackEvent
    fundedEvent 5 ConcurrencyConflict afterBad.1.1 afterBad.1.2 afterGood.1.1 afterGood.1.2).
  - reflexivity.
  - reflexivity.
  - cbn. lia.
  - cbn. set_solver.
  - reflexivity.
  - reflexivity.
  - vm_compute. reflexivity.
  - cbn. lia.
  - vm_compute. reflexivity.
  - vm_compute. reflexivity.
  - vm_compute. by eexists.
Defined.

Lemma outbox_attempts_bounded_witness :
  let '(_, db', _) := runOps native noText countHandler sampleConfig true (newListener sampleConfig, emptyDb)
    [Deliver (rawOf "CLWBCK" "e1" 7) 1; Deliver (rawOf "CLWBCK" "e1" 7) 5000] in
  outboxInv sampleConfig db'.
Proof.
  destruct (runOps native noText countHandler sampleConfig true (newListener sampleConfig, emptyDb)
    [Deliver (rawOf "CLWBCK" "e1" 7) 1; Deliver (rawOf "CLWBCK" "e1" 7) 5000]) as [[l' db'] log] eqn:Hr.
  apply (outbox_attempts_bounded native noText countHandler sampleConfig true
    [Deliver (rawOf "CLWBCK" "e1" 7) 1; Deliver (rawOf "CLWBCK" "e1" 7) 5000] (newListener sampleConfig) emptyDb l' db' log); [|exact Hr].
  intros k row H. cbn in H. by rewrite lookup_empty in H.
Defined.

Definition tradeDb : Db (D := DB) (TP := gmap eventKey eventKey) (TO := gmap eventKey OutboxRow) :=
  mkDb (sampleTx CREATED) (∅ : gmap eventKey eventKey) (∅ : gmap eventKey OutboxRow).

Lemma listener_lifecycle_witness :
  let '(_, db', _) := runOps native noText (dispatchHandler sampleUser (λ _, true)) sampleConfig true
    (newListener sampleConfig, tradeDb) [Deliver (rawOf "TRDFND" "e1" 7) 1] in
  ∃ t', findUnique "t1"%string (trades (app db')) = Some t' ∧ 1 ≤ version t'.
Proof.
  destruct (runOps native noText (dispatchHandler sampleUser (λ _, true)) sampleConfig true
    (newListener sampleConfig, tradeDb) [Deliver (rawOf "TRDFND" "e1" 7) 1]) as [[l' db'] log] eqn:Hr.
  destruct (listener_lifecycle native noText sampleUser (λ _, true) sampleConfig true _ (newListener sampleConfig) tradeDb
    l' db' log "t1" (sampleTrade CREATED) (sampleTx_keyed CREATED) ltac:(reflexivity) Hr) as (t' & H & Hv & _).
  exists t'. split; [exact H|exact Hv].
Defined.
