(* ===== verification/Trades.v ===== *)
(** * The trade service: [services/trade.service.ts], [services/trade.watchlist.service.ts], [lib/dbPoolErrors.ts]

    Creating, listing, reading and disputing trades on behalf of a wallet, and a
    wallet's watchlist. The tables are Prisma tables ([Prisma.Table]); [findMany]
    returns rows in no particular order, and the [orderBy], [skip] and [take] of
    a query are applied here. Strings are ordered by code units (the database's
    C collation) and statuses by their declaration. The dispute service's
    contract call and SHA-256 are arguments. *)

From S2P Require Import Prelude JsString JsValue Errors DbClient Prisma Money.
From S2P Require EventHandlers.
Import EventHandlers (TradeStatus, TradeStatus_eq_dec, PENDING_SIGNATURE, CREATED, FUNDED, DELIVERED, COMPLETED,
  DISPUTED, CANCELLED, EXPIRED).

(** ** Rows *)

Record Trade : Type := {
  id : Z;
  tradeId : string;
  buyerAddress : string;
  sellerAddress : string;
  amountUsdc : string;
  buyerLossBps : Z;
  sellerLossBps : Z;
  version : Z;
  status : TradeStatus;
  expiresAt : option Z;
  expiredAt : option Z;
  createdAt : Z;
  updatedAt : Z;
}.

#[global] Instance Trade_eq_dec : EqDecision Trade.
Proof. solve_decision. Defined.

(** ** Ordering *)

Inductive SortField : Type :=
| SId | STradeId | SBuyerAddress | SSellerAddress | SAmountUsdc | SStatus | SCreatedAt | SUpdatedAt.
Inductive SortDirection : Type := Asc | Desc.

Definition statusIndex (s : TradeStatus) : Z :=
  match s with
  | PENDING_SIGNATURE => 0 | CREATED => 1 | FUNDED => 2 | DELIVERED => 3
  | COMPLETED => 4 | DISPUTED => 5 | CANCELLED => 6 | EXPIRED => 7
  end.

Definition fieldCmp (f : SortField) (x y : Trade) : Z :=
  match f with
  | SId => id x - id y
  | STradeId => strCmp (tradeId x) (tradeId y)
  | SBuyerAddress => strCmp (buyerAddress x) (buyerAddress y)
  | SSellerAddress => strCmp (sellerAddress x) (sellerAddress y)
  | SAmountUsdc => strCmp (amountUsdc x) (amountUsdc y)
  | SStatus => statusIndex (status x) - statusIndex (status y)
  | SCreatedAt => createdAt x - createdAt y
  | SUpdatedAt => updatedAt x - updatedAt y
  end.

Definition directed (o : SortField * SortDirection) (x y : Trade) : Z :=
  match o.2 with Asc => fieldCmp o.1 x y | Desc => fieldCmp o.1 y x end.

(** [orderBy: [o1, o2, ...]] *)
Definition orderCmp (os : list (SortField * SortDirection)) : Trade → Trade → Z :=
  foldr (λ o c, cmpLex (directed o) c) (λ _ _, 0) os.

Definition allowedFields : list (string * SortField) :=
  [("id", SId); ("tradeId", STradeId); ("buyerAddress", SBuyerAddress); ("sellerAddress", SSellerAddress);
   ("amountUsdc", SAmountUsdc); ("status", SStatus); ("createdAt", SCreatedAt); ("updatedAt", SUpdatedAt)]%string.

Fixpoint assocFind {A} (k : string) (l : list (string * A)) : option A :=
  match l with [] => None | (k', v) :: l' => if bool_decide (k = k') then Some v else assocFind k l' end.

Definition defaultOrder : list (SortField * SortDirection) := [(SCreatedAt, Desc); (SId, Desc)].

Definition parseSort (sort : option string) : list (SortField * SortDirection) :=
  match sort with
  | None | Some ""%string => defaultOrder
  | Some s =>
      let parts := split ":" s in
      let fieldRaw := nth 0 parts ""%string in
      let direction := match nth_error parts 1 with
                       | Some d => if bool_decide (toLowerCase d = "asc"%string) then Asc else Desc
                       | None => Desc
                       end in
      match assocFind fieldRaw allowedFields with
      | None => defaultOrder
      | Some SId => [(SId, direction)]
      | Some f => [(f, direction); (SId, direction)]
      end
  end.

(** ** The service *)

Record TradeListFilters : Type := {
  f_status : option TradeStatus; f_page : option Z; f_limit : option Z; f_sort : option string }.

Record Pagination : Type := { page : Z; limit : Z; total : Z; totalPages : Z }.
Record TradeList : Type := { items : list Trade; pagination : Pagination }.

Record CreatePendingTradeInput : Type := {
  in_tradeId : string; in_buyerAddress : string; in_sellerAddress : string; in_amountUsdc : string;
  in_buyerLossBps : Z; in_sellerLossBps : Z }.

Record WatchEntry : Type := { w_id : Z; w_userAddress : string; w_tradeId : string; w_createdAt : Z }.
Definition watchKey : Type := string * string.

Record Dispute : Type := {
  d_tradeId : string; d_initiator : string; d_reason : string; d_categoryId : Z }.
Record DisputeCategory : Type := { cat_id : Z; cat_name : string; cat_isActive : bool }.

Inductive trade_error : Type :=
| TradeAccessDeniedError
| DisputeTradeStatusError (current : TradeStatus)
| DisputeCategoryValidationError (category : string)
| WatchTradeNotFoundError
| WatchTradeAccessDeniedError
| TradeNotFound
| Raised (e : error)
| PrismaError (code message : string)
| ContractError (message : string).

(** [lib/dbPoolErrors.ts] *)
Definition PRISMA_POOL_EXHAUSTION_CODE : string := "P2024".
Definition POOL_TIMEOUT_MESSAGE : string := "timed out fetching a new connection from the connection pool".

(** The [message] of a caught value: of an [Error], or an own property. *)
Definition messageOf (e : jsval) : option string :=
  match e with
  | VObj (Some m) _ => Some m
  | VObj None fs => match lookupField "message" fs with VStr m => Some m | _ => None end
  | _ => None
  end.

(** On a caught value of unknown shape. *)
Definition isPrismaPoolExhaustionError (e : jsval) : bool :=
  isObject e &&
  (match getProp e "code" with VStr c => bool_decide (c = PRISMA_POOL_EXHAUSTION_CODE) | _ => false end ||
   match messageOf e with Some msg => contains POOL_TIMEOUT_MESSAGE (toLowerCase msg) | None => false end).

Definition toPoolExhaustionAppError (operation : string) : error :=
  AppError INFRA_ERROR ("Database connection pool exhausted while handling " +:+ operation +:+
    ". The request was not completed; retry after a short backoff.") 503.

Definition prismaErrorValue (code message : string) : jsval := VObj (Some message) [("code"%string, VStr code)].

Definition parseAdminPubkeys (raw : string) : list string :=
  List.filter (λ s, negb (bool_decide (s = ""%string))) (map (λ s, toLowerCase (trim s)) (split "," raw)).

Definition seqb (a b : string) : bool := bool_decide (a = b).

Section Service.
Context {TT TW TD TC : Type} `{!Table string Trade TT} `{!Table watchKey WatchEntry TW}
  `{!Table string Dispute TD} `{!Table Z DisputeCategory TC}.
Context (ADMIN_STELLAR_PUBKEYS : string).

(** [prisma.trade.create] gives the row its id and times; [dbFailure] is a failure
    of the insert other than a taken trade id. *)
Definition createPendingTrade (trades : TT) (input : CreatePendingTradeInput) (newId now : Z)
    (dbFailure : option (string * string)) : TT * result trade_error Trade :=
  let row := {| id := newId; tradeId := in_tradeId input; buyerAddress := storedAddress (in_buyerAddress input);
                sellerAddress := storedAddress (in_sellerAddress input); amountUsdc := in_amountUsdc input;
                buyerLossBps := in_buyerLossBps input; sellerLossBps := in_sellerLossBps input;
                version := 0; status := PENDING_SIGNATURE; expiresAt := None; expiredAt := None;
                createdAt := now; updatedAt := now |} in
  let failed code message :=
    if isPrismaPoolExhaustionError (prismaErrorValue code message)
    then Err (Raised (toPoolExhaustionAppError "create_pending_trade"))
    else Err (PrismaError code message) in
  match dbFailure with
  | Some (code, message) => (trades, failed code message)
  | None => match create (in_tradeId input) row trades with
            | Some trades' => (trades', Ok row)
            | None => (trades, failed "P2002" "Unique constraint failed")
            end
  end.

Definition statusFilter (s : option TradeStatus) (t : Trade) : bool :=
  match s with Some s => bool_decide (status t = s) | None => true end.

(** The [where] of the listings. *)
Definition whereParty (address : string) (s : option TradeStatus) (t : Trade) : bool :=
  (seqb (buyerAddress t) address || seqb (sellerAddress t) address) && statusFilter s t.
Definition whereMembers (members : list string) (s : option TradeStatus) (t : Trade) : bool :=
  (bool_decide (buyerAddress t ∈ members) || bool_decide (sellerAddress t ∈ members)) && statusFilter s t.

Definition pageOf (f : TradeListFilters) : Z := Z.max 1 (default 1 (f_page f)).
Definition limitOf (f : TradeListFilters) : Z := Z.min 100 (Z.max 1 (default 20 (f_limit f))).

(** [findMany({ where, orderBy, skip, take })] *)
Definition query (trades : TT) (where_ : Trade → bool) (orderBy : list (SortField * SortDirection)) (skip take_ : Z) : list Trade :=
  slice skip take_ (js_sort (orderCmp orderBy) (findMany where_ trades)).

Definition listing (trades : TT) (where_ : Trade → bool) (f : TradeListFilters) : TradeList :=
  let pg := pageOf f in let lim := limitOf f in
  let tot := Z.of_nat (length (findMany where_ trades)) in
  {| items := query trades where_ (parseSort (f_sort f)) ((pg - 1) * lim) lim;
     pagination := {| page := pg; limit := lim; total := tot; totalPages := pagesOf tot lim |} |}.

(** The caller's bookmarks, newest first, joined with their trades. *)
Definition entryCmp (x y : WatchEntry) : Z := cmpLex (λ x y, w_createdAt y - w_createdAt x) (λ x y, w_id y - w_id x) x y.
Definition watchedBy (trades : TT) (watch : TW) (address : string) : list Trade :=
  omap (λ e, findUnique (w_tradeId e) trades)
    (js_sort entryCmp (findMany (λ e, seqb (w_userAddress e) (toLowerCase address)) watch)).

Definition listUserTrades (trades : TT) (watchlist : option TW) (address : string) (f : TradeListFilters) : TradeList :=
  let where_ := whereParty address (f_status f) in
  match watchlist with
  | None => listing trades where_ f
  | Some watch =>
      let pg := pageOf f in let lim := limitOf f in let skip := (pg - 1) * lim in
      let tot := Z.of_nat (length (findMany where_ trades)) in
      let watched := List.filter (statusFilter (f_status f)) (watchedBy trades watch address) in
      let watchedIds := map tradeId watched in
      let watchedPage := slice skip lim watched in
      let remainingSlots := lim - Z.of_nat (length watchedPage) in
      let remainingSkip := Z.max 0 (skip - Z.of_nat (length watched)) in
      let unwatchlisted :=
        if 0 <? remainingSlots then
          query trades (λ t, where_ t && negb (bool_decide (tradeId t ∈ watchedIds)))
            (parseSort (f_sort f)) remainingSkip remainingSlots
        else [] in
      {| items := watchedPage ++ unwatchlisted;
         pagination := {| page := pg; limit := lim; total := tot; totalPages := pagesOf tot lim |} |}
  end.

Definition listCooperativeTrades (trades : TT) (members : list string) (f : TradeListFilters) : TradeList :=
  listing trades (whereMembers members (f_status f)) f.

(** By trade id, or by row id when the text is a positive integer. *)
Definition matchesId (ident : string) (t : Trade) : bool :=
  seqb (tradeId t) ident ||
  match StringToNumber ident with JInt n => (0 <? n) && (id t =? n) | _ => false end.

Definition isParty (caller : string) (t : Trade) : bool :=
  seqb (toLowerCase (buyerAddress t)) caller || seqb (toLowerCase (sellerAddress t)) caller.

Definition getTradeById (trades : TT) (ident callerAddress : string) : result trade_error (option Trade) :=
  match findFirst (matchesId ident) trades with
  | None => Ok None
  | Some t =>
      let caller := toLowerCase callerAddress in
      if isParty caller t || bool_decide (caller ∈ parseAdminPubkeys ADMIN_STELLAR_PUBKEYS)
      then Ok (Some t) else Err TradeAccessDeniedError
  end.

Record UserStats : Type := { totalTrades : Z; totalVolume : string; openTrades : Z }.

Definition openStatuses : list TradeStatus := [PENDING_SIGNATURE; CREATED; FUNDED; DELIVERED; DISPUTED].

Definition addVolume (sum : Z) (t : Trade) : Z :=
  match parseDecimalToStroops (AString (amountUsdc t)) MONEY_DECIMALS with Ok v => sum + v | Err _ => sum end.

Definition getUserStats (trades : TT) (address : string) : UserStats :=
  let rows := findMany (λ t, seqb (buyerAddress t) address || seqb (sellerAddress t) address) trades in
  {| totalTrades := Z.of_nat (length rows);
     totalVolume := formatStroopsToDecimal (foldl addVolume 0 rows) MONEY_DECIMALS;
     openTrades := Z.of_nat (length (List.filter (λ t, bool_decide (status t ∈ openStatuses)) rows)) |}.

Definition resolveDisputeCategoryId (categories : TC) (category : string) (categoryId : option Z) : result trade_error Z :=
  match categoryId with
  | Some c =>
      match findFirst (λ r, (cat_id r =? c) && cat_isActive r) categories with
      | Some r => Ok (cat_id r)
      | None => Err (DisputeCategoryValidationError (toString c))
      end
  | None =>
      let normalizedCategory := trim category in
      if seqb normalizedCategory "" then Err (DisputeCategoryValidationError category)
      else match findFirst (λ r, seqb (cat_name r) normalizedCategory && cat_isActive r) categories with
           | Some r => Ok (cat_id r)
           | None => Err (DisputeCategoryValidationError normalizedCategory)
           end
  end.

(** [sha256] and the contract's transaction builder are third-party. *)
Definition initiateDispute (sha256 : string → string) (buildInitiateDisputeTx : string → string → string → result trade_error string)
    (trades : TT) (disputes : TD) (categories : TC) (ident callerAddress reason category : string) (categoryId : option Z)
    : TD * result trade_error string :=
  let checked :=
    found ← getTradeById trades ident callerAddress;
    trade ← match found with Some t => Ok t | None => Err TradeNotFound end;
    _ ← throwIf (negb (seqb (buyerAddress trade) callerAddress) && negb (seqb (sellerAddress trade) callerAddress))
          TradeAccessDeniedError;
    _ ← throwIf (negb (bool_decide (status trade = FUNDED)) && negb (bool_decide (status trade = DELIVERED)))
          (DisputeTradeStatusError (status trade));
    cid ← resolveDisputeCategoryId categories category categoryId;
    xdr ← buildInitiateDisputeTx (tradeId trade) callerAddress (sha256 reason);
    mret (trade, cid, xdr) in
  match checked with
  | Err e => (disputes, Err e)
  | Ok (trade, cid, xdr) =>
      match create (tradeId trade) {| d_tradeId := tradeId trade; d_initiator := storedAddress callerAddress; d_reason := reason;
                                      d_categoryId := cid |} disputes with
      | Some disputes' => (disputes', Ok xdr)
      | None => (disputes, Err (PrismaError "P2002" "Unique constraint failed"))
      end
  end.

(** ** The watchlist *)

Definition assertTradeAccess (trades : TT) (tid userAddress : string) : result trade_error Trade :=
  match findUnique tid trades with
  | None => Err WatchTradeNotFoundError
  | Some t => if isParty (toLowerCase userAddress) t then Ok t else Err WatchTradeAccessDeniedError
  end.

(** [upsert] with an empty update. *)
Definition watchAdd (trades : TT) (watch : TW) (tid userAddress : string) (newId now : Z) : TW * result trade_error WatchEntry :=
  match assertTradeAccess trades tid userAddress with
  | Err e => (watch, Err e)
  | Ok t =>
      let user := toLowerCase userAddress in
      match findUnique (user, tradeId t) watch with
      | Some e => (watch, Ok e)
      | None =>
          let e := {| w_id := newId; w_userAddress := user; w_tradeId := tradeId t; w_createdAt := now |} in
          match create (user, tradeId t) e watch with
          | Some watch' => (watch', Ok e)
          | None => (watch, Err (PrismaError "P2002" "Unique constraint failed"))
          end
      end
  end.

Definition watchRemove (trades : TT) (watch : TW) (tid userAddress : string) : TW * result trade_error bool :=
  match assertTradeAccess trades tid userAddress with
  | Err e => (watch, Err e)
  | Ok t =>
      let '(count, watch') := deleteMany (λ e, seqb (w_userAddress e) (toLowerCase userAddress) && seqb (w_tradeId e) (tradeId t)) watch in
      (watch', Ok (0 <? count))
  end.

Definition watchList (trades : TT) (watch : TW) (userAddress : string) : list Trade := watchedBy trades watch userAddress.
End Service.

(** ** Ordering *)

Lemma fieldCmp_comparator f : Comparator (fieldCmp f).
Proof.
  destruct f.
  - apply (comparator_key Z.sub id), comparator_sub.
  - apply (comparator_key strCmp tradeId), strCmp_comparator.
  - apply (comparator_key strCmp buyerAddress), strCmp_comparator.
  - apply (comparator_key strCmp sellerAddress), strCmp_comparator.
  - apply (comparator_key strCmp amountUsdc), strCmp_comparator.
  - apply (comparator_key Z.sub (λ t, statusIndex (status t))), comparator_sub.
  - apply (comparator_key Z.sub createdAt), comparator_sub.
  - apply (comparator_key Z.sub updatedAt), comparator_sub.
Qed.

Lemma orderCmp_comparator os : Comparator (orderCmp os).
Proof.
  induction os as [|[f d] os IH]; cbn; [split; intros; lia|]. apply comparator_lex; [|done].
  unfold directed. destruct d; cbn; [|apply (comparator_flip (fieldCmp f))]; apply fieldCmp_comparator.
Qed.

(** Every order the API accepts ends with the row id, so it decides all ties. *)
Lemma parseSort_ends_with_id sort : ∃ os d, parseSort sort = os ++ [(SId, d)].
Proof.
  unfold parseSort, defaultOrder. destruct sort as [[|c s]|]; [by exists [(SCreatedAt, Desc)], Desc| |by exists [(SCreatedAt, Desc)], Desc].
  destruct (assocFind _ _) as [f|]; [|by exists [(SCreatedAt, Desc)], Desc].
  destruct f; first [by exists [], (match nth_error (split ":" (String c s)) 1 with
    | Some d => if bool_decide (toLowerCase d = "asc"%string) then Asc else Desc | None => Desc end)
    | by eexists [_], _].
Qed.

Lemma orderCmp_tie os d x y : orderCmp (os ++ [(SId, d)]) x y = 0 → id x = id y.
Proof.
  induction os as [|o os IH]; unfold orderCmp; cbn; unfold cmpLex, directed.
  - destruct d; cbn; destruct (Z.eqb_spec (id x - id y) 0), (Z.eqb_spec (id y - id x) 0); lia.
  - destruct (Z.eqb_spec (match o.2 with Asc => fieldCmp o.1 x y | Desc => fieldCmp o.1 y x end) 0); [apply IH|lia].
Qed.

(** ** Listing *)

Section Facts.
Context {TT TW TD TC : Type} `{!Table string Trade TT, !TableLaws string Trade TT}
  `{!Table watchKey WatchEntry TW, !TableLaws watchKey WatchEntry TW}
  `{!Table string Dispute TD, !TableLaws string Dispute TD}
  `{!Table Z DisputeCategory TC, !TableLaws Z DisputeCategory TC}.
Context (adm : string).

(** The filters of page [k] (from 0). *)
Definition atPage (f : TradeListFilters) (k : nat) : TradeListFilters :=
  {| f_status := f_status f; f_page := Some (Z.of_nat k + 1); f_limit := f_limit f; f_sort := f_sort f |}.

Lemma atPage_skip f k : (pageOf (atPage f k) - 1) * limitOf (atPage f k) = Z.of_nat k * limitOf f.
Proof. unfold pageOf, limitOf, atPage. cbn [f_page f_limit default from_option]. unfold Datatypes.id. f_equal. lia. Qed.

Lemma limitOf_bounds f : 1 ≤ limitOf f ≤ 100.
Proof. unfold limitOf. lia. Qed.

Lemma where_filter (w q : Trade → bool) (trades : TT) : keyed tradeId trades →
  findMany w trades ≡ₚ List.filter q (findMany w trades) ++ findMany (λ t, w t && negb (q t)) trades.
Proof.
  intros Hk. rewrite <-(findMany_perm tradeId w (λ t, negb (q t)) trades Hk).
  induction (findMany w trades) as [|t l IH]; [done|]. cbn [List.filter].
  destruct (q t); cbn [negb app]; rewrite <-?Permutation_middle; by f_equiv.
Qed.

(** Paging through a listing (a wallet's trades or a cooperative's) from the
    first page to [totalPages] shows every selected trade exactly once and
    nothing else, in the requested order; [total] counts them. *)
Theorem listing_pages (trades : TT) (where_ : Trade → bool) (f : TradeListFilters) : keyed tradeId trades →
  let pg := pagination (listing trades where_ f) in
  let shown := concat (map (λ k, items (listing trades where_ (atPage f k))) (seq 0 (Z.to_nat (totalPages pg)))) in
  NoDup (tradeId <$> shown) ∧
  (∀ t, t ∈ shown ↔ where_ t = true ∧ ∃ k, findUnique k trades = Some t) ∧
  StronglySorted (cmp_le (orderCmp (parseSort (f_sort f)))) shown ∧
  total pg = Z.of_nat (length shown).
Proof.
  intros Hk pg shown.
  assert (shown = js_sort (orderCmp (parseSort (f_sort f))) (findMany where_ trades)) as Hs.
  { unfold shown, listing. cbn [items]. unfold query.
    erewrite map_ext; [|intros k; by rewrite atPage_skip].
    change (limitOf (atPage f _)) with (limitOf f). change (f_sort (atPage f _)) with (f_sort f).
    pose proof (limitOf_bounds f). rewrite slices_concat by lia. apply take_ge.
    rewrite js_sort_perm. unfold pg, listing. cbn [pagination totalPages].
    pose proof (pagesOf_enough (Z.of_nat (length (findMany where_ trades))) (limitOf f) ltac:(lia)). nia. }
  rewrite Hs. split; [|split; [|split]].
  - rewrite js_sort_perm. by apply findMany_NoDup.
  - intros t. rewrite js_sort_perm, findMany_elem. naive_solver.
  - apply js_sort_sorted; [apply comparator_total|apply cmp_le_trans]; apply orderCmp_comparator.
  - unfold pg, listing. cbn [pagination total]. by rewrite js_sort_perm.
Qed.

(** A listing does not depend on the order the database returns rows in. *)
Theorem listing_deterministic (trades trades' : TT) (where_ : Trade → bool) (f : TradeListFilters) :
  findMany where_ trades ≡ₚ findMany where_ trades' → 
  (∀ x y, x ∈ findMany where_ trades → y ∈ findMany where_ trades → id x = id y → x = y) →
  listing trades where_ f = listing trades' where_ f.
Proof.
  intros Hp Hid. unfold listing, query. rewrite Hp at 2 3. do 2 f_equal.
  apply js_sort_unique; [apply orderCmp_comparator|done|]. intros x y Hx Hy Hc. apply Hid; [done..|].
  destruct (parseSort_ends_with_id (f_sort f)) as (os & d & He). rewrite He in Hc. by eapply orderCmp_tie.
Qed.

(** ** Listing with a watchlist *)

Lemma slice_app (skip lim : Z) (A B : list Trade) : 0 ≤ skip → 0 < lim →
  slice skip lim (A ++ B) =
  slice skip lim A ++
  (let slots := lim - Z.of_nat (length (slice skip lim A)) in
   if 0 <? slots then slice (Z.max 0 (skip - Z.of_nat (length A))) slots B else []).
Proof.
  intros Hs Hl. unfold slice. cbv zeta.
  rewrite drop_app, take_app, length_take, length_drop. f_equal.
  destruct (Z.ltb_spec 0 (lim - Z.of_nat (Z.to_nat lim `min` (length A - Z.to_nat skip)))).
  - f_equal; [lia|]. f_equal. lia.
  - replace (Z.to_nat lim - (length A - Z.to_nat skip))%nat with 0%nat by lia. done.
Qed.

(** The watched trades, and the order of the whole listing. *)
Definition watchedOf (trades : TT) (watch : TW) (address : string) (f : TradeListFilters) : list Trade :=
  List.filter (statusFilter (f_status f)) (watchedBy trades watch address).
Definition restOf (trades : TT) (watch : TW) (address : string) (f : TradeListFilters) : list Trade :=
  js_sort (orderCmp (parseSort (f_sort f)))
    (findMany (λ t, whereParty address (f_status f) t &&
                    negb (bool_decide (tradeId t ∈ map tradeId (watchedOf trades watch address f)))) trades).

Lemma watchlist_page (trades : TT) (watch : TW) address f k :
  items (listUserTrades trades (Some watch) address (atPage f k)) =
  slice (Z.of_nat k * limitOf f) (limitOf f) (watchedOf trades watch address f ++ restOf trades watch address f).
Proof.
  pose proof (limitOf_bounds f). rewrite slice_app by lia. unfold listUserTrades. cbn [items].
  rewrite atPage_skip. done.
Qed.

(** With a watchlist the pages show the watched trades first, newest bookmark
    first, then the others in the requested order; when the bookmarks are
    distinct trades of the wallet, [totalPages] reaches every trade exactly once. *)
Theorem watchlist_pages (trades : TT) (watch : TW) address f : keyed tradeId trades →
  NoDup (tradeId <$> watchedOf trades watch address f) →
  Forall (λ t, whereParty address (f_status f) t = true ∧ findUnique (tradeId t) trades = Some t)
    (watchedOf trades watch address f) →
  let pg := pagination (listUserTrades trades (Some watch) address f) in
  let shown := concat (map (λ k, items (listUserTrades trades (Some watch) address (atPage f k)))
                           (seq 0 (Z.to_nat (totalPages pg)))) in
  shown = watchedOf trades watch address f ++ restOf trades watch address f ∧
  shown ≡ₚ findMany (whereParty address (f_status f)) trades.
Proof.
  intros Hk Hn Hf pg shown. set (A := watchedOf trades watch address f) in *.
  set (B := restOf trades watch address f) in *. set (w := whereParty address (f_status f)) in *.
  assert (A ++ B ≡ₚ findMany w trades) as Hperm.
  { rewrite (where_filter w (λ t, bool_decide (tradeId t ∈ map tradeId A)) trades Hk).
    unfold B, restOf. rewrite js_sort_perm. fold A w. apply Permutation_app_tail.
    apply NoDup_Permutation.
    - by eapply NoDup_fmap_1.
    - apply NoDup_ListNoDup, List.NoDup_filter, NoDup_ListNoDup. by eapply NoDup_fmap_1, findMany_NoDup.
    - intros t. rewrite list_elem_of_In, (list_elem_of_In (List.filter _ _)), List.filter_In, <-!list_elem_of_In.
      rewrite findMany_elem. rewrite Forall_forall in Hf. split.
      + intros Ht. destruct (Hf t Ht) as [Hw Hfind]. split; [by exists (tradeId t)|].
        apply bool_decide_eq_true_2, list_elem_of_In, List.in_map_iff. exists t.
        split; [done|by apply list_elem_of_In].
      + intros [(k & Hfind & Hw) Hin%bool_decide_eq_true_1].
        apply list_elem_of_In, List.in_map_iff in Hin as (t' & Ht' & Hin%list_elem_of_In).
        destruct (Hf t' Hin) as [_ Hfind']. rewrite Ht', (Hk k t Hfind) in Hfind'. rewrite Hfind in Hfind'.
        injection Hfind' as <-. done. }
  assert (shown = A ++ B) as ->; [|done].
  unfold shown. erewrite map_ext; [|intros k; by rewrite watchlist_page]. fold A B.
  pose proof (limitOf_bounds f). rewrite slices_concat by lia. apply take_ge. rewrite Hperm.
  unfold pg, listUserTrades. cbn [pagination totalPages]. fold w.
  pose proof (pagesOf_enough (Z.of_nat (length (findMany w trades))) (limitOf f) ltac:(lia)). nia.
Qed.

(** ** Reading, creating and disputing *)

(** A trade is only returned to its buyer, its seller or an administrator;
    anybody else is refused, and an unknown id gives nothing. *)
Theorem getTradeById_access (trades : TT) ident caller :
  match getTradeById adm trades ident caller with
  | Ok None => ∀ k t, findUnique k trades = Some t → matchesId ident t = false
  | Ok (Some t) => matchesId ident t = true ∧ (∃ k, findUnique k trades = Some t) ∧
      (isParty (toLowerCase caller) t = true ∨ toLowerCase caller ∈ parseAdminPubkeys adm)
  | Err e => e = TradeAccessDeniedError ∧ toLowerCase caller ∉ parseAdminPubkeys adm ∧
      ∃ t, matchesId ident t = true ∧ isParty (toLowerCase caller) t = false
  end.
Proof.
  unfold getTradeById. destruct (findFirst _ trades) as [t|] eqn:Hf.
  - apply findFirst_Some in Hf as (k & Hk & Hm).
    destruct (isParty (toLowerCase caller) t) eqn:Hp; cbn [orb]; [by eauto 10|].
    case_bool_decide; eauto 10.
  - intros k t Hk. eapply (findFirst_None (K := string)) in Hf; eauto.
Qed.

(** Creating a trade stores exactly one new row, waiting for its signature,
    unless the id is taken or the insert fails; then nothing changes, and a
    saturated connection pool is reported as a retryable 503. *)
Theorem createPendingTrade_spec (trades : TT) input newId now failure :
  let '(trades', r) := createPendingTrade trades input newId now failure in
  match failure with
  | Some (code, message) =>
      trades' = trades ∧ isOk r = false ∧
      (code = PRISMA_POOL_EXHAUSTION_CODE → ∃ m, r = Err (Raised (AppError INFRA_ERROR m 503)))
  | None =>
      match findUnique (in_tradeId input) trades with
      | Some _ => trades' = trades ∧ r = Err (PrismaError "P2002" "Unique constraint failed")
      | None => ∃ t, r = Ok t ∧ status t = PENDING_SIGNATURE ∧ version t = 0 ∧ tradeId t = in_tradeId input ∧
          buyerAddress t = storedAddress (in_buyerAddress input) ∧ sellerAddress t = storedAddress (in_sellerAddress input) ∧
          findUnique (in_tradeId input) trades' = Some t ∧
          ∀ k, k ≠ in_tradeId input → findUnique k trades' = findUnique k trades
      end
  end.
Proof.
  unfold createPendingTrade. destruct failure as [[code message]|].
  - split; [done|]. unfold isPrismaPoolExhaustionError, prismaErrorValue. cbn [isObject getProp lookupField].
    rewrite bool_decide_eq_true_2 by done. cbn [andb]. split; [by case_ifs|].
    intros ->. rewrite bool_decide_eq_true_2 by done. cbn [orb]. eauto.
  - destruct (create _ _ _) as [trades'|] eqn:Hc.
    + destruct (create_inv _ _ _ _ Hc) as (-> & Hn & Ho). eauto 10.
    + apply create_None in Hc as [t ->]. done.
Qed.

(** The guards of [initiateDispute], in order. *)
Definition mayDispute (caller : string) (t : Trade) : bool :=
  (seqb (buyerAddress t) caller || seqb (sellerAddress t) caller) &&
  (bool_decide (status t = FUNDED) || bool_decide (status t = DELIVERED)).

Context (sha256 : string → string) (buildTx : string → string → string → result trade_error string).

(** A dispute is recorded exactly when the caller is the buyer or seller of a
    funded or delivered trade, the category is active, the transaction could be
    built and the trade has no dispute yet; every failure leaves the disputes alone. *)
Theorem initiateDispute_spec (trades : TT) (disputes : TD) (categories : TC) ident caller reason category categoryId :
  let '(disputes', r) := initiateDispute adm sha256 buildTx trades disputes categories ident caller reason category categoryId in
  match r with
  | Ok xdr => ∃ t cid, findFirst (matchesId ident) trades = Some t ∧ mayDispute caller t = true ∧
      resolveDisputeCategoryId categories category categoryId = Ok cid ∧
      (∃ k c, findUnique k categories = Some c ∧ cat_id c = cid ∧ cat_isActive c = true) ∧
      buildTx (tradeId t) caller (sha256 reason) = Ok xdr ∧
      findUnique (tradeId t) disputes = None ∧
      findUnique (tradeId t) disputes' =
        Some {| d_tradeId := tradeId t; d_initiator := storedAddress caller; d_reason := reason; d_categoryId := cid |} ∧
      ∀ k, k ≠ tradeId t → findUnique k disputes' = findUnique k disputes
  | Err _ => disputes' = disputes
  end.
Proof.
  unfold initiateDispute. destruct (mbind _ _) as [[[t cid] xdr]|e] eqn:Hc; [|done].
  destruct (create _ _ _) as [d'|] eqn:Hd; [|done].
  apply bind_Ok in Hc as (found & Hg & Hc). apply bind_Ok in Hc as (t' & Ht & Hc).
  apply bind_Ok in Hc as ([] & H1%throwIf_Ok & Hc). apply bind_Ok in Hc as ([] & H2%throwIf_Ok & Hc).
  apply bind_Ok in Hc as (cid' & Hcid & Hc). apply bind_Ok in Hc as (xdr' & Hx & Hc).
  injection Hc as -> -> ->. destruct found as [t''|]; [|done]. injection Ht as ->.
  unfold getTradeById in Hg. destruct (findFirst _ trades) as [t1|] eqn:Hf; [|done].
  destruct (_ || _) in Hg; [|done]. injection Hg as ->.
  destruct (create_inv _ _ _ _ Hd) as (Hn & Hs & Ho).
  exists t, cid. split; [done|]. split.
  { unfold mayDispute. apply andb_true_iff. split.
    - destruct (seqb (buyerAddress t) caller), (seqb (sellerAddress t) caller); done.
    - destruct (bool_decide (status t = FUNDED)), (bool_decide (status t = DELIVERED)); done. }
  split; [done|]. split; [|by eauto].
  unfold resolveDisputeCategoryId in Hcid. destruct categoryId as [c|].
  - destruct (findFirst _ categories) as [r|] eqn:Hr; [|done]. injection Hcid as <-.
    apply findFirst_Some in Hr as (k & Hk & [_ Ha]%andb_true_iff). eauto.
  - cbv zeta in Hcid. destruct (seqb (trim category) ""); [done|]. destruct (findFirst _ categories) as [r|] eqn:Hr; [|done]. injection Hcid as <-.
    apply findFirst_Some in Hr as (k & Hk & [_ Ha]%andb_true_iff). eauto.
Qed.

(** Addresses are compared without case when a trade is read, but with case
    when it is disputed: a party whose address differs only in case (a token
    carries the lower-case form) reads the trade and may not dispute it. *)
Theorem dispute_compares_case (trades : TT) (disputes : TD) (categories : TC) ident caller reason category categoryId t :
  findFirst (matchesId ident) trades = Some t → isParty (toLowerCase caller) t = true →
  buyerAddress t ≠ caller → sellerAddress t ≠ caller →
  getTradeById adm trades ident caller = Ok (Some t) ∧
  initiateDispute adm sha256 buildTx trades disputes categories ident caller reason category categoryId
    = (disputes, Err TradeAccessDeniedError).
Proof.
  intros Hf Hp Hb Hs. assert (getTradeById adm trades ident caller = Ok (Some t)) as Hg.
  { unfold getTradeById. by rewrite Hf, Hp. }
  split; [done|]. unfold initiateDispute. rewrite Hg. cbn [mbind result_bind].
  unfold seqb. by rewrite (bool_decide_eq_false_2 _ Hb), (bool_decide_eq_false_2 _ Hs).
Qed.

(** ** Statistics *)

(** The value of a row's amount, zero for a malformed one. *)
Definition stroopsOf (t : Trade) : Z :=
  match parseDecimalToStroops (AString (amountUsdc t)) MONEY_DECIMALS with Ok v => v | Err _ => 0 end.

(** A wallet's statistics: the volume is the exact sum, in stroops, of the
    amounts that parse, and the open trades are those in an open status. *)
Theorem getUserStats_spec (trades : TT) address :
  let rows := findMany (λ t, seqb (buyerAddress t) address || seqb (sellerAddress t) address) trades in
  let s := getUserStats trades address in
  totalVolume s = formatStroopsToDecimal
    (sumZ (map stroopsOf rows))
    MONEY_DECIMALS ∧
  totalTrades s = Z.of_nat (length rows) ∧ 0 ≤ openTrades s ≤ totalTrades s ∧
  (openTrades s = 0 ↔ ∀ t, t ∈ rows → status t ∉ openStatuses).
Proof.
  intros rows s. split; [|split; [done|split]].
  - unfold s, getUserStats. cbn [totalVolume]. fold rows. f_equal.
    rewrite <-(Z.add_0_l (sumZ _)), <-foldl_add_map. generalize 0.
    clear s. induction rows as [|t l IH]; intros z; cbn [foldl]; [done|]. rewrite IH. f_equal.
    unfold addVolume, stroopsOf. destruct (parseDecimalToStroops _ _); lia.
  - unfold s, getUserStats. cbn [openTrades totalTrades]. fold rows.
    pose proof (List.filter_length_le (λ t, bool_decide (status t ∈ openStatuses)) rows). lia.
  - unfold s, getUserStats. cbn [openTrades]. fold rows. split.
    + intros H0 t Ht Hst. destruct (List.filter _ rows) as [|x l] eqn:Hl; [|cbn in H0; lia].
      assert (t ∈ List.filter (λ t, bool_decide (status t ∈ openStatuses)) rows) as Hin; [|rewrite Hl in Hin; set_solver].
      apply list_elem_of_In, List.filter_In. split; [by apply list_elem_of_In|by apply bool_decide_eq_true_2].
    + intros H0. destruct (List.filter _ rows) as [|x l] eqn:Hl; [done|exfalso].
      assert (x ∈ List.filter (λ t, bool_decide (status t ∈ openStatuses)) rows) as Hin by (rewrite Hl; set_solver).
      apply list_elem_of_In, List.filter_In in Hin as [Hin%list_elem_of_In Hst%bool_decide_eq_true_1]. by eapply H0.
Qed.

(** ** The watchlist *)

(** Only a party of a trade can bookmark it; bookmarking twice keeps one
    entry, and removing it leaves everybody else's bookmarks. *)
Theorem watchlist_spec (trades : TT) (watch : TW) tid user newId now : keyed tradeId trades →
  let '(watch', r) := watchAdd trades watch tid user newId now in
  match r with
  | Ok e => (∃ t, findUnique tid trades = Some t ∧ isParty (toLowerCase user) t = true) ∧
      findUnique (toLowerCase user, tid) watch' = Some e ∧
      (∀ k, k ≠ (toLowerCase user, tid) → findUnique k watch' = findUnique k watch) ∧
      watchAdd trades watch' tid user (newId + 1) now = (watch', Ok e)
  | Err _ => watch' = watch
  end.
Proof.
  intros Hk. unfold watchAdd, assertTradeAccess. destruct (findUnique tid trades) as [t|] eqn:Ht; [|done].
  destruct (isParty (toLowerCase user) t) eqn:Hp; [|done]. pose proof (Hk tid t Ht) as Htid.
  destruct (findUnique (toLowerCase user, tradeId t) watch) as [e|] eqn:He.
  - rewrite Htid in He |- *. split; [by eauto|]. by rewrite He.
  - destruct (create _ _ _) as [watch'|] eqn:Hc; [|done].
    destruct (create_inv _ _ _ _ Hc) as (_ & Hn & Ho). rewrite Htid in Hn, Ho |- *.
    split; [by eauto|]. by rewrite Hn.
Qed.

End Facts.

(** ** Samples *)

Definition TradeTable : Type := gmap string Trade.
Definition WatchTable : Type := gmap (string * string) WatchEntry.
Definition DisputeTable : Type := gmap string Dispute.
Definition CategoryTable : Type := gmap Z DisputeCategory.

Definition sampleTrade (n : Z) (tid buyer : string) (s : TradeStatus) : Trade :=
  {| id := n; tradeId := tid; buyerAddress := buyer; sellerAddress := "gs"; amountUsdc := "12.5";
     buyerLossBps := 5000; sellerLossBps := 5000; version := 0; status := s; expiresAt := None; expiredAt := None;
     createdAt := n; updatedAt := n |}.
Definition table (l : list Trade) : TradeTable := list_to_map (map (λ t, (tradeId t, t)) l).

Definition tradeA : Trade := sampleTrade 1 "A" "ga" FUNDED.
Definition tradeB : Trade := sampleTrade 2 "B" "ga" CREATED.
Definition tradeC : Trade := sampleTrade 3 "C" "GA" FUNDED.
Definition onePerPage : TradeListFilters := {| f_status := None; f_page := None; f_limit := Some 1; f_sort := None |}.

Lemma table_keyed : keyed tradeId (table [tradeA; tradeB]).
Proof.
  intros k v H. change (table [tradeA; tradeB] !! k = Some v) in H. unfold table in H.
  apply (elem_of_list_to_map_2 (M := gmap string)) in H. cbn [map] in H.
  repeat (apply elem_of_cons in H as [H|H]; [by inversion H|]). by apply elem_of_nil in H.
Qed.

(** [totalPages] only counts the wallet's trades as spelt, while a bookmark is
    accepted for a party in any case: a bookmarked trade spelt differently pushes
    another trade of the wallet past the last page. *)
Theorem watchlist_hides_trade :
  let trades := table [tradeA; tradeC] in
  let watch : WatchTable := (watchAdd trades (∅ : WatchTable) "C" "ga" 1 0).1 in
  let list k := listUserTrades trades (Some watch) "ga" (atPage onePerPage k) in
  whereParty "ga" None tradeA = true ∧ totalPages (pagination (list 0%nat)) = 1 ∧ items (list 0%nat) = [tradeC] ∧
  items (list 1%nat) = [tradeA].
Proof. vm_compute. done. Qed.

(** ** Witnesses *)

Lemma listing_pages_witness :
  let trades := table [tradeA; tradeB] in
  let where_ := whereParty "ga" None in
  let pg := pagination (listing trades where_ onePerPage) in
  let shown := concat (map (λ k, items (listing trades where_ (atPage onePerPage k))) (seq 0 (Z.to_nat (totalPages pg)))) in
  NoDup (tradeId <$> shown) ∧
  (∀ t, t ∈ shown ↔ where_ t = true ∧ ∃ k, findUnique k trades = Some t) ∧
  StronglySorted (cmp_le (orderCmp (parseSort (f_sort onePerPage)))) shown ∧
  total pg = Z.of_nat (length shown).
Proof. exact (listing_pages (TT := TradeTable) _ _ onePerPage table_keyed). Defined.

Lemma listing_deterministic_witness :
  listing (table [tradeA; tradeB]) (whereParty "ga" None) onePerPage =
  listing (table [tradeB; tradeA]) (whereParty "ga" None) onePerPage.
Proof.
  apply (listing_deterministic (TT := TradeTable)).
  - vm_compute. reflexivity.
  - intros x y Hx Hy. revert Hx Hy. vm_compute findMany. rewrite !elem_of_cons, !elem_of_nil.
    intros [->|[->|[]]] [->|[->|[]]]; done.
Defined.

Definition watchingB : WatchTable := (watchAdd (table [tradeA; tradeB]) (∅ : WatchTable) "B" "ga" 1 0).1.

Lemma watchlist_pages_witness :
  let trades := table [tradeA; tradeB] in
  let pg := pagination (listUserTrades trades (Some watchingB) "ga" onePerPage) in
  let shown := concat (map (λ k, items (listUserTrades trades (Some watchingB) "ga" (atPage onePerPage k)))
                           (seq 0 (Z.to_nat (totalPages pg)))) in
  shown = watchedOf trades watchingB "ga" onePerPage ++ restOf trades watchingB "ga" onePerPage ∧
  shown ≡ₚ findMany (whereParty "ga" (f_status onePerPage)) trades.
Proof.
  apply (watchlist_pages (TT := TradeTable) (TW := WatchTable)).
  - apply table_keyed.
  - vm_compute. repeat constructor; set_solver.
  - vm_compute. repeat constructor.
Defined.

Lemma getTradeById_access_witness :
  getTradeById "admin" (table [tradeA; tradeB]) "A" "GA" = Ok (Some tradeA) ∧
  match getTradeById "admin" (table [tradeA; tradeB]) "A" "GA" with
  | Ok None => ∀ k t, findUnique k (table [tradeA; tradeB]) = Some t → matchesId "A" t = false
  | Ok (Some t) => matchesId "A" t = true ∧ (∃ k, findUnique k (table [tradeA; tradeB]) = Some t) ∧
      (isParty (toLowerCase "GA") t = true ∨ toLowerCase "GA" ∈ parseAdminPubkeys "admin")
  | Err e => e = TradeAccessDeniedError ∧ toLowerCase "GA" ∉ parseAdminPubkeys "admin" ∧
      ∃ t, matchesId "A" t = true ∧ isParty (toLowerCase "GA") t = false
  end.
Proof. split; [vm_compute; reflexivity|]. apply (getTradeById_access (TT := TradeTable) "admin"). Defined.

Definition sampleInput : CreatePendingTradeInput :=
  {| in_tradeId := "N"; in_buyerAddress := "GA"; in_sellerAddress := "gs"; in_amountUsdc := "5";
     in_buyerLossBps := 5000; in_sellerLossBps := 5000 |}.

Lemma createPendingTrade_spec_witness :
  let '(trades', r) := createPendingTrade (table [tradeA]) sampleInput 7 100 None in
  ∃ t, r = Ok t ∧ status t = PENDING_SIGNATURE ∧ version t = 0 ∧ tradeId t = "N"%string ∧ buyerAddress t = "ga"%string ∧ sellerAddress t = "gs"%string ∧
    findUnique "N"%string trades' = Some t ∧
    ∀ k, k ≠ "N"%string → findUnique k trades' = findUnique k (table [tradeA]).
Proof. exact (createPendingTrade_spec (TT := TradeTable) (table [tradeA]) sampleInput 7 100 None). Defined.

Definition sampleCategories : CategoryTable := {[ 1 := {| cat_id := 1; cat_name := "Quality"; cat_isActive := true |} ]}.
Definition sampleBuild (tid caller hash : string) : result trade_error string := Ok ("xdr:" +:+ tid)%string.

Lemma initiateDispute_spec_witness :
  let '(disputes', r) := initiateDispute "admin" (λ s, s) sampleBuild (table [tradeA; tradeB]) (∅ : DisputeTable)
                           sampleCategories "A" "ga" "late" " Quality " None in
  r = Ok "xdr:A"%string ∧
  match r with
  | Ok xdr => ∃ t cid, findFirst (matchesId "A") (table [tradeA; tradeB]) = Some t ∧ mayDispute "ga" t = true ∧
      resolveDisputeCategoryId sampleCategories " Quality " None = Ok cid ∧
      (∃ k c, findUnique k sampleCategories = Some c ∧ cat_id c = cid ∧ cat_isActive c = true) ∧
      sampleBuild (tradeId t) "ga" "late" = Ok xdr ∧
      findUnique (tradeId t) (∅ : DisputeTable) = None ∧
      findUnique (tradeId t) disputes' =
        Some {| d_tradeId := tradeId t; d_initiator := "ga"; d_reason := "late"; d_categoryId := cid |} ∧
      ∀ k, k ≠ tradeId t → findUnique k disputes' = findUnique k (∅ : DisputeTable)
  | Err _ => disputes' = ∅
  end.
Proof.
  pose proof (initiateDispute_spec (TT := TradeTable) (TD := DisputeTable) (TC := CategoryTable) "admin" (λ s, s)
    sampleBuild (table [tradeA; tradeB]) ∅ sampleCategories "A" "ga" "late" " Quality " None) as H.
  assert ((initiateDispute "admin" (λ s, s) sampleBuild (table [tradeA; tradeB]) (∅ : DisputeTable)
             sampleCategories "A" "ga" "late" " Quality " None).2 = Ok "xdr:A"%string) as Hr by (vm_compute; reflexivity).
  destruct (initiateDispute _ _ _ _ _ _ _ _ _ _ _) as [d r]. cbn in Hr. split; [exact Hr|exact H].
Defined.

Lemma dispute_compares_case_witness :
  getTradeById "admin" (table [tradeA; tradeB]) "A" "GA" = Ok (Some tradeA) ∧
  initiateDispute "admin" (λ s, s) sampleBuild (table [tradeA; tradeB]) (∅ : DisputeTable) sampleCategories
    "A" "GA" "late" "Quality" None = (∅, Err TradeAccessDeniedError).
Proof.
  apply (dispute_compares_case (TT := TradeTable) (TD := DisputeTable) (TC := CategoryTable));
    first [vm_compute; reflexivity | discriminate].
Defined.

Lemma watchlist_spec_witness :
  let '(watch', r) := watchAdd (table [tradeA; tradeB]) (∅ : WatchTable) "B" "ga" 1 0 in
  match r with
  | Ok e => (∃ t, findUnique "B"%string (table [tradeA; tradeB]) = Some t ∧ isParty (toLowerCase "ga") t = true) ∧
      findUnique (toLowerCase "ga", "B"%string) watch' = Some e ∧
      (∀ k, k ≠ (toLowerCase "ga", "B"%string) → findUnique k watch' = findUnique k (∅ : WatchTable)) ∧
      watchAdd (table [tradeA; tradeB]) watch' "B" "ga" (1 + 1) 0 = (watch', Ok e)
  | Err _ => watch' = ∅
  end.
Proof. apply (watchlist_spec (TT := TradeTable) (TW := WatchTable)). apply table_keyed. Defined.
