(* ===== verification/TradeLifecycle.v ===== *)
(** * Bulk status changes: [services/tradeExpiry.service.ts], [routes/admin.trades.batch.routes.ts]

    The two programs that move many trades at once: the sweeper that expires
    overdue trades and tells both parties, and the administrator's batch of
    status updates with its table of allowed transitions. Both read a row and
    write it back under a [version] guard, so other writers may act in between:
    they are arguments ([before], [between]) that rewrite the table just before
    the statement they precede. A table is any [Prisma.Table]; the job queue and
    the notification preferences are arguments. *)

From S2P Require Import Prelude JsString JsValue Prisma.
From S2P Require EventHandlers Trades.
Import EventHandlers (TradeStatus, TradeStatus_eq_dec, PENDING_SIGNATURE, CREATED, FUNDED, DELIVERED, COMPLETED,
  DISPUTED, CANCELLED, EXPIRED).
Import Trades (Trade, id, tradeId, buyerAddress, sellerAddress, amountUsdc, buyerLossBps, sellerLossBps, version,
  status, expiresAt, expiredAt, createdAt, updatedAt).

(** A write of the status columns; Prisma stamps [updatedAt] itself. *)
Definition setStatus (s : TradeStatus) (expired : option Z) (now : Z) (t : Trade) : Trade :=
  {| id := id t; tradeId := tradeId t; buyerAddress := buyerAddress t; sellerAddress := sellerAddress t;
     amountUsdc := amountUsdc t; buyerLossBps := buyerLossBps t; sellerLossBps := sellerLossBps t;
     version := version t + 1; status := s; expiresAt := expiresAt t; expiredAt := expired;
     createdAt := createdAt t; updatedAt := now |}.

(** ** The expiry sweeper *)

Definition EXPIRABLE_STATUSES : list TradeStatus := [CREATED; FUNDED; PENDING_SIGNATURE].
Definition expirable (t : Trade) : bool := bool_decide (status t ∈ EXPIRABLE_STATUSES).

(** The sweeper's [where] clause; a null [expiresAt] satisfies no comparison. *)
Definition stale (now : Z) (t : Trade) : bool :=
  match expiresAt t with Some e => e <=? now | None => false end &&
  expirable t && bool_decide (expiredAt t = None).

Definition byExpiry (x y : Trade) : Z := default 0 (expiresAt x) - default 0 (expiresAt y).

Definition expireTrade (now : Z) (t : Trade) : Trade := setStatus EXPIRED (Some now) now t.

Inductive JobType : Type := InApp | Sms.
Record NotificationJob : Type := {
  jobName : string; jobType : JobType; userAddress : string; title : string; message : string;
  refTrade : string; refAmount : option string }.

Record SweepResult : Type := { scanned : Z; expired : Z; errors : Z }.

Section Notifications.
(** Whether the queue accepts a job, and a user's stored preferences (the query may fail). *)
Variable add : NotificationJob → bool.
Variable preferences : string → result unit (option (list (string * list string))).

Definition wantsSms (eventKey user : string) : bool :=
  match preferences user with
  | Ok (Some channels) =>
      match Trades.assocFind eventKey channels with Some cs => bool_decide ("sms"%string ∈ cs) | None => false end
  | Ok None | Err _ => false
  end.

(** The jobs the queue took, and whether [Promise.all] resolved. *)
Definition enqueueTradeLifecycleNotification (eventKey : string) (job : NotificationJob) : list NotificationJob * bool :=
  let inApp := {| jobName := eventKey; jobType := InApp; userAddress := userAddress job; title := title job;
                  message := message job; refTrade := refTrade job; refAmount := refAmount job |} in
  let sms := {| jobName := (eventKey +:+ "-sms")%string; jobType := Sms; userAddress := userAddress job;
                title := title job; message := message job; refTrade := refTrade job; refAmount := refAmount job |} in
  let tasks := inApp :: if wantsSms eventKey (userAddress job) then [sms] else [] in
  (List.filter add tasks, forallb add tasks).

Definition buyerJob (t : Trade) : NotificationJob :=
  {| jobName := "trade-expired"; jobType := InApp; userAddress := buyerAddress t; title := "Trade Expired";
     message := ("Trade " +:+ tradeId t +:+ " has expired. A refund will be processed shortly.")%string;
     refTrade := tradeId t; refAmount := Some (amountUsdc t) |}.
Definition sellerJob (t : Trade) : NotificationJob :=
  {| jobName := "trade-expired"; jobType := InApp; userAddress := sellerAddress t; title := "Trade Expired";
     message := ("Trade " +:+ tradeId t +:+ " has expired and was not completed.")%string;
     refTrade := tradeId t; refAmount := None |}.

(** Both parties are told concurrently. *)
Definition notifyParties (t : Trade) : list NotificationJob * bool :=
  let b := enqueueTradeLifecycleNotification "trade-expired" (buyerJob t) in
  let s := enqueueTradeLifecycleNotification "trade-expired" (sellerJob t) in
  (b.1 ++ s.1, b.2 && s.2).

Section Sweep.
Context {TT : Type} `{!Table string Trade TT}.
(** What other writers do just before a trade's update, and whether that update fails. *)
Variable before : Trade → TT → TT.
Variable dbFails : Trade → bool.

Record Sweep : Type := mkSweep { table : TT; jobs : list NotificationJob; result_ : SweepResult }.

(** [where: { id, version, status: { in: EXPIRABLE_STATUSES } }] *)
Definition sameVersion (t row : Trade) : bool :=
  (id row =? id t) && (version row =? version t) && expirable row.

(** The body of the sweeper's loop; the count [updateMany] returns is not read. *)
Definition expireOne (now : Z) (w : Sweep) (t : Trade) : Sweep :=
  let db := before t (table w) in
  let r := result_ w in
  let fail := {| scanned := scanned r; expired := expired r; errors := errors r + 1 |} in
  if dbFails t then mkSweep db (jobs w) fail
  else
    let db' := (updateMany (sameVersion t) (expireTrade now) db).2 in
    let '(sent, ok) := notifyParties t in
    mkSweep db' (jobs w ++ sent)
      (if ok then {| scanned := scanned r; expired := expired r + 1; errors := errors r |} else fail).

(** The trades a sweep picks up. *)
Definition picked (now batchSize : Z) (db : TT) : list Trade :=
  take (Z.to_nat batchSize) (js_sort byExpiry (findMany (stale now) db)).

Definition sweepExpiredTrades (now batchSize : Z) (db : TT) : Sweep :=
  let rows := picked now batchSize db in
  foldl (expireOne now) (mkSweep db [] {| scanned := Z.of_nat (length rows); expired := 0; errors := 0 |}) rows.

(** [select] drops columns; the rows are returned whole here. Rows without an [expiredAt] sort last. *)
Definition byExpiredAt (x y : Trade) : Z :=
  match expiredAt x, expiredAt y with
  | Some a, Some b => a - b
  | Some _, None => -1
  | None, Some _ => 1
  | None, None => 0
  end.
Definition getPendingRefunds (limit : Z) (db : TT) : list Trade :=
  take (Z.to_nat limit) (js_sort byExpiredAt (findMany (λ t, bool_decide (status t = EXPIRED)) db)).
End Sweep.
End Notifications.

(** ** The administrator's batch *)

Definition VALID_TRANSITIONS (s : TradeStatus) : list TradeStatus :=
  match s with
  | PENDING_SIGNATURE => [CREATED; CANCELLED]
  | CREATED => [FUNDED; CANCELLED]
  | FUNDED => [DELIVERED; DISPUTED; CANCELLED]
  | DELIVERED => [COMPLETED; DISPUTED; CANCELLED]
  | DISPUTED => [COMPLETED; CANCELLED]
  | COMPLETED | CANCELLED | EXPIRED => []
  end.

Definition isValidTransition (from to : TradeStatus) : bool := bool_decide (to ∈ VALID_TRANSITIONS from).

Record StatusUpdate : Type := { up_tradeId : string; up_status : TradeStatus }.

Inductive reason : Type :=
| TradeNotFound
| InvalidTransition (from to : TradeStatus)
| ConcurrencyConflict.

Record Audit : Type := { actor : string; summary : string; okTrades : list string; badTrades : list (string * reason) }.

Section Batch.
Context {TT : Type} `{!Table string Trade TT}.
(** What other writers do between an update's read and its write (with the request's position),
    and whether one of its statements fails. *)
Variable between : nat → TT → TT.
Variable dbFails : nat → bool.

Definition idOf (s : string) : jsnum :=
  let n := StringToNumber s in if isInteger n then n else JInt (-1).

Definition matches (s : string) (t : Trade) : bool :=
  bool_decide (tradeId t = s) || bool_decide (JInt (id t) = idOf s).

Record Batch : Type := mkBatch { rows : TT; succeeded : list string; failed : list (string * reason) }.

(** One iteration; [None] is an exception, which ends the request. *)
Definition applyOne (now : Z) (i : nat) (w : Batch) (u : StatusUpdate) : Batch + TT :=
  let reject why := inl (mkBatch (rows w) (succeeded w) (failed w ++ [(up_tradeId u, why)])) in
  if dbFails i then inr (rows w)
  else match findFirst (matches (up_tradeId u)) (rows w) with
  | None => reject TradeNotFound
  | Some t =>
      if negb (isValidTransition (status t) (up_status u)) then reject (InvalidTransition (status t) (up_status u))
      else
        let '(count, db) := updateMany (λ r, bool_decide (tradeId r = tradeId t) && (version r =? version t))
                              (λ r, setStatus (up_status u) (expiredAt r) now r) (between i (rows w)) in
        if count =? 0 then inl (mkBatch db (succeeded w) (failed w ++ [(up_tradeId u, ConcurrencyConflict)]))
        else inl (mkBatch db (succeeded w ++ [tradeId t]) (failed w))
  end.

Fixpoint applyAll (now : Z) (i : nat) (w : Batch) (us : list StatusUpdate) : Batch + TT :=
  match us with
  | [] => inl w
  | u :: us => match applyOne now i w u with inl w' => applyAll now (S i) w' us | inr db => inr db end
  end.

(** The handler: the table, the audit trail, and the response ([None]: the error handler answers). *)
Definition batchStatus (auditFails : bool) (admin : string) (now : Z) (db : TT) (audit : list Audit) (updates : list StatusUpdate)
    : TT * list Audit * option (list string * list (string * reason)) :=
  match applyAll now 0 (mkBatch db [] []) updates with
  | inr db => (db, audit, None)
  | inl w =>
      if auditFails then (rows w, audit, None)
      else
        let entry := {| actor := admin;
                        summary := (toString (Z.of_nat (length (succeeded w))) +:+ "/" +:+
                                    toString (Z.of_nat (length updates)) +:+ " succeeded")%string;
                        okTrades := succeeded w; badTrades := failed w |} in
        (rows w, audit ++ [entry], Some (succeeded w, failed w))
  end.
End Batch.

(** ** The sweeper's correctness *)

#[local] Arguments notifyParties : simpl never.

Section SweepFacts.
Context {TT : Type} `{!Table string Trade TT, !TableLaws string Trade TT}.
Variable add : NotificationJob → bool.
Variable preferences : string → result unit (option (list (string * list string))).

Notation sweep := (sweepExpiredTrades add preferences).
Notation one := (expireOne add preferences).

(** [id] is a unique column. *)
Definition uniqueIds (db : TT) : Prop :=
  ∀ k k' t t', findUnique k db = Some t → findUnique k' db = Some t' → id t = id t' → k = k'.

Definition undisturbed (t : Trade) (db : TT) : TT := db.
Definition reliable (t : Trade) : bool := false.

(** The fate of one row under the updates of the trades in [l]. *)
Definition rowAfter (now : Z) (l : list Trade) (v : Trade) : Trade :=
  foldl (λ v t, if sameVersion t v then expireTrade now v else v) v l.

(** The trades of a list whose update the database takes. *)
Definition taken (dbFails : Trade → bool) (l : list Trade) : list Trade := List.filter (λ t, negb (dbFails t)) l.
Definition stuck (dbFails : Trade → bool) (l : list Trade) : list Trade := List.filter dbFails l.

Lemma foldl_rows dbFails now l (w : Sweep (TT := TT)) k :
  findUnique k (table (foldl (one undisturbed dbFails now) w l)) = rowAfter now (taken dbFails l) <$> findUnique k (table w).
Proof.
  revert w. induction l as [|t l IH]; intros w; [cbn; by destruct (findUnique k _)|]. cbn [foldl taken List.filter].
  rewrite IH. unfold expireOne. destruct (dbFails t); [done|]. destruct (notifyParties add preferences t) as [sent ok]. cbn [table].
  unfold undisturbed. rewrite updateMany_rows. by destruct (findUnique k _).
Qed.

Lemma expired_not_expirable now v : expirable (expireTrade now v) = false.
Proof. reflexivity. Qed.

Lemma rowAfter_expired now l v : expirable v = false → rowAfter now l v = v.
Proof.
  intros Hv. induction l as [|t l IH]; [done|]. cbn. unfold sameVersion.
  by rewrite Hv, andb_false_r.
Qed.

Lemma rowAfter_other now l v : id v ∉ (id <$> l) → rowAfter now l v = v.
Proof.
  induction l as [|t l IH]; [done|]. intros Hv. cbn. unfold sameVersion.
  destruct (Z.eqb_spec (id v) (id t)) as [He|_]; [rewrite He in Hv; set_solver|]. cbn. apply IH. set_solver.
Qed.

Lemma rowAfter_in now l v : v ∈ l → NoDup (id <$> l) → expirable v = true → rowAfter now l v = expireTrade now v.
Proof.
  intros Hin Hn Hv. induction l as [|t l IH]; [set_solver|]. inversion Hn as [|?? Ht Hn']; subst. cbn.
  apply elem_of_cons in Hin as [->|Hin].
  - unfold sameVersion. rewrite !Z.eqb_refl, Hv. apply rowAfter_expired, expired_not_expirable.
  - unfold sameVersion. destruct (Z.eqb_spec (id v) (id t)) as [He|_]; [|by apply IH].
    exfalso. apply Ht. rewrite <-He. by apply list_elem_of_fmap_2.
Qed.

Lemma stale_expirable now t : stale now t = true → expirable t = true.
Proof. unfold stale. rewrite !andb_true_iff. tauto. Qed.

Lemma expireTrade_not_stale now now' t : stale now (expireTrade now' t) = false.
Proof. unfold stale. rewrite expired_not_expirable. by rewrite andb_false_r. Qed.

Lemma by_expiry l : StronglySorted (cmp_le byExpiry) (js_sort byExpiry l).
Proof.
  pose proof (comparator_key Z.sub (λ x : Trade, default 0 (expiresAt x)) comparator_sub) as Hc.
  apply js_sort_sorted; [apply (comparator_total byExpiry Hc)|apply Hc].
Qed.

Lemma picked_In now b (db : TT) t : t ∈ picked now b db →
  stale now t = true ∧ ∃ k, findUnique k db = Some t.
Proof.
  intros Ht%elem_of_take_in. rewrite js_sort_perm in Ht. apply (findMany_elem (K := string)) in Ht as (k & ? & ?). eauto.
Qed.

Lemma stale_NoDup_ids (p : Trade → bool) (db : TT) : keyed tradeId db → uniqueIds db → NoDup (id <$> findMany p db).
Proof.
  intros Hk Hu. apply NoDup_fmap_2_strong; [|by eapply NoDup_fmap_1, (findMany_NoDup tradeId)].
  intros x y Hx Hy He. apply (findMany_elem (K := string)) in Hx as (k & Hx & _), Hy as (k' & Hy & _).
  assert (k = k') by eauto. congruence.
Qed.

Lemma picked_NoDup now b (db : TT) : keyed tradeId db → uniqueIds db → NoDup (id <$> picked now b db).
Proof.
  intros Hk Hu. unfold picked. rewrite fmap_take.
  eapply sublist_NoDup; [|apply sublist_take]. rewrite js_sort_perm. by apply stale_NoDup_ids.
Qed.

Lemma taken_elem dbFails l t : t ∈ taken dbFails l ↔ t ∈ l ∧ dbFails t = false.
Proof. unfold taken. by rewrite !list_elem_of_In, filter_In, negb_true_iff. Qed.
Lemma stuck_elem dbFails l t : t ∈ stuck dbFails l ↔ t ∈ l ∧ dbFails t = true.
Proof. unfold stuck. by rewrite !list_elem_of_In, filter_In. Qed.
Lemma taken_sublist dbFails l : sublist (taken dbFails l) l.
Proof. induction l as [|t l IH]; cbn; [constructor|]. destruct (negb _); by constructor. Qed.
Lemma stuck_sublist dbFails l : sublist (stuck dbFails l) l.
Proof. induction l as [|t l IH]; cbn; [constructor|]. destruct (dbFails t); by constructor. Qed.
Lemma taken_stuck_length dbFails l : (length (taken dbFails l) + length (stuck dbFails l) = length l)%nat.
Proof. induction l as [|t l IH]; [done|]. unfold taken, stuck in *. cbn [List.filter]. destruct (dbFails t); cbn [negb length]; lia. Qed.

(** The rows after a sweep nobody disturbs. *)
Lemma sweep_rows_taken dbFails now b (db : TT) : keyed tradeId db → uniqueIds db → ∀ k,
  findUnique k (table (sweep undisturbed dbFails now b db)) =
  (λ t, if bool_decide (t ∈ taken dbFails (picked now b db)) then expireTrade now t else t) <$> findUnique k db.
Proof.
  intros Hk Hu k. unfold sweepExpiredTrades. rewrite foldl_rows. cbn [table].
  destruct (findUnique k db) as [t|] eqn:Ht; [|done]. cbn. f_equal. case_bool_decide as Hin.
  - apply rowAfter_in; [done| |by apply taken_elem in Hin as [[?%stale_expirable _]%picked_In _]].
    eapply sublist_NoDup; [by apply (picked_NoDup now b db)|]. apply fmap_sublist, taken_sublist.
  - apply rowAfter_other. intros (t' & He & Hin')%list_elem_of_fmap. apply Hin.
    pose proof Hin' as [[_ (k' & Ht')]%picked_In _]%taken_elem.
    assert (k = k') by eauto. by assert (t = t') as -> by congruence.
Qed.

Lemma taken_reliable l : taken reliable l = l.
Proof. induction l as [|t l IH]; [done|]. unfold taken in *. cbn. f_equal. exact IH. Qed.

Lemma sweep_rows now b (db : TT) : keyed tradeId db → uniqueIds db → ∀ k,
  findUnique k (table (sweep undisturbed reliable now b db)) =
  (λ t, if bool_decide (t ∈ picked now b db) then expireTrade now t else t) <$> findUnique k db.
Proof. intros Hk Hu k. by rewrite sweep_rows_taken, taken_reliable by done. Qed.

(** Counters and messages. *)
Lemma foldl_counts before dbFails now l (w : Sweep (TT := TT)) :
  let w' := foldl (one before dbFails now) w l in
  scanned (result_ w') = scanned (result_ w) ∧
  expired (result_ w') + errors (result_ w') = expired (result_ w) + errors (result_ w) + Z.of_nat (length l) ∧
  expired (result_ w') =
    expired (result_ w) + Z.of_nat (length (List.filter (λ t, negb (dbFails t) && (notifyParties add preferences t).2) l)) ∧
  jobs w' = jobs w ++ concat (map (λ t, if dbFails t then [] else (notifyParties add preferences t).1) l).
Proof.
  revert w. induction l as [|t l IH]; intros w; cbn; [rewrite app_nil_r; repeat split; lia|].
  destruct (IH (one before dbFails now w t)) as (E1 & E2 & E3 & E4). rewrite E1, E2, E3, E4. clear.
  unfold expireOne. destruct (dbFails t); cbn; [repeat split; lia|].
  destruct (notifyParties add preferences t) as [sent []]; cbn; rewrite <-?app_assoc; repeat split; first [lia | done].
Qed.

(** Undisturbed, a sweep expires exactly the trades it picked (each with its
    version bumped), leaves every other row alone, picks the [batchSize] most
    overdue ones, sends both parties of each the jobs the queue takes, and its
    counters add up: [expired] are those whose parties were both told. *)
Theorem sweep_spec now batchSize (db : TT) : keyed tradeId db → uniqueIds db → 0 ≤ batchSize →
  let w := sweep undisturbed reliable now batchSize db in
  let rows := picked now batchSize db in
  (∀ k, findUnique k (table w) =
    (λ t, if bool_decide (t ∈ rows) then expireTrade now t else t) <$> findUnique k db) ∧
  scanned (result_ w) = Z.min batchSize (Z.of_nat (length (findMany (stale now) db))) ∧
  expired (result_ w) + errors (result_ w) = scanned (result_ w) ∧
  expired (result_ w) = Z.of_nat (length (List.filter (λ t, (notifyParties add preferences t).2) rows)) ∧
  jobs w = concat (map (λ t, (notifyParties add preferences t).1) rows) ∧
  ∀ t t', t ∈ rows → t' ∈ findMany (stale now) db → t' ∉ rows → byExpiry t t' ≤ 0.
Proof.
  intros Hk Hu Hb w rows. split; [by apply sweep_rows|].
  pose proof (foldl_counts undisturbed reliable now rows
    (mkSweep db [] {| scanned := Z.of_nat (length rows); expired := 0; errors := 0 |})) as (E1 & E2 & E3 & E4).
  unfold w, sweepExpiredTrades. fold rows. rewrite E1, E2, E3, E4. cbn. repeat split; [|].
  - unfold rows, picked. rewrite length_take, js_sort_perm. lia.
  - intros t t' Ht Ht' Hn. unfold rows, picked in *.
    assert (t' ∈ drop (Z.to_nat batchSize) (js_sort byExpiry (findMany (stale now) db))) as Hd.
    { rewrite <-(js_sort_perm byExpiry), <-(take_drop (Z.to_nat batchSize) (js_sort _ _)) in Ht'. set_solver. }
    pose proof (by_expiry (findMany (stale now) db)) as Hs. rewrite <-(take_drop (Z.to_nat batchSize) (js_sort _ _)) in Hs.
    by apply (StronglySorted_app_1_elem_of _ _ _ t t' Hs).
Qed.

(** *** Repeated sweeps *)

(** A sweep at each of the instants, by a database that refuses the updates of some trades. *)
Definition sweeps (dbFails : Trade → bool) (ts : list Z) (b : Z) (db : TT) : TT :=
  foldl (λ db now, table (sweep undisturbed dbFails now b db)) db ts.

Lemma sweep_table_ok dbFails now b (db : TT) : keyed tradeId db → uniqueIds db →
  let db' := table (sweep undisturbed dbFails now b db) in keyed tradeId db' ∧ uniqueIds db'.
Proof.
  intros Hk Hu db'. pose proof (sweep_rows_taken dbFails now b db Hk Hu) as Hr. fold db' in Hr. split.
  - intros k v Hv. rewrite Hr in Hv. destruct (findUnique k db) as [t|] eqn:Ht; [|done]. apply Hk in Ht.
    cbn in Hv. by case_bool_decide; simplify_eq.
  - intros k k' v v' Hv Hv' He. rewrite Hr in Hv, Hv'.
    destruct (findUnique k db) as [t|] eqn:Ht; [|done]. destruct (findUnique k' db) as [t'|] eqn:Ht'; [|done].
    cbn in Hv, Hv'. apply (Hu k k' t t'); [done..|]. by repeat case_bool_decide; simplify_eq.
Qed.

(** A row a sweep could expire is afterwards as it was, or expired. *)
Lemma sweep_stale dbFails now b (db : TT) e v : keyed tradeId db → uniqueIds db →
  v ∈ findMany (K := string) (stale e) (table (sweep undisturbed dbFails now b db)) ↔
  v ∈ findMany (K := string) (stale e) db ∧ v ∉ taken dbFails (picked now b db).
Proof.
  intros Hk Hu. rewrite !(findMany_elem (K := string)). setoid_rewrite sweep_rows_taken; [|done..]. split.
  - intros (k & Hv & Hs). destruct (findUnique k db) as [t|] eqn:Ht; [|done]. cbn in Hv.
    case_bool_decide as Hin; simplify_eq; [by rewrite expireTrade_not_stale in Hs|eauto].
  - intros [(k & Ht & Hs) Hn]. exists k. rewrite Ht. cbn. by rewrite bool_decide_false.
Qed.

(** The trades at least as overdue as [e] are picked first. *)
Lemma picked_before now b (db : TT) e t : e ≤ now → keyed tradeId db → 0 ≤ b →
  t ∈ findMany (K := string) (stale e) db → expiresAt t = Some e → t ∉ picked now b db →
  length (picked now b db) = Z.to_nat b ∧ ∀ u, u ∈ picked now b db → u ∈ findMany (K := string) (stale e) db.
Proof.
  intros Hle Hk Hb Ht He Hn. unfold picked in *.
  assert (t ∈ findMany (K := string) (stale now) db) as Hnow.
  { apply (findMany_elem (K := string)) in Ht as (k & Hf & Hs). apply (findMany_elem (K := string)). exists k. split; [done|].
    unfold stale in *. rewrite He in *. zb. split_and!; [lia|tauto..]. }
  assert (t ∈ drop (Z.to_nat b) (js_sort byExpiry (findMany (stale now) db))) as Hd.
  { rewrite <-(js_sort_perm byExpiry), <-(take_drop (Z.to_nat b) (js_sort _ _)) in Hnow. set_solver. }
  split.
  - rewrite length_take. enough (Z.to_nat b < length (js_sort byExpiry (findMany (stale now) db)))%nat by lia.
    destruct (decide (length (js_sort byExpiry (findMany (stale now) db)) ≤ Z.to_nat b)%nat) as [Hs|]; [|lia].
    rewrite drop_ge in Hd by done. set_solver.
  - intros u Hu. pose proof (by_expiry (findMany (stale now) db)) as Hs. rewrite <-(take_drop (Z.to_nat b) (js_sort _ _)) in Hs.
    pose proof (StronglySorted_app_1_elem_of _ _ _ u t Hs Hu Hd) as Hc. unfold cmp_le, byExpiry in Hc.
    apply elem_of_take_in in Hu. rewrite js_sort_perm in Hu. apply (findMany_elem (K := string)) in Hu as (k & Hf & Hst).
    apply (findMany_elem (K := string)). exists k. split; [done|]. unfold stale in *. rewrite He in Hc. cbn in Hc.
    destruct (expiresAt u); [|done]. cbn in Hc. zb. split_and!; [lia|tauto..].
Qed.

Lemma stale_NoDup e (db : TT) : keyed tradeId db → NoDup (findMany (K := string) (stale e) db).
Proof. intros Hk. by eapply NoDup_fmap_1, (findMany_NoDup tradeId). Qed.

(** What a sweep that passes a trade over takes off those at least as overdue. *)
Lemma sweep_progress dbFails now b (db : TT) e t : keyed tradeId db → uniqueIds db → 0 ≤ b → e ≤ now →
  t ∈ findMany (K := string) (stale e) db → expiresAt t = Some e → t ∉ picked now b db →
  let db' := table (sweep undisturbed dbFails now b db) in
  let older := findMany (K := string) (stale e) in
  (length (taken dbFails (older db')) + Z.to_nat b ≤ length (taken dbFails (older db)) + length (stuck dbFails (older db)))%nat ∧
  (length (stuck dbFails (older db')) ≤ length (stuck dbFails (older db)))%nat.
Proof.
  intros Hk Hu Hb Hle Ht He Hn. cbv zeta. destruct (picked_before now b db e t Hle Hk Hb Ht He Hn) as [Hlen Hpick].
  pose proof (sweep_table_ok dbFails now b db Hk Hu) as [Hk' _]. set (db' := table _) in *.
  assert (NoDup (picked now b db)) as Hnp by (eapply NoDup_fmap_1, (picked_NoDup now b db Hk Hu)).
  assert (∀ f (l : list Trade), NoDup l → NoDup (taken f l) ∧ NoDup (stuck f l)) as Hnd.
  { intros f l Hl. split; (eapply sublist_NoDup; [exact Hl|]); [apply taken_sublist|apply stuck_sublist]. }
  pose proof (stale_NoDup e db Hk) as Hno. pose proof (stale_NoDup e db' Hk') as Hno'. split.
  - assert (length (taken dbFails (findMany (stale e) db') ++ taken dbFails (picked now b db)) ≤ length (taken dbFails (findMany (stale e) db)))%nat as H1.
    { apply submseteq_length, NoDup_submseteq.
      - apply NoDup_app. split_and!; [by apply Hnd| |by apply Hnd]. intros u [Hu' _]%taken_elem. by apply sweep_stale in Hu' as [_ ?].
      - intros u [[Hu' Hf]%taken_elem|[Hu' Hf]%taken_elem]%elem_of_app; apply taken_elem; (split; [|done]); [by apply sweep_stale in Hu' as [? _]|by apply Hpick]. }
    rewrite length_app in H1. pose proof (taken_stuck_length dbFails (picked now b db)) as H2.
    assert (length (stuck dbFails (picked now b db)) ≤ length (stuck dbFails (findMany (stale e) db)))%nat as H3.
    { apply submseteq_length, NoDup_submseteq; [by apply Hnd|]. intros u [Hu' Hf]%stuck_elem. apply stuck_elem. split; [by apply Hpick|done]. }
    lia.
  - apply submseteq_length, NoDup_submseteq; [by apply Hnd|]. intros u [Hu' Hf]%stuck_elem. apply stuck_elem. split; [|done]. by apply sweep_stale in Hu' as [? _].
Qed.

Lemma sweeps_fixed dbFails ts b (db : TT) k t : keyed tradeId db → uniqueIds db → findUnique k db = Some t →
  findUnique k (sweeps dbFails ts b db) = Some t ∨
  ∃ now, now ∈ ts ∧ stale now t = true ∧ dbFails t = false ∧ findUnique k (sweeps dbFails ts b db) = Some (expireTrade now t).
Proof.
  revert db t. induction ts as [|now ts IH]; intros db t Hk Hu Ht; [by left|].
  change (sweeps dbFails (now :: ts) b db) with (sweeps dbFails ts b (table (sweep undisturbed dbFails now b db))).
  pose proof (sweep_table_ok dbFails now b db Hk Hu) as [Hk' Hu']. pose proof (sweep_rows_taken dbFails now b db Hk Hu k) as Hr.
  rewrite Ht in Hr. cbn in Hr. case_bool_decide as Hin.
  - right. exists now. apply taken_elem in Hin as [[Hs _]%picked_In Hf]. split_and!; [set_solver|done..|].
    destruct (IH _ _ Hk' Hu' Hr) as [->|(n & _ & Hs' & _)]; [done|]. by rewrite expireTrade_not_stale in Hs'.
  - destruct (IH _ _ Hk' Hu' Hr) as [->|(n & Hn & ? & ? & ->)]; [by left|]. right. exists n. split_and!; [set_solver|done..].
Qed.

(** C21: Sweeps that no other writer disturbs, at any instants: a trade whose update the database
    takes, and that is overdue at all of them, is expired by one of them as soon as there is
    room for the trades at least as overdue: the sweeps, each less the rows that keep failing,
    hold as many as there are. Trades that become overdue later do not delay it. And sweeps do
    nothing else: a row is as it was, or was overdue and is expired. *)
Theorem sweeps_fair dbFails ts b (db : TT) k t e : keyed tradeId db → uniqueIds db →
  let older := findMany (K := string) (stale e) db in
  let failing := Z.of_nat (length (stuck dbFails older)) in
  findUnique k db = Some t → expiresAt t = Some e → stale e t = true → dbFails t = false →
  Forall (λ now, e ≤ now) ts → failing ≤ b →
  Z.of_nat (length older) ≤ failing + Z.of_nat (length ts) * (b - failing) →
  (∃ now, now ∈ ts ∧ findUnique k (sweeps dbFails ts b db) = Some (expireTrade now t)) ∧
  ∀ k' t', findUnique k' db = Some t' →
    findUnique k' (sweeps dbFails ts b db) = Some t' ∨
    ∃ now, now ∈ ts ∧ stale now t' = true ∧ dbFails t' = false ∧ findUnique k' (sweeps dbFails ts b db) = Some (expireTrade now t').
Proof.
  intros Hk Hu. cbv zeta. intros Ht He Hs Hf Hts Hb Hroom. split; [|intros; by apply sweeps_fixed].
  revert db Hk Hu Ht Hb Hroom. induction Hts as [|now ts Hle Hts IH]; intros db Hk Hu Ht Hb Hroom.
  - exfalso. pose proof (taken_stuck_length dbFails (findMany (K := string) (stale e) db)) as Hl.
    assert (t ∈ taken dbFails (findMany (K := string) (stale e) db)) as Hin by (apply taken_elem; split; [apply (findMany_elem (K := string)); eauto|done]).
    destruct (taken dbFails _); [set_solver|cbn in *; lia].
  - pose proof (sweep_table_ok dbFails now b db Hk Hu) as [Hk' Hu']. pose proof (sweep_rows_taken dbFails now b db Hk Hu k) as Hr.
    rewrite Ht in Hr. cbn in Hr. destruct (decide (t ∈ picked now b db)) as [Hin|Hn].
    + rewrite bool_decide_true in Hr by (by apply taken_elem). exists now. split; [set_solver|].
      change (sweeps dbFails (now :: ts) b db) with (sweeps dbFails ts b (table (sweep undisturbed dbFails now b db))).
      destruct (sweeps_fixed dbFails ts b _ k _ Hk' Hu' Hr) as [?|(n & _ & Hs' & _)]; [done|]. by rewrite expireTrade_not_stale in Hs'.
    + rewrite bool_decide_false in Hr by (by intros [? _]%taken_elem).
      assert (t ∈ findMany (K := string) (stale e) db) as Hin by (apply (findMany_elem (K := string)); eauto).
      destruct (sweep_progress dbFails now b db e t Hk Hu ltac:(lia) Hle Hin He Hn) as [H1 H2].
      pose proof (taken_stuck_length dbFails (findMany (K := string) (stale e) db)).
      pose proof (taken_stuck_length dbFails (findMany (K := string) (stale e) (table (sweep undisturbed dbFails now b db)))).
      destruct (IH _ Hk' Hu' Hr) as (n & Hn' & Hres); [lia| |exists n; split; [set_solver|exact Hres]].
      cbn [length] in Hroom. nia.
Qed.

(** *** Other writers *)

(** Whatever other writers do between the sweep's read and its writes, a trade
    that they leave in a status the sweeper may not expire (and that it had when the
    sweep started) keeps it: the guard in the update's [where] clause is enough. *)
Theorem sweep_respects_settled before dbFails now batchSize (db : TT) k s : s ∉ EXPIRABLE_STATUSES →
  let settled db := ∃ t, findUnique k db = Some t ∧ status t = s in
  (∀ t db, settled db → settled (before t db)) →
  settled db → settled (table (sweep before dbFails now batchSize db)).
Proof.
  intros Hs settled Hb. unfold sweepExpiredTrades. generalize (picked now batchSize db) as l.
  intros l. generalize {| scanned := Z.of_nat (length l); expired := 0; errors := 0 |} as r.
  generalize (@nil NotificationJob) as js. revert db. induction l as [|t l IH]; intros db js r Hd; [done|].
  cbn [foldl]. unfold expireOne at 2. cbn [table jobs result_]. destruct (dbFails t); [by apply IH, Hb|].
  destruct (notifyParties add preferences t) as [sent ok]. apply IH.
  destruct (Hb t db Hd) as (v & Hv & Hvs). exists v. rewrite updateMany_rows, Hv. cbn.
  unfold sameVersion, expirable. rewrite Hvs, (bool_decide_false (s ∈ _)), andb_false_r by done. done.
Qed.

(** A trade that another writer moved first is not expired, yet the sweeper
    still tells its buyer that a refund is coming and counts it as expired. *)
Theorem lost_race_counts_as_expired before dbFails now (w : Sweep (TT := TT)) t : dbFails t = false →
  (∀ k row, findUnique k (before t (table w)) = Some row → sameVersion t row = false) →
  (∀ job, add job = true) →
  let w' := one before dbFails now w t in
  (∀ k, findUnique k (table w') = findUnique k (before t (table w))) ∧
  expired (result_ w') = expired (result_ w) + 1 ∧
  buyerJob t ∈ jobs w' ∧ sellerJob t ∈ jobs w'.
Proof.
  intros Hf Hb Ha w'. unfold w', expireOne. rewrite Hf. unfold notifyParties.
  assert (∀ e j, enqueueTradeLifecycleNotification add preferences e j =
    ((enqueueTradeLifecycleNotification add preferences e j).1, true)) as He.
  { intros e j. unfold enqueueTradeLifecycleNotification. cbn. rewrite Ha. by destruct (wantsSms _ _ _); cbn; rewrite ?Ha. }
  rewrite (He _ (buyerJob t)), (He _ (sellerJob t)). cbn [fst snd andb table result_ expired jobs]. split; [|split; [done|]].
  - intros k. rewrite updateMany_rows. destruct (findUnique k (before t (table w))) as [row|] eqn:Hr; [|done].
    cbn. by rewrite (Hb k row).
  - unfold enqueueTradeLifecycleNotification. cbn. rewrite !Ha. split; set_solver.
Qed.
End SweepFacts.

(** ** The batch's correctness *)

(** [n] transitions of the table, each bumping the version. *)
Inductive moves : nat → Trade → Trade → Prop :=
| moves_nil t : moves 0 t t
| moves_snoc n t t' s now : moves n t t' → s ∈ VALID_TRANSITIONS (status t') →
    moves (S n) t (setStatus s (expiredAt t') now t').

Lemma moves_version n t t' : moves n t t' → version t' = version t + Z.of_nat n.
Proof. induction 1; cbn; lia. Qed.

Lemma moves_final n t t' : VALID_TRANSITIONS (status t) = [] → moves n t t' → t' = t.
Proof.
  intros Hf Hm. induction Hm as [|n t t' s now _ IH Hs]; [done|]. rewrite IH in Hs by done.
  rewrite Hf in Hs. set_solver.
Qed.

(** Every transition the contract's events make is allowed to the administrator. *)
Lemma edge_valid s s' : EventHandlers.edge s s' → s' ∈ VALID_TRANSITIONS s.
Proof. destruct 1 as [| | |s [->| ->]|]; cbn; set_solver. Qed.

Section BatchFacts.
Context {TT : Type} `{!Table string Trade TT, !TableLaws string Trade TT}.

Definition alone (i : nat) (db : TT) : TT := db.

Lemma count_snoc (k k' : string) l :
  count_occ string_dec (l ++ [k']) k = (count_occ string_dec l k + if bool_decide (k' = k) then 1 else 0)%nat.
Proof. rewrite count_occ_app. cbn. destruct (string_dec k' k), (bool_decide_reflect (k' = k)); congruence. Qed.

(** What the loop keeps true of the table and its two lists. *)
Record batchOk (db : TT) (n : nat) (w : Batch (TT := TT)) : Prop := {
  ok_rows k : match findUnique k db with
    | Some t => ∃ t', findUnique k (rows w) = Some t' ∧ moves (count_occ string_dec (succeeded w) k) t t'
    | None => findUnique k (rows w) = None
    end;
  ok_lists : (length (succeeded w) + length (failed w) = n)%nat;
}.

Lemma moves_key n t t' : moves n t t' → tradeId t' = tradeId t.
Proof. by induction 1. Qed.

Lemma ok_keyed db n w : keyed tradeId db → batchOk db n w → keyed tradeId (rows w).
Proof.
  intros Hk [Hr _] k t' Ht'. specialize (Hr k). destruct (findUnique k db) as [t|] eqn:Ht; [|congruence].
  destruct Hr as (t1 & Ht1 & Hm%moves_key). simplify_eq. rewrite Hm. by apply Hk.
Qed.

(** The guarded write hits exactly the row that was read. *)
Lemma guarded_write (f : Trade → Trade) (db : TT) k t : keyed tradeId db → findUnique k db = Some t →
  let '(count, db') := updateMany (λ r, bool_decide (tradeId r = tradeId t) && (version r =? version t)) f db in
  count ≠ 0 ∧ ∀ k', findUnique k' db' = if bool_decide (k' = k) then Some (f t) else findUnique k' db.
Proof.
  intros Hk Ht. set (p := λ r, _). destruct (updateMany p f db) as [count db'] eqn:Hu. split.
  - pose proof (updateMany_hit (K := string) p f db) as [_ Hh]. rewrite Hu in Hh.
    assert (0 < count); [|cbn in *; lia]. apply Hh. exists k, t. unfold p. by rewrite bool_decide_true, Z.eqb_refl.
  - intros k'. pose proof (updateMany_rows k' p f db) as Hr'. rewrite Hu in Hr'. cbn [snd] in Hr'. rewrite Hr'.
    case_bool_decide as He; [subst; rewrite Ht; cbn; unfold p; by rewrite bool_decide_true, Z.eqb_refl|].
    destruct (findUnique k' db) as [r|] eqn:Hr; [|done]. cbn. unfold p.
    rewrite bool_decide_false; [done|]. apply Hk in Hr, Ht. congruence.
Qed.

Lemma applyOne_ok dbFails now i db n w u : keyed tradeId db → batchOk db n w →
  match applyOne alone dbFails now i w u with
  | inl w' => batchOk db (S n) w' ∧
      (failed w' = failed w ∨ ∃ why, failed w' = failed w ++ [(up_tradeId u, why)]) ∧
      (∀ t, findFirst (matches (up_tradeId u)) (rows w) = Some t → isValidTransition (status t) (up_status u) = true →
        succeeded w' = succeeded w ++ [tradeId t])
  | inr db' => db' = rows w
  end.
Proof.
  intros Hk Hok. unfold applyOne. destruct (dbFails i); [done|].
  assert (∀ why, batchOk db (S n) (mkBatch (rows w) (succeeded w) (failed w ++ [(up_tradeId u, why)]))) as Hrej.
  { intros why. split; [apply Hok|]. cbn. rewrite length_app. cbn. pose proof (ok_lists _ _ _ Hok). lia. }
  destruct (findFirst _ _) as [t|] eqn:Hf; [|split; [done|]; cbn; split; [eauto|done]].
  destruct (isValidTransition (status t) (up_status u)) eqn:Hv; cbn [negb].
  2: { split; [done|]. cbn. split; [eauto|]. intros t' ?. simplify_eq. congruence. }
  apply (findFirst_Some (K := string)) in Hf as (k & Ht & _). unfold alone.
  pose proof (ok_keyed _ _ _ Hk Hok) as Hkw.
  pose proof (guarded_write (λ r, setStatus (up_status u) (expiredAt r) now r) (rows w) k t Hkw Ht) as Hg.
  destruct (updateMany _ _ _) as [count db'] eqn:Hu. destruct Hg as [Hc Hg].
  rewrite (proj2 (Z.eqb_neq _ _) Hc). split; [|cbn; split; [by left|intros ? [=]; congruence]].
  split; cbn [rows succeeded failed]; [|rewrite length_app; cbn; pose proof (ok_lists _ _ _ Hok); lia].
  intros k'. pose proof (ok_rows _ _ _ Hok k') as Hr. rewrite Hg, count_snoc, (Hkw _ _ Ht).
  destruct (bool_decide_reflect (k' = k)) as [->|Hne]; [rewrite (bool_decide_true (k = k)) by done|].
  - destruct (findUnique k db) as [t0|] eqn:H0; [|congruence].
    destruct Hr as (t1 & Ht1 & Hm). simplify_eq. eexists. split; [done|]. rewrite Nat.add_1_r.
    constructor; [done|]. by apply bool_decide_eq_true in Hv.
  - rewrite (bool_decide_false (k = k')), Nat.add_0_r by done. exact Hr.
Qed.

Lemma applyAll_ok dbFails now i db n w us : keyed tradeId db → batchOk db n w →
  match applyAll alone dbFails now i w us with
  | inl w' => batchOk db (n + length us) w' ∧
      ∃ bad, failed w' = failed w ++ bad ∧ sublist (bad.*1) (up_tradeId <$> us)
  | inr db' => ∃ m w', batchOk db m w' ∧ db' = rows w'
  end.
Proof.
  intros Hk. revert i n w. induction us as [|u us IH]; intros i n w Hok; cbn.
  - rewrite Nat.add_0_r. split; [done|]. exists []. by rewrite app_nil_r.
  - pose proof (applyOne_ok dbFails now i db n w u Hk Hok) as H1.
    destruct (applyOne _ _ _ _ _ _) as [w'|db']; [|subst; eauto].
    destruct H1 as (Hok' & Hfail & _). specialize (IH (S i) (S n) w' Hok').
    destruct (applyAll _ _ _ _ _ _) as [w2|db']; [|done].
    destruct IH as (Hok2 & bad & Hb & Hs). rewrite <-Nat.add_succ_comm. split; [done|].
    destruct Hfail as [Hfail|(why & Hfail)]; rewrite Hfail in Hb.
    + exists bad. split; [done|]. by constructor.
    + exists ((up_tradeId u, why) :: bad). rewrite <-app_assoc in Hb. split; [done|]. by constructor.
Qed.

(** An undisturbed batch moves each trade along allowed transitions only, one
    version per success; a trade in a final status is untouched; every update is
    reported once, as a success or with its reason; and the audit row says what the
    response says. A failing statement ends the request without a response. *)
Theorem batch_spec dbFails auditFails admin now (db : TT) audit us : keyed tradeId db →
  let '(db', audit', r) := batchStatus alone dbFails auditFails admin now db audit us in
  (∀ k, match findUnique k db with
    | Some t => ∃ n t', findUnique k db' = Some t' ∧ moves n t t' ∧ version t' = version t + Z.of_nat n ∧
        (VALID_TRANSITIONS (status t) = [] → t' = t) ∧
        (∀ good bad, r = Some (good, bad) → n = count_occ string_dec good k)
    | None => findUnique k db' = None
    end) ∧
  match r with
  | Some (good, bad) => (length good + length bad = length us)%nat ∧ sublist (bad.*1) (up_tradeId <$> us) ∧
      ∃ e, audit' = audit ++ [e] ∧ actor e = admin ∧ okTrades e = good ∧ badTrades e = bad
  | None => audit' = audit
  end.
Proof.
  intros Hk. unfold batchStatus.
  assert (batchOk db 0 (mkBatch db [] [])) as H0.
  { split; [|done]. intros k. cbn. destruct (findUnique k db); [|done]. eauto using moves. }
  pose proof (applyAll_ok dbFails now 0 db 0 _ us Hk H0) as Ha.
  assert (∀ m w (r : option (list string * list (string * reason))), batchOk db m w →
    (∀ good bad, r = Some (good, bad) → good = succeeded w) → ∀ k, match findUnique k db with
    | Some t => ∃ n t', findUnique k (rows w) = Some t' ∧ moves n t t' ∧ version t' = version t + Z.of_nat n ∧
        (VALID_TRANSITIONS (status t) = [] → t' = t) ∧
        (∀ good bad, r = Some (good, bad) → n = count_occ string_dec good k)
    | None => findUnique k (rows w) = None end) as Hrows.
  { intros m w r Hw Hs k. pose proof (ok_rows _ _ _ Hw k) as Hr. destruct (findUnique k db) as [t|]; [|done].
    destruct Hr as (t' & Ht' & Hm). exists (count_occ string_dec (succeeded w) k), t'.
    split; [done|]. split; [done|]. split; [by apply moves_version|]. split; [by intros Hf; eapply moves_final|].
    intros good bad Hr. by rewrite (Hs _ _ Hr). }
  destruct (applyAll _ _ _ _ _ _) as [w|db'].
  - destruct Ha as (Hw & bad & Hb & Hs). cbn in Hb.
    destruct auditFails; (split; [apply (Hrows _ _ _ Hw); naive_solver|]); [done|].
    split; [apply Hw|]. rewrite Hb. split; [done|]. eauto.
  - destruct Ha as (m & w & Hw & ->). split; [apply (Hrows _ _ _ Hw); done|done].
Qed.

(** The steps the administrator may take: forward along the life of a trade, or to its
    cancellation; never out of a final status. *)
Inductive allowed : TradeStatus → TradeStatus → Prop :=
| signed_created : allowed PENDING_SIGNATURE CREATED
| created_funded : allowed CREATED FUNDED
| funded_delivered : allowed FUNDED DELIVERED
| delivered_completed : allowed DELIVERED COMPLETED
| disputed s : s = FUNDED ∨ s = DELIVERED → allowed s DISPUTED
| dispute_completed : allowed DISPUTED COMPLETED
| cancelled s : s ∉ [COMPLETED; CANCELLED; EXPIRED] → allowed s CANCELLED.

Lemma isValidTransition_spec s s' : isValidTransition s s' = true ↔ allowed s s'.
Proof.
  unfold isValidTransition. rewrite bool_decide_eq_true. split.
  - destruct s, s'; cbn; intros H; try (exfalso; set_solver); try constructor; try set_solver; auto.
  - destruct 1 as [| | | |s [->| ->]| |s Hs]; cbn; try set_solver. destruct s; cbn; set_solver.
Qed.

(** A row with another status and the next version, otherwise the same; Prisma stamps it. *)
Definition moved_to (s : TradeStatus) (now : Z) (r r' : Trade) : Prop :=
  status r' = s ∧ version r' = version r + 1 ∧ updatedAt r' = now ∧
  id r' = id r ∧ tradeId r' = tradeId r ∧ buyerAddress r' = buyerAddress r ∧ sellerAddress r' = sellerAddress r ∧
  amountUsdc r' = amountUsdc r ∧ buyerLossBps r' = buyerLossBps r ∧ sellerLossBps r' = sellerLossBps r ∧
  expiresAt r' = expiresAt r ∧ expiredAt r' = expiredAt r ∧ createdAt r' = createdAt r.

(** C20: One update of a batch, whatever other writers do between its read and its write. When no
    trade is found, or the step from the status it was read in is not allowed, it is reported
    and nothing is written. Otherwise the write goes by the version that was read: if the row
    still has it, the trade takes the step and is reported as done, and every other row is as
    the others left it; if the row has another version by then or is gone, the update is
    reported as a conflict and every row is as the others left it. *)
Theorem applyOne_guarded between dbFails now i (w w' : Batch (TT := TT)) u :
  keyed tradeId (rows w) → keyed tradeId (between i (rows w)) →
  applyOne between dbFails now i w u = inl w' →
  let reported why := succeeded w' = succeeded w ∧ failed w' = failed w ++ [(up_tradeId u, why)] in
  match findFirst (matches (up_tradeId u)) (rows w) with
  | None => reported TradeNotFound ∧ rows w' = rows w
  | Some t =>
      (¬ allowed (status t) (up_status u) → reported (InvalidTransition (status t) (up_status u)) ∧ rows w' = rows w) ∧
      (allowed (status t) (up_status u) →
        match findUnique (tradeId t) (between i (rows w)) with
        | Some r =>
            if version r =? version t then
              succeeded w' = succeeded w ++ [tradeId t] ∧ failed w' = failed w ∧
              (∃ r', findUnique (tradeId t) (rows w') = Some r' ∧ moved_to (up_status u) now r r') ∧
              ∀ k, k ≠ tradeId t → findUnique k (rows w') = findUnique k (between i (rows w))
            else reported ConcurrencyConflict ∧ ∀ k, findUnique k (rows w') = findUnique k (between i (rows w))
        | None => reported ConcurrencyConflict ∧ ∀ k, findUnique k (rows w') = findUnique k (between i (rows w))
        end)
  end.
Proof.
  intros Hk Hk'. unfold applyOne. destruct (dbFails i); [done|]. cbv zeta.
  destruct (findFirst _ _) as [t|] eqn:Hf; [|by intros [= <-]].
  pose proof (isValidTransition_spec (status t) (up_status u)) as Hval.
  destruct (isValidTransition (status t) (up_status u)); cbn [negb].
  2: { intros [= <-]. split; [done|]. intros Ha%Hval. done. }
  assert (allowed (status t) (up_status u)) as Ha by (by apply Hval). intros Hw. split; [done|]. intros _. revert Hw.
  set (p := λ r, bool_decide (tradeId r = tradeId t) && (version r =? version t)).
  set (f := λ r, setStatus (up_status u) (expiredAt r) now r). destruct (updateMany p f (between i (rows w))) as [count db'] eqn:Hu.
  assert (∀ k, findUnique k db' = (λ v, if p v then f v else v) <$> findUnique k (between i (rows w))) as Hr.
  { intros k. rewrite <-updateMany_rows. by rewrite Hu. }
  pose proof (updateMany_count (K := string) p f (between i (rows w))) as Hc.
  pose proof (updateMany_hit (K := string) p f (between i (rows w))) as Hh. rewrite Hu in Hc, Hh. cbn [fst] in Hc, Hh.
  assert (∀ k v, findUnique k (between i (rows w)) = Some v → p v = true → k = tradeId t ∧ version v = version t) as Hp.
  { intros k v Hkv [He%bool_decide_eq_true Hv%Z.eqb_eq]%andb_true_iff. rewrite <-(Hk' _ _ Hkv). done. }
  assert ((∀ k v, findUnique k (between i (rows w)) = Some v → p v = false) → count = 0 ∧ ∀ k, findUnique k db' = findUnique k (between i (rows w))) as Hmiss.
  { intros Hn. split.
    - destruct (decide (0 < count)) as [(k & v & Hkv & Hpv)%Hh|]; [|lia]. by rewrite (Hn k v) in Hpv.
    - intros k. rewrite Hr. destruct (findUnique k _) as [v|] eqn:Hkv; [|done]. cbn. by rewrite (Hn k v). }
  destruct (findUnique (tradeId t) (between i (rows w))) as [r|] eqn:Hrow.
  - destruct (Z.eqb_spec (version r) (version t)) as [Hver|Hver].
    + assert (p r = true) as Hpr by (unfold p; rewrite (Hk' _ _ Hrow), bool_decide_true, Hver, Z.eqb_refl by done; done).
      assert (0 < count) as Hpos by (apply Hh; eauto). rewrite (proj2 (Z.eqb_neq count 0)) by lia. intros [= <-]. split_and!; [done..| |].
      * exists (f r). cbn [rows]. rewrite Hr, Hrow. cbn. rewrite Hpr. split; [done|]. by split_and!.
      * intros k Hne. cbn [rows]. rewrite Hr. destruct (findUnique k _) as [v|] eqn:Hkv; [|done]. cbn.
        destruct (p v) eqn:Hpv; [|done]. by apply (Hp k v Hkv) in Hpv as [-> _].
    + destruct Hmiss as [-> Hsame]. { intros k v Hkv. apply not_true_is_false. intros [-> Hv]%(Hp _ _ Hkv). congruence. }
      cbn. by intros [= <-].
  - destruct Hmiss as [-> Hsame]. { intros k v Hkv. apply not_true_is_false. intros [-> Hv]%(Hp _ _ Hkv). congruence. }
    cbn. by intros [= <-].
Qed.
End BatchFacts.

(** ** Samples, witnesses, and what the model showed *)

Definition DB : Type := gmap string Trade.
Definition tableOf (l : list Trade) : DB := list_to_map (map (λ t, (tradeId t, t)) l).

Definition sampleTrade (n : Z) (tid : string) (s : TradeStatus) (expiry : option Z) : Trade :=
  {| id := n; tradeId := tid; buyerAddress := "gb"; sellerAddress := "gs"; amountUsdc := "12.5";
     buyerLossBps := 5000; sellerLossBps := 5000; version := 0; status := s; expiresAt := expiry; expiredAt := None;
     createdAt := n; updatedAt := n |}.
Definition overdue : DB :=
  tableOf [sampleTrade 1 "A" FUNDED (Some 10); sampleTrade 2 "B" CREATED (Some 5); sampleTrade 3 "C" DISPUTED (Some 5)].

Lemma tableOf_In l k t : tableOf l !! k = Some t → t ∈ l ∧ k = tradeId t.
Proof.
  intros H%(elem_of_list_to_map_2 (M := gmap string)). apply list_elem_of_fmap in H as (t' & [= -> ->] & ?). done.
Qed.

Lemma tableOf_keyed l : keyed tradeId (tableOf l).
Proof. intros k t H. change (tableOf l !! k = Some t) in H. by apply tableOf_In in H as [_ ->]. Qed.

Lemma tableOf_unique l : (∀ t t', t ∈ l → t' ∈ l → id t = id t' → t = t') → uniqueIds (tableOf l).
Proof.
  intros Hl k k' t t' H H' He. change (tableOf l !! k = Some t) in H. change (tableOf l !! k' = Some t') in H'.
  apply tableOf_In in H as [H ->], H' as [H' ->]. f_equal. auto.
Qed.

Lemma overdue_unique : uniqueIds overdue.
Proof. apply tableOf_unique. intros t t'. rewrite !elem_of_cons, !elem_of_nil. naive_solver. Qed.

(** A trade that was never funded is listed as awaiting a refund once it
    expires, and a refund recorded elsewhere does not take it off the list: the
    list is every expired trade. *)
Theorem pending_refunds_are_all_expired :
  let db := tableOf [sampleTrade 2 "B" PENDING_SIGNATURE (Some 5)] in
  let w := sweepExpiredTrades (λ _, true) (λ _, Ok None) undisturbed reliable 100 10 db in
  map tradeId (getPendingRefunds 50 (table w)) = ["B"%string] ∧ map expiredAt (getPendingRefunds 50 (table w)) = [Some 100].
Proof. vm_compute. done. Qed.

(** When a later statement of a batch fails, the status changes already made
    stay, with neither a response nor an audit row. *)
Theorem failed_batch_unaudited :
  let db := tableOf [sampleTrade 1 "A" FUNDED None] in
  let us := [{| up_tradeId := "A"; up_status := CANCELLED |}; {| up_tradeId := "B"; up_status := CANCELLED |}] in
  let '(db', audit, r) := batchStatus alone (λ i, (i =? 1)%nat) false "admin" 7 db [] us in
  r = None ∧ audit = [] ∧ status <$> findUnique "A"%string db' = Some CANCELLED.
Proof. vm_compute. done. Qed.

Lemma sweep_spec_witness :
  let w := sweepExpiredTrades (λ _, true) (λ _, Ok None) undisturbed reliable 20 1 overdue in
  let rows := picked 20 1 overdue in
  (∀ k, findUnique k (table w) =
    (λ t, if bool_decide (t ∈ rows) then expireTrade 20 t else t) <$> findUnique k overdue) ∧
  scanned (result_ w) = Z.min 1 (Z.of_nat (length (findMany (stale 20) overdue))) ∧
  expired (result_ w) + errors (result_ w) = scanned (result_ w) ∧
  expired (result_ w) = Z.of_nat (length (List.filter (λ t, (notifyParties (λ _, true) (λ _, Ok None) t).2) rows)) ∧
  jobs w = concat (map (λ t, (notifyParties (λ _, true) (λ _, Ok None) t).1) rows) ∧
  ∀ t t', t ∈ rows → t' ∈ findMany (stale 20) overdue → t' ∉ rows → byExpiry t t' ≤ 0.
Proof.
  exact (sweep_spec (TT := DB) (λ _, true) (λ _, Ok None) 20 1 overdue (tableOf_keyed _) overdue_unique Z.le_0_1).
Defined.

(** The update of B fails at every sweep, and A still gets its turn in a batch of two. *)
Lemma sweeps_fair_witness :
  let fails t := bool_decide (tradeId t = "B"%string) in
  (∃ now, now ∈ [20] ∧ findUnique "A"%string (sweeps (λ _, true) (λ _, Ok None) fails [20] 2 overdue) =
     Some (expireTrade now (sampleTrade 1 "A" FUNDED (Some 10)))) ∧
  (findUnique "B"%string (sweeps (λ _, true) (λ _, Ok None) fails [20] 2 overdue) = Some (sampleTrade 2 "B" CREATED (Some 5))).
Proof.
  cbv zeta. split; [|vm_compute; reflexivity].
  refine (proj1 (sweeps_fair (TT := DB) (λ _, true) (λ _, Ok None) (λ t, bool_decide (tradeId t = "B"%string)) [20] 2 overdue "A"
    (sampleTrade 1 "A" FUNDED (Some 10)) 10 (tableOf_keyed _) overdue_unique _ _ _ _ _ _ _));
    first [vm_compute; reflexivity | vm_compute; discriminate | constructor; [lia|constructor]].
Defined.

Lemma sweep_respects_settled_witness :
  ∃ t, findUnique "C"%string (table (sweepExpiredTrades (λ _, true) (λ _, Ok None)
    (λ _ db, <["A"%string := sampleTrade 1 "A" DELIVERED (Some 10)]> db) reliable 20 5 overdue)) = Some t ∧
  status t = DISPUTED.
Proof.
  apply (sweep_respects_settled (TT := DB)).
  - cbn. set_solver.
  - intros t db (v & Hv & Hs). exists v. split; [|done]. rewrite <-Hv. by apply (lookup_insert_ne (M := gmap string)).
  - eexists. split; [vm_compute; reflexivity|reflexivity].
Defined.

Definition moved (t : Trade) (db : DB) : DB := tableOf [setStatus DELIVERED None 15 t].

Lemma lost_race_counts_as_expired_witness :
  let t := sampleTrade 1 "A" FUNDED (Some 10) in
  let w := mkSweep (tableOf [t]) [] {| scanned := 1; expired := 0; errors := 0 |} in
  let w' := expireOne (λ _, true) (λ _, Ok None) moved reliable 20 w t in
  (∀ k, findUnique k (table w') = findUnique k (moved t (table w))) ∧ expired (result_ w') = 0 + 1 ∧
  buyerJob t ∈ jobs w' ∧ sellerJob t ∈ jobs w'.
Proof.
  apply (lost_race_counts_as_expired (TT := DB)); [done| |done].
  intros k row H. change (moved (sampleTrade 1 "A" FUNDED (Some 10)) ∅ !! k = Some row) in H.
  apply tableOf_In in H as [H _]. apply list_elem_of_singleton in H as ->. reflexivity.
Defined.

Definition sampleUpdates : list StatusUpdate :=
  [{| up_tradeId := "A"; up_status := DELIVERED |}; {| up_tradeId := "1"; up_status := COMPLETED |};
   {| up_tradeId := "B"; up_status := COMPLETED |}; {| up_tradeId := "Z"; up_status := FUNDED |}].

Lemma batch_spec_witness :
  let '(db', audit', r) := batchStatus alone (λ _, false) false "admin" 7 overdue [] sampleUpdates in
  (∀ k, match findUnique k overdue with
    | Some t => ∃ n t', findUnique k db' = Some t' ∧ moves n t t' ∧ version t' = version t + Z.of_nat n ∧
        (VALID_TRANSITIONS (status t) = [] → t' = t) ∧
        (∀ good bad, r = Some (good, bad) → n = count_occ string_dec good k)
    | None => findUnique k db' = None
    end) ∧
  match r with
  | Some (good, bad) => (length good + length bad = length sampleUpdates)%nat ∧
      sublist (bad.*1) (up_tradeId <$> sampleUpdates) ∧
      ∃ e, audit' = [] ++ [e] ∧ actor e = "admin"%string ∧ okTrades e = good ∧ badTrades e = bad
  | None => audit' = []
  end.
Proof. exact (batch_spec (TT := DB) (λ _, false) false "admin" 7 overdue [] sampleUpdates (tableOf_keyed _)). Defined.

Example batch_sample : (batchStatus alone (λ _, false) false "admin" 7 overdue [] sampleUpdates).2 =
  Some (["A"; "A"], [("B", InvalidTransition CREATED COMPLETED); ("Z", TradeNotFound)])%string.
Proof. vm_compute. reflexivity. Qed.

(** Another writer delivers the trade between the read and the write of its cancellation. *)
Lemma applyOne_guarded_witness :
  let t := sampleTrade 1 "A" FUNDED None in
  let w := mkBatch (tableOf [t]) [] [] in
  let u := {| up_tradeId := "A"; up_status := CANCELLED |} in
  let between (i : nat) (db : DB) : DB := moved t db in
  let w' := mkBatch (moved t (tableOf [t])) [] [("A"%string, ConcurrencyConflict)] in
  failed w' = [] ++ [("A"%string, ConcurrencyConflict)] ∧
  ∀ k', findUnique k' (rows w') = findUnique k' (between 0%nat (tableOf [t])).
Proof.
  intros t w u between w'.
  assert (applyOne between (λ _, false) 7 0 w u = inl w') as Hw by (vm_compute; reflexivity).
  pose proof (applyOne_guarded (TT := DB) between (λ _, false) 7 0 w w' u (tableOf_keyed _) (tableOf_keyed _) Hw) as H.
  cbv zeta in H. assert (findFirst (matches (up_tradeId u)) (rows w) = Some t) as Hf by (vm_compute; reflexivity). rewrite Hf in H.
  destruct H as [_ H]. assert (allowed (status t) (up_status u)) as Ha by (constructor; intros H'; rewrite !elem_of_cons, elem_of_nil in H'; naive_solver).
  specialize (H Ha). assert (findUnique (tradeId t) (between 0%nat (rows w)) = Some (setStatus DELIVERED None 15 t)) as Hr by (vm_compute; reflexivity).
  rewrite Hr in H. destruct H as [[_ H] H']. split; [exact H|exact H'].
Defined.
