(* ===== verification/Outbox.v ===== *)
(** * The outbox's consistency tools: [lib/outbox/actionEventMapping.ts], [lib/outbox/outboxScanner.ts],
      [jobs/workers/outbox-scan.worker.ts], [routes/outbox.routes.ts]

    The table of the events each action must emit, the scanner that looks for
    trades that changed without an event, the job that alerts on its findings, and
    the administrators' replay of an outbox row. Trades and outbox entries are
    Prisma tables; alerts go through [Alerts]; the clock's readings are arguments. *)

From S2P Require Import Prelude JsString JsValue Prisma.
From S2P Require EventHandlers EventListener Trades TradeLifecycle Alerts.
Import EventHandlers (EventType, EventType_eq_dec, TradeFunded, DeliveryConfirmed, FundsReleased, DisputeInitiated,
  DisputeResolved, StreamClawback, TradeStatus, TradeStatus_eq_dec, PENDING_SIGNATURE, CREATED, FUNDED, DELIVERED,
  COMPLETED, DISPUTED, CANCELLED, EXPIRED).
Import Trades (Trade, tradeId, status, updatedAt).

(** ** Actions and events *)

Inductive ServiceAction : Type :=
| CREATE_PENDING_TRADE | SIGN_TRADE | FUND_TRADE | CONFIRM_DELIVERY | RELEASE_FUNDS | CANCEL_TRADE | EXPIRE_TRADE
| INITIATE_DISPUTE | RESOLVE_DISPUTE | CREATE_STREAM | CLAWBACK_STREAM | TERMINATE_STREAM | ADMIN_CLAWBACK.
#[global] Instance ServiceAction_eq_dec : EqDecision ServiceAction.
Proof. solve_decision. Defined.

Record ActionEventMapping : Type := { action : ServiceAction; expectedEvents : list EventType; resultingStatus : TradeStatus }.

Definition mapping (a : ServiceAction) (es : list EventType) (s : TradeStatus) : ActionEventMapping :=
  {| action := a; expectedEvents := es; resultingStatus := s |}.

Definition ACTION_EVENT_MAPPINGS : list ActionEventMapping :=
  [mapping CREATE_PENDING_TRADE [] PENDING_SIGNATURE; mapping SIGN_TRADE [] CREATED; mapping FUND_TRADE [TradeFunded] FUNDED;
   mapping CONFIRM_DELIVERY [DeliveryConfirmed] DELIVERED; mapping RELEASE_FUNDS [FundsReleased] COMPLETED;
   mapping CANCEL_TRADE [] CANCELLED; mapping EXPIRE_TRADE [] EXPIRED; mapping INITIATE_DISPUTE [DisputeInitiated] DISPUTED;
   mapping RESOLVE_DISPUTE [DisputeResolved] COMPLETED; mapping CREATE_STREAM [] CREATED;
   mapping CLAWBACK_STREAM [StreamClawback] CANCELLED; mapping TERMINATE_STREAM [] CANCELLED;
   mapping ADMIN_CLAWBACK [StreamClawback] CANCELLED].

Definition mappingOf (a : ServiceAction) : option ActionEventMapping :=
  List.find (λ m, bool_decide (action m = a)) ACTION_EVENT_MAPPINGS.
Definition getExpectedEvents (a : ServiceAction) : list EventType :=
  match mappingOf a with Some m => expectedEvents m | None => [] end.
Definition getResultingStatus (a : ServiceAction) : option TradeStatus := resultingStatus <$> mappingOf a.

Record Emission : Type := { valid : bool; missingEvents : list EventType; extraEvents : list EventType }.

Definition validateEventEmission (a : ServiceAction) (emitted : list EventType) : Emission :=
  let expected := getExpectedEvents a in
  let missing := List.filter (λ e, negb (bool_decide (e ∈ emitted))) expected in
  let extra := List.filter (λ e, negb (bool_decide (e ∈ expected))) emitted in
  {| valid := bool_decide (missing = []) && bool_decide (extra = []); missingEvents := missing; extraEvents := extra |}.

(** ** The scanner *)

(** The columns of [ChainEventOutbox] the scanner reads. *)
Record OutboxEntry : Type := { e_tradeId : string; e_createdAt : Z }.

Inductive Severity : Type := critical | warning | info.
#[global] Instance Severity_eq_dec : EqDecision Severity.
Proof. solve_decision. Defined.

Record OutboxGap : Type := {
  g_tradeId : string; lastStateChange : Z; detectedAt : Z; severity : Severity; currentStatus : TradeStatus; timeSinceChange : Z }.

Record Report : Type := {
  scanStartTime : Z; scanEndTime : Z; totalTradesScanned : Z; gapsDetected : list OutboxGap;
  criticalGaps : Z; warningGaps : Z; infoGaps : Z }.

Definition severityOf (timeSinceChange : Z) : Severity :=
  if 5 * 60 * 1000 <? timeSinceChange then critical else if 2 * 60 * 1000 <? timeSinceChange then warning else info.

Section Scanner.
Context {TT TO : Type} `{!Table string Trade TT, !Table Z OutboxEntry TO}.

Definition byUpdateDesc (a b : Trade) : Z := updatedAt b - updatedAt a.

(** One trade of the loop, at its own reading of the clock. *)
Definition gapOf (outbox : TO) (windowStart now : Z) (t : Trade) : option OutboxGap :=
  let entries := findMany (λ e, bool_decide (e_tradeId e = tradeId t) && (windowStart <=? e_createdAt e)) outbox in
  if (length entries =? 0)%nat && negb (bool_decide (status t = PENDING_SIGNATURE)) then
    Some {| g_tradeId := tradeId t; lastStateChange := updatedAt t; detectedAt := now; severity := severityOf (now - updatedAt t);
            currentStatus := status t; timeSinceChange := now - updatedAt t |}
  else None.

Definition countGaps (s : Severity) (gs : list OutboxGap) : Z :=
  Z.of_nat (length (List.filter (λ g, bool_decide (severity g = s)) gs)).

(** [start] and [cutoff] are the first two readings of the clock, [clock i] the one for the [i]-th trade. *)
Definition scanOutboxCompleteness (timeWindowMinutes start cutoff : Z) (clock : nat → Z) (trades : TT) (outbox : TO) : Report :=
  let windowStart := cutoff - timeWindowMinutes * 60 * 1000 in
  let changed := js_sort byUpdateDesc (findMany (λ t, windowStart <=? updatedAt t) trades) in
  let gaps := omap id (imap (λ i t, gapOf outbox windowStart (clock i) t) changed) in
  {| scanStartTime := start; scanEndTime := windowStart; totalTradesScanned := Z.of_nat (length changed); gapsDetected := gaps;
     criticalGaps := countGaps critical gaps; warningGaps := countGaps warning gaps; infoGaps := countGaps info gaps |}.

(** [generateOutboxGapReport]: the trades are read, but no gap is ever looked for. *)
Definition generateOutboxGapReport (startTime endTime : Z) (trades : TT) : list OutboxGap * list string :=
  let _ := findMany (λ t, (startTime <=? updatedAt t) && (updatedAt t <=? endTime)) trades in
  let gaps := [] in
  (gaps, (if 0 <? countGaps critical gaps then ["CRITICAL: Investigate and replay missing events immediately"%string] else []) ++
         (if 0 <? countGaps warning gaps then ["WARNING: Review event emission in services"%string] else [])).

(** The scheduled job; [None] is a failed scan, which is alerted and rethrown. *)
Definition processOutboxScanJob (cfg : Alerts.AlertConfig) (alertOnGaps : bool) (answer : Alerts.WebhookAnswer) (now : Z)
    (scan : option Report) (alerts : Alerts.AlertState) : Alerts.AlertState * option Report :=
  match scan with
  | None => (Alerts.dispatch cfg answer now Alerts.outbox_scan_failed "Outbox consistency scan failed" alerts, None)
  | Some r =>
      (if alertOnGaps && (0 <? criticalGaps r)
       then Alerts.dispatch cfg answer now Alerts.outbox_critical_gaps
              ("Critical outbox gaps detected: " +:+ toString (criticalGaps r) +:+ " gaps found")%string alerts
       else alerts, Some r)
  end.
End Scanner.

(** ** Replay *)

Section Replay.
Context {D TP TO : Type} `{!Table EventListener.eventKey EventListener.eventKey TP}
  `{!Table EventListener.eventKey EventListener.OutboxRow TO}.

Definition resetRow (now : Z) (r : EventListener.OutboxRow) : EventListener.OutboxRow :=
  {| EventListener.o_status := EventListener.PENDING; EventListener.attempts := 0; EventListener.nextAttemptAt := now;
     EventListener.lastError := None; EventListener.deadLetteredAt := EventListener.deadLetteredAt r;
     EventListener.processedAt := EventListener.processedAt r |}.

(** [POST /admin/outbox/replay] of a row that was found. *)
Definition replayEvent (key : EventListener.eventKey) (now : Z) (db : EventListener.Db (D := D) (TP := TP) (TO := TO))
    : result EventHandlers.handler_error (EventListener.Db (D := D) (TP := TP) (TO := TO)) :=
  EventListener.updateOutbox db key (resetRow now).
End Replay.

(** ** Correctness *)

Lemma filter_nil {A} (p : A → bool) l : List.filter p l = [] ↔ ∀ x, x ∈ l → p x = false.
Proof.
  split.
  - intros H x Hx. apply not_true_is_false. intros Hp.
    assert (x ∈ List.filter p l) as Hin; [|rewrite H in Hin; set_solver].
    rewrite list_elem_of_In, List.filter_In, <-list_elem_of_In. done.
  - intros H. induction l as [|x l IH]; [done|]. cbn. rewrite (H x) by set_solver. apply IH. set_solver.
Qed.

(** An emission is valid exactly when it has the same events as the table asks
    for, whatever their order and number; and for every action on a trade the
    expected event is the one whose handler leads to the action's status. *)
Theorem validateEventEmission_spec a emitted :
  let v := validateEventEmission a emitted in
  (valid v = true ↔ ∀ e, e ∈ emitted ↔ e ∈ getExpectedEvents a) ∧
  (∀ e, e ∈ missingEvents v ↔ e ∈ getExpectedEvents a ∧ e ∉ emitted) ∧
  (∀ e, e ∈ getExpectedEvents a → e ≠ StreamClawback → EventHandlers.EVENT_TO_STATUS e = getResultingStatus a).
Proof.
  cbn. split; [|split].
  - rewrite andb_true_iff, !bool_decide_eq_true, !filter_nil. setoid_rewrite negb_false_iff.
    setoid_rewrite bool_decide_eq_true. naive_solver.
  - intros e. rewrite list_elem_of_In, List.filter_In, <-list_elem_of_In, negb_true_iff, bool_decide_eq_false. done.
  - intros e He Hne. destruct a; vm_compute in He; apply list_elem_of_In in He; cbn in He; naive_solver.
Qed.

(** The table breaks its own invariant ("all actions must produce at least one
    event"): of its thirteen actions, six expect none. *)
Theorem silent_actions : length ACTION_EVENT_MAPPINGS = 13%nat ∧
  action <$> List.filter (λ m, bool_decide (expectedEvents m = [])) ACTION_EVENT_MAPPINGS =
    [CREATE_PENDING_TRADE; SIGN_TRADE; CANCEL_TRADE; EXPIRE_TRADE; CREATE_STREAM; TERMINATE_STREAM].
Proof. vm_compute. done. Qed.

Section Facts.
Context {TT TO : Type} `{!Table string Trade TT, !TableLaws string Trade TT, !Table Z OutboxEntry TO, !TableLaws Z OutboxEntry TO}.

Lemma gapOf_Some (outbox : TO) ws now t g : gapOf outbox ws now t = Some g ↔
  (∀ k e, findUnique k outbox = Some e → e_tradeId e = tradeId t → e_createdAt e < ws) ∧ status t ≠ PENDING_SIGNATURE ∧
  g = {| g_tradeId := tradeId t; lastStateChange := updatedAt t; detectedAt := now; severity := severityOf (now - updatedAt t);
         currentStatus := status t; timeSinceChange := now - updatedAt t |}.
Proof.
  unfold gapOf. cbn zeta. set (p := λ e, _). assert (length (findMany (K := Z) p outbox) = 0%nat ↔
    ∀ k e, findUnique k outbox = Some e → e_tradeId e = tradeId t → e_createdAt e < ws) as Hl.
  { rewrite length_zero_iff_nil. split.
    - intros Hn k e Hk He. apply Z.lt_nge. intros Hge. assert (e ∈ findMany (K := Z) p outbox) as Hin; [|rewrite Hn in Hin; set_solver].
      apply findMany_elem. exists k. split; [done|]. unfold p. rewrite bool_decide_true by done. by apply Z.leb_le.
    - intros H. destruct (findMany p outbox) as [|e l] eqn:Hf; [done|]. exfalso.
      assert (e ∈ findMany (K := Z) p outbox) as Hin by (rewrite Hf; set_solver).
      apply findMany_elem in Hin as (k & Hk & Hp). unfold p in Hp. apply andb_true_iff in Hp as [He%bool_decide_eq_true Hw%Z.leb_le].
      specialize (H k e Hk He). lia. }
  destruct (Nat.eqb_spec (length (findMany p outbox)) 0) as [H0|H0]; cbn [andb].
  - rewrite Hl in H0. destruct (bool_decide_reflect (status t = PENDING_SIGNATURE)); cbn [negb]; naive_solver.
  - rewrite Hl in H0. naive_solver.
Qed.

Lemma count_total gs : countGaps critical gs + countGaps warning gs + countGaps info gs = Z.of_nat (length gs).
Proof.
  unfold countGaps. induction gs as [|g gs IH]; [done|]. cbn [List.filter].
  destruct (severity g); decide_bools; cbn [length]; lia.
Qed.

(** A scan reports exactly the trades updated in the window, other than those
    awaiting signature, for which no outbox entry was created in the window, each
    with the severity of its age; the summary counts every gap once. *)
Theorem scan_spec minutes start cutoff now (trades : TT) (outbox : TO) :
  let r := scanOutboxCompleteness minutes start cutoff (λ _, now) trades outbox in
  let ws := cutoff - minutes * 60 * 1000 in
  (∀ g, g ∈ gapsDetected r ↔ ∃ k t, findUnique k trades = Some t ∧ ws ≤ updatedAt t ∧ status t ≠ PENDING_SIGNATURE ∧
    (∀ k e, findUnique k outbox = Some e → e_tradeId e = tradeId t → e_createdAt e < ws) ∧
    g = {| g_tradeId := tradeId t; lastStateChange := updatedAt t; detectedAt := now; severity := severityOf (now - updatedAt t);
           currentStatus := status t; timeSinceChange := now - updatedAt t |}) ∧
  criticalGaps r + warningGaps r + infoGaps r = Z.of_nat (length (gapsDetected r)) ∧
  Z.of_nat (length (gapsDetected r)) ≤ totalTradesScanned r.
Proof.
  intros r ws. split; [|split].
  - intros g. unfold r, scanOutboxCompleteness. cbn [gapsDetected]. fold ws. rewrite list_elem_of_omap. split.
    + intros (x & (i & t & -> & Hi)%elem_of_lookup_imap & Hg). cbn in Hg. apply gapOf_Some in Hg as (Hn & Hs & ->).
      apply list_elem_of_lookup_2 in Hi. rewrite js_sort_perm in Hi. apply (findMany_elem (K := string)) in Hi as (k & Hk & Hw%Z.leb_le).
      by exists k, t.
    + intros (k & t & Hk & Hw & Hs & Hn & ->).
      assert (t ∈ js_sort byUpdateDesc (findMany (λ t, ws <=? updatedAt t) trades)) as Hin.
      { rewrite js_sort_perm. apply (findMany_elem (K := string)). exists k. by rewrite Z.leb_le. }
      apply list_elem_of_lookup in Hin as [i Hi]. eexists (Some _). split; [|reflexivity].
      apply elem_of_lookup_imap. exists i, t. split; [|done]. symmetry. by apply gapOf_Some.
  - apply count_total.
  - unfold r, scanOutboxCompleteness. cbn [gapsDetected totalTradesScanned].
    rewrite <-(length_imap (λ i t, gapOf outbox (cutoff - minutes * 60 * 1000) now t) (js_sort _ _)).
    generalize (imap (λ i t, gapOf outbox (cutoff - minutes * 60 * 1000) now t)
      (js_sort byUpdateDesc (findMany (λ t, cutoff - minutes * 60 * 1000 <=? updatedAt t) trades))) as l.
    induction l as [|[g|] l IH]; cbn in *; lia.
Qed.

(** The scanner contradicts the table: an expired trade, for which the table
    expects no event, is reported as a critical gap once five minutes have passed. *)
Theorem expiry_reported_as_gap minutes start at_ now (trades : TT) (outbox : TO) k t :
  findUnique k trades = Some (TradeLifecycle.expireTrade at_ t) →
  (∀ k e, findUnique k outbox = Some e → e_tradeId e ≠ tradeId t) →
  now - minutes * 60 * 1000 ≤ at_ → at_ + 5 * 60 * 1000 < now →
  getExpectedEvents EXPIRE_TRADE = [] ∧
  ∃ g, g ∈ gapsDetected (scanOutboxCompleteness minutes start now (λ _, now) trades outbox) ∧
    g_tradeId g = tradeId t ∧ severity g = critical.
Proof.
  intros Hk Hn Hw Hl. split; [done|]. eexists. split.
  - apply scan_spec. exists k, (TradeLifecycle.expireTrade at_ t). split; [done|]. split; [done|]. split; [done|].
    split; [|reflexivity]. intros k' e Hk' He. by destruct (Hn k' e).
  - cbn. split; [done|]. unfold severityOf. by rewrite (proj2 (Z.ltb_lt _ _)) by lia.
Qed.

(** The historical report finds nothing, whatever the trades and the outbox hold. *)
Theorem gap_report_empty startTime endTime (trades : TT) : generateOutboxGapReport startTime endTime trades = ([], []).
Proof. done. Qed.
End Facts.

Section ReplayFacts.
Context {D TP TO : Type} `{!Table EventListener.eventKey EventListener.eventKey TP}
  `{!Table EventListener.eventKey EventListener.OutboxRow TO, !TableLaws EventListener.eventKey EventListener.OutboxRow TO}.
Context (errorText : EventHandlers.handler_error → string).
Context (handler : D → EventHandlers.ParsedEvent → Z → result EventHandlers.handler_error D).
Context (config : EventListener.EventListenerConfig).

(** Replaying an event that was processed does not process it again, however it
    is redelivered: the listener's own record stops it before the outbox is read. But
    the row then says PENDING for good. *)
Theorem replay_harmless_but_stuck (db : EventListener.Db (D := D) (TP := TP) (TO := TO)) ev row now :
  findUnique (EventListener.keyOf ev) (EventListener.outbox db) = Some row →
  is_Some (findUnique (EventListener.keyOf ev) (EventListener.processed db)) →
  ∃ db1, replayEvent (EventListener.keyOf ev) now db = Ok db1 ∧
    EventListener.app db1 = EventListener.app db ∧ EventListener.processed db1 = EventListener.processed db ∧
    (EventListener.o_status <$> findUnique (EventListener.keyOf ev) (EventListener.outbox db1)) = Some EventListener.PENDING ∧
    ∀ so l t, let '(_, db2, r) := EventListener.processParsed errorText handler config so (λ d, d) l db1 ev t in
      db2 = db1 ∧ r = Ok tt.
Proof.
  intros Hrow [x Hp]. unfold replayEvent, EventListener.updateOutbox.
  destruct (update_found (EventListener.keyOf ev) (resetRow now) (EventListener.outbox db) row Hrow) as (o' & Hu & Ho & _).
  rewrite Hu. eexists. split; [done|]. cbn. split; [done|]. split; [done|]. split; [by rewrite Ho|].
  intros so l t. unfold EventListener.processParsed. cbn zeta. case_bool_decide; [done|].
  unfold EventListener.isAlreadyProcessed. cbn. by rewrite Hp.
Qed.
End ReplayFacts.

(** ** Witnesses *)

Definition Trades_ : Type := gmap string Trade.
Definition Entries : Type := gmap Z OutboxEntry.
Definition sampleTrades : Trades_ :=
  {[ "A"%string := TradeLifecycle.expireTrade 1000 (TradeLifecycle.sampleTrade 1 "A" FUNDED (Some 900)) ]}.

Lemma scan_spec_witness :
  let r := scanOutboxCompleteness 60 5 400000 (λ _, 400000) sampleTrades (∅ : Entries) in
  let ws := 400000 - 60 * 60 * 1000 in
  (∀ g, g ∈ gapsDetected r ↔ ∃ k t, findUnique k sampleTrades = Some t ∧ ws ≤ updatedAt t ∧ status t ≠ PENDING_SIGNATURE ∧
    (∀ k e, findUnique k (∅ : Entries) = Some e → e_tradeId e = tradeId t → e_createdAt e < ws) ∧
    g = {| g_tradeId := tradeId t; lastStateChange := updatedAt t; detectedAt := 400000;
           severity := severityOf (400000 - updatedAt t);
           currentStatus := status t; timeSinceChange := 400000 - updatedAt t |}) ∧
  criticalGaps r + warningGaps r + infoGaps r = Z.of_nat (length (gapsDetected r)) ∧
  Z.of_nat (length (gapsDetected r)) ≤ totalTradesScanned r.
Proof. exact (scan_spec (TT := Trades_) (TO := Entries) 60 5 400000 400000 sampleTrades ∅). Defined.

Lemma expiry_reported_as_gap_witness :
  getExpectedEvents EXPIRE_TRADE = [] ∧
  ∃ g, g ∈ gapsDetected (scanOutboxCompleteness 60 5 400000 (λ _, 400000) sampleTrades (∅ : Entries)) ∧
    g_tradeId g = "A"%string ∧ severity g = critical.
Proof.
  apply (expiry_reported_as_gap (TT := Trades_) (TO := Entries) 60 5 1000 400000 sampleTrades ∅ "A"%string
    (TradeLifecycle.sampleTrade 1 "A" FUNDED (Some 900))); [reflexivity|intros k e H; discriminate H|lia|lia].
Defined.

Definition handled : EventListener.SampleDb :=
  EventListener.mkDb 5
    ({[ EventListener.keyOf EventListener.fundedEvent := EventListener.keyOf EventListener.fundedEvent ]} : gmap _ _)
    ({[ EventListener.keyOf EventListener.fundedEvent := EventListener.markOutboxProcessed 1 10 (EventListener.newOutboxRow 5) ]} : gmap _ _).

Lemma replay_harmless_but_stuck_witness :
  let key := EventListener.keyOf EventListener.fundedEvent in
  ∃ db1, replayEvent key 20 handled = Ok db1 ∧ EventListener.app db1 = 5 ∧
    EventListener.processed db1 = EventListener.processed handled ∧
    (EventListener.o_status <$> findUnique key (EventListener.outbox db1)) = Some EventListener.PENDING ∧
    ∀ so l t, let '(_, db2, r) := EventListener.processParsed (λ _, "") EventListener.countHandler EventListener.sampleConfig so
                                    (λ d, d) l db1 EventListener.fundedEvent t in
      db2 = db1 ∧ r = Ok tt.
Proof.
  apply (replay_harmless_but_stuck (λ _, "") EventListener.countHandler EventListener.sampleConfig handled
    EventListener.fundedEvent (EventListener.markOutboxProcessed 1 10 (EventListener.newOutboxRow 5)) 20).
  - apply (lookup_singleton_eq (M := gmap EventListener.eventKey)).
  - eexists. apply (lookup_singleton_eq (M := gmap EventListener.eventKey)).
Defined.
