(* ===== verification/Streams.v ===== *)
(** * Payment streams: [backend/src/services/streamValidation.service.ts], [streamLock.service.ts],
      [streamTermination.service.ts] and [streamReconciliation.service.ts]

    The administrative operations on vesting streams. [StreamDb] is the stream
    table and the append-only admin audit. None of the services uses a
    transaction, so an operation returns the database it leaves behind, the
    notifications it sent, and its result or error: [auditOk] says whether the
    audit insert succeeds, and [between] is what other requests commit between
    the read and the write. The signer is a parameter. Times are in
    milliseconds; the [details] of errors are not modelled. *)

From S2P Require Import Prelude JsString Errors Prisma.

Inductive StreamStatus : Type := ACTIVE | SUSPENDED | TERMINATED | COMPLETED.

#[global] Instance StreamStatus_eq_dec : EqDecision StreamStatus.
Proof. solve_decision. Defined.

Definition statusName (s : StreamStatus) : string :=
  match s with
  | ACTIVE => "ACTIVE" | SUSPENDED => "SUSPENDED" | TERMINATED => "TERMINATED" | COMPLETED => "COMPLETED"
  end.

Record Stream : Type := {
  streamId : string;
  recipient : string;
  totalVested : string;
  claimed : string;
  unclaimed : string;
  pendingClawback : string;
  status : StreamStatus;
  terminatedAt : option Z;
  terminatedBy : option string;
  terminationReason : option string;
  adminTags : list string;
  lockedAt : option Z;
  lockedBy : option string;
  lockReason : option string;
}.

Record AdminActionAudit : Type := {
  action : string; actorAddress : string; targetReference : string; note : option string;
}.

Record ClawbackEvent : Type := { ev_streamId : string; amount : string; timestamp : Z }.

Definition ADMIN_ACTION_STREAM_LOCK : string := "STREAM_LOCK".
Definition ADMIN_ACTION_STREAM_UNLOCK : string := "STREAM_UNLOCK".
Definition ADMIN_ACTION_STREAM_TERMINATE : string := "STREAM_TERMINATE".

Definition LIVE_STATUSES : list StreamStatus := [ACTIVE; SUSPENDED].
Definition SUSPENDABLE_STATUSES : list StreamStatus := [ACTIVE].
Definition RESUMABLE_STATUSES : list StreamStatus := [SUSPENDED].
Definition TERMINABLE_STATUSES : list StreamStatus := [ACTIVE; SUSPENDED].

(** The [data] of the updates. *)
Definition setLock (at_ : option Z) (by_ reason : option string) (s : Stream) : Stream :=
  {| streamId := streamId s; recipient := recipient s; totalVested := totalVested s; claimed := claimed s;
     unclaimed := unclaimed s; pendingClawback := pendingClawback s; status := status s;
     terminatedAt := terminatedAt s; terminatedBy := terminatedBy s; terminationReason := terminationReason s;
     adminTags := adminTags s; lockedAt := at_; lockedBy := by_; lockReason := reason |}.

Definition setTerminated (at_ : Z) (by_ : string) (reason : option string) (s : Stream) : Stream :=
  {| streamId := streamId s; recipient := recipient s; totalVested := totalVested s; claimed := claimed s;
     unclaimed := unclaimed s; pendingClawback := pendingClawback s; status := TERMINATED;
     terminatedAt := Some at_; terminatedBy := Some by_; terminationReason := reason;
     adminTags := adminTags s; lockedAt := lockedAt s; lockedBy := lockedBy s; lockReason := lockReason s |}.

Inductive notification : Type :=
| StreamLocked (streamId admin : string) (reason : option string) (at_ : Z)
| StreamUnlocked (streamId admin : string) (reason : option string) (at_ : Z)
| StreamTerminated (streamId admin : string) (reason : option string) (previousStatus : StreamStatus) (at_ : Z) (unclaimed : string)
| OperationFailed (streamId admin action : string) (e : error).

Record StreamInput : Type := { in_streamId : string; adminAddress : string; reason : option string }.

Record LockStreamResult : Type := {
  l_streamId : string; locked : bool; l_by : string; l_at : Z; l_reason : option string;
}.

Record TerminateStreamResult : Type := {
  t_streamId : string; t_status : StreamStatus; previousStatus : StreamStatus; t_terminatedBy : string;
  t_terminatedAt : Z; t_reason : option string; signedTxXdr : option string; t_unclaimed : string;
}.

Definition notFound (id : string) : error := AppError NOT_FOUND ("Stream " +:+ id +:+ " not found") 404.
Definition lockedError (id : string) : error :=
  AppError DOMAIN_ERROR ("Stream " +:+ id +:+ " is locked for maintenance") 409.
Definition statusError (id what : string) (s : StreamStatus) : error :=
  AppError DOMAIN_ERROR ("Stream " +:+ id +:+ " cannot be " +:+ what +:+ " from status " +:+ statusName s) 409.

Section Services.
Context {T : Type} `{!Table string Stream T}.

Record StreamDb : Type := mkStreamDb { streams : T; audits : list AdminActionAudit }.

(** ** Validation *)

Definition getStreamOrThrow (db : T) (id : string) : result error Stream :=
  match findUnique id db with Some s => Ok s | None => Err (notFound id) end.

Definition assertStatusAllowed (s : Stream) (allowedStatuses : list StreamStatus) (actionDescription : string)
    : result error unit :=
  throwIf (negb (bool_decide (status s ∈ allowedStatuses)))
    (statusError (streamId s) actionDescription (status s)).

Definition assertNotLocked (s : Stream) : result error unit :=
  throwIf (bool_decide (is_Some (lockedAt s))) (lockedError (streamId s)).

Definition requireActionableStream (db : T) (id : string) (allowedStatuses : list StreamStatus)
    (actionDescription : string) : result error Stream :=
  stream ← getStreamOrThrow db id;
  _ ← assertStatusAllowed stream allowedStatuses actionDescription;
  _ ← assertNotLocked stream;
  Ok stream.

Definition requireStreamNotLocked (db : T) (id : string) : result error unit :=
  stream ← getStreamOrThrow db id;
  throwIf (bool_decide (is_Some (lockedAt stream))) (lockedError id).

(** ** Writes *)

Definition opResult (R : Type) : Type := StreamDb * list notification * result error R.

(** [stream.update] then [adminActionAudit.create]; what is written stays written. *)
Definition updateAndAudit (db : StreamDb) (input : StreamInput) (act : string) (f : Stream → Stream)
    (auditOk : bool) : StreamDb * result error Stream :=
  match update (in_streamId input) f (streams db) with
  | None => (db, Err (PlainError "P2025"))
  | Some (updated, streams') =>
      if auditOk then
        (mkStreamDb streams' (audits db ++ [{| action := act; actorAddress := adminAddress input;
           targetReference := in_streamId input; note := reason input |}]), Ok updated)
      else (mkStreamDb streams' (audits db), Err (PlainError "audit"))
  end.

(** [catch (error) { notifyOperationFailed(...); throw error }] *)
Definition failed {R} (db : StreamDb) (input : StreamInput) (act : string) (e : error) : opResult R :=
  (db, [OperationFailed (in_streamId input) (adminAddress input) act e], Err e).

Definition lock (auditOk : bool) (between : StreamDb → StreamDb) (db : StreamDb) (input : StreamInput) (now : Z)
    : opResult LockStreamResult :=
  let id := in_streamId input in
  match findUnique id (streams db) with
  | None => failed db input ADMIN_ACTION_STREAM_LOCK (notFound id)
  | Some stream =>
      match lockedAt stream with
      | Some t => (db, [], Ok {| l_streamId := id; locked := true; l_by := ""; l_at := t; l_reason := None |})
      | None =>
          match updateAndAudit (between db) input ADMIN_ACTION_STREAM_LOCK
                  (setLock (Some now) (Some (adminAddress input)) (reason input)) auditOk with
          | (db', Ok _) =>
              (db', [StreamLocked id (adminAddress input) (reason input) now],
               Ok {| l_streamId := id; locked := true; l_by := adminAddress input; l_at := now; l_reason := reason input |})
          | (db', Err e) => failed db' input ADMIN_ACTION_STREAM_LOCK e
          end
      end
  end.

Definition unlock (auditOk : bool) (between : StreamDb → StreamDb) (db : StreamDb) (input : StreamInput) (now : Z)
    : opResult LockStreamResult :=
  let id := in_streamId input in
  match findUnique id (streams db) with
  | None => failed db input ADMIN_ACTION_STREAM_UNLOCK (notFound id)
  | Some stream =>
      match lockedAt stream with
      | None => (db, [], Ok {| l_streamId := id; locked := false; l_by := ""; l_at := now; l_reason := None |})
      | Some _ =>
          match updateAndAudit (between db) input ADMIN_ACTION_STREAM_UNLOCK (setLock None None None) auditOk with
          | (db', Ok _) =>
              (db', [StreamUnlocked id (adminAddress input) (reason input) now],
               Ok {| l_streamId := id; locked := false; l_by := adminAddress input; l_at := now; l_reason := reason input |})
          | (db', Err e) => failed db' input ADMIN_ACTION_STREAM_UNLOCK e
          end
      end
  end.

(** [if (unsignedTxXdr) signedTxXdr = sign(unsignedTxXdr)] *)
Definition signOptional (sign : string → result error string) (unsignedTxXdr : option string)
    : result error (option string) :=
  match unsignedTxXdr with
  | None | Some ""%string => Ok None
  | Some xdr => signed ← sign xdr; Ok (Some signed)
  end.

Definition terminate (sign : string → result error string) (auditOk : bool) (between : StreamDb → StreamDb)
    (db : StreamDb) (input : StreamInput) (unsignedTxXdr : option string) (now : Z)
    : opResult TerminateStreamResult :=
  let id := in_streamId input in
  match findUnique id (streams db) with
  | None => failed db input ADMIN_ACTION_STREAM_TERMINATE (notFound id)
  | Some stream =>
      if negb (bool_decide (status stream ∈ TERMINABLE_STATUSES))
      then failed db input ADMIN_ACTION_STREAM_TERMINATE (statusError id "terminated" (status stream))
      else match signOptional sign unsignedTxXdr with
           | Err e => failed db input ADMIN_ACTION_STREAM_TERMINATE e
           | Ok signedTx =>
               match updateAndAudit (between db) input ADMIN_ACTION_STREAM_TERMINATE
                       (setTerminated now (adminAddress input) (reason input)) auditOk with
               | (db', Ok updated) =>
                   (db', [StreamTerminated id (adminAddress input) (reason input) (status stream) now (unclaimed updated)],
                    Ok {| t_streamId := id; t_status := status updated; previousStatus := status stream;
                          t_terminatedBy := adminAddress input; t_terminatedAt := now; t_reason := reason input;
                          signedTxXdr := signedTx; t_unclaimed := unclaimed updated |})
               | (db', Err e) => failed db' input ADMIN_ACTION_STREAM_TERMINATE e
               end
           end
  end.

(** ** Reconciliation *)

Inductive MismatchSource : Type := on_chain | backend | computed.

Record ReconciliationMismatch : Type := {
  m_field : string; expected : string; actual : string; source : MismatchSource;
}.

Record ReconciliationResult : Type := {
  r_streamId : string; consistent : bool; mismatches : list ReconciliationMismatch;
  clawbackEventCount : Z; totalClawedBackOnChain : string; adminActionCount : Z;
}.

(** [BigInt(s)]; a malformed string throws a SyntaxError. *)
Definition bigInt (s : string) : result error Z :=
  match BigInt_string s with Some z => Ok z | None => Err (PlainError "SyntaxError") end.

Fixpoint sumAmounts (acc : Z) (evs : list ClawbackEvent) : result error Z :=
  match evs with
  | [] => Ok acc
  | ev :: rest => a ← bigInt (amount ev); sumAmounts (acc + a) rest
  end.

Definition mismatchIf (c : bool) (m : ReconciliationMismatch) : list ReconciliationMismatch :=
  if c then [m] else [].

(** [clawbackEvents] are all stored clawback events. *)
Definition reconcile (db : StreamDb) (clawbackEvents : list ClawbackEvent) (id : string)
    : result error ReconciliationResult :=
  match findUnique id (streams db) with
  | None => Err (notFound id)
  | Some stream =>
      let evs := js_sort (λ a b, timestamp a - timestamp b)
                   (List.filter (λ e, bool_decide (ev_streamId e = id)) clawbackEvents) in
      let adminActions := List.filter (λ a, bool_decide (targetReference a = id)) (audits db) in
      total ← sumAmounts 0 evs;
      vested ← bigInt (totalVested stream);
      taken ← bigInt (claimed stream);
      let onChain := toString total in
      let expectedUnclaimed := toString (vested - taken - total) in
      let hasTerminateAction := existsb (λ a, bool_decide (action a = "STREAM_TERMINATE"%string)) adminActions in
      let terminated := bool_decide (status stream = TERMINATED) in
      let ms :=
        mismatchIf (negb (bool_decide (pendingClawback stream = onChain)))
          {| m_field := "pendingClawback"; expected := onChain; actual := pendingClawback stream; source := on_chain |} ++
        mismatchIf (negb (bool_decide (unclaimed stream = expectedUnclaimed)))
          {| m_field := "unclaimed"; expected := expectedUnclaimed; actual := unclaimed stream; source := computed |} ++
        mismatchIf (hasTerminateAction && negb terminated)
          {| m_field := "status"; expected := "TERMINATED"; actual := statusName (status stream); source := backend |} ++
        mismatchIf (terminated && negb hasTerminateAction)
          {| m_field := "status"; expected := "ACTIVE or SUSPENDED (no terminate audit record found)";
             actual := statusName (status stream); source := backend |} in
      Ok {| r_streamId := id; consistent := (length ms =? 0)%nat; mismatches := ms;
            clawbackEventCount := Z.of_nat (length evs); totalClawedBackOnChain := onChain;
            adminActionCount := Z.of_nat (length adminActions) |}
  end.
End Services.

(** ** Correctness *)

Section Spec.
Context {T : Type} `{!Table string Stream T, !TableLaws string Stream T}.
Abbreviation DB := (StreamDb (T := T)).

(** The shared validation admits a stream exactly when it exists, its status
    permits the action and it is not locked, and otherwise fails with the first of
    404 (unknown), 409 (status), 409 (locked) that applies; streams carry their key. *)
Theorem requireActionable_spec (db : T) (id : string) (allowed : list StreamStatus) (what : string) :
  (∀ k s, findUnique k db = Some s → streamId s = k) →
  requireActionableStream db id allowed what =
  match findUnique id db with
  | None => Err (notFound id)
  | Some s =>
      if bool_decide (status s ∈ allowed)
      then if bool_decide (is_Some (lockedAt s)) then Err (lockedError id) else Ok s
      else Err (statusError id what (status s))
  end.
Proof.
  intros Hk. unfold requireActionableStream, getStreamOrThrow, assertStatusAllowed, assertNotLocked.
  destruct (findUnique id db) as [s|] eqn:Hs; [|done]. cbn [mbind result_bind]. rewrite (Hk _ _ Hs).
  destruct (bool_decide (status s ∈ allowed)); [|done]. cbn. by destruct (bool_decide (is_Some (lockedAt s))).
Qed.

(** Audit records of a termination of [id]. *)
Definition isTermination (id : string) (a : AdminActionAudit) : bool :=
  bool_decide (action a = ADMIN_ACTION_STREAM_TERMINATE ∧ targetReference a = id).
Definition terminations (id : string) (l : list AdminActionAudit) : nat := length (List.filter (isTermination id) l).

Lemma terminations_app id l k : terminations id (l ++ k) = (terminations id l + terminations id k)%nat.
Proof. unfold terminations. by rewrite List.filter_app, length_app. Qed.

Lemma updateAndAudit_spec (db : DB) input act f auditOk s :
  findUnique (in_streamId input) (streams db) = Some s →
  ∃ db', updateAndAudit db input act f auditOk = (db', if auditOk then Ok (f s) else Err (PlainError "audit")) ∧
    findUnique (in_streamId input) (streams db') = Some (f s) ∧
    (∀ k, k ≠ in_streamId input → findUnique k (streams db') = findUnique k (streams db)) ∧
    audits db' = audits db ++ (if auditOk then [{| action := act; actorAddress := adminAddress input;
      targetReference := in_streamId input; note := reason input |}] else []).
Proof.
  intros Hs. unfold updateAndAudit. destruct (update_found _ f (streams db) s Hs) as (t' & -> & Hk & Ho).
  destruct auditOk; eexists; (split; [reflexivity|]); by rewrite ?app_nil_r.
Qed.

(** Termination on every branch, for a request that runs alone: an unknown stream
    is 404 and a stream that is not live is 409, both without a write; if signing
    fails nothing is written either; otherwise the stream becomes TERMINATED with
    the operator, time and reason, exactly one audit record is appended (if the
    insert succeeds), and no other stream changes. *)
Theorem terminate_spec (sign : string → result error string) (auditOk : bool) (db : DB) (input : StreamInput)
    (xdr : option string) (now : Z) :
  let id := in_streamId input in
  let '(db', _, r) := terminate sign auditOk (λ d, d) db input xdr now in
  match findUnique id (streams db), signOptional sign xdr with
  | None, _ => db' = db ∧ r = Err (notFound id)
  | Some s, signed =>
      if bool_decide (status s ∈ LIVE_STATUSES) then
        match signed with
        | Err e => db' = db ∧ r = Err e
        | Ok signedTx =>
            findUnique id (streams db') = Some (setTerminated now (adminAddress input) (reason input) s) ∧
            (∀ k, k ≠ id → findUnique k (streams db') = findUnique k (streams db)) ∧
            (∀ k, terminations k (audits db') =
               (terminations k (audits db) + if bool_decide (k = id) && auditOk then 1 else 0)%nat) ∧
            isOk r = auditOk
        end
      else db' = db ∧ r = Err (statusError id "terminated" (status s))
  end.
Proof.
  cbv zeta. unfold terminate. destruct (findUnique (in_streamId input) (streams db)) as [s|] eqn:Hs; [|done].
  change LIVE_STATUSES with TERMINABLE_STATUSES.
  destruct (bool_decide (status s ∈ TERMINABLE_STATUSES)); cbn [negb]; [|done].
  destruct (signOptional sign xdr) as [tx|e]; [|done].
  destruct (updateAndAudit_spec db input ADMIN_ACTION_STREAM_TERMINATE
    (setTerminated now (adminAddress input) (reason input)) auditOk s Hs) as (db' & -> & Hrow & Ho & Ha).
  destruct auditOk; (split_and!; [done|done| |done]); intros k; rewrite Ha, terminations_app; f_equal;
    unfold terminations, isTermination; cbn; rewrite ?andb_false_r, ?andb_true_r; [|done].
  case_bool_decide; case_bool_decide; cbn; naive_solver.
Qed.

(** ** Sequences of requests *)

Inductive streamOp : Type :=
| OLock (input : StreamInput)
| OUnlock (input : StreamInput)
| OTerminate (input : StreamInput) (xdr : option string).

Definition execOp (sign : string → result error string) (db : DB) (o : streamOp * bool * Z) : DB :=
  let '(op, auditOk, now) := o in
  match op with
  | OLock input => (lock auditOk (λ d, d) db input now).1.1
  | OUnlock input => (unlock auditOk (λ d, d) db input now).1.1
  | OTerminate input xdr => (terminate sign auditOk (λ d, d) db input xdr now).1.1
  end.

Definition execOps (sign : string → result error string) (db : DB) (os : list (streamOp * bool * Z)) : DB :=
  foldl (execOp sign) db os.

(** At most one termination record per stream, and none for a live one. *)
Definition auditInv (db : DB) : Prop :=
  ∀ id, (terminations id (audits db) ≤
    match findUnique id (streams db) with
    | Some s => if bool_decide (status s = TERMINATED) then 1 else 0
    | None => 0
    end)%nat.

(** The part of a row termination fixes for good. *)
Definition terminal (s s' : Stream) : Prop :=
  status s = TERMINATED →
  status s' = TERMINATED ∧ terminatedAt s' = terminatedAt s ∧ terminatedBy s' = terminatedBy s ∧
  terminationReason s' = terminationReason s.

Definition rowsTerminal (db db' : DB) : Prop :=
  ∀ id s, findUnique id (streams db) = Some s → ∃ s', findUnique id (streams db') = Some s' ∧ terminal s s'.

Lemma rowsTerminal_refl db : rowsTerminal db db.
Proof. intros id s Hs. exists s. by split. Qed.

#[local] Hint Resolve rowsTerminal_refl : ts.

Lemma rowsTerminal_trans a b c : rowsTerminal a b → rowsTerminal b c → rowsTerminal a c.
Proof.
  intros H1 H2 id s Hs. destruct (H1 _ _ Hs) as (s1 & Hs1 & Ht1). destruct (H2 _ _ Hs1) as (s2 & Hs2 & Ht2).
  exists s2. split; [done|]. intros Hst.
  destruct (Ht1 Hst) as (Ha & Hb & Hc & Hd). destruct (Ht2 Ha) as (? & ? & ? & ?). split_and!; congruence.
Qed.

(** A write to one row that keeps its status, with an audit record that is not a termination. *)
Lemma lockWrite_inv (db db' : DB) input act f auditOk s r :
  auditInv db → findUnique (in_streamId input) (streams db) = Some s → act ≠ ADMIN_ACTION_STREAM_TERMINATE →
  (∀ x, status (f x) = status x ∧ terminal x (f x)) →
  updateAndAudit db input act f auditOk = (db', r) → auditInv db' ∧ rowsTerminal db db'.
Proof.
  intros Hi Hs Hact Hf Hu. destruct (updateAndAudit_spec db input act f auditOk s Hs) as (d & Hd & Hrow & Ho & Ha).
  rewrite Hu in Hd. injection Hd as -> _. split.
  - intros id. specialize (Hi id). rewrite Ha, terminations_app.
    assert (terminations id (if auditOk then [{| action := act; actorAddress := adminAddress input;
      targetReference := in_streamId input; note := reason input |}] else []) = 0%nat) as ->.
    { destruct auditOk; [|done]. unfold terminations, isTermination. cbn. case_bool_decide; naive_solver. }
    destruct (decide (id = in_streamId input)) as [->|Hne]; [|rewrite Ho by done; lia].
    rewrite Hrow. rewrite Hs in Hi. destruct (Hf s) as [-> _]. lia.
  - intros id x Hx. destruct (decide (id = in_streamId input)) as [->|Hne].
    + rewrite Hs in Hx. injection Hx as <-. exists (f s). split; [done|apply Hf].
    + exists x. rewrite Ho by done. by split.
Qed.

Lemma execOp_inv sign (db : DB) o : auditInv db → auditInv (execOp sign db o) ∧ rowsTerminal db (execOp sign db o).
Proof.
  intros Hi. destruct o as [[[input|input|input xdr] auditOk] now]; cbn [execOp].
  - unfold lock. cbv zeta. destruct (findUnique (in_streamId input) (streams db)) as [s|] eqn:Hs;
      [|auto with ts].
    destruct (lockedAt s); [auto with ts|].
    destruct (updateAndAudit _ _ _ _ _) as [db' [u|e]] eqn:Hu; cbn [fst failed];
      (eapply lockWrite_inv; [done|exact Hs| | |exact Hu]; [done|]); intros x; by split.
  - unfold unlock. cbv zeta. destruct (findUnique (in_streamId input) (streams db)) as [s|] eqn:Hs;
      [|auto with ts].
    destruct (lockedAt s); [|auto with ts].
    destruct (updateAndAudit _ _ _ _ _) as [db' [u|e]] eqn:Hu; cbn [fst failed];
      (eapply lockWrite_inv; [done|exact Hs| | |exact Hu]; [done|]); intros x; by split.
  - pose proof (terminate_spec sign auditOk db input xdr now) as Hsp. cbv zeta in Hsp.
    destruct (terminate _ _ _ db input xdr now) as [[db' ns] r]. cbn [fst].
    destruct (findUnique (in_streamId input) (streams db)) as [s|] eqn:Hs;
      [|destruct Hsp as [-> _]; auto with ts].
    case_bool_decide as Hlive; [|destruct Hsp as [-> _]; auto with ts].
    destruct (signOptional sign xdr); [|destruct Hsp as [-> _]; auto with ts].
    destruct Hsp as (Hrow & Ho & Ha & _).
    assert (Hst : status s ≠ TERMINATED) 
      by (unfold LIVE_STATUSES in Hlive; rewrite !elem_of_cons, elem_of_nil in Hlive; naive_solver congruence).
    split.
    + intros id. specialize (Hi id). rewrite Ha. destruct (decide (id = in_streamId input)) as [->|Hne].
      * rewrite Hrow. rewrite Hs, bool_decide_eq_false_2 in Hi by done.
        rewrite (bool_decide_eq_true_2 (status _ = TERMINATED)) by done. destruct (_ && _); lia.
      * rewrite bool_decide_eq_false_2, Ho by done. cbn. lia.
    + intros id x Hx. destruct (decide (id = in_streamId input)) as [->|Hne].
      * rewrite Hs in Hx. injection Hx as <-. eexists. split; [exact Hrow|]. by intros Hx.
      * exists x. rewrite Ho by done. by split.
Qed.

(** Termination is irreversible and recorded once: through any sequence of lock,
    unlock and terminate requests, audit failures included, a terminated stream
    keeps its status, time, operator and reason, and no stream ever has more than
    one termination record, or any while it is live. *)
Theorem termination_final (sign : string → result error string) (db : DB) (os : list (streamOp * bool * Z)) :
  auditInv db → auditInv (execOps sign db os) ∧ rowsTerminal db (execOps sign db os).
Proof.
  unfold execOps. revert db. induction os as [|o os IH]; intros db Hi; cbn [foldl]; [auto with ts|].
  destruct (execOp_inv sign db o Hi) as [Hi1 Hr1]. destruct (IH _ Hi1) as [Hi2 Hr2].
  split; [done|by eapply rowsTerminal_trans].
Qed.

(** Two overlapping termination requests both succeed: when the second one reads the
    stream before the first one writes, it overwrites the operator of the first and
    leaves two audit records for one real action. *)
Theorem terminate_race (sign : string → result error string) (db : DB) (in1 in2 : StreamInput) (now1 now2 : Z) s :
  in_streamId in1 = in_streamId in2 → findUnique (in_streamId in2) (streams db) = Some s →
  status s = ACTIVE ∨ status s = SUSPENDED →
  let first := (terminate sign true (λ d, d) db in1 None now1).1.1 in
  let '(db', _, r) := terminate sign true (λ _, first) db in2 None now2 in
  isOk r = true ∧ terminations (in_streamId in2) (audits db') = (terminations (in_streamId in2) (audits db) + 2)%nat ∧
  ∃ s', findUnique (in_streamId in2) (streams db') = Some s' ∧ terminatedBy s' = Some (adminAddress in2).
Proof.
  intros Hid Hs Hst. cbv zeta.
  assert (Hlive : status s ∈ TERMINABLE_STATUSES) by (unfold TERMINABLE_STATUSES; set_solver).
  set (first := (terminate sign true (λ d, d) db in1 None now1).1.1).
  assert (Hfirst : findUnique (in_streamId in2) (streams first) = Some (setTerminated now1 (adminAddress in1) (reason in1) s) ∧
    terminations (in_streamId in2) (audits first) = (terminations (in_streamId in2) (audits db) + 1)%nat).
  { pose proof (terminate_spec sign true db in1 None now1) as Hsp. cbv zeta in Hsp. unfold first.
    destruct (terminate sign true (λ d, d) db in1 None now1) as [[d1 n1] r1]. rewrite Hid in *.
    rewrite Hs, bool_decide_eq_true_2 in Hsp by done. cbn [signOptional] in Hsp.
    destruct Hsp as (Hrow & _ & Ha & _). split; [done|]. rewrite Ha, bool_decide_eq_true_2 by done. done. }
  destruct Hfirst as [Hrow1 Ha1]. unfold terminate at 1. rewrite Hs, bool_decide_eq_true_2 by done. cbn [negb signOptional].
  destruct (updateAndAudit_spec first in2 ADMIN_ACTION_STREAM_TERMINATE
    (setTerminated now2 (adminAddress in2) (reason in2)) true _ Hrow1) as (db' & -> & Hrow & _ & Ha).
  split_and!; [done| |by eexists]. rewrite Ha, terminations_app, Ha1.
  unfold terminations, isTermination. cbn. rewrite bool_decide_eq_true_2 by done. cbn. lia.
Qed.

(** ** Reconciliation *)

Lemma sumAmounts_sum (v : ClawbackEvent → Z) l : ∀ acc,
  (∀ e, e ∈ l → bigInt (amount e) = Ok (v e)) → sumAmounts acc l = Ok (acc + sumZ (map v l)).
Proof.
  induction l as [|e l IH]; intros acc Hv; cbn [sumAmounts map]; [by rewrite Z.add_0_r|].
  rewrite (Hv e) by set_solver. cbn [mbind result_bind]. rewrite IH by set_solver. f_equal.
  unfold sumZ. cbn [foldr]. lia.
Qed.

Lemma hasTerminate_iff id l :
  existsb (λ a, bool_decide (action a = "STREAM_TERMINATE"%string))
    (List.filter (λ a, bool_decide (targetReference a = id)) l) = true ↔ (0 < terminations id l)%nat.
Proof.
  unfold terminations. induction l as [|a l IH]; cbn; [split; [done|lia]|].
  unfold isTermination, ADMIN_ACTION_STREAM_TERMINATE in *.
  destruct (bool_decide_reflect (targetReference a = id)) as [Ht|Ht]; cbn [existsb].
  - destruct (bool_decide_reflect (action a = "STREAM_TERMINATE"%string)) as [Ha|Ha].
    + rewrite bool_decide_eq_true_2 by done. cbn. split; [lia|done].
    + rewrite (bool_decide_eq_false_2 (_ ∧ _)) by naive_solver. done.
  - rewrite (bool_decide_eq_false_2 (_ ∧ _)) by naive_solver. done.
Qed.

(** Reconciliation reports a stream as consistent exactly when the stored pending
    clawback is the sum of its on-chain clawbacks, the stored unclaimed amount is
    what was vested less what was claimed and clawed back, and the stream is
    terminated if and only if a termination record exists; otherwise each
    violated condition is reported. *)
Theorem reconcile_consistent_iff (db : DB) (evs : list ClawbackEvent) (id : string) (s : Stream)
    (v : ClawbackEvent → Z) (vested taken : Z) :
  findUnique id (streams db) = Some s →
  (∀ e, e ∈ evs → ev_streamId e = id → bigInt (amount e) = Ok (v e)) →
  bigInt (totalVested s) = Ok vested → bigInt (claimed s) = Ok taken →
  let total := sumZ (map v (List.filter (λ e, bool_decide (ev_streamId e = id)) evs)) in
  ∃ r, reconcile db evs id = Ok r ∧
    (consistent r = true ↔
       pendingClawback s = toString total ∧ unclaimed s = toString (vested - taken - total) ∧
       (status s = TERMINATED ↔ (0 < terminations id (audits db))%nat)) ∧
    (consistent r = true ↔ mismatches r = []).
Proof.
  intros Hs Hv Hvest Hcl. cbv zeta. unfold reconcile. rewrite Hs.
  set (l := List.filter _ evs). set (sorted := js_sort _ l).
  assert (Hperm : sorted ≡ₚ l) by apply js_sort_perm.
  rewrite (sumAmounts_sum v sorted 0).
  2: { intros e He. rewrite Hperm in He. unfold l in He.
       rewrite list_elem_of_In, List.filter_In, <-list_elem_of_In in He. zb. naive_solver. }
  rewrite Hvest, Hcl. cbn [mbind result_bind].
  assert (Hsum : sumZ (map v sorted) = sumZ (map v l)) by (apply sumZ_perm; by rewrite Hperm).
  rewrite Hsum, Z.add_0_l. eexists. split; [reflexivity|]. cbn [consistent mismatches].
  pose proof (hasTerminate_iff id (audits db)) as Hterm. set (has := existsb _ _) in *.
  split.
  - unfold mismatchIf. destruct (bool_decide_reflect (pendingClawback s = toString (sumZ (map v l)))); cbn; [|naive_solver].
    destruct (bool_decide_reflect (unclaimed s = toString (vested - taken - sumZ (map v l)))); cbn; [|naive_solver].
    destruct (bool_decide_reflect (status s = TERMINATED)), has; cbn; naive_solver.
  - rewrite Nat.eqb_eq. apply length_zero_iff_nil.
Qed.
End Spec.

(** ** Witnesses *)

Definition sampleStream : Stream :=
  {| streamId := "s1"; recipient := "GR"; totalVested := "100"; claimed := "30"; unclaimed := "60"; pendingClawback := "10";
     status := ACTIVE; terminatedAt := None; terminatedBy := None; terminationReason := None; adminTags := [];
     lockedAt := None; lockedBy := None; lockReason := None |}.
Definition sampleStreams : gmap string Stream := {[ "s1"%string := sampleStream ]}.
Definition sampleStreamDb : StreamDb := mkStreamDb sampleStreams [].
Definition admin1 : StreamInput := {| in_streamId := "s1"; adminAddress := "GA1"; reason := None |}.
Definition admin2 : StreamInput := {| in_streamId := "s1"; adminAddress := "GA2"; reason := None |}.

Lemma requireActionable_spec_witness :
  requireActionableStream sampleStreams "s1" SUSPENDABLE_STATUSES "suspended" = Ok sampleStream.
Proof.
  rewrite (requireActionable_spec sampleStreams "s1" SUSPENDABLE_STATUSES "suspended"); [reflexivity|].
  intros k s H. change (sampleStreams !! k = Some s) in H. unfold sampleStreams in H.
  apply lookup_singleton_Some in H as [<- <-]. reflexivity.
Defined.

Lemma termination_final_witness :
  auditInv (execOps Ok sampleStreamDb [(OTerminate admin1 None, true, 5); (OTerminate admin2 None, true, 6)]).
Proof.
  apply (termination_final Ok sampleStreamDb [(OTerminate admin1 None, true, 5); (OTerminate admin2 None, true, 6)]).
  intros id. cbn. lia.
Defined.

Lemma terminate_race_witness :
  isOk (terminate Ok true (λ _, (terminate Ok true (λ d, d) sampleStreamDb admin1 None 5).1.1) sampleStreamDb admin2 None 6).2 = true.
Proof.
  pose proof (terminate_race Ok sampleStreamDb admin1 admin2 5 6 sampleStream ltac:(reflexivity) ltac:(reflexivity)
    (or_introl eq_refl)) as H. cbv zeta in H.
  destruct (terminate _ _ _ sampleStreamDb admin2 None 6) as [[db' ns] r]. exact (proj1 H).
Defined.

Lemma reconcile_consistent_iff_witness :
  ∃ r, reconcile sampleStreamDb [{| ev_streamId := "s1"; amount := "10"; timestamp := 1 |}] "s1" = Ok r ∧ consistent r = true.
Proof.
  destruct (reconcile_consistent_iff sampleStreamDb [{| ev_streamId := "s1"; amount := "10"; timestamp := 1 |}] "s1"
    sampleStream (λ _, 10) 100 30) as (r & Hr & Hc & _); [reflexivity| |reflexivity|reflexivity|].
  - intros e He _. apply list_elem_of_singleton in He as ->. reflexivity.
  - exists r. split; [exact Hr|]. apply Hc. split_and!; [reflexivity|reflexivity|].
    split; [done|]. intros Hx. cbn in Hx. lia.
Defined.
