(* ===== verification/Reconciliation.v ===== *)
(** * Daily reconciliation: [services/dailyReconciliation.service.ts], [StellarService.getAccountBalance]

    A sweep compares every active party's on-chain balance with the amounts of
    its active trades, classifies the drift and raises at most one alert. The
    tables are Prisma tables, Horizon's accounts, the key check and the error
    cases of each account are arguments, and alerts go through [Alerts]. *)

From S2P Require Import Prelude JsString JsValue Prisma.
From S2P Require EventHandlers Trades Streams Alerts.
Import EventHandlers (TradeStatus, TradeStatus_eq_dec, FUNDED, DELIVERED, DISPUTED).
Import Trades (Trade, buyerAddress, sellerAddress, amountUsdc, status).

(** ** Balances on the network *)

Record Balance : Type := { asset_type : string; asset_code : option string; asset_issuer : option string; balance : string }.

Inductive reconcile_error : Type :=
| InvalidPublicKey
| HorizonError (httpStatus : option Z)
| SyntaxError (literal : string)
| DatabaseError.

(** The account query after its retries, and [StrKey.isValidEd25519PublicKey]. *)
Definition Horizon : Type := string → result (option Z) (list Balance).

Section Balances.
Variable validKey : string → bool.
Variable loadAccount : Horizon.

Definition holdsAsset (assetCode : string) (b : Balance) : bool :=
  if bool_decide (assetCode = "XLM"%string) then bool_decide (asset_type b = "native"%string)
  else bool_decide (asset_code b = Some assetCode).

Definition getAccountBalance (publicKey assetCode : string) : result reconcile_error string :=
  if negb (validKey publicKey) then Err InvalidPublicKey
  else match loadAccount publicKey with
       | Ok balances => Ok match List.find (holdsAsset assetCode) balances with Some b => balance b | None => "0" end
       | Err (Some 404) => Ok "0"
       | Err s => Err (HorizonError s)
       end.

(** ** One account *)

Inductive DriftSeverity : Type := none | warning | critical.
#[global] Instance DriftSeverity_eq_dec : EqDecision DriftSeverity.
Proof. solve_decision. Defined.

Record Thresholds : Type := { warningBps : Z; criticalBps : Z }.

Record AccountDriftReport : Type := {
  accountAddress : string; assetCode : string; dbBalance : string; onChainBalance : string; drift : string;
  driftBps : jsnum; severity : DriftSeverity }.

Definition activeStatuses : list TradeStatus := [FUNDED; DELIVERED; DISPUTED].
Definition activeTrade (t : Trade) : bool := bool_decide (status t ∈ activeStatuses).
Definition partyTo (address : string) (t : Trade) : bool :=
  (bool_decide (buyerAddress t = address) || bool_decide (sellerAddress t = address)) && activeTrade t.

Definition BigInt (s : string) : result reconcile_error Z :=
  match BigInt_string s with Some z => Ok z | None => Err (SyntaxError s) end.

Fixpoint sumBigInt (acc : Z) (l : list string) : result reconcile_error Z :=
  match l with [] => Ok acc | s :: l => z ← BigInt s; sumBigInt (acc + z) l end.

Definition classifyDriftSeverity (th : Thresholds) (bps : jsnum) : DriftSeverity :=
  if jgt bps (criticalBps th) then critical else if jgt bps (warningBps th) then warning else none.

Definition driftBpsOf (expected actual : Z) : jsnum :=
  if 0 <? expected then roundDouble (Z.abs (actual - expected) * 10000 / expected) 1 else JInt 0.

Context {TT TS : Type} `{!Table string Trade TT, !Table string Streams.Stream TS}.
Variable th : Thresholds.

Definition checkAccountDrift (db : TT) (address code : string) : result reconcile_error (option AccountDriftReport) :=
  onChainStr ← getAccountBalance address code;
  onChain ← BigInt onChainStr;
  expected ← sumBigInt 0 (amountUsdc <$> findMany (partyTo address) db);
  let d := onChain - expected in
  let bps := driftBpsOf expected onChain in
  let s := classifyDriftSeverity th bps in
  Ok (if bool_decide (s = none) && (Z.abs d =? 0) then None
      else Some {| accountAddress := address; assetCode := code; dbBalance := toString expected;
                   onChainBalance := onChainStr; drift := toString d; driftBps := bps; severity := s |}).

(** ** The sweep *)

(** [Map.set]: a key keeps its first position. *)
Definition mapSet (l : list string) (k : string) : list string := if bool_decide (k ∈ l) then l else l ++ [k].

Definition collectActiveAddresses (db : TT) (streams : TS) : list string :=
  let parties := findMany activeTrade db ≫= λ t, [buyerAddress t; sellerAddress t] in
  let recipients := Streams.recipient <$>
    findMany (λ s, bool_decide (Streams.status s ∈ Streams.LIVE_STATUSES)) streams in
  foldl mapSet [] (parties ++ recipients).

Record SweepResult : Type := {
  accountsChecked : Z; driftsDetected : Z; warnings : Z; criticals : Z; reports : list AccountDriftReport }.

(** The loop: an account that throws is logged and skipped. *)
Definition accountReports (db : TT) (addresses : list string) : list AccountDriftReport :=
  omap (λ a, match checkAccountDrift db a "USDC" with Ok r => r | Err _ => None end) addresses.

Definition countSeverity (s : DriftSeverity) (rs : list AccountDriftReport) : Z :=
  Z.of_nat (length (List.filter (λ r, bool_decide (severity r = s)) rs)).

Definition sweepResult (db : TT) (streams : TS) : SweepResult :=
  let addresses := collectActiveAddresses db streams in
  let rs := accountReports db addresses in
  {| accountsChecked := Z.of_nat (length addresses);
     driftsDetected := Z.of_nat (length (List.filter (λ r, negb (bool_decide (severity r = none))) rs));
     warnings := countSeverity warning rs; criticals := countSeverity critical rs; reports := rs |}.

(** [sweep]: [dbFails] is a failure of the queries that collect the accounts, [cacheFails] of the
    write of the summary. The clock's readings and the webhook's answers are one each per alert. *)
Variable cfg : Alerts.AlertConfig.

Definition sweep (dbFails cacheFails : bool) (answer : Alerts.AlertType → Alerts.WebhookAnswer) (now : Z)
    (db : TT) (streams : TS) (alerts : Alerts.AlertState) : Alerts.AlertState * result reconcile_error SweepResult :=
  let alert ty msg st := Alerts.dispatch cfg (answer ty) now ty msg st in
  if dbFails then
    (alert Alerts.reconciliation_job_failure ("Reconciliation sweep sweep-" +:+ toString now +:+ " failed")%string alerts,
     Err DatabaseError)
  else
    let r := sweepResult db streams in
    let alerts1 := if cacheFails then alert Alerts.cache_unavailable "Cache set failed"%string alerts else alerts in
    let alerts2 :=
      if 0 <? criticals r then
        alert Alerts.reconciliation_drift_critical
          ("Critical drift detected in " +:+ toString (criticals r) +:+ " accounts")%string alerts1
      else if 0 <? warnings r then
        alert Alerts.reconciliation_drift_warning
          ("Drift detected in " +:+ toString (warnings r) +:+ " accounts")%string alerts1
      else alerts1 in
    (alerts2, Ok r).
End Balances.

(** ** [BigInt] of a decimal *)

(** Some character of the string satisfies [p]. *)
Definition has (p : ascii → bool) (s : string) : bool := negb (str_forall (λ c, negb (p c)) s).

Lemma has_cons p c s : has p (String c s) = p c || has p s.
Proof. unfold has. cbn. by destruct (p c). Qed.

Lemma has_trimStart p s : (∀ c, is_space c = true → p c = false) → has p (trimStart s) = has p s.
Proof.
  intros Hp. induction s as [|c s IH]; [done|]. cbn [trimStart]. destruct (is_space c) eqn:Hc; [|done].
  by rewrite has_cons, (Hp c), IH.
Qed.

Lemma has_trimEnd p s : (∀ c, is_space c = true → p c = false) → has p (trimEnd s) = has p s.
Proof.
  intros Hp. induction s as [|c s IH]; [done|]. cbn [trimEnd]. rewrite has_cons, <-IH.
  destruct (trimEnd s) as [|d t]; [|by rewrite has_cons]. destruct (is_space c) eqn:Hc; [by rewrite (Hp c)|].
  by rewrite has_cons.
Qed.

Definition isDot (c : ascii) : bool := Ascii.eqb c ".".

Lemma digits_no_dot s : str_forall is_digit s = true → has isDot s = false.
Proof.
  induction s as [|c s IH]; [done|]. cbn. rewrite andb_true_iff. intros [Hc Hs]. rewrite has_cons, IH by done.
  unfold isDot. by destruct (Ascii.eqb_spec c "."); [subst|].
Qed.

Lemma BigInt_decimal s : has isDot s = true → BigInt_string s = None.
Proof.
  intros H. assert (has isDot (trim s) = true) as Ht.
  { unfold trim. rewrite has_trimEnd, has_trimStart; [done|..]; intros c Hc; unfold isDot;
      by destruct (Ascii.eqb_spec c "."); [subst|]. }
  unfold BigInt_string. destruct (trim s) as [|c t]; [done|].
  assert (∀ d, Ascii.eqb c d = true → isDot d = false → str_forall is_digit t = false) as Hsgn.
  { intros d ->%Ascii.eqb_eq Hd. rewrite has_cons, Hd in Ht. cbn in Ht. apply not_true_is_false.
    intros Hf%digits_no_dot. congruence. }
  destruct (Ascii.eqb c "-") eqn:Hm; [by rewrite (Hsgn _ Hm), andb_false_r|].
  destruct (Ascii.eqb c "+") eqn:Hp; [by rewrite (Hsgn _ Hp), andb_false_r|].
  destruct (str_forall is_digit (String c t)) eqn:Hd; [|done]. apply digits_no_dot in Hd. congruence.
Qed.

(** ** Correctness *)

Section Facts.
Context {TT TS : Type} `{!Table string Trade TT, !TableLaws string Trade TT,
  !Table string Streams.Stream TS, !TableLaws string Streams.Stream TS}.
Variable validKey : string → bool.
Variable loadAccount : Horizon.
Variable th : Thresholds.

Notation check := (checkAccountDrift validKey loadAccount th).

Lemma sumBigInt_ints acc l zs : mapM BigInt_string l = Some zs → sumBigInt acc l = Ok (acc + sumZ zs).
Proof.
  revert acc zs. induction l as [|s l IH]; intros acc zs; cbn [mapM].
  - intros [= <-]. cbn. by rewrite Z.add_0_r.
  - intros H. apply bind_Some in H as (z & Hz & H). apply bind_Some in H as (zs' & Hzs & [= <-]).
    cbn [sumBigInt]. unfold BigInt. rewrite Hz. cbn. rewrite (IH _ zs') by done. f_equal. unfold sumZ. cbn. lia.
Qed.

(** Severity is decided by the exact ratio (below the doubles' integer range). *)
Definition severityOf (expected actual : Z) : DriftSeverity :=
  let bps := Z.abs (actual - expected) * 10000 / expected in
  if expected <=? 0 then none else if criticalBps th <? bps then critical else if warningBps th <? bps then warning else none.

Lemma classify_exact expected actual : 0 ≤ warningBps th → 0 ≤ criticalBps th →
  Z.abs (actual - expected) * 10000 < 2 ^ 53 * expected ∨ expected ≤ 0 →
  classifyDriftSeverity th (driftBpsOf expected actual) = severityOf expected actual.
Proof.
  intros Hw Hc Hb. unfold driftBpsOf, severityOf. destruct (Z.ltb_spec 0 expected) as [He|He].
  - rewrite (proj2 (Z.leb_gt _ _)) by lia. rewrite roundDouble_int; [done|]. split; [apply Z.div_pos; lia|].
    apply Z.div_lt_upper_bound; lia.
  - rewrite (proj2 (Z.leb_le _ _)) by lia. unfold classifyDriftSeverity. cbn.
    by rewrite (proj2 (Z.ltb_ge (criticalBps th) 0)), (proj2 (Z.ltb_ge (warningBps th) 0)).
Qed.

(** With whole-number balances an account is left out of the report exactly when
    the chain holds what its active trades add up to; otherwise the report has both
    figures, their difference and the severity of its ratio to the expected one. *)
Theorem drift_spec (db : TT) address code str onChain zs :
  getAccountBalance validKey loadAccount address code = Ok str → BigInt_string str = Some onChain →
  mapM BigInt_string (amountUsdc <$> findMany (partyTo address) db) = Some zs →
  0 ≤ warningBps th → 0 ≤ criticalBps th →
  Z.abs (onChain - sumZ zs) * 10000 < 2 ^ 53 * sumZ zs ∨ sumZ zs ≤ 0 →
  (onChain = sumZ zs → check db address code = Ok None) ∧
  (onChain ≠ sumZ zs → ∃ r, check db address code = Ok (Some r) ∧ accountAddress r = address ∧
    dbBalance r = toString (sumZ zs) ∧ onChainBalance r = str ∧ drift r = toString (onChain - sumZ zs) ∧
    severity r = severityOf (sumZ zs) onChain).
Proof.
  intros Hg Hb Hm Hw Hc Hbound. assert (BigInt str = Ok onChain) as Hi by (unfold BigInt; by rewrite Hb).
  unfold checkAccountDrift. rewrite Hg. cbn [mbind result_bind]. rewrite Hi. cbn [mbind result_bind]. rewrite (sumBigInt_ints 0 _ zs Hm). cbn [mbind result_bind].
  cbn zeta. rewrite Z.add_0_l, (classify_exact (sumZ zs) onChain) by done. split.
  - intros ->. rewrite Z.sub_diag. cbn. rewrite andb_true_r. unfold severityOf. rewrite Z.sub_diag. cbn.
    destruct (Z.leb_spec (sumZ zs) 0); [done|]. rewrite Z.div_0_l by lia.
    by rewrite (proj2 (Z.ltb_ge (criticalBps th) 0)), (proj2 (Z.ltb_ge (warningBps th) 0)).
  - intros Hne. rewrite (proj2 (Z.eqb_neq (Z.abs _) 0)) by lia. rewrite andb_false_r. by eexists.
Qed.

(** A balance with a decimal point, the form Horizon gives every balance in,
    makes the check throw, and the sweep drops the account without a word. *)
Theorem decimal_balance_unreported (db : TT) (streams : TS) address str :
  getAccountBalance validKey loadAccount address "USDC" = Ok str → has isDot str = true →
  check db address "USDC" = Err (SyntaxError str) ∧
  ∀ r, r ∈ reports (sweepResult validKey loadAccount th db streams) → accountAddress r ≠ address.
Proof.
  intros Hg Hd. assert (check db address "USDC" = Err (SyntaxError str)) as He.
  { unfold checkAccountDrift. rewrite Hg. cbn. unfold BigInt at 1. by rewrite BigInt_decimal. }
  split; [done|]. cbn. unfold accountReports. intros r (a & _ & Hr)%list_elem_of_omap Hra.
  destruct (check db a "USDC") as [[r'|]|e] eqn:Hc; simplify_eq.
  assert (a = accountAddress r) as Ha; [|rewrite <-Ha, Hc in He; done]. clear He. revert Hc. unfold checkAccountDrift.
  intros (s & _ & (z & _ & (e & _ & Hc)%bind_Ok)%bind_Ok)%bind_Ok.
  destruct (_ && _) in Hc; by simplify_eq.
Qed.

(** A party with no whole-number amount at stake (a stream's recipient, say) is
    never reported above "none", however much the chain holds. *)
Theorem unexpected_funds_unreported (db : TT) address code r : 0 ≤ warningBps th → 0 ≤ criticalBps th →
  findMany (partyTo address) db = [] → check db address code = Ok (Some r) → severity r = none ∧ driftBps r = JInt 0.
Proof.
  intros Hw Hc Hf. unfold checkAccountDrift. rewrite Hf.
  intros (s & _ & (z & _ & (e & He & Hr)%bind_Ok)%bind_Ok)%bind_Ok. cbn in He. injection He as <-.
  assert (classifyDriftSeverity th (JInt 0) = none) as Hn.
  { unfold classifyDriftSeverity. cbn. by rewrite !(proj2 (Z.ltb_ge _ 0)). }
  change (driftBpsOf 0 z) with (JInt 0) in Hr. rewrite Hn in Hr. destruct (_ && _) in Hr; by simplify_eq.
Qed.

(** *** The sweep *)

Lemma mapSet_NoDup l ks : NoDup l → NoDup (foldl mapSet l ks).
Proof.
  revert l. induction ks as [|k ks IH]; intros l Hl; [done|]. cbn. apply IH. unfold mapSet.
  case_bool_decide as Hk; [done|]. apply NoDup_app. repeat split; [done| |apply NoDup_singleton].
  intros x Hx ->%list_elem_of_singleton. done.
Qed.

Lemma mapSet_elem x l ks : x ∈ foldl mapSet l ks ↔ x ∈ l ∨ x ∈ ks.
Proof.
  revert l. induction ks as [|k ks IH]; intros l; cbn; [set_solver|]. rewrite IH. unfold mapSet.
  case_bool_decide; set_solver.
Qed.

Lemma severity_count rs : Z.of_nat (length (List.filter (λ r, negb (bool_decide (severity r = none))) rs)) =
  countSeverity warning rs + countSeverity critical rs.
Proof.
  unfold countSeverity. induction rs as [|r rs IH]; [done|]. cbn [List.filter].
  destruct (severity r); decide_bools; cbn [negb length]; lia.
Qed.

(** A sweep checks each party of an active trade and each recipient of a live
    stream once, its counters add up, and it asks for at most one drift alert: the
    critical one when some account is critical. A failure to collect the accounts
    is itself alerted. *)
Theorem reconciliation_sweep_spec cfg dbFails cacheFails answer now (db : TT) (streams : TS) alerts :
  let '(alerts', r) := sweep validKey loadAccount th cfg dbFails cacheFails answer now db streams alerts in
  match r with
  | Ok s =>
      (∃ addresses, NoDup addresses ∧ accountsChecked s = Z.of_nat (length addresses) ∧
        reports s = accountReports validKey loadAccount th db addresses ∧
        ∀ a, a ∈ addresses ↔ (∃ k t, findUnique k db = Some t ∧ partyTo a t = true) ∨
          ∃ k st, findUnique k streams = Some st ∧ Streams.status st ∈ Streams.LIVE_STATUSES ∧ Streams.recipient st = a) ∧
      driftsDetected s = warnings s + criticals s ∧
      (cacheFails = false →
        (0 < criticals s → ∃ msg, alerts' = Alerts.dispatch cfg (answer Alerts.reconciliation_drift_critical) now
          Alerts.reconciliation_drift_critical msg alerts) ∧
        (criticals s = 0 → 0 < warnings s → ∃ msg, alerts' = Alerts.dispatch cfg (answer Alerts.reconciliation_drift_warning) now
          Alerts.reconciliation_drift_warning msg alerts) ∧
        (criticals s = 0 → warnings s = 0 → alerts' = alerts))
  | Err e => dbFails = true ∧ ∃ msg, alerts' = Alerts.dispatch cfg (answer Alerts.reconciliation_job_failure) now
      Alerts.reconciliation_job_failure msg alerts
  end.
Proof.
  unfold sweep. destruct dbFails; [eauto|]. split; [|split].
  - exists (collectActiveAddresses db streams). unfold collectActiveAddresses. split; [by apply mapSet_NoDup, NoDup_nil_2|].
    split; [done|]. split; [done|]. intros a. rewrite mapSet_elem, elem_of_app. split.
    + intros [[]%elem_of_nil|[(t & Ha & (k & Hk & Hp)%(findMany_elem (K := string)))%list_elem_of_bind
        |(s & -> & (k & Hk & Hp)%(findMany_elem (K := string)))%list_elem_of_fmap]].
      * left. exists k, t. split; [done|]. unfold partyTo. rewrite Hp, andb_true_r, orb_true_iff, !bool_decide_eq_true. set_solver.
      * right. apply bool_decide_eq_true in Hp. eauto 10.
    + intros [(k & t & Hk & Hp)|(k & s & Hk & Hl & <-)]; right.
      * left. apply andb_true_iff in Hp as [Hp Ha]. rewrite orb_true_iff, !bool_decide_eq_true in Hp.
        apply list_elem_of_bind. exists t. split; [set_solver|]. apply (findMany_elem (K := string)). eauto.
      * right. apply list_elem_of_fmap. exists s. split; [done|]. apply (findMany_elem (K := string)). exists k.
        by rewrite bool_decide_eq_true.
  - cbn. apply severity_count.
  - intros ->. split; [|split].
    + intros Hc. rewrite (proj2 (Z.ltb_lt _ _)) by done. eauto.
    + intros Hc Hw. rewrite Hc. cbn [Z.ltb Z.compare]. rewrite (proj2 (Z.ltb_lt _ _)) by done. eauto.
    + intros Hc Hw. by rewrite Hc, Hw.
Qed.
End Facts.

(** ** Samples, witnesses, and what the model showed *)

Definition DB : Type := gmap string Trade.
Definition StreamDB : Type := gmap string Streams.Stream.

Definition usdc (issuer amount : string) : Balance :=
  {| asset_type := "credit_alphanum4"; asset_code := Some "USDC"%string; asset_issuer := Some issuer; balance := amount |}.

(** Any issuer's token of that code is taken for the asset: whichever comes
    first in the account's list is the balance. *)
Theorem any_issuer_counts issuer issuer' x y key : issuer ≠ issuer' →
  getAccountBalance (λ _, true) (λ _, Ok [usdc issuer' y; usdc issuer x]) key "USDC" = Ok y.
Proof. done. Qed.

Definition sampleTrade : Trade :=
  {| Trades.id := 1; Trades.tradeId := "A"; buyerAddress := "gb"; sellerAddress := "gs"; amountUsdc := "100";
     Trades.buyerLossBps := 5000; Trades.sellerLossBps := 5000; Trades.version := 0; status := FUNDED;
     Trades.expiresAt := None; Trades.expiredAt := None; Trades.createdAt := 0; Trades.updatedAt := 0 |}.
Definition sampleDb : DB := {[ "A"%string := sampleTrade ]}.
Definition thresholds : Thresholds := {| warningBps := 100; criticalBps := 1000 |}.
(** The buyer holds 95, the seller 100.5. *)
Definition sampleHorizon : Horizon := λ k,
  if bool_decide (k = "gb"%string) then Ok [usdc "i" "95"] else Ok [usdc "i" "100.5000000"].
Definition sampleStreams : StreamDB := Streams.sampleStreams.

Example sample_sweep :
  (λ r : SweepResult, (accountsChecked r, warnings r, criticals r, map accountAddress (reports r)))
    (sweepResult (λ _, true) sampleHorizon thresholds sampleDb (∅ : StreamDB)) = (2, 1, 0, ["gb"%string]).
Proof. vm_compute. reflexivity. Qed.

Lemma drift_spec_witness :
  (95 = 100 → checkAccountDrift (λ _, true) sampleHorizon thresholds sampleDb "gb" "USDC" = Ok None) ∧
  (95 ≠ 100 → ∃ r, checkAccountDrift (λ _, true) sampleHorizon thresholds sampleDb "gb" "USDC" = Ok (Some r) ∧
    accountAddress r = "gb"%string ∧ dbBalance r = toString 100 ∧ onChainBalance r = "95"%string ∧
    drift r = toString (95 - 100) ∧ severity r = severityOf thresholds 100 95).
Proof.
  apply (drift_spec (TT := DB) (λ _, true) sampleHorizon thresholds sampleDb "gb" "USDC" "95" 95 [100]);
    first [vm_compute; reflexivity | vm_compute; congruence | left; vm_compute; reflexivity].
Defined.

Lemma decimal_balance_unreported_witness :
  checkAccountDrift (λ _, true) sampleHorizon thresholds sampleDb "gs" "USDC" = Err (SyntaxError "100.5000000") ∧
  ∀ r, r ∈ reports (sweepResult (λ _, true) sampleHorizon thresholds sampleDb (∅ : StreamDB)) → accountAddress r ≠ "gs"%string.
Proof. by apply (decimal_balance_unreported (TT := DB) (TS := StreamDB)). Defined.

Lemma unexpected_funds_unreported_witness :
  let r := {| accountAddress := "gb"; assetCode := "USDC"; dbBalance := "0"; onChainBalance := "95"; drift := "95";
              driftBps := JInt 0; severity := none |} in
  severity r = none ∧ driftBps r = JInt 0.
Proof.
  apply (unexpected_funds_unreported (TT := DB) (λ _, true) sampleHorizon thresholds ∅ "gb" "USDC");
    first [vm_compute; congruence | vm_compute; reflexivity].
Defined.

Lemma reconciliation_sweep_spec_witness :
  let '(alerts', r) := sweep (λ _, true) sampleHorizon thresholds Alerts.sampleConfig false false (λ _, Alerts.Accepted) 5
                         sampleDb sampleStreams Alerts.noAlerts in
  match r with
  | Ok s =>
      (∃ addresses, NoDup addresses ∧ accountsChecked s = Z.of_nat (length addresses) ∧
        reports s = accountReports (λ _, true) sampleHorizon thresholds sampleDb addresses ∧
        ∀ a, a ∈ addresses ↔ (∃ k t, findUnique k sampleDb = Some t ∧ partyTo a t = true) ∨
          ∃ k st, findUnique k sampleStreams = Some st ∧ Streams.status st ∈ Streams.LIVE_STATUSES ∧ Streams.recipient st = a) ∧
      driftsDetected s = warnings s + criticals s ∧
      (false = false →
        (0 < criticals s → ∃ msg, alerts' = Alerts.dispatch Alerts.sampleConfig Alerts.Accepted 5
          Alerts.reconciliation_drift_critical msg Alerts.noAlerts) ∧
        (criticals s = 0 → 0 < warnings s → ∃ msg, alerts' = Alerts.dispatch Alerts.sampleConfig Alerts.Accepted 5
          Alerts.reconciliation_drift_warning msg Alerts.noAlerts) ∧
        (criticals s = 0 → warnings s = 0 → alerts' = Alerts.noAlerts))
  | Err e => false = true ∧ ∃ msg, alerts' = Alerts.dispatch Alerts.sampleConfig Alerts.Accepted 5
      Alerts.reconciliation_job_failure msg Alerts.noAlerts
  end.
Proof.
  exact (reconciliation_sweep_spec (TT := DB) (TS := StreamDB) (λ _, true) sampleHorizon thresholds Alerts.sampleConfig false false
    (λ _, Alerts.Accepted) 5 sampleDb sampleStreams Alerts.noAlerts).
Defined.

Lemma any_issuer_counts_witness :
  getAccountBalance (λ _, true) (λ _, Ok [usdc "fake" "1000000.0000000"; usdc "circle" "5.0000000"]) "g" "USDC" =
    Ok "1000000.0000000"%string.
Proof. by apply (any_issuer_counts "circle" "fake"). Defined.
