(* ===== verification/StreamClawback.v ===== *)
(** * The clawback lock: [backend/src/services/streamClawback.service.ts]

    A lock per stream, held in the memory of the process ([activeClawbacks]) and
    in Redis. Redis is an interface with the documented behaviour of
    [SET key value EX ttl NX], [GET] and [DEL]; [reachable] says whether a call
    gets through, and [ready] is [redis.status === "ready"]. Several processes
    (pods) share one Redis. Times are in seconds, as the TTL is. *)

From S2P Require Import Prelude Errors.

(** ** Redis *)

Class Redis (R : Type) : Type := {
  redisSet : string → Z → Z → R → bool * R;  (* key, ttl, now: was it "OK"? *)
  redisGet : string → Z → R → bool;          (* key, now: does it exist? *)
  redisDel : string → R → R;
}.

Class RedisLaws (R : Type) `{!Redis R} : Prop := {
  set_nx k ttl now r : (redisSet k ttl now r).1 = negb (redisGet k now r);
  set_holds k ttl now r t : redisGet k now r = false → now ≤ t < now + ttl →
    redisGet k t (redisSet k ttl now r).2 = true;
  set_taken k ttl now r t : redisGet k now r = true → redisGet k t (redisSet k ttl now r).2 = redisGet k t r;
  set_other k k' ttl now r t : k' ≠ k → redisGet k' t (redisSet k ttl now r).2 = redisGet k' t r;
  del_gone k t r : redisGet k t (redisDel k r) = false;
  del_other k k' t r : k' ≠ k → redisGet k' t (redisDel k r) = redisGet k' t r;
}.

(** Expiry times, as one implementation. *)
#[global] Instance gmapRedis : Redis (gmap string Z) := {|
  redisSet k ttl now r :=
    match r !! k with
    | Some e => if now <? e then (false, r) else (true, <[k := now + ttl]> r)
    | None => (true, <[k := now + ttl]> r)
    end;
  redisGet k now r := match r !! k with Some e => now <? e | None => false end;
  redisDel k r := delete k r;
|}.

#[global] Instance gmapRedis_laws : RedisLaws (gmap string Z).
Proof.
  split; cbn.
  - intros k ttl now r. destruct (r !! k); [|done]. by case_ifs.
  - intros k ttl now r t Hg Ht. destruct (r !! k); [rewrite Hg|]; cbn;
      rewrite lookup_insert_eq; apply Z.ltb_lt; lia.
  - intros k ttl now r t Hg. destruct (r !! k) eqn:Hk; [|done]. rewrite Hg. cbn. by rewrite Hk.
  - intros k k' ttl now r t Hne. destruct (r !! k); [case_ifs|]; cbn; by rewrite ?lookup_insert_ne.
  - intros k t r. by rewrite lookup_delete_eq.
  - intros k k' t r Hne. by rewrite lookup_delete_ne.
Qed.

(** ** The service *)

Definition REDIS_CLAWBACK_TTL_SECONDS : Z := 30.
Definition REDIS_CLAWBACK_PREFIX : string := "clawback:lock:".
Definition redisKey (streamId : string) : string := REDIS_CLAWBACK_PREFIX +:+ streamId.

Definition inProgress (streamId : string) : error :=
  AppError DOMAIN_ERROR ("A clawback operation is already in progress for stream " +:+ streamId) 409.
Definition unavailable (streamId : string) : error :=
  AppError DOMAIN_ERROR ("Clawback temporarily unavailable: Redis required for payout safety (stream " +:+ streamId +:+ ")") 503.

Section Service.
Context {R : Type} `{!Redis R}.

Definition has (streamId : string) (active : list string) : bool := bool_decide (streamId ∈ active).
Definition addTo (streamId : string) (active : list string) : list string :=
  if has streamId active then active else active ++ [streamId].
Definition removeFrom (streamId : string) (active : list string) : list string :=
  List.filter (λ s, negb (bool_decide (s = streamId))) active.

(** The background [SET] is not awaited; its outcome is only logged. *)
Definition acquire (ready reachable : bool) (active : list string) (redis : R) (streamId : string) (now : Z)
    : list string * R * result error unit :=
  if has streamId active then (active, redis, Err (inProgress streamId))
  else if negb ready then (active, redis, Err (unavailable streamId))
  else (addTo streamId active,
        if reachable then (redisSet (redisKey streamId) REDIS_CLAWBACK_TTL_SECONDS now redis).2 else redis, Ok tt).

Definition acquireAsync (reachable : bool) (active : list string) (redis : R) (streamId : string) (now : Z)
    : list string * R * result error unit :=
  if has streamId active then (active, redis, Err (inProgress streamId))
  else if negb reachable then (active, redis, Err (unavailable streamId))
  else let '(ok, redis') := redisSet (redisKey streamId) REDIS_CLAWBACK_TTL_SECONDS now redis in
       if ok then (addTo streamId active, redis', Ok tt)
       else (active, redis', Err (inProgress streamId)).

(** [release] and [releaseAsync] differ only in whether the [DEL] is awaited. *)
Definition release (reachable : bool) (active : list string) (redis : R) (streamId : string) : list string * R :=
  (removeFrom streamId active, if reachable then redisDel (redisKey streamId) redis else redis).

Definition isLocked (active : list string) (streamId : string) : bool := has streamId active.

Definition isLockedAsync (reachable : bool) (active : list string) (redis : R) (streamId : string) (now : Z) : bool :=
  if has streamId active then true
  else if reachable then redisGet (redisKey streamId) now redis else true.

(** ** Correctness *)

Context `{!RedisLaws R}.

Lemma redisKey_inj a b : redisKey a = redisKey b → a = b.
Proof. unfold redisKey, REDIS_CLAWBACK_PREFIX. intros H. by injection H. Qed.

(** Attempts by any pods (each with its own memory) on any streams. *)
Fixpoint attempts (redis : R) (as_ : list (list string * string * Z * bool)) : list (string * result error unit) :=
  match as_ with
  | [] => []
  | (active, s, now, reachable) :: rest =>
      let '(_, redis', r) := acquireAsync reachable active redis s now in (s, r) :: attempts redis' rest
  end.

Lemma acquireAsync_held (redis redis' : R) active active' s s' now reachable r t0 t1 :
  (∀ t, t0 ≤ t < t1 → redisGet (redisKey s) t redis = true) → t0 ≤ now < t1 →
  acquireAsync reachable active redis s' now = (active', redis', r) →
  (∀ t, t0 ≤ t < t1 → redisGet (redisKey s) t redis' = true) ∧ (s' = s → isOk r = false).
Proof.
  intros Hheld Hnow. unfold acquireAsync. destruct (has s' active); [intros [= <- <- <-]; by split|].
  destruct reachable; cbn [negb]; [|intros [= <- <- <-]; by split].
  pose proof (set_nx (redisKey s') REDIS_CLAWBACK_TTL_SECONDS now redis) as Hnx.
  destruct (redisSet _ _ now redis) as [ok rd] eqn:Hset.
  assert (Hkeep : ∀ t, t0 ≤ t < t1 → redisGet (redisKey s) t rd = true).
  { intros t Ht. change rd with (ok, rd).2. rewrite <-Hset. destruct (decide (s' = s)) as [->|Hne].
    - rewrite set_taken by auto. auto.
    - rewrite set_other; [auto|]. intros Heq. by apply redisKey_inj in Heq. }
  assert (Hno : s' = s → ok = false) by (intros ->; rewrite Hheld in Hnx by done; exact Hnx).
  destruct ok; intros [= <- <- <-]; (split; [done|]); [|done]. intros Hs. by specialize (Hno Hs).
Qed.

(** The awaited lock is exclusive across pods for its lifetime: once a pod has
    acquired a stream at time [now], no pod, whatever its own memory says, acquires
    it again in the next thirty seconds, unless the lock is released. *)
Theorem acquireAsync_exclusive (active : list string) (redis : R) (s : string) (now : Z) active' redis'
    (as_ : list (list string * string * Z * bool)) :
  acquireAsync true active redis s now = (active', redis', Ok tt) →
  Forall (λ a, now ≤ a.1.2 < now + REDIS_CLAWBACK_TTL_SECONDS) as_ →
  ∀ r, (s, r) ∈ attempts redis' as_ → isOk r = false.
Proof.
  intros Hacq Hts.
  assert (Hheld : ∀ t, now ≤ t < now + REDIS_CLAWBACK_TTL_SECONDS → redisGet (redisKey s) t redis' = true).
  { unfold acquireAsync in Hacq. destruct (has s active); [done|]. cbn [negb] in Hacq.
    pose proof (set_nx (redisKey s) REDIS_CLAWBACK_TTL_SECONDS now redis) as Hnx.
    destruct (redisSet _ _ now redis) as [ok rd] eqn:Hset. destruct ok; [|done]. injection Hacq as _ <-.
    intros t Ht. change rd with (true, rd).2. rewrite <-Hset. apply set_holds; [|done].
    cbn in Hnx. by destruct (redisGet _ now redis). }
  clear Hacq. revert redis' Hheld. induction Hts as [|[[[ac s'] t] rch] as_ Ht Hts IH]; intros rd Hheld r; cbn [attempts].
  { set_solver. }
  destruct (acquireAsync rch ac rd s' t) as [[ac2 rd2] r2] eqn:Ha.
  destruct (acquireAsync_held rd rd2 ac ac2 s s' t rch r2 now (now + REDIS_CLAWBACK_TTL_SECONDS) Hheld Ht Ha) as [Hk Hn].
  intros [[= -> ->]|Hin]%elem_of_cons; [by apply Hn|by eapply IH].
Qed.

(** Without Redis every operation fails closed: no lock is granted, by either
    variant, and an awaited query reports the stream as locked. *)
Theorem clawback_fails_closed (active : list string) (redis : R) (s : string) (now : Z) :
  isOk (acquire false true active redis s now).2 = false ∧
  isOk (acquireAsync false active redis s now).2 = false ∧
  isLockedAsync false active redis s now = true.
Proof. unfold acquire, acquireAsync, isLockedAsync. by destruct (has s active). Qed.

(** The synchronous lock, the one the clawback route takes, is not exclusive
    across pods: two pods whose memories do not hold the stream both acquire it,
    with Redis up and reachable, at the same instant. *)
Theorem acquire_not_exclusive (a b : list string) (redis : R) (s : string) (now : Z) :
  s ∉ a → s ∉ b →
  let '(a', redis', ra) := acquire true true a redis s now in
  let '(b', _, rb) := acquire true true b redis' s now in
  ra = Ok tt ∧ rb = Ok tt ∧ isLocked a' s = true ∧ isLocked b' s = true.
Proof.
  intros Ha Hb. unfold acquire, isLocked, addTo, has. rewrite !bool_decide_eq_false_2 by done. cbn [negb].
  rewrite !bool_decide_eq_true_2 by set_solver. done.
Qed.
End Service.

(** ** Witnesses *)

Lemma acquireAsync_exclusive_witness :
  Forall (λ x, x.1 = "s1"%string → isOk x.2 = false)
    (attempts (acquireAsync true [] (∅ : gmap string Z) "s1" 100).1.2
       [([], "s1"%string, 110, true); ([], "s2"%string, 111, true)]).
Proof.
  apply Forall_forall. intros [s r] Hin Hs. cbn [fst] in Hs. subst s. revert r Hin.
  apply (acquireAsync_exclusive [] (∅ : gmap string Z) "s1" 100 ["s1"%string]); [vm_compute; reflexivity|].
  repeat constructor; cbn; unfold REDIS_CLAWBACK_TTL_SECONDS; lia.
Defined.

Lemma acquire_not_exclusive_witness :
  let '(a', redis', ra) := acquire true true [] (∅ : gmap string Z) "s1" 100 in
  let '(b', _, rb) := acquire true true [] redis' "s1" 100 in
  ra = Ok tt ∧ rb = Ok tt ∧ isLocked a' "s1" = true ∧ isLocked b' "s1" = true.
Proof. apply (acquire_not_exclusive [] [] (∅ : gmap string Z) "s1" 100); set_solver. Defined.
