(* ===== verification/AdminStreams.v ===== *)
(** * The administration of payment streams

    [services/adminStreams.service.ts], [services/streamCache.service.ts] with
    [lib/cache.ts], [routes/admin.streams.routes.ts], [errors/adminSubmissionError.ts]
    with [classifyStellarError] of [services/stellar.service.ts], and
    [lib/adminTxFailureMonitor.ts]. The routes compose [Streams] and
    [StreamClawback]; the guards before the handlers are modelled elsewhere. The value
    of a cache entry is the object itself: it survives [JSON.stringify] and
    [JSON.parse] unchanged. *)

From S2P Require Import Prelude JsString JsValue Prisma Effects.
From S2P Require Errors Streams StreamClawback ErrorMapping.
Import Streams (Stream, StreamStatus, StreamStatus_eq_dec, ACTIVE, SUSPENDED, TERMINATED, COMPLETED).

(** ** The listing *)

Inductive VestingState : Type := not_started | vesting | fully_vested.
#[global] Instance VestingState_eq_dec : EqDecision VestingState.
Proof. solve_decision. Defined.

(** A row with the columns the stream operations do not touch. *)
Record StreamRow : Type := { stream : Stream; createdAt : Z; updatedAt : Z }.

(** [BigInt(s || '0')] *)
Definition bigIntOr0 (s : string) : result Errors.error Z := if bool_decide (s = ""%string) then Ok 0 else Streams.bigInt s.

Definition vestingStateOf (s : Stream) : result Errors.error VestingState :=
  claimed ← bigIntOr0 (Streams.claimed s);
  total ← bigIntOr0 (Streams.totalVested s);
  Ok (if claimed <=? 0 then not_started else if (0 <? total) && (total <=? claimed) then fully_vested else vesting).

Record AdminStreamSummary : Type := {
  s_streamId : string; s_recipient : string; s_status : StreamStatus; s_vestingState : VestingState; s_totalVested : string;
  s_claimed : string; s_unclaimed : string; s_pendingClawback : string; s_adminTags : list string; s_createdAt : Z; s_updatedAt : Z }.

Definition toSummary (r : StreamRow) : result Errors.error AdminStreamSummary :=
  let s := stream r in
  state ← vestingStateOf s;
  Ok {| s_streamId := Streams.streamId s; s_recipient := Streams.recipient s; s_status := Streams.status s; s_vestingState := state;
        s_totalVested := Streams.totalVested s; s_claimed := Streams.claimed s; s_unclaimed := Streams.unclaimed s;
        s_pendingClawback := Streams.pendingClawback s; s_adminTags := Streams.adminTags s; s_createdAt := createdAt r; s_updatedAt := updatedAt r |}.

Record AdminStreamListParams : Type := {
  q_page : Z; q_limit : Z; q_status : option StreamStatus; q_vestingState : option VestingState; q_adminTag : option string }.
Record AdminStreamListResult : Type := {
  items : list AdminStreamSummary; p_page : Z; p_limit : Z; p_total : Z; p_totalPages : Z }.

(** The query of the route: texts in, numbers from 1, at most 100 on a page. *)
Definition parseCount (dflt : Z) (ok : Z → bool) (text : option string) : option Z :=
  match text with
  | None => Some dflt
  | Some s => match StringToNumber s with JInt n => if ok n then Some n else None | _ => None end
  end.
Definition parseName {A} (names : list (string * A)) (text : option string) : option (option A) :=
  match text with
  | None => Some None
  | Some s => match List.find (λ x, bool_decide (fst x = s)) names with Some x => Some (Some (snd x)) | None => None end
  end.

Definition streamListQuerySchema (page limit status vestingState adminTag : option string) : option AdminStreamListParams :=
  p ← parseCount 1 (λ n, 1 <=? n) page;
  l ← parseCount 20 (λ n, (1 <=? n) && (n <=? 100)) limit;
  st ← parseName (map (λ s, (Streams.statusName s, s)) [ACTIVE; SUSPENDED; TERMINATED; COMPLETED]) status;
  v ← parseName [("not_started", not_started); ("vesting", vesting); ("fully_vested", fully_vested)]%string vestingState;
  t ← match adminTag with Some t => if (1 <=? strlen t)%nat && (strlen t <=? 100)%nat then Some (Some t) else None | None => Some None end;
  Some {| q_page := p; q_limit := l; q_status := st; q_vestingState := v; q_adminTag := t |}.

Definition DEFAULT_LIMIT : Z := 20.
Definition MAX_LIMIT : Z := 100.

(** [streams.filter(...)] with a predicate that may throw. *)
Fixpoint filterOk {A E} (p : A → result E bool) (l : list A) : result E (list A) :=
  match l with
  | [] => Ok []
  | x :: l => p x ≫= λ b : bool, filterOk p l ≫= λ l', Ok (if b then x :: l' else l')
  end.
Fixpoint mapOk {A B E} (f : A → result E B) (l : list A) : result E (list B) :=
  match l with
  | [] => Ok []
  | x :: l => f x ≫= λ y, mapOk f l ≫= λ l', Ok (y :: l')
  end.

Section Listing.
Context {T : Type} `{!Table string StreamRow T}.

Definition newestFirst (x y : StreamRow) : Z := createdAt y - createdAt x.
Definition selectedRow (q : AdminStreamListParams) (r : StreamRow) : bool :=
  match q_status q with Some s => bool_decide (Streams.status (stream r) = s) | None => true end &&
  match q_adminTag q with Some t => bool_decide (t ∈ Streams.adminTags (stream r)) | None => true end.
Definition inState (v : VestingState) (r : StreamRow) : result Errors.error bool := s ← vestingStateOf (stream r); Ok (bool_decide (s = v)).

Definition list_ (q : AdminStreamListParams) (db : T) : result Errors.error AdminStreamListResult :=
  let page := if 0 <? q_page q then q_page q else 1 in
  let limit := Z.min (if 0 <? q_limit q then q_limit q else DEFAULT_LIMIT) MAX_LIMIT in
  let streams := js_sort newestFirst (findMany (K := string) (selectedRow q) db) in
  filtered ← match q_vestingState q with Some v => filterOk (inState v) streams | None => Ok streams end;
  let total := Z.of_nat (length filtered) in
  pageItems ← mapOk toSummary (slice ((page - 1) * limit) limit filtered);
  Ok {| items := pageItems; p_page := page; p_limit := limit; p_total := total; p_totalPages := pagesOf total limit |}.
End Listing.

(** ** The cached state *)

Definition CACHE_TTL_SECONDS : Z := 60.
Definition cacheKey (streamId : string) : string := "stream:state:" +:+ streamId.

Record CachedStreamState : Type := {
  c_streamId : string; c_status : StreamStatus; c_totalVested : string; c_claimed : string; c_unclaimed : string; c_pendingClawback : string;
  c_terminatedAt : option Z; c_terminatedBy : option string; c_terminationReason : option string; cachedAt : Z }.

Definition stateOf (now : Z) (s : Stream) : CachedStreamState :=
  {| c_streamId := Streams.streamId s; c_status := Streams.status s; c_totalVested := Streams.totalVested s; c_claimed := Streams.claimed s;
     c_unclaimed := Streams.unclaimed s; c_pendingClawback := Streams.pendingClawback s; c_terminatedAt := Streams.terminatedAt s;
     c_terminatedBy := Streams.terminatedBy s; c_terminationReason := Streams.terminationReason s; cachedAt := now |}.

Section Cache.
Context {T R : Type} `{!Table string Stream T, !Kv CachedStreamState R}.

(** The table, the cache, and the states that requests have read and not stored yet. *)
Record CacheWorld : Type := { table : T; cache : R; inFlight : list (string * CachedStreamState) }.

(** [cacheGet]; [up]: the round trip succeeds. *)
Definition cacheGet (up : bool) (id : string) (now : Z) (r : R) : option CachedStreamState := if up then kvGet (cacheKey id) now r else None.
Definition cacheSet (up : bool) (id : string) (st : CachedStreamState) (now : Z) (r : R) : R :=
  if up then kvSet (cacheKey id) st CACHE_TTL_SECONDS now r else r.
Definition invalidateStreamCache (up : bool) (id : string) (r : R) : R := if up then kvDel (V := CachedStreamState) (cacheKey id) r else r.

(** The round trips of the requests and of the operations on streams, in the order they
    reach the database and the cache. *)
Inductive cacheEvent : Type :=
| EFetch (id : string) (now : Z)                (* [prisma.stream.findUnique] after a miss *)
| EStore (n : nat) (up : bool) (now : Z)        (* [cacheSet] of the [n]-th state in flight *)
| EInvalidate (id : string) (up : bool) (now : Z)
| ECommit (f : T → T) (now : Z).                (* a write of the stream services *)

Definition eventTime (e : cacheEvent) : Z :=
  match e with EFetch _ now | EStore _ _ now | EInvalidate _ _ now | ECommit _ now => now end.

Definition cacheStep (w : CacheWorld) (e : cacheEvent) : CacheWorld :=
  match e with
  | EFetch id now =>
      match findUnique id (table w) with
      | Some s => {| table := table w; cache := cache w; inFlight := inFlight w ++ [(id, stateOf now s)] |}
      | None => w
      end
  | EStore n up now =>
      match inFlight w !! n with
      | Some (id, st) => {| table := table w; cache := cacheSet up id st now (cache w); inFlight := delete n (inFlight w) |}
      | None => w
      end
  | EInvalidate id up _ => {| table := table w; cache := invalidateStreamCache up id (cache w); inFlight := inFlight w |}
  | ECommit f _ => {| table := f (table w); cache := cache w; inFlight := inFlight w |}
  end.
Definition cacheRun (w : CacheWorld) (es : list cacheEvent) : CacheWorld := foldl cacheStep w es.

(** One request with nothing in between: the answer and what it leaves. *)
Definition getCachedStreamState (upGet upSet : bool) (id : string) (now : Z) (w : CacheWorld) : option CachedStreamState * CacheWorld :=
  match cacheGet upGet id now (cache w) with
  | Some st => (Some st, w)
  | None =>
      match findUnique id (table w) with
      | None => (None, w)
      | Some s => (Some (stateOf now s), cacheStep (cacheStep w (EFetch id now)) (EStore (length (inFlight w)) upSet now))
      end
  end.
End Cache.
Arguments CacheWorld : clear implicits.
Arguments cacheEvent : clear implicits.

(** ** Failed submissions *)

Inductive StellarErrorCategory : Type :=
  timeout | connection_refused | not_found | rate_limited | invalid_xdr | contract_panic | rpc_error | network_error.

(** [error.message], or [String(error)] of what is not an [Error]. *)
Definition thrownText (t : ErrorMapping.Thrown) : string :=
  match t with
  | ErrorMapping.TApp e => ErrorMapping.message e
  | ErrorMapping.TText s => s
  | ErrorMapping.TNullish => "null"
  | ErrorMapping.TObject e => if ErrorMapping.isError e then default ""%string (ErrorMapping.e_message e) else "[object Object]"
  end.

Definition classifyStellarError (t : ErrorMapping.Thrown) : StellarErrorCategory * string * bool :=
  let msg := thrownText t in
  let code := ErrorMapping.errorCode t in
  let status := ErrorMapping.responseStatus t in
  let mentions := λ parts, ErrorMapping.mentions parts msg in
  if bool_decide (code = Some "ETIMEDOUT"%string) || bool_decide (code = Some "ECONNABORTED"%string) || mentions ["timeout"; "timed out"; "deadline exceeded"]%string
  then (timeout, "Stellar RPC timed out: " +:+ msg, true)
  else if bool_decide (code = Some "ECONNREFUSED"%string) || mentions ["connection refused"]%string
  then (connection_refused, "Stellar service unavailable: " +:+ msg, true)
  else if bool_decide (status = Some 404) || mentions ["not found"]%string then (not_found, msg, false)
  else if bool_decide (status = Some 429) || mentions ["rate limit"; "try_again_later"]%string then (rate_limited, "Stellar rate limited: " +:+ msg, true)
  else if mentions ["xdr"]%string then (invalid_xdr, "Invalid transaction XDR: " +:+ msg, false)
  else if mentions ["contract panic"]%string then (contract_panic, msg, false)
  else if mentions ["rpc error"]%string then (rpc_error, msg, false)
  else (network_error, "Stellar network error: " +:+ msg, true).

Definition CATEGORY_MAP (c : StellarErrorCategory) : Errors.ErrorCode * Z * string :=
  match c with
  | invalid_xdr => (Errors.SUBMISSION_VALIDATION_ERROR, 400, "The transaction is malformed and cannot be submitted."%string)
  | timeout => (Errors.SUBMISSION_NETWORK_ERROR, 504, "The Stellar network timed out. Please try again."%string)
  | connection_refused => (Errors.SUBMISSION_NETWORK_ERROR, 503, "The Stellar service is temporarily unavailable."%string)
  | rate_limited => (Errors.SUBMISSION_NETWORK_ERROR, 429, "Rate limit exceeded. Please wait before retrying."%string)
  | not_found => (Errors.SUBMISSION_CONTRACT_ERROR, 404, "The requested on-chain resource was not found."%string)
  | contract_panic => (Errors.SUBMISSION_CONTRACT_ERROR, 502, "The smart contract rejected the transaction."%string)
  | rpc_error => (Errors.SUBMISSION_CONTRACT_ERROR, 502, "The Stellar RPC node returned an error."%string)
  | network_error => (Errors.SUBMISSION_NETWORK_ERROR, 502, "A network error occurred while communicating with Stellar."%string)
  end.

(** [error.details.category] is never set by the classifiers of [service.errors.ts], so
    a classified error takes the [network_error] texts where it has none of its own. *)
Definition classifyAdminSubmissionError (t : ErrorMapping.Thrown) : ErrorMapping.AppError :=
  match t with
  | ErrorMapping.TApp e =>
      match ErrorMapping.retryable e with
      | Some _ =>
          let '(c, s, m) := CATEGORY_MAP network_error in
          {| ErrorMapping.code := ErrorMapping.orText (Some (ErrorMapping.code e)) (ErrorMapping.codeText c);
             ErrorMapping.message := ErrorMapping.orText (Some (ErrorMapping.message e)) m;
             ErrorMapping.statusCode := if ErrorMapping.statusCode e =? 0 then s else ErrorMapping.statusCode e;
             ErrorMapping.retryable := ErrorMapping.retryable e |}
      | None => e
      end
  | _ =>
      let '(category, text, again) := classifyStellarError t in
      let '(c, s, m) := CATEGORY_MAP category in
      {| ErrorMapping.code := ErrorMapping.codeText c; ErrorMapping.message := ErrorMapping.orText (Some text) m;
         ErrorMapping.statusCode := s; ErrorMapping.retryable := Some again |}
  end.

(** *** The failure monitor *)

Record FailureWindow : Type := { count : Z; windowStart : Z }.
Notation Windows := (gmap string FailureWindow).

(** [threshold] and [windowMs] come from the environment; the result says whether the
    alert is dispatched, and with which count. *)
Definition windowAt (windowMs : Z) (endpoint : string) (now : Z) (windows : Windows) : FailureWindow :=
  match windows !! endpoint with
  | Some e => if windowMs <? now - windowStart e then {| count := 0; windowStart := now |} else e
  | None => {| count := 0; windowStart := now |}
  end.
Definition recordAdminSorobanTxFailure (threshold windowMs : Z) (endpoint : string) (now : Z) (windows : Windows) : Windows * option Z :=
  let entry := windowAt windowMs endpoint now windows in
  let n := count entry + 1 in
  if threshold <=? n then (<[endpoint := {| count := 0; windowStart := now |}]> windows, Some n)
  else (<[endpoint := {| count := n; windowStart := windowStart entry |}]> windows, None).
Definition resetAdminSorobanTxFailures (endpoint : option string) (windows : Windows) : Windows :=
  match endpoint with Some e => if bool_decide (e = ""%string) then ∅ else delete e windows | None => ∅ end.

(** ** The routes *)

(** [/^[a-zA-Z0-9_-]+$/], at most 128 characters. *)
Definition idChar (c : ascii) : bool :=
  let n := Z.of_N (N_of_ascii c) in
  ((97 <=? n) && (n <=? 122)) || ((65 <=? n) && (n <=? 90)) || is_digit c || (n =? 95) || (n =? 45).
Definition streamIdParamSchema (id : string) : bool := (1 <=? strlen id)%nat && (strlen id <=? 128)%nat && str_forall idChar id.
Definition clawbackPreviewBodySchema (amount : string) : bool := (1 <=? strlen amount)%nat && str_forall is_digit amount.

Record Preview : Type := { remainingVested : string; requestedClawback : string; postClawbackBalance : string }.

Definition invalidAmount : Errors.error := Errors.AppError Errors.CLAWBACK_INVALID_AMOUNT "Clawback amount must be a positive integer" 400.
Definition tooLarge (amount unclaimed : string) : Errors.error :=
  Errors.AppError Errors.CLAWBACK_TOO_LARGE ("Requested clawback " +:+ amount +:+ " exceeds remaining vested amount " +:+ unclaimed) 400.

Section Routes.
Context {T R : Type} `{!Table string Stream T, !StreamClawback.Redis R}.

Definition previewOf (db : T) (id amount : string) : result Errors.error Preview :=
  s ← Streams.requireActionableStream db id Streams.LIVE_STATUSES "clawed back from";
  requested ← Streams.bigInt amount;
  _ ← throwIf (requested <=? 0) invalidAmount;
  remaining ← Streams.bigInt (Streams.unclaimed s);
  _ ← throwIf (remaining <? requested) (tooLarge amount (Streams.unclaimed s));
  Ok {| remainingVested := Streams.unclaimed s; requestedClawback := amount; postClawbackBalance := toString (remaining - requested) |}.

(** The lock is taken first and released last, whatever happens in between. *)
Definition clawbackPreview (ready reachable : bool) (active : list string) (redis : R) (db : T) (id amount : string) (now : Z)
    : list string * R * result Errors.error Preview :=
  match StreamClawback.acquire ready reachable active redis id now with
  | (active', redis', Err e) => (active', redis', Err e)
  | (active', redis', Ok _) =>
      let '(active'', redis'') := StreamClawback.release reachable active' redis' id in (active'', redis'', previewOf db id amount)
  end.

Record Changed : Type := { ch_streamId : string; ch_status : string; ch_by : string; ch_at : Z; ch_text : string }.
Definition textOr (t : option string) (dflt : string) : string := match t with Some "" | None => dflt | Some s => s end%string.

(** The handlers of these two routes check and answer; they write nothing. *)
Definition suspend (db : T) (id admin : string) (reason : option string) (now : Z) : result Errors.error Changed :=
  _ ← Streams.requireActionableStream db id Streams.SUSPENDABLE_STATUSES "suspended from";
  Ok {| ch_streamId := id; ch_status := "suspended"; ch_by := admin; ch_at := now; ch_text := textOr reason "Admin suspension" |}.
Definition resume (db : T) (id admin : string) (note : option string) (now : Z) : result Errors.error Changed :=
  _ ← Streams.requireActionableStream db id Streams.RESUMABLE_STATUSES "resumed from";
  Ok {| ch_streamId := id; ch_status := "active"; ch_by := admin; ch_at := now; ch_text := textOr note "Stream resumed" |}.

(** What the service threw, as the error converters see it. *)
Definition thrownOf (e : Errors.error) : ErrorMapping.Thrown :=
  match e with
  | Errors.AppError c m s => ErrorMapping.TApp (ErrorMapping.appError c m s)
  | Errors.PlainError m => ErrorMapping.TObject {| ErrorMapping.isError := true; ErrorMapping.e_message := Some m; ErrorMapping.e_error := None;
      ErrorMapping.e_code := None; ErrorMapping.network := false; ErrorMapping.timeout := false; ErrorMapping.response := None |}
  end.

Definition hasStatus (e : Errors.error) (s : Z) : bool := bool_decide (Errors.statusOf e = Some s).
Definition hasTx (unsignedTxXdr : option string) : bool := match unsignedTxXdr with Some "" | None => false | Some _ => true end%string.

(** [catch] of the lock, unlock and terminate handlers: a 404 is notified once more. *)
Definition notified (input : Streams.StreamInput) (act : string) (e : Errors.error) : list Streams.notification :=
  if hasStatus e 404 then [Streams.OperationFailed (Streams.in_streamId input) (Streams.adminAddress input) act e] else [].

Definition lockRoute (auditOk : bool) (before between : Streams.StreamDb → Streams.StreamDb) (db : Streams.StreamDb (T := T)) (input : Streams.StreamInput) (now : Z)
    : Streams.StreamDb * list Streams.notification * result Errors.error Streams.LockStreamResult :=
  match Streams.getStreamOrThrow (Streams.streams db) (Streams.in_streamId input) with
  | Err e => (db, notified input Streams.ADMIN_ACTION_STREAM_LOCK e, Err e)
  | Ok _ =>
      match Streams.lock auditOk between (before db) input now with
      | (db', ns, Ok r) => (db', ns, Ok r)
      | (db', ns, Err e) => (db', ns ++ notified input Streams.ADMIN_ACTION_STREAM_LOCK e, Err e)
      end
  end.
Definition unlockRoute (auditOk : bool) (before between : Streams.StreamDb → Streams.StreamDb) (db : Streams.StreamDb (T := T)) (input : Streams.StreamInput) (now : Z)
    : Streams.StreamDb * list Streams.notification * result Errors.error Streams.LockStreamResult :=
  match Streams.getStreamOrThrow (Streams.streams db) (Streams.in_streamId input) with
  | Err e => (db, notified input Streams.ADMIN_ACTION_STREAM_UNLOCK e, Err e)
  | Ok _ =>
      match Streams.unlock auditOk between (before db) input now with
      | (db', ns, Ok r) => (db', ns, Ok r)
      | (db', ns, Err e) => (db', ns ++ notified input Streams.ADMIN_ACTION_STREAM_UNLOCK e, Err e)
      end
  end.

(** What [next] gets when a termination fails, and the failure monitor. *)
Definition terminateError (threshold windowMs : Z) (unsignedTxXdr : option string) (now : Z) (e : Errors.error) (windows : Windows)
    : ErrorMapping.Thrown * Windows * option Z :=
  if hasTx unsignedTxXdr && negb (hasStatus e 404 || hasStatus e 409)
  then let '(windows', alert) := recordAdminSorobanTxFailure threshold windowMs "stream_terminate" now windows in
       (ErrorMapping.TApp (classifyAdminSubmissionError (thrownOf e)), windows', alert)
  else (thrownOf e, windows, None).

Definition terminateRoute (sign : string → result Errors.error string) (auditOk : bool) (before between : Streams.StreamDb → Streams.StreamDb)
    (threshold windowMs : Z) (db : Streams.StreamDb (T := T)) (windows : Windows) (input : Streams.StreamInput) (unsignedTxXdr : option string) (now : Z)
    : Streams.StreamDb * list Streams.notification * Windows * (Streams.TerminateStreamResult + ErrorMapping.Thrown) :=
  let id := Streams.in_streamId input in
  let fail db' ns e :=
    let '(t, windows', _) := terminateError threshold windowMs unsignedTxXdr now e windows in
    (db', ns ++ notified input Streams.ADMIN_ACTION_STREAM_TERMINATE e, windows', inr t) in
  match (s ← Streams.getStreamOrThrow (Streams.streams db) id; Streams.assertNotLocked s) with
  | Err e => fail db [] e
  | Ok _ =>
      match Streams.terminate sign auditOk between (before db) input unsignedTxXdr now with
      | (db', ns, Ok r) => (db', ns, windows, inl r)
      | (db', ns, Err e) => fail db' ns e
      end
  end.
End Routes.

(** ** Every page shows what belongs on it *)

Lemma filterOk_total {A E} (p : A → result E bool) f l : (∀ x, x ∈ l → p x = Ok (f x)) → filterOk p l = Ok (List.filter f l).
Proof. induction l as [|x l IH]; intros H; [done|]. cbn [filterOk]. rewrite H by set_solver. cbn. rewrite IH by set_solver. cbn. by destruct (f x). Qed.

Lemma filterOk_fails {A E} (p : A → result E bool) l x e : x ∈ l → p x = Err e → ∃ e', filterOk p l = Err e'.
Proof.
  induction l as [|y l IH]; intros Hin Hx; [by apply elem_of_nil in Hin|]. cbn [filterOk].
  apply elem_of_cons in Hin as [->|Hin]; [rewrite Hx; cbn; eauto|]. destruct (p y); cbn; [|eauto]. destruct (IH Hin Hx) as [e' ->]. cbn. eauto.
Qed.

Lemma mapOk_Forall2 {A B E} (f : A → result E B) l k : mapOk f l = Ok k ↔ Forall2 (λ x y, f x = Ok y) l k.
Proof.
  revert k. induction l as [|x l IH]; intros k; cbn [mapOk].
  - split; [intros [= <-]; constructor|]. intros H. by inversion H.
  - rewrite bind_Ok. setoid_rewrite bind_Ok. split.
    + intros (y & Hy & l' & Hl & [= <-]). constructor; [done|]. by apply IH.
    + intros H. inversion H as [|? y ? k' Hy Hk]; subst. exists y. split; [done|]. exists k'. split; [by apply IH|done].
Qed.

Lemma mapOk_total {A B E} (f : A → result E B) l : (∀ x, x ∈ l → isOk (f x) = true) → ∃ k, mapOk f l = Ok k.
Proof.
  induction l as [|x l IH]; intros H; cbn [mapOk]; [eauto|]. destruct (proj1 (isOk_true _) (H x ltac:(set_solver))) as [y ->].
  destruct IH as [k ->]; [set_solver|]. cbn. eauto.
Qed.

Lemma mapOk_slice {A B E} (f : A → result E B) skip limit l k : mapOk f l = Ok k → mapOk f (slice skip limit l) = Ok (slice skip limit k).
Proof. rewrite !mapOk_Forall2. intros H. unfold slice. by apply Forall2_take, Forall2_drop. Qed.

Lemma filter_perm {A} (p : A → bool) l k : l ≡ₚ k → List.filter p l ≡ₚ List.filter p k.
Proof. induction 1; cbn; repeat (destruct (p _)); eauto using Permutation. Qed.
Lemma filter_all {A} (p : A → bool) l : (∀ x, p x = true) → List.filter p l = l.
Proof. intros Hp. induction l as [|x l IH]; cbn; [done|]. by rewrite Hp, IH. Qed.
Lemma filter_sorted {A} (R : A → A → Prop) (p : A → bool) l : StronglySorted R l → StronglySorted R (List.filter p l).
Proof.
  induction 1 as [|x l _ IH Hx]; cbn; [constructor|]. destruct (p x); [|done]. constructor; [done|]. rewrite Forall_forall in *.
  intros y Hy. apply Hx. rewrite list_elem_of_In, List.filter_In, <-list_elem_of_In in Hy. tauto.
Qed.

Section ListingFacts.
Context {T : Type} `{!Table string StreamRow T, !TableLaws string StreamRow T}.

Definition readable (r : StreamRow) : Prop := isOk (vestingStateOf (stream r)) = true.
Definition hasState (v : option VestingState) (r : StreamRow) : bool :=
  match v with Some v => match vestingStateOf (stream r) with Ok s => bool_decide (s = v) | Err _ => false end | None => true end.
Definition atPage (q : AdminStreamListParams) (n : Z) : AdminStreamListParams :=
  {| q_page := n; q_limit := q_limit q; q_status := q_status q; q_vestingState := q_vestingState q; q_adminTag := q_adminTag q |}.

Lemma newestFirst_sorted (l : list StreamRow) : StronglySorted (cmp_le newestFirst) (js_sort newestFirst l).
Proof. apply js_sort_sorted; unfold cmp_le, newestFirst; lia. Qed.

(** The pages of the listing together show every stream of the status, the tag and
    the vesting state that were asked for exactly once, the newest first, and every page
    reports their number; provided the amounts of the rows are integers. *)
Theorem stream_pages (q : AdminStreamListParams) (db : T) : 1 ≤ q_limit q ≤ 100 → (∀ k r, findUnique k db = Some r → readable r) →
  ∃ all shown, all ≡ₚ List.filter (hasState (q_vestingState q)) (findMany (K := string) (selectedRow q) db) ∧
    StronglySorted (cmp_le newestFirst) all ∧ mapOk toSummary all = Ok shown ∧
    (∀ n, 1 ≤ n → ∃ p, list_ (atPage q n) db = Ok p ∧ items p = slice ((n - 1) * q_limit q) (q_limit q) shown ∧ p_page p = n ∧
       p_total p = Z.of_nat (length all) ∧ p_totalPages p = pagesOf (p_total p) (q_limit q)) ∧
    concat (map (λ k, match list_ (atPage q (Z.of_nat k + 1)) db with Ok p => items p | Err _ => [] end)
      (seq 0 (Z.to_nat (pagesOf (Z.of_nat (length all)) (q_limit q))))) = shown.
Proof.
  intros Hl Hok. set (all := List.filter (hasState (q_vestingState q)) (js_sort newestFirst (findMany (K := string) (selectedRow q) db))).
  assert (∀ r, r ∈ findMany (K := string) (selectedRow q) db → readable r) as Hread by (intros r (k & Hk & _)%findMany_elem; by eapply Hok).
  assert (∀ r, r ∈ all → readable r) as Hall.
  { intros r Hr. unfold all in Hr. rewrite list_elem_of_In, List.filter_In, <-list_elem_of_In, js_sort_elem in Hr. destruct Hr as [Hr _]. by apply Hread. }
  destruct (mapOk_total toSummary all) as [shown Hshown].
  { intros r Hr%Hall. unfold readable in Hr. unfold toSummary. by destruct (vestingStateOf (stream r)). }
  assert (∀ n, 1 ≤ n → list_ (atPage q n) db = Ok {| items := slice ((n - 1) * q_limit q) (q_limit q) shown; p_page := n; p_limit := q_limit q;
    p_total := Z.of_nat (length all); p_totalPages := pagesOf (Z.of_nat (length all)) (q_limit q) |}) as Hpage.
  { intros n Hn. unfold list_. cbn [atPage q_page q_limit q_vestingState].
    rewrite (proj2 (Z.ltb_lt 0 n)), (proj2 (Z.ltb_lt 0 (q_limit q))), Z.min_l by (unfold MAX_LIMIT; lia).
    change (selectedRow (atPage q n)) with (selectedRow q).
    assert ((match q_vestingState q with Some v => filterOk (inState v) (js_sort newestFirst (findMany (K := string) (selectedRow q) db))
             | None => Ok (js_sort newestFirst (findMany (K := string) (selectedRow q) db)) end) = Ok all) as ->.
    { unfold all. destruct (q_vestingState q) as [v|].
      - apply filterOk_total. intros r Hr. rewrite js_sort_elem in Hr. apply Hread in Hr. unfold readable in Hr.
        unfold inState, hasState. by destruct (vestingStateOf (stream r)).
      - f_equal. symmetry. by apply filter_all. }
    cbn [mbind result_bind]. by rewrite (mapOk_slice _ _ _ _ _ Hshown). }
  exists all, shown. split; [apply filter_perm, js_sort_perm|]. split; [apply filter_sorted, newestFirst_sorted|]. split; [done|]. split.
  - intros n Hn. rewrite Hpage by done. eexists. split; [reflexivity|]. done.
  - assert (length all = length shown) as -> by (apply mapOk_Forall2, Forall2_length in Hshown; done).
    transitivity (concat (map (λ k, slice (Z.of_nat k * q_limit q) (q_limit q) shown) (seq 0 (Z.to_nat (pagesOf (Z.of_nat (length shown)) (q_limit q)))))).
    + f_equal. apply map_ext. intros k. rewrite Hpage by lia. cbn [items]. f_equal. lia.
    + apply pages_whole. lia.
Qed.

(** One row whose amounts are no integers fails every listing by vesting state. *)
Theorem malformed_row_fails_listing (q : AdminStreamListParams) (db : T) k r v : findUnique k db = Some r → selectedRow q r = true →
  q_vestingState q = Some v → ¬ readable r → ∀ n, ∃ e, list_ (atPage q n) db = Err e.
Proof.
  intros Hk Hs Hv Hr n. unfold list_. cbn [atPage q_vestingState]. rewrite Hv. change (selectedRow (atPage q n)) with (selectedRow q).
  assert (∃ e, inState v r = Err e) as [e He].
  { unfold readable in Hr. unfold inState. destruct (vestingStateOf (stream r)); [by destruct Hr|cbn; eauto]. }
  destruct (filterOk_fails (inState v) (js_sort newestFirst (findMany (K := string) (selectedRow q) db)) r e) as [e' ->]; [|done|cbn; eauto].
  rewrite js_sort_elem, (findMany_elem (K := string)). eauto.
Qed.
End ListingFacts.

(** ** What the cache answers *)

Section CacheFacts.
Context {T R : Type} `{!Table string Stream T, !Kv CachedStreamState R, !KvLaws CachedStreamState R}.

Lemma stateKey_inj a b : cacheKey a = cacheKey b → a = b.
Proof. unfold cacheKey. intros H. by injection H. Qed.

(** The state was read from the table by a request of the run. *)
Definition fetched (w : CacheWorld T R) (es : list (cacheEvent T)) (id : string) (st : CachedStreamState) : Prop :=
  ∃ es1 now es2 s, es = es1 ++ EFetch id now :: es2 ∧ findUnique id (table (cacheRun w es1)) = Some s ∧ st = stateOf now s.
Definition stored (es : list (cacheEvent T)) (t : Z) : Prop := ∃ n now, EStore n true now ∈ es ∧ now ≤ t ≤ now + CACHE_TTL_SECONDS * 1000.

Lemma fetched_snoc w es e id st : fetched w es id st → fetched w (es ++ [e]) id st.
Proof. intros (es1 & now & es2 & s & -> & H1 & H2). exists es1, now, (es2 ++ [e]), s. by rewrite <-app_assoc. Qed.

Lemma stored_snoc es e t : stored es t → stored (es ++ [e]) t.
Proof. intros (n & now & Hin & Ht). exists n, now. set_solver. Qed.

Context (id : string).
Definition served (w : CacheWorld T R) (es : list (cacheEvent T)) : Prop :=
  (∀ st, (id, st) ∈ inFlight (cacheRun w es) → fetched w es id st) ∧
  (∀ st t, Forall (λ e, eventTime e ≤ t) es → kvGet (cacheKey id) t (cache (cacheRun w es)) = Some st → fetched w es id st ∧ stored es t).

Lemma served_store w es n up now id' st : served w es → inFlight (cacheRun w es) !! n = Some (id', st) → ∀ st' t,
  now ≤ t → Forall (λ e, eventTime e ≤ t) es → kvGet (cacheKey id) t (cacheSet up id' st now (cache (cacheRun w es))) = Some st' →
  fetched w es id st' ∧ stored (es ++ [EStore n up now]) t.
Proof.
  intros [H1 H2] Hn st' t Ht Hes Hg. destruct up; cbn [cacheSet] in Hg.
  2: { destruct (H2 st' t Hes Hg) as [Ha Hb]. split; [done|]. by apply stored_snoc. }
  destruct (decide (id' = id)) as [->|Hne].
  - pose proof (kvGet_set_val _ _ _ _ _ _ _ Ht Hg) as ->. split; [by apply H1, (list_elem_of_lookup_2 _ n)|].
    exists n, now. split; [set_solver|]. split; [done|]. apply Z.nlt_ge. intros Hlate.
    rewrite (kvGet_set_late (cacheKey id)) in Hg; [done|lia|exact Hlate].
  - rewrite kvGet_set_ne in Hg by (intros E; apply stateKey_inj in E; done). destruct (H2 st' t Hes Hg) as [Ha Hb].
    split; [done|]. by apply stored_snoc.
Qed.

Lemma served_snoc w es e : served w es → served w (es ++ [e]).
Proof.
  intros Hs. pose proof Hs as [H1 H2]. unfold served, cacheRun. rewrite foldl_app. cbn [foldl]. fold (cacheRun w es).
  assert (∀ (c : R) , (∀ st t, Forall (λ e, eventTime e ≤ t) es → eventTime e ≤ t → kvGet (cacheKey id) t c = Some st →
      fetched w es id st ∧ stored (es ++ [e]) t) →
    ∀ st t, Forall (λ e, eventTime e ≤ t) (es ++ [e]) → kvGet (cacheKey id) t c = Some st → fetched w (es ++ [e]) id st ∧ stored (es ++ [e]) t) as Hlift.
  { intros c Hc st t [Ht Hte%Forall_inv]%Forall_app Hg.
    destruct (Hc st t Ht Hte Hg). split; [by apply fetched_snoc|done]. }
  assert (∀ st, (id, st) ∈ inFlight (cacheRun w es) → fetched w (es ++ [e]) id st) as Hf by (intros; by apply fetched_snoc, H1).
  assert (∀ st t, Forall (λ e, eventTime e ≤ t) es → eventTime e ≤ t → kvGet (cacheKey id) t (cache (cacheRun w es)) = Some st →
      fetched w es id st ∧ stored (es ++ [e]) t) as Hsame.
  { intros st t Ht _ Hg. destruct (H2 st t Ht Hg). split; [done|]. by apply stored_snoc. }
  destruct e as [id' now|n up now|id' up now|f now]; cbn [cacheStep].
  - destruct (findUnique id' (table (cacheRun w es))) as [s|] eqn:Es; [|by split; [|apply Hlift]].
    split; cbn [inFlight cache]; [|by apply Hlift]. intros st [Hin|Hin%list_elem_of_singleton]%elem_of_app; [by apply Hf|].
    injection Hin as -> ->. exists es, now, [], s. done.
  - destruct (inFlight (cacheRun w es) !! n) as [[id' st]|] eqn:En; [|by split; [|apply Hlift]]. split; cbn [inFlight cache].
    + intros st' Hin. apply Hf. apply list_elem_of_lookup in Hin as [i Hi]. rewrite list_lookup_delete in Hi.
      case_decide; by eapply list_elem_of_lookup_2.
    + apply Hlift. intros st' t Ht Hte Hg. by eapply served_store.
  - split; cbn [inFlight cache]; [done|]. apply Hlift. intros st t Ht Hte Hg. destruct up; cbn [invalidateStreamCache] in Hg; [|by apply Hsame].
    destruct (decide (id' = id)) as [->|Hne]; [by rewrite kvGet_del in Hg|].
    rewrite kvGet_del_ne in Hg by (intros E; apply stateKey_inj in E; done). by apply Hsame.
  - split; cbn [inFlight cache]; [done|]. by apply Hlift.
Qed.

(** C31: once the cached state of a stream is invalidated while no request is about to
    store one, and whatever requests, writes and invalidations follow in whatever order,
    every answer from the cache is the row as a later request read it, and it was stored
    at most a minute ago. *)
Theorem cache_served (w : CacheWorld T R) t0 (es : list (cacheEvent T)) st t : (∀ st, (id, st) ∉ inFlight w) →
  Forall (λ e, eventTime e ≤ t) es →
  let w0 := cacheStep w (EInvalidate id true t0) in
  cacheGet true id t (cache (cacheRun w0 es)) = Some st → fetched w0 es id st ∧ stored es t.
Proof.
  intros Hi Ht w0 Hg. assert (served w0 es) as [_ H]; [|by eapply H].
  clear Ht Hg. induction es as [|e es IH] using rev_ind; [|by apply served_snoc].
  split; cbn; [intros ??; by destruct (Hi st0)|]. intros ?? _. by rewrite kvGet_del.
Qed.
End CacheFacts.

(** ** The clawback preview *)

Section PreviewFacts.
Context {T R : Type} `{!Table string Stream T, !TableLaws string Stream T, !StreamClawback.Redis R, !StreamClawback.RedisLaws R}.

Lemma requireActionable_Ok (db : T) id allowed what s : Streams.requireActionableStream db id allowed what = Ok s ↔
  findUnique id db = Some s ∧ Streams.status s ∈ allowed ∧ Streams.lockedAt s = None.
Proof.
  unfold Streams.requireActionableStream, Streams.getStreamOrThrow, Streams.assertStatusAllowed, Streams.assertNotLocked, throwIf.
  destruct (findUnique id db) as [s'|]; cbn; [|by split; [|intros (? & _)]].
  destruct (bool_decide (Streams.status s' ∈ allowed)) eqn:Ha; cbn; zb.
  - case_bool_decide as Hl; cbn; split.
    + done.
    + intros ([= <-] & _ & Hn). rewrite Hn in Hl. by destruct Hl.
    + intros [= <-]. split_and!; [done|done|]. destruct (Streams.lockedAt s'); [by destruct Hl|done].
    + by intros ([= <-] & _).
  - split; [done|]. intros ([= <-] & ? & _). done.
Qed.

Lemma previewOf_Ok (db : T) id amount p : previewOf db id amount = Ok p ↔ ∃ s a u,
  findUnique id db = Some s ∧ Streams.status s ∈ Streams.LIVE_STATUSES ∧ Streams.lockedAt s = None ∧
  BigInt_string amount = Some a ∧ BigInt_string (Streams.unclaimed s) = Some u ∧ 0 < a ≤ u ∧
  p = {| remainingVested := Streams.unclaimed s; requestedClawback := amount; postClawbackBalance := toString (u - a) |}.
Proof.
  unfold previewOf. rewrite bind_Ok. setoid_rewrite requireActionable_Ok. unfold Streams.bigInt. split.
  - intros (s & (Hs & Hst & Hl) & Hrun). destruct (BigInt_string amount) as [a|] eqn:Ea; [|done]. cbn in Hrun.
    unfold throwIf at 1 in Hrun. destruct (Z.leb_spec a 0); [done|]. cbn in Hrun. destruct (BigInt_string (Streams.unclaimed s)) as [u|] eqn:Eu; [|done]. cbn in Hrun.
    unfold throwIf in Hrun. destruct (Z.ltb_spec u a); [done|]. cbn in Hrun. injection Hrun as <-. exists s, a, u. split_and!; (done || lia).
  - intros (s & a & u & Hs & Hst & Hl & -> & Hu & Ha & ->). exists s. split; [done|]. cbn. unfold throwIf.
    rewrite (proj2 (Z.leb_gt _ _)) by lia. cbn. rewrite Hu. cbn. by rewrite (proj2 (Z.ltb_ge _ _)) by lia.
Qed.

Lemma removeFrom_addTo id active : ¬ id ∈ active → StreamClawback.removeFrom id (StreamClawback.addTo id active) = active.
Proof.
  intros Hn. unfold StreamClawback.addTo, StreamClawback.has, StreamClawback.removeFrom. rewrite bool_decide_false by done.
  rewrite List.filter_app. cbn. rewrite bool_decide_true by done. cbn. rewrite app_nil_r.
  induction active as [|x l IH]; cbn; [done|]. rewrite bool_decide_false by set_solver. cbn. by rewrite IH by set_solver.
Qed.

(** A clawback is previewed exactly for a live, unlocked stream that no other
    operation of the process holds, with Redis ready, and for a positive amount within
    its unclaimed balance; the preview then adds up, and whatever the answer, the
    process is left holding what it held before. *)
Theorem preview_spec ready reachable active (redis : R) (db : T) id amount now :
  let '(active', _, r) := clawbackPreview ready reachable active redis db id amount now in
  active' = active ∧
  (isOk r = true ↔ ¬ id ∈ active ∧ ready = true ∧ ∃ s a u, findUnique id db = Some s ∧ Streams.status s ∈ Streams.LIVE_STATUSES ∧
     Streams.lockedAt s = None ∧ BigInt_string amount = Some a ∧ BigInt_string (Streams.unclaimed s) = Some u ∧ 0 < a ≤ u) ∧
  (∀ p, r = Ok p → ∃ a u post, BigInt_string (requestedClawback p) = Some a ∧ BigInt_string (remainingVested p) = Some u ∧
     BigInt_string (postClawbackBalance p) = Some post ∧ requestedClawback p = amount ∧ a + post = u ∧ 0 ≤ post).
Proof.
  unfold clawbackPreview, StreamClawback.acquire. destruct (StreamClawback.has id active) eqn:Hh.
  { unfold StreamClawback.has in Hh. zb. split_and!; [done| |done]. split; [done|by intros (? & _)]. }
  unfold StreamClawback.has in Hh. zb. destruct ready; cbn [negb].
  2: { split_and!; [done| |done]. split; [done|by intros (_ & ? & _)]. }
  unfold StreamClawback.release. split; [by apply removeFrom_addTo|]. split.
  - rewrite isOk_true. setoid_rewrite previewOf_Ok. split.
    + intros (p & s & a & u & ? & ? & ? & ? & ? & ? & _). eauto 12.
    + intros (_ & _ & s & a & u & ? & ? & ? & ? & ? & ?). exists {| remainingVested := Streams.unclaimed s; requestedClawback := amount; postClawbackBalance := toString (u - a) |}, s, a, u. done.
  - intros p (s & a & u & _ & _ & _ & Ha & Hu & ? & ->)%previewOf_Ok. exists a, u, (u - a). cbn. split_and!; try done; try lia.
    apply BigInt_toString.
Qed.

(** The preview deletes the lock that another process holds on the stream: the lock is
    taken without looking at the answer of Redis and released without asking whose it is. *)
Theorem preview_frees_foreign_lock (other active : list string) (redis redis' : R) other' (db : T) id amount t0 now t :
  StreamClawback.acquireAsync true other redis id t0 = (other', redis', Ok tt) → t0 ≤ now < t0 + StreamClawback.REDIS_CLAWBACK_TTL_SECONDS → ¬ id ∈ active →
  StreamClawback.redisGet (StreamClawback.redisKey id) now redis' = true ∧
  StreamClawback.redisGet (StreamClawback.redisKey id) t (clawbackPreview true true active redis' db id amount now).1.2 = false.
Proof.
  intros Ha Hnow Hn. split.
  - unfold StreamClawback.acquireAsync in Ha. destruct (StreamClawback.has id other); [done|]. cbn [negb] in Ha.
    pose proof (StreamClawback.set_nx (StreamClawback.redisKey id) StreamClawback.REDIS_CLAWBACK_TTL_SECONDS t0 redis) as Hnx.
    destruct (StreamClawback.redisSet _ _ t0 redis) as [ok rd] eqn:Es. destruct ok; [|done]. injection Ha as _ <-. cbn in Hnx.
    change rd with (true, rd).2. rewrite <-Es. apply StreamClawback.set_holds; [|done]. by destruct (StreamClawback.redisGet _ t0 redis).
  - unfold clawbackPreview, StreamClawback.acquire, StreamClawback.has. rewrite bool_decide_false by done. cbn. apply StreamClawback.del_gone.
Qed.
End PreviewFacts.

(** ** Terminations that fail half way *)

Section TerminateFacts.
Context {T : Type} `{!Table string Stream T, !TableLaws string Stream T}.
Abbreviation DB := (Streams.StreamDb (T := T)).

(** A termination whose audit record cannot be written has already terminated the stream,
    but the administrator is told that the network failed and may retry, and the signed
    transaction is gone: the retry is refused with 409. *)
Theorem audit_failure_loses_signature sign threshold windowMs (db : DB) windows input xdr now s signed :
  findUnique (Streams.in_streamId input) (Streams.streams db) = Some s → Streams.status s ∈ Streams.LIVE_STATUSES → Streams.lockedAt s = None →
  xdr ≠ ""%string → sign xdr = Ok signed →
  let '(db', _, windows', r) := terminateRoute sign false (λ d, d) (λ d, d) threshold windowMs db windows input (Some xdr) now in
  (∃ e, r = inr (ErrorMapping.TApp e) ∧ ErrorMapping.statusCode e = 502 ∧ ErrorMapping.code e = "SUBMISSION_NETWORK_ERROR"%string ∧
     ErrorMapping.retryable e = Some true) ∧
  ∀ auditOk now' windows'', ∃ ns w e, terminateRoute sign auditOk (λ d, d) (λ d, d) threshold windowMs db' windows'' input (Some xdr) now' =
    (db', ns, w, inr (ErrorMapping.TApp e)) ∧ ErrorMapping.statusCode e = 409.
Proof.
  intros Hs Hst Hl Hx Hsig. unfold terminateRoute at 1. unfold Streams.getStreamOrThrow. rewrite Hs. cbn [mbind result_bind].
  unfold Streams.assertNotLocked, throwIf. rewrite bool_decide_false by (rewrite Hl; by intros [? ?]).
  unfold Streams.terminate at 1. rewrite Hs. rewrite (bool_decide_true (_ ∈ Streams.TERMINABLE_STATUSES)) by exact Hst. cbn [negb].
  assert (Streams.signOptional sign (Some xdr) = Ok (Some signed)) as Hso.
  { unfold Streams.signOptional. destruct xdr; [done|]. by rewrite Hsig. }
  rewrite Hso. cbn beta. destruct (Streams.updateAndAudit_spec db input Streams.ADMIN_ACTION_STREAM_TERMINATE
    (Streams.setTerminated now (Streams.adminAddress input) (Streams.reason input)) false s Hs) as (db' & -> & Hrow & _).
  cbn [Streams.failed]. unfold terminateError. assert (hasTx (Some xdr) = true) as -> by (by destruct xdr).
  unfold hasStatus. cbn [Errors.statusOf]. rewrite !bool_decide_false by done. cbn [andb negb orb].
  destruct (recordAdminSorobanTxFailure _ _ _ _ _) as [windows' alert]. split.
  - eexists. split; [reflexivity|]. vm_compute. done.
  - intros auditOk now' windows''. unfold terminateRoute, Streams.getStreamOrThrow. rewrite Hrow. cbn [mbind result_bind].
    unfold Streams.assertNotLocked, throwIf. rewrite bool_decide_false by (cbn; rewrite Hl; by intros [? ?]).
    unfold Streams.terminate. rewrite Hrow. cbn [Streams.status Streams.setTerminated]. rewrite bool_decide_false by (unfold Streams.TERMINABLE_STATUSES; set_solver).
    cbn. unfold terminateError, hasStatus. cbn. rewrite (bool_decide_false (Some 409 = Some 404)), (bool_decide_true (Some 409 = Some 409)) by done.
    cbn [orb negb]. rewrite andb_false_r. eauto.
Qed.
End TerminateFacts.

(** ** The failure monitor *)

Section Monitor.
Context (threshold windowMs : Z).
Notation record := (recordAdminSorobanTxFailure threshold windowMs).

(** The alerts of a run of failures: endpoint, and the count it reports. *)
Fixpoint failures (windows : Windows) (fs : list (string * Z)) : Windows * list (string * Z) :=
  match fs with
  | [] => (windows, [])
  | (endpoint, now) :: fs =>
      let '(windows', alert) := record endpoint now windows in
      let '(windows'', alerts) := failures windows' fs in
      (windows'', match alert with Some n => [(endpoint, n)] | None => [] end ++ alerts)
  end.

Definition counted (windows : Windows) (endpoint : string) : Z := match windows !! endpoint with Some e => count e | None => 0 end.
Definition belowThreshold (windows : Windows) : Prop := ∀ endpoint, 0 ≤ counted windows endpoint < threshold.
Definition times {B} (endpoint : string) (l : list (string * B)) : Z := Z.of_nat (length (List.filter (λ x, bool_decide (fst x = endpoint)) l)).

Lemma times_app {B} endpoint (l k : list (string * B)) : times endpoint (l ++ k) = times endpoint l + times endpoint k.
Proof. unfold times. rewrite List.filter_app, length_app. lia. Qed.
Lemma times_one {B} endpoint x (b : B) : times endpoint [(x, b)] = if bool_decide (x = endpoint) then 1 else 0.
Proof. unfold times. cbn. by case_bool_decide. Qed.

Lemma record_step endpoint now windows : belowThreshold windows →
  let '(windows', alert) := record endpoint now windows in
  belowThreshold windows' ∧ (∀ k, k ≠ endpoint → windows' !! k = windows !! k) ∧
  counted windows' endpoint + threshold * (if alert then 1 else 0) ≤ counted windows endpoint + 1 ∧ (∀ n, alert = Some n → n = threshold).
Proof.
  intros Hb. unfold recordAdminSorobanTxFailure. pose proof (Hb endpoint) as He. unfold counted in He.
  set (entry := windowAt windowMs endpoint now windows).
  assert (0 ≤ count entry ≤ counted windows endpoint ∧ count entry < threshold) as [H1 H2].
  { unfold entry, windowAt, counted. destruct (windows !! endpoint) as [e|]; cbn; [case_ifs; cbn|]; lia. }
  assert (∀ x (w : Windows), (∀ k, k ≠ endpoint → w !! k = windows !! k) → w !! endpoint = Some x → 0 ≤ count x < threshold → belowThreshold w) as Hnew.
  { intros x w Ho Hx Hc k. unfold counted. destruct (decide (k = endpoint)) as [->|Hne]; [by rewrite Hx|]. rewrite Ho by done. apply Hb. }
  assert (∀ x k, k ≠ endpoint → (<[endpoint := x]> windows : Windows) !! k = windows !! k) as Ho by (intros x k Hne; by rewrite lookup_insert_ne).
  destruct (Z.leb_spec threshold (count entry + 1)); split_and!; try apply Ho.
  - eapply (Hnew _ _ (Ho _)); [apply lookup_insert_eq|]. cbn. lia.
  - unfold counted at 1. rewrite lookup_insert_eq. cbn. lia.
  - intros n [= <-]. lia.
  - eapply (Hnew _ _ (Ho _)); [apply lookup_insert_eq|]. cbn. lia.
  - unfold counted at 1. rewrite lookup_insert_eq. cbn. lia.
  - done.
Qed.

(** An alert reports exactly the threshold of failures, and no failure is counted for
    two alerts of its endpoint. *)
Theorem alerts_bounded windows fs : belowThreshold windows →
  let '(windows', alerts) := failures windows fs in
  belowThreshold windows' ∧ (∀ endpoint n, (endpoint, n) ∈ alerts → n = threshold) ∧
  ∀ endpoint, threshold * times endpoint alerts + counted windows' endpoint ≤ counted windows endpoint + times endpoint fs.
Proof.
  revert windows. induction fs as [|[endpoint now] fs IH]; intros windows Hb; cbn [failures].
  { split_and!; [done|by intros ?? ?%elem_of_nil|]. intros endpoint. unfold times. cbn. lia. }
  pose proof (record_step endpoint now windows Hb) as Hstep. destruct (record endpoint now windows) as [w1 alert]. destruct Hstep as (Hb1 & Ho & Hc & Hn).
  specialize (IH w1 Hb1). destruct (failures w1 fs) as [w2 alerts]. destruct IH as (Hb2 & Hn2 & Hc2). split_and!; [done| |].
  - intros x n [Hin|Hin]%elem_of_app; [|by eapply Hn2]. destruct alert; [|by apply elem_of_nil in Hin].
    apply list_elem_of_singleton in Hin as [= -> ->]. by apply Hn.
  - intros x. specialize (Hc2 x). change ((endpoint, now) :: fs) with ([(endpoint, now)] ++ fs). rewrite !times_app, times_one.
    case_bool_decide as Hx.
    + subst x. destruct alert; [rewrite times_one, bool_decide_true by done|change (times endpoint ([] : list (string * Z))) with 0]; lia.
    + assert (counted w1 x = counted windows x) as Hcx by (unfold counted; by rewrite Ho by done).
      destruct alert; [rewrite times_one, bool_decide_false by done|change (times x ([] : list (string * Z))) with 0]; lia.
Qed.

Lemma record_known endpoint t w k start : w !! endpoint = Some {| count := k; windowStart := start |} → t - start ≤ windowMs →
  record endpoint t w = if threshold <=? k + 1 then (<[endpoint := {| count := 0; windowStart := t |}]> w, Some (k + 1))
                        else (<[endpoint := {| count := k + 1; windowStart := start |}]> w, None).
Proof. intros Hk Ht. unfold recordAdminSorobanTxFailure, windowAt. rewrite Hk. cbn [windowStart]. by rewrite (proj2 (Z.ltb_ge _ _)) by lia. Qed.
Lemma record_new endpoint t w : w !! endpoint = None → 1 < threshold →
  record endpoint t w = (<[endpoint := {| count := 1; windowStart := t |}]> w, None).
Proof. intros Hk Ht. unfold recordAdminSorobanTxFailure, windowAt. rewrite Hk. cbn [count windowStart]. by rewrite (proj2 (Z.leb_gt _ _)) by lia. Qed.

(** As many failures as the threshold within one window raise the alert, at the last. *)
Theorem burst_alerts windows endpoint now ts : windows !! endpoint = None → 1 < threshold → Z.of_nat (length ts) + 1 = threshold →
  Forall (λ t, t - now ≤ windowMs) ts →
  (failures windows (map (λ t, (endpoint, t)) (now :: ts))).2 = [(endpoint, threshold)].
Proof.
  intros Hw Ht Hlen Hts. cbn [map failures]. rewrite record_new by done.
  assert (∀ k (w : Windows), w !! endpoint = Some {| count := k; windowStart := now |} → k + Z.of_nat (length ts) = threshold → ts ≠ [] →
    (failures w (map (λ t, (endpoint, t)) ts)).2 = [(endpoint, threshold)]) as Hgo.
  { clear Hw Hlen. induction Hts as [|t ts Hle Hts IH]; intros k w Hk Hsum Hne; [done|]. cbn [map failures].
    rewrite (record_known _ _ _ _ _ Hk Hle). cbn [length] in Hsum. destruct ts as [|t' ts].
    - rewrite (proj2 (Z.leb_le _ _)) by (cbn in Hsum; lia). cbn. cbn in Hsum. by replace (k + 1) with threshold by lia.
    - rewrite (proj2 (Z.leb_gt _ _)) by (cbn [length] in Hsum; lia).
      specialize (IH (k + 1) (<[endpoint := {| count := k + 1; windowStart := now |}]> w)).
      destruct (failures _ (map _ (t' :: ts))) as [w' alerts]. cbn [snd app] in *. apply IH; [apply lookup_insert_eq|lia|done]. }
  specialize (Hgo 1 (<[endpoint := {| count := 1; windowStart := now |}]> windows)).
  destruct (failures _ (map _ ts)) as [w' alerts]. cbn [snd app] in *. apply Hgo; [apply lookup_insert_eq|lia|].
  intros ->. cbn in Hlen. lia.
Qed.
End Monitor.

(** ** Concrete runs *)

Definition sampleStream (id claimed : string) (st : StreamStatus) : Stream :=
  {| Streams.streamId := id; Streams.recipient := "GR"; Streams.totalVested := "100"; Streams.claimed := claimed; Streams.unclaimed := "60";
     Streams.pendingClawback := "0"; Streams.status := st; Streams.terminatedAt := None; Streams.terminatedBy := None; Streams.terminationReason := None;
     Streams.adminTags := []; Streams.lockedAt := None; Streams.lockedBy := None; Streams.lockReason := None |}.
Definition sampleRow (id claimed : string) (at_ : Z) : StreamRow := {| stream := sampleStream id claimed ACTIVE; createdAt := at_; updatedAt := at_ |}.
Definition sampleRows : gmap string StreamRow :=
  {[ "a" := sampleRow "a" "0" 1; "b" := sampleRow "b" "40" 2; "c" := sampleRow "c" "100" 3; "d" := sampleRow "d" "7" 4 ]}%string.
Definition sampleStreams : gmap string Stream := {[ "a" := sampleStream "a" "0" ACTIVE ]}%string.
Definition CacheMap : Type := gmap string (entry CachedStreamState).
Definition sampleWorld : CacheWorld (gmap string Stream) CacheMap := {| table := sampleStreams; cache := ∅; inFlight := [] |}.
Definition terminateA (t : gmap string Stream) : gmap string Stream := alter (Streams.setTerminated 20 "GADMIN" None) "a"%string t.

(** A request that read the row before a termination stores it after the invalidation:
    for a minute the administrators see the terminated stream as active. *)
Example stale_after_termination :
  let w := cacheRun sampleWorld [EFetch "a" 10; ECommit terminateA 20; EInvalidate "a" true 30; EStore 0 true 40] in
  c_status <$> (cacheGet true "a" 60000 (cache w)) = Some ACTIVE ∧ Streams.status <$> (table w !! "a"%string : option Stream) = Some TERMINATED.
Proof. vm_compute. done. Qed.

(** Nothing is stored by a suspension, so it can be repeated and never be undone. *)
Example suspended_twice :
  isOk (suspend sampleStreams "a" "GADMIN" None 10) = true ∧ isOk (suspend sampleStreams "a" "GADMIN" None 11) = true ∧
  isOk (resume sampleStreams "a" "GADMIN" None 12) = false.
Proof. vm_compute. done. Qed.

(** A burst that begins at the end of a window is not seen: eight failures in three
    seconds, with a threshold of five in five minutes. *)
Example split_burst_unseen :
  (failures 5 300000 ∅ (map (λ t, ("stream_terminate"%string, t)) [0; 299000; 299001; 299002; 300001; 300002; 300003; 300004])).2 = [].
Proof. vm_compute. done. Qed.

Definition vestingPage (n : Z) : AdminStreamListParams :=
  {| q_page := n; q_limit := 1; q_status := Some ACTIVE; q_vestingState := Some vesting; q_adminTag := None |}.
Example vesting_pages :
  match list_ (vestingPage 1) sampleRows, list_ (vestingPage 2) sampleRows with
  | Ok p, Ok p' => map s_streamId (items p) = ["d"%string] ∧ map s_streamId (items p') = ["b"%string] ∧ p_totalPages p = 2
  | _, _ => False
  end.
Proof. vm_compute. done. Qed.

Lemma sampleRows_readable k r : findUnique k sampleRows = Some r → readable r.
Proof.
  intros Hk. cbn [findUnique gmapTable] in Hk. unfold sampleRows in Hk. repeat (apply lookup_insert_Some in Hk as [[<- <-]|[_ Hk]]; [reflexivity|]).
  apply lookup_singleton_Some in Hk as [<- <-]. reflexivity.
Qed.

Lemma stream_pages_witness : ∃ all shown, all ≡ₚ List.filter (hasState (Some vesting)) (findMany (K := string) (selectedRow (vestingPage 1)) sampleRows) ∧
  mapOk toSummary all = Ok shown ∧ ∃ p, list_ (vestingPage 1) sampleRows = Ok p ∧ items p = slice 0 1 shown.
Proof.
  destruct (stream_pages (vestingPage 1) sampleRows ltac:(cbn; lia) sampleRows_readable) as (all & shown & Hp & _ & Hm & Hpage & _).
  exists all, shown. split; [exact Hp|]. split; [exact Hm|]. destruct (Hpage 1 ltac:(lia)) as (p & Hl & Hi & _). exists p. split; [exact Hl|exact Hi].
Defined.

Lemma cache_served_witness :
  let w0 := cacheStep sampleWorld (EInvalidate "a" true 5) in
  let es := [EFetch "a" 10; ECommit terminateA 20; EStore 0 true 40] in
  let st := stateOf 10 (sampleStream "a" "0" ACTIVE) in
  cacheGet true "a" 50 (cache (cacheRun w0 es)) = Some st ∧ fetched w0 es "a" st ∧ stored es 50.
Proof.
  cbv zeta. split; [vm_compute; reflexivity|].
  apply (cache_served "a" sampleWorld 5).
  - intros st Hin. by apply elem_of_nil in Hin.
  - repeat constructor; cbn; lia.
  - vm_compute. reflexivity.
Defined.

Lemma preview_spec_witness : ∃ p, (clawbackPreview true true [] (∅ : gmap string Z) sampleStreams "a" "25" 10).2 = Ok p ∧ postClawbackBalance p = "35"%string ∧
  ∃ a u post, BigInt_string (requestedClawback p) = Some a ∧ BigInt_string (remainingVested p) = Some u ∧ BigInt_string (postClawbackBalance p) = Some post ∧ a + post = u.
Proof.
  pose proof (preview_spec true true [] (∅ : gmap string Z) sampleStreams "a" "25" 10) as H.
  assert (∃ p, (clawbackPreview true true [] (∅ : gmap string Z) sampleStreams "a" "25" 10).2 = Ok p ∧ postClawbackBalance p = "35"%string) as (p & Hp & H35)
    by (vm_compute; eexists; split; reflexivity).
  exists p. split; [exact Hp|]. split; [exact H35|]. destruct (clawbackPreview _ _ _ _ _ _ _ _) as [[a r] res]. cbn [snd] in Hp. subst res.
  destruct H as (_ & _ & H). destruct (H p eq_refl) as (x & u & post & H1 & H2 & H3 & _ & H4 & _). exists x, u, post. split_and!; assumption.
Defined.

Lemma alerts_bounded_witness : (failures 2 1000 ∅ [("x"%string, 1); ("x"%string, 2); ("x"%string, 3)]).2 = [("x"%string, 2)] ∧
  2 * times "x" (failures 2 1000 ∅ [("x"%string, 1); ("x"%string, 2); ("x"%string, 3)]).2 ≤ 3.
Proof.
  pose proof (alerts_bounded 2 1000 ∅ [("x"%string, 1); ("x"%string, 2); ("x"%string, 3)]) as H. split; [vm_compute; reflexivity|].
  assert (belowThreshold 2 ∅) as Hb by (intros e; unfold counted; rewrite lookup_empty; lia). specialize (H Hb).
  destruct (failures 2 1000 ∅ _) as [w alerts]. destruct H as (Hw & _ & H). specialize (H "x"%string). specialize (Hw "x"%string). cbn [snd].
  change (counted ∅ "x") with 0 in H. change (times "x" [("x"%string, 1); ("x"%string, 2); ("x"%string, 3)]) with 3 in H. lia.
Defined.
