(* ===== verification/AppRoutes.v ===== *)
(** * The assembly of the application: [app.ts]

    The layers [createApp] registers, in order, from the health routers to the
    dead-letter router. Express is not part of the program: [serve] is an argument, with
    its documented rule that layers are tried in the order of their registration, that a
    layer sees the requests under its path with that path taken off, and that the first
    handler that answers ends the request. What the routers themselves answer is an
    argument too; the gates are those of [Middleware], [AuthHelper] and [AdminGate]. *)

From S2P Require Import Prelude JsString Middleware.
From S2P Require Auth AuthHelper.

Inductive Answer : Type := Status (s : Z) | Served (router : string) (s : Z).

Definition Handler : Type := HttpRequest → option Answer.
Record Layer : Type := { mount : string; handlers : list Handler }.

(** A path is matched ignoring case, and at a slash. *)
Definition under (m p : string) : bool :=
  bool_decide (toLowerCase p = toLowerCase m) || startsWith (toLowerCase m +:+ "/") (toLowerCase p).
Fixpoint dropChars (n : nat) (s : string) : string := match n, s with S n, String _ s => dropChars n s | _, _ => s end.
Definition seenBy (m : string) (r : HttpRequest) : HttpRequest :=
  {| path := dropChars (strlen m) (path r); method := method r; authorization := authorization r; cookie := cookie r; csrfHeader := csrfHeader r |}.

Fixpoint firstAnswer (hs : list Handler) (r : HttpRequest) : option Answer :=
  match hs with [] => None | h :: hs => match h r with Some a => Some a | None => firstAnswer hs r end end.
Definition layerAnswer (l : Layer) (r : HttpRequest) : option Answer :=
  if under (mount l) (path r) then firstAnswer (handlers l) (seenBy (mount l) r) else None.

Definition gateAnswer (g : Gate) : option Answer := match g with Next => None | Refuse s => Some (Status s) | ThrownError => Some (Status 500) end.

Section App.
Context (ADMIN_ROUTES_ENABLED : bool) (decodeURIComponent : string → option string) (validateFn : string → result Auth.exn Auth.JWTPayload).
Context (admin : Handler) (routes : string → Handler).

Definition featureGate : Handler := λ r, gateAnswer (adminFeatureGate ADMIN_ROUTES_ENABLED (path r)).
Definition csrf : Handler := λ r, gateAnswer (csrfProtection decodeURIComponent r).
Definition auth : Handler := λ r, match AuthHelper.authMiddleware validateFn (authorization r) with inl _ => None | inr (s, _) => Some (Status s) end.

(** [router.use(authMiddleware, adminMiddleware)] and the routes behind it. *)
Definition guardedRouter (name : string) : list Handler := [auth; admin; routes name].
Definition gated (hs : list Handler) : list Handler := featureGate :: csrf :: hs.

Definition beforePayouts : list Layer :=
  [ {| mount := "/health"; handlers := [routes "health"] |};
    {| mount := "/health"; handlers := [routes "healthDetail"] |};
    {| mount := "/api/v1"; handlers := [routes "publicApi"] |};
    {| mount := ""; handlers := [routes "publicApi"] |};
    {| mount := ""; handlers := gated [routes "adminFeatures"] |};
    {| mount := ""; handlers := gated [routes "adminAudit"] |};
    {| mount := ""; handlers := gated [routes "adminContract"] |};
    {| mount := ""; handlers := gated [routes "adminAuth"] |};
    {| mount := ""; handlers := gated [routes "adminTradeBatch"] |} ].
Definition afterPayouts : list Layer :=
  [ {| mount := "/api"; handlers := gated [routes "adminStreams"] |};
    {| mount := "/webhooks/inbound"; handlers := [routes "inboundWebhooks"] |};
    {| mount := "/webhooks"; handlers := [routes "webhooks"] |};
    {| mount := ""; handlers := gated [routes "outbox"] |};
    {| mount := "/health"; handlers := [routes "jobHealth"] |};
    {| mount := ""; handlers := gated (guardedRouter "adminDlq") |} ].
Definition createApp : list Layer := beforePayouts ++ {| mount := ""; handlers := gated (guardedRouter "adminPayouts") |} :: afterPayouts.

Section Serving.
Context (serve : list Layer → HttpRequest → option Answer).
Context (serve_layer : ∀ l ls r, serve (l :: ls) r = match layerAnswer l r with Some a => Some a | None => serve ls r end).

Lemma serve_app ls ls' r : (∀ l, l ∈ ls → layerAnswer l r = None) → serve (ls ++ ls') r = serve ls' r.
Proof. induction ls as [|l ls IH]; intros H; [done|]. cbn. rewrite serve_layer, H by set_solver. apply IH. set_solver. Qed.

Lemma seenBy_root r : seenBy "" r = r.
Proof. by destruct r. Qed.
Lemma under_root r : under "" (path r) = true ↔ path r = ""%string ∨ ∃ s, toLowerCase (path r) = ("/" +:+ s)%string.
Proof.
  unfold under. rewrite orb_true_iff, bool_decide_eq_true, startsWith_spec. cbn [toLowerCase append].
  destruct (path r); cbn; [naive_solver|]. split; [intros [?|?]; [done|auto]|]. intros [?|?]; [done|auto].
Qed.

(** A request that none of the layers before the payout router answers is answered
    only to administrators: whatever comes after it, inbound webhooks and the job health
    routes included, is served only when the authentication and the admin guard of the
    payout router let it pass. *)
Theorem guarded_after_payouts r a : (∃ s, path r = ("/" +:+ s)%string) → (∀ l, l ∈ beforePayouts → layerAnswer l r = None) →
  serve createApp r = Some a →
  (featureGate r = Some a ∨ csrf r = Some a ∨ auth r = Some a ∨ auth r = None ∧ admin r = Some a) ∨
  (featureGate r = None ∧ csrf r = None ∧ auth r = None ∧ admin r = None).
Proof.
  intros [s Hp] Hb Hs. unfold createApp in Hs. rewrite serve_app in Hs by done. rewrite serve_layer in Hs. unfold layerAnswer in Hs. cbn [mount handlers] in Hs.
  assert (under "" (path r) = true) as Hu.
  { apply under_root. right. rewrite Hp. exists (toLowerCase s). reflexivity. }
  rewrite Hu, seenBy_root in Hs. unfold gated, guardedRouter in Hs. cbn [firstAnswer] in Hs.
  destruct (featureGate r) as [x|]; [left; left; congruence|]. destruct (csrf r) as [x|]; [left; right; left; congruence|].
  destruct (auth r) as [x|]; [left; right; right; left; congruence|]. destruct (admin r) as [x|]; [left; right; right; right; split; congruence|]. by right.
Qed.

(** The providers of webhooks, which sign their requests but have no token, are answered
    401 before the signature guard is reached. *)
Theorem inbound_webhooks_unreachable provider r : path r = ("/webhooks/inbound/" +:+ provider)%string → authorization r = None →
  (∀ l, l ∈ beforePayouts → layerAnswer l r = None) → serve createApp r = Some (Status 401).
Proof.
  intros Hp Ha Hb. unfold createApp. rewrite serve_app by done. rewrite serve_layer. unfold layerAnswer. cbn [mount handlers].
  assert (under "" (path r) = true) as -> by (apply under_root; right; rewrite Hp; eexists; reflexivity).
  rewrite seenBy_root. unfold gated, guardedRouter. cbn [firstAnswer].
  assert (isAdminPath (path r) = false) as Hna by (rewrite Hp; reflexivity).
  assert (featureGate r = None) as -> by (unfold featureGate, adminFeatureGate; by rewrite Hna).
  assert (csrf r = None) as -> by (unfold csrf, csrfProtection, exempt; by rewrite Hna).
  unfold auth. by rewrite Ha.
Qed.

(** The versioned lane and the legacy lane of the public API answer alike: what the
    public router answers to a path outside [/health] and [/api/v1] is the answer with
    and without the version. *)
Theorem lanes_agree r p a : path r = ("/" +:+ p)%string → under "/health" (path r) = false → under "/api/v1" (path r) = false →
  routes "publicApi" r = Some a →
  serve createApp r = Some a ∧
  serve createApp {| path := "/api/v1" +:+ path r; method := method r; authorization := authorization r; cookie := cookie r; csrfHeader := csrfHeader r |} = Some a.
Proof.
  intros Hp Hh Hv Hr. unfold createApp, beforePayouts. cbn [app]. split.
  - rewrite !serve_layer. unfold layerAnswer at 1 2 3. cbn [mount]. rewrite Hh, Hv. unfold layerAnswer. cbn [mount handlers].
    assert (under "" (path r) = true) as -> by (apply under_root; right; rewrite Hp; exists (toLowerCase p); reflexivity).
    rewrite seenBy_root. cbn [firstAnswer]. by rewrite Hr.
  - rewrite !serve_layer. unfold layerAnswer at 1 2. cbn [mount path].
    assert (under "/health" ("/api/v1" +:+ path r) = false) as -> by (rewrite Hp; reflexivity).
    unfold layerAnswer. cbn [mount handlers path].
    assert (under "/api/v1" ("/api/v1" +:+ path r) = true) as ->.
    { unfold under. apply orb_true_iff. right. rewrite Hp. apply startsWith_spec. exists (toLowerCase p). reflexivity. }
    unfold seenBy. cbn [path strlen dropChars append method authorization cookie csrfHeader]. cbn [firstAnswer].
    assert ({| path := dropChars (strlen "/api/v1") ("/api/v1" +:+ path r); method := method r; authorization := authorization r; cookie := cookie r; csrfHeader := csrfHeader r |} = r) as E
      by (destruct r; reflexivity).
    cbn in E. rewrite E. by rewrite Hr.
Qed.
End Serving.
End App.

(** ** Concrete runs *)

Fixpoint inOrder (ls : list Layer) (r : HttpRequest) : option Answer :=
  match ls with [] => None | l :: ls => match layerAnswer l r with Some a => Some a | None => inOrder ls r end end.

Definition sampleRoutes (name : string) : Handler := λ r,
  if bool_decide (name = "jobHealth"%string) && bool_decide (path r = "/jobs"%string) then Some (Served name 200)
  else if bool_decide (name = "publicApi"%string) && bool_decide (path r = "/trades"%string) then Some (Served name 200) else None.
Definition get (p : string) (token : option string) : HttpRequest := {| path := p; method := "GET"; authorization := token; cookie := None; csrfHeader := None |}.
Definition sampleToken (token : string) : result Auth.exn Auth.JWTPayload :=
  if bool_decide (token = "a.b.c"%string) then Ok {| Auth.sub := "gadmin"; Auth.walletAddress := Some "gadmin"; Auth.jti := "j"; Auth.tv := None; Auth.iat := None; Auth.exp := None; Auth.nbf := None;
    Auth.iss := "i"; Auth.aud := "a"; Auth.tier := None; Auth.deviceHash := None; Auth.ipClass := None |}%string else Err (Auth.JwtThrown Auth.JsonWebTokenError).
Definition sampleApp : list Layer := createApp true Some sampleToken (λ _, None) sampleRoutes.

Lemma guarded_after_payouts_witness :
  let r := get "/health/jobs" (Some "Bearer a.b.c") in
  inOrder sampleApp r = Some (Served "jobHealth" 200) ∧ inOrder sampleApp (get "/health/jobs" None) = Some (Status 401) ∧
  (auth sampleToken r = None ∧ (λ _ : HttpRequest, None : option Answer) r = None).
Proof.
  cbv zeta. split; [vm_compute; reflexivity|]. split; [vm_compute; reflexivity|].
  destruct (guarded_after_payouts true Some sampleToken (λ _, None) sampleRoutes inOrder (λ l ls r, eq_refl)
    (get "/health/jobs" (Some "Bearer a.b.c")) (Served "jobHealth" 200)) as [[H|[H|[H|[_ H]]]]|(_ & _ & H)].
  - exists "health/jobs"%string. reflexivity.
  - intros l Hl. unfold beforePayouts in Hl. repeat (apply elem_of_cons in Hl as [->|Hl]; [vm_compute; reflexivity|]). by apply elem_of_nil in Hl.
  - vm_compute. reflexivity.
  - discriminate H.
  - discriminate H.
  - discriminate H.
  - discriminate H.
  - exact H.
Defined.

Lemma lanes_agree_witness : inOrder sampleApp (get "/trades" None) = Some (Served "publicApi" 200) ∧
  inOrder sampleApp (get "/api/v1/trades" None) = Some (Served "publicApi" 200).
Proof.
  exact (lanes_agree true Some sampleToken (λ _, None) sampleRoutes inOrder (λ l ls r, eq_refl)
    (get "/trades" None) "trades" (Served "publicApi" 200) eq_refl eq_refl eq_refl eq_refl).
Defined.
