(* ===== verification/JsText.v ===== *)
(** * Upper case and URI components

    [s.toUpperCase()], [encodeURIComponent] and [decodeURIComponent] on Latin-1 text. A
    code unit from 128 is two bytes of UTF-8; what decodes to a character above 255 is
    outside the strings of this library, and [decodeURIComponent] is [None] there as it is
    where the function throws. *)

From S2P Require Import Prelude JsString.

(** ** Upper case *)

(** [ß] becomes two letters; [µ] and [ÿ], whose capitals are not Latin-1, are kept. *)
Definition upperChar (c : ascii) (r : string) : string :=
  let n := N_of_ascii c in
  if (n =? 223)%N then String "S" (String "S" r)
  else if ((97 <=? n) && (n <=? 122) || (224 <=? n) && (n <=? 246) || (248 <=? n) && (n <=? 254))%N then String (ascii_of_N (n - 32)) r
  else String c r.

Fixpoint toUpperCase (s : string) : string :=
  match s with EmptyString => EmptyString | String c r => upperChar c (toUpperCase r) end.

(** ** Percent encoding *)

Definition hexDigit (n : N) : ascii := if (n <? 10)%N then ascii_of_N (48 + n) else ascii_of_N (55 + n).
Definition hexValue (c : ascii) : option N :=
  let n := N_of_ascii c in
  if ((48 <=? n) && (n <=? 57))%N then Some (n - 48)%N
  else if ((65 <=? n) && (n <=? 70))%N then Some (n - 55)%N
  else if ((97 <=? n) && (n <=? 102))%N then Some (n - 87)%N
  else None.

Definition percentByte (b : N) (r : string) : string := String "%" (String (hexDigit (b / 16)) (String (hexDigit (b mod 16)) r)).

(** Letters, digits and [-_.!~*'()]. *)
Definition unreserved (c : ascii) : bool :=
  let n := N_of_ascii c in
  ((48 <=? n) && (n <=? 57) || (65 <=? n) && (n <=? 90) || (97 <=? n) && (n <=? 122))%N ||
  bool_decide (n ∈ [45; 95; 46; 33; 126; 42; 39; 40; 41]%N).

Definition encodeChar (c : ascii) (r : string) : string :=
  let n := N_of_ascii c in
  if unreserved c then String c r
  else if (n <? 128)%N then percentByte n r
  else percentByte (192 + n / 64) (percentByte (128 + n mod 64) r).

Fixpoint encodeURIComponent (s : string) : string :=
  match s with EmptyString => EmptyString | String c r => encodeChar c (encodeURIComponent r) end.

Definition hexPair (a b : ascii) : option N := x ← hexValue a; y ← hexValue b; Some (16 * x + y)%N.

Fixpoint decodeURIComponent (s : string) : option string :=
  match s with
  | EmptyString => Some EmptyString
  | String "%" (String a (String b r)) =>
      n ← hexPair a b;
      if (n <? 128)%N then String (ascii_of_N n) <$> decodeURIComponent r
      else if ((194 <=? n) && (n <=? 195))%N then
        match r with
        | String "%" (String a (String b r')) =>
            m ← hexPair a b;
            if ((128 <=? m) && (m <=? 191))%N then String (ascii_of_N (64 * (n - 192) + (m - 128))) <$> decodeURIComponent r' else None
        | _ => None
        end
      else None
  | String "%" _ => None
  | String c r => String c <$> decodeURIComponent r
  end.

Lemma decode_encodeChar c r : decodeURIComponent (encodeChar c r) = String c <$> decodeURIComponent r.
Proof. destruct c as [[] [] [] [] [] [] [] []]; reflexivity. Qed.

Lemma decode_encode s : decodeURIComponent (encodeURIComponent s) = Some s.
Proof. induction s as [|c s IH]; [done|]. cbn [encodeURIComponent]. by rewrite decode_encodeChar, IH. Qed.

(** What is encoded has only unreserved characters and per cent signs. *)
Definition uriChar (c : ascii) : bool := unreserved c || Ascii.eqb c "%".
Lemma encodeChar_plain c r : str_forall uriChar (encodeChar c r) = str_forall uriChar r.
Proof. destruct c as [[] [] [] [] [] [] [] []]; reflexivity. Qed.
Lemma encode_plain s : str_forall uriChar (encodeURIComponent s) = true.
Proof. induction s as [|c s IH]; [done|]. cbn [encodeURIComponent]. by rewrite encodeChar_plain. Qed.

Lemma encode_nonempty s : s ≠ ""%string → encodeURIComponent s ≠ ""%string.
Proof. destruct s as [|c s]; [done|]. intros _. cbn. by destruct c as [[] [] [] [] [] [] [] []]. Qed.
