(* ===== verification/Double.v ===== *)
(** * Finite doubles

    A [number] that went through a division or a product is rounded to the nearest
    double. [dbl] is a finite double as an exact fraction with a power of two below,
    and [rnd] the rounding of a fraction; comparison, [Math.floor] and [Math.ceil] are
    exact. Magnitudes stay below the overflow to [Infinity]. *)

From S2P Require Import Prelude JsString JsValue.

Record dbl : Type := { num : Z; den : Z }.

Definition ofInt (z : Z) : dbl := {| num := z; den := 1 |}.

(** The double nearest to the fraction [p / q] of a non-negative and a positive number. *)
Definition rnd (p q : Z) : dbl :=
  if p =? 0 then ofInt 0
  else let k := doubleExponent p q in
       {| num := roundHalfEven (p * 2 ^ Z.max 0 (- k)) (q * 2 ^ Z.max 0 k) * 2 ^ Z.max 0 k; den := 2 ^ Z.max 0 (- k) |}.
(** ... and to one of any sign. *)
Definition rndZ (p q : Z) : dbl := if p <? 0 then {| num := - num (rnd (- p) q); den := den (rnd (- p) q) |} else rnd p q.

Definition dmul (a b : dbl) : dbl := rndZ (num a * num b) (den a * den b).
(** [a / b] for a positive [b] *)
Definition ddiv (a b : dbl) : dbl := rndZ (num a * den b) (den a * num b).
Definition dsub (a b : dbl) : dbl := rndZ (num a * den b - num b * den a) (den a * den b).
Definition dadd (a b : dbl) : dbl := rndZ (num a * den b + num b * den a) (den a * den b).

Definition dleb (a b : dbl) : bool := num a * den b <=? num b * den a.
Definition dle (a b : dbl) : Prop := num a * den b ≤ num b * den a.
Definition dfloor (a : dbl) : Z := num a / den a.
Definition dceil (a : dbl) : Z := - ((- num a) / den a).
(** [Math.round]: the nearest integer, ties up. *)
Definition dround (a : dbl) : Z := (2 * num a + den a) / (2 * den a).

(** ** Rounding to a grid *)

Lemma roundHalfEven_near p q : 0 < q → let n := roundHalfEven p q in
  2 * n * q ≤ 2 * p + q ∧ 2 * p - q ≤ 2 * n * q ∧ ((2 * n - 1) * q = 2 * p ∨ (2 * n + 1) * q = 2 * p → Z.even n = true).
Proof.
  intros Hq n. pose proof (Z.div_mod p q ltac:(lia)) as Hd. pose proof (Z.mod_pos_bound p q Hq) as Hm. unfold n, roundHalfEven.
  set (m := p / q) in *. set (r := p mod q) in *. destruct (Z.ltb_spec (2 * r) q); [split_and!; nia|].
  destruct (Z.ltb_spec q (2 * r)); [split_and!; nia|]. destruct (Z.even m) eqn:E; [split_and!; [nia..|done]|].
  split_and!; [nia..|]. intros _. by rewrite Z.even_add, E.
Qed.

Lemma roundHalfEven_mono p1 q1 p2 q2 : 0 < q1 → 0 < q2 → p1 * q2 ≤ p2 * q1 → roundHalfEven p1 q1 ≤ roundHalfEven p2 q2.
Proof.
  intros H1 H2 Hle. destruct (roundHalfEven_near p1 q1 H1) as (A1 & _ & E1). destruct (roundHalfEven_near p2 q2 H2) as (_ & B2 & E2).
  set (n1 := roundHalfEven p1 q1) in *. set (n2 := roundHalfEven p2 q2) in *. cbv zeta in *.
  destruct (Z.le_gt_cases n1 n2) as [?|Hgt]; [done|exfalso].
  assert ((2 * n1 - 1) * q1 * q2 ≤ (2 * n2 + 1) * q1 * q2) as Hc by nia.
  assert (n1 = n2 + 1) as Hn by nia. subst n1. rewrite Hn in *.
  assert ((2 * (n2 + 1) - 1) * q1 = 2 * p1) as T1 by nia. assert ((2 * n2 + 1) * q2 = 2 * p2) as T2 by nia.
  specialize (E1 (or_introl T1)). specialize (E2 (or_intror T2)). rewrite Z.even_add, E2 in E1. done.
Qed.

Lemma roundHalfEven_1 p : roundHalfEven p 1 = p.
Proof. unfold roundHalfEven. by rewrite Z.div_1_r, Z.mod_1_r. Qed.
Lemma roundHalfEven_ge p q w : 0 < q → w * q ≤ p → w ≤ roundHalfEven p q.
Proof. intros Hq H. pose proof (roundHalfEven_mono w 1 p q ltac:(lia) Hq ltac:(lia)) as Hm. unfold roundHalfEven at 1 in Hm. rewrite Z.div_1_r, Z.mod_1_r in Hm. exact Hm. Qed.
Lemma roundHalfEven_le p q w : 0 < q → p ≤ w * q → roundHalfEven p q ≤ w.
Proof. intros Hq H. pose proof (roundHalfEven_mono p q w 1 Hq ltac:(lia) ltac:(lia)) as Hm. unfold roundHalfEven at 2 in Hm. rewrite Z.div_1_r, Z.mod_1_r in Hm. exact Hm. Qed.

(** ** The exponent *)

Definition up2 (k : Z) : Z := 2 ^ Z.max 0 k.
Definition dn2 (k : Z) : Z := 2 ^ Z.max 0 (- k).
Lemma up2_pos k : 0 < up2 k.
Proof. apply Z.pow_pos_nonneg; lia. Qed.
Lemma dn2_pos k : 0 < dn2 k.
Proof. apply Z.pow_pos_nonneg; lia. Qed.
#[local] Hint Resolve up2_pos dn2_pos : ts.

Lemma shift_exponent k1 k2 : k1 ≤ k2 → up2 k1 * dn2 k2 * 2 ^ (k2 - k1) = up2 k2 * dn2 k1.
Proof. intros H. unfold up2, dn2. rewrite <-!Z.pow_add_r by lia. f_equal. lia. Qed.
Lemma up_dn k : up2 (k + 1) * dn2 k = 2 * (up2 k * dn2 (k + 1)).
Proof. pose proof (shift_exponent k (k + 1) ltac:(lia)) as H. replace (k + 1 - k) with 1 in H by lia. lia. Qed.

Lemma log2_frac p q : 0 < p → 0 < q → let e := Z.log2 p - Z.log2 q in p * dn2 e < 2 * (q * up2 e) ∧ q * up2 e < 2 * (p * dn2 e).
Proof.
  intros Hp Hq e. pose proof (Z.log2_spec p Hp) as [P1 P2]. pose proof (Z.log2_spec q Hq) as [Q1 Q2]. rewrite Z.pow_succ_r in * by apply Z.log2_nonneg.
  pose proof (Z.log2_nonneg p). pose proof (Z.log2_nonneg q).
  assert (2 ^ Z.log2 p * dn2 e = 2 ^ Z.log2 q * up2 e) as E by (unfold dn2, up2, e; rewrite <-!Z.pow_add_r by lia; f_equal; lia).
  pose proof (up2_pos e). pose proof (dn2_pos e). split; nia.
Qed.

(** Comparing a fraction with [c * 2^k] on another grid. *)
Lemma lt_shift p q c k1 k2 : k1 ≤ k2 → p * dn2 k1 < c * 2 ^ (k2 - k1) * (q * up2 k1) ↔ p * dn2 k2 < c * (q * up2 k2).
Proof.
  intros H. pose proof (shift_exponent k1 k2 H) as E. pose proof (dn2_pos k1). pose proof (dn2_pos k2).
  set (d := 2 ^ (k2 - k1)) in *.
  assert (c * d * (q * up2 k1) * dn2 k2 = c * (q * up2 k2) * dn2 k1) as Ec by (transitivity (c * q * (up2 k1 * dn2 k2 * d)); [ring|rewrite E; ring]).
  rewrite (Z.mul_lt_mono_pos_r (dn2 k2)), Ec by done. rewrite (Z.mul_lt_mono_pos_r (dn2 k1) (p * dn2 k2)) by done.
  by replace (p * dn2 k1 * dn2 k2) with (p * dn2 k2 * dn2 k1) by ring.
Qed.

(** The exponent puts the fraction between 2^52 and 2^53, unless it is subnormal. *)
Lemma doubleExponent_range p q : 0 < p → 0 < q → let k := doubleExponent p q in
  p * dn2 k < 2 ^ 53 * (q * up2 k) ∧ (k = -1074 ∨ ¬ p * dn2 k < 2 ^ 52 * (q * up2 k)) ∧ -1074 ≤ k.
Proof.
  intros Hp Hq. unfold doubleExponent. set (e := Z.log2 p - Z.log2 q). destruct (log2_frac p q Hp Hq) as [H1 H2]. fold e in H1, H2.
  apply (lt_shift p q 2 (e - 52) e) in H1; [|lia]. replace (e - (e - 52)) with 52 in H1 by lia.
  assert (¬ p * dn2 (e - 52) < 2 ^ 51 * (q * up2 (e - 52))) as H3.
  { intros Hc. assert (p * dn2 (e - 1) < q * up2 (e - 1)) as Hc'.
    { replace (q * up2 (e - 1)) with (1 * (q * up2 (e - 1))) by lia. apply (lt_shift p q 1 (e - 52) (e - 1)); [lia|]. by replace (e - 1 - (e - 52)) with 51 by lia. }
    pose proof (up_dn (e - 1)) as Hu. replace (e - 1 + 1) with e in Hu by lia. pose proof (dn2_pos (e - 1)). pose proof (dn2_pos e). pose proof (up2_pos e). nia. }
  fold (dn2 (e - 52)) (up2 (e - 52)). destruct (Z.ltb_spec (p * dn2 (e - 52)) (2 ^ 52 * (q * up2 (e - 52)))) as [Hlt|Hge].
  - assert (p * dn2 (e - 52 - 1) < 2 ^ 53 * (q * up2 (e - 52 - 1))) as Hup.
    { pose proof (proj2 (lt_shift p q (2 ^ 52) (e - 52 - 1) (e - 52) ltac:(lia)) Hlt) as H. by replace (e - 52 - (e - 52 - 1)) with 1 in H by lia. }
    assert (¬ p * dn2 (e - 52 - 1) < 2 ^ 52 * (q * up2 (e - 52 - 1))) as Hlo.
    { intros Hc. apply H3. apply (lt_shift p q (2 ^ 51) (e - 52 - 1) (e - 52)); [lia|]. by replace (e - 52 - (e - 52 - 1)) with 1 by lia. }
    destruct (Z.max_spec (e - 52 - 1) (-1074)) as [[Hm ->]|[Hm ->]]; split_and!; try lia; auto.
    apply (lt_shift p q (2 ^ 53) (e - 52 - 1) (-1074)) ; [lia|]. pose proof (up2_pos (e - 52 - 1)). assert (1 ≤ 2 ^ (-1074 - (e - 52 - 1))) by (pose proof (Z.pow_pos_nonneg 2 (-1074 - (e - 52 - 1))); lia). nia.
  - assert (p * dn2 (e - 52) < 2 ^ 53 * (q * up2 (e - 52))) as Hup by (change (2 ^ 53) with (2 * 2 ^ 52); lia).
    destruct (Z.max_spec (e - 52) (-1074)) as [[Hm ->]|[Hm ->]]; split_and!; try lia; auto.
    apply (lt_shift p q (2 ^ 53) (e - 52) (-1074)); [lia|]. pose proof (up2_pos (e - 52)). assert (1 ≤ 2 ^ (-1074 - (e - 52))) by (pose proof (Z.pow_pos_nonneg 2 (-1074 - (e - 52))); lia). nia.
Qed.

(** ** Rounding is monotone, and exact where it can be *)

Lemma rnd_pos p q : p ≠ 0 → rnd p q = let k := doubleExponent p q in {| num := roundHalfEven (p * dn2 k) (q * up2 k) * up2 k; den := dn2 k |}.
Proof. intros H. unfold rnd. by rewrite (proj2 (Z.eqb_neq p 0)) by done. Qed.

Lemma rnd_nonneg p q : 0 ≤ p → 0 < q → 0 ≤ num (rnd p q) ∧ 0 < den (rnd p q).
Proof.
  intros Hp Hq. destruct (Z.eq_dec p 0) as [->|Hne]; [cbn; lia|]. rewrite rnd_pos by done. cbn. set (k := doubleExponent p q).
  pose proof (up2_pos k). pose proof (dn2_pos k). split; [|done]. pose proof (roundHalfEven_ge (p * dn2 k) (q * up2 k) 0 ltac:(nia) ltac:(nia)). nia.
Qed.

Lemma rnd_mono p1 q1 p2 q2 : 0 ≤ p1 → 0 < q1 → 0 < q2 → p1 * q2 ≤ p2 * q1 → dle (rnd p1 q1) (rnd p2 q2).
Proof.
  intros H1 Hq1 Hq2 Hle. assert (0 ≤ p2) as H2 by nia. destruct (Z.eq_dec p1 0) as [->|Hn1].
  { destruct (rnd_nonneg p2 q2 H2 Hq2). unfold dle. cbn. lia. }
  assert (0 < p2) as Hp2 by nia. rewrite !rnd_pos by lia. unfold dle. cbn.
  destruct (doubleExponent_range p1 q1 ltac:(lia) Hq1) as (U1 & L1 & M1). destruct (doubleExponent_range p2 q2 Hp2 Hq2) as (U2 & L2 & M2).
  set (k1 := doubleExponent p1 q1) in *. set (k2 := doubleExponent p2 q2) in *.
  pose proof (up2_pos k1). pose proof (up2_pos k2). pose proof (dn2_pos k1). pose proof (dn2_pos k2).
  destruct (Z.lt_trichotomy k1 k2) as [Hk|[Hk|Hk]].
  - assert (roundHalfEven (p1 * dn2 k1) (q1 * up2 k1) ≤ 2 ^ 53) as N1 by (apply roundHalfEven_le; nia).
    assert (2 ^ 52 ≤ roundHalfEven (p2 * dn2 k2) (q2 * up2 k2)) as N2 by (apply roundHalfEven_ge; [nia|]; destruct L2; lia).
    pose proof (shift_exponent (k1 + 1) k2 ltac:(lia)) as E. pose proof (up_dn k1) as E1. pose proof (Z.pow_pos_nonneg 2 (k2 - (k1 + 1)) ltac:(lia) ltac:(lia)).
    pose proof (up2_pos (k1 + 1)). pose proof (dn2_pos (k1 + 1)).
    assert (2 * (up2 k1 * dn2 k2) ≤ up2 k2 * dn2 k1) as Hs.
    { apply (Zmult_le_reg_r _ _ (dn2 (k1 + 1))); [lia|].
      replace (2 * (up2 k1 * dn2 k2) * dn2 (k1 + 1)) with (2 * (up2 k1 * dn2 (k1 + 1)) * dn2 k2) by ring. rewrite <-E1.
      replace (up2 k2 * dn2 k1 * dn2 (k1 + 1)) with (up2 k2 * dn2 (k1 + 1) * dn2 k1) by ring. rewrite <-E. nia. }
    set (n1 := roundHalfEven _ _) in *. set (n2 := roundHalfEven _ _) in *.
    transitivity (2 ^ 53 * (up2 k1 * dn2 k2)); [nia|]. transitivity (2 ^ 52 * (up2 k2 * dn2 k1)); [change (2 ^ 53) with (2 ^ 52 * 2); nia|]. nia.
  - rewrite <-Hk in *. assert (roundHalfEven (p1 * dn2 k1) (q1 * up2 k1) ≤ roundHalfEven (p2 * dn2 k1) (q2 * up2 k1)) as Hm.
    { apply roundHalfEven_mono; [nia|nia|]. replace (p1 * dn2 k1 * (q2 * up2 k1)) with (p1 * q2 * (dn2 k1 * up2 k1)) by ring.
      replace (p2 * dn2 k1 * (q1 * up2 k1)) with (p2 * q1 * (dn2 k1 * up2 k1)) by ring. nia. }
    rewrite <-!Z.mul_assoc. apply Z.mul_le_mono_nonneg_r; [nia|done].
  - exfalso. destruct L1 as [L1|L1]; [lia|]. apply L1.
    pose proof (proj2 (lt_shift p2 q2 (2 ^ 53) k2 k2 ltac:(lia))) as _.
    assert (p1 * dn2 k2 < 2 ^ 53 * (q1 * up2 k2)) as Hc.
    { apply (Zmult_lt_reg_r _ _ q2); [done|]. apply Z.le_lt_trans with (p2 * dn2 k2 * q1); [nia|]. nia. }
    apply (lt_shift p1 q1 (2 ^ 52) k2 k1); [lia|].
    assert (2 ^ 1 ≤ 2 ^ (k1 - k2)) by (apply Z.pow_le_mono_r; lia). change (2 ^ 53) with (2 ^ 52 * 2 ^ 1) in Hc. nia.
Qed.

Lemma rnd_int z : 0 ≤ z < 2 ^ 53 → num (rnd z 1) = z * den (rnd z 1).
Proof.
  intros Hz. destruct (Z.eq_dec z 0) as [->|Hne]; [done|]. rewrite rnd_pos by done. cbn.
  assert (doubleExponent z 1 ≤ 0) as Hk by (apply doubleExponent_small; lia). set (k := doubleExponent z 1) in *.
  assert (up2 k = 1) as -> by (unfold up2; by rewrite Z.max_l by lia). change (1 * 1) with 1. rewrite roundHalfEven_1. lia.
Qed.

(** Integers below 2^53 bound a rounded fraction as they bound the fraction. *)
Lemma rnd_ge p q w : 0 ≤ p → 0 < q → 0 ≤ w < 2 ^ 53 → w * q ≤ p → w * den (rnd p q) ≤ num (rnd p q).
Proof.
  intros Hp Hq Hw Hle. pose proof (rnd_mono w 1 p q ltac:(lia) ltac:(lia) Hq ltac:(lia)) as H. unfold dle in H. rewrite rnd_int in H by done.
  destruct (rnd_nonneg w 1 ltac:(lia) ltac:(lia)) as [_ Hd]. apply (Zmult_le_reg_r _ _ (den (rnd w 1))); [lia|].
  by replace (w * den (rnd p q) * den (rnd w 1)) with (w * den (rnd w 1) * den (rnd p q)) by ring.
Qed.
Lemma rnd_le p q w : 0 ≤ p → 0 < q → 0 ≤ w < 2 ^ 53 → p ≤ w * q → num (rnd p q) ≤ w * den (rnd p q).
Proof.
  intros Hp Hq Hw Hle. pose proof (rnd_mono p q w 1 Hp Hq ltac:(lia) ltac:(lia)) as H. unfold dle in H. rewrite (rnd_int w) in H by done.
  destruct (rnd_nonneg w 1 ltac:(lia) ltac:(lia)) as [_ Hd]. apply (Zmult_le_reg_r _ _ (den (rnd w 1))); [lia|].
  by replace (w * den (rnd p q) * den (rnd w 1)) with (w * den (rnd w 1) * den (rnd p q)) by ring.
Qed.

(** ** Ceilings and floors of rounded fractions *)

Lemma dceil_ge a w : 0 < den a → w * den a ≤ num a → w ≤ dceil a.
Proof. intros Hd Hw. unfold dceil. pose proof (Z.div_le_upper_bound (- num a) (den a) (- w) Hd ltac:(lia)). lia. Qed.
Lemma dceil_le a w : 0 < den a → num a ≤ w * den a → dceil a ≤ w.
Proof. intros Hd Hw. unfold dceil. pose proof (Z.div_le_lower_bound (- num a) (den a) (- w) Hd ltac:(lia)). lia. Qed.
Lemma dfloor_ge a w : 0 < den a → w * den a ≤ num a → w ≤ dfloor a.
Proof. intros Hd Hw. unfold dfloor. apply Z.div_le_lower_bound; lia. Qed.
Lemma dfloor_le a w : 0 < den a → num a ≤ w * den a → dfloor a ≤ w.
Proof. intros Hd Hw. unfold dfloor. apply Z.div_le_upper_bound; lia. Qed.

Lemma dceil_mono a b : 0 < den a → 0 < den b → dle a b → dceil a ≤ dceil b.
Proof.
  intros Ha Hb H. apply dceil_le; [done|]. unfold dle in H. unfold dceil. pose proof (Z.mul_div_le (- num b) (den b) Hb). nia.
Qed.

(** ** Samples, as an engine computes them *)

Definition show (d : dbl) : Z * Z := let g := Z.gcd (num d) (den d) in (num d / g, den d / g).
Example tenth : show (rnd 1 10) = (3602879701896397, 36028797018963968). Proof. reflexivity. Qed.
Example tenths : show (dadd (rnd 1 10) (rnd 2 10)) = (1351079888211149, 4503599627370496). Proof. reflexivity. Qed.
Example third_times_three : show (dmul (ofInt 3) (rnd 1 3)) = (1, 1). Proof. reflexivity. Qed.

(** ** [parseFloat]

    The longest prefix that is a decimal, or [Infinity]. *)

Inductive jsfloat : Type := FNaN | FInf (negative : bool) | FFin (d : dbl).

(** An exponent part counts when it has digits. *)
Definition exponentOf (s : string) : Z :=
  match s with
  | String c r => if Ascii.eqb c "e" || Ascii.eqb c "E" then let '(neg, r') := signed r in let '(e, n, _) := spanDigits 10 r' 0 0 in
                    if (n =? 0)%nat then 0 else if neg : bool then - e else e
                  else 0
  | EmptyString => 0
  end.

(** The double of [m * 10^e], with its sign. *)
Definition scaled (neg : bool) (m e : Z) : jsfloat :=
  let p := m * 10 ^ Z.max 0 e in
  let q := 10 ^ Z.max 0 (- e) in
  match roundDouble p q with JPosInf => FInf neg | _ => FFin (rndZ (if neg then - p else p) q) end.

Definition parseFloat (s : string) : jsfloat :=
  let '(neg, r) := signed (trimStart s) in
  if String.prefix "Infinity" r then FInf neg
  else
    let '(ip, ni, r1) := spanDigits 10 r 0 0 in
    let '(m, nf, r2) := match r1 with String "."%char r => spanDigits 10 r ip 0 | _ => (ip, O, r1) end in
    if (ni + nf =? 0)%nat then FNaN else scaled neg m (exponentOf r2 - Z.of_nat nf).

(** [!isNaN(n) && n > 0] *)
Definition fpositive (f : jsfloat) : bool := match f with FFin d => 0 <? num d | FInf neg => negb neg | FNaN => false end.
(** [n <= 0] *)
Definition fnonpositive (f : jsfloat) : bool := match f with FFin d => num d <=? 0 | FInf neg => neg | FNaN => false end.

(** Far above the smallest double, a positive fraction is a positive double. *)
Lemma rnd_positive p q : 0 < p → 0 < q ≤ 10 ^ 300 → 0 < num (rnd p q).
Proof.
  intros Hp Hq. pose proof (rnd_mono 1 (10 ^ 300) p q ltac:(lia) ltac:(lia) ltac:(lia) ltac:(nia)) as H.
  assert (0 < num (rnd 1 (10 ^ 300)) ∧ 0 < den (rnd 1 (10 ^ 300))) as [? ?] by (vm_compute; done).
  destruct (rnd_nonneg p q ltac:(lia) ltac:(lia)). unfold dle in H. nia.
Qed.

Lemma scaled_positive m k : 0 ≤ m → 0 ≤ k ≤ 300 → fpositive (scaled false m (- k)) = (0 <? m) ∧ fnonpositive (scaled false m (- k)) = (m =? 0).
Proof.
  intros Hm Hk. unfold scaled. rewrite Z.max_l, Z.max_r, Z.opp_involutive, Z.pow_0_r, Z.mul_1_r by lia.
  assert (0 < 10 ^ k ≤ 10 ^ 300) as Hq by (split; [apply Z.pow_pos_nonneg|apply Z.pow_le_mono_r]; lia).
  destruct (Z.eq_dec m 0) as [->|Hne]; [done|]. pose proof (rnd_positive m (10 ^ k) ltac:(lia) Hq).
  rewrite (proj2 (Z.ltb_lt 0 m)), (proj2 (Z.eqb_neq m 0)) by lia.
  assert (fpositive (FFin (rndZ m (10 ^ k))) = true ∧ fnonpositive (FFin (rndZ m (10 ^ k))) = false) as Hf.
  { unfold rndZ. rewrite (proj2 (Z.ltb_ge m 0)) by lia. cbn. split; [by apply Z.ltb_lt|by apply Z.leb_gt]. }
  by destruct (roundDouble m (10 ^ k)).
Qed.

(** A decimal text is read as its digits over a power of ten. *)
Lemma spanDigits_app s rest acc len : str_forall is_digit s = true →
  spanDigits 10 (s +:+ rest) acc len = spanDigits 10 rest (value_acc acc s) (len + strlen s)%nat.
Proof.
  revert acc len; induction s as [|c s IH]; intros acc len H.
  - rewrite app_nil_l_str. cbn [value_acc strlen]. by rewrite Nat.add_0_r.
  - cbn in H. apply andb_true_iff in H as [Hc Hs]. rewrite app_cons_str. cbn [spanDigits].
    rewrite (digitIn_digit c Hc), IH by done. cbn [value_acc strlen]. replace (acc * 10 + char_digit c) with (10 * acc + char_digit c) by lia.
    f_equal. lia.
Qed.

Definition fractionText (f : option string) : string := match f with Some g => String "." g | None => "" end.

Lemma parseFloat_digits w f : w ≠ ""%string → str_forall is_digit w = true → str_forall is_digit (default ""%string f) = true →
  parseFloat (w +:+ fractionText f) =
  scaled false (BigInt_digits w * 10 ^ Z.of_nat (strlen (default ""%string f)) + BigInt_digits (default ""%string f)) (- Z.of_nat (strlen (default ""%string f))).
Proof.
  intros Hne Hw Hf. unfold parseFloat.
  assert (signed (trimStart (w +:+ fractionText f)) = (false, w +:+ fractionText f) ∧ String.prefix "Infinity" (w +:+ fractionText f) = false) as [-> ->].
  { destruct w as [|c w]; [done|]. cbn [str_forall] in Hw. apply andb_true_iff in Hw as [Hc _]. rewrite app_cons_str.
    rewrite trimStart_id by by apply negb_true_iff, digit_not_space. split.
    - destruct c as [[] [] [] [] [] [] [] []]; done.
    - cbn [String.prefix]. destruct (Ascii.ascii_dec "I" c) as [<-|]; [done|]. by destruct c as [[] [] [] [] [] [] [] []]. }
  rewrite spanDigits_app by done. cbn [Nat.add]. change (value_acc 0 w) with (BigInt_digits w).
  assert (strlen w ≠ 0%nat) as Hl by (by destruct w).
  destruct f as [g|]; cbn [fractionText default from_option id] in *.
  - cbn [spanDigits]. change (digitIn 10 ".") with (@None Z). cbn iota.
    rewrite spanDigits_digits by done. cbn [Nat.add]. rewrite (proj2 (Nat.eqb_neq _ _)) by lia.
    cbn [exponentOf]. rewrite value_acc_shift. change (value_acc 0 g) with (BigInt_digits g). f_equal; lia.
  - cbn [spanDigits strlen]. rewrite (proj2 (Nat.eqb_neq _ _)) by lia. cbn [exponentOf].
    change (BigInt_digits "") with 0. change (value_acc 0 w) with (BigInt_digits w). change (10 ^ Z.of_nat 0) with 1. f_equal; lia.
Qed.

(** So it is positive when a digit is not zero. *)
Lemma parseFloat_sign w f : w ≠ ""%string → str_forall is_digit w = true → str_forall is_digit (default ""%string f) = true →
  (strlen (default ""%string f) ≤ 300)%nat → let m := BigInt_digits w * 10 ^ Z.of_nat (strlen (default ""%string f)) + BigInt_digits (default ""%string f) in
  fpositive (parseFloat (w +:+ fractionText f)) = (0 <? m) ∧ fnonpositive (parseFloat (w +:+ fractionText f)) = (m =? 0).
Proof.
  intros Hne Hw Hf Hl m. rewrite parseFloat_digits by done. apply scaled_positive; [|lia].
  pose proof (value_acc_bound w Hw). pose proof (value_acc_bound _ Hf). unfold m, BigInt_digits. 
  pose proof (Z.pow_pos_nonneg 10 (Z.of_nat (strlen (default ""%string f)))). nia.
Qed.

Example parse_prefix : parseFloat " 12.5kg" = FFin {| num := num (rnd 25 2); den := den (rnd 25 2) |}. Proof. reflexivity. Qed.
Example parse_exponent : parseFloat "1e400" = FInf false. Proof. vm_compute. reflexivity. Qed.
