(* ===== verification/Health.v ===== *)
(** * Health checks: [services/health.service.ts] and its routes

    Each dependency is probed with a deadline, the verdicts are combined, and the
    routes answer with a status. What a dependency does is an [Outcome]; a timer may
    fire late by [lag] when the process is busy. Times are milliseconds since the
    start of the check; [toFixed(1)] of an age and the key derivation of the Stellar
    library are arguments. *)

From S2P Require Import Prelude JsString JsValue Json Prisma.
From S2P Require Alerts.

Inductive HealthStatus : Type := up | down.
#[global] Instance HealthStatus_eq_dec : EqDecision HealthStatus.
Proof. solve_decision. Defined.
Record HealthIndicatorResult : Type := { status : HealthStatus; message : string; responseTime : Z }.

(** How a call settles, and when; [None]: what is thrown is not an [Error]. *)
Inductive Outcome : Type := Answers (at_ : Z) | Throws (at_ : Z) (msg : option string) | Hangs.

(** [Promise.race] of the call with a timer. *)
Definition race (timeout lag : Z) (timeoutMessage : string) (o : Outcome) : result string unit * Z :=
  let late := (Err timeoutMessage, timeout + lag) in
  match o with
  | Answers t => if t <? timeout + lag then (Ok tt, t) else late
  | Throws t m => if t <? timeout + lag then (Err (default "Unknown error"%string m), t) else late
  | Hangs => late
  end.

Definition isUp (r : HealthIndicatorResult) : bool := bool_decide (status r = up).
Definition isDown (r : HealthIndicatorResult) : bool := bool_decide (status r = down).

Definition checkDatabase (lag : Z) (o : Outcome) : HealthIndicatorResult :=
  match race 200 lag "Database query timeout" o with
  | (Ok _, t) => if 200 <? t then {| status := down; message := "Database query exceeded 200ms threshold"; responseTime := t |}
                 else {| status := up; message := "Database connection healthy"; responseTime := t |}
  | (Err m, t) => {| status := down; message := "Database check failed: " +:+ m; responseTime := t |}
  end.

(** The other probes differ in their deadline and texts. *)
Definition probe (timeout lag : Z) (timeoutMessage healthy failed : string) (o : Outcome) : HealthIndicatorResult :=
  match race timeout lag timeoutMessage o with
  | (Ok _, t) => {| status := up; message := healthy; responseTime := t |}
  | (Err m, t) => {| status := down; message := failed +:+ m; responseTime := t |}
  end.
Definition checkStellar (lag : Z) : Outcome → HealthIndicatorResult :=
  probe 5000 lag "Stellar RPC timeout" "Stellar RPC connection healthy" "Stellar check failed: ".
Definition checkSorobanRpc (lag : Z) : Outcome → HealthIndicatorResult :=
  probe 5000 lag "Soroban RPC timeout" "Soroban RPC reachable" "Soroban RPC unreachable: ".
Definition checkIPFS (lag : Z) : Outcome → HealthIndicatorResult :=
  probe 5000 lag "IPFS timeout" "IPFS/Pinata connection healthy" "IPFS check failed: ".
Definition checkRedis (lag : Z) : Outcome → HealthIndicatorResult :=
  probe 3000 lag "Redis timeout" "Redis connection healthy" "Redis check failed: ".

(** ** The indexer *)

Record ProcessedEvent : Type := { ledgerSequence : Z; processedAt : Z }.
Definition latestFirst (x y : ProcessedEvent) : Z := ledgerSequence y - ledgerSequence x.
Definition latestLedger {T} `{!Table string ProcessedEvent T} (events : T) : option ProcessedEvent :=
  head (js_sort latestFirst (findMany (K := string) (λ _, true) events)).

Section Checks.
Context (toFixed1 : Z → string).

(** The query has no deadline: [None] when it hangs. [clock] is the time of day when it
    settles. *)
Definition checkIndexer {T} `{!Table string ProcessedEvent T} (o : Outcome) (clock : Z) (events : T) : option HealthIndicatorResult :=
  match o with
  | Hangs => None
  | Throws t m => Some {| status := down; message := "Indexer check failed: " +:+ default "Unknown error"%string m; responseTime := t |}
  | Answers t =>
      Some match latestLedger events with
           | None => {| status := down; message := "No processed ledgers found - indexer may not have started"; responseTime := t |}
           | Some e =>
               let age := clock - processedAt e in
               if 15 * 1000 <? age
               then {| status := down; message := "Indexer lag exceeds 15s threshold (current: " +:+ toFixed1 age +:+ "s)"; responseTime := t |}
               else {| status := up; message := "Indexer healthy - last ledger processed " +:+ toFixed1 age +:+ "s ago"; responseTime := t |}
           end
  end.

(** ** Configuration *)

Definition criticalVars : list string := ["DATABASE_URL"; "JWT_SECRET"; "AMANA_ESCROW_CONTRACT_ID"; "USDC_CONTRACT_ID"; "ADMIN_SECRET_KEY"]%string.
Definition unset (env : string → option string) (v : string) : bool := match env v with None | Some ""%string => true | Some _ => false end.
Definition missingPrefix : string := "Missing critical environment variables: ".

Definition checkConfig (env : string → option string) : HealthIndicatorResult :=
  match List.filter (unset env) criticalVars with
  | [] => {| status := up; message := "Configuration valid"; responseTime := 0 |}
  | missing => {| status := down; message := missingPrefix +:+ String.concat ", " missing; responseTime := 0 |}
  end.
(** [s.split(', ')] *)
Fixpoint splitList (s : string) : list string :=
  match s with
  | EmptyString => [""%string]
  | String ","%char (String " "%char r) => ""%string :: splitList r
  | String c r => match splitList r with x :: xs => String c x :: xs | [] => [String c ""] end
  end.
(** [message.replace(prefix, '').split(', ')] *)
Definition missingEnvVars (c : HealthIndicatorResult) : list string :=
  if isDown c then splitList (default (message c) (stripPrefix missingPrefix (message c))) else [].

(** [publicKey secret]: the key, or what [Keypair.fromSecret] throws. *)
Definition checkAdminSigningKey (publicKey : string → result (option string) string) (secret : option string) : HealthIndicatorResult :=
  match secret with
  | None | Some ""%string => {| status := down; message := "ADMIN_SECRET_KEY is missing"; responseTime := 0 |}
  | Some s =>
      match publicKey s with
      | Ok ""%string => {| status := down; message := "Unable to derive public key from ADMIN_SECRET_KEY"; responseTime := 0 |}
      | Ok _ => {| status := up; message := "Admin signing key valid"; responseTime := 0 |}
      | Err m => {| status := down; message := "Admin signing key check failed: " +:+ default "Invalid key format"%string m; responseTime := 0 |}
      end
  end.

(** ** The checks together *)

Record Checks : Type := {
  database : HealthIndicatorResult; indexer : HealthIndicatorResult; stellar : HealthIndicatorResult; sorobanRpc : HealthIndicatorResult;
  ipfs : HealthIndicatorResult; redis : HealthIndicatorResult; config : HealthIndicatorResult; adminSigningKey : HealthIndicatorResult }.

Inductive Overall : Type := healthy | degraded | unhealthy.
#[global] Instance Overall_eq_dec : EqDecision Overall.
Proof. solve_decision. Defined.

Definition overall (c : Checks) : Overall :=
  if isDown (database c) || isDown (indexer c) || isDown (stellar c) || isDown (sorobanRpc c) || isDown (config c) || isDown (adminSigningKey c)
  then unhealthy
  else if isDown (redis c) || isDown (ipfs c) || (150 <? responseTime (database c)) || (150 <? responseTime (indexer c)) || (5000 <? responseTime (stellar c))
  then degraded
  else healthy.

Definition dispatchAlerts (databaseCheck redisCheck : HealthIndicatorResult) : list (Alerts.AlertType * string) :=
  (if isDown databaseCheck then [(Alerts.db_connection_failure, message databaseCheck)] else []) ++
  (if isDown redisCheck then [(Alerts.redis_connection_failure, message redisCheck)] else []).

(** What the dependencies do during one check. *)
Record Dependencies : Type := {
  d_lag : Z; d_database : Outcome; d_indexer : Outcome; d_stellar : Outcome; d_sorobanRpc : Outcome; d_ipfs : Outcome; d_redis : Outcome;
  d_env : string → option string; d_secret : option string; d_publicKey : string → result (option string) string }.

Definition checksOf {T} `{!Table string ProcessedEvent T} (d : Dependencies) (clock : Z) (events : T) : option Checks :=
  i ← checkIndexer (d_indexer d) clock events;
  Some {| database := checkDatabase (d_lag d) (d_database d); indexer := i; stellar := checkStellar (d_lag d) (d_stellar d);
          sorobanRpc := checkSorobanRpc (d_lag d) (d_sorobanRpc d); ipfs := checkIPFS (d_lag d) (d_ipfs d); redis := checkRedis (d_lag d) (d_redis d);
          config := checkConfig (d_env d); adminSigningKey := checkAdminSigningKey (d_publicKey d) (d_secret d) |}.

Record HealthCheckResponse : Type := {
  r_status : Overall; r_checks : Checks; indexerLag : Z; lastProcessedLedger : option Z; r_missingEnvVars : list string }.

(** The response (with the lag of the indexer in milliseconds) and the alerts. What the second
    query ([again]) throws is caught, and it has no deadline either. The state of the
    circuit breakers and the settings that are repeated in the details are left out. *)
Definition performHealthCheck {T} `{!Table string ProcessedEvent T} (d : Dependencies) (clock clock' : Z) (events : T) (again : Outcome)
    : option (HealthCheckResponse * list (Alerts.AlertType * string)) :=
  c ← checksOf d clock events;
  latest ← match again with Answers _ => Some (latestLedger events) | Throws _ _ => Some None | Hangs => None end;
  Some ({| r_status := overall c; r_checks := c;
           indexerLag := match latest with Some e => Z.max 0 (clock' - processedAt e) | None => 0 end;
           lastProcessedLedger := ledgerSequence <$> latest; r_missingEnvVars := missingEnvVars (config c) |},
        dispatchAlerts (database c) (redis c)).

Definition healthRoute (r : HealthCheckResponse) : Z := if bool_decide (r_status r = unhealthy) then 503 else 200.
End Checks.

(** [GET /health/detail]: the status code and, per service, status, latency and error. *)
Definition entryOf (c : HealthIndicatorResult) : HealthStatus * Z * option string :=
  (status c, responseTime c, if isDown c && negb (bool_decide (message c = ""%string)) then Some (message c) else None).
Definition detailRoute (r : HealthCheckResponse) : Z * list (string * (HealthStatus * Z * option string)) :=
  let c := r_checks r in
  (if bool_decide (r_status r = unhealthy) then 503 else 200,
   map (prod_map id entryOf)
     [("database", database c); ("indexer", indexer c); ("stellar", stellar c); ("sorobanRpc", sorobanRpc c);
      ("ipfs", ipfs c); ("redis", redis c); ("config", config c); ("adminSigningKey", adminSigningKey c)]%string).

(** [performReadinessCheck] and [GET /health/ready] *)
Definition performReadinessCheck (d : Dependencies) : bool * list (Alerts.AlertType * string) :=
  let db := checkDatabase (d_lag d) (d_database d) in
  let rd := checkRedis (d_lag d) (d_redis d) in
  (isUp db && isUp rd, dispatchAlerts db rd).
Definition readyRoute (isShuttingDown : bool) (d : Dependencies) : Z :=
  if isShuttingDown then 503 else if (performReadinessCheck d).1 then 200 else 503.

Definition performStartupCheck (d : Dependencies) : bool :=
  isUp (checkDatabase (d_lag d) (d_database d)) && isUp (checkRedis (d_lag d) (d_redis d)) && isUp (checkConfig (d_env d)) &&
  isUp (checkAdminSigningKey (d_publicKey d) (d_secret d)).
Definition startupRoute (d : Dependencies) : Z := if performStartupCheck d then 200 else 503.

(** ** Probes *)

(** The call answers, in time. *)
Definition answersBefore (deadline : Z) (o : Outcome) : Prop := ∃ t, o = Answers t ∧ t < deadline.
(** A settled call settles after it began. *)
Definition settlesLater (o : Outcome) : Prop := match o with Answers t | Throws t _ => 0 ≤ t | Hangs => True end.

Lemma race_spec timeout lag m o : let '(r, t) := race timeout lag m o in
  (r = Ok tt ↔ answersBefore (timeout + lag) o) ∧ t ≤ timeout + lag ∧ (settlesLater o → 0 ≤ timeout + lag → 0 ≤ t).
Proof.
  unfold race, answersBefore, settlesLater. destruct o as [t|t e|]; [destruct (Z.ltb_spec t (timeout + lag))..|].
  - split_and!; [|lia|auto]. split; [intros _; eauto|done].
  - split_and!; [|lia|lia]. split; [done|]. intros (t' & [= <-] & ?). lia.
  - split_and!; [|lia|auto]. split; [done|]. by intros (t' & ? & _).
  - split_and!; [|lia|lia]. split; [done|]. by intros (t' & ? & _).
  - split_and!; [|lia|lia]. split; [done|]. by intros (t' & ? & _).
Qed.

Lemma probe_spec timeout lag m ok bad o : let r := probe timeout lag m ok bad o in
  (status r = up ↔ answersBefore (timeout + lag) o) ∧ responseTime r ≤ timeout + lag.
Proof.
  unfold probe. pose proof (race_spec timeout lag m o) as H. destruct (race timeout lag m o) as [[[]|e] t]; cbn; destruct H as (H1 & H2 & _).
  - split; [|done]. split; [intros _; by apply H1|done].
  - split; [|done]. split; [done|]. intros Ha. apply H1 in Ha. done.
Qed.

Lemma database_spec lag o : 0 ≤ lag → let r := checkDatabase lag o in
  (status r = up ↔ ∃ t, o = Answers t ∧ t ≤ 200 ∧ t < 200 + lag) ∧ responseTime r ≤ 200 + lag.
Proof.
  intros Hl. unfold checkDatabase, race. destruct o as [t|t e|]; [destruct (Z.ltb_spec t (200 + lag))..|]; cbn.
  - destruct (Z.ltb_spec 200 t); cbn; (split; [|lia]); (split; [intros ?; try done; eauto|intros (t' & [= <-] & ? & ?); try done; lia]).
  - split; [|lia]. split; [done|]. intros (t' & [= <-] & ? & ?). lia.
  - split; [|lia]. split; [done|]. by intros (t' & ? & _).
  - split; [|lia]. split; [done|]. by intros (t' & ? & _).
  - split; [|lia]. split; [done|]. by intros (t' & ? & _).
Qed.

Lemma config_up env : status (checkConfig env) = up ↔ Forall (λ v, unset env v = false) criticalVars.
Proof.
  unfold checkConfig. rewrite Forall_forall. destruct (List.filter _ _) as [|v l] eqn:E; cbn; split; try done.
  - intros _ v Hv. destruct (unset env v) eqn:Eu; [|done]. assert (v ∈ List.filter (unset env) criticalVars) as Hin by (rewrite list_elem_of_In, List.filter_In, <-list_elem_of_In; done).
    rewrite E in Hin. by apply elem_of_nil in Hin.
  - intros H. assert (v ∈ List.filter (unset env) criticalVars) as Hin by (rewrite E; set_solver).
    rewrite list_elem_of_In, List.filter_In, <-list_elem_of_In in Hin. destruct Hin as [H1 H2]. by rewrite (H v H1) in H2.
Qed.

Lemma signing_key_up (publicKey : string → result (option string) string) secret : status (checkAdminSigningKey publicKey secret) = up ↔
  ∃ s k, secret = Some s ∧ s ≠ ""%string ∧ publicKey s = Ok k ∧ k ≠ ""%string.
Proof.
  unfold checkAdminSigningKey. destruct secret as [[|a s]|]; [split; [done|by intros (? & ? & [= <-] & ? & _)]| |split; [done|by intros (? & ? & ? & _)]].
  destruct (publicKey (String a s)) as [[|b k]|e] eqn:Ep; cbn; split; try done.
  - intros (? & ? & [= <-] & _ & Hp & ?). congruence.
  - intros _. eexists _, _. split_and!; [reflexivity|done|exact Ep|done].
  - intros (? & ? & [= <-] & _ & Hp & ?). congruence.
Qed.

(** ** What the routes answer *)

(** A pod takes traffic exactly while it is not shutting down, the database answers
    within 200 milliseconds and Redis before its deadline; neither the other
    dependencies nor the configuration matter. *)
Theorem ready_spec isShuttingDown d : 0 ≤ d_lag d →
  readyRoute isShuttingDown d = 200 ↔ isShuttingDown = false ∧ (∃ t, d_database d = Answers t ∧ t ≤ 200 ∧ t < 200 + d_lag d) ∧
    answersBefore (3000 + d_lag d) (d_redis d).
Proof.
  intros Hl. pose proof (database_spec (d_lag d) (d_database d) Hl) as [Hdb _].
  pose proof (probe_spec 3000 (d_lag d) "Redis timeout" "Redis connection healthy" "Redis check failed: " (d_redis d)) as [Hrd _]. fold (checkRedis (d_lag d) (d_redis d)) in Hrd.
  unfold readyRoute, performReadinessCheck. cbn [fst]. unfold isUp. rewrite <-Hdb, <-Hrd. destruct isShuttingDown; [split; [done|by intros (? & _)]|].
  destruct (status (checkDatabase (d_lag d) (d_database d))), (status (checkRedis (d_lag d) (d_redis d))); vm_compute; split; try done; intros (_ & ? & ?); done.
Qed.

Section HealthFacts.
Context (toFixed1 : Z → string) {T : Type} `{!Table string ProcessedEvent T, !TableLaws string ProcessedEvent T}.

Lemma latestLedger_max (events : T) e : latestLedger events = Some e → ∀ k e', findUnique k events = Some e' → ledgerSequence e' ≤ ledgerSequence e.
Proof.
  unfold latestLedger. intros Hh k e' Hk.
  assert (e' ∈ js_sort latestFirst (findMany (K := string) (λ _, true) events)) as Hin by (rewrite js_sort_elem, (findMany_elem (K := string)); eauto).
  assert (StronglySorted (cmp_le latestFirst) (js_sort latestFirst (findMany (K := string) (λ _, true) events))) as Hs
    by (apply js_sort_sorted; unfold cmp_le, latestFirst; lia).
  destruct (js_sort _ _) as [|x l]; [done|]. injection Hh as ->. apply elem_of_cons in Hin as [->|Hin]; [done|].
  apply StronglySorted_inv in Hs as [_ Hs]. rewrite Forall_forall in Hs. specialize (Hs e' Hin). unfold cmp_le, latestFirst in Hs. lia.
Qed.

Lemma latestLedger_None (events : T) : latestLedger events = None ↔ ∀ k : string, findUnique k events = None.
Proof.
  unfold latestLedger. split.
  - intros Hh k. destruct (findUnique k events) as [e|] eqn:Hk; [|done].
    assert (e ∈ js_sort latestFirst (findMany (K := string) (λ _, true) events)) as Hin by (rewrite js_sort_elem, (findMany_elem (K := string)); eauto).
    destruct (js_sort _ _); [by apply elem_of_nil in Hin|done].
  - intros Hn. destruct (js_sort _ _) as [|x l] eqn:E; [done|]. assert (x ∈ js_sort latestFirst (findMany (K := string) (λ _, true) events)) as Hin by (rewrite E; set_solver).
    rewrite js_sort_elem, (findMany_elem (K := string)) in Hin. destruct Hin as (k & Hk & _). by rewrite Hn in Hk.
Qed.

Lemma indexer_up (o : Outcome) clock (events : T) r : checkIndexer toFixed1 o clock events = Some r →
  (status r = up ↔ (∃ t, o = Answers t) ∧ ∃ e, latestLedger events = Some e ∧ clock - processedAt e ≤ 15000).
Proof.
  unfold checkIndexer. destruct o as [t|t m|]; [|intros [= <-]; cbn; split; [done|by intros [[? ?] _]]|done].
  destruct (latestLedger events) as [e|]; [|intros [= <-]; cbn; split; [done|by intros (_ & ? & ? & _)]].
  destruct (Z.ltb_spec (15 * 1000) (clock - processedAt e)); intros [= <-]; cbn.
  - split; [done|]. intros (_ & e' & [= <-] & ?). lia.
  - split; [|done]. intros _. split; [eauto|]. exists e. split; [done|lia].
Qed.

(** The health route answers 503 exactly when the database, Horizon, the Soroban RPC,
    the configuration or the signing key fails, or no contract event was processed in the
    last fifteen seconds; it always answers when the indexer's queries do, and no probe
    takes longer than its deadline and the lateness of the timer. *)
Theorem health_spec d clock clock' (events : T) again : 0 ≤ d_lag d → d_indexer d ≠ Hangs → again ≠ Hangs →
  ∃ r alerts, performHealthCheck toFixed1 d clock clock' events again = Some (r, alerts) ∧
  (healthRoute r = 200 ↔
    (∃ t, d_database d = Answers t ∧ t ≤ 200 ∧ t < 200 + d_lag d) ∧ answersBefore (5000 + d_lag d) (d_stellar d) ∧ answersBefore (5000 + d_lag d) (d_sorobanRpc d) ∧
    (∃ t, d_indexer d = Answers t) ∧ (∃ e, latestLedger events = Some e ∧ clock - processedAt e ≤ 15000) ∧
    Forall (λ v, unset (d_env d) v = false) criticalVars ∧ (∃ s k, d_secret d = Some s ∧ s ≠ ""%string ∧ d_publicKey d s = Ok k ∧ k ≠ ""%string)) ∧
  (∀ x, x ∈ [database; stellar; sorobanRpc; ipfs; redis] → responseTime (x (r_checks r)) ≤ 5000 + d_lag d).
Proof.
  intros Hl Hi Ha. unfold performHealthCheck, checksOf. destruct (checkIndexer toFixed1 (d_indexer d) clock events) as [i|] eqn:Ei; cbn [mbind option_bind].
  2: { unfold checkIndexer in Ei. destruct (d_indexer d); done. }
  assert (∃ l, match again with Answers _ => Some (latestLedger events) | Throws _ _ => Some None | Hangs => None end = Some l) as [latest ->]
    by (destruct again; eauto; done). cbn [mbind option_bind].
  eexists _, _. split; [reflexivity|]. cbn [r_status r_checks].
  pose proof (database_spec (d_lag d) (d_database d) Hl) as [Hdb Tdb]. pose proof (indexer_up _ _ _ _ Ei) as Hiu.
  pose proof (probe_spec 5000 (d_lag d) "Stellar RPC timeout" "Stellar RPC connection healthy" "Stellar check failed: " (d_stellar d)) as [Hst Tst].
  pose proof (probe_spec 5000 (d_lag d) "Soroban RPC timeout" "Soroban RPC reachable" "Soroban RPC unreachable: " (d_sorobanRpc d)) as [Hso Tso].
  pose proof (probe_spec 5000 (d_lag d) "IPFS timeout" "IPFS/Pinata connection healthy" "IPFS check failed: " (d_ipfs d)) as [_ Tip].
  pose proof (probe_spec 3000 (d_lag d) "Redis timeout" "Redis connection healthy" "Redis check failed: " (d_redis d)) as [_ Trd].
  pose proof (config_up (d_env d)) as Hc. pose proof (signing_key_up (d_publicKey d) (d_secret d)) as Hk.
  split.
  - rewrite <-Hdb, <-Hc, <-Hk. unfold healthRoute. cbn [r_status].
    assert (∀ r, isDown r = false ↔ status r = up) as Hd by (intros r; unfold isDown; rewrite bool_decide_eq_false; destruct (status r); split; congruence).
    rewrite <-Hst, <-Hso. transitivity (isDown (checkDatabase (d_lag d) (d_database d)) || isDown i || isDown (checkStellar (d_lag d) (d_stellar d)) || isDown (checkSorobanRpc (d_lag d) (d_sorobanRpc d)) || isDown (checkConfig (d_env d)) || isDown (checkAdminSigningKey (d_publicKey d) (d_secret d)) = false).
    + unfold overall. cbn [database indexer stellar sorobanRpc config adminSigningKey]. destruct (isDown _ || _ || _ || _ || _ || _); [done|]. destruct (_ || _); split; done.
    + rewrite !orb_false_iff, !Hd, Hiu. unfold checkStellar, checkSorobanRpc. tauto.
  - intros x Hx. cbn in Tdb, Tst, Tso, Tip, Trd. repeat (apply elem_of_cons in Hx as [->|Hx]); cbn [database stellar sorobanRpc ipfs redis]; unfold checkStellar, checkSorobanRpc, checkIPFS, checkRedis;
      try lia. by apply elem_of_nil in Hx.
Qed.

(** With nothing to do, that is no contract event for fifteen seconds, a platform whose every
    dependency works is reported as unhealthy. *)
Theorem quiet_period_unhealthy d clock clock' (events : T) again r alerts e : latestLedger events = Some e → 15000 < clock - processedAt e →
  performHealthCheck toFixed1 d clock clock' events again = Some (r, alerts) → healthRoute r = 503.
Proof.
  intros He Hage. unfold performHealthCheck, checksOf. destruct (checkIndexer toFixed1 (d_indexer d) clock events) as [i|] eqn:Ei; [|done].
  cbn [mbind option_bind]. assert (isDown i = true) as Hi.
  { apply bool_decide_eq_true. destruct (status i) eqn:Es; [|done]. apply (indexer_up _ _ _ _ Ei) in Es as (_ & e' & He' & ?). rewrite He in He'. injection He' as <-. lia. }
  destruct again; cbn [mbind option_bind]; [..|done]; intros [= <- _]; unfold healthRoute, overall; cbn [r_status database indexer]; by rewrite Hi, orb_true_r.
Qed.

(** A database that stops answering leaves the health route without any answer: its own
    probe has a deadline, the indexer's query on the same database has none. *)
Theorem hanging_database_unanswered d clock clock' (events : T) again : d_indexer d = Hangs →
  performHealthCheck toFixed1 d clock clock' events again = None.
Proof. intros H. unfold performHealthCheck, checksOf, checkIndexer. by rewrite H. Qed.
End HealthFacts.

(** The list of missing variables, which is read back out of the message, is exactly
    the critical variables that are not set. *)
Theorem missing_vars_roundtrip env : missingEnvVars (checkConfig env) = List.filter (unset env) criticalVars.
Proof.
  unfold checkConfig, criticalVars. cbn [List.filter].
  destruct (unset env "DATABASE_URL"), (unset env "JWT_SECRET"), (unset env "AMANA_ESCROW_CONTRACT_ID"), (unset env "USDC_CONTRACT_ID"), (unset env "ADMIN_SECRET_KEY");
    vm_compute; reflexivity.
Qed.

(** ** Concrete runs *)

Definition fullEnv (v : string) : option string := Some "set"%string.
Definition working (db : Outcome) : Dependencies :=
  {| d_lag := 2; d_database := db; d_indexer := Answers 4; d_stellar := Answers 80; d_sorobanRpc := Answers 90; d_ipfs := Hangs; d_redis := Answers 1;
     d_env := fullEnv; d_secret := Some "S"%string; d_publicKey := λ s, Ok ("G" +:+ s)%string |}.
Definition oneEvent : gmap string ProcessedEvent := {[ "e"%string := {| ledgerSequence := 7; processedAt := 100000 |} ]}.
Definition inSeconds (ms : Z) : string := toString (ms / 1000).

(** IPFS that hangs degrades the answer and costs its whole deadline. *)
Example ipfs_hangs : match performHealthCheck inSeconds (working (Answers 3)) 110000 110100 oneEvent (Answers 2) with
  | Some (r, alerts) => healthRoute r = 200 ∧ r_status r = degraded ∧ responseTime (ipfs (r_checks r)) = 5002 ∧ alerts = [] ∧ lastProcessedLedger r = Some 7
  | None => False
  end.
Proof. vm_compute. done. Qed.

(** One failing critical service is a 503 of the detail route although every other is up. *)
Example one_down : match performHealthCheck inSeconds (working (Throws 3 (Some "gone"%string))) 110000 110100 oneEvent (Answers 2) with
  | Some (r, _) => let '(code, entries) := detailRoute r in
      code = 503 ∧ map fst (filter (λ e, e.2.1.1 = down) entries) = ["database"; "ipfs"]%string ∧
      head entries = Some ("database"%string, (down, 3, Some "Database check failed: gone"%string))
  | None => False
  end.
Proof. vm_compute. done. Qed.

(** A slow database takes the pod out of rotation, and its alert is sent. *)
Example slow_database : readyRoute false (working (Answers 201)) = 503 ∧ (performReadinessCheck (working (Answers 500))).2 =
  [(Alerts.db_connection_failure, "Database check failed: Database query timeout"%string)].
Proof. vm_compute. done. Qed.

Lemma ready_spec_witness : readyRoute false (working (Answers 200)) = 200 ∧ ∃ t, d_database (working (Answers 200)) = Answers t ∧ t ≤ 200.
Proof.
  split; [vm_compute; reflexivity|]. destruct (proj1 (ready_spec false (working (Answers 200)) ltac:(cbn; lia)) ltac:(vm_compute; reflexivity)) as (_ & (t & H1 & H2 & _) & _).
  exists t. split; [exact H1|exact H2].
Defined.

Lemma health_spec_witness : ∃ r alerts, performHealthCheck inSeconds (working (Answers 3)) 110000 110100 oneEvent (Answers 2) = Some (r, alerts) ∧ healthRoute r = 200 ∧
  responseTime (ipfs (r_checks r)) ≤ 5002.
Proof.
  destruct (health_spec inSeconds (working (Answers 3)) 110000 110100 oneEvent (Answers 2) ltac:(cbn; lia) ltac:(discriminate) ltac:(discriminate)) as (r & alerts & H1 & H2 & H3).
  exists r, alerts. split; [exact H1|]. split.
  - apply H2. cbn. split_and!.
    + exists 3. split_and!; [reflexivity|lia|lia].
    + exists 80. split; [reflexivity|lia].
    + exists 90. split; [reflexivity|lia].
    + exists 4. reflexivity.
    + eexists. split; [vm_compute; reflexivity|]. cbn. lia.
    + repeat constructor.
    + exists "S"%string, "GS"%string. split_and!; [reflexivity|discriminate|reflexivity|discriminate].
  - apply (H3 ipfs). set_solver.
Defined.
