(* ===== verification/FeeEstimator.v ===== *)
(** * Network fees: [services/feeEstimator.service.ts]

    The buffered inclusion fee, its bump on a retry, and the retry wrapper. Stroops are
    integers; multipliers and thresholds are doubles ([Double]), and every product is
    rounded before it is compared or rounded up. The options come from the environment,
    whose schema makes the stroop bounds positive and the bump factor, the boost and the
    fee ratio at least 1. *)

From S2P Require Import Prelude JsString JsValue Double.
From S2P Require ErrorMapping.

Record FeeStatsLike : Type := { last_ledger_base_fee : option string; ledger_capacity_usage : option string; fee_charged : string → option string }.
Record FeeBufferOptions : Type := {
  percentile : string; safetyMultiplier : dbl; congestionBoost : dbl; congestionCapacity : dbl; congestionFeeRatio : dbl; minStroops : Z; maxStroops : Z }.
Record BufferedFeeEstimate : Type := {
  baseFee : Z; percentileFee : Z; ledgerCapacityUsage : dbl; congested : bool; multiplier : dbl; bufferedFee : Z; cappedAtMax : bool }.

Definition DEFAULT_BASE_FEE : Z := 100.

Definition toInt (value : option string) (fallback : Z) : Z :=
  match value with
  | None => fallback
  | Some s => match parseInt s with JInt n => n | _ => fallback end
  end.

Definition toFloat (value : option string) (fallback : dbl) : dbl :=
  match value with None => fallback | Some s => match parseFloat s with FFin d => d | _ => fallback end end.

(** [clamp] on doubles and on integers *)
Definition dclamp (n lo hi : dbl) : dbl := let m := if dleb lo n then n else lo in if dleb m hi then m else hi.
Definition clamp (n lo hi : Z) : Z := Z.min hi (Z.max lo n).

(** [n || m] *)
Definition orZero (n m : Z) : Z := if n =? 0 then m else n.

Definition baseFeeOf (s : FeeStatsLike) : Z := orZero (toInt (last_ledger_base_fee s) DEFAULT_BASE_FEE) DEFAULT_BASE_FEE.
Definition capacityOf (s : FeeStatsLike) : dbl := dclamp (toFloat (ledger_capacity_usage s) (ofInt 0)) (ofInt 0) (ofInt 1).

Definition isCongested (s : FeeStatsLike) (opts : FeeBufferOptions) : bool :=
  let baseFee := baseFeeOf s in
  let percentileFee := orZero (toInt (fee_charged s (percentile opts)) 0) (toInt (fee_charged s "max") baseFee) in
  dleb (congestionCapacity opts) (capacityOf s) || dleb (dmul (ofInt baseFee) (congestionFeeRatio opts)) (ofInt percentileFee).

Definition computeBufferedFee (s : FeeStatsLike) (opts : FeeBufferOptions) : BufferedFeeEstimate :=
  let baseFee := baseFeeOf s in
  let percentileFee := orZero (orZero (toInt (fee_charged s (percentile opts)) 0) (toInt (fee_charged s "max") 0)) baseFee in
  let congested := isCongested s opts in
  let multiplier := if congested then dmul (safetyMultiplier opts) (congestionBoost opts) else safetyMultiplier opts in
  let raw := dceil (dmul (ofInt (Z.max percentileFee baseFee)) multiplier) in
  {| baseFee := baseFee; percentileFee := percentileFee; ledgerCapacityUsage := capacityOf s; congested := congested; multiplier := multiplier;
     bufferedFee := clamp raw (minStroops opts) (maxStroops opts); cappedAtMax := maxStroops opts <? raw |}.

Definition bumpFee (currentFee : Z) (bumpFactor : dbl) (maxStroops : Z) : Z := Z.min maxStroops (dceil (dmul (ofInt currentFee) bumpFactor)).

Definition sizeResourceFee (minResourceFee : Z + option string) (inclusionFee : Z) : Z :=
  let resource := match minResourceFee with inl n => n | inr t => toInt t 0 end in
  Z.max inclusionFee (resource + inclusionFee).

(** ** Retries *)

(** The text of what was thrown; [None] for [null] and [undefined]. *)
Definition isTimeoutLikeFailure (err : option string) : bool :=
  match err with
  | None => false
  | Some msg => ErrorMapping.mentions ["timeout"; "timed out"; "tx_too_late"; "txtoolate"; "too late"; "504"; "502"; "try again"; "deadline exceeded"]%string msg
  end.

(** How the wrapper ends, and the fees it submitted. [submit n fee]: what the [n]-th
    submission with that fee does. *)
Section Retry.
Context {A : Type} (submit : nat → Z → A + option string) (bumpFactor : dbl) (maxStroops : Z).

Fixpoint bumpLoop (left_ : nat) (attempt : nat) (fee : Z) : (A + option string) * list Z :=
  match submit attempt fee with
  | inl a => (inl a, [fee])
  | inr err =>
      if negb (isTimeoutLikeFailure err) then (inr err, [fee])
      else match left_ with
           | O => (inr err, [fee])
           | S left_ => let '(r, fees) := bumpLoop left_ (S attempt) (bumpFee fee bumpFactor maxStroops) in (r, fee :: fees)
           end
  end.
Definition withFeeBumpRetry (initialFee : Z) (maxRetries : nat) : (A + option string) * list Z := bumpLoop maxRetries 0 initialFee.
End Retry.

(** ** The estimate *)

Lemma clamp_bounds n lo hi : lo ≤ hi → lo ≤ clamp n lo hi ≤ hi.
Proof. unfold clamp. lia. Qed.

(** A double that is at least 1, and finite. *)
Definition atLeastOne (d : dbl) : Prop := 0 < den d ∧ den d ≤ num d.

Lemma dmul_nonneg a b : 0 ≤ num a → 0 ≤ num b → dmul a b = rnd (num a * num b) (den a * den b).
Proof. intros Ha Hb. unfold dmul, rndZ. by rewrite (proj2 (Z.ltb_ge _ _)) by nia. Qed.

Lemma dmul_ge w m : 0 ≤ w < 2 ^ 53 → atLeastOne m → w ≤ dceil (dmul (ofInt w) m).
Proof.
  intros Hw [Hd Hm]. rewrite dmul_nonneg by (cbn; lia). cbn [num den ofInt]. apply dceil_ge.
  - apply rnd_nonneg; nia.
  - apply rnd_ge; nia.
Qed.

Lemma dmul_atLeastOne a b : atLeastOne a → atLeastOne b → atLeastOne (dmul a b).
Proof.
  intros [Ha Ha'] [Hb Hb']. rewrite dmul_nonneg by lia. split; [apply rnd_nonneg; nia|].
  pose proof (rnd_ge (num a * num b) (den a * den b) 1 ltac:(nia) ltac:(nia) ltac:(lia) ltac:(nia)). lia.
Qed.

(** The recommended fee lies within the configured bounds, says whether the upper one
    was reached, and with multipliers of at least 1 it is, up to that bound, at least the
    base fee and the percentile of the recent ledgers. *)
Theorem buffered_fee_spec s opts : minStroops opts ≤ maxStroops opts → let e := computeBufferedFee s opts in
  minStroops opts ≤ bufferedFee e ≤ maxStroops opts ∧
  (cappedAtMax e = true → bufferedFee e = maxStroops opts) ∧
  (atLeastOne (safetyMultiplier opts) → atLeastOne (congestionBoost opts) → 0 ≤ Z.max (percentileFee e) (baseFee e) < 2 ^ 53 →
   Z.min (maxStroops opts) (Z.max (percentileFee e) (baseFee e)) ≤ bufferedFee e).
Proof.
  intros Hb e. unfold e, computeBufferedFee. cbn [bufferedFee cappedAtMax percentileFee baseFee].
  set (f := Z.max _ (baseFeeOf s)). split; [by apply clamp_bounds|]. split.
  - intros H%Z.ltb_lt. unfold clamp. lia.
  - intros Hs Hc Hf. assert (atLeastOne (if isCongested s opts then dmul (safetyMultiplier opts) (congestionBoost opts) else safetyMultiplier opts)) as Hm
      by (destruct (isCongested s opts); [by apply dmul_atLeastOne|done]).
    pose proof (dmul_ge f _ Hf Hm). unfold clamp. lia.
Qed.

(** Congestion never lowers the recommendation: a boost of at least 1 does not make the
    multiplier smaller by rounding. *)
Lemma dceil_dmul_mono f m m' : 0 ≤ f → 0 < den m → 0 < den m' → 0 ≤ num m → 0 ≤ num m' → dle m m' →
  dceil (dmul (ofInt f) m) ≤ dceil (dmul (ofInt f) m').
Proof.
  intros Hf Hd Hd' Hn Hn' Hle. rewrite !dmul_nonneg by (cbn; lia). cbn [num den ofInt].
  apply dceil_mono; [apply rnd_nonneg; nia..|]. apply rnd_mono; [nia|nia|nia|]. unfold dle in Hle. rewrite !Z.mul_1_l.
  replace (f * num m * den m') with (f * (num m * den m')) by ring.
  replace (f * num m' * den m) with (f * (num m' * den m)) by ring.
  by apply Z.mul_le_mono_nonneg_l.
Qed.

Theorem congestion_raises_fee f opts : 0 ≤ f → let m := safetyMultiplier opts in let m' := dmul m (congestionBoost opts) in
  0 < den m → 0 ≤ num m → atLeastOne (congestionBoost opts) → dle m m' →
  clamp (dceil (dmul (ofInt f) m)) (minStroops opts) (maxStroops opts) ≤ clamp (dceil (dmul (ofInt f) m')) (minStroops opts) (maxStroops opts).
Proof.
  intros Hf m m' Hd Hn [Hb Hb'] Hle. assert (0 ≤ num m' ∧ 0 < den m') as [? ?]
    by (unfold m'; rewrite dmul_nonneg by lia; apply rnd_nonneg; nia).
  pose proof (dceil_dmul_mono f m m' Hf Hd ltac:(done) Hn ltac:(done) Hle). unfold clamp. lia.
Qed.

(** ** The bump *)

(** A bump stays below the cap and never lowers a fee that was below it; a fee above the
    cap it lowers to the cap. *)
Lemma bumpFee_le fee k cap : bumpFee fee k cap ≤ cap.
Proof. unfold bumpFee. lia. Qed.
Lemma bumpFee_ge fee k cap : 0 ≤ fee < 2 ^ 53 → atLeastOne k → Z.min cap fee ≤ bumpFee fee k cap.
Proof. intros Hf Hk. pose proof (dmul_ge fee k Hf Hk). unfold bumpFee. lia. Qed.
Theorem bump_lowers_fee_above_cap fee k cap : cap < fee → bumpFee fee k cap < fee.
Proof. intros H. pose proof (bumpFee_le fee k cap). lia. Qed.

Lemma resource_fee_covers r i : 0 ≤ i → 0 ≤ r → sizeResourceFee (inl r) i = r + i.
Proof. intros. unfold sizeResourceFee. lia. Qed.

(** ** The retries *)

Section RetryFacts.
Context {A : Type} (submit : nat → Z → A + option string) (k : dbl) (cap : Z).

(** What a list of submitted fees is, from the attempt [i] with [left_] retries left: each
    but the last timed out and was followed by its bump. *)
Inductive Submissions : nat → nat → Z → list Z → A + option string → Prop :=
  | sub_done left_ i fee a : submit i fee = inl a → Submissions left_ i fee [fee] (inl a)
  | sub_failed left_ i fee err : submit i fee = inr err → isTimeoutLikeFailure err = false → Submissions left_ i fee [fee] (inr err)
  | sub_exhausted i fee err : submit i fee = inr err → isTimeoutLikeFailure err = true → Submissions 0 i fee [fee] (inr err)
  | sub_retry left_ i fee err fees r : submit i fee = inr err → isTimeoutLikeFailure err = true →
      Submissions left_ (S i) (bumpFee fee k cap) fees r → Submissions (S left_) i fee (fee :: fees) r.

Lemma bumpLoop_submissions n : ∀ i fee, Submissions n i fee (bumpLoop submit k cap n i fee).2 (bumpLoop submit k cap n i fee).1.
Proof.
  induction n as [|n IH]; intros i fee; cbn [bumpLoop]; destruct (submit i fee) as [a|err] eqn:E;
    try (by constructor); destruct (isTimeoutLikeFailure err) eqn:T; cbn [negb]; try (by constructor).
  specialize (IH (S i) (bumpFee fee k cap)). destruct (bumpLoop _ _ _ _ _ _). by eapply sub_retry.
Qed.

Lemma submissions_bounded n i fee fees r : Submissions n i fee fees r → (1 ≤ length fees ≤ S n)%nat.
Proof. induction 1; cbn; lia. Qed.

Lemma submissions_last n i fee fees r : Submissions n i fee fees r →
  ∃ f, last fees = Some f ∧ submit (i + length fees - 1)%nat f = r.
Proof.
  induction 1 as [| | |? i fee ? fees ? ? ? ? (f & Hf & Hs)]; [eexists; split; [done|]; cbn; by replace (i + 1 - 1)%nat with i by lia..|].
  exists f. destruct fees as [|f0 fees]; [done|]. split; [done|]. rewrite <-Hs. f_equal. cbn. lia.
Qed.

(** An outcome that may be retried is only reported once the retries are used up. *)
Lemma submissions_exhausted n i fee fees err : Submissions n i fee fees (inr err) → isTimeoutLikeFailure err = true → length fees = S n.
Proof. remember (inr err) as r eqn:E. induction 1; simplify_eq; intros; [congruence|done|cbn; f_equal; auto]. Qed.

Lemma submissions_fees n i fee fees r : cap < 2 ^ 53 → atLeastOne k → 0 ≤ fee ≤ cap → Submissions n i fee fees r →
  Sorted Z.le fees ∧ Forall (λ f, fee ≤ f ≤ cap) fees.
Proof.
  intros Hc Hk Hf H. induction H as [| | |n i fee ? fees r ? ? H IH]; [split; [by repeat constructor|constructor; [lia|done]]..|].
  pose proof (bumpFee_le fee k cap). pose proof (bumpFee_ge fee k cap ltac:(lia) Hk).
  destruct IH as [IH1 IH2]; [lia|]. split; [|constructor; [lia|eapply Forall_impl; [exact IH2|cbn; intros; lia]]].
  constructor; [done|]. destruct IH2; constructor. lia.
Qed.
End RetryFacts.

(** The fee-bump wrapper submits at least once and at most once more than the retries
    it is given, ends with what the last submission gave, reports a timeout only when the
    retries are used up, and from a fee within the cap submits fees that never fall and never
    pass the cap. *)
Theorem fee_bump_retry_spec {A} (submit : nat → Z → A + option string) k cap fee n :
  cap < 2 ^ 53 → atLeastOne k → 0 ≤ fee ≤ cap → let '(r, fees) := withFeeBumpRetry submit k cap fee n in
  (1 ≤ length fees ≤ S n)%nat ∧ (∃ f, last fees = Some f ∧ submit (length fees - 1)%nat f = r) ∧
  (∀ err, r = inr err → isTimeoutLikeFailure err = true → length fees = S n) ∧
  Sorted Z.le fees ∧ Forall (λ f, fee ≤ f ≤ cap) fees.
Proof.
  intros Hc Hk Hf. pose proof (bumpLoop_submissions submit k cap n 0 fee) as H. unfold withFeeBumpRetry.
  destruct (bumpLoop _ _ _ _ _ _) as [r fees]. cbn in H. split_and!; [by eapply submissions_bounded..| | | |].
  - exact (submissions_last _ _ _ _ _ _ _ _ H).
  - intros err ->. exact (submissions_exhausted _ _ _ _ _ _ _ _ H).
  - eapply submissions_fees; eauto.
  - eapply submissions_fees; eauto.
Qed.

(** ** Samples *)

Definition sampleOptions : FeeBufferOptions :=
  {| percentile := "p80"; safetyMultiplier := toFloat (Some "1.2") (ofInt 1); congestionBoost := toFloat (Some "1.5") (ofInt 1);
     congestionCapacity := toFloat (Some "0.8") (ofInt 1); congestionFeeRatio := ofInt 3; minStroops := 100; maxStroops := 1000 |}.
Definition sampleStats (capacity p80 : string) : FeeStatsLike :=
  {| last_ledger_base_fee := Some "100"; ledger_capacity_usage := Some capacity;
     fee_charged := λ k, if bool_decide (k = "p80") then Some p80 else None |}%string.

Example calm_fee : bufferedFee (computeBufferedFee (sampleStats "0.5" "200") sampleOptions) = 240.
Proof. vm_compute. reflexivity. Qed.
(** 200 · (1.2 · 1.5) is 360 exactly, and [1.2 * 1.5] rounds to [1.7999999999999998]. *)
Example congested_fee : bufferedFee (computeBufferedFee (sampleStats "0.9" "200") sampleOptions) = 360.
Proof. vm_compute. reflexivity. Qed.
(** [100 * 1.1] is [110.00000000000001], one stroop more. *)
Example ceil_of_rounding : bumpFee 100 (toFloat (Some "1.1") (ofInt 1)) 1000 = 111.
Proof. vm_compute. reflexivity. Qed.

(** The pattern looks for the digits anywhere: an amount of 15020 stroops in the message is
    a gateway timeout. *)
Example amount_taken_for_timeout : isTimeoutLikeFailure (Some "tx_insufficient_balance: 15020 stroops needed"%string) = true.
Proof. vm_compute. reflexivity. Qed.

Lemma buffered_fee_spec_witness : let e := computeBufferedFee (sampleStats "0.9" "200") sampleOptions in
  minStroops sampleOptions ≤ bufferedFee e ≤ maxStroops sampleOptions.
Proof. apply (buffered_fee_spec (sampleStats "0.9" "200") sampleOptions). vm_compute. discriminate. Defined.

Definition sampleSubmit (i : nat) (fee : Z) : unit + option string := if 150 <=? fee then inl tt else inr (Some "tx_too_late"%string).
Lemma fee_bump_retry_spec_witness : let '(r, fees) := withFeeBumpRetry sampleSubmit (ofInt 2) 1000 100 3 in
  r = inl tt ∧ fees = [100; 200] ∧ Sorted Z.le fees.
Proof.
  pose proof (fee_bump_retry_spec sampleSubmit (ofInt 2) 1000 100 3 ltac:(lia) ltac:(split; cbn; lia) ltac:(lia)) as H.
  vm_compute in H. vm_compute. destruct H as (_ & _ & _ & H & _). by split_and!.
Defined.
