(* ===== verification/ContractTx.v ===== *)
(** * Unsigned contract transactions: [services/contract.service.ts]

    What the service asks the network to build: the invocation of one function of the
    escrow contract, with its arguments, the account that will sign it and a deadline. The
    Stellar SDK and the RPC server are third-party; an [Rpc] is what its calls end with
    after their retries ([lib/retry.ts], modelled in [Retry]); [newContract], [encodes] and
    [uint64FromString] are the SDK's checks of a contract id and of an argument ([None] when
    it accepts it, else the message it throws) and its conversion. *)

From S2P Require Import Prelude JsString Money JsText.

(** ** The network *)

(** [StellarSdk.Networks] *)
Record Networks : Type := { PUBLIC : string; FUTURENET : string; TESTNET : string }.

Definition nonEmpty (s : option string) : option string := match s with Some "" | None => None | Some s => Some s end%string.

Definition resolveNetworkPassphrase (N : Networks) (configuredPassphrase configuredNetwork : option string) : string :=
  match nonEmpty configuredPassphrase with
  | Some p => p
  | None =>
      match toUpperCase <$> configuredNetwork with
      | Some u => if bool_decide (u = "PUBLIC"%string) || bool_decide (u = "MAINNET"%string) then PUBLIC N
                  else if bool_decide (u = "FUTURENET"%string) then FUTURENET N else TESTNET N
      | None => TESTNET N
      end
  end.

(** ** Invocations *)

Inductive ScVal : Type := ScU64 (z : Z) | ScU32 (z : Z) | ScI128 (z : Z) | ScString (s : string) | ScAddress (a : string).

Record Invocation : Type := {
  source : string; sequence : Z; contract : string; passphrase : string; timeoutSeconds : Z; fn : string; args : list ScVal }.

(** A simulation's answer: an error, no result, or the printed native value of the result. *)
Inductive Simulation : Type := SimError (m : string) | SimNoResult | SimResult (retval : string).

Record Rpc : Type := {
  getAccount : string → result string Z;
  simulateTransaction : Invocation → result string Simulation;
  prepareTransaction : Invocation → result string string }.

Definition DEFAULT_TIMEOUT_SECONDS : Z := 300.

Record ContractService : Type := { contractId : string; tokenContractId : string; networkPassphrase : string }.

Section Builders.
Context (newContract : string → option string) (encodes : ScVal → option string) (uint64FromString : string → result string Z) (svc : ContractService) (rpc : Rpc).

(** [BigInt(s)] *)
Definition bigInt (s : string) : result string Z :=
  match BigInt_string s with Some z => Ok z | None => Err ("Cannot convert " +:+ s +:+ " to a BigInt")%string end.

Definition accept (refusal : option string) : result string unit := match refusal with Some m => Err m | None => Ok tt end.

(** The arguments are converted from left to right; the first that cannot be throws. *)
Fixpoint encodeAll (l : list ScVal) : result string (list ScVal) :=
  match l with
  | [] => mret []
  | v :: l => _ ← accept (encodes v); l' ← encodeAll l; mret (v :: l')
  end.


(** The account and the contract. *)
Definition account (src : string) : result string Z :=
  seq ← getAccount rpc src; _ ← accept (newContract (contractId svc)); mret seq.

(** One call of the contract, built but not yet prepared. *)
Definition call (src : string) (seq : Z) (timeout : Z) (f : string) (arguments : list ScVal) : result string Invocation :=
  vs ← encodeAll arguments;
  mret {| source := src; sequence := seq; contract := contractId svc; passphrase := networkPassphrase svc;
          timeoutSeconds := timeout; fn := f; args := vs |}.

Definition configured : result string unit := throwIf (bool_decide (contractId svc = ""%string)) "CONTRACT_ID is not configured"%string.

(** A configured service's call, whose trade id is read as a [BigInt] after the account. *)
Definition tradeCall (src : string) (f : string) (tradeId : string) (rest : list ScVal) : result string string :=
  _ ← configured;
  seq ← account src;
  tid ← bigInt tradeId;
  tx ← call src seq DEFAULT_TIMEOUT_SECONDS f (ScU64 tid :: rest);
  prepareTransaction rpc tx.

Definition buildConfirmDeliveryTx (tradeId status : string) (sourceAccountId : string) : result string string :=
  _ ← throwIf (negb (bool_decide (status = "FUNDED"%string)))
        ("Trade must be FUNDED before confirm_delivery (current: " +:+ status +:+ ")")%string;
  seq ← account sourceAccountId;
  tid ← uint64FromString tradeId;
  tx ← call sourceAccountId seq 30 "confirm_delivery" [ScU64 tid];
  prepareTransaction rpc tx.

Definition buildReleaseFundsTx (tradeId status : string) (sourceAccountId : string) : result string string :=
  _ ← throwIf (negb (bool_decide (status = "DELIVERED"%string)))
        ("Trade must be DELIVERED before release_funds (current: " +:+ status +:+ ")")%string;
  seq ← account sourceAccountId;
  tid ← uint64FromString tradeId;
  tx ← call sourceAccountId seq 30 "release_funds" [ScU64 tid; ScAddress sourceAccountId];
  prepareTransaction rpc tx.

(** The function the trade service calls for a dispute. *)
Definition buildInitiateDisputeTx (tradeId initiatorAddress reasonHash : string) : result string string :=
  seq ← account initiatorAddress;
  tid ← bigInt tradeId;
  tx ← call initiatorAddress seq 30 "initiate_dispute" [ScU64 tid; ScAddress initiatorAddress; ScString reasonHash];
  prepareTransaction rpc tx.

Record BuildCreateTradeTxInput : Type := {
  buyerAddress : string; sellerAddress : string; amountUsdc : string; buyerLossBps : Z; sellerLossBps : Z }.
Record BuildCreateTradeTxResult : Type := { tradeId : string; unsignedXdr : string }.

Definition moneyMessage (e : money_error) : string := match e with PlainError m | MoneyConversionError m => m end.
Definition stroopsOf (amount : string) : result string Z :=
  match parseDecimalToStroops (AString amount) MONEY_DECIMALS with Ok z => Ok z | Err e => Err (moneyMessage e) end.

Definition extractTradeId (simulation : Simulation) : result string string :=
  match simulation with
  | SimError m => Err ("Failed to simulate create_trade transaction: " +:+ m)%string
  | SimNoResult => Err "Trade simulation did not return a tradeId"%string
  | SimResult v => Ok v
  end.

Definition createArgs (i : BuildCreateTradeTxInput) (amount : Z) : list ScVal :=
  [ScAddress (buyerAddress i); ScAddress (sellerAddress i); ScI128 amount; ScU32 (buyerLossBps i); ScU32 (sellerLossBps i)].

Definition buildCreateTradeTx (i : BuildCreateTradeTxInput) : result string BuildCreateTradeTxResult :=
  _ ← configured;
  seq ← account (buyerAddress i);
  amount ← stroopsOf (amountUsdc i);
  tx ← call (buyerAddress i) seq DEFAULT_TIMEOUT_SECONDS "create_trade" (createArgs i amount);
  sim ← simulateTransaction rpc tx;
  tid ← extractTradeId sim;
  xdr ← prepareTransaction rpc tx;
  mret {| tradeId := tid; unsignedXdr := xdr |}.

Definition buildDepositTx (tid buyer : string) : result string string :=
  _ ← configured;
  _ ← throwIf (bool_decide (tokenContractId svc = ""%string)) "TOKEN_CONTRACT_ID is not configured"%string;
  tradeCall buyer "deposit" tid [].

Definition buildSubmitManifestTx (tid seller driverNameHash driverIdHash : string) : result string string :=
  tradeCall seller "submit_manifest" tid [ScString driverNameHash; ScString driverIdHash].
Definition buildSubmitTradeManifestTx (tid seller ipfsHash : string) : result string string :=
  tradeCall seller "submit_trade_manifest" tid [ScAddress seller; ScString ipfsHash].
Definition buildReleaseMilestoneTx (tid src : string) (milestoneIndex : Z) : result string string :=
  tradeCall src "release_milestone" tid [ScU32 milestoneIndex; ScAddress src].
Definition serviceInitiateDisputeTx (tid initiator reasonHash : string) : result string string :=
  tradeCall initiator "initiate_dispute" tid [ScAddress initiator; ScString reasonHash].

(** The administrator's calls, each logged with its tracing ids before it is built. *)
Record AdminLog : Type := { l_function : string; l_contractId : string; l_correlationId : option string; l_requestId : option string; l_details : list (string * string) }.
Definition logAdminSorobanCall (f : string) (trace : option (string * string)) (details : list (string * string)) : AdminLog :=
  {| l_function := f; l_contractId := contractId svc; l_correlationId := fst <$> trace; l_requestId := snd <$> trace; l_details := details |}.

Definition adminCall (admin f : string) (trace : option (string * string)) (details : list (string * string)) (arguments : list ScVal)
    : list AdminLog * result string string :=
  match configured with
  | Err e => ([], Err e)
  | Ok _ => ([logAdminSorobanCall f trace ((("adminAddress"%string, admin)) :: details)],
             seq ← account admin; tx ← call admin seq DEFAULT_TIMEOUT_SECONDS f arguments; prepareTransaction rpc tx)
  end.
Definition buildAddMediatorTx (admin mediator : string) (trace : option (string * string)) : list AdminLog * result string string :=
  adminCall admin "add_mediator" trace [("mediatorAddress"%string, mediator)] [ScAddress mediator].
Definition buildRemoveMediatorTx (admin mediator : string) (trace : option (string * string)) : list AdminLog * result string string :=
  adminCall admin "remove_mediator" trace [("mediatorAddress"%string, mediator)] [ScAddress mediator].
Definition buildUpdateFeeBpsTx (admin : string) (feeBps : Z) (trace : option (string * string)) : list AdminLog * result string string :=
  adminCall admin "update_fee_bps" trace [("feeBps"%string, toString feeBps)] [ScU32 feeBps].

(** ** What is built *)

Lemma accept_Ok r u : accept r = Ok u ↔ r = None.
Proof. destruct r, u; naive_solver. Qed.

Lemma encodeAll_Ok l l' : encodeAll l = Ok l' → l' = l ∧ Forall (λ v, encodes v = None) l.
Proof.
  revert l'. induction l as [|v l IH]; intros l' H; cbn in H; [by injection H as <-|].
  apply bind_Ok in H as ([] & E%accept_Ok & H). apply bind_Ok in H as (l1 & H1 & H). injection H as <-.
  destruct (IH _ H1) as [-> ?]. by split; [|constructor].
Qed.

Lemma call_Ok src seq timeout f l tx : call src seq timeout f l = Ok tx →
  Forall (λ v, encodes v = None) l ∧
  tx = {| source := src; sequence := seq; contract := contractId svc; passphrase := networkPassphrase svc;
          timeoutSeconds := timeout; fn := f; args := l |}.
Proof. intros H. apply bind_Ok in H as (vs & Hv & H). injection H as <-. apply encodeAll_Ok in Hv as [-> Hv]. done. Qed.

(** An account the network does not know gets no transaction. *)
Lemma account_unknown src e : getAccount rpc src = Err e → account src = Err e.
Proof. intros H. unfold account. by rewrite H. Qed.

(** A created trade is the invocation of [create_trade] with the buyer as source, the amount
    in stroops as the i128, and the split as given; its id is the one simulated, and what is
    returned is that same invocation, prepared. *)
Lemma createTradeTx_built i r : buildCreateTradeTx i = Ok r →
  contractId svc ≠ ""%string ∧ ∃ tx amount,
    parseDecimalToStroops (AString (amountUsdc i)) MONEY_DECIMALS = Ok amount ∧ I128_MIN ≤ amount ≤ I128_MAX ∧
    source tx = buyerAddress i ∧ contract tx = contractId svc ∧ fn tx = "create_trade"%string ∧ args tx = createArgs i amount ∧
    simulateTransaction rpc tx = Ok (SimResult (tradeId r)) ∧ prepareTransaction rpc tx = Ok (unsignedXdr r).
Proof.
  intros H. unfold buildCreateTradeTx in H. apply bind_Ok in H as ([] & Hc%throwIf_Ok & H).
  apply bind_Ok in H as (seq & _ & H). apply bind_Ok in H as (amount & Ha & H). apply bind_Ok in H as (tx & Ht & H).
  apply bind_Ok in H as (sim & Hs & H). apply bind_Ok in H as (tid & Hi & H). apply bind_Ok in H as (xdr & Hx & H). injection H as <-.
  split; [by apply bool_decide_eq_false in Hc|]. apply call_Ok in Ht as [_ Ht].
  unfold stroopsOf in Ha. destruct (parseDecimalToStroops _ _) as [z|] eqn:Hp; [|done]. injection Ha as <-.
  exists tx, z. split; [done|]. split; [by eapply parse_range|]. destruct sim as [| |v]; cbn in Hi; [done..|]. injection Hi as <-.
  rewrite Ht at 1 2 3 4. by split_and!.
Qed.

(** Every call about a trade names it by the integer its id reads as. *)
Lemma tradeCall_built src f t rest xdr : tradeCall src f t rest = Ok xdr →
  ∃ tx tid, BigInt_string t = Some tid ∧ source tx = src ∧ contract tx = contractId svc ∧ contractId svc ≠ ""%string ∧
    fn tx = f ∧ args tx = ScU64 tid :: rest ∧ prepareTransaction rpc tx = Ok xdr.
Proof.
  intros H. unfold tradeCall in H. apply bind_Ok in H as ([] & Hc%throwIf_Ok & H). apply bind_Ok in H as (seq & _ & H).
  apply bind_Ok in H as (tid & Hi & H). apply bind_Ok in H as (tx & Ht & H). apply call_Ok in Ht as [_ Ht].
  unfold bigInt in Hi. destruct (BigInt_string t) as [z|] eqn:Hz; [|done]. injection Hi as <-. apply bool_decide_eq_false in Hc.
  exists tx, z. rewrite Ht at 1 2 3 4. by split_and!.
Qed.

(** A delivery is confirmed for a funded trade only, a release for a delivered one. *)
Lemma confirm_needs_funded t s src xdr : buildConfirmDeliveryTx t s src = Ok xdr → s = "FUNDED"%string.
Proof. intros H. apply bind_Ok in H as ([] & Hc%throwIf_Ok & _). apply negb_false_iff in Hc. by apply bool_decide_eq_true in Hc. Qed.
Lemma release_needs_delivered t s src xdr : buildReleaseFundsTx t s src = Ok xdr → s = "DELIVERED"%string.
Proof. intros H. apply bind_Ok in H as ([] & Hc%throwIf_Ok & _). apply negb_false_iff in Hc. by apply bool_decide_eq_true in Hc. Qed.

(** An administrator's call is logged exactly when it is attempted, whatever comes of it. *)
Lemma admin_call_logged admin f trace details arguments : (adminCall admin f trace details arguments).1 ≠ [] ↔ contractId svc ≠ ""%string.
Proof. unfold adminCall, configured, throwIf. case_bool_decide; cbn; naive_solver. Qed.

(** The two dispute builders agree once the contract is configured, up to their deadlines. *)
Lemma dispute_builders_agree t who h : contractId svc ≠ ""%string →
  (∀ x y, source x = source y → sequence x = sequence y → fn x = fn y → args x = args y → prepareTransaction rpc x = prepareTransaction rpc y) →
  serviceInitiateDisputeTx t who h = buildInitiateDisputeTx t who h.
Proof.
  intros Hc Hp. unfold serviceInitiateDisputeTx, tradeCall, buildInitiateDisputeTx, configured, throwIf.
  rewrite bool_decide_eq_false_2 by done. cbn [mbind result_bind].
  destruct (account who) as [seq|]; [cbn [mbind result_bind]|done]. destruct (bigInt t) as [z|]; [cbn [mbind result_bind]|done].
  unfold call. match goal with |- context [encodeAll ?l] => destruct (encodeAll l) as [vs|] end; [cbn [mbind result_bind mret result_ret]|done]. by apply Hp.
Qed.
End Builders.

(** Without a network in the environment the test network is meant, and so it is for a
    network name that is misspelled. *)
Example misspelled_network N : resolveNetworkPassphrase N (Some "") (Some "mainnet ") = TESTNET N.
Proof. reflexivity. Qed.
Example lower_case_network N : resolveNetworkPassphrase N None (Some "mainnet") = PUBLIC N.
Proof. reflexivity. Qed.
