(* ===== verification/TradeController.v ===== *)
(** * The trade endpoints: [controllers/trade.controller.ts], [routes/trade.routes.ts]

    What the handlers answer and do to the trade table: the trade service ([Trades]) and
    the contract service ([ContractTx]) composed as the controller composes them. A handler
    answers itself or passes an error to the error middleware. [StrKey]'s check of a key is an
    argument; so is what the network and the database do during a request, a [World]. *)

From S2P Require Import Prelude JsString JsValue Errors DbClient Prisma.
From S2P Require Trades ContractTx BulkImport AdminGate Middleware.
From S2P Require Auth EventHandlers Double.
Import Trades (Trade, trade_error).
Import EventHandlers (TradeStatus, TradeStatus_eq_dec, PENDING_SIGNATURE, CREATED, FUNDED, DELIVERED, COMPLETED,
  DISPUTED, CANCELLED, EXPIRED).

Inductive Answer (A : Type) : Type := Respond (status : Z) (body : A) | Next (e : error).
Arguments Respond {A} status body.
Arguments Next {A} e.

Definition statusText (s : TradeStatus) : string :=
  match s with
  | PENDING_SIGNATURE => "PENDING_SIGNATURE" | CREATED => "CREATED" | FUNDED => "FUNDED" | DELIVERED => "DELIVERED"
  | COMPLETED => "COMPLETED" | DISPUTED => "DISPUTED" | CANCELLED => "CANCELLED" | EXPIRED => "EXPIRED" end.

Record CreateTradeBody : Type := { sellerAddress : jsval; amountUsdc : jsval; buyerLossBps : jsval; sellerLossBps : jsval }.
Record TradeRow : Type := { p_seller : string; p_amount : string; p_buyerBps : Z; p_sellerBps : Z }.
Record Created : Type := { tradeId : string; unsignedXdr : string }.

(** The network as the request finds it, and what the insert gets or meets. *)
Record World : Type := { rpc : ContractTx.Rpc; newId : Z; now : Z; dbFailure : option (string * string) }.

Definition isBuyer (tradeBuyer caller : string) : bool := bool_decide (tradeBuyer = caller).
Definition isSeller (tradeSeller caller : string) : bool := bool_decide (tradeSeller = caller).
Definition isBuyerOrAdmin (tradeBuyer caller : string) (admins : list string) : bool :=
  bool_decide (tradeBuyer = caller) || bool_decide (caller ∈ admins).

Section Controller.
Context (isValidEd25519PublicKey : string → bool).
Context (newContract : string → option string) (encodes : ContractTx.ScVal → option string) (uint64FromString : string → result string Z).
Context (svc : ContractTx.ContractService) (ADMIN_STELLAR_PUBKEYS COOPERATIVE_ADMINS COOPERATIVE_MEMBERS : string).
Context {TT TD TC : Type} `{!Table string Trade TT} `{!Table string Trades.Dispute TD} `{!Table Z Trades.DisputeCategory TC}.

Definition isValidPublicKey (value : jsval) : option string :=
  match value with VStr s => if isValidEd25519PublicKey s then Some s else None | _ => None end.
Definition isValidLossBps (value : jsval) : option Z :=
  match value with VNum (JInt n) _ => if (0 <=? n) && (n <=? 10000) then Some n else None | _ => None end.
Definition normalizeAmountUsdc (value : jsval) : option string :=
  match value with
  | VStr s => let normalized := trim s in
              if negb (BulkImport.isAmount normalized) then None
              else if BulkImport.notPositive (StringToNumber normalized) then None else Some normalized
  | _ => None
  end.

Definition invalid {A} (message : string) : result error A := Err (AppError VALIDATION_ERROR message 400).
Definition require {A} (v : option A) (message : string) : result error A := match v with Some a => Ok a | None => invalid message end.

(** The checks of one row, with the controller's messages. *)
Definition prepareSingle (row : CreateTradeBody) : result error TradeRow :=
  seller ← require (isValidPublicKey (sellerAddress row)) "Invalid sellerAddress";
  amount ← require (normalizeAmountUsdc (amountUsdc row)) "Invalid amountUsdc";
  b ← require (isValidLossBps (buyerLossBps row)) "buyerLossBps must be an integer between 0 and 10000";
  s ← require (isValidLossBps (sellerLossBps row)) "sellerLossBps must be an integer between 0 and 10000";
  _ ← throwIf (negb (b + s =? 10000)) (AppError VALIDATION_ERROR "buyerLossBps and sellerLossBps must sum to 10000" 400);
  mret {| p_seller := seller; p_amount := amount; p_buyerBps := b; p_sellerBps := s |}.

Definition prepareTradeRow (row : CreateTradeBody) : result error TradeRow :=
  seller ← require (isValidPublicKey (sellerAddress row)) "Invalid sellerAddress";
  amount ← require (normalizeAmountUsdc (amountUsdc row)) "Invalid amountUsdc";
  b ← require (isValidLossBps (buyerLossBps row)) "buyerLossBps and sellerLossBps must be integers between 0 and 10000";
  s ← require (isValidLossBps (sellerLossBps row)) "buyerLossBps and sellerLossBps must be integers between 0 and 10000";
  _ ← throwIf (negb (b + s =? 10000)) (AppError VALIDATION_ERROR "buyerLossBps and sellerLossBps must sum to 10000" 400);
  mret {| p_seller := seller; p_amount := amount; p_buyerBps := b; p_sellerBps := s |}.

(** The message of what was thrown, and what is an [AppError]. *)
Inductive thrown : Type := FromContract (m : string) | FromService (e : trade_error) | FromCheck (e : error).
Definition appErrorOf (t : thrown) : option error :=
  match t with
  | FromCheck e | FromService (Trades.Raised e) => match e with AppError _ _ _ => Some e | PlainError _ => None end
  | _ => None
  end.
Definition errorText (e : error) : string := match e with AppError _ m _ => m | PlainError m => m end.
Definition messageOfThrown (t : thrown) : string :=
  match t with
  | FromContract m => m
  | FromCheck e => errorText e
  | FromService e => match e with Trades.Raised e => errorText e | Trades.PrismaError _ m | Trades.ContractError m => m | _ => "" end
  end.

Definition contractInput (buyer : string) (p : TradeRow) : ContractTx.BuildCreateTradeTxInput :=
  {| ContractTx.buyerAddress := buyer; ContractTx.sellerAddress := p_seller p; ContractTx.amountUsdc := p_amount p;
     ContractTx.buyerLossBps := p_buyerBps p; ContractTx.sellerLossBps := p_sellerBps p |}.
Definition pendingInput (tid buyer : string) (p : TradeRow) : Trades.CreatePendingTradeInput :=
  {| Trades.in_tradeId := tid; Trades.in_buyerAddress := buyer; Trades.in_sellerAddress := p_seller p; Trades.in_amountUsdc := p_amount p;
     Trades.in_buyerLossBps := p_buyerBps p; Trades.in_sellerLossBps := p_sellerBps p |}.

(** Building the transaction of one row and storing the row. *)
Definition place (buyer : string) (p : TradeRow) (w : World) (trades : TT) : TT * result thrown Created :=
  match ContractTx.buildCreateTradeTx newContract encodes svc (rpc w) (contractInput buyer p) with
  | Err m => (trades, Err (FromContract m))
  | Ok built =>
      match Trades.createPendingTrade trades (pendingInput (ContractTx.tradeId built) buyer p) (newId w) (now w) (dbFailure w) with
      | (trades', Ok _) => (trades', Ok {| tradeId := ContractTx.tradeId built; unsignedXdr := ContractTx.unsignedXdr built |})
      | (trades', Err e) => (trades', Err (FromService e))
      end
  end.

Definition buyerOf (walletAddress : option string) : result error string :=
  match walletAddress with
  | None | Some ""%string => Err (AppError AUTH_ERROR "Wallet address not found in token" 401)
  | Some buyer => if isValidEd25519PublicKey buyer then Ok buyer else invalid "Invalid buyer wallet address"
  end.

Definition nextOr {A} (t : thrown) (message : string) : Answer A :=
  match appErrorOf t with Some e => Next e | None => Next (AppError TRADE_BUILD_FAILED message 500) end.

Definition createTrade (walletAddress : option string) (body : CreateTradeBody) (w : World) (trades : TT) : TT * Answer Created :=
  match (buyer ← buyerOf walletAddress; p ← prepareSingle body; mret (buyer, p)) with
  | Err e => (trades, Next e)
  | Ok (buyer, p) =>
      match place buyer p w trades with
      | (trades', Ok c) => (trades', Respond 201 c)
      | (trades', Err t) => (trades', nextOr t "Failed to create trade")
      end
  end.

(** ** Bulk *)

Record BulkAnswer : Type := { created : list (Z * Created); failed : list (Z * string) }.

Definition bulkRow (buyer : string) (row : CreateTradeBody) (w : World) (trades : TT) : TT * result thrown (Created * string) :=
  match prepareTradeRow row with
  | Err e => (trades, Err (FromCheck e))
  | Ok p => match place buyer p w trades with
            | (trades', Ok c) => (trades', Ok (c, p_amount p))
            | (trades', Err t) => (trades', Err t)
            end
  end.

Fixpoint bulkLoop (buyer : string) (index : Z) (rows : list (CreateTradeBody * World)) (trades : TT) : TT * (BulkAnswer * list string) :=
  match rows with
  | [] => (trades, ({| created := []; failed := [] |}, []))
  | (row, w) :: rows =>
      let '(trades', r) := bulkRow buyer row w trades in
      let '(trades'', (b, amounts)) := bulkLoop buyer (index + 1) rows trades' in
      (trades'', match r with
                 | Ok (c, amount) => ({| created := (index, c) :: created b; failed := failed b |}, amount :: amounts)
                 | Err t => ({| created := created b; failed := (index, messageOfThrown t) :: failed b |}, amounts)
                 end)
  end.

(** The metrics of a batch: the cooperative's label, the region's and an amount, per trade. *)
Definition recordCooperativeBatch (cooperativeId region : option string) (buyerAddress : string) (createdAmounts : list string)
    : list (string * string * string) :=
  match cooperativeId with
  | None | Some ""%string => []
  | Some c =>
      let caller := toLowerCase buyerAddress in
      if bool_decide (caller ∈ Middleware.getCooperativeAdmins COOPERATIVE_ADMINS c) ||
         bool_decide (caller ∈ Middleware.getCooperativeMembers COOPERATIVE_MEMBERS c)
      then let coop := toLowerCase c in let resolvedRegion := toLowerCase (default coop region) in
           map (λ a, (coop, resolvedRegion, a)) createdAmounts
      else []
  end.

Definition createBulkTrades (walletAddress : option string) (rows : list (CreateTradeBody * World)) (cooperativeId region : option string) (trades : TT)
    : TT * Answer BulkAnswer * list (string * string * string) :=
  match buyerOf walletAddress with
  | Err e => (trades, Next e, [])
  | Ok buyer =>
      let '(trades', (b, amounts)) := bulkLoop buyer 0 rows trades in
      (trades', Respond 200 b, recordCooperativeBatch cooperativeId region buyer amounts)
  end.

(** ** Transactions of a trade *)

Definition found (trades : TT) (ident caller : string) : result error Trade :=
  match Trades.getTradeById ADMIN_STELLAR_PUBKEYS trades ident caller with
  | Ok (Some t) => Ok t
  | Ok None => Err (AppError TRADE_NOT_FOUND "Trade not found" 404)
  | Err _ => Err (AppError TRADE_ACCESS_DENIED "Forbidden" 403)
  end.

(** [rebuild] what a failed construction of the transaction becomes. *)
Definition answerTx (r : result error (result string string)) (rebuild : string → string) : Answer string :=
  match r with
  | Err e => Next e
  | Ok (Ok xdr) => Respond 200 xdr
  | Ok (Err m) => Next (AppError TRADE_BUILD_FAILED (rebuild m) 500)
  end.

Definition buildDepositTx (walletAddress : option string) (ident : string) (w : World) (trades : TT) : Answer string :=
  answerTx
    (_ ← throwIf (bool_decide (ident = ""%string)) (AppError VALIDATION_ERROR "Trade id is required" 400);
     caller ← buyerOf walletAddress;
     trade ← found trades ident caller;
     _ ← throwIf (negb (bool_decide (Trades.buyerAddress trade = caller))) (AppError TRADE_ACCESS_DENIED "Forbidden" 403);
     _ ← throwIf (negb (bool_decide (Trades.status trade = CREATED))) (AppError TRADE_INVALID_STATUS "Trade must be in CREATED status" 400);
     mret (ContractTx.buildDepositTx newContract encodes svc (rpc w) (Trades.tradeId trade) (Trades.buyerAddress trade)))
    (λ _, "Failed to build deposit transaction"%string).

Definition callerOf (walletAddress : option string) : result error string :=
  match trim <$> walletAddress with
  | None | Some ""%string => Err (AppError AUTH_ERROR "Unauthorized" 401)
  | Some c => Ok c
  end.

Definition confirmDelivery (walletAddress : option string) (ident : string) (w : World) (trades : TT) : Answer string :=
  answerTx
    (caller ← callerOf walletAddress;
     trade ← found trades ident caller;
     _ ← throwIf (negb (bool_decide (Trades.status trade = FUNDED)))
           (AppError TRADE_INVALID_STATUS ("Trade must be FUNDED to confirm delivery (current: " +:+ statusText (Trades.status trade) +:+ ")") 400);
     _ ← throwIf (negb (isBuyer (Trades.buyerAddress trade) caller)) (AppError TRADE_ACCESS_DENIED "Only the buyer may confirm delivery" 403);
     mret (ContractTx.buildConfirmDeliveryTx newContract encodes uint64FromString svc (rpc w) (Trades.tradeId trade) (statusText (Trades.status trade)) caller))
    (λ m, m).

Definition releaseFunds (walletAddress : option string) (ident : string) (w : World) (trades : TT) : Answer string :=
  answerTx
    (caller ← callerOf walletAddress;
     trade ← found trades ident caller;
     _ ← throwIf (negb (bool_decide (Trades.status trade = DELIVERED)))
           (AppError TRADE_INVALID_STATUS ("Trade must be DELIVERED to release funds (current: " +:+ statusText (Trades.status trade) +:+ ")") 400);
     _ ← throwIf (negb (isBuyerOrAdmin (Trades.buyerAddress trade) caller (AdminGate.getMediatorAllowlist ADMIN_STELLAR_PUBKEYS)))
           (AppError TRADE_ACCESS_DENIED "Only the buyer or an admin may release funds" 403);
     mret (ContractTx.buildReleaseFundsTx newContract encodes uint64FromString svc (rpc w) (Trades.tradeId trade) (statusText (Trades.status trade)) caller))
    (λ m, m).

(** ** Disputes *)

Record DisputeBody : Type := { reason : jsval; category : jsval; categoryId : jsval }.

(** Absent, a positive integer, or anything else. *)
Definition parseCategoryId (v : jsval) : result error (option Z) :=
  match v with
  | VUndefined => Ok None
  | VNum (JInt n) _ => if 0 <? n then Ok (Some n) else invalid "categoryId must be a positive integer"
  | _ => invalid "categoryId must be a positive integer"
  end.

Definition disputeInput (walletAddress : option string) (ident : string) (body : DisputeBody) : result error (string * string * string * option Z) :=
  _ ← throwIf (bool_decide (ident = ""%string)) (AppError VALIDATION_ERROR "Trade id is required" 400);
  caller ← match walletAddress with None | Some ""%string => Err (AppError AUTH_ERROR "Unauthorized" 401) | Some c => Ok c end;
  why ← match reason body with VStr "" => invalid "Reason string is required" | VStr s => Ok s | _ => invalid "Reason string is required" end%string;
  cid ← parseCategoryId (categoryId body);
  mret (caller, why, match category body with VStr s => s | _ => ""%string end, cid).

Definition disputeError (e : trade_error) : error :=
  match e with
  | Trades.TradeAccessDeniedError => AppError TRADE_ACCESS_DENIED "Forbidden" 403
  | Trades.DisputeTradeStatusError s => AppError TRADE_INVALID_STATUS ("Trade must be in FUNDED or DELIVERED status to initiate a dispute (current: " +:+ statusText s +:+ ")") 400
  | Trades.DisputeCategoryValidationError c => AppError DISPUTE_INVALID_CATEGORY ("Invalid dispute category: " +:+ c) 400
  | Trades.TradeNotFound => AppError TRADE_NOT_FOUND "Trade not found" 404
  | Trades.Raised (AppError c m s) => AppError c m s
  | _ => AppError TRADE_BUILD_FAILED "Failed to initiate dispute" 500
  end.

Definition initiateDispute (sha256 : string → string) (walletAddress : option string) (ident : string) (body : DisputeBody) (w : World)
    (trades : TT) (disputes : TD) (categories : TC) : TD * Answer string :=
  match disputeInput walletAddress ident body with
  | Err e => (disputes, Next e)
  | Ok (caller, why, cat, cid) =>
      match Trades.initiateDispute ADMIN_STELLAR_PUBKEYS sha256
              (λ t c h, match ContractTx.serviceInitiateDisputeTx newContract encodes svc (rpc w) t c h with Ok x => Ok x | Err m => Err (Trades.ContractError m) end)
              trades disputes categories ident caller why cat cid with
      | (disputes', Ok xdr) => (disputes', Respond 200 xdr)
      | (disputes', Err e) => (disputes', Next (disputeError e))
      end
  end.

(** ** Reading: the handlers of [routes/trade.routes.ts] *)

Definition getTrade (walletAddress : option string) (ident : string) (trades : TT) : Answer (option Trade) :=
  match callerOf walletAddress with
  | Err _ => Respond 401 None
  | Ok caller =>
      match Trades.getTradeById ADMIN_STELLAR_PUBKEYS trades ident caller with
      | Ok (Some t) => Respond 200 (Some t)
      | Ok None => Respond 404 None
      | Err _ => Respond 403 None
      end
  end.

Definition getStats (walletAddress : option string) (trades : TT) : Answer (option Trades.UserStats) :=
  match callerOf walletAddress with
  | Err _ => Respond 401 None
  | Ok caller => Respond 200 (Some (Trades.getUserStats trades caller))
  end.

(** ** Checks *)

Lemma require_Ok {A} (v : option A) m a : require v m = Ok a ↔ v = Some a.
Proof. destruct v; (split; [by intros [= ->]|by intros [= ->]]). Qed.
Lemma require_Err {A} (v : option A) m e : require v m = Err e ↔ v = None ∧ e = AppError VALIDATION_ERROR m 400.
Proof. destruct v; unfold require, invalid; (split; [intros [= <-]; done|intros [? ->]; done]). Qed.

Lemma buyerOf_Ok w b : buyerOf w = Ok b ↔ w = Some b ∧ b ≠ ""%string ∧ isValidEd25519PublicKey b = true.
Proof.
  unfold buyerOf, invalid. destruct w as [[|c r]|].
  - split; [done|]. by intros ([= <-] & ? & _).
  - destruct (isValidEd25519PublicKey (String c r)) eqn:E; (split; [intros H; try done; injection H as <-; done|intros ([= <-] & _ & H); congruence]).
  - split; [done|]. by intros (? & _).
Qed.
Lemma buyerOf_Err w e : buyerOf w = Err e → ∃ c m s, e = AppError c m s ∧ (s = 400 ∨ s = 401).
Proof. unfold buyerOf, invalid. destruct w as [[|c r]|]; [|destruct (isValidEd25519PublicKey _)|]; intros [= <-]; eauto 8. Qed.

(** What the checks let through. *)
Definition goodRow (p : TradeRow) (row : CreateTradeBody) : Prop :=
  isValidPublicKey (sellerAddress row) = Some (p_seller p) ∧ normalizeAmountUsdc (amountUsdc row) = Some (p_amount p) ∧
  isValidLossBps (buyerLossBps row) = Some (p_buyerBps p) ∧ isValidLossBps (sellerLossBps row) = Some (p_sellerBps p) ∧
  p_buyerBps p + p_sellerBps p = 10000.

Lemma prepareSingle_Ok row p : prepareSingle row = Ok p ↔ goodRow p row.
Proof.
  unfold prepareSingle, goodRow. split.
  - intros H. repeat (apply bind_Ok in H as (? & ?%require_Ok & H)). apply bind_Ok in H as ([] & Hs%throwIf_Ok & H). injection H as <-.
    apply negb_false_iff, Z.eqb_eq in Hs. done.
  - intros (-> & -> & -> & -> & Hs). cbn. unfold throwIf. rewrite (proj2 (Z.eqb_eq _ _) Hs). cbn. by destruct p.
Qed.
Lemma prepareTradeRow_Ok row p : prepareTradeRow row = Ok p ↔ goodRow p row.
Proof.
  unfold prepareTradeRow, goodRow. split.
  - intros H. repeat (apply bind_Ok in H as (? & ?%require_Ok & H)). apply bind_Ok in H as ([] & Hs%throwIf_Ok & H). injection H as <-.
    apply negb_false_iff, Z.eqb_eq in Hs. done.
  - intros (-> & -> & -> & -> & Hs). cbn. unfold throwIf. rewrite (proj2 (Z.eqb_eq _ _) Hs). cbn. by destruct p.
Qed.
Lemma prepareSingle_Err row e : prepareSingle row = Err e → ∃ m, e = AppError VALIDATION_ERROR m 400.
Proof.
  intros H. unfold prepareSingle in H.
  repeat (apply bind_Err in H as [[_ ->]%require_Err|(? & _ & H)]; [by eexists|]).
  apply bind_Err in H as [[_ <-]%throwIf_Err|([] & _ & H)]; [by eexists|done].
Qed.

(** ** Creating *)

Section Stored.
Context `{!TableLaws string Trade TT}.

(** The row of a placed trade: addresses in lower case, waiting for its signature. *)
Definition stored (tid buyer : string) (p : TradeRow) (t : Trade) : Prop :=
  Trades.tradeId t = tid ∧ Trades.buyerAddress t = toLowerCase buyer ∧ Trades.sellerAddress t = toLowerCase (p_seller p) ∧
  Trades.amountUsdc t = p_amount p ∧ Trades.buyerLossBps t = p_buyerBps p ∧ Trades.sellerLossBps t = p_sellerBps p ∧
  Trades.status t = PENDING_SIGNATURE ∧ Trades.version t = 0.

Lemma createPendingTrade_raised (trades : TT) input n t f trades' e : Trades.createPendingTrade trades input n t f = (trades', Err (Trades.Raised e)) →
  ∃ m, e = AppError INFRA_ERROR m 503.
Proof.
  unfold Trades.createPendingTrade. intros H. destruct f as [[c m]|]; [|destruct (create _ _ _)];
    repeat (case_ifs_in H; simplify_eq); try done; by eexists.
Qed.

Lemma place_spec buyer p w trades : let '(trades', r) := place buyer p w trades in
  (∀ c, r = Ok c ↔ ContractTx.buildCreateTradeTx newContract encodes svc (rpc w) (contractInput buyer p) =
              Ok {| ContractTx.tradeId := tradeId c; ContractTx.unsignedXdr := unsignedXdr c |} ∧
      dbFailure w = None ∧ findUnique (tradeId c) trades = None) ∧
  match r with
  | Ok c => (∃ t, findUnique (tradeId c) trades' = Some t ∧ stored (tradeId c) buyer p t) ∧
      ∀ k, k ≠ tradeId c → findUnique k trades' = findUnique k trades
  | Err t => trades' = trades ∧ ∀ e, appErrorOf t = Some e → ∃ m, e = AppError INFRA_ERROR m 503
  end.
Proof.
  unfold place. destruct (ContractTx.buildCreateTradeTx _ _ _ _ _) as [b|m]; [|split; [|done]; intros c; split; [done|by intros (? & _)]].
  assert (∀ trades' e, Trades.createPendingTrade trades (pendingInput (ContractTx.tradeId b) buyer p) (newId w) (now w) (dbFailure w) = (trades', Err e) →
    ∀ e', appErrorOf (FromService e) = Some e' → ∃ m, e' = AppError INFRA_ERROR m 503) as Hx.
  { intros trades' e He e' H. destruct e as [| | | | | |e| |]; try done. apply createPendingTrade_raised in He as (m & ->). cbn in H. simplify_eq. eauto. }
  revert Hx. unfold Trades.createPendingTrade. destruct (dbFailure w) as [[c m]|].
  { intros Hx. destruct (Trades.isPrismaPoolExhaustionError _); (split; [intros ?; split; [done|by intros (_ & ? & _)]|]); (split; [done|by eapply Hx]). }
  cbn [Trades.in_tradeId pendingInput]. intros Hx. destruct (create _ _ trades) as [trades'|] eqn:Hc.
  - pose proof (create_inv _ _ _ _ Hc) as (Hn & Hs & Ho). cbn [tradeId unsignedXdr]. split; [|split; [|done]].
    + intros c. split; [intros [= <-]; by destruct b|]. intros ([= ->] & _ & _). by destruct c.
    + eexists. split; [exact Hs|]. by split_and!.
  - apply create_None in Hc as [t Ht]. split; [|by split; [|eapply Hx]].
    intros c. split; [done|]. intros ([= ->] & _ & Hn). cbn in Ht. congruence.
Qed.

(** A decimal text: its whole part and the one to seven digits after its point, if any. *)
Definition decimalText (s whole frac : string) : Prop :=
  whole ≠ ""%string ∧ str_forall is_digit whole = true ∧ str_forall is_digit frac = true ∧
  (s = whole ∧ frac = ""%string ∨ s = (whole +:+ "." +:+ frac)%string ∧ (1 ≤ strlen frac ≤ 7)%nat).

(** What makes a row acceptable, and how it is read: the seller is a key, the amount a text
    that is a positive decimal once trimmed, the losses are integers between 0 and 10000
    that add up to 10000. *)
Record acceptable (body : CreateTradeBody) (p : TradeRow) : Prop := {
  acc_seller : sellerAddress body = VStr (p_seller p) ∧ isValidEd25519PublicKey (p_seller p) = true;
  acc_amount : ∃ raw whole frac, amountUsdc body = VStr raw ∧ p_amount p = trim raw ∧ decimalText (trim raw) whole frac ∧
    0 < BigInt_digits (whole +:+ frac);
  acc_buyer : (∃ r, buyerLossBps body = VNum (JInt (p_buyerBps p)) r) ∧ 0 ≤ p_buyerBps p ≤ 10000;
  acc_sellerBps : (∃ r, sellerLossBps body = VNum (JInt (p_sellerBps p)) r) ∧ 0 ≤ p_sellerBps p ≤ 10000;
  acc_sum : p_buyerBps p + p_sellerBps p = 10000;
}.

Lemma spanDigit_stop whole rest : str_forall is_digit whole = true → match rest with String c _ => is_digit c = false | _ => True end →
  BulkImport.spanDigit (whole +:+ rest) = (whole, rest).
Proof.
  intros Hw Hr. induction whole as [|c w IH].
  - destruct rest as [|c r]; [done|]. rewrite app_nil_l_str. cbn [BulkImport.spanDigit]. by rewrite Hr.
  - rewrite app_cons_str. cbn [BulkImport.spanDigit]. cbn [str_forall] in Hw. apply andb_true_iff in Hw as [-> Hw]. by rewrite IH.
Qed.

Lemma isAmount_spec s : BulkImport.isAmount s = true ↔ ∃ whole frac, decimalText s whole frac.
Proof.
  unfold BulkImport.isAmount, decimalText. split.
  - pose proof (BulkImport.spanDigit_app s) as H. destruct (BulkImport.spanDigit s) as [w r]. destruct H as [-> Hw].
    intros [Hne%negb_true_iff%bool_decide_eq_false Hr]%andb_true_iff. destruct r as [|c r]; [exists w, ""%string; rewrite app_nil_r_str; by split_and!; try left|].
    assert (c = "."%char) as -> by (by destruct c as [[] [] [] [] [] [] [] []]).
    apply andb_true_iff in Hr as [[Hf H1%Nat.leb_le]%andb_true_iff H7%Nat.leb_le]. exists w, r. split_and!; [done..|]. by right.
  - intros (w & f & Hne & Hw & Hf & [[-> ->]|[-> [H1 H7]]]).
    + rewrite <-(app_nil_r_str w), (spanDigit_stop w "" Hw I). by rewrite bool_decide_eq_false_2.
    + rewrite (spanDigit_stop w ("." +:+ f) Hw eq_refl). rewrite bool_decide_eq_false_2 by done. change ("." +:+ f)%string with (String "." f). cbn iota. by rewrite Hf, !(proj2 (Nat.leb_le _ _)).
Qed.

(** Rounding to a double keeps a small fraction positive. *)
Lemma roundDouble_positive p q : 0 < p → 0 < q ≤ 10 ^ 7 → BulkImport.notPositive (roundDouble p q) = false.
Proof.
  intros Hp Hq. unfold roundDouble. rewrite (proj2 (Z.eqb_neq p 0)) by lia. cbv zeta. set (k := doubleExponent p q).
  assert (Hk : k ≤ Z.log2 p - Z.log2 q - 52).
  { unfold k, doubleExponent. cbv zeta. assert (Z.log2 q ≤ 23) by (change 23 with (Z.log2 (10 ^ 7)); apply Z.log2_le_mono; lia).
    pose proof (Z.log2_nonneg p). case_ifs; lia. }
  assert (HPQ : 0 < q * 2 ^ Z.max 0 k ≤ p * 2 ^ Z.max 0 (- k)).
  { pose proof (Z.log2_spec p Hp) as [Hlp _]. pose proof (Z.log2_spec q ltac:(lia)) as [_ Hlq]. pose proof (Z.log2_nonneg q). pose proof (Z.log2_nonneg p).
    split; [apply Z.mul_pos_pos; [lia|apply Z.pow_pos_nonneg; lia]|].
    transitivity (2 ^ Z.succ (Z.log2 q) * 2 ^ Z.max 0 k); [apply Z.mul_le_mono_nonneg_r; lia|].
    transitivity (2 ^ Z.log2 p * 2 ^ Z.max 0 (- k)); [|apply Z.mul_le_mono_nonneg_r; lia].
    rewrite <-!Z.pow_add_r by lia. apply Z.pow_le_mono_r; lia. }
  set (P := p * 2 ^ Z.max 0 (- k)) in *. set (Q := q * 2 ^ Z.max 0 k) in *.
  assert (Hn : 0 < roundHalfEven P Q).
  { unfold roundHalfEven. assert (1 ≤ P / Q) by (apply Z.div_le_lower_bound; lia). cbv zeta. case_ifs; lia. }
  set (n := roundHalfEven P Q) in *. destruct (Z.leb_spec 0 k).
  - case_ifs; [done|]. cbn. apply Z.leb_gt. apply Z.mul_pos_pos; [done|apply Z.pow_pos_nonneg; lia].
  - assert (0 < 2 ^ (- k)) as Hj by (apply Z.pow_pos_nonneg; lia). destruct (Z.eqb_spec (n mod 2 ^ (- k)) 0) as [Hm|_]; cbn.
    + apply Z.leb_gt. pose proof (Z.div_mod n (2 ^ (- k)) ltac:(lia)). nia.
    + apply Z.ltb_ge. apply Z.div_pos; lia.
Qed.

Lemma digit_first c r : is_digit c = true → signed (String c r) = (false, String c r) ∧ trimStart (String c r) = String c r.
Proof. intros H. split; [by destruct c as [[] [] [] [] [] [] [] []]|]. apply trimStart_id. by apply negb_true_iff, digit_not_space. Qed.

(** [Number] of a decimal text is positive exactly when one of its digits is not 0. *)
Lemma decimal_positive s whole frac : decimalText s whole frac → trim s = s →
  BulkImport.notPositive (StringToNumber s) = negb (0 <? BigInt_digits (whole +:+ frac)).
Proof.
  intros (Hne & Hw & Hf & Hs) Ht.
  assert (unsignedDecimal s = Some (BigInt_digits (whole +:+ frac), - Z.of_nat (strlen frac)) ∧ (strlen frac ≤ 7)%nat) as [Hu Hlen].
  { unfold unsignedDecimal, BigInt_digits. rewrite value_acc_app.
    destruct Hs as [[-> ->]|[-> Hl]].
    - rewrite spanDigits_digits by done. destruct whole; [done|]. cbn [strlen Nat.add Nat.eqb]. split; [done|lia].
    - rewrite (Double.spanDigits_app whole ("." +:+ frac)) by done. change ("." +:+ frac)%string with (String "." frac). cbn [spanDigits]. change (digitIn 10 ".") with (@None Z). cbn iota.
      rewrite spanDigits_digits by done. cbn [Nat.add]. destruct whole; [done|]. cbn [strlen Nat.add Nat.eqb]. split; [done|lia]. }
  assert (∃ c r, s = String c r ∧ is_digit c = true ∧ match r with String d _ => is_digit d = true ∨ d = "."%char | _ => True end) as (c & r & -> & Hc & Hr).
  { destruct whole as [|c w]; [done|]. cbn in Hw. apply andb_true_iff in Hw as [Hc Hw]. exists c.
    destruct Hs as [[-> _]|[-> _]]; [exists w|exists (w +:+ "." +:+ frac)%string]; (split; [done|]; split; [done|]).
    - destruct w as [|d w]; [done|]. cbn in Hw. apply andb_true_iff in Hw as [? _]. by left.
    - destruct w as [|d w]; [by right|]. cbn in Hw. apply andb_true_iff in Hw as [? _]. by left. }
  assert (StringToNumber (String c r) = roundDouble (BigInt_digits (whole +:+ frac) * 10 ^ 0) (10 ^ Z.of_nat (strlen frac))) as ->.
  { assert (bool_decide (String c r = "Infinity"%string) = false) as Hinf by (apply bool_decide_eq_false; intros [= -> _]; done).
    assert ((let '(neg, u) := signed (String c r) in
        let v := if bool_decide (u = "Infinity"%string) then JPosInf
               else match unsignedDecimal u with
                    | Some (m, e) => roundDouble (m * 10 ^ Z.max 0 e) (10 ^ Z.max 0 (- e))
                    | None => JNaN
                    end in
        if neg then jneg v else v) = roundDouble (BigInt_digits (whole +:+ frac) * 10 ^ 0) (10 ^ Z.of_nat (strlen frac))) as <-.
    { rewrite (proj1 (digit_first c r Hc)), Hinf, Hu. cbv zeta. by rewrite Z.max_l, Z.max_r, Z.opp_involutive by lia. }
    unfold StringToNumber. rewrite Ht. clear Ht Hs Hu Hinf.
    destruct (decide (c = "0"%char)) as [->|H0].
    - destruct r as [|d r]; [reflexivity|]. destruct Hr as [Hr| ->]; [|reflexivity].
      destruct d as [[] [] [] [] [] [] [] []]; first [discriminate Hr|reflexivity].
    - destruct c as [[] [] [] [] [] [] [] []]; first [reflexivity|by destruct H0]. }
  rewrite Z.pow_0_r, Z.mul_1_r. destruct (Z.ltb_spec 0 (BigInt_digits (whole +:+ frac))) as [Hpos|Hz].
  - apply roundDouble_positive; [done|]. split; [apply Z.pow_pos_nonneg; lia|apply Z.pow_le_mono_r; lia].
  - assert (BigInt_digits (whole +:+ frac) = 0) as ->; [|done].
    pose proof (value_acc_bound (whole +:+ frac)) as Hd. rewrite str_forall_app, Hw, Hf in Hd. specialize (Hd eq_refl).
    unfold BigInt_digits in *. lia.
Qed.

Lemma normalizeAmountUsdc_spec v a : normalizeAmountUsdc v = Some a ↔
  ∃ raw whole frac, v = VStr raw ∧ a = trim raw ∧ decimalText (trim raw) whole frac ∧ 0 < BigInt_digits (whole +:+ frac).
Proof.
  unfold normalizeAmountUsdc. destruct v as [| | | | |raw|]; try (split; [done|by intros (? & ? & ? & ? & _)]).
  pose proof (isAmount_spec (trim raw)) as Hspec.
  assert (BulkImport.isAmount (trim raw) = true → trim (trim raw) = trim raw) as Htt.
  { intros H%BulkImport.amount_plain. apply trim_nospace. revert H. apply str_forall_impl. unfold BulkImport.plain. by intros c [H _]%andb_true_iff. }
  destruct (BulkImport.isAmount (trim raw)) eqn:E; cbn [negb].
  - pose proof (proj1 Hspec eq_refl) as (w & f & Hd). rewrite (decimal_positive _ w f Hd (Htt eq_refl)).
    split.
    + destruct (Z.ltb_spec 0 (BigInt_digits (w +:+ f))); [|done]. intros [= <-]. by exists raw, w, f.
    + intros (raw' & w' & f' & [= <-] & -> & Hd' & Hpos). 
      assert (BigInt_digits (w +:+ f) = BigInt_digits (w' +:+ f')) as ->.
      { destruct Hd as (_ & Hw & _ & Hs), Hd' as (_ & Hw' & _ & Hs').
        destruct Hs as [[Ew ->]|[Ew ?]], Hs' as [[Ew' ->]|[Ew' ?]].
        - by rewrite <-Ew, <-Ew'.
        - exfalso. rewrite Ew in Ew'. rewrite Ew', str_forall_app in Hw. cbn in Hw. by rewrite andb_false_r in Hw.
        - exfalso. rewrite Ew in Ew'. rewrite <-Ew', str_forall_app in Hw'. cbn in Hw'. by rewrite andb_false_r in Hw'.
        - assert (∀ u, str_forall is_digit u = true → lacks "." u) as Hl.
          { intros u. apply str_forall_impl. intros c Hc. by rewrite (digit_ne c "." Hc eq_refl). }
          rewrite Ew in Ew'. by apply (split_at_unique "." w w' f f') in Ew' as [-> ->]; [|apply Hl..]. }
      by rewrite (proj2 (Z.ltb_lt _ _)).
  - split; [done|]. intros (raw' & w & f & [= <-] & _ & Hd & _). assert (false = true) by (apply Hspec; eauto). done.
Qed.

Lemma isValidLossBps_spec v n : isValidLossBps v = Some n ↔ (∃ r, v = VNum (JInt n) r) ∧ 0 ≤ n ≤ 10000.
Proof.
  unfold isValidLossBps. destruct v as [| | |[z|z| | |] r| | |]; try (split; [done|by intros [[? ?] _]]).
  destruct ((0 <=? z) && (z <=? 10000)) eqn:E.
  - split; [intros [= <-]; split; [eauto|zb; lia]|by intros [[? [= -> _]] _]].
  - split; [done|]. intros [[? [= -> _]] ?]. zb. lia.
Qed.

Lemma goodRow_acceptable p body : goodRow p body ↔ acceptable body p.
Proof.
  unfold goodRow. rewrite normalizeAmountUsdc_spec, !isValidLossBps_spec.
  assert (isValidPublicKey (sellerAddress body) = Some (p_seller p) ↔ sellerAddress body = VStr (p_seller p) ∧ isValidEd25519PublicKey (p_seller p) = true) as ->.
  { unfold isValidPublicKey. destruct (sellerAddress body) as [| | | | |s|]; try (split; [done|by intros [? _]]).
    destruct (isValidEd25519PublicKey s) eqn:E; (split; [intros H; try done; injection H as <-; done|intros [[= <-] ?]; congruence]). }
  split; [intros (? & ? & ? & ? & ?); by constructor|by intros []].
Qed.

(** C19: A trade is created exactly for a caller with a valid key and an [acceptable] row, when the
    contract call for that buyer, seller, amount and split could be built, the database
    answers and the id of the simulation is not taken: the answer is that id and the prepared
    transaction, and one row waiting for its signature is added under the id, with the amount
    and the split as accepted. Every other answer is an error and leaves the trades as they
    were. *)
Theorem createTrade_spec walletAddress body w trades : let '(trades', a) := createTrade walletAddress body w trades in
  (∀ status c, a = Respond status c ↔ status = 201 ∧ ∃ buyer p,
      walletAddress = Some buyer ∧ buyer ≠ ""%string ∧ isValidEd25519PublicKey buyer = true ∧ acceptable body p ∧
      ContractTx.buildCreateTradeTx newContract encodes svc (rpc w)
        {| ContractTx.buyerAddress := buyer; ContractTx.sellerAddress := p_seller p; ContractTx.amountUsdc := p_amount p;
           ContractTx.buyerLossBps := p_buyerBps p; ContractTx.sellerLossBps := p_sellerBps p |} =
        Ok {| ContractTx.tradeId := tradeId c; ContractTx.unsignedXdr := unsignedXdr c |} ∧
      dbFailure w = None ∧ findUnique (tradeId c) trades = None) ∧
  match a with
  | Respond _ c => (∃ buyer p t, walletAddress = Some buyer ∧ acceptable body p ∧
        findUnique (tradeId c) trades' = Some t ∧ stored (tradeId c) buyer p t) ∧
      ∀ k, k ≠ tradeId c → findUnique k trades' = findUnique k trades
  | Next e => trades' = trades ∧ ∃ c m s, e = AppError c m s ∧ 400 ≤ s
  end.
Proof.
  unfold createTrade. destruct (mbind _ _) as [[buyer p]|e] eqn:H.
  - apply bind_Ok in H as (b & [-> [Hne Hv]]%buyerOf_Ok & H). apply bind_Ok in H as (q & Hq%prepareSingle_Ok & H). injection H as -> ->.
    assert (∀ p', acceptable body p' → p' = p) as Hp'.
    { intros p' Hg%goodRow_acceptable. unfold goodRow in *. destruct p, p', Hq as (? & ? & ? & ? & _), Hg as (? & ? & ? & ? & _). cbn in *. congruence. }
    pose proof (proj1 (goodRow_acceptable _ _) Hq) as Hacc.
    pose proof (place_spec buyer p w trades) as Hp. destruct (place buyer p w trades) as [trades' r]. destruct Hp as [Hiff Hp].
    assert (∀ status c, status = 201 ∧ r = Ok c ↔ status = 201 ∧ ∃ buyer0 p0,
      Some buyer = Some buyer0 ∧ buyer0 ≠ ""%string ∧ isValidEd25519PublicKey buyer0 = true ∧ acceptable body p0 ∧
      ContractTx.buildCreateTradeTx newContract encodes svc (rpc w) (contractInput buyer0 p0) =
        Ok {| ContractTx.tradeId := tradeId c; ContractTx.unsignedXdr := unsignedXdr c |} ∧
      dbFailure w = None ∧ findUnique (tradeId c) trades = None) as Hall.
    { intros status c. rewrite Hiff. split; [intros [-> (? & ? & ?)]; eauto 12|].
      intros (-> & b & p' & [= <-] & _ & _ & ->%Hp' & ? & ? & ?). done. }
    destruct r as [c|t].
    + split; [|split; [|by destruct Hp]].
      * intros status c'. unfold contractInput in Hall. rewrite <-Hall. split; [intros [= <- <-]; done|intros [-> [= <-]]; done].
      * destruct Hp as [(t & ? & ?) _]. eauto 10.
    + split.
      * intros status c'. unfold contractInput in Hall. rewrite <-Hall. split; [|by intros [_ ?]]. unfold nextOr. by destruct (appErrorOf t).
      * destruct Hp as [-> Hp]. unfold nextOr. destruct (appErrorOf t) as [e|]; (split; [done|]).
        -- destruct (Hp e eq_refl) as (m & ->). eexists _, _, _. split; [done|lia].
        -- eexists _, _, _. split; [done|lia].
  - split.
    + intros status c. split; [done|]. intros (_ & b & p & Hb & Hne & Hv & Hacc%goodRow_acceptable & _).
      rewrite (proj2 (buyerOf_Ok walletAddress b)) in H by done. cbn [mbind result_bind] in H.
      rewrite (proj2 (prepareSingle_Ok body p) Hacc) in H. done.
    + split; [done|]. apply bind_Err in H as [(c & m & s & -> & ?)%buyerOf_Err|(b & _ & H)]; [eexists _, _, _; split; [done|lia]|].
      apply bind_Err in H as [(m & ->)%prepareSingle_Err|(? & _ & ?)]; [eexists _, _, _; split; [done|lia]|done].
Qed.
End Stored.

(** *** A batch is its rows *)

(** The rows sent one by one to the single endpoint. *)
Fixpoint singles (walletAddress : option string) (rows : list (CreateTradeBody * World)) (trades : TT) : TT * list (Answer Created) :=
  match rows with
  | [] => (trades, [])
  | (row, w) :: rows =>
      let '(trades', a) := createTrade walletAddress row w trades in
      let '(trades'', l) := singles walletAddress rows trades' in (trades'', a :: l)
  end.

Fixpoint createdIn (index : Z) (l : list (Answer Created)) : list (Z * Created) :=
  match l with [] => [] | Respond _ c :: l => (index, c) :: createdIn (index + 1) l | Next _ :: l => createdIn (index + 1) l end.
Fixpoint failedIn (index : Z) (l : list (Answer Created)) : list Z :=
  match l with [] => [] | Respond _ _ :: l => failedIn (index + 1) l | Next _ :: l => index :: failedIn (index + 1) l end.

Lemma bulkRow_single walletAddress buyer row w trades : buyerOf walletAddress = Ok buyer →
  (bulkRow buyer row w trades).1 = (createTrade walletAddress row w trades).1 ∧
  match (bulkRow buyer row w trades).2 with
  | Ok (c, _) => (createTrade walletAddress row w trades).2 = Respond 201 c
  | Err _ => ∃ e, (createTrade walletAddress row w trades).2 = Next e
  end.
Proof.
  intros Hb. unfold bulkRow, createTrade. rewrite Hb. cbn [mbind result_bind].
  destruct (prepareTradeRow row) as [p|e] eqn:Hp.
  - pose proof (proj2 (prepareSingle_Ok row p) (proj1 (prepareTradeRow_Ok row p) Hp)) as ->. cbn [mbind result_bind mret result_ret].
    destruct (place buyer p w trades) as [trades' [c|t]]; [done|]. split; [done|]. cbn [snd]. unfold nextOr. destruct (appErrorOf t); eauto.
  - destruct (prepareSingle row) as [q|e'] eqn:Hs; [|cbn; eauto].
    pose proof (proj2 (prepareTradeRow_Ok row q) (proj1 (prepareSingle_Ok row q) Hs)). congruence.
Qed.

Lemma bulkLoop_singles walletAddress buyer : buyerOf walletAddress = Ok buyer → ∀ rows index trades,
  (bulkLoop buyer index rows trades).1 = (singles walletAddress rows trades).1 ∧
  created (bulkLoop buyer index rows trades).2.1 = createdIn index (singles walletAddress rows trades).2 ∧
  map fst (failed (bulkLoop buyer index rows trades).2.1) = failedIn index (singles walletAddress rows trades).2.
Proof.
  intros Hb rows. induction rows as [|[row w] rows IH]; intros index trades; [done|]. cbn [bulkLoop singles].
  pose proof (bulkRow_single walletAddress buyer row w trades Hb) as [H1 H2].
  destruct (bulkRow buyer row w trades) as [t r], (createTrade walletAddress row w trades) as [t' a]. cbn [fst snd] in *. subst t'.
  specialize (IH (index + 1) t). destruct (bulkLoop buyer (index + 1) rows t) as [t1 [b amounts]], (singles walletAddress rows t) as [t2 l].
  cbn [fst snd] in *. destruct IH as (-> & IHc & IHf). destruct r as [[c amount]|x].
  - subst a. cbn. by rewrite IHc, IHf.
  - destruct H2 as [e ->]. cbn. by rewrite IHc, IHf.
Qed.

(** A bulk request from a caller with a valid key leaves the trades and reports the
    results of sending its rows one by one to the single endpoint: each row is either created,
    with the same id and transaction, or reported failed, and none stops the others. From
    any other caller nothing happens. *)
Theorem bulk_as_singles walletAddress rows cooperativeId region trades :
  match createBulkTrades walletAddress rows cooperativeId region trades with
  | (trades', Respond status b, _) => status = 200 ∧ trades' = (singles walletAddress rows trades).1 ∧
      created b = createdIn 0 (singles walletAddress rows trades).2 ∧ map fst (failed b) = failedIn 0 (singles walletAddress rows trades).2
  | (trades', Next e, metrics) => trades' = trades ∧ metrics = [] ∧
      ∀ row w trades, createTrade walletAddress row w trades = (trades, Next e)
  end.
Proof.
  unfold createBulkTrades. destruct (buyerOf walletAddress) as [buyer|e] eqn:Hb.
  - pose proof (bulkLoop_singles walletAddress buyer Hb rows 0 trades) as H.
    destruct (bulkLoop buyer 0 rows trades) as [trades' [b amounts]]. cbn [fst snd] in H. done.
  - split; [done|]. split; [done|]. intros. unfold createTrade. by rewrite Hb.
Qed.

(** The two lists share out the indexes of the batch, each in order. *)
Lemma batch_partition l : ∀ index, map fst (createdIn index l) ++ failedIn index l ≡ₚ map (λ i, index + Z.of_nat i) (seq 0 (length l)).
Proof.
  induction l as [|a l IH]; intros index; [done|]. cbn [length seq map]. rewrite Z.add_0_r, <-seq_shift, map_map.
  assert (map (λ i, index + Z.of_nat (S i)) (seq 0 (length l)) = map (λ i, index + 1 + Z.of_nat i) (seq 0 (length l))) as ->
    by (apply map_ext; intros; lia).
  rewrite <-IH. destruct a; cbn [createdIn failedIn map app fst]; [done|]. by rewrite Permutation_middle.
Qed.

(** Only members and administrators of a cooperative have a batch attributed to it, one
    record per trade created. *)
Lemma attribution_checked cooperativeId region buyer amounts m : m ∈ recordCooperativeBatch cooperativeId region buyer amounts →
  ∃ c, cooperativeId = Some c ∧ (toLowerCase buyer ∈ Middleware.getCooperativeAdmins COOPERATIVE_ADMINS c ∨
    toLowerCase buyer ∈ Middleware.getCooperativeMembers COOPERATIVE_MEMBERS c).
Proof.
  unfold recordCooperativeBatch. destruct cooperativeId as [[|x c]|]; [set_solver| |set_solver]. set (k := String x c).
  intros H. exists k. split; [done|]. destruct (bool_decide (toLowerCase buyer ∈ Middleware.getCooperativeAdmins _ _)) eqn:E1; [left; by apply bool_decide_eq_true in E1|].
  destruct (bool_decide (toLowerCase buyer ∈ Middleware.getCooperativeMembers _ _)) eqn:E2; [right; by apply bool_decide_eq_true in E2|]. cbn in H. set_solver.
Qed.

(** ** Transactions *)

Lemma answerTx_200 r f s xdr : answerTx r f = Respond s xdr ↔ s = 200 ∧ r = Ok (Ok xdr).
Proof. destruct r as [[x|m]|e]; cbn; naive_solver. Qed.

Section Found.
Context `{!TableLaws string Trade TT}.

Lemma found_Ok trades ident caller t : found trades ident caller = Ok t →
  (∃ k, findUnique (K := string) k trades = Some t) ∧ Trades.matchesId ident t = true.
Proof.
  unfold found, Trades.getTradeById. destruct (findFirst _ trades) as [t'|] eqn:Hf; [|done]. intros H.
  assert (t' = t) as -> by (destruct (_ || _) in H; by simplify_eq). apply findFirst_Some in Hf as (k & ? & ?). eauto.
Qed.

(** C14: A confirmation is built only for the buyer of a funded trade, a release only for the
    buyer of a delivered one or an administrator who may read it, a deposit only for the buyer
    of a trade the contract has created; what is returned is the contract service's transaction
    for that trade, and anything else is an error. *)
Theorem transactions_guarded walletAddress ident w trades s xdr :
  (confirmDelivery walletAddress ident w trades = Respond s xdr → s = 200 ∧ ∃ caller t, trim <$> walletAddress = Some caller ∧
     (∃ k, findUnique (K := string) k trades = Some t) ∧ Trades.matchesId ident t = true ∧ Trades.status t = FUNDED ∧ Trades.buyerAddress t = caller ∧
     ContractTx.buildConfirmDeliveryTx newContract encodes uint64FromString svc (rpc w) (Trades.tradeId t) "FUNDED" caller = Ok xdr) ∧
  (releaseFunds walletAddress ident w trades = Respond s xdr → s = 200 ∧ ∃ caller t, trim <$> walletAddress = Some caller ∧
     (∃ k, findUnique (K := string) k trades = Some t) ∧ Trades.matchesId ident t = true ∧ Trades.status t = DELIVERED ∧
     (Trades.buyerAddress t = caller ∨ caller ∈ AdminGate.getMediatorAllowlist ADMIN_STELLAR_PUBKEYS) ∧
     ContractTx.buildReleaseFundsTx newContract encodes uint64FromString svc (rpc w) (Trades.tradeId t) "DELIVERED" caller = Ok xdr) ∧
  (buildDepositTx walletAddress ident w trades = Respond s xdr → s = 200 ∧ ∃ caller t, walletAddress = Some caller ∧
     (∃ k, findUnique (K := string) k trades = Some t) ∧ Trades.matchesId ident t = true ∧ Trades.status t = CREATED ∧ Trades.buyerAddress t = caller ∧
     ContractTx.buildDepositTx newContract encodes svc (rpc w) (Trades.tradeId t) caller = Ok xdr).
Proof.
  assert (∀ c, callerOf walletAddress = Ok c → trim <$> walletAddress = Some c) as Hcaller.
  { intros c. unfold callerOf. destruct (trim <$> walletAddress) as [[|a r]|]; [done| |done]. by intros [= <-]. }
  split_and!; intros Ha; apply answerTx_200 in Ha as [? H]; (split; [done|]).
  - apply bind_Ok in H as (caller & Hc%Hcaller & H). apply bind_Ok in H as (t & [Hk Hm]%found_Ok & H).
    apply bind_Ok in H as ([] & Hs%throwIf_Ok & H). apply bind_Ok in H as ([] & Hb%throwIf_Ok & H).
    apply negb_false_iff, bool_decide_eq_true in Hs, Hb. injection H as H. rewrite Hs in H. exists caller, t. by split_and!.
  - apply bind_Ok in H as (caller & Hc%Hcaller & H). apply bind_Ok in H as (t & [Hk Hm]%found_Ok & H).
    apply bind_Ok in H as ([] & Hs%throwIf_Ok & H). apply bind_Ok in H as ([] & Hb%throwIf_Ok & H).
    apply negb_false_iff, bool_decide_eq_true in Hs. apply negb_false_iff, orb_true_iff in Hb. rewrite !bool_decide_eq_true in Hb.
    injection H as H. rewrite Hs in H. exists caller, t. by split_and!.
  - apply bind_Ok in H as ([] & _ & H). apply bind_Ok in H as (caller & [-> [_ _]]%buyerOf_Ok & H). apply bind_Ok in H as (t & [Hk Hm]%found_Ok & H).
    apply bind_Ok in H as ([] & Hb%throwIf_Ok & H). apply bind_Ok in H as ([] & Hs%throwIf_Ok & H).
    apply negb_false_iff, bool_decide_eq_true in Hs, Hb. injection H as H. rewrite Hb in H. exists caller, t. by split_and!.
Qed.
End Found.

(** *** Capitals

    A Stellar key is written in capitals and [StrKey] accepts no other form; the tokens carry
    it in lower case ([Auth.newPayload]) and the database stores it in lower case ([DbClient]). *)
Section Capitals.
Hypothesis keys_have_capitals : ∀ a, isValidEd25519PublicKey a = true → toLowerCase a ≠ a.

(** So no token the service issues creates a trade, alone or in a batch, or a deposit... *)
Theorem issued_tokens_place_nothing env wallet uuid v t : let caller := Auth.walletAddress (Auth.newPayload env wallet uuid v t) in
  (∀ body w trades, ∃ e, createTrade caller body w trades = (trades, Next e)) ∧
  (∀ rows c r trades, ∃ e, createBulkTrades caller rows c r trades = (trades, Next e, [])) ∧
  (∀ ident w trades, ∃ e, buildDepositTx caller ident w trades = Next e).
Proof.
  intros caller. assert (∃ e, buyerOf caller = Err e) as [e He].
  { destruct (buyerOf caller) as [b|e] eqn:E; [|eauto]. apply buyerOf_Ok in E as (E & _ & Hv). injection E as <-.
    destruct (keys_have_capitals _ Hv). apply toLowerCase_idemp. }
  split_and!; [intros; exists e| |].
  - unfold createTrade. by rewrite He.
  - intros. exists e. unfold createBulkTrades. by rewrite He.
  - intros ident w trades. unfold buildDepositTx. destruct (bool_decide (ident = ""%string)); [by eexists|]. rewrite He. by eexists.
Qed.

(** ... and no caller gets a deposit for a trade the controller stored, however the caller
    writes its own key. *)
Definition lowered (trades : TT) : Prop :=
  ∀ k t, findUnique (K := string) k trades = Some t → toLowerCase (Trades.buyerAddress t) = Trades.buyerAddress t.

Context `{!TableLaws string Trade TT}.

Lemma createTrade_lowered walletAddress body w trades : lowered trades → lowered (createTrade walletAddress body w trades).1.
Proof.
  intros Hl. unfold createTrade. destruct (mbind _ _) as [[buyer p]|e]; [|exact Hl].
  pose proof (place_spec buyer p w trades) as H. destruct (place buyer p w trades) as [trades' [c|t]]; [|by destruct H as (_ & -> & _)].
  destruct H as (_ & (t & Ht & (_ & Hb & _)) & Ho). intros k t' Hk. cbn [fst] in Hk.
  destruct (decide (k = tradeId c)) as [->|Hne]; [|rewrite Ho in Hk by done; eauto].
  rewrite Ht in Hk. injection Hk as <-. rewrite Hb. apply toLowerCase_idemp.
Qed.

Theorem stored_trades_unfundable trades walletAddress ident w s xdr : lowered trades → buildDepositTx walletAddress ident w trades ≠ Respond s xdr.
Proof.
  intros Hl H. apply answerTx_200 in H as [_ H]. apply bind_Ok in H as ([] & _ & H). apply bind_Ok in H as (caller & [_ [_ Hv]]%buyerOf_Ok & H).
  apply bind_Ok in H as (t & [[k Hk] _]%found_Ok & H). apply bind_Ok in H as ([] & Hb%throwIf_Ok & _).
  apply negb_false_iff, bool_decide_eq_true in Hb. apply (keys_have_capitals _ Hv). rewrite <-Hb. by eapply Hl.
Qed.
End Capitals.
End Controller.

(** ** Samples *)

Definition sampleKey (s : string) : bool := match s with String "G" r => negb (bool_decide (r = ""%string)) && str_forall BulkImport.base32Char r | _ => false end.
Definition accepts {A} (_ : A) : option string := None.
Definition sampleUint64 (s : string) : result string Z := ContractTx.bigInt s.
Definition sampleService : ContractTx.ContractService := {| ContractTx.contractId := "C1"; ContractTx.tokenContractId := "C2"; ContractTx.networkPassphrase := "Test" |}.
Definition sampleRpc : ContractTx.Rpc := {|
  ContractTx.getAccount := λ _, Ok 1; ContractTx.simulateTransaction := λ _, Ok (ContractTx.SimResult "77");
  ContractTx.prepareTransaction := λ tx, Ok (ContractTx.fn tx +:+ " by " +:+ ContractTx.source tx)%string |}.
Definition sampleWorld : World := {| rpc := sampleRpc; newId := 5; now := 1000; dbFailure := None |}.
Definition sampleBody : CreateTradeBody := {| sellerAddress := VStr "GSELLER"; amountUsdc := VStr " 12.5 "; buyerLossBps := VNum (JInt 5000) "5000"; sellerLossBps := VNum (JInt 5000) "5000" |}.
Definition noTrades : gmap string Trade := ∅.
Definition sampleCreate (b : string) (body : CreateTradeBody) (t : gmap string Trade) : gmap string Trade * Answer Created :=
  createTrade sampleKey accepts accepts sampleService (Some b) body sampleWorld t.

Definition tradeIn (s : TradeStatus) (buyer : string) : Trade := {|
  Trades.id := 1; Trades.tradeId := "77"; Trades.buyerAddress := buyer; Trades.sellerAddress := "gs"; Trades.amountUsdc := "1";
  Trades.buyerLossBps := 5000; Trades.sellerLossBps := 5000; Trades.version := 0; Trades.status := s; Trades.expiresAt := None;
  Trades.expiredAt := None; Trades.createdAt := 0; Trades.updatedAt := 0 |}.

Lemma createTrade_spec_witness : (sampleCreate "GBUYER" sampleBody noTrades).2 = Respond 201 {| tradeId := "77"; unsignedXdr := "create_trade by GBUYER" |} ∧
  ∃ p t, acceptable sampleKey sampleBody p ∧ findUnique "77"%string (sampleCreate "GBUYER" sampleBody noTrades).1 = Some t ∧ stored "77" "GBUYER" p t.
Proof.
  pose proof (createTrade_spec sampleKey accepts accepts sampleService (Some "GBUYER"%string) sampleBody sampleWorld noTrades) as H.
  fold (sampleCreate "GBUYER" sampleBody noTrades) in H.
  assert ((sampleCreate "GBUYER" sampleBody noTrades).2 = Respond 201 {| tradeId := "77"; unsignedXdr := "create_trade by GBUYER" |}) as Hr by (vm_compute; reflexivity).
  split; [exact Hr|]. destruct (sampleCreate "GBUYER" sampleBody noTrades) as [trades' a]. cbn [fst snd] in *. subst a.
  destruct H as (_ & (buyer & p & t & Hb & Hacc & Ht & Hs) & _). injection Hb as <-. exists p, t. split; [exact Hacc|]. split; [exact Ht|exact Hs].
Defined.

Definition funded : gmap string Trade := {[ "77"%string := tradeIn FUNDED "gbuyer" ]}.
Lemma transactions_guarded_witness :
  confirmDelivery accepts accepts sampleUint64 sampleService "" (Some "gbuyer"%string) "77" sampleWorld funded = Respond 200 "confirm_delivery by gbuyer"%string ∧
  ∃ t, Trades.status t = FUNDED ∧ Trades.buyerAddress t = "gbuyer"%string.
Proof.
  assert (confirmDelivery accepts accepts sampleUint64 sampleService "" (Some "gbuyer"%string) "77" sampleWorld funded = Respond 200 "confirm_delivery by gbuyer"%string) as H
    by (vm_compute; reflexivity).
  split; [exact H|].
  apply (transactions_guarded sampleKey accepts accepts sampleUint64 sampleService "") in H as (_ & caller & t & Hc & _ & _ & Hs & Hb & _).
  vm_compute in Hc. injection Hc as <-. by exists t.
Defined.

(** The keys of the sample are written in capitals. *)
Lemma sampleKey_capitals a : sampleKey a = true → toLowerCase a ≠ a.
Proof. destruct a as [|c a]; [done|]. cbn. destruct (Ascii.ascii_dec c "G") as [->|Hc]; [by intros _ [= ?]|]. by destruct c as [[] [] [] [] [] [] [] []]. Qed.

Example bulk_goes_on : (createBulkTrades sampleKey accepts accepts sampleService "" "" (Some "GBUYER"%string)
  [({| sellerAddress := VStr "bad"; amountUsdc := VStr "1"; buyerLossBps := VUndefined; sellerLossBps := VUndefined |}, sampleWorld); (sampleBody, sampleWorld); (sampleBody, sampleWorld)]
  None None noTrades).1.2 =
  Respond 200 {| created := [(1, {| tradeId := "77"; unsignedXdr := "create_trade by GBUYER" |})];
                 failed := [(0, "Invalid sellerAddress"); (2, "Unique constraint failed")]%string |}.
Proof. vm_compute. reflexivity. Qed.

(** An administrator listed in capitals, as Stellar writes keys, is not recognised in the
    lower case of its token. *)
Example admin_in_lower_case : releaseFunds accepts accepts sampleUint64 sampleService "GADMIN" (Some "gadmin"%string) "77" sampleWorld
  ({[ "77"%string := tradeIn DELIVERED "gbuyer" ]} : gmap string Trade) =
  Next (AppError TRADE_ACCESS_DENIED "Only the buyer or an admin may release funds" 403).
Proof. vm_compute. reflexivity. Qed.

(** A cooperative's label is recorded untrimmed though it is looked up trimmed. *)
Example label_untrimmed : recordCooperativeBatch "" "coop:gbuyer" (Some " Coop "%string) None "GBUYER" ["5"]%string = [(" coop ", " coop ", "5")]%string.
Proof. vm_compute. reflexivity. Qed.
