(* ===== verification/Assets.v ===== *)
(** * Amounts in the client: [frontend/src/lib/stellar/assets.ts], [hooks/useCurrencyInput.ts]

    Asset identifiers, the conversion of amounts to and from the smallest unit, the checks of
    a typed amount and the input that applies them. [toLocaleString] depends on the browser's
    locale, so the text of the whole part is an argument; [groupThousands] is the English one. *)

From S2P Require Import Prelude JsString JsText Double.
From S2P Require RequestInput.

(** ** Assets *)

Inductive AssetType : Type := native | credit_alphanum4 | credit_alphanum12.
Record AssetInfo : Type := { code : string; issuer : option string; decimals : nat; symbol : string; name : string; type_ : AssetType }.

Definition asset (c sym n : string) (iss : option string) (t : AssetType) : AssetInfo :=
  {| code := c; issuer := iss; decimals := 7; symbol := sym; name := n; type_ := t |}.
Definition STELLAR_ASSETS : list AssetInfo :=
  [asset "XLM" "XLM" "Stellar Lumens" None native;
   asset "USDC" "USDC" "USD Coin" (Some "GA5ZSEJYB37JRC5AVCIA5MOP4RHTM335X2KGX3IHOJAPP5RE34K4KZVN"%string) credit_alphanum4;
   asset "EURC" "EURC" "Euro Coin" (Some "GDHU6WRG4IEQXM5NZ4BMPKOXHW76MZM4Y2IEMFDVXBSDP6SJY4ITNPP2"%string) credit_alphanum4;
   asset "NGN" "NGN" "Nigerian Naira" (Some "EXAMPLE_ISSUER_ADDRESS"%string) credit_alphanum4].
Definition DEFAULT_ASSET : AssetInfo := asset "XLM" "XLM" "Stellar Lumens" None native.

Definition getAssetInfo (c : option string) : AssetInfo :=
  match c with
  | None | Some ""%string => DEFAULT_ASSET
  | Some c => let u := toUpperCase c in
              match List.find (λ a, bool_decide (code a = u)) STELLAR_ASSETS with
              | Some a => a
              | None => asset u u c None credit_alphanum4
              end
  end.

Definition parseAssetIdentifier (identifier : string) : string * option string :=
  match split ":" identifier with c :: i :: _ => (c, Some i) | c :: _ => (c, None) | [] => (""%string, None) end.

(** [s.slice(-4)] *)
Definition last4 (s : string) : string := String.substring (strlen s - 4) 4 s.
Definition formatAssetIdentifier (c : string) (i : option string) : string :=
  match i with
  | None | Some ""%string => c
  | Some i => if bool_decide (c = "XLM"%string) then c else c +:+ ":" +:+ take_chars 4 i +:+ "..." +:+ last4 i
  end.

Definition isNativeAsset (c : string) : bool := bool_decide (toUpperCase c = "XLM"%string).

(** ** Amounts *)

Definition getAssetDivisor (d : nat) : Z := 10 ^ Z.of_nat d.

(** [s.replace(/0+$/, "")] *)
Fixpoint dropZeros (s : string) : string :=
  match s with
  | EmptyString => EmptyString
  | String c r => match dropZeros r with
                  | EmptyString => if Ascii.eqb c "0" then EmptyString else String c EmptyString
                  | t => String c t
                  end
  end.

Section Locale.
Context (toLocaleString : Z → string).

Definition stroopsToAmount (stroops : Z) (d : nat) : string :=
  let divisor := getAssetDivisor d in
  let whole := Z.quot stroops divisor in
  let fracStr := dropZeros (padStart (toString (Z.rem stroops divisor)) d "0") in
  if bool_decide (fracStr = ""%string) then toLocaleString whole else toLocaleString whole +:+ "." +:+ fracStr.

Definition formatAmountWithAsset (stroops : Z) (assetCode : string) (d : option nat) : string :=
  let a := getAssetInfo (Some assetCode) in
  stroopsToAmount stroops (default (decimals a) d) +:+ " " +:+ symbol a.
End Locale.

(** [s.replace(/[,\s]/g, "")] *)
Definition keeps (c : ascii) : bool := negb (Ascii.eqb c ",") && negb (is_space c).
Fixpoint clean (s : string) : string :=
  match s with EmptyString => EmptyString | String c r => if keeps c then String c (clean r) else clean r end.

(** [None] where [BigInt] throws. *)
Definition amountToStroops (amount : string) (d : nat) : option string :=
  let parts := split "." (clean amount) in
  let whole := match parts with [] | ""%string :: _ => "0"%string | w :: _ => w end in
  let frac := match parts with _ :: f :: _ => f | _ => ""%string end in
  let paddedFrac := take_chars d (padEnd frac d "0") in
  w ← BigInt_string whole; f ← BigInt_string paddedFrac; Some (toString (w * getAssetDivisor d + f)).

Inductive Validity : Type := Valid | Invalid (error : string).

(** Digits, and perhaps a point with further digits. *)
Definition numberLike (s : string) : bool :=
  match split "." s with
  | [w] => negb (bool_decide (w = ""%string)) && str_forall is_digit w
  | [w; f] => negb (bool_decide (w = ""%string)) && str_forall is_digit w && str_forall is_digit f
  | _ => false
  end.

Definition validateAmountFormat (amount : string) (d : nat) : Validity :=
  let cleaned := clean amount in
  if bool_decide (cleaned = ""%string) then Invalid "Amount is required"
  else if negb (numberLike cleaned) then Invalid "Invalid number format"
  else if (d <? strlen match split "." cleaned with _ :: f :: _ => f | _ => ""%string end)%nat
  then Invalid ("Maximum " +:+ toString (Z.of_nat d) +:+ " decimal places allowed")
  else if fnonpositive (parseFloat cleaned) then Invalid "Amount must be greater than zero"
  else Valid.

Definition validateAmountRange (value minValue maxValue : Z) : Validity :=
  if value <? minValue then Invalid "Amount is below minimum"
  else if maxValue <? value then Invalid "Amount exceeds maximum" else Valid.

(** ** The input *)

Record Input : Type := { value : string; stroops : option string; error : option string }.
Definition emptyInput : Input := {| value := ""; stroops := None; error := None |}.
Definition isValid (i : Input) : bool := bool_decide (stroops i ≠ None) && bool_decide (error i = None).

Definition truthy (s : option string) : option string := match s with Some ""%string => None | _ => s end.

(** The range check of [handleChange]; [None] when it throws. *)
Definition inRange (minimum maximum : option string) (v : string) : option Validity :=
  match truthy minimum, truthy maximum with
  | None, None => Some Valid
  | mn, mx => a ← BigInt_string v; lo ← BigInt_string (default "0"%string mn); hi ← BigInt_string (default v mx); Some (validateAmountRange a lo hi)
  end.

(** The new state, and what [onValidChange] is called with. *)
Definition handleChange (d : nat) (minimum maximum : option string) (newValue : string) : Input * option string :=
  let failed e := ({| value := newValue; stroops := None; error := Some e |}, None) in
  if bool_decide (trim newValue = ""%string) then ({| value := newValue; stroops := None; error := None |}, None)
  else match validateAmountFormat newValue d with
       | Invalid e => failed e
       | Valid =>
           match amountToStroops newValue d with
           | None => failed "Invalid amount"%string
           | Some v => match inRange minimum maximum v with
                       | None => failed "Invalid amount"%string
                       | Some (Invalid e) => failed e
                       | Some Valid => ({| value := newValue; stroops := Some v; error := None |}, Some v)
                       end
           end
       end.

(** ** English grouping *)

Fixpoint groupDigits (s : string) : string :=
  match s with
  | EmptyString => EmptyString
  | String c r => String c (if negb (bool_decide (r = ""%string)) && (strlen r mod 3 =? 0)%nat then String "," (groupDigits r) else groupDigits r)
  end.
Definition groupThousands (z : Z) : string := if z <? 0 then String "-" (groupDigits (natToString (- z))) else groupDigits (natToString z).







(** ** From text to stroops *)




Lemma take_all s n : (strlen s ≤ n)%nat → take_chars n s = s.
Proof. revert n. induction s as [|c s IH]; intros [|n] H; cbn in *; try done; [lia|]. by rewrite IH by lia. Qed.

Lemma BigInt_string_digits s : str_forall is_digit s = true → BigInt_string s = Some (BigInt_digits s).
Proof.
  intros Hd. unfold BigInt_string. rewrite trim_nospace by by apply (str_forall_impl _ _ _ digit_not_space).
  destruct s as [|c t]; [done|]. pose proof Hd as Hc. cbn [str_forall] in Hc. apply andb_true_iff in Hc as [Hc _].
  destruct (Ascii.eqb_spec c "-") as [->|]; [done|]. destruct (Ascii.eqb_spec c "+") as [->|]; [done|]. by rewrite Hd.
Qed.

Lemma lacks_digits c s : is_digit c = false → str_forall is_digit s = true → lacks c s.
Proof. intros Hc. apply str_forall_impl. intros d Hd. by apply digit_ne. Qed.

(** The stroops of a decimal: the whole part and the fraction, with [d] places. *)
Definition decimalValue (w f : string) (d : nat) : Z := BigInt_digits w * 10 ^ Z.of_nat d + BigInt_digits f * 10 ^ Z.of_nat (d - strlen f).

Lemma amountToStroops_decimal amount w f d : clean amount = w +:+ fractionText f → w ≠ ""%string → str_forall is_digit w = true →
  str_forall is_digit (default ""%string f) = true → (strlen (default ""%string f) ≤ d)%nat →
  amountToStroops amount d = Some (toString (decimalValue w (default ""%string f) d)).
Proof.
  intros Hc Hne Hw Hf Hl. unfold amountToStroops. rewrite Hc.
  assert (split "." (w +:+ fractionText f) = w :: match f with Some g => [g] | None => [] end) as ->.
  { destruct f as [g|]; cbn [fractionText default from_option id] in *.
    - rewrite split_app by by apply lacks_digits. f_equal. apply split_none. by apply lacks_digits.
    - rewrite app_nil_r_str. apply split_none. by apply lacks_digits. }
  assert (match match f with Some g => [g] | None => [] end with f0 :: _ => f0 | [] => ""%string end = default ""%string f) as E by by destruct f.
  replace (match w :: match f with Some g => [g] | None => [] end with [] | ""%string :: _ => "0"%string | w0 :: _ => w0 end) with w by by destruct w.
  rewrite E. rewrite take_all by by rewrite strlen_padEnd. rewrite !BigInt_string_digits by (done || by apply padEnd_digits).
  cbn. unfold decimalValue, getAssetDivisor. by rewrite BigInt_digits_padEnd.
Qed.

Lemma numberLike_parts s : numberLike s = true → ∃ w f, s = w +:+ fractionText f ∧ w ≠ ""%string ∧ str_forall is_digit w = true ∧ str_forall is_digit (default ""%string f) = true.
Proof.
  assert (∀ s, join "." (split "." s) = s) as Hj.
  { intros t. induction t as [|c t IH]; [done|]. cbn [split]. destruct (Ascii.eqb_spec c ".") as [->|].
    - destruct (split "." t) as [|h l] eqn:E; [by destruct t|]. change (join "." (""%string :: h :: l)) with (String "." (join "." (h :: l))). by rewrite IH.
    - destruct (split "." t) as [|h l]; [by destruct t|]. destruct l as [|g l]; cbn [join] in *; [by rewrite IH|]. rewrite app_cons_str. by rewrite IH. }
  unfold numberLike. intros H. pose proof (Hj s) as Hs. destruct (split "." s) as [|w [|f [|]]]; try done.
  - apply andb_true_iff in H as [Hn%negb_true_iff%bool_decide_eq_false Hw]. exists w, None. cbn in *. by rewrite app_nil_r_str.
  - apply andb_true_iff in H as [[Hn%negb_true_iff%bool_decide_eq_false Hw]%andb_true_iff Hf]. by exists w, (Some f).
Qed.


Lemma decimalValue_sign w f d : str_forall is_digit w = true → str_forall is_digit f = true → (strlen f ≤ d)%nat →
  (decimalValue w f d =? 0) = (BigInt_digits w * 10 ^ Z.of_nat (strlen f) + BigInt_digits f =? 0) ∧ 0 ≤ decimalValue w f d.
Proof.
  intros Hw Hf Hl. unfold decimalValue. pose proof (value_acc_bound w Hw) as [H1 _]. pose proof (value_acc_bound f Hf) as [H2 _].
  change (value_acc 0 w) with (BigInt_digits w) in H1. change (value_acc 0 f) with (BigInt_digits f) in H2.
  replace (10 ^ Z.of_nat d) with (10 ^ Z.of_nat (strlen f) * 10 ^ Z.of_nat (d - strlen f)) by (rewrite <-Z.pow_add_r by lia; f_equal; lia).
  pose proof (Z.pow_pos_nonneg 10 (Z.of_nat (strlen f)) ltac:(lia) ltac:(lia)). pose proof (Z.pow_pos_nonneg 10 (Z.of_nat (d - strlen f)) ltac:(lia) ltac:(lia)).
  split; [|nia]. apply eq_iff_eq_true. rewrite !Z.eqb_eq. split; intros; nia.
Qed.

(** A text is accepted exactly when it is a positive decimal with no more places than the asset has. *)
Lemma validateAmountFormat_Valid amount d : (d ≤ 300)%nat → validateAmountFormat amount d = Valid ↔ ∃ w f,
  clean amount = w +:+ fractionText f ∧ w ≠ ""%string ∧ str_forall is_digit w = true ∧ str_forall is_digit (default ""%string f) = true ∧
  (strlen (default ""%string f) ≤ d)%nat ∧ 0 < decimalValue w (default ""%string f) d.
Proof.
  intros Hd. assert (∀ w f, str_forall is_digit w = true → str_forall is_digit (default ""%string f) = true →
    match split "." (w +:+ fractionText f) with _ :: g :: _ => g | _ => ""%string end = default ""%string f) as Hfrac.
  { intros w [g|] Hw Hg; cbn [fractionText default from_option id] in *.
    - rewrite split_app by by apply lacks_digits. by rewrite split_none by by apply lacks_digits.
    - rewrite app_nil_r_str. by rewrite split_none by by apply lacks_digits. }
  unfold validateAmountFormat. split.
  - destruct (bool_decide _); [done|]. destruct (numberLike (clean amount)) eqn:Hn; [|done]. cbn [negb].
    apply numberLike_parts in Hn as (w & f & -> & Hne & Hw & Hf). rewrite Hfrac by done.
    destruct (Nat.ltb_spec d (strlen (default ""%string f))) as [|Hl]; [done|].
    destruct (parseFloat_sign w f Hne Hw Hf ltac:(lia)) as [_ ->]. destruct (decimalValue_sign w _ d Hw Hf Hl) as [<- H0].
    destruct (Z.eqb_spec (decimalValue w (default ""%string f) d) 0); [done|]. intros _. exists w, f. split_and!; try done. lia.
  - intros (w & f & -> & Hne & Hw & Hf & Hl & Hpos). rewrite bool_decide_eq_false_2 by by destruct w.
    assert (numberLike (w +:+ fractionText f) = true) as ->.
    { unfold numberLike. destruct f as [g|]; cbn [fractionText default from_option id] in *.
      - rewrite split_app by by apply lacks_digits. rewrite split_none by by apply lacks_digits. by rewrite bool_decide_eq_false_2, Hw, Hf.
      - rewrite app_nil_r_str, split_none by by apply lacks_digits. by rewrite bool_decide_eq_false_2, Hw. }
    cbn [negb]. rewrite Hfrac by done. rewrite (proj2 (Nat.ltb_ge _ _)) by done.
    destruct (parseFloat_sign w f Hne Hw Hf ltac:(lia)) as [_ ->]. destruct (decimalValue_sign w _ d Hw Hf Hl) as [<- _].
    by rewrite (proj2 (Z.eqb_neq _ _)) by lia.
Qed.

Lemma trim_clean s : trim s = ""%string → clean s = ""%string.
Proof.
  assert (∀ t, trimEnd t = ""%string → clean t = ""%string) as He.
  { induction t as [|c t IH]; [done|]. cbn [trimEnd clean]. destruct (trimEnd t) as [|e u]; [|done]. destruct (is_space c) eqn:Hs; [|done].
    intros _. unfold keeps. rewrite Hs, andb_false_r. by apply IH. }
  unfold trim. intros H. apply He in H. revert H. induction s as [|c s IH]; [done|]. cbn [trimStart]. destruct (is_space c) eqn:Hs; [|done].
  cbn [clean]. unfold keeps. rewrite Hs, andb_false_r. done.
Qed.

Lemma decimal_unique w w' f f' : str_forall is_digit w = true → str_forall is_digit w' = true → w +:+ fractionText f = w' +:+ fractionText f' → w = w' ∧ f = f'.
Proof.
  intros Hw Hw' He. assert (∀ s, str_forall is_digit s = true → lacks "." s) as Hlk by (intros; by apply lacks_digits).
  assert (∀ g u v, str_forall is_digit u = true → u ≠ v +:+ "." +:+ g) as Hno.
  { intros g u v Hu ->. specialize (Hlk _ Hu). unfold lacks in Hlk. rewrite str_forall_app in Hlk. cbn in Hlk. by rewrite andb_false_r in Hlk. }
  destruct f as [g|], f' as [g'|]; cbn [fractionText] in He; rewrite ?app_nil_r_str in He.
  - destruct (split_at_unique "." w w' g g' (Hlk _ Hw) (Hlk _ Hw') He) as [<- <-]. done.
  - by apply eq_sym, Hno in He.
  - by apply Hno in He.
  - by subst.
Qed.

(** The range check of an amount that was read. *)
Lemma inRange_value lo hi z : 0 < z → inRange (toString <$> lo) (toString <$> hi) (toString z) = Some (validateAmountRange z (default 0 lo) (default z hi)).
Proof.
  assert (∀ x : option Z, truthy (toString <$> x) = toString <$> x) as Ht.
  { intros [x|]; [|done]. cbn. pose proof (toString_nonempty x). by destruct (toString x). }
  intros Hz. unfold inRange. rewrite !Ht. destruct lo as [a|], hi as [b|]; cbn [fmap option_fmap option_map default from_option id].
  1-3: rewrite ?BigInt_toString; cbn; rewrite ?BigInt_toString; done.
  unfold validateAmountRange. by rewrite (proj2 (Z.ltb_ge z 0)), Z.ltb_irrefl by lia.
Qed.


(** The input holds an amount exactly when what was typed is a positive decimal with no more
    places than the asset has, within the bounds; it then has no error, and the caller is told
    the same amount. Anything else leaves no amount, and tells the caller nothing. *)
Theorem currency_input_spec d lo hi text : (d ≤ 300)%nat →
  let '(i, told) := handleChange d (toString <$> lo) (toString <$> hi) text in
  told = stroops i ∧ value i = text ∧ isValid i = bool_decide (stroops i ≠ None) ∧
  ∀ v, stroops i = Some v ↔ ∃ w f, clean text = w +:+ fractionText f ∧ w ≠ ""%string ∧ str_forall is_digit w = true ∧
    str_forall is_digit (default ""%string f) = true ∧ (strlen (default ""%string f) ≤ d)%nat ∧
    0 < decimalValue w (default ""%string f) d ∧ v = toString (decimalValue w (default ""%string f) d) ∧
    default 0 lo ≤ decimalValue w (default ""%string f) d ≤ default (decimalValue w (default ""%string f) d) hi.
Proof.
  intros Hd. pose proof (inRange_value lo hi) as Hr.
  unfold handleChange. case_bool_decide as Htrim.
  { cbn. split_and!; try done. intros v. split; [done|]. intros (w & f & Hc & Hne & _). rewrite (trim_clean _ Htrim) in Hc. by destruct w. }
  destruct (validateAmountFormat text d) as [|e] eqn:Hv.
  - apply validateAmountFormat_Valid in Hv as (w & f & Hc & Hne & Hw & Hf & Hl & Hpos); [|done].
    rewrite (amountToStroops_decimal text w f d) by done. set (z := decimalValue w (default ""%string f) d) in *. rewrite Hr by done.
    assert (∀ w' f', clean text = w' +:+ fractionText f' → w' ≠ ""%string → str_forall is_digit w' = true → str_forall is_digit (default ""%string f') = true →
      decimalValue w' (default ""%string f') d = z) as Hu.
    { intros w' f' Hc' Hne' Hw' Hf'. rewrite Hc in Hc'. by destruct (decimal_unique w w' f f' Hw Hw' Hc') as [<- <-]. }
    unfold validateAmountRange. destruct (Z.ltb_spec z (default 0 lo)) as [H1|H1]; [|destruct (Z.ltb_spec (default z hi) z) as [H2|H2]]; cbn.
    + split_and!; try done. intros v. split; [done|]. intros (w' & f' & Hc' & Hne' & Hw' & Hf' & _ & _ & _ & Hb). rewrite (Hu w' f') in Hb by done. lia.
    + split_and!; try done. intros v. split; [done|]. intros (w' & f' & Hc' & Hne' & Hw' & Hf' & _ & _ & _ & Hb). rewrite (Hu w' f') in Hb by done. lia.
    + split_and!; try done. intros v. split.
      * intros [= <-]. exists w, f. by split_and!.
      * intros (w' & f' & Hc' & Hne' & Hw' & Hf' & _ & _ & -> & _). by rewrite (Hu w' f').
  - cbn. split_and!; try done. intros v. split; [done|]. intros (w & f & Hc & Hne & Hw & Hf & Hl & Hpos & _).
    assert (validateAmountFormat text d = Valid) by (apply validateAmountFormat_Valid; [done|]; exists w, f; by split_and!). congruence.
Qed.

(** ** Samples *)

Example grouped : groupThousands 1234567 = "1,234,567"%string. Proof. reflexivity. Qed.
Example shown : stroopsToAmount groupThousands 12345678900000 7 = "1,234,567.89"%string. Proof. reflexivity. Qed.


Lemma currency_input_spec_witness : handleChange 7 (Some "100"%string) None " 1,000.25 " =
  ({| value := " 1,000.25 "; stroops := Some "10002500000"%string; error := None |}, Some "10002500000"%string) ∧
  isValid (handleChange 7 (Some "100"%string) None " 1,000.25 ").1 = true.
Proof.
  split; [vm_compute; reflexivity|].
  pose proof (currency_input_spec 7 (Some 100) None " 1,000.25 " ltac:(lia)) as H.
  change (toString <$> Some 100) with (Some "100"%string) in H. change (toString <$> None) with (@None string) in H.
  destruct (handleChange 7 (Some "100"%string) None " 1,000.25 ") as [i told] eqn:E. cbn [fst]. destruct H as (_ & _ & -> & _).
  assert (stroops i = Some "10002500000"%string) as Hs by (change i with (i, told).1; rewrite <-E; vm_compute; reflexivity). by rewrite Hs.
Defined.

(** Where thousands are separated by points, an amount of 1234.5 is shown as [1.234.5] and
    would be read as 1.234. *)
Definition pointGroups (z : Z) : string := RequestInput.replaceAll "," "." (groupThousands z).
Example other_locale : stroopsToAmount pointGroups 12345000000 7 = "1.234.5"%string ∧ amountToStroops "1.234.5" 7 = Some "12340000"%string.
Proof. split; reflexivity. Qed.

(** The sign of a negative amount ends up among its decimals. *)
Example negative_shown : stroopsToAmount groupThousands (-5) 7 = "0.00000-5"%string. Proof. reflexivity. Qed.

(** An issuer is abbreviated for display, and reading the identifier back gives the abbreviation. *)
Example issuer_abbreviated : parseAssetIdentifier (formatAssetIdentifier "USDC" (Some "GA5ZSEJYB37JRC5"%string)) = ("USDC", Some "GA5Z...JRC5")%string.
Proof. reflexivity. Qed.
