(* ===== verification/DeepLinks.v ===== *)
(** * Deep links of the mobile application: [src/mobile/src/constants/links.ts], [hooks/useDeepLink.ts]

    The table between paths and screens, read in both directions, and the routing that parks a
    link until the wallet is signed in. The URL parser is the platform's and an argument;
    identifiers are Latin-1. *)

From S2P Require Import Prelude JsString JsValue JsText.

Inductive Screen : Type := WalletConnect | TradeList | TradeDetail | DisputeDetail | CreateTrade | EvidenceCapture | VaultDashboard.
#[global] Instance Screen_eq_dec : EqDecision Screen.
Proof. solve_decision. Defined.

(** A target without parameters has the empty list. *)
Record DeepLinkTarget : Type := { screen : Screen; params : list (string * string) }.

Definition APP_SCHEME : string := "amanavault".
Definition WEB_ORIGIN : string := "https://amanavault.app".
Definition PUBLIC_SCREENS : list Screen := [WalletConnect].
Definition requiresAuth (t : DeepLinkTarget) : bool := negb (bool_decide (screen t ∈ PUBLIC_SCREENS)).

(** [new URL(s)]; it may throw. *)
Record Url : Type := { protocol : string; host : string; pathname : string }.

(** [s.replace(/\/{2,}/g, "/")] *)
Fixpoint collapse (s : string) : string :=
  match s with
  | String c r => match r with
                  | String d _ => if Ascii.eqb c "/" && Ascii.eqb d "/" then collapse r else String c (collapse r)
                  | EmptyString => s
                  end
  | EmptyString => EmptyString
  end.

(** The segments of a path, less one slash at either end. *)
Definition dropSlash (s : string) : string := match s with String "/" r => r | _ => s end.
Definition dropLast (l : list string) : list string := match rev l with ""%string :: r => rev r | _ => l end.
Definition segments (p : string) : list string := dropLast (split "/" (dropSlash p)).

(** [[^/?#]+] *)
Definition segment (s : string) : bool := negb (bool_decide (s = ""%string)) && str_forall (λ c, negb (Ascii.eqb c "?") && negb (Ascii.eqb c "#")) s.

(** The first route whose pattern matches, its parameter's name and its undecoded value. *)
Definition matchRoute (p : string) : option (Screen * option (string * string)) :=
  match segments p with
  | ["trades"; i]%string => if segment i then Some (TradeDetail, Some ("tradeId"%string, i)) else None
  | ["disputes"; i]%string => if segment i then Some (DisputeDetail, Some ("id"%string, i)) else None
  | ["trades"; i; "evidence"]%string | ["evidence"; i]%string => if segment i then Some (EvidenceCapture, Some ("tradeId"%string, i)) else None
  | ["trades"]%string => Some (TradeList, None)
  | ["create-trade"]%string => Some (CreateTrade, None)
  | _ => None
  end.

Definition badId (v : string) : bool := bool_decide (v ∈ [""; "undefined"; "null"]%string).

Section Links.
Context (newURL : string → option Url).

Definition pathOf (input : string) : option string :=
  if contains "://" input
  then u ← newURL input;
       Some (if bool_decide (protocol u = (APP_SCHEME +:+ ":")%string) then "/" +:+ host u +:+ pathname u else pathname u)%string
  else Some (match input with String "/" _ => input | _ => String "/" input end).

(** [Err] where the function throws a [URIError]. *)
Definition parseDeepLink (input : option string) : result string (option DeepLinkTarget) :=
  match input with
  | None | Some ""%string => Ok None
  | Some input =>
      match pathOf input with
      | None => Ok None
      | Some p =>
          match matchRoute (collapse p) with
          | None => Ok None
          | Some (s, None) => Ok (Some {| screen := s; params := [] |})
          | Some (s, Some (k, v)) =>
              match decodeURIComponent v with
              | None => Err "URI malformed"%string
              | Some v => if badId v then Ok None else Ok (Some {| screen := s; params := [(k, v)] |})
              end
          end
      end
  end.

Definition paramOf (k : string) (t : DeepLinkTarget) : string := default "undefined"%string (snd <$> List.find (λ kv, bool_decide (kv.1 = k)) (params t)).
Definition toWebPath (t : DeepLinkTarget) : option string :=
  match screen t with
  | TradeDetail => Some ("/trades/" +:+ encodeURIComponent (paramOf "tradeId" t))
  | DisputeDetail => Some ("/disputes/" +:+ encodeURIComponent (paramOf "id" t))
  | EvidenceCapture => Some ("/trades/" +:+ encodeURIComponent (paramOf "tradeId" t) +:+ "/evidence")
  | TradeList => Some "/trades"
  | CreateTrade => Some "/trades/create"
  | WalletConnect | VaultDashboard => None
  end%string.
Definition webUrlFor (t : DeepLinkTarget) : string := match toWebPath t with Some p => WEB_ORIGIN +:+ p | None => WEB_ORIGIN end.

(** ** Routing *)

(** The parked target, the session's token, and where the application was sent, last first. *)
Record Router : Type := { pendingTarget : option DeepLinkTarget; token : option string; visited : list (DeepLinkTarget * option string) }.

Definition setPending (t : option DeepLinkTarget) (r : Router) : Router := {| pendingTarget := t; token := token r; visited := visited r |}.
(** [ready]: whether there is a navigation container. *)
Definition navigate (ready : bool) (t : DeepLinkTarget) (r : Router) : Router :=
  if ready then {| pendingTarget := pendingTarget r; token := token r; visited := (t, token r) :: visited r |} else r.
Definition signedIn (r : Router) : bool := match token r with None | Some ""%string => false | Some _ => true end.

Definition routeOrPark (t : DeepLinkTarget) (ready : bool) (r : Router) : Router :=
  if requiresAuth t && negb (signedIn r) then setPending (Some t) r else navigate ready t (setPending None r).
(** [None] when parsing throws. *)
Definition handleUrl (url : option string) (ready : bool) (r : Router) : option Router :=
  match parseDeepLink url with
  | Err _ => None
  | Ok None => Some r
  | Ok (Some t) => Some (routeOrPark t ready r)
  end.
Definition handleDeepLink (t : DeepLinkTarget) (r : Router) : Router := routeOrPark t false r.
Definition resumePendingDeepLink (ready : bool) (r : Router) : Router :=
  match pendingTarget r with
  | Some t => if signedIn r then navigate ready t (setPending None r) else r
  | None => r
  end.

Inductive Event : Type := Opened (url : option string) (ready : bool) | Parked (t : DeepLinkTarget) | Resume (ready : bool) | Session (t : option string).
Definition step (e : Event) (r : Router) : Router :=
  match e with
  | Opened u ready => default r (handleUrl u ready r)
  | Parked t => handleDeepLink t r
  | Resume ready => resumePendingDeepLink ready r
  | Session t => {| pendingTarget := pendingTarget r; token := t; visited := visited r |}
  end.
Definition run (es : list Event) (r : Router) : Router := foldl (λ r e, step e r) r es.
Definition coldStart : Router := {| pendingTarget := None; token := None; visited := [] |}.

(** ** Reading back *)

(** A URL of the web origin keeps its path: it holds no character the parser would encode and
    no segment it would resolve. *)
Definition plainPath (p : string) : Prop :=
  str_forall (λ c, uriChar c || Ascii.eqb c "/") p = true ∧ Forall (λ s, s ≠ "." ∧ s ≠ "..")%string (split "/" p).
Definition originKept : Prop := ∀ p, plainPath (String "/" p) →
  newURL (WEB_ORIGIN +:+ String "/" p) = Some {| protocol := "https:"; host := "amanavault.app"; pathname := String "/" p |}.

Definition goodId (i : string) : Prop := badId i = false ∧ i ≠ "."%string ∧ i ≠ ".."%string.

(** The targets a shared link can name. *)
Inductive Shareable : DeepLinkTarget → Prop :=
  | share_list : Shareable {| screen := TradeList; params := [] |}
  | share_trade i : goodId i → Shareable {| screen := TradeDetail; params := [("tradeId"%string, i)] |}
  | share_dispute i : goodId i → Shareable {| screen := DisputeDetail; params := [("id"%string, i)] |}
  | share_evidence i : goodId i → Shareable {| screen := EvidenceCapture; params := [("tradeId"%string, i)] |}.

Definition pieces (segs : list string) : Prop := segs ≠ [] ∧ Forall (λ s, s ≠ ""%string ∧ lacks "/" s) segs.
Definition pathText (segs : list string) : string := String "/" (join "/" segs).

Lemma collapse_cons c s : c ≠ "/"%char → collapse (String c s) = String c (collapse s).
Proof. intros Hc. cbn [collapse]. destruct s; [done|]. by rewrite (proj2 (Ascii.eqb_neq c "/")). Qed.
Lemma collapse_app s t : lacks "/" s → collapse (s +:+ t) = s +:+ collapse t.
Proof.
  induction s as [|c s IH]; [done|]. unfold lacks in *. cbn [str_forall]. intros [Hc%negb_true_iff%Ascii.eqb_neq Hs]%andb_true_iff.
  rewrite !app_cons_str, collapse_cons by done. by rewrite IH.
Qed.
Lemma collapse_lacks s : lacks "/" s → collapse s = s.
Proof. intros H. rewrite <-(app_nil_r_str s) at 1. by rewrite collapse_app, app_nil_r_str. Qed.
Lemma collapse_slash c s : c ≠ "/"%char → collapse (String "/" (String c s)) = String "/" (collapse (String c s)).
Proof. intros Hc. cbn [collapse]. rewrite (proj2 (Ascii.eqb_neq c "/")) by done. by rewrite andb_false_r. Qed.

Lemma piece_head s : s ≠ ""%string → lacks "/" s → ∃ c r, s = String c r ∧ c ≠ "/"%char.
Proof. destruct s as [|c r]; [done|]. unfold lacks. cbn. intros _ [H%negb_true_iff%Ascii.eqb_neq _]%andb_true_iff. eauto. Qed.

Lemma collapse_path segs : pieces segs → collapse (pathText segs) = pathText segs.
Proof.
  intros [Hne Hf]. unfold pathText. induction segs as [|s segs IH]; [done|]. inversion Hf as [|?? [Hs Hl] Hf']; subst.
  destruct (piece_head s Hs Hl) as (c & r & Hc & Hn).
  destruct segs as [|s' segs].
  - cbn [join]. rewrite Hc, collapse_slash by done. rewrite <-Hc. by rewrite collapse_lacks.
  - specialize (IH ltac:(done) Hf'). change (join "/" (s :: s' :: segs)) with (s +:+ String "/" (join "/" (s' :: segs))).
    rewrite Hc at 1. rewrite app_cons_str, collapse_slash, <-app_cons_str, <-Hc by done. f_equal. rewrite collapse_app by done. by rewrite IH.
Qed.

Lemma segments_path segs : pieces segs → segments (pathText segs) = segs.
Proof.
  intros [Hne Hf]. unfold segments, pathText. cbn [dropSlash].
  rewrite split_join; [|done|by eapply Forall_impl; [exact Hf|cbn; intros ? []]].
  unfold dropLast. destruct (rev segs) as [|x l] eqn:E; [done|].
  assert (x ∈ segs) as Hx by (apply list_elem_of_In, in_rev; rewrite E; by left).
  pose proof (proj1 (Forall_forall _ _) Hf x Hx) as [Hn _]. by destruct x.
Qed.

(** Reading a path made of plain segments under the web origin. *)
Lemma parse_path segs : originKept → pieces segs → Forall (λ s, str_forall uriChar s = true ∧ s ≠ "."%string ∧ s ≠ ".."%string) segs →
  pathOf (WEB_ORIGIN +:+ pathText segs) = Some (pathText segs).
Proof.
  intros Hk [Hne Hp] Hu. unfold pathOf. change (contains "://" (WEB_ORIGIN +:+ pathText segs)) with true. cbn iota.
  unfold pathText. rewrite Hk; [done|]. split.
  - clear Hne Hp. cbn [str_forall]. change (uriChar "/" || Ascii.eqb "/" "/") with true. cbn [andb].
    induction Hu as [|s segs [Hs _] Hu IH]; [done|]. pose proof (str_forall_impl uriChar (λ c, uriChar c || Ascii.eqb c "/") s ltac:(intros c Hc; cbn; by rewrite Hc) Hs) as Hs'.
    destruct segs; [done|]. cbn [join] in *. rewrite str_forall_app, Hs'. cbn [str_forall andb].
    change (uriChar "/" || Ascii.eqb "/" "/") with true. exact IH.
  - change (split "/" (String "/" (join "/" segs))) with (""%string :: split "/" (join "/" segs)).
    rewrite split_join; [|done|by eapply Forall_impl; [exact Hp|cbn; intros ? []]]. constructor; [done|].
    eapply Forall_impl; [exact Hu|]. cbn. by intros ? (_ & ? & ?).
Qed.

Lemma uri_no_slash s : str_forall uriChar s = true → lacks "/" s.
Proof. apply str_forall_impl. intros c. by destruct c as [[] [] [] [] [] [] [] []]. Qed.
Lemma uri_segment s : str_forall uriChar s = true → s ≠ ""%string → segment s = true.
Proof.
  intros Hs Hn. unfold segment. rewrite bool_decide_eq_false_2 by done. cbn [negb andb]. revert Hs. apply str_forall_impl.
  intros c. by destruct c as [[] [] [] [] [] [] [] []].
Qed.

Lemma encode_piece i : goodId i → let e := encodeURIComponent i in
  (e ≠ ""%string ∧ lacks "/" e) ∧ (str_forall uriChar e = true ∧ e ≠ "."%string ∧ e ≠ ".."%string) ∧ segment e = true.
Proof.
  intros (Hb & H1 & H2) e. assert (i ≠ ""%string) as Hi by (intros ->; done). pose proof (encode_plain i) as Hp. pose proof (encode_nonempty i Hi) as Hn.
  assert (∀ x, decodeURIComponent x = Some x → i ≠ x → e ≠ x) as Hd.
  { intros x Hx Hix He. pose proof (decode_encode i) as Hde. fold e in Hde. rewrite He, Hx in Hde. by injection Hde. }
  split_and!; [done|by apply uri_no_slash|done|by apply Hd|by apply Hd|by apply uri_segment].
Qed.

(** Every element of a list by a hypothesis. *)
Ltac all_of := solve [repeat (apply Forall_cons; split; [assumption|]); apply Forall_nil; exact I | repeat constructor].

(** A target with the identifier [i], whose path has the segments [segs]. *)
Ltac share i Hi Hparse segs s k :=
  destruct (encode_piece i Hi) as (P & U & S); unfold webUrlFor, toWebPath, paramOf; cbn [screen params List.find fst snd fmap option_fmap option_map];
  rewrite bool_decide_eq_true_2 by done; cbn [default from_option id option_map snd];
  change (parseDeepLink (Some (WEB_ORIGIN +:+ pathText segs)) = Ok (Some {| screen := s; params := [(k, i)] |}));
  rewrite (Hparse segs (Some (s, Some (k, encodeURIComponent i))));
  [rewrite decode_encode; by rewrite (proj1 Hi)|split; [done|]; all_of|all_of|];
  unfold matchRoute; rewrite segments_path by (split; [done|all_of]); by rewrite S.

(** Sharing a list, a trade, a dispute or a trade's evidence and opening the link leads back
    to the same screen with the same identifier, whatever characters it is made of. *)
Theorem shared_link_opens t : originKept → Shareable t → parseDeepLink (Some (webUrlFor t)) = Ok (Some t).
Proof.
  intros Hk Ht.
  assert (∀ segs v, pieces segs → Forall (λ s, str_forall uriChar s = true ∧ s ≠ "."%string ∧ s ≠ ".."%string) segs →
    matchRoute (pathText segs) = v → parseDeepLink (Some (WEB_ORIGIN +:+ pathText segs)) =
      match v with None => Ok None | Some (s, None) => Ok (Some {| screen := s; params := [] |})
      | Some (s, Some (k, v)) => match decodeURIComponent v with None => Err "URI malformed"%string
          | Some v => if badId v then Ok None else Ok (Some {| screen := s; params := [(k, v)] |}) end end) as Hparse.
  { intros segs v Hp Hu <-. unfold parseDeepLink. change (WEB_ORIGIN +:+ pathText segs) with (String "h" ("ttps://amanavault.app" +:+ pathText segs)) at 1.
    cbn iota. change (String "h" ("ttps://amanavault.app" +:+ pathText segs)) with (WEB_ORIGIN +:+ pathText segs). rewrite parse_path by done.
    by rewrite collapse_path. }
  assert (∀ w, w ≠ ""%string → str_forall uriChar w = true → w ≠ "."%string → w ≠ ".."%string → (w ≠ ""%string ∧ lacks "/" w) ∧
    (str_forall uriChar w = true ∧ w ≠ "."%string ∧ w ≠ ".."%string)) as Hw by (intros; split_and!; try done; by apply uri_no_slash).
  destruct (Hw "trades"%string) as [Wt Ut]; [done..|]. destruct (Hw "disputes"%string) as [Wd Ud]; [done..|]. destruct (Hw "evidence"%string) as [We Ue]; [done..|].
  destruct Ht as [|i Hi|i Hi|i Hi].
  - apply (Hparse ["trades"%string] (Some (TradeList, None))); [split; [done|all_of]|all_of|].
    reflexivity.
  - share i Hi Hparse ["trades"%string; encodeURIComponent i] TradeDetail "tradeId"%string.
  - share i Hi Hparse ["disputes"%string; encodeURIComponent i] DisputeDetail "id"%string.
  - share i Hi Hparse ["trades"%string; encodeURIComponent i; "evidence"%string] EvidenceCapture "tradeId"%string.
Qed.

(** ** Routing *)

(** Nothing but a public screen is shown without a session. *)
Definition guarded (v : DeepLinkTarget * option string) : Prop := requiresAuth v.1 = true → v.2 ≠ None ∧ v.2 ≠ Some ""%string.

Lemma signedIn_token r : signedIn r = true ↔ token r ≠ None ∧ token r ≠ Some ""%string.
Proof. unfold signedIn. destruct (token r) as [[|c s]|]; (split; [intros; split; congruence|by intros []]). Qed.

Lemma step_guarded e r : Forall guarded (visited r) → Forall guarded (visited (step e r)).
Proof.
  intros H. assert (∀ t ready r, Forall guarded (visited r) → (requiresAuth t = true → signedIn r = true) → Forall guarded (visited (navigate ready t (setPending None r)))) as Hn.
  { intros t ready r' Hr Ha. unfold navigate. destruct ready; [|done]. constructor; [|done]. intros Hq. apply (signedIn_token r'). by apply Ha. }
  assert (∀ t ready r, Forall guarded (visited r) → Forall guarded (visited (routeOrPark t ready r))) as Hr.
  { intros t ready r' Hr. unfold routeOrPark. destruct (requiresAuth t && negb (signedIn r')) eqn:E; [done|]. apply Hn; [done|].
    intros Hq. rewrite Hq in E. by apply negb_false_iff. }
  destruct e as [u ready|t|ready|t]; cbn [step].
  - unfold handleUrl. destruct (parseDeepLink u) as [[t|]|]; cbn; [by apply Hr|done..].
  - by apply Hr.
  - unfold resumePendingDeepLink. destruct (pendingTarget r) as [t|]; [|done]. destruct (signedIn r) eqn:E; [|done]. by apply Hn.
  - done.
Qed.

(** However links arrive and sessions begin and end, no screen that needs a session is
    opened without one; and a link parked while signed out is the screen shown when the session
    begins and the application resumes, once, unless another link came in between. *)
Theorem links_guarded es : Forall guarded (visited (run es coldStart)) ∧
  ∀ r t url tok, parseDeepLink (Some url) = Ok (Some t) → requiresAuth t = true → signedIn r = false → tok ≠ ""%string →
    let parked := step (Opened (Some url) true) r in let resumed := run [Session (Some tok); Resume true] parked in
    visited parked = visited r ∧ visited resumed = (t, Some tok) :: visited r ∧ step (Resume true) resumed = resumed.
Proof.
  split.
  - unfold run. assert (∀ r, Forall guarded (visited r) → Forall guarded (visited (foldl (λ r e, step e r) r es))) as H; [|by apply H; constructor].
    induction es as [|e es IH]; intros r Hr; [done|]. apply IH. by apply step_guarded.
  - intros r t url tok Hp Ha Hs Ht. cbn [step run foldl]. unfold handleUrl. rewrite Hp. cbn [default from_option id].
    unfold routeOrPark. rewrite Ha, Hs. cbn [andb negb]. unfold resumePendingDeepLink. cbn [pendingTarget setPending visited token].
    unfold signedIn. cbn [token]. destruct tok as [|c tok]; [done|]. by split_and!.
Qed.

(** A parked link is lost when the application resumes before it can navigate. *)
Theorem resume_unready_loses_link r t : pendingTarget r = Some t → signedIn r = true →
  pendingTarget (resumePendingDeepLink false r) = None ∧ visited (resumePendingDeepLink false r) = visited r.
Proof. intros Hp Hs. unfold resumePendingDeepLink. by rewrite Hp, Hs. Qed.

(** The host is not looked at: a link of any web site with the path of a trade opens it. *)
Theorem any_host_opens input h p u : contains "://" input = true → newURL input = Some {| protocol := p; host := h; pathname := "/trades/9" |} →
  p ≠ (APP_SCHEME +:+ ":")%string → input = String "h" u →
  parseDeepLink (Some input) = Ok (Some {| screen := TradeDetail; params := [("tradeId", "9")]%string |}).
Proof.
  intros Hc Hu Hp ->. unfold parseDeepLink, pathOf. rewrite Hc, Hu. cbn [mbind option_bind protocol pathname]. rewrite bool_decide_eq_false_2 by done. reflexivity.
Qed.
End Links.

(** ** Samples *)

(** What [new URL] makes of a URL without user, query or fragment whose path needs no
    encoding: protocol, host and path. *)
Fixpoint cut (c : ascii) (s : string) : string * string :=
  match s with EmptyString => (EmptyString, EmptyString) | String d r => if Ascii.eqb d c then (EmptyString, s) else let '(a, b) := cut c r in (String d a, b) end.
Definition simpleURL (s : string) : option Url :=
  match cut ":" s with
  | (p, String ":" (String "/" (String "/" r))) => let '(h, path) := cut "/" r in
      Some {| protocol := p +:+ ":"; host := h; pathname := if bool_decide (path = ""%string) then "/"%string else path |}
  | _ => None
  end.

Lemma simpleURL_kept : originKept simpleURL.
Proof. intros p _. reflexivity. Qed.

Definition sampleTrade : DeepLinkTarget := {| screen := TradeDetail; params := [("tradeId", "T 1/2")]%string |}.
Lemma shared_link_opens_witness : webUrlFor sampleTrade = "https://amanavault.app/trades/T%201%2F2"%string ∧
  parseDeepLink simpleURL (Some "https://amanavault.app/trades/T%201%2F2"%string) = Ok (Some sampleTrade).
Proof. split; [reflexivity|]. apply (shared_link_opens simpleURL sampleTrade); [exact simpleURL_kept|]. constructor. split; [reflexivity|done]. Defined.

Lemma links_guarded_witness : visited (run simpleURL [Session (Some "jwt"%string); Resume true] (step simpleURL (Opened (Some "amanavault://trades/7"%string) true) coldStart)) =
  [({| screen := TradeDetail; params := [("tradeId", "7")] |}, Some "jwt")]%string.
Proof.
  apply (links_guarded simpleURL []) with (t := {| screen := TradeDetail; params := [("tradeId", "7")]%string |}) (url := "amanavault://trades/7"%string) (tok := "jwt"%string) (r := coldStart);
    [reflexivity|reflexivity|reflexivity|done].
Defined.

(** The link of the page that creates a trade opens the trade named [create]. *)
Example create_link_opens_trade : parseDeepLink simpleURL (Some (webUrlFor {| screen := CreateTrade; params := [] |})) =
  Ok (Some {| screen := TradeDetail; params := [("tradeId", "create")]%string |}).
Proof. reflexivity. Qed.

(** A malformed identifier is not ignored but throws, and a trade named by a point or two has a
    link that leads elsewhere, as the URL parser resolves it. *)
Example malformed_link_throws : parseDeepLink simpleURL (Some "amanavault://trades/50%"%string) = Err "URI malformed"%string.
Proof. reflexivity. Qed.
Example foreign_host : parseDeepLink simpleURL (Some "https://evil.example/trades/9"%string) = Ok (Some {| screen := TradeDetail; params := [("tradeId", "9")]%string |}).
Proof. reflexivity. Qed.
