(* ===== verification/MobileErrors.v ===== *)
(** * Backend errors on the phone: [src/mobile/src/api/errorInterceptor.ts], [adminErrorMap.ts], [errors.ts]

    From a failed request to what a screen shows: the interceptor makes an [AdminApiError] of it,
    and a view gives it a title, a message and the next step. A response's body has the declared
    types or is none; [Date.parse] is the engine's and an argument. *)

From S2P Require Import Prelude JsString JsValue JsText Errors.
From S2P Require ErrorMapping.

Inductive AdminErrorAction : Type := retry | wait_then_retry | contact_support | sign_out_required | refresh | go_back | dismiss.
#[global] Instance AdminErrorAction_eq_dec : EqDecision AdminErrorAction.
Proof. solve_decision. Defined.

Record Entry : Type := { e_title : string; e_message : string; e_action : AdminErrorAction }.
Definition entry (t m : string) (a : AdminErrorAction) : Entry := {| e_title := t; e_message := m; e_action := a |}.

Record AdminErrorView : Type := {
  title : string; message : string; action : AdminErrorAction; retryAfterSeconds : option Z; code : string; requestId : option string }.

Record RawBackendErrorBody : Type := {
  b_code : option string; b_message : option string; b_details : option (list (string * jsval)); b_requestId : option string;
  b_correlationId : option string; b_path : option string }.
Definition noBody : RawBackendErrorBody :=
  {| b_code := None; b_message := None; b_details := None; b_requestId := None; b_correlationId := None; b_path := None |}.

Record AdminApiError : Type := {
  a_code : string; a_message : string; a_status : option Z; a_details : list (string * jsval); a_requestId : option string;
  a_correlationId : option string; a_path : option string; a_retryAfterSeconds : option Z }.

(** ** The table *)

Definition ADMIN_ERROR_MAP : list (string * Entry) :=
  [("AUTH_ERROR", entry "Admin access required" "Your account doesn't have permission for this admin action. Sign in with an admin account or ask your team lead to grant access." sign_out_required);
   ("TRADE_ACCESS_DENIED", entry "Not allowed" "You don't have permission to do this. Contact support if you think this is wrong." contact_support);
   ("ADMIN_QUOTA_EXCEEDED", entry "Too many admin actions" "You've hit the limit for this admin operation. Wait for the window to reset and try again." wait_then_retry);
   ("RATE_LIMIT_EXCEEDED", entry "Slow down" "Too many requests in a short time. Please wait a moment and try again." wait_then_retry);
   ("ADMIN_OPERATION_TIMEOUT", entry "Network timed out" "The Stellar network didn't respond in time. Check your connection and try again — the operation may still have succeeded." retry);
   ("PAYMENT_PROVIDER_TIMEOUT", entry "Network timed out" "The payment provider took too long to respond. Check your connection and try again." retry);
   ("NOT_FOUND", entry "Not found" "That item couldn't be found. It may have been removed or already completed." go_back);
   ("TRADE_NOT_FOUND", entry "Trade not found" "This trade couldn't be found. It may have been completed or removed." go_back);
   ("DISPUTE_NOT_FOUND", entry "Dispute not found" "This dispute couldn't be found. It may have been resolved." go_back);
   ("DOMAIN_ERROR", entry "Action not allowed" "This action isn't allowed in the current state. Refresh to see the latest status." refresh);
   ("TRADE_INVALID_STATUS", entry "Action not allowed" "This trade isn't in the right state for that action. Refresh to see the latest status." refresh);
   ("DISPUTE_STATUS_TRANSITION_INVALID", entry "Action not allowed" "This dispute can't move to that state from here. Refresh to see what's available." refresh);
   ("DISPUTE_STATUS_CONFLICT", entry "Already updated" "Another admin updated this dispute. Refresh to see the latest state before retrying." refresh);
   ("DISPUTE_INVALID_CATEGORY", entry "Invalid category" "The chosen dispute category is not valid here. Pick another category and try again." dismiss);
   ("VALIDATION_ERROR", entry "Check your input" "Some of the information looks off. Review the form and try again — your changes were not saved." dismiss);
   ("CLAWBACK_INVALID_AMOUNT", entry "Invalid amount" "The clawback amount must be a positive whole number. Adjust it and try again." dismiss);
   ("CLAWBACK_TOO_LARGE", entry "Amount too large" "This clawback would exceed the stream's remaining vested balance. Lower the amount and try again." dismiss);
   ("PAYMENT_INSUFFICIENT_FUNDS", entry "Not enough balance" "The system account doesn't have enough balance for this operation. Contact support to top it up." contact_support);
   ("PAYMENT_PROVIDER_ERROR", entry "Payment service unavailable" "The payment service is having trouble. Wait a moment and try again — if it keeps failing, contact support." wait_then_retry);
   ("INFRA_ERROR", entry "Service unavailable" "A backend service is unavailable right now. Wait a few seconds and try again — if it keeps failing, contact support." wait_then_retry);
   ("INTERNAL_ERROR", entry "Something went wrong" "We hit an unexpected error processing that action. Try again, and contact support with the request id if it keeps happening." contact_support);
   ("TRADE_BUILD_FAILED", entry "Couldn't build transaction" "The blockchain transaction could not be built. Try again — if it keeps failing, contact support with the request id." contact_support);
   ("NETWORK_ERROR", entry "Connection problem" "You appear to be offline. Check your connection and try again." retry);
   ("TIMEOUT_ERROR", entry "Network timed out" "The request timed out. Check your connection and try again." retry);
   ("UNKNOWN", entry "Something went wrong" "We hit an unexpected error. Try again, and contact support with the request id if it keeps happening." contact_support)].

Definition DEFAULT_VIEW : Entry :=
  entry "Something went wrong" "We hit an unexpected error. Try again, and contact support with the request id if it keeps happening." contact_support.

Definition lookupEntry (k : string) : option Entry := snd <$> List.find (λ kv, bool_decide (kv.1 = k)) ADMIN_ERROR_MAP.

Definition mapAdminErrorCode (c : option string) (seconds : option Z) : AdminErrorView :=
  let key := toUpperCase (default ""%string c) in
  let e := default DEFAULT_VIEW (lookupEntry key) in
  {| title := e_title e; message := e_message e;
     action := if bool_decide (key = "ADMIN_QUOTA_EXCEEDED"%string) || bool_decide (key = "RATE_LIMIT_EXCEEDED"%string) then wait_then_retry else e_action e;
     retryAfterSeconds := seconds; code := if bool_decide (key = ""%string) then "UNKNOWN"%string else key; requestId := None |}.

(** [typeof v === "number" && Number.isFinite(v) && v >= 0], rounded up. *)
Definition finiteSeconds (v : jsval) : option Z :=
  match v with
  | VNum (JInt n) _ => if 0 <=? n then Some n else None
  | VNum (JNonInt f) _ => if 0 <=? f then Some (f + 1) else None
  | _ => None
  end.

Definition extractRetryAfterSeconds (details : option (list (string * jsval))) : option Z :=
  d ← details; finiteSeconds (orElse (orElse (lookupField "retryAfterSeconds" d) (lookupField "retryAfter" d)) (lookupField "retry_after" d)).
Definition pickRetryAfterFromDetails (details : option (list (string * jsval))) : option Z :=
  d ← details; head (omap (λ k, finiteSeconds (lookupField k d)) ["retryAfterSeconds"; "retryAfter"; "retry_after"]%string).

Definition nonEmpty (s : option string) : option string := match s with Some ""%string => None | _ => s end.

Definition buildAdminApiError (body : RawBackendErrorBody) (status : option Z) (fallbackMessage : string) : AdminApiError :=
  {| a_code := default "INTERNAL_ERROR"%string (b_code body); a_message := default fallbackMessage (b_message body); a_status := status;
     a_details := default [] (b_details body); a_requestId := nonEmpty (b_requestId body); a_correlationId := nonEmpty (b_correlationId body);
     a_path := nonEmpty (b_path body); a_retryAfterSeconds := extractRetryAfterSeconds (b_details body) |}.

(** ** The interceptor *)

Record AxiosResponse : Type := { r_status : Z; r_data : option RawBackendErrorBody; r_retryAfter : option string }.
Record AxiosError : Type := { response : option AxiosResponse; x_code : option string; x_message : string }.

Definition formatRetryAfter (seconds : Z) : string :=
  if seconds <=? 0 then "now"
  else if seconds <? 60 then toString seconds +:+ "s"
  else if seconds <? 3600 then
    let minutes := (seconds + 30) / 60 in toString minutes +:+ " minute" +:+ (if minutes =? 1 then "" else "s")
  else let hours := (seconds + 1800) / 3600 in toString hours +:+ " hour" +:+ (if hours =? 1 then "" else "s").

Definition withDetail (k : string) (v : jsval) (d : list (string * jsval)) : list (string * jsval) := (k, v) :: List.filter (λ kv, negb (bool_decide (kv.1 = k))) d.
Definition numberValue (n : Z) : jsval := VNum (JInt n) (toString n).

Section Interceptor.
Context (dateParse : string → option Z) (now : Z).

(** A header of digits is below [Infinity] when it has fewer than 309 of them. *)
Definition parseRetryAfterHeader (value : option string) : option Z :=
  v ← nonEmpty value;
  if str_forall is_digit v then match parseInt v with JInt n => Some n | _ => None end
  else ts ← dateParse v; Some (Z.max 0 (- ((now - ts) / 1000))).

Definition withCode (b : RawBackendErrorBody) (c : option string) (m : option string) (d : option (list (string * jsval))) : RawBackendErrorBody :=
  {| b_code := c; b_message := m; b_details := d; b_requestId := b_requestId b; b_correlationId := b_correlationId b; b_path := b_path b |}.

(** The error the returned promise rejects with. *)
Definition adminErrorResponseErrorInterceptor (e : AxiosError) : AdminApiError :=
  let fallback := if bool_decide (x_message e = ""%string) then "Request failed"%string else x_message e in
  match response e with
  | None =>
      let isTimeout := bool_decide (x_code e = Some "ECONNABORTED"%string) || contains "timeout" (toLowerCase (x_message e)) in
      buildAdminApiError
        (withCode noBody (Some (if isTimeout then "TIMEOUT_ERROR" else "NETWORK_ERROR")%string)
           (Some (if isTimeout then "The request timed out. Check your connection and try again." else "You appear to be offline. Check your connection and try again.")%string)
           (Some [("axiosCode", match x_code e with Some c => VStr c | None => VUndefined end); ("message", VStr (x_message e))]%string))
        None fallback
  | Some r =>
      let status := r_status r in
      let body := default noBody (r_data r) in
      if (status =? 401) || (status =? 403) then
        buildAdminApiError
          (withCode body (Some (default "AUTH_ERROR"%string (b_code body)))
             (Some (match nonEmpty (b_code body) with
                    | Some _ => default "Access denied for this action." (b_message body)
                    | None => if (status =? 401)%Z then "Your session expired. Sign in again to continue."
                              else "Your account doesn't have permission for this admin action." end)%string)
             (b_details body))
          (Some status) "Access denied for this action."
      else if status =? 429 then
        let seconds := match pickRetryAfterFromDetails (b_details body) with Some n => Some n | None => parseRetryAfterHeader (r_retryAfter r) end in
        let truthySeconds := match seconds with Some 0 => None | s => s end in
        buildAdminApiError
          (withCode body (Some (default "RATE_LIMIT_EXCEEDED"%string (b_code body)))
             (Some (default (match truthySeconds with
                             | Some n => "Too many requests. Try again in " +:+ formatRetryAfter n +:+ "."
                             | None => "Too many requests. Wait a moment and try again." end)%string (b_message body)))
             (match truthySeconds with
              | Some n => Some (withDetail "retryAfterSeconds" (numberValue n) (default [] (b_details body)))
              | None => b_details body end))
          (Some status) "Too many requests."
      else match b_code body with
           | Some _ => buildAdminApiError body (Some status) fallback
           | None =>
               buildAdminApiError
                 (withCode noBody (Some "UNKNOWN"%string)
                    (Some (if (500 <=? status)%Z then "The server hit an unexpected error. Try again in a moment." else "The request could not be completed. Try again.")%string) None)
                 (Some status) fallback
           end
  end.
End Interceptor.

(** What a screen catches: an [AdminApiError], another [Error], or anything else. *)
Inductive Caught : Type := CaughtApi (e : AdminApiError) | CaughtError (m : string) | CaughtOther.

Definition viewForError (error : Caught) : AdminErrorView :=
  match error with
  | CaughtApi e =>
      let v := mapAdminErrorCode (Some (a_code e)) (a_retryAfterSeconds e) in
      {| title := title v; message := message v; action := action v; retryAfterSeconds := retryAfterSeconds v; code := code v; requestId := nonEmpty (a_requestId e) |}
  | _ =>
      let v := mapAdminErrorCode (Some "INTERNAL_ERROR"%string) None in
      {| title := title v; message := match error with CaughtError (String c r) => String c r | _ => "Something went wrong. Try again."%string end;
         action := retry; retryAfterSeconds := None; code := "UNKNOWN"; requestId := None |}
  end.

(** The error's own view, which does not consult the table. *)
Definition toView (e : AdminApiError) : AdminErrorView :=
  {| title := "Something went wrong"; message := a_message e; action := retry; retryAfterSeconds := a_retryAfterSeconds e;
     code := a_code e; requestId := nonEmpty (a_requestId e) |}.

(** ** The table covers what it means to *)

Definition ALL_CODES : list ErrorCode :=
  [VALIDATION_ERROR; AUTH_ERROR; DOMAIN_ERROR; INFRA_ERROR; NOT_FOUND; INTERNAL_ERROR; TRADE_NOT_FOUND; TRADE_ACCESS_DENIED; TRADE_INVALID_STATUS;
   TRADE_BUILD_FAILED; DISPUTE_INVALID_CATEGORY; DISPUTE_STATUS_TRANSITION_INVALID; DISPUTE_STATUS_CONFLICT; DISPUTE_NOT_FOUND; PAYMENT_PROVIDER_ERROR;
   PAYMENT_PROVIDER_TIMEOUT; PAYMENT_INSUFFICIENT_FUNDS; RATE_LIMIT_EXCEEDED; ADMIN_QUOTA_EXCEEDED; ADMIN_OPERATION_TIMEOUT; CLAWBACK_UNAUTHORIZED;
   CLAWBACK_INSUFFICIENT_VESTED; CLAWBACK_INVALID_AMOUNT; CLAWBACK_STREAM_NOT_FOUND; CLAWBACK_INVALID_STATUS; CLAWBACK_TOO_LARGE;
   SUBMISSION_VALIDATION_ERROR; SUBMISSION_NETWORK_ERROR; SUBMISSION_CONTRACT_ERROR; SUBMISSION_AUTHORIZATION_ERROR].

(** The backend's codes without an entry, clawback and submission errors, are shown as
    unexpected errors; every other code has its own. *)
Theorem unmapped_codes c : lookupEntry (ErrorMapping.codeText c) = None ↔
  c ∈ [CLAWBACK_UNAUTHORIZED; CLAWBACK_INSUFFICIENT_VESTED; CLAWBACK_STREAM_NOT_FOUND; CLAWBACK_INVALID_STATUS; SUBMISSION_VALIDATION_ERROR;
       SUBMISSION_NETWORK_ERROR; SUBMISSION_CONTRACT_ERROR; SUBMISSION_AUTHORIZATION_ERROR].
Proof. rewrite <-(bool_decide_eq_true (lookupEntry (ErrorMapping.codeText c) = None)), <-(bool_decide_eq_true (c ∈ _)). by destruct c. Qed.

(** A code is looked up whatever its case. *)
Lemma view_of_backend_code c seconds : code (mapAdminErrorCode (Some (ErrorMapping.codeText c)) seconds) = ErrorMapping.codeText c.
Proof. by destruct c. Qed.
Lemma view_in_lower_case c seconds : mapAdminErrorCode (Some (toLowerCase (ErrorMapping.codeText c))) seconds = mapAdminErrorCode (Some (ErrorMapping.codeText c)) seconds.
Proof. by destruct c. Qed.

Lemma toUpperCase_nonempty s : s ≠ ""%string → toUpperCase s ≠ ""%string.
Proof. destruct s as [|c r]; [done|]. intros _. cbn. unfold upperChar. by case_ifs. Qed.

Lemma lookupEntry_texts k e : lookupEntry k = Some e → e_title e ≠ ""%string ∧ e_message e ≠ ""%string.
Proof.
  unfold lookupEntry. destruct (List.find _ _) as [[k' e']|] eqn:H; [|done]. cbn. intros [= ->].
  apply List.find_some in H as [H _]. assert (Forall (λ kv, e_title kv.2 ≠ "" ∧ e_message kv.2 ≠ "")%string ADMIN_ERROR_MAP) as Hf by (vm_compute; repeat constructor; done).
  rewrite Forall_forall in Hf. apply (Hf (k', e)). by apply list_elem_of_In.
Qed.

Section Interceptor.
Context (dateParse : string → option Z) (now : Z).

Definition shown (e : AxiosError) : AdminErrorView := viewForError (CaughtApi (adminErrorResponseErrorInterceptor dateParse now e)).

Lemma nonEmpty_idem s : nonEmpty (nonEmpty s) = nonEmpty s.
Proof. by destruct s as [[|]|]. Qed.
Lemma code_nonempty k : (if bool_decide (k = ""%string) then "UNKNOWN"%string else k) ≠ ""%string.
Proof. by case_bool_decide. Qed.

Lemma viewForError_fields e : title (viewForError (CaughtApi e)) = e_title (default DEFAULT_VIEW (lookupEntry (toUpperCase (a_code e)))) ∧
  retryAfterSeconds (viewForError (CaughtApi e)) = a_retryAfterSeconds e ∧ requestId (viewForError (CaughtApi e)) = nonEmpty (a_requestId e).
Proof. done. Qed.

Lemma finiteSeconds_nonneg v n : finiteSeconds v = Some n → 0 ≤ n.
Proof. destruct v as [| | |[z|z| | |]| | |]; cbn; try done; [destruct (Z.leb_spec 0 z)|destruct (Z.leb_spec 0 z)]; intros [= <-]; lia. Qed.

Lemma extract_withDetail n d : 0 ≤ n → extractRetryAfterSeconds (Some (withDetail "retryAfterSeconds" (numberValue n) d)) = Some n.
Proof. intros Hn. change (finiteSeconds (numberValue n) = Some n). unfold finiteSeconds, numberValue. by rewrite (proj2 (Z.leb_le 0 n)). Qed.

Lemma pick_nonneg details n : pickRetryAfterFromDetails details = Some n → 0 ≤ n.
Proof.
  destruct details as [d|]; [|done]. cbn [pickRetryAfterFromDetails mbind option_bind]. intros H%head_Some_elem_of.
  apply list_elem_of_omap in H as (k & _ & H). by eapply finiteSeconds_nonneg.
Qed.

(** Whatever failed, the screen has a title and a message and a code, and the next step
    follows the kind of failure: without an answer, to retry; for a refusal the server gave no
    code for, to sign out; for a rate limit it gave no code for or its own, to wait, for the
    seconds of the header when the body names none; and for any other code, the step the
    table has for it, with the request's id kept for support. *)
Theorem interceptor_view_spec e : let v := shown e in
  title v ≠ ""%string ∧ message v ≠ ""%string ∧ code v ≠ ""%string ∧
  match response e with
  | None => action v = retry ∧ (code v = "TIMEOUT_ERROR" ∨ code v = "NETWORK_ERROR")%string ∧ retryAfterSeconds v = None
  | Some r =>
      requestId v = (if (r_status r =? 401) || (r_status r =? 403) || (r_status r =? 429) || bool_decide (r_data r ≫= b_code ≠ None)
                     then nonEmpty (r_data r ≫= b_requestId) else None) ∧
      (r_data r ≫= b_code = None → r_status r = 401 ∨ r_status r = 403 → action v = sign_out_required) ∧
      (r_status r = 429 → r_data r ≫= b_code ∈ [None; Some "RATE_LIMIT_EXCEEDED"; Some "ADMIN_QUOTA_EXCEEDED"]%string → action v = wait_then_retry) ∧
      (∀ n, r_status r = 429 → r_data r ≫= b_details = None → parseRetryAfterHeader dateParse now (r_retryAfter r) = Some n → 0 < n → retryAfterSeconds v = Some n) ∧
      (∀ c, r_data r ≫= b_code = Some (ErrorMapping.codeText c) → code v = ErrorMapping.codeText c ∧
         action v = e_action (default DEFAULT_VIEW (lookupEntry (ErrorMapping.codeText c))))
  end.
Proof.
  intros v. assert (∀ x, title (viewForError (CaughtApi x)) ≠ ""%string ∧ message (viewForError (CaughtApi x)) ≠ ""%string ∧ code (viewForError (CaughtApi x)) ≠ ""%string) as Ht.
  { intros x. unfold viewForError, mapAdminErrorCode. cbn [title message code default from_option id].
    split_and!; [destruct (lookupEntry _) as [en|] eqn:E; [by destruct (lookupEntry_texts _ _ E)|done]..|apply code_nonempty]. }
  destruct (Ht (adminErrorResponseErrorInterceptor dateParse now e)) as (H1 & H2 & H3). split_and!; [exact H1|exact H2|exact H3|].
  clear Ht H1 H2 H3. unfold v, shown, adminErrorResponseErrorInterceptor. clear v. destruct (response e) as [r|].
  2:{ destruct (_ || _); cbn; auto. }
  assert ((r_data r ≫= b_code) = b_code (default noBody (r_data r)) ∧ (r_data r ≫= b_requestId) = b_requestId (default noBody (r_data r)) ∧
    (r_data r ≫= b_details) = b_details (default noBody (r_data r))) as (-> & -> & ->) by by destruct (r_data r).
  set (b := default noBody (r_data r)). cbv zeta.
  assert (∀ c (b : RawBackendErrorBody) s f, b_code b = Some (ErrorMapping.codeText c) → code (viewForError (CaughtApi (buildAdminApiError b s f))) = ErrorMapping.codeText c ∧
    action (viewForError (CaughtApi (buildAdminApiError b s f))) = e_action (default DEFAULT_VIEW (lookupEntry (ErrorMapping.codeText c)))) as Hc.
  { intros c b' s f Hb. cbn [viewForError buildAdminApiError code action a_code]. rewrite Hb. cbn [default from_option id]. by destruct c. }
  destruct ((r_status r =? 401) || (r_status r =? 403)) eqn:H4; [|destruct (r_status r =? 429) eqn:H9].
  - apply orb_true_iff in H4. rewrite !Z.eqb_eq in H4. cbn [orb]. split_and!; [apply nonEmpty_idem| |intros; lia|intros; lia|].
    + intros Hn _. cbn. by rewrite Hn.
    + intros c Hb. apply Hc. cbn. by rewrite Hb.
  - apply Z.eqb_eq in H9. cbn [orb]. split_and!; [apply nonEmpty_idem|intros; lia| | |].
    + intros _ Hin. apply elem_of_cons in Hin as [E|[E|[E|[]%elem_of_nil]%elem_of_cons]%elem_of_cons];
        cbn [viewForError buildAdminApiError mapAdminErrorCode withCode action a_code b_code]; rewrite E; reflexivity.
    + intros n _ Hd Hn Hpos. rewrite Hd. change (pickRetryAfterFromDetails None) with (@None Z). cbn iota. rewrite Hn.
      assert (match n with 0 => None | _ => Some n end = Some n) as -> by (destruct n; [lia|done..]). 
      change (extractRetryAfterSeconds (Some (withDetail "retryAfterSeconds" (numberValue n) [])) = Some n). apply extract_withDetail. lia.
    + intros c Hb. apply Hc. cbn. by rewrite Hb.
  - apply orb_false_iff in H4. rewrite !Z.eqb_neq in H4. apply Z.eqb_neq in H9. cbn [orb]. destruct (b_code b) as [c|] eqn:Hb; cbn [option_map].
    + rewrite (bool_decide_eq_true_2 (Some c ≠ None)) by done. split_and!; [apply nonEmpty_idem|intros; congruence|intros; lia|intros; lia|]. intros c' [= ->]. by apply Hc.
    + rewrite (bool_decide_eq_false_2 (None ≠ None)) by auto. split_and!; [done|intros; lia|intros; lia|intros; lia|intros; congruence].
Qed.
End Interceptor.

(** ** Samples *)

Definition limited : AxiosError := {| response := Some {| r_status := 429; r_data := Some noBody; r_retryAfter := Some "90"%string |}; x_code := None; x_message := "429" |}.
Lemma interceptor_view_spec_witness : action (shown (λ _, None) 0 limited) = wait_then_retry ∧ retryAfterSeconds (shown (λ _, None) 0 limited) = Some 90.
Proof.
  pose proof (interceptor_view_spec (λ _, None) 0 limited) as (_ & _ & _ & _ & _ & Hw & Hs & _). split.
  - apply Hw; [vm_compute; reflexivity|]. vm_compute. left.
  - apply Hs; [vm_compute; reflexivity..|lia].
Defined.

Definition answered (status : Z) : AxiosError := {| response := Some {| r_status := status; r_data := None; r_retryAfter := None |}; x_code := None; x_message := "failed" |}.
(** The messages the interceptor writes for an expired session and for a failing server reach
    no screen: a view takes its message from the table, where both read otherwise. *)
Example expired_session_title : title (shown (λ _, None) 0 (answered 401)) = "Admin access required"%string ∧
  a_message (adminErrorResponseErrorInterceptor (λ _, None) 0 (answered 401)) = "Your session expired. Sign in again to continue."%string.
Proof. split; vm_compute; reflexivity. Qed.

(** An error's own view offers to retry what the table asks to sign in for. *)
Example views_disagree : let e := adminErrorResponseErrorInterceptor (λ _, None) 0 (answered 401) in
  action (toView e) = retry ∧ action (viewForError (CaughtApi e)) = sign_out_required.
Proof. split; vm_compute; reflexivity. Qed.

(** Just under an hour is said to be sixty minutes. *)
Example sixty_minutes : formatRetryAfter 3590 = "60 minutes"%string ∧ formatRetryAfter 3600 = "1 hour"%string.
Proof. split; vm_compute; reflexivity. Qed.

(** The two readers of the details differ: one takes the first name present, the other the
    first that is a number of seconds. *)
Example readers_differ : let d := Some [("retryAfterSeconds", VStr "5"); ("retryAfter", numberValue 7)]%string in
  extractRetryAfterSeconds d = None ∧ pickRetryAfterFromDetails d = Some 7.
Proof. split; vm_compute; reflexivity. Qed.
