(* ===== verification/MobileTrades.v ===== *)
(** * The trades of the phone: [src/mobile/src/stores/tradeStore.ts], [services/haptics.service.ts]

    The store behind the trade screens. An operation begins, its request is answered later, and
    others may begin and end in between; releasing and depositing go on with a silent refresh of
    the trade on screen, and the second end of loading that follows that refresh in the same
    turn is part of it. A tap is a haptic. *)

From S2P Require Import Prelude.
From S2P Require MobileErrors.

Inductive TradeStatus : Type := PENDING | FUNDED | IN_TRANSIT | DELIVERED | DISPUTED | COMPLETED | REFUNDED.
#[global] Instance TradeStatus_eq_dec : EqDecision TradeStatus.
Proof. solve_decision. Defined.
Record Trade : Type := { tradeId : string; status : TradeStatus }.

(** ** Haptics *)

Inductive HapticKind : Type := success | warning | light.
Inductive NotificationKind : Type := trade | dispute | general.
Definition hapticKindForStatus (s : TradeStatus) : HapticKind :=
  match s with DISPUTED | REFUNDED => warning | COMPLETED => success | _ => light end.
Definition hapticKindForNotification (k : option NotificationKind) : option HapticKind :=
  match k with Some trade => Some light | Some dispute => Some warning | Some general | None => None end.
Definition isTradeStatusTransition (previous next : option TradeStatus) : bool :=
  match previous, next with Some p, Some n => negb (bool_decide (p = n)) | _, _ => false end.

(** What is felt: on the web nothing, elsewhere nothing when the device refuses. *)
Definition fire (web available : bool) (k : HapticKind) : list HapticKind := if web then [] else if available then [k] else [].

(** ** The store *)

Notation View := MobileErrors.AdminErrorView.
Record TradeState : Type := {
  trades : list Trade; total : Z; currentTrade : option Trade; isLoading : bool; errorView : option View; lastActionErrorView : option View }.
Definition initial : TradeState := {| trades := []; total := 0; currentTrade := None; isLoading := false; errorView := None; lastActionErrorView := None |}.

Definition setLoading (b : bool) (s : TradeState) : TradeState :=
  {| trades := trades s; total := total s; currentTrade := currentTrade s; isLoading := b; errorView := errorView s; lastActionErrorView := lastActionErrorView s |}.
Definition setError (e : option View) (s : TradeState) : TradeState :=
  {| trades := trades s; total := total s; currentTrade := currentTrade s; isLoading := isLoading s; errorView := e; lastActionErrorView := lastActionErrorView s |}.
Definition setActionError (e : option View) (s : TradeState) : TradeState :=
  {| trades := trades s; total := total s; currentTrade := currentTrade s; isLoading := isLoading s; errorView := errorView s; lastActionErrorView := e |}.
Definition setCurrent (t : Trade) (s : TradeState) : TradeState :=
  {| trades := trades s; total := total s; currentTrade := Some t; isLoading := isLoading s; errorView := errorView s; lastActionErrorView := lastActionErrorView s |}.
Definition setList (l : list Trade) (n : Z) (s : TradeState) : TradeState :=
  {| trades := l; total := n; currentTrade := currentTrade s; isLoading := isLoading s; errorView := errorView s; lastActionErrorView := lastActionErrorView s |}.

Definition notifyStatusTransition (previous : option Trade) (next : Trade) : list HapticKind :=
  match previous with
  | Some p => if bool_decide (tradeId p = tradeId next) && isTradeStatusTransition (Some (status p)) (Some (status next))
              then [hapticKindForStatus (status next)] else []
  | None => []
  end.

Inductive Operation : Type :=
| FetchTrades | FetchTrade (silent : bool) | CreateTrade | ConfirmDelivery | ReleaseFunds | Deposit | InitiateDispute.
Definition mutation (op : Operation) : bool := match op with FetchTrades | FetchTrade _ => false | _ => true end.

(** What an operation does before its request. *)
Definition begin (op : Operation) (s : TradeState) : TradeState :=
  match op with
  | FetchTrade true => setLoading true s
  | FetchTrades | FetchTrade false => setLoading true (setError None s)
  | _ => setLoading true (setActionError None s)
  end.

(** The request's answer: a list, a trade, something that is not kept, or a failure. *)
Inductive Answer : Type := GotList (l : list Trade) (n : Z) | GotTrade (t : Trade) | Done | Failed (v : View).

(** What an operation does with its answer, the haptic it triggers, and whether it goes on with
    a silent refresh. *)
Definition finish (op : Operation) (a : Answer) (s : TradeState) : TradeState * list HapticKind * bool :=
  match a, op with
  | Failed v, FetchTrade true => (setLoading false s, [], false)
  | Failed v, (FetchTrades | FetchTrade false) => (setLoading false (setError (Some v) s), [], false)
  | Failed v, _ => (setLoading false (setActionError (Some v) s), [], false)
  | GotList l n, FetchTrades => (setLoading false (setList l n s), [], false)
  | GotTrade t, (FetchTrade _ | ConfirmDelivery | InitiateDispute) => (setLoading false (setCurrent t s), notifyStatusTransition (currentTrade s) t, false)
  | _, (ReleaseFunds | Deposit) => match currentTrade s with Some _ => (begin (FetchTrade true) s, [], true) | None => (setLoading false s, [], false) end
  | _, _ => (setLoading false s, [], false)
  end.

(** The store and the requests under way, by number. *)
Record Phone : Type := { store : TradeState; next : nat; pending : gmap nat Operation; felt : list HapticKind }.
Definition fresh : Phone := {| store := initial; next := 0; pending := ∅; felt := [] |}.

Inductive Event : Type := Begin (op : Operation) | Settle (n : nat) (a : Answer) | ClearErrors.
Definition step (e : Event) (p : Phone) : Phone :=
  match e with
  | Begin op => {| store := begin op (store p); next := S (next p); pending := <[next p := op]> (pending p); felt := felt p |}
  | ClearErrors => {| store := setActionError None (setError None (store p)); next := next p; pending := pending p; felt := felt p |}
  | Settle n a =>
      match pending p !! n with
      | None => p
      | Some op =>
          let '(s, h, goesOn) := finish op a (store p) in
          {| store := s; next := next p; pending := if goesOn : bool then <[n := FetchTrade true]> (pending p) else delete n (pending p); felt := h ++ felt p |}
      end
  end.
Definition run (es : list Event) (p : Phone) : Phone := foldl (λ p e, step e p) p es.

(** ** What holds *)

(** Requests under way have been numbered, and when there are none nothing is loading. *)
Record wellFormed (p : Phone) : Prop := {
  numbered n op : pending p !! n = Some op → (n < next p)%nat;
  idle : pending p = ∅ → isLoading (store p) = false }.

Lemma finish_loading op a s : let '(s', _, goesOn) := finish op a s in isLoading s' = goesOn.
Proof. destruct a, op as [|[]| | | | |]; cbn; try done; by destruct (currentTrade s). Qed.

Lemma step_wellFormed e p : wellFormed p → wellFormed (step e p).
Proof.
  intros [Hn Hi]. destruct e as [op|n a|]; cbn [step].
  - split; cbn.
    + intros m o [[<- <-]|[_ H]]%lookup_insert_Some; [lia|]. specialize (Hn m o H). lia.
    + intros H. by apply insert_non_empty in H.
  - destruct (pending p !! n) as [op|] eqn:Hp; [|by split]. pose proof (finish_loading op a (store p)) as Hl.
    destruct (finish op a (store p)) as [[s h] []]; split; cbn.
    + intros m o [[<- <-]|[_ H]]%lookup_insert_Some; [by eapply Hn|]. by eapply Hn.
    + intros H. by apply insert_non_empty in H.
    + intros m o [_ H]%lookup_delete_Some. by eapply Hn.
    + done.
  - by split.
Qed.

(** The errors of loading and of acting do not touch each other. *)
Lemma begin_errors op s : (mutation op = true → errorView (begin op s) = errorView s) ∧
  (mutation op = false → lastActionErrorView (begin op s) = lastActionErrorView s).
Proof. by destruct op as [|[]| | | | |]. Qed.
Lemma finish_errors op a s : let '(s', _, _) := finish op a s in
  (mutation op = true → errorView s' = errorView s) ∧ (mutation op = false → lastActionErrorView s' = lastActionErrorView s).
Proof. destruct a, op as [|[]| | | | |]; cbn; try done; by destruct (currentTrade s). Qed.

(** Whatever overlaps, once every request is answered nothing is loading; an answer to an
    operation that acts never changes what the screens show as a loading error, nor one to a load
    the error of an action, and a failed silent refresh changes neither. *)
Theorem store_settles es : let p := run es fresh in
  (pending p = ∅ → isLoading (store p) = false) ∧
  ∀ n a op, pending p !! n = Some op → let p' := step (Settle n a) p in
    (mutation op = true → errorView (store p') = errorView (store p)) ∧
    (mutation op = false → lastActionErrorView (store p') = lastActionErrorView (store p)) ∧
    (∀ v, op = FetchTrade true → a = Failed v → errorView (store p') = errorView (store p) ∧ lastActionErrorView (store p') = lastActionErrorView (store p)).
Proof.
  intros p. assert (wellFormed p) as [_ Hi].
  { unfold p, run. assert (∀ q, wellFormed q → wellFormed (foldl (λ p e, step e p) q es)) as H.
    - induction es as [|e es IH]; intros q Hq; [done|]. apply IH. by apply step_wellFormed.
    - apply H. by split. }
  split; [exact Hi|]. clearbody p. intros n a op Hp. cbn [step]. rewrite Hp. pose proof (finish_errors op a (store p)) as He.
  destruct (finish op a (store p)) as [[s h] b] eqn:E. cbn. destruct He as [H1 H2]. split_and!; [done|done|].
  intros v -> ->. cbn in E. injection E as <- _ _. done.
Qed.

(** A tap is felt exactly when the trade on screen is seen in another status. *)
Theorem felt_transitions previous next : notifyStatusTransition previous next ≠ [] ↔
  ∃ p, previous = Some p ∧ tradeId p = tradeId next ∧ status p ≠ status next.
Proof.
  unfold notifyStatusTransition, isTradeStatusTransition. destruct previous as [p|]; [|split; [done|by intros (? & ? & _)]].
  destruct (decide (tradeId p = tradeId next)) as [Ht|Ht]; [rewrite (bool_decide_eq_true_2 _ Ht)|rewrite (bool_decide_eq_false_2 _ Ht)]; cbn [andb].
  - destruct (decide (status p = status next)) as [Hs|Hs]; [rewrite (bool_decide_eq_true_2 _ Hs)|rewrite (bool_decide_eq_false_2 _ Hs)]; cbn [negb].
    + split; [done|]. intros (? & [= <-] & _ & ?). done.
    + split; [intros _; by exists p|done].
  - split; [done|]. intros (? & [= <-] & ? & _). done.
Qed.

(** ** Samples *)

Lemma store_settles_witness : let p := run [Begin (FetchTrade true)] fresh in ∀ v, errorView (store (step (Settle 0 (Failed v)) p)) = None.
Proof. intros p v. destruct (store_settles [Begin (FetchTrade true)]) as [_ H]. destruct (H 0%nat (Failed v) (FetchTrade true)) as (_ & _ & Hs); [reflexivity|]. destruct (Hs v eq_refl eq_refl) as [He _]. etransitivity; [exact He|reflexivity]. Defined.

(** The first answer of two ends the loading of both. *)
Example first_answer_ends_loading : let p := run [Begin FetchTrades; Begin (FetchTrade false); Settle 0 (GotList [] 0)] fresh in
  isLoading (store p) = false ∧ pending p !! 1%nat = Some (FetchTrade false).
Proof. split; vm_compute; reflexivity. Qed.

(** An answer about a trade that is no longer on screen replaces the one that is. *)
Definition t1 : Trade := {| tradeId := "T1"; status := DELIVERED |}.
Definition t2 : Trade := {| tradeId := "T2"; status := FUNDED |}.
Example late_answer_replaces_screen :
  currentTrade (store (run [Begin ConfirmDelivery; Begin (FetchTrade false); Settle 1 (GotTrade t2); Settle 0 (GotTrade t1)] fresh)) = Some t1.
Proof. vm_compute. reflexivity. Qed.
