(* ===== verification/Orphans.v ===== *)
(** * Orphaned deposits: [services/orphanDeposit.service.ts], [routes/admin.orphan.routes.ts]

    Deposits seen on the chain for which there is no trade are recorded once per transaction,
    listed for the administrators and attached to a trade. Orphans are filed under their
    transaction, trades under their contract id; a failed statement aborts the batch. *)

From S2P Require Import Prelude JsString JsValue Prisma.

Record DepositEvent : Type := {
  ledgerSeq : Z; txHash : string; depositorAddress : string; amountRaw : string; assetId : string; contractTradeId : option string }.
Record OrphanDeposit : Type := {
  id : Z; event : DepositEvent; resolved : bool; resolvedTradeId : option string; resolvedAt : option Z; detectedAt : Z }.
Record OrphanScanResult : Type := { scanned : Z; orphansDetected : Z; alreadyKnown : Z }.
Record AuditEntry : Type := { action : string; actorAddress : string; targetReference : string; note : string }.

#[global] Instance DepositEvent_eq_dec : EqDecision DepositEvent.
Proof. solve_decision. Defined.

Section Orphans.
Context {TO TT Trade : Type} `{!Table string OrphanDeposit TO} `{!Table string Trade TT}.

(** The stored event has the depositor in lower case. *)
Definition storedEvent (e : DepositEvent) : DepositEvent :=
  {| ledgerSeq := ledgerSeq e; txHash := txHash e; depositorAddress := toLowerCase (depositorAddress e); amountRaw := amountRaw e;
     assetId := assetId e; contractTradeId := contractTradeId e |}.
Definition orphanOf (newId now : Z) (e : DepositEvent) : OrphanDeposit :=
  {| id := newId; event := storedEvent e; resolved := false; resolvedTradeId := None; resolvedAt := None; detectedAt := now |}.

Definition matched (trades : TT) (e : DepositEvent) : bool :=
  match contractTradeId e with
  | None | Some ""%string => false
  | Some t => match findUnique t trades with Some _ => true | None => false end
  end.

Definition count (r : OrphanScanResult) (orphan known : Z) : OrphanScanResult :=
  {| scanned := scanned r; orphansDetected := orphansDetected r + orphan; alreadyKnown := alreadyKnown r + known |}.

(** Events in order; the row ids and the time come from the database. *)
Fixpoint ingestLoop (events : list DepositEvent) (newId now : Z) (trades : TT) (r : OrphanScanResult) (orphans : TO) : result string OrphanScanResult * TO :=
  match events with
  | [] => (Ok r, orphans)
  | e :: events =>
      match findUnique (txHash e) orphans with
      | Some _ => ingestLoop events newId now trades (count r 0 1) orphans
      | None =>
          if matched trades e then ingestLoop events newId now trades r orphans
          else match create (txHash e) (orphanOf newId now e) orphans with
               | None => (Err "P2002"%string, orphans)
               | Some orphans' => ingestLoop events (newId + 1) now trades (count r 1 0) orphans'
               end
      end
  end.
Definition ingestDepositEvents (events : list DepositEvent) (newId now : Z) (trades : TT) (orphans : TO) : result string OrphanScanResult * TO :=
  ingestLoop events newId now trades {| scanned := Z.of_nat (length events); orphansDetected := 0; alreadyKnown := 0 |} orphans.

(** Unresolved, newest first. *)
Definition newest (x y : OrphanDeposit) : Z := detectedAt y - detectedAt x.
Definition unresolved (orphans : TO) : list OrphanDeposit := js_sort newest (findMany (λ o, negb (resolved o)) orphans).
Definition listOrphans (page limit : Z) (orphans : TO) : list OrphanDeposit * Z :=
  (slice ((page - 1) * limit) limit (unresolved orphans), Z.of_nat (length (findMany (λ o, negb (resolved o)) orphans))).

(** [update] by row id, in one transaction with the audit entry; [auditFails] when the entry
    cannot be written. *)
Definition byId (orphanId : Z) (o : OrphanDeposit) : bool := id o =? orphanId.
Definition attachTo (t : string) (now : Z) (o : OrphanDeposit) : OrphanDeposit :=
  {| id := id o; event := event o; resolved := true; resolvedTradeId := Some t; resolvedAt := Some now; detectedAt := detectedAt o |}.
Definition attachEntry (orphanId : Z) (t admin : string) : AuditEntry :=
  {| action := "orphan_deposit_attached"; actorAddress := admin; targetReference := t;
     note := "Orphan deposit #" +:+ toString orphanId +:+ " attached to trade " +:+ t |}.

Definition attachOrphanToTrade (orphanId : Z) (t admin : string) (now : Z) (auditFails : option string) (trades : TT) (s : TO * list AuditEntry)
    : result string unit * (TO * list AuditEntry) :=
  match findUnique t trades with
  | None => (Err ("Trade " +:+ t +:+ " not found")%string, s)
  | Some _ =>
      match findFirst (byId orphanId) s.1 with
      | None => (Err "Record to update not found."%string, s)
      | Some _ =>
          match auditFails with
          | Some m => (Err m, s)
          | None => (Ok tt, ((updateMany (byId orphanId) (attachTo t now) s.1).2, attachEntry orphanId t admin :: s.2))
          end
      end
  end.

(** The answer of the endpoint that attaches. *)
Definition attachStatus (rawId : string) (t admin : string) (now : Z) (auditFails : option string) (trades : TT) (s : TO * list AuditEntry) : Z * (TO * list AuditEntry) :=
  match parseInt rawId with
  | JInt n =>
      if n <=? 0 then (400, s)
      else match attachOrphanToTrade n t admin now auditFails trades s with
           | (Ok _, s') => (200, s')
           | (Err m, s') => (if contains "not found" m then 404 else 500, s')
           end
  | _ => (400, s)
  end.

Context `{!TableLaws string OrphanDeposit TO} `{!TableLaws string Trade TT}.

(** ** Ingesting *)

(** A transaction is an orphan after a batch when it was one before, or when its first event
    there has no trade; rows already there are not touched. *)
Definition orphaned (events : list DepositEvent) (trades : TT) (k : string) : bool :=
  existsb (λ e, bool_decide (txHash e = k) && negb (matched trades e)) events.

Lemma orphaned_cons e events trades k : orphaned (e :: events) trades k = (bool_decide (txHash e = k) && negb (matched trades e)) || orphaned events trades k.
Proof. done. Qed.

Lemma ingestLoop_spec trades now events : ∀ newId r orphans, ∃ r' orphans', ingestLoop events newId now trades r orphans = (Ok r', orphans') ∧
  scanned r' = scanned r ∧ orphansDetected r ≤ orphansDetected r' ∧ alreadyKnown r ≤ alreadyKnown r' ∧
  (∀ k o, findUnique k orphans = Some o → findUnique k orphans' = Some o) ∧
  (∀ k, is_Some (findUnique k orphans') ↔ is_Some (findUnique k orphans) ∨ orphaned events trades k = true) ∧
  (∀ k o, findUnique k orphans = None → findUnique k orphans' = Some o →
     ∃ e, e ∈ events ∧ txHash e = k ∧ event o = storedEvent e ∧ matched trades e = false ∧ resolved o = false ∧ detectedAt o = now).
Proof.
  induction events as [|e events IH]; intros newId r orphans; cbn [ingestLoop].
  - exists r, orphans. split_and!; try done; try (cbn in *; lia).
    + intros k. cbn. intuition congruence.
    + intros k o H1 H2. congruence.
  - destruct (findUnique (txHash e) orphans) as [o0|] eqn:Hf.
    + destruct (IH newId (count r 0 1) orphans) as (r' & orphans' & -> & H1 & H2 & H3 & H4 & H5 & H6). cbn in H1, H2, H3.
      exists r', orphans'. split_and!; try done; try (cbn in *; lia).
      * intros k. rewrite H5, orphaned_cons, orb_true_iff. split; [by intros [?|?]; auto|]. intros [?|[Hk|?]]; auto.
        apply andb_true_iff in Hk as [<-%bool_decide_eq_true _]. left. by rewrite Hf.
      * intros k o Hn Hs. destruct (H6 k o Hn Hs) as (e' & ? & ?). exists e'. split; [set_solver|done].
    + destruct (matched trades e) eqn:Hm.
      * destruct (IH newId r orphans) as (r' & orphans' & -> & H1 & H2 & H3 & H4 & H5 & H6).
        exists r', orphans'. split_and!; try done.
        -- intros k. rewrite H5, orphaned_cons, Hm. cbn [negb]. by rewrite andb_false_r.
        -- intros k o Hn Hs. destruct (H6 k o Hn Hs) as (e' & ? & ?). exists e'. split; [set_solver|done].
      * destruct (create_free (txHash e) (orphanOf newId now e) orphans Hf) as (o1 & -> & Hs1 & Ho1).
        destruct (IH (newId + 1) (count r 1 0) o1) as (r' & orphans' & -> & H1 & H2 & H3 & H4 & H5 & H6). cbn in H1, H2, H3.
        exists r', orphans'. split_and!; try done; try (cbn in *; lia).
        -- intros k o Hk. apply H4. rewrite Ho1; [done|]. intros ->. congruence.
        -- intros k. rewrite H5, orphaned_cons, Hm. cbn [negb]. rewrite andb_true_r, orb_true_iff, bool_decide_eq_true.
           destruct (decide (k = txHash e)) as [->|Hne]; [rewrite Hs1; split; [auto|by eauto]|]. rewrite Ho1 by done. intuition congruence.
        -- intros k o Hn Hs. destruct (decide (k = txHash e)) as [->|Hne].
           ++ rewrite (H4 _ _ Hs1) in Hs. injection Hs as <-. exists e. split; [set_solver|]. by split_and!.
           ++ rewrite <-(Ho1 k Hne) in Hn. destruct (H6 k o Hn Hs) as (e' & ? & ?). exists e'. split; [set_solver|done].
Qed.

Lemma ingestLoop_nothing trades now events newId r orphans :
  Forall (λ e, is_Some (findUnique (txHash e) orphans) ∨ matched trades e = true) events →
  ∃ r', ingestLoop events newId now trades r orphans = (Ok r', orphans) ∧ orphansDetected r' = orphansDetected r.
Proof.
  intros Hf. revert r. induction Hf as [|e events He Hf IH]; intros r; cbn [ingestLoop]; [by exists r|].
  destruct (findUnique (txHash e) orphans) as [o|] eqn:E.
  - destruct (IH (count r 0 1)) as (r' & -> & Hr). exists r'. split; [done|]. cbn in Hr. lia.
  - destruct He as [[o Ho]|He]; [congruence|]. rewrite He. apply IH.
Qed.

(** Ingesting a batch never fails and records exactly the transactions that were already
    orphans or have an event without a trade, each once, under its own first such event, leaving
    recorded rows alone; ingesting it again records nothing. *)
Theorem ingest_spec events newId now trades orphans : ∃ r orphans', ingestDepositEvents events newId now trades orphans = (Ok r, orphans') ∧
  scanned r = Z.of_nat (length events) ∧ 0 ≤ orphansDetected r ∧ 0 ≤ alreadyKnown r ∧
  (∀ k o, findUnique k orphans = Some o → findUnique k orphans' = Some o) ∧
  (∀ k, is_Some (findUnique k orphans') ↔ is_Some (findUnique k orphans) ∨ orphaned events trades k = true) ∧
  (∀ k o, findUnique k orphans = None → findUnique k orphans' = Some o →
     ∃ e, e ∈ events ∧ txHash e = k ∧ event o = storedEvent e ∧ matched trades e = false ∧ resolved o = false ∧ detectedAt o = now) ∧
  ∀ newId2 now2, ∃ r2, ingestDepositEvents events newId2 now2 trades orphans' = (Ok r2, orphans') ∧ orphansDetected r2 = 0.
Proof.
  destruct (ingestLoop_spec trades now events newId {| scanned := Z.of_nat (length events); orphansDetected := 0; alreadyKnown := 0 |} orphans)
    as (r & orphans' & E & H1 & H2 & H3 & H4 & H5 & H6). exists r, orphans'. split_and!; try done.
  intros newId2 now2. apply ingestLoop_nothing, Forall_forall. intros e He. destruct (matched trades e) eqn:Hm; [by right|left].
  apply H5. right. apply existsb_exists. exists e. split; [by apply list_elem_of_In|]. by rewrite bool_decide_eq_true_2, Hm.
Qed.

(** The pages of the listing together are the unresolved orphans, newest first, and the
    total is their number. *)
Theorem orphan_pages limit orphans : 0 < limit →
  let pages := Z.to_nat (pagesOf (listOrphans 1 limit orphans).2 limit) in
  concat (map (λ k, (listOrphans (Z.of_nat k + 1) limit orphans).1) (seq 0 pages)) = unresolved orphans ∧
  ∀ o, o ∈ unresolved orphans ↔ ∃ k : string, findUnique k orphans = Some o ∧ resolved o = false.
Proof.
  intros Hl pages. split.
  - unfold pages, listOrphans. cbn [fst snd]. rewrite (map_ext _ (λ k, slice (Z.of_nat k * limit) limit (unresolved orphans)))
      by (intros k; do 2 f_equal; lia).
    rewrite <-(Permutation_length (js_sort_perm newest (findMany (λ o, negb (resolved o)) orphans))). by apply pages_whole.
  - intros o. unfold unresolved. rewrite js_sort_perm, (findMany_elem (K := string)). by setoid_rewrite negb_true_iff.
Qed.

(** Attaching marks the orphan resolved for that trade and writes one audit entry naming the
    administrator, or changes nothing: when there is no such trade, no such orphan, or the entry
    cannot be written. *)
Theorem attach_spec orphanId t admin now auditFails trades s :
  match attachOrphanToTrade orphanId t admin now auditFails trades s with
  | (Ok _, s') => is_Some (findUnique t trades) ∧ s'.2 = attachEntry orphanId t admin :: s.2 ∧
      (∃ k o, findUnique k s.1 = Some o ∧ id o = orphanId) ∧
      ∀ k : string, findUnique k s'.1 = (λ o, if id o =? orphanId then attachTo t now o else o) <$> findUnique k s.1
  | (Err _, s') => s' = s ∧ (findUnique t trades = None ∨ (∀ (k : string) o, findUnique k s.1 = Some o → id o ≠ orphanId) ∨ is_Some auditFails)
  end.
Proof.
  unfold attachOrphanToTrade. destruct (findUnique t trades) as [tr|] eqn:Ht; [|by auto].
  destruct (findFirst (byId orphanId) s.1) as [o|] eqn:Hf.
  - destruct auditFails as [m|]; [by eauto|]. apply findFirst_Some in Hf as (k & Hk & Ho%Z.eqb_eq). split_and!; [done|done|by exists k, o|].
    intros k'. apply updateMany_rows.
  - split; [done|]. right. left. intros k o Ho He. apply (findFirst_None (K := string)) with (k := k) (v := o) in Hf; [|done].
    unfold byId in Hf. by rewrite He, Z.eqb_refl in Hf.
Qed.

(** Nothing asks whether the orphan is still unresolved: attaching it again replaces the trade
    it was attached to. *)
Theorem attach_again_replaces orphanId t t' admin now now' trades s s1 :
  attachOrphanToTrade orphanId t admin now None trades s = (Ok tt, s1) → is_Some (findUnique t' trades) →
  ∃ s2, attachOrphanToTrade orphanId t' admin now' None trades s1 = (Ok tt, s2) ∧
    ∀ (k : string) o, findUnique k s.1 = Some o → id o = orphanId → ∃ o', findUnique k s2.1 = Some o' ∧ resolvedTradeId o' = Some t'.
Proof.
  intros H [tr Htr]. pose proof (attach_spec orphanId t admin now None trades s) as Hs. rewrite H in Hs. destruct Hs as (_ & _ & (k0 & o0 & Hk0 & Ho0) & Hrows).
  assert (findFirst (byId orphanId) s1.1 ≠ None) as Hf.
  { rewrite (findFirst_None (K := string)). intros Hn. specialize (Hrows k0). rewrite Hk0 in Hrows. cbn in Hrows. rewrite Ho0, Z.eqb_refl in Hrows.
    specialize (Hn k0 _ Hrows). unfold byId in Hn. cbn in Hn. rewrite Ho0, Z.eqb_refl in Hn. done. }
  pose proof (attach_spec orphanId t' admin now' None trades s1) as Hs2. unfold attachOrphanToTrade in *. rewrite Htr in *.
  destruct (findFirst (byId orphanId) s1.1) as [o1|]; [|done]. eexists. split; [done|]. destruct Hs2 as (_ & _ & _ & Hrows2).
  intros k o Hk Ho. specialize (Hrows k). rewrite Hk in Hrows. cbn [fmap option_fmap option_map] in Hrows. rewrite Ho, Z.eqb_refl in Hrows.
  specialize (Hrows2 k). rewrite Hrows in Hrows2. cbn [fmap option_fmap option_map] in Hrows2. change (id (attachTo t now o)) with (id o) in Hrows2.
  rewrite Ho, Z.eqb_refl in Hrows2. eexists. split; [exact Hrows2|done].
Qed.
End Orphans.

(** ** Samples *)

Definition deposit (tx : string) (t : option string) : DepositEvent :=
  {| ledgerSeq := 7; txHash := tx; depositorAddress := "GA"; amountRaw := "100"; assetId := "C"; contractTradeId := t |}.
Definition oneTrade : gmap string unit := {[ "1"%string := tt ]}.
Definition noOrphans : gmap string OrphanDeposit := ∅.
Definition batch : list DepositEvent := [deposit "a" (Some "1"); deposit "b" None; deposit "b" (Some "1")]%string.
Definition ingested : gmap string OrphanDeposit := (ingestDepositEvents batch 1 50 oneTrade noOrphans).2.

Lemma ingest_spec_witness : is_Some (findUnique "b"%string ingested) ∧ findUnique "a"%string ingested = None.
Proof.
  destruct (ingest_spec batch 1 50 oneTrade noOrphans) as (r & o & E & _ & _ & _ & _ & H & _).
  unfold ingested. rewrite E. cbn [snd]. split; [apply H; right; vm_compute; reflexivity|].
  destruct (findUnique "a"%string o) as [x|] eqn:Hx; [exfalso|done]. destruct (proj1 (H "a"%string)) as [[? Hn]|Hn]; [by rewrite Hx|done|done].
Defined.

Lemma orphan_pages_witness : concat (map (λ k, (listOrphans (Z.of_nat k + 1) 1 ingested).1) (seq 0 1)) = unresolved ingested.
Proof.
  replace 1%nat with (Z.to_nat (pagesOf (listOrphans 1 1 ingested).2 1)) by (vm_compute; reflexivity).
  apply (orphan_pages 1 ingested). lia.
Defined.

Definition attached (t : string) s := attachOrphanToTrade 1 t "GADMIN" 60 None oneTrade s.
Lemma attach_spec_witness : length (attached "1" (ingested, [])).2.2 = 1%nat ∧ (attached "2" (ingested, [])).2 = (ingested, []).
Proof.
  pose proof (attach_spec 1 "1" "GADMIN" 60 None oneTrade (ingested, [])) as H. fold (attached "1" (ingested, [])) in H.
  pose proof (attach_spec 1 "2" "GADMIN" 60 None oneTrade (ingested, [])) as H2. fold (attached "2" (ingested, [])) in H2.
  split.
  - assert (isOk (attached "1" (ingested, [])).1 = true) as Hok by (vm_compute; reflexivity).
    destruct (attached "1" (ingested, [])) as [[u|m] s']; [|done]. destruct H as (_ & H & _). cbn [snd]. by rewrite H.
  - destruct (attached "2" (ingested, [])) as [[u|m] s']; [by (destruct H2 as [[x Hx] _]; discriminate Hx)|by destruct H2 as [-> _]].
Defined.
