(* ===== verification/Reputation.v ===== *)
(** * Reputation: [services/reputation.service.ts]

    A wallet's score, success rate and recent history, from its trades on either side and the
    disputes it opened. Quotients are doubles. *)

From S2P Require Import Prelude JsString Prisma Dates Double.
From S2P Require EventHandlers.
Import EventHandlers (TradeStatus, TradeStatus_eq_dec, PENDING_SIGNATURE, CREATED, FUNDED, DELIVERED, COMPLETED,
  DISPUTED, CANCELLED, EXPIRED).

Record Trade : Type := { tradeId : string; buyerAddress : string; sellerAddress : string; status : TradeStatus; createdAt : Z; completedAt : option Z }.
Inductive DisputeStatus : Type := OPEN | UNDER_REVIEW | RESOLVED | CLOSED.
#[global] Instance DisputeStatus_eq_dec : EqDecision DisputeStatus.
Proof. solve_decision. Defined.
Record Dispute : Type := { d_id : Z; d_tradeId : string; initiator : string; d_status : DisputeStatus; d_createdAt : Z }.

Inductive EventType : Type := trade_completed | dispute_initiated | dispute_resolved.
Record ReputationEvent : Type := { e_id : string; e_event : string; impact : Z; impactLabel : string; timestamp : Z; e_type : EventType }.
Record ReputationResponse : Type := {
  trustScore : Z; totalTrades : Z; completedTrades : Z; disputedTrades : Z; successRate : dbl; history : list ReputationEvent }.

Definition isCompleted (t : Trade) : bool := bool_decide (status t = COMPLETED).
Definition isResolved (d : Dispute) : bool := bool_decide (d_status d = RESOLVED) || bool_decide (d_status d = CLOSED).
Definition count {A} (p : A → bool) (l : list A) : Z := Z.of_nat (length (List.filter p l)).

(** What the number of trades adds. *)
Definition volumeBonus (totalTrades : Z) : Z :=
  if 50 <=? totalTrades then 15 else if 25 <=? totalTrades then 8 else if 10 <=? totalTrades then 5 else 0.
Definition scoreOf (completedCount disputesLost initiated totalTrades : Z) : Z :=
  Z.max 0 (Z.min 100 (50 + completedCount * 5 - disputesLost * 8 - initiated * 2 + volumeBonus totalTrades)).

Definition successRateOf (completedCount totalTrades : Z) : dbl :=
  if 0 <? totalTrades then ddiv (ofInt (dround (dmul (ddiv (ofInt completedCount) (ofInt totalTrades)) (ofInt 1000)))) (ofInt 10) else ofInt 100.

Definition tradeEvent (normalized : string) (t : Trade) : ReputationEvent :=
  let role := if bool_decide (buyerAddress t = normalized) then "buyer" else "seller" in
  {| e_id := "trade-" +:+ tradeId t; e_event := "Completed trade as " +:+ role +:+ " (" +:+ take_chars 8 (tradeId t) +:+ "...)";
     impact := 5; impactLabel := "+5"; timestamp := default (createdAt t) (completedAt t); e_type := trade_completed |}%string.
Definition disputeEvent (d : Dispute) : ReputationEvent :=
  let resolved := isResolved d in
  {| e_id := "dispute-" +:+ toString (d_id d);
     e_event := (if resolved then "Dispute on trade " +:+ take_chars 8 (d_tradeId d) +:+ "... was resolved"
                 else "Initiated dispute on trade " +:+ take_chars 8 (d_tradeId d) +:+ "...");
     impact := (if resolved then -10 else -2)%Z; impactLabel := (if resolved then "-10" else "-2");
     timestamp := d_createdAt d; e_type := if resolved then dispute_resolved else dispute_initiated |}%string.

Definition newestTrade (x y : Trade) : Z := createdAt y - createdAt x.
Definition newestDispute (x y : Dispute) : Z := d_createdAt y - d_createdAt x.
Definition newestEvent (x y : ReputationEvent) : Z := timestamp y - timestamp x.

Section Reputation.
Context {TT TD : Type} `{!Table string Trade TT} `{!Table string Dispute TD}.

Definition sides (normalized : string) (trades : TT) : list Trade :=
  js_sort newestTrade (findMany (λ t, bool_decide (buyerAddress t = normalized)) trades) ++
  js_sort newestTrade (findMany (λ t, bool_decide (sellerAddress t = normalized)) trades).
Definition opened (normalized : string) (disputes : TD) : list Dispute :=
  js_sort newestDispute (findMany (λ d, bool_decide (initiator d = normalized)) disputes).

Definition getUserReputation (walletAddress : string) (trades : TT) (disputes : TD) : ReputationResponse :=
  let normalized := toLowerCase walletAddress in
  let allTrades := sides normalized trades in
  let disputesInitiated := opened normalized disputes in
  let total := Z.of_nat (length allTrades) in
  let completedCount := count isCompleted allTrades in
  let lost := count isResolved disputesInitiated in
  let events := map (tradeEvent normalized) (take 5 (List.filter isCompleted allTrades)) ++ map disputeEvent (take 5 disputesInitiated) in
  {| trustScore := scoreOf completedCount lost (Z.of_nat (length disputesInitiated)) total; totalTrades := total; completedTrades := completedCount;
     disputedTrades := count (λ t, bool_decide (status t = DISPUTED)) allTrades; successRate := successRateOf completedCount total;
     history := take 20 (js_sort newestEvent events) |}.
End Reputation.

(** ** What a reputation is *)

Lemma filter_count {A} (p : A → bool) (l : list A) : 0 ≤ count p l ≤ Z.of_nat (length l).
Proof. unfold count. induction l as [|x l IH]; cbn; [lia|]. destruct (p x); cbn -[Z.of_nat]; lia. Qed.

Lemma StronglySorted_take {A} (R : A → A → Prop) n l : StronglySorted R l → StronglySorted R (take n l).
Proof.
  intros Hs. revert n. induction Hs as [|x l Hs IH Hx]; intros [|n]; cbn; constructor; [apply IH|]. by apply Forall_take.
Qed.

(** The rate is a percentage to one decimal, rounded twice: the tenths of a percent are within
    the bounds, and so is their tenth. *)
Lemma successRate_bounds c t : 0 ≤ c ≤ t → t < 2 ^ 53 → dle (ofInt 0) (successRateOf c t) ∧ dle (successRateOf c t) (ofInt 100).
Proof.
  intros Hc Ht. unfold successRateOf. destruct (Z.ltb_spec 0 t) as [Hp|]; [|by vm_compute].
  unfold ddiv, dmul, rndZ. cbn [num den ofInt]. rewrite !Z.mul_1_r. rewrite (proj2 (Z.ltb_ge c 0)) by lia.
  set (r := rnd c (1 * t)). destruct (rnd_nonneg c (1 * t) ltac:(lia) ltac:(lia)) as [Hr Hrd]. fold r in Hr, Hrd.
  pose proof (rnd_le c (1 * t) 1 ltac:(lia) ltac:(lia) ltac:(lia) ltac:(lia)) as Hr1. fold r in Hr1.
  rewrite (proj2 (Z.ltb_ge (num r * 1000) 0)) by lia. set (q := rnd (num r * 1000) (den r)).
  destruct (rnd_nonneg (num r * 1000) (den r) ltac:(lia) Hrd) as [Hq Hqd]. fold q in Hq, Hqd.
  pose proof (rnd_le (num r * 1000) (den r) 1000 ltac:(lia) ltac:(lia) ltac:(lia) ltac:(lia)) as Hq1. fold q in Hq1.
  assert (0 ≤ dround q ≤ 1000) as Hd.
  { unfold dround. split; [apply Z.div_pos; lia|]. assert ((2 * num q + den q) / (2 * den q) < 1001); [|lia]. apply Z.div_lt_upper_bound; lia. }
  rewrite (proj2 (Z.ltb_ge (dround q) 0)) by lia. 
  destruct (rnd_nonneg (dround q) (1 * 10) ltac:(lia) ltac:(lia)) as [Hs Hsd].
  pose proof (rnd_le (dround q) (1 * 10) 100 ltac:(lia) ltac:(lia) ltac:(lia) ltac:(lia)) as Hs1. unfold dle. cbn [num den ofInt]. lia.
Qed.

(** A reputation is a score between 0 and 100 that a completed trade never lowers and a
    dispute never raises, with a rate between 0 and 100 per cent, and a history of at most ten
    events, newest first. *)
Theorem reputation_bounds {TT TD} `{!Table string Trade TT} `{!Table string Dispute TD} wallet (trades : TT) (disputes : TD) :
  let r := getUserReputation wallet trades disputes in
  0 ≤ trustScore r ≤ 100 ∧ 0 ≤ completedTrades r ≤ totalTrades r ∧ 0 ≤ disputedTrades r ≤ totalTrades r ∧
  (totalTrades r < 2 ^ 53 → dle (ofInt 0) (successRate r) ∧ dle (successRate r) (ofInt 100)) ∧
  (length (history r) ≤ 10)%nat ∧ StronglySorted (cmp_le newestEvent) (history r) ∧
  ∀ c l i t, scoreOf c l i t ≤ scoreOf (c + 1) l i (t + 1) ∧ scoreOf c l (i + 1) t ≤ scoreOf c l i t ∧ scoreOf c (l + 1) i t ≤ scoreOf c l i t.
Proof.
  intros r. unfold r, getUserReputation. cbv zeta.
  cbn [trustScore completedTrades totalTrades disputedTrades successRate history].
  set (all := sides _ _). set (dis := opened _ _). pose proof (filter_count isCompleted all). pose proof (filter_count (λ t, bool_decide (status t = DISPUTED)) all).
  split_and!; try lia; [unfold scoreOf; lia|unfold scoreOf; lia| | | |].
  - intros Ht. by apply successRate_bounds.
  - rewrite length_take, (Permutation_length (js_sort_perm _ _)), length_app, !length_map, !length_take. lia.
  - apply StronglySorted_take, js_sort_sorted; unfold cmp_le, newestEvent; lia.
  - intros c l i t. unfold scoreOf, volumeBonus. repeat case_match; zb; lia.
Qed.

(** ** Samples *)

Definition sampleTrade (i : string) (s : TradeStatus) (at_ : Z) : Trade :=
  {| tradeId := i; buyerAddress := "ga"; sellerAddress := "gb"; status := s; createdAt := at_; completedAt := None |}.
Definition sampleTrades : gmap string Trade := {[ "t1"%string := sampleTrade "t1" COMPLETED 10; "t2"%string := sampleTrade "t2" DISPUTED 20 ]}.
Definition sampleDispute : Dispute := {| d_id := 4; d_tradeId := "t2"; initiator := "ga"; d_status := RESOLVED; d_createdAt := 30 |}.
Definition sampleDisputes : gmap string Dispute := {[ "d"%string := sampleDispute ]}.

Example reputation_sample : let r := getUserReputation "GA" sampleTrades sampleDisputes in
  trustScore r = 45 ∧ totalTrades r = 2 ∧ map e_id (history r) = ["dispute-4"; "trade-t1"]%string.
Proof. vm_compute. done. Qed.

(** What the history says of the dispute is not what the score takes for it, whether the
    wallet won it or not. *)
Example score_and_history_disagree : let r := getUserReputation "GA" sampleTrades sampleDisputes in
  map impact (history r) = [-10; 5] ∧ trustScore r = 50 + 5 - 8 - 2.
Proof. vm_compute. done. Qed.

(** A trade with oneself is counted on both sides. *)
Example own_trade_counts_twice : totalTrades (getUserReputation "GA" ({[ "t"%string := {| tradeId := "t"; buyerAddress := "ga"; sellerAddress := "ga"; status := COMPLETED;
  createdAt := 1; completedAt := None |} ]} : gmap string Trade) (∅ : gmap string Dispute)) = 2.
Proof. vm_compute. done. Qed.
