(* ===== verification/Regex.v ===== *)
(** * Regular expressions

    JavaScript's matching by backtracking, on the patterns the code uses: greedy runs of a
    character class, word boundaries, sequence and alternation. [sem] is what such a pattern
    matches, [exec_spec] that backtracking finds a match exactly when there is one, and
    [lang] the texts of a pattern without boundaries. *)

From S2P Require Import Prelude JsString.

Inductive re : Type :=
| Run (p : ascii → bool) (lo : nat) (hi : option nat)
| Boundary
| Cat (a b : re)
| Or (a b : re).

Definition chr (c : ascii) : re := Run (Ascii.eqb c) 1 (Some 1%nat).

(** [\w] *)
Definition wordChar (c : ascii) : bool := is_digit c || ((65 <=? code c) && (code c <=? 90)) || ((97 <=? code c) && (code c <=? 122)) || Ascii.eqb c "_".
Definition headWord (s : string) : bool := match s with String c _ => wordChar c | EmptyString => false end.
Definition prevWord (p : option ascii) : bool := match p with Some c => wordChar c | None => false end.
Definition atBoundary (prev : option ascii) (s : string) : bool := xorb (prevWord prev) (headWord s).

(** A run takes all it can, then gives back one character at a time. [prev] is the character
    before [s]; the rest of the match is [k]. *)
Fixpoint run {A} (p : ascii → bool) (lo : nat) (hi : option nat) (prev : option ascii) (s : string) (k : option ascii → string → option A) : option A :=
  let stop := match lo with O => k prev s | S _ => None end in
  match s, hi with
  | EmptyString, _ | _, Some O => stop
  | String c r, _ => if p c then match run p (pred lo) (pred <$> hi) (Some c) r k with Some x => Some x | None => stop end else stop
  end.

Fixpoint exec {A} (r : re) (prev : option ascii) (s : string) (k : option ascii → string → option A) : option A :=
  match r with
  | Run p lo hi => run p lo hi prev s k
  | Boundary => if atBoundary prev s then k prev s else None
  | Cat a b => exec a prev s (λ prev s, exec b prev s k)
  | Or a b => match exec a prev s k with Some x => Some x | None => exec b prev s k end
  end.

(** The match at this very position: the character it ends with and what follows. *)
Definition matchAt (r : re) (prev : option ascii) (s : string) : option (option ascii * string) := exec r prev s (λ p t, Some (p, t)).

(** [r.test(s)] *)
Fixpoint testFrom (r : re) (prev : option ascii) (s : string) : bool :=
  match matchAt r prev s with
  | Some _ => true
  | None => match s with String c t => testFrom r (Some c) t | EmptyString => false end
  end.
Definition test (r : re) (s : string) : bool := testFrom r None s.

(** [s.replace(r, marker)] with the flag [g], for a pattern that does not match the empty text. *)
Fixpoint replaceFrom (fuel : nat) (r : re) (marker : string) (prev : option ascii) (s : string) : string :=
  match fuel, s with
  | S fuel, String c t =>
      match matchAt r prev s with
      | Some (p, u) => marker +:+ replaceFrom fuel r marker p u
      | None => String c (replaceFrom fuel r marker (Some c) t)
      end
  | _, _ => s
  end.
Definition replaceGlobal (r : re) (marker s : string) : string := replaceFrom (strlen s) r marker None s.

(** ** What a pattern matches *)

Fixpoint lastOf (prev : option ascii) (w : string) : option ascii := match w with EmptyString => prev | String c w => lastOf (Some c) w end.
Definition below (n : nat) (hi : option nat) : Prop := match hi with Some m => (n ≤ m)%nat | None => True end.

Fixpoint sem (r : re) (prev : option ascii) (w t : string) : Prop :=
  match r with
  | Run p lo hi => (lo ≤ strlen w)%nat ∧ below (strlen w) hi ∧ str_forall p w = true
  | Boundary => w = ""%string ∧ atBoundary prev t = true
  | Cat a b => ∃ u v, w = u +:+ v ∧ sem a prev u (v +:+ t) ∧ sem b (lastOf prev u) v t
  | Or a b => sem a prev w t ∨ sem b prev w t
  end.

Lemma lastOf_app prev u v : lastOf prev (u +:+ v) = lastOf (lastOf prev u) v.
Proof. revert prev. induction u as [|c u IH]; intros prev; [by rewrite app_nil_l_str|]. rewrite app_cons_str. cbn. apply IH. Qed.

Lemma run_spec {A} p lo hi prev s (k : option ascii → string → option A) : (run p lo hi prev s k ≠ None ↔
    ∃ w t, s = w +:+ t ∧ ((lo ≤ strlen w)%nat ∧ below (strlen w) hi ∧ str_forall p w = true) ∧ k (lastOf prev w) t ≠ None) ∧
  ∀ x, run p lo hi prev s k = Some x → ∃ w t, s = w +:+ t ∧ ((lo ≤ strlen w)%nat ∧ below (strlen w) hi ∧ str_forall p w = true) ∧ k (lastOf prev w) t = Some x.
Proof.
  assert (∀ lo hi prev s (x : A), match lo with O => k prev s | S _ => None end = Some x →
    ∃ w t, s = w +:+ t ∧ ((lo ≤ strlen w)%nat ∧ below (strlen w) hi ∧ str_forall p w = true) ∧ k (lastOf prev w) t = Some x) as Hstop.
  { intros [|lo'] hi' prev' s' x H; [|done]. exists ""%string, s'. split_and!; [done|cbn; lia|destruct hi'; cbn; [lia|exact I]|done|exact H]. }
  assert (∀ lo hi prev s (x : A), run p lo hi prev s k = Some x →
    ∃ w t, s = w +:+ t ∧ ((lo ≤ strlen w)%nat ∧ below (strlen w) hi ∧ str_forall p w = true) ∧ k (lastOf prev w) t = Some x) as Hs.
  { clear lo hi prev s. intros lo hi prev s. revert lo hi prev. induction s as [|c s IH]; intros lo hi prev x H; [by apply Hstop|].
    cbn [run] in H. destruct hi as [[|h]|]; [by apply Hstop|..].
    all: destruct (p c) eqn:Hp; [|by apply Hstop].
    all: match type of H with match ?e with _ => _ end = _ => destruct e as [y|] eqn:E end; [|by apply Hstop].
    all: injection H as ->; apply IH in E as (w & t & -> & (H1 & H2 & H3) & H4); exists (String c w), t; rewrite app_cons_str;
      cbn [strlen str_forall lastOf below fmap option_fmap option_map] in *; rewrite Hp; split_and!; try done; lia. }
  split; [|apply Hs]. split.
  - destruct (run p lo hi prev s k) as [x|] eqn:E; [|done]. intros _. apply Hs in E as (w & t & H1 & H2 & H3). exists w, t. split; [done|]. split; [done|congruence].
  - intros (w & t & -> & (H1 & H2 & H3) & H4). revert lo hi prev H1 H2 H4. clear Hstop Hs. induction w as [|c w IH]; intros lo hi prev H1 H2 H4; cbn [strlen lastOf] in *.
    + rewrite app_nil_l_str. assert (lo = O) as -> by lia. destruct t as [|c t]; cbn; [done|].
      destruct hi as [[|h]|]; [done|..]; destruct (p c); try done; by destruct (run _ _ _ _ _ _).
    + cbn in H3. apply andb_true_iff in H3 as [Hc Hw]. rewrite app_cons_str. cbn [run].
      assert (below (strlen w) (pred <$> hi)) as Hb by (destruct hi; cbn in *; [lia|done]).
      specialize (IH Hw (pred lo) (pred <$> hi) (Some c) ltac:(lia) Hb H4).
      destruct hi as [[|h]|]; [cbn in H2; lia|..]; rewrite Hc; by destruct (run _ _ _ _ _ _).
Qed.

(** Backtracking is sound and complete. *)
Lemma exec_spec {A} r : ∀ prev s (k : option ascii → string → option A), (exec r prev s k ≠ None ↔
    ∃ w t, s = w +:+ t ∧ sem r prev w t ∧ k (lastOf prev w) t ≠ None) ∧
  ∀ x, exec r prev s k = Some x → ∃ w t, s = w +:+ t ∧ sem r prev w t ∧ k (lastOf prev w) t = Some x.
Proof.
  induction r as [p lo hi| |a IHa b IHb|a IHa b IHb]; intros prev s k; cbn [exec sem].
  - apply run_spec.
  - split.
    + destruct (atBoundary prev s) eqn:E; split; try done.
      * intros H. exists ""%string, s. by split_and!.
      * by intros (w & t & -> & (-> & _) & H).
      * intros (w & t & -> & (-> & H) & _). rewrite app_nil_l_str in E. congruence.
    + intros x. destruct (atBoundary prev s) eqn:E; [|done]. intros H. exists ""%string, s. by split_and!.
  - specialize (IHa prev s (λ prev s, exec b prev s k)) as [Ha1 Ha2]. split.
    + rewrite Ha1. split.
      * intros (u & t & -> & Hu & H). apply IHb in H as (v & t' & -> & Hv & H). exists (u +:+ v), t'. rewrite app_assoc_str, lastOf_app.
        split_and!; [done|by exists u, v|done].
      * intros (w & t & -> & (u & v & -> & Hu & Hv) & H). exists u, (v +:+ t). rewrite app_assoc_str. split_and!; [done|done|].
        apply IHb. exists v, t. rewrite <-lastOf_app. by split_and!.
    + intros x H. apply Ha2 in H as (u & t & -> & Hu & H). apply IHb in H as (v & t' & -> & Hv & H). exists (u +:+ v), t'. rewrite app_assoc_str, lastOf_app.
      split_and!; [done|by exists u, v|done].
  - destruct (IHa prev s k) as [Ha1 Ha2], (IHb prev s k) as [Hb1 Hb2]. split.
    + split.
      * intros H. destruct (exec a prev s k) as [x|] eqn:E.
        -- apply Ha1 in H as (w & t & ? & ? & ?). exists w, t. by auto.
        -- apply Hb1 in H as (w & t & ? & ? & ?). exists w, t. by auto.
      * intros (w & t & -> & [Hw|Hw] & H).
        -- assert (exec a prev (w +:+ t) k ≠ None) as Hn by (apply Ha1; by exists w, t). by destruct (exec a _ _ _).
        -- assert (exec b prev (w +:+ t) k ≠ None) as Hn by (apply Hb1; by exists w, t). by destruct (exec a _ _ _).
    + intros x. destruct (exec a prev s k) as [y|] eqn:E.
      * intros [= ->]. destruct (Ha2 x eq_refl) as (w & t & ? & ? & ?). exists w, t. by auto.
      * intros H. destruct (Hb2 x H) as (w & t & ? & ? & ?). exists w, t. by auto.
Qed.

Lemma matchAt_spec r prev s : (matchAt r prev s ≠ None ↔ ∃ w t, s = w +:+ t ∧ sem r prev w t) ∧
  ∀ p t, matchAt r prev s = Some (p, t) → ∃ w, s = w +:+ t ∧ sem r prev w t ∧ p = lastOf prev w.
Proof.
  unfold matchAt. destruct (exec_spec r prev s (λ p t, Some (p, t))) as [H1 H2]. split.
  - rewrite H1. split; intros (w & t & ? & ?); [exists w, t; tauto|]. exists w, t. by split_and!.
  - intros p t H. apply H2 in H as (w & t' & -> & Hw & [= <- <-]). by exists w.
Qed.

(** ** Patterns without boundaries *)

Fixpoint plain (r : re) : bool := match r with Run _ _ _ => true | Boundary => false | Cat a b | Or a b => plain a && plain b end.
Fixpoint lang (r : re) (w : string) : Prop :=
  match r with
  | Run p lo hi => (lo ≤ strlen w)%nat ∧ below (strlen w) hi ∧ str_forall p w = true
  | Boundary => False
  | Cat a b => ∃ u v, w = u +:+ v ∧ lang a u ∧ lang b v
  | Or a b => lang a w ∨ lang b w
  end.
Fixpoint shortest (r : re) : nat := match r with Run _ lo _ => lo | Boundary => 0 | Cat a b => shortest a + shortest b | Or a b => Nat.min (shortest a) (shortest b) end.
(** No class of the pattern has the character. *)
Fixpoint avoids (c : ascii) (r : re) : bool := match r with Run p _ _ => negb (p c) | Boundary => true | Cat a b | Or a b => avoids c a && avoids c b end.

Lemma sem_lang r : plain r = true → ∀ prev w t, sem r prev w t ↔ lang r w.
Proof.
  induction r as [p lo hi| |a IHa b IHb|a IHa b IHb]; cbn; [done|done|intros [Ha Hb]%andb_true_iff prev w t..].
  - split; intros (u & v & -> & Hu & Hv); exists u, v; [by rewrite IHa in Hu by done; rewrite IHb in Hv by done|]. by rewrite IHa, IHb.
  - by rewrite IHa, IHb.
Qed.

Lemma lang_shortest r w : lang r w → (shortest r ≤ strlen w)%nat.
Proof.
  revert w. induction r as [p lo hi| |a IHa b IHb|a IHa b IHb]; intros w; cbn; [tauto|done|..].
  - intros (u & v & -> & Hu & Hv). rewrite strlen_app. specialize (IHa u Hu). specialize (IHb v Hv). lia.
  - intros [H|H]; [specialize (IHa w H)|specialize (IHb w H)]; lia.
Qed.

Lemma lang_avoids c r w : avoids c r = true → lang r w → lacks c w.
Proof.
  revert w. induction r as [p lo hi| |a IHa b IHb|a IHa b IHb]; intros w; cbn; [|done|intros [Ha Hb]%andb_true_iff..].
  - intros Hc (_ & _ & Hw). unfold lacks. revert Hw. apply str_forall_impl. intros d Hd. destruct (Ascii.eqb_spec d c) as [->|]; [|done]. rewrite Hd in Hc. done.
  - intros (u & v & -> & Hu & Hv). unfold lacks. rewrite str_forall_app. apply andb_true_iff. split; [by apply IHa|by apply IHb].
  - intros [H|H]; [by apply IHa|by apply IHb].
Qed.

Definition occurs (r : re) (s : string) : Prop := ∃ a w b, s = a +:+ w +:+ b ∧ lang r w.

Lemma testFrom_plain r : plain r = true → ∀ prev s, testFrom r prev s = true ↔ occurs r s.
Proof.
  intros Hr prev s. revert prev. induction s as [|c s IH]; intros prev; cbn [testFrom].
  - destruct (matchAt_spec r prev "") as [H _]. destruct (matchAt r prev "") as [x|].
    + split; [intros _|done]. destruct (proj1 H ltac:(done)) as (w & t & Hs & Hw). apply sem_lang in Hw; [|done]. exists ""%string, w, t. by rewrite app_nil_l_str.
    + split; [done|]. intros (a & w & b & Hs & Hw). exfalso. destruct a; [|done]. rewrite app_nil_l_str in Hs. refine ((proj2 H _) eq_refl). exists w, b. split; [done|]. by apply sem_lang.
  - destruct (matchAt_spec r prev (String c s)) as [H _]. destruct (matchAt r prev (String c s)) as [x|].
    + split; [intros _|done]. destruct (proj1 H ltac:(done)) as (w & t & Hs & Hw). apply sem_lang in Hw; [|done]. exists ""%string, w, t. by rewrite app_nil_l_str.
    + rewrite IH. split.
      * intros (a & w & b & -> & Hw). exists (String c a), w, b. by rewrite app_cons_str.
      * intros (a & w & b & Hs & Hw). destruct a as [|d a].
        -- exfalso. rewrite app_nil_l_str in Hs. refine ((proj2 H _) eq_refl). exists w, b. split; [done|]. by apply sem_lang.
        -- rewrite app_cons_str in Hs. injection Hs as -> ->. by exists a, w, b.
Qed.
Lemma test_plain r s : plain r = true → test r s = true ↔ occurs r s.
Proof. intros Hr. by apply testFrom_plain. Qed.

Lemma occurs_app_l r s t : occurs r s → occurs r (s +:+ t).
Proof. intros (a & w & b & -> & Hw). exists a, w, (b +:+ t). by rewrite !app_assoc_str. Qed.
Lemma occurs_app_r r s t : occurs r t → occurs r (s +:+ t).
Proof. intros (a & w & b & -> & Hw). exists (s +:+ a), w, b. by rewrite !app_assoc_str. Qed.

Lemma prefix_before c w y a b : lacks c w → w +:+ y = a +:+ String c b → ∃ z, a = w +:+ z.
Proof.
  revert a. induction w as [|d w IH]; intros a Hw Hs; [by exists a|]. unfold lacks in *. cbn in Hw. apply andb_true_iff in Hw as [Hd Hw].
  destruct a as [|e a]; rewrite app_cons_str in Hs.
  - rewrite app_nil_l_str in Hs. injection Hs as -> _. by rewrite Ascii.eqb_refl in Hd.
  - rewrite app_cons_str in Hs. injection Hs as -> Hs. destruct (IH a Hw Hs) as [z ->]. by exists z.
Qed.

(** A character that no class has separates the matches on either side. *)
Lemma occurs_split c r a b : avoids c r = true → (0 < shortest r)%nat → occurs r (a +:+ String c b) ↔ occurs r a ∨ occurs r b.
Proof.
  intros Hc Hn. split.
  - intros (x & w & y & Hs & Hw). revert a Hs. induction x as [|d x IH]; intros a Hs.
    + rewrite app_nil_l_str in Hs. destruct (prefix_before c w y a b (lang_avoids c r w Hc Hw) (eq_sym Hs)) as [z ->]. left. exists ""%string, w, z. by rewrite app_nil_l_str.
    + destruct a as [|e a]; rewrite app_cons_str in Hs.
      * rewrite app_nil_l_str in Hs. injection Hs as _ ->. right. by exists x, w, y.
      * rewrite app_cons_str in Hs. injection Hs as _ Hs. destruct (IH a Hs) as [H|H]; [|by right]. left. rewrite <-(app_nil_l_str (String e a)).
        change (String e a) with (String e "" +:+ a). rewrite app_nil_l_str. by apply occurs_app_r.
  - intros [H|H]; [by apply occurs_app_l|]. apply occurs_app_r. change (String c b) with (String c "" +:+ b). by apply occurs_app_r.
Qed.

(** ** What replacing leaves *)

Lemma sem_shortest r : ∀ prev w t, sem r prev w t → (shortest r ≤ strlen w)%nat.
Proof.
  induction r as [p lo hi| |a IHa b IHb|a IHa b IHb]; intros prev w t; cbn; [tauto|lia|..].
  - intros (u & v & -> & Hu & Hv). rewrite strlen_app. apply IHa in Hu. apply IHb in Hv. lia.
  - intros [H|H]; [apply IHa in H|apply IHb in H]; lia.
Qed.

(** A marker in brackets a pattern does not have. *)
Record goodMarker (r : re) (body : string) : Prop := {
  m_plain : plain r = true; m_nonempty : (0 < shortest r)%nat; m_open : avoids "[" r = true; m_close : avoids "]" r = true; m_body : ¬ occurs r body }.
Definition marker (body : string) : string := String "[" (body +:+ "]").

Lemma occurs_marker r body g t : goodMarker r body → occurs r (g +:+ marker body +:+ t) → occurs r g ∨ occurs r t.
Proof.
  intros [Hp Hn Ho Hc Hb]. unfold marker. change (String "[" (body +:+ "]") +:+ t) with (String "[" ((body +:+ "]") +:+ t)). rewrite occurs_split by done.
  intros [H|H]; [by left|]. rewrite app_assoc_str in H. change ("]" +:+ t) with (String "]" t) in H. rewrite occurs_split in H by done.
  destruct H as [H|H]; [done|by right].
Qed.

Lemma occurs_empty r : (0 < shortest r)%nat → ¬ occurs r "".
Proof.
  intros Hn (a & w & b & Hs & Hw). apply lang_shortest in Hw. destruct a; [|done]. rewrite app_nil_l_str in Hs. destruct w; [cbn in Hw; lia|done].
Qed.

(** A text every suffix of which was refused has no match, whatever followed it. *)
Definition refusedBefore (r : re) (g s : string) : Prop := ∀ x h, g = x +:+ h → h ≠ ""%string → ∀ prev, matchAt r prev (h +:+ s) = None.
Lemma refused_absent r g s : plain r = true → (0 < shortest r)%nat → refusedBefore r g s → ¬ occurs r g.
Proof.
  intros Hp Hn Hr (a & w & b & -> & Hw). assert (w +:+ b ≠ ""%string) as Hne.
  { intros E. apply lang_shortest in Hw. destruct w; [cbn in Hw; lia|done]. }
  pose proof (Hr a (w +:+ b) eq_refl Hne None) as Hm. destruct (matchAt_spec r None ((w +:+ b) +:+ s)) as [H _]. apply H in Hm; [done|].
  exists w, (b +:+ s). rewrite app_assoc_str. split; [done|]. by apply sem_lang.
Qed.

Lemma matchAt_prev r prev prev' s : plain r = true → matchAt r prev s = None → matchAt r prev' s = None.
Proof.
  intros Hp Hm. destruct (matchAt r prev' s) as [x|] eqn:E; [exfalso|done]. destruct (matchAt_spec r prev' s) as [H _]. rewrite E in H.
  destruct (proj1 H ltac:(done)) as (w & t & -> & Hw). apply sem_lang in Hw; [|done]. destruct (matchAt_spec r prev (w +:+ t)) as [H' _]. apply H' in Hm; [done|].
  exists w, t. split; [done|]. by apply sem_lang.
Qed.

Lemma app_snoc_split x h g c : g +:+ String c "" = x +:+ h → h ≠ ""%string → ∃ h', h = h' +:+ String c "" ∧ g = x +:+ h'.
Proof.
  revert g. induction x as [|d x IH]; intros g Hs Hh.
  - rewrite app_nil_l_str in Hs. exists g. by rewrite app_nil_l_str.
  - destruct g as [|e g].
    + rewrite app_nil_l_str, app_cons_str in Hs. injection Hs as _ Hs. destruct x; [|done]. rewrite app_nil_l_str in Hs. by subst.
    + rewrite !app_cons_str in Hs. injection Hs as -> Hs. destruct (IH g Hs Hh) as (h' & -> & ->). by exists h'.
Qed.

Lemma replaceFrom_absent q r body : goodMarker q body → (0 < shortest r)%nat → (∀ prev s, matchAt r prev s = None → matchAt q prev s = None) →
  ∀ fuel prev s g, (strlen s ≤ fuel)%nat → refusedBefore q g s → ¬ occurs q (g +:+ replaceFrom fuel r (marker body) prev s).
Proof.
  intros Hm Hr Hqr. pose proof Hm as [Hp Hn _ _ _]. induction fuel as [|fuel IH]; intros prev s g Hl Hg.
  - destruct s; [|cbn in Hl; lia]. cbn [replaceFrom]. rewrite app_nil_r_str. by eapply refused_absent.
  - destruct s as [|c s]; cbn [replaceFrom]; [rewrite app_nil_r_str; by eapply refused_absent|]. destruct (matchAt_spec r prev (String c s)) as [_ H2].
    destruct (matchAt r prev (String c s)) as [[p u]|] eqn:E.
    + intros Ho. destruct (occurs_marker _ _ _ _ Hm Ho) as [Hg'|Hg']; clear Ho; rename Hg' into Ho.
      * by eapply refused_absent in Ho.
      * destruct (H2 p u eq_refl) as (w & Hs & Hw & _). apply sem_shortest in Hw.
        revert Ho. rewrite <-(app_nil_l_str (replaceFrom _ _ _ _ u)). apply IH.
        -- assert (strlen (String c s) = (strlen w + strlen u)%nat) by (rewrite Hs; apply strlen_app). lia.
        -- intros x h Hx Hh. destruct x; [by destruct h|done].
    + change (String c (replaceFrom fuel r (marker body) (Some c) s)) with (String c "" +:+ replaceFrom fuel r (marker body) (Some c) s).
      rewrite <-app_assoc_str. apply IH; [cbn in Hl; lia|]. intros x h Hx Hh prev'. destruct (app_snoc_split x h g c Hx Hh) as (h' & -> & ->).
      rewrite app_assoc_str. change (String c "" +:+ s) with (String c s). destruct (decide (h' = ""%string)) as [->|Hne].
      * rewrite app_nil_l_str. apply (matchAt_prev q prev); [done|]. by apply Hqr.
      * by apply (Hg x h').
Qed.

(** After replacing every match of a pattern there is none left of any pattern it covers. *)
Lemma replaceGlobal_covered q r body s : goodMarker q body → (0 < shortest r)%nat → (∀ prev s, matchAt r prev s = None → matchAt q prev s = None) →
  ¬ occurs q (replaceGlobal r (marker body) s).
Proof.
  intros Hm Hr Hqr. unfold replaceGlobal. rewrite <-(app_nil_l_str (replaceFrom _ _ _ _ _)). apply replaceFrom_absent; [done..|].
  intros x h Hx Hh. destruct x; [by destruct h|done].
Qed.
Lemma replaceGlobal_absent r body s : goodMarker r body → ¬ occurs r (replaceGlobal r (marker body) s).
Proof. intros Hm. apply replaceGlobal_covered; [done|apply Hm|done]. Qed.

(** Replacing the matches of another pattern brings none about. *)
Lemma replaceFrom_keeps q r body : goodMarker r body → ∀ fuel prev s g, ¬ occurs r (g +:+ s) → ¬ occurs r (g +:+ replaceFrom fuel q (marker body) prev s).
Proof.
  intros Hm. induction fuel as [|fuel IH]; intros prev s g Hg; [done|]. destruct s as [|c s]; [done|]. cbn [replaceFrom].
  destruct (matchAt_spec q prev (String c s)) as [_ H2]. destruct (matchAt q prev (String c s)) as [[p u]|] eqn:E.
  - destruct (H2 p u eq_refl) as (w & Hs & _). intros Ho. destruct (occurs_marker _ _ _ _ Hm Ho) as [Hg'|Hg']; clear Ho; rename Hg' into Ho.
    + by apply Hg, occurs_app_l.
    + revert Ho. rewrite <-(app_nil_l_str (replaceFrom _ _ _ _ u)). apply IH. rewrite app_nil_l_str. intros Ho. apply Hg, occurs_app_r. rewrite Hs. by apply occurs_app_r.
  - change (String c (replaceFrom fuel q (marker body) (Some c) s)) with (String c "" +:+ replaceFrom fuel q (marker body) (Some c) s).
    rewrite <-app_assoc_str. apply IH. rewrite app_assoc_str. done.
Qed.
Lemma replaceGlobal_keeps q r body s : goodMarker r body → ¬ occurs r s → ¬ occurs r (replaceGlobal q (marker body) s).
Proof.
  intros Hm Hs. unfold replaceGlobal. rewrite <-(app_nil_l_str (replaceFrom _ _ _ _ _)). apply replaceFrom_keeps; [done|]. by rewrite app_nil_l_str.
Qed.

(** A text without a match is left alone. *)
Lemma replaceFrom_id r m : ∀ fuel prev s, testFrom r prev s = false → replaceFrom fuel r m prev s = s.
Proof.
  induction fuel as [|fuel IH]; intros prev s; [done|]. destruct s as [|c s]; [done|]. cbn [testFrom replaceFrom].
  destruct (matchAt r prev (String c s)) as [[p u]|]; [done|]. intros H. by rewrite IH.
Qed.
Lemma replaceGlobal_id r m s : test r s = false → replaceGlobal r m s = s.
Proof. apply replaceFrom_id. Qed.
