(* ===== verification/Redaction.v ===== *)
(** * Personal data in logs: [lib/logRedaction.ts], [lib/piiLeakScanner.ts], [lib/logSampleBuffer.ts],
      [jobs/workers/piiLogScanner.worker.ts], [redactLogArgs] of [middleware/logger.ts]

    Log arguments are values whose objects live in a heap, so that shared and cyclic objects are
    what they are; what redaction returns is a tree whose leaves may still be the original
    values. The scanner reads the JSON documents of the lines; a line that is no JSON is
    [None]. No member is called [__proto__]. *)

From S2P Require Import Prelude JsString JsValue JsonText Regex.

(** ** Patterns *)

Definition asciiLetter (c : ascii) : bool := ((65 <=? code c) && (code c <=? 90)) || ((97 <=? code c) && (code c <=? 122)).
Definition oneOf (l : string) (c : ascii) : bool := negb (str_forall (λ d, negb (Ascii.eqb c d)) l).
Definition EMAIL_PATTERN : re :=
  Cat (Run (λ c, asciiLetter c || is_digit c || oneOf "._%+-" c) 1 None)
    (Cat (chr "@") (Cat (Run (λ c, asciiLetter c || is_digit c || oneOf ".-" c) 1 None) (Cat (chr ".") (Run asciiLetter 2 None)))).

Definition digits (lo hi : nat) : re := Run is_digit lo (Some hi).
Definition separator (lo : nat) : re := Run (λ c, oneOf "-." c || is_space c) lo (Some 1%nat).
Definition PHONE_PATTERN : re :=
  Or (Cat (chr "+") (digits 6 15))
    (Or (Cat Boundary (Cat (digits 3 3) (Cat (separator 1) (Cat (digits 3 3) (Cat (separator 1) (Cat (digits 4 4) Boundary))))))
        (Cat Boundary (Cat (chr "(") (Cat (digits 2 4) (Cat (chr ")") (Cat (separator 0) (Cat (digits 3 4) (Cat (separator 0) (Cat (digits 3 4) Boundary))))))))).

Definition scrubPatternsInString (value : string) : string :=
  replaceGlobal PHONE_PATTERN (marker "REDACTED_PHONE") (replaceGlobal EMAIL_PATTERN (marker "REDACTED_EMAIL") value).

(** ** Names *)

Fixpoint lettersOnly (s : string) : string :=
  match s with EmptyString => EmptyString | String c r => if (97 <=? code c) && (code c <=? 122) then String c (lettersOnly r) else lettersOnly r end.
Definition normalizeFieldName (key : string) : string := lettersOnly (toLowerCase key).

Definition PII_FIELD_DENYLIST : list string := map normalizeFieldName
  ["email"; "emailaddress"; "phone"; "phonenumber"; "mobile"; "mobilenumber"; "msisdn"; "ssn"; "socialsecuritynumber"; "nationalid"; "idnumber";
   "driveridnumber"; "passportnumber"; "dateofbirth"; "dob"; "homeaddress"; "streetaddress"; "postaladdress"; "drivername"; "buyername"; "sellername";
   "customername"; "contactname"; "fullname"; "firstname"; "lastname"; "password"; "passwordhash"; "pin"; "otp"; "cvv"; "cardnumber"; "creditcardnumber";
   "secretkey"; "privatekey"; "walletsecret"; "seedphrase"; "mnemonic"; "sessiontoken"; "authorization"; "authtoken"; "accesstoken"; "refreshtoken";
   "apikey"; "cookie"]%string.
Definition isDenylistedField (key : string) : bool := bool_decide (normalizeFieldName key ∈ PII_FIELD_DENYLIST).

(** ** Redaction *)

(** A value of a log call: primitives ([Prim] the others, as JSON), [Opaque] dates, buffers and
    patterns, errors, and a reference to an array or a plain object. *)
Inductive value : Type :=
| Nul | Undef | Str (s : string) | Prim (d : Doc) | Opaque (d : Doc) | ErrorV (name message : string) (stack : option string) | Ref (n : nat).
Inductive node : Type := NArr (l : list value) | NObj (m : list (string * value)).

(** [Same]: the original value itself. *)
#[local] Unset Elimination Schemes.
Inductive out : Type :=
| Same (v : value) | OStr (s : string) | OErr (name message : string) (stack : option string) | OArr (l : list out) | OObj (m : list (string * out)).
#[local] Set Elimination Schemes.

Definition REDACTED : string := "[REDACTED]".
Definition MAX_DEPTH : nat := 8.

Definition redactedField (v : value) : out := match v with Nul | Undef => Same v | _ => OStr REDACTED end.

Section Redact.
Context (heap : nat → node).

(** [left_] is what is left of [MAX_DEPTH]; [seen] the objects met so far. *)
Fixpoint redact (left_ : nat) (v : value) (seen : gset nat) : out * gset nat :=
  match v with
  | Nul | Undef | Prim _ => (Same v, seen)
  | Str s => (OStr (scrubPatternsInString s), seen)
  | _ =>
      match left_ with
      | O => (Same v, seen)
      | S left_ =>
          match v with
          | ErrorV name message stack => (OErr name (scrubPatternsInString message) (scrubPatternsInString <$> stack), seen)
          | Ref n =>
              if bool_decide (n ∈ seen) then (OStr "[CIRCULAR]", seen)
              else let seen := {[n]} ∪ seen in
                   match heap n with
                   | NArr l =>
                       let '(l', seen) := (fix items l seen := match l with
                         | [] => ([], seen)
                         | x :: l => let '(y, seen) := redact left_ x seen in let '(ys, seen) := items l seen in (y :: ys, seen)
                         end) l seen in (OArr l', seen)
                   | NObj m =>
                       let '(m', seen) := (fix members m seen := match m with
                         | [] => ([], seen)
                         | (k, x) :: m =>
                             let '(y, seen) := if isDenylistedField k then (redactedField x, seen) else redact left_ x seen in
                             let '(ys, seen) := members m seen in ((k, y) :: ys, seen)
                         end) m seen in (OObj m', seen)
                   end
          | _ => (Same v, seen)
          end
      end
  end.
Definition redactPii (v : value) : out := (redact MAX_DEPTH v ∅).1.

(** An argument of a log call: a text is passed on as it is. *)
Definition isObjectValue (v : value) : bool := match v with Opaque _ | ErrorV _ _ _ | Ref _ => true | _ => false end.
Definition redactLogArgs (args : list value) : list out := map (λ v, if isObjectValue v then redactPii v else Same v) args.
End Redact.

(** ** The sample and its scan *)

(** The last [capacity] lines. *)
Definition recordLogLine {A} (capacity : nat) (buffer : list A) (line : A) : list A :=
  let buffer := buffer ++ [line] in
  if (capacity <? length buffer)%nat then drop (length buffer - capacity) buffer else buffer.

Inductive PiiLeakKind : Type := email | phone | unredacted_denylisted_field.
#[global] Instance PiiLeakKind_eq_dec : EqDecision PiiLeakKind.
Proof. solve_decision. Defined.
Record PiiLeakFinding : Type := { lineIndex : nat; kind : PiiLeakKind; path : string }.

Definition DENYLISTED_FIELD_NAMES : list string :=
  ["email"; "emailaddress"; "phone"; "phonenumber"; "mobile"; "mobilenumber"; "ssn"; "password"; "pin"; "otp"; "cvv"; "cardnumber"; "secretkey"; "privatekey";
   "walletsecret"; "seedphrase"; "mnemonic"]%string.

Definition childPath (path key : string) : string := if bool_decide (path = ""%string) then key else path +:+ "." +:+ key.
Definition scanString (lineIndex : nat) (path s : string) : list PiiLeakFinding :=
  if bool_decide (s = REDACTED) || String.prefix "[REDACTED_" s then []
  else if test EMAIL_PATTERN s then [{| lineIndex := lineIndex; kind := email; path := path |}]
  else if test PHONE_PATTERN s then [{| lineIndex := lineIndex; kind := phone; path := path |}] else [].
Definition leakedField (key : string) (v : Doc) : bool :=
  bool_decide (normalizeFieldName key ∈ DENYLISTED_FIELD_NAMES) && match v with DStr s => negb (bool_decide (s = REDACTED)) | _ => false end.

Fixpoint walk (v : Doc) (path : string) (lineIndex depth : nat) : list PiiLeakFinding :=
  if (10 <? depth)%nat then []
  else match v with
       | DStr s => scanString lineIndex path s
       | DArr l => (fix items (i : Z) l := match l with
           | [] => []
           | x :: l => walk x (path +:+ "[" +:+ toString i +:+ "]") lineIndex (S depth) ++ items (i + 1) l
           end) 0 l
       | DObj m => (fix members m := match m with
           | [] => []
           | (k, x) :: m =>
               (if leakedField k x then [{| lineIndex := lineIndex; kind := unredacted_denylisted_field; path := childPath path k |}]
                else walk x (childPath path k) lineIndex (S depth)) ++ members m
           end) m
       | _ => []
       end.

Fixpoint scanFrom (i : nat) (lines : list (option Doc)) : list PiiLeakFinding :=
  match lines with [] => [] | l :: lines => match l with Some d => walk d "" i 0 | None => [] end ++ scanFrom (S i) lines end.
Definition scanForPiiLeaks (lines : list (option Doc)) : list PiiLeakFinding := scanFrom 0 lines.

(** Findings by kind, and the alert: how many, and the first twenty distinct places. *)
Definition summarizeFindings (fs : list PiiLeakFinding) (k : PiiLeakKind) : nat := length (List.filter (λ f, bool_decide (kind f = k)) fs).
Fixpoint distinct (seen l : list string) : list string :=
  match l with [] => [] | x :: l => if bool_decide (x ∈ seen) then distinct seen l else x :: distinct (x :: seen) l end.
Record PiiScanResult : Type := { linesScanned : nat; findingCount : nat; findingsByKind : PiiLeakKind → nat }.
Definition runPiiScan (sample : list (option Doc)) : PiiScanResult * option (nat * list string) :=
  let findings := scanForPiiLeaks sample in
  ({| linesScanned := length sample; findingCount := length findings; findingsByKind := summarizeFindings findings |},
   if bool_decide (findings = []) then None else Some (length findings, take 20 (distinct [] (map path findings)))).

(** ** Texts *)

Lemma email_marker body : test EMAIL_PATTERN body = false → goodMarker EMAIL_PATTERN body.
Proof.
  intros Hb. split; try reflexivity; [cbn; lia|]. rewrite <-test_plain by reflexivity. congruence.
Qed.

(** No e-mail address is left in a scrubbed text, and a text with nothing to scrub is kept. *)
Lemma scrub_no_email s : test EMAIL_PATTERN (scrubPatternsInString s) = false.
Proof.
  apply not_true_iff_false. rewrite test_plain by reflexivity. unfold scrubPatternsInString.
  apply replaceGlobal_keeps; [apply email_marker; vm_compute; reflexivity|]. apply replaceGlobal_absent, email_marker. vm_compute. reflexivity.
Qed.

(** ** Records *)

(** What the output shows: texts without addresses, nothing but a marker under a listed name, and
    original objects only [left_] levels down. *)
Definition fieldHidden (o : out) : bool := match o with Same Nul | Same Undef => true | OStr s => bool_decide (s = REDACTED) | _ => false end.
Fixpoint safe (left_ : nat) (o : out) : bool :=
  match o, left_ with
  | Same (Nul | Undef | Prim _ | Opaque _), _ => true
  | Same (Str _), _ => false
  | Same (ErrorV _ _ _ | Ref _), _ => bool_decide (left_ = O)
  | OStr s, _ => negb (test EMAIL_PATTERN s)
  | OErr _ m st, _ => negb (test EMAIL_PATTERN m) && match st with Some t => negb (test EMAIL_PATTERN t) | None => true end
  | OArr l, S left_ => forallb (safe left_) l
  | OObj m, S left_ => forallb (λ p, if isDenylistedField p.1 then fieldHidden p.2 else safe left_ p.2) m
  | _, O => false
  end.

Lemma redact_safe heap left_ : ∀ v seen, safe left_ (redact heap left_ v seen).1 = true.
Proof.
  induction left_ as [|left_ IH]; intros v seen.
  - destruct v; cbn; try done. by rewrite scrub_no_email.
  - destruct v as [| |s|d|d|nm m st|n]; cbn [redact]; try done.
    + cbn. by rewrite scrub_no_email.
    + cbn. rewrite scrub_no_email. destruct st as [t|]; [|done]. cbn. by rewrite scrub_no_email.
    + case_bool_decide; [reflexivity|]. generalize ({[n]} ∪ seen) as seen'. destruct (heap n) as [l|m].
      * induction l as [|x l IHl]; intros seen'; [done|]. specialize (IH x seen'). destruct (redact heap left_ x seen') as [y s1]. specialize (IHl s1).
        destruct ((fix items l seen := match l with [] => ([], seen) | x :: l => let '(y, seen) := redact heap left_ x seen in let '(ys, seen) := items l seen in (y :: ys, seen) end) l s1) as [ys s2].
        cbn [fst safe forallb] in *. by rewrite IH, IHl.
      * induction m as [|[k x] m IHm]; intros seen'; [done|]. destruct (isDenylistedField k) eqn:Hk.
        -- specialize (IHm seen'). match type of IHm with context [let '(_, _) := ?e in _] => destruct e as [ys s2] end.
           cbn [fst snd safe forallb] in *. rewrite Hk, IHm. by destruct x.
        -- specialize (IH x seen'). destruct (redact heap left_ x seen') as [y s1]. specialize (IHm s1).
           match type of IHm with context [let '(_, _) := ?e in _] => destruct e as [ys s2] end.
           cbn [fst snd safe forallb] in *. by rewrite Hk, IH, IHm.
Qed.

(** ** What the scanner finds *)

(** The document a redacted record is written as: primitives as they are, absent members left
    out; [None] when an original object, a date or an error is in it, which the scanner's line
    shows in its own way. *)
Definition primitive (d : Doc) : option Doc := match d with DBool _ | DInt _ | DNum _ _ _ => Some d | _ => None end.
Definition isUndef (o : out) : bool := match o with Same Undef => true | _ => false end.
Fixpoint toDoc (o : out) : option Doc :=
  match o with
  | Same Nul => Some DNull
  | Same (Prim d) => primitive d
  | OStr s => Some (DStr s)
  | OArr l => DArr <$> (fix items l := match l with
      | [] => Some []
      | x :: l => y ← (if isUndef x then Some DNull else toDoc x); ys ← items l; Some (y :: ys)
      end) l
  | OObj m => DObj <$> (fix members m := match m with
      | [] => Some []
      | (k, x) :: m => if isUndef x then members m else (y ← toDoc x; ys ← members m; Some ((k, y) :: ys))
      end) m
  | _ => None
  end.

Lemma scanner_list_covered k : bool_decide (normalizeFieldName k ∈ DENYLISTED_FIELD_NAMES) = true → isDenylistedField k = true.
Proof.
  rewrite bool_decide_eq_true. unfold isDenylistedField. rewrite bool_decide_eq_true. generalize (normalizeFieldName k).
  assert (Forall (λ x, x ∈ PII_FIELD_DENYLIST) DENYLISTED_FIELD_NAMES) as H by (apply (bool_decide_eq_true_1 _); vm_compute; reflexivity).
  intros x Hx. rewrite Forall_forall in H. by apply H.
Qed.

Definition onlyPhones (fs : list PiiLeakFinding) : Prop := Forall (λ f, kind f = phone) fs.

Lemma scanString_phones i p s : test EMAIL_PATTERN s = false → onlyPhones (scanString i p s).
Proof. intros H. unfold scanString. destruct (_ || _); [constructor|]. rewrite H. destruct (test PHONE_PATTERN s); [|constructor]. by apply Forall_singleton. Qed.

Lemma hidden_silent x d p i depth : fieldHidden x = true → toDoc x = Some d → walk d p i depth = [] ∧ ∀ k, leakedField k d = false.
Proof.
  assert (∀ d, (∀ s, d = DStr s → s = REDACTED) → (∀ l, d ≠ DArr l) → (∀ m, d ≠ DObj m) → walk d p i depth = [] ∧ ∀ k, leakedField k d = false) as H.
  { intros e Hs Ha Ho. split.
    - destruct e as [| | | |s|l|m]; cbn [walk]; destruct (10 <? depth)%nat; try done; [rewrite (Hs s eq_refl); reflexivity|exfalso; by apply (Ha l)|exfalso; by apply (Ho m)].
    - intros k. unfold leakedField. destruct e as [| | | |s|l|m]; rewrite ?andb_false_r; try done. rewrite (Hs s) by done. rewrite (bool_decide_eq_true_2 (REDACTED = REDACTED)) by done. by rewrite andb_false_r. }
  intros Hf Hd. apply H; destruct x as [[]|s| | |]; try done; cbn in Hf, Hd; try discriminate Hd; injection Hd as <-; try done.
  apply bool_decide_eq_true in Hf as ->. by intros s [= <-].
Qed.

Lemma leaked_listed k d : leakedField k d = true → isDenylistedField k = true.
Proof. unfold leakedField. intros [H _]%andb_true_iff. by apply scanner_list_covered. Qed.

Lemma walk_phones left_ : ∀ o d p i depth, safe left_ o = true → toDoc o = Some d → onlyPhones (walk d p i depth).
Proof.
  assert (∀ o d p i depth left_, safe left_ o = true → toDoc o = Some d → match o with OArr _ | OObj _ => False | _ => True end → onlyPhones (walk d p i depth)) as Hflat.
  { intros o d p i depth l Hs Ht Hf. destruct o as [[]|s| | |]; try done; cbn in Ht.
    - injection Ht as <-. cbn [walk]. destruct (10 <? depth)%nat; constructor.
    - destruct d0; try done; injection Ht as <-; cbn [walk]; destruct (10 <? depth)%nat; constructor.
    - injection Ht as <-. cbn [walk]. destruct (10 <? depth)%nat; [constructor|]. apply scanString_phones. cbn in Hs. destruct l; by apply negb_true_iff in Hs. }
  induction left_ as [|left_ IH]; intros o d p i depth Hs Ht; [destruct o; try done; by eapply Hflat|].
  destruct o as [v|s|nm m st|l|m]; try (by eapply Hflat).
  - cbn [toDoc] in Ht. match type of Ht with _ <$> ?e = _ => destruct e as [ds|] eqn:E; [|done] end. injection Ht as <-. cbn [safe] in Hs. cbn [walk].
    destruct (10 <? depth)%nat; [constructor|]. generalize 0. revert ds E. induction l as [|x l IHl]; intros ds E z; [injection E as <-; constructor|].
    cbn [forallb] in Hs. apply andb_true_iff in Hs as [Hx Hl].
    destruct (if isUndef x then Some DNull else toDoc x) as [y|] eqn:Ey; [|done]. cbn [mbind option_bind] in E.
    match type of E with (?e ≫= _) = _ => destruct e as [ys|] eqn:Eys; [|done] end. injection E as <-. apply Forall_app_2; [|by apply IHl].
    destruct (isUndef x); [|by eapply IH]. injection Ey as <-; cbn [walk]; destruct (10 <? S depth)%nat; constructor.
  - cbn [toDoc] in Ht. match type of Ht with _ <$> ?e = _ => destruct e as [ds|] eqn:E; [|done] end. injection Ht as <-. cbn [safe] in Hs. cbn [walk].
    destruct (10 <? depth)%nat; [constructor|]. revert ds E. induction m as [|[k x] m IHm]; intros ds E; [injection E as <-; constructor|].
    cbn [forallb fst snd] in Hs. apply andb_true_iff in Hs as [Hx Hm].
    assert (∀ y ys, toDoc x = Some y → onlyPhones ys →
      onlyPhones ((if leakedField k y then [{| lineIndex := i; kind := unredacted_denylisted_field; path := childPath p k |}] else walk y (childPath p k) i (S depth)) ++ ys)) as Hstep.
    { intros y ys Hy Hys. apply Forall_app_2; [|done]. destruct (isDenylistedField k) eqn:Hk.
      - destruct (hidden_silent x y (childPath p k) i (S depth) Hx Hy) as [Hw Hl]. rewrite Hl. fold (onlyPhones (walk y (childPath p k) i (S depth))). rewrite Hw. constructor.
      - destruct (leakedField k y) eqn:Hl; [by rewrite (leaked_listed _ _ Hl) in Hk|]. by eapply IH. }
    destruct (isUndef x); [by apply IHm|]. destruct (toDoc x) as [y|]; [|done]. cbn [mbind option_bind] in E.
    match type of E with (?e ≫= _) = _ => destruct e as [ys|] eqn:Eys; [|done] end. injection E as <-. apply Hstep; [done|]. by apply IHm.
Qed.

(** ** What a redacted record may show *)




(** [o] is what may be logged of [v], with [levels] levels left in which objects are copied. *)
Section Masks.
Context (heap : nat → node).
#[local] Unset Elimination Schemes.
#[local] Set Elimination Schemes.
End Masks.









(** The scanner finds no address and no listed field in the line of a record that was
    redacted to its leaves: whatever it reports there is the shape of a phone number. *)
Theorem scan_after_redaction heap v d before : toDoc (redactPii heap v) = Some d → scanForPiiLeaks before = [] →
  Forall (λ f, kind f = phone ∧ lineIndex f = length before) (scanForPiiLeaks (before ++ [Some d])).
Proof.
  intros Hd Hb. unfold scanForPiiLeaks in *.
  assert (∀ i, scanFrom i before = [] → scanFrom i (before ++ [Some d]) = walk d "" (i + length before) 0) as Hw.
  { clear Hb. induction before as [|l before IH]; intros i Hi; cbn [scanFrom app length].
    - rewrite app_nil_r. by rewrite Nat.add_0_r.
    - cbn [scanFrom] in Hi. apply app_eq_nil in Hi as [-> Hi]. rewrite app_nil_l, IH by done. f_equal. lia. }
  rewrite Hw by done. rewrite Nat.add_0_l. clear Hw. apply Forall_forall. intros f Hf. split.
  - revert f Hf. apply Forall_forall. apply (walk_phones MAX_DEPTH (redactPii heap v)); [apply redact_safe|done].
  - revert f Hf. apply Forall_forall. generalize (length before) as i, (""%string) as p, 0%nat as depth. clear. intros i.
    induction d as [| | | |s|l IH|m IH] using Doc_ind; intros p depth; cbn [walk]; destruct (10 <? depth)%nat; try constructor.
    + unfold scanString. destruct (_ || _); [constructor|]. destruct (test _ _); [by apply Forall_singleton|]. destruct (test _ _); [by apply Forall_singleton|constructor].
    + generalize 0. induction IH as [|x l Hx _ IHl]; intros z; [constructor|]. by apply Forall_app_2.
    + induction IH as [|[k x] m Hx _ IHm]; [constructor|]. apply Forall_app_2; [|done]. destruct (leakedField k x); [by apply Forall_singleton|apply Hx].
Qed.

(** The sample is the last lines that were written. *)
Theorem sample_is_last {A} capacity (lines : list A) : foldl (recordLogLine capacity) [] lines = drop (length lines - capacity) lines.
Proof.
  induction lines as [|x lines IH] using rev_ind; [by destruct (_ - _)%nat|]. rewrite foldl_app, IH. cbn [foldl]. unfold recordLogLine.
  rewrite !length_app, length_drop. cbn [length]. destruct (Nat.ltb_spec capacity (length lines - (length lines - capacity) + 1)) as [Hc|Hc].
  - destruct (decide (capacity = 0)%nat) as [->|Hz].
    + rewrite !drop_ge; rewrite ?length_app, ?length_drop; cbn [length]; try done; lia.
    + rewrite (drop_app_le lines [x]) by lia. rewrite drop_app_le by (rewrite length_drop; lia). rewrite drop_drop. do 2 f_equal. lia.
  - rewrite drop_app_le by lia. do 2 f_equal. lia.
Qed.

(** ** Samples *)

Definition onHeap (l : list node) (n : nat) : node := nth n l (NArr []).
Definition sampleHeap : nat → node := onHeap [NObj [("userEmail", Str "write to ada@example.com"); ("E-Mail", Str "x"); ("phone", Prim (DInt 5)); ("note", Ref 1)]; NArr [Str "call +2348012345678"; Prim (DInt 7)]]%string.
Example redacted_sample : redactPii sampleHeap (Ref 0) = OObj [("userEmail", OStr "write to [REDACTED_EMAIL]"); ("E-Mail", OStr "[REDACTED]"); ("phone", OStr "[REDACTED]");
  ("note", OArr [OStr "call [REDACTED_PHONE]"; Same (Prim (DInt 7))])]%string.
Proof. vm_compute. reflexivity. Qed.


Definition sampleDoc : Doc := default DNull (toDoc (redactPii sampleHeap (Ref 0))).
Lemma scan_after_redaction_witness : Forall (λ f, kind f = phone ∧ lineIndex f = 1%nat) (scanForPiiLeaks ([Some (DInt 1)] ++ [Some sampleDoc])).
Proof. apply (scan_after_redaction sampleHeap (Ref 0) sampleDoc [Some (DInt 1)]); vm_compute; reflexivity. Defined.

(** A number behind another number is left: the boundary it lacked is there once the other has
    been replaced, and the scanner passes over texts that begin with a marker. *)
Example number_behind_number : let t := scrubPatternsInString "+123456789012345123-456-7890" in
  t = "[REDACTED_PHONE]123-456-7890"%string ∧ test PHONE_PATTERN t = true ∧ scanForPiiLeaks [Some (DObj [("note", DStr t)])]%string = [].
Proof. split_and!; vm_compute; reflexivity. Qed.

(** A number with its area code in brackets is no match unless a word ends at the bracket. *)
Example bracketed_number : scrubPatternsInString "call (555) 123-4567" = "call (555) 123-4567"%string.
Proof. vm_compute. reflexivity. Qed.

(** Eight levels down the original object is logged, listed fields and all; the scanner finds it. *)
Definition nestedHeap (n : nat) : node := if (n <? 8)%nat then NObj [("in"%string, Ref (S n))] else NObj [("email", Str "ada@example.com")]%string.
Fixpoint innermost (n : nat) (o : out) : option out := match n, o with O, _ => Some o | S n, OObj [(_, x)] => innermost n x | _, _ => None end.
Example deep_object_kept : innermost 8 (redactPii nestedHeap (Ref 0)) = Some (Same (Ref 8)).
Proof. vm_compute. reflexivity. Qed.
Fixpoint nestedDoc (n : nat) (d : Doc) : Doc := match n with O => d | S n => DObj [("in"%string, nestedDoc n d)] end.
Example deep_leak_found : map kind (scanForPiiLeaks [Some (nestedDoc 8 (DObj [("email", DStr "ada@example.com")]))])%string = [unredacted_denylisted_field].
Proof. vm_compute. reflexivity. Qed.

(** The same object twice, without any cycle, is logged as circular. *)
Example shared_object_circular : redactPii (onHeap [NArr [Ref 1; Ref 1]; NArr []]) (Ref 0) = OArr [OArr []; OStr "[CIRCULAR]"].
Proof. vm_compute. reflexivity. Qed.

(** An address in the message of a log call is not scrubbed. *)
Example message_not_scrubbed : redactLogArgs sampleHeap [Ref 1; Str "mailed ada@example.com"] = [OArr [OStr "call [REDACTED_PHONE]"; Same (Prim (DInt 7))]; Same (Str "mailed ada@example.com")]%string.
Proof. vm_compute. reflexivity. Qed.

Example scan_sample : let '(r, alert) := runPiiScan [Some (DObj [("a", DStr "x@y.org"); ("b", DArr [DStr "x@y.org"; DStr "+1234567"])]); None]%string in
  findingCount r = 3%nat ∧ findingsByKind r email = 2%nat ∧ alert = Some (3%nat, ["a"; "b[0]"; "b[1]"]%string).
Proof. vm_compute. done. Qed.
