(* ===== verification/Shutdown.v ===== *)
(** * Starting and stopping: [lib/shutdown.ts], [bootstrap] of [index.ts]

    A signal closes the HTTP server and stops the services one after the other, each within a
    deadline, the whole within another. What a step does is an [Outcome]; times are
    milliseconds since the signal. Exits are what [process.exit] is called with. *)

From S2P Require Import Prelude JsString JsValue.
From S2P Require Health.

Inductive Outcome : Type := Completes (after : Z) | Rejects (after : Z) | Hangs.
Record Shutdownable : Type := { name : string; stop : Outcome }.
Record ShutdownOptions : Type := { drainTimeoutMs : Z; forceExitTimeoutMs : Z }.

(** The delay of a timer: what is no number of milliseconds a timer holds is one. *)
Definition timerDelay (n : jsnum) : Z :=
  match n with JInt z | JNonInt z => if (1 <=? z) && (z <=? 2147483647) then z else 1 | _ => 1 end.

(** [Number(process.env[...] ?? fallback)] *)
Definition timeoutFrom (v : option string) (fallback : Z) : Z := match v with Some s => timerDelay (StringToNumber s) | None => fallback end.
Definition optionsFrom (drain force : option string) : ShutdownOptions :=
  {| drainTimeoutMs := timeoutFrom drain 20000; forceExitTimeoutMs := timeoutFrom force 30000 |}.

(** Whether the step was completed, and how long it took. *)
Definition withTimeout (ms : Z) (o : Outcome) : bool * Z :=
  match o with
  | Completes t => if t <? ms then (true, t) else (false, ms)
  | Rejects t => (false, Z.min t ms)
  | Hangs => (false, ms)
  end.

(** The callback of [server.close] resolves whatever it is called with. *)
Definition closeServer (o : Outcome) : Outcome := match o with Rejects t => Completes t | _ => o end.

(** The services stopped, with the time of each, when the sequence ended, and whether all were. *)
Fixpoint stopServices (ms now : Z) (services : list Shutdownable) : list (string * Z) * Z * bool :=
  match services with
  | [] => ([], now, true)
  | svc :: services =>
      match withTimeout ms (stop svc) with
      | (true, t) => let '(l, fin, ok) := stopServices ms (now + t) services in ((name svc, now + t) :: l, fin, ok)
      | (false, t) => ([], now + t, false)
      end
  end.

Definition sequence (o : ShutdownOptions) (server : Outcome) (services : list Shutdownable) : list (string * Z) * Z * bool :=
  match withTimeout (drainTimeoutMs o) (closeServer server) with
  | (true, t) => stopServices (drainTimeoutMs o) t services
  | (false, t) => ([], t, false)
  end.

Record Exit : Type := { code : Z; at_ : Z; stopped : list string }.
(** The timer of the whole ends the process wherever the sequence is. *)
Definition shutdown (o : ShutdownOptions) (server : Outcome) (services : list Shutdownable) : Exit :=
  let '(l, fin, ok) := sequence o server services in
  if fin <? forceExitTimeoutMs o then {| code := if ok then 0 else 1; at_ := fin; stopped := l.*1 |}
  else {| code := 1; at_ := forceExitTimeoutMs o; stopped := (List.filter (λ s, s.2 <? forceExitTimeoutMs o) l).*1 |}.

(** ** The process *)

(** The six services of [index.ts], in order; a worker that was never started is skipped. *)
Record Subsystems : Type := { eventListener : Outcome; reconciliationWorker : option Outcome; piiLogScannerWorker : option Outcome; queueConnections : Outcome; redis : Outcome; database : Outcome }.
Definition worker (o : option Outcome) : Outcome := default (Completes 0) o.
Definition services (s : Subsystems) : list Shutdownable :=
  [{| name := "event-listener"; stop := eventListener s |}; {| name := "reconciliation-worker"; stop := worker (reconciliationWorker s) |};
   {| name := "pii-worker"; stop := worker (piiLogScannerWorker s) |}; {| name := "queue-connections"; stop := queueConnections s |};
   {| name := "redis"; stop := redis s |}; {| name := "database"; stop := database s |}]%string.

(** The process: whether it is shutting down, and how that will end. *)
Inductive Process : Type := Running | ShuttingDown (e : Exit).
Definition isShuttingDown (p : Process) : bool := match p with Running => false | ShuttingDown _ => true end.
Definition signal (o : ShutdownOptions) (server : Outcome) (s : Subsystems) (p : Process) : Process :=
  match p with Running => ShuttingDown (shutdown o server (services s)) | _ => p end.

(** Outside tests the process starts only when the startup check says so. *)
Definition bootstrap (isTest : bool) (d : Health.Dependencies) : Process + Z :=
  if isTest then inl Running else if Health.performStartupCheck d then inl Running else inr 1.

(** ** What a shutdown comes to *)

Definition nonneg (o : Outcome) : Prop := match o with Completes t | Rejects t => 0 ≤ t | Hangs => True end.
Definition completesIn (ms : Z) (o : Outcome) : Prop := ∃ t, o = Completes t ∧ t < ms.

Lemma withTimeout_spec ms o : 0 ≤ ms → nonneg o → let '(ok, t) := withTimeout ms o in (ok = true ↔ completesIn ms o) ∧ 0 ≤ t ≤ ms.
Proof.
  intros Hm Ho. unfold withTimeout, completesIn. destruct o as [t|t|]; cbn in Ho.
  - destruct (Z.ltb_spec t ms); (split; [|lia]); split; try done; [eauto|]. intros (? & [= <-] & ?). lia.
  - split; [|lia]. split; [done|]. by intros (? & ? & _).
  - split; [|lia]. split; [done|]. by intros (? & ? & _).
Qed.

Lemma stopServices_spec ms ss : 0 ≤ ms → Forall (λ s, nonneg (stop s)) ss → ∀ now,
  let '(l, fin, ok) := stopServices ms now ss in
  (ok = true ↔ Forall (λ s, completesIn ms (stop s)) ss) ∧ now ≤ fin ≤ now + ms * Z.of_nat (length ss) ∧
  Forall (λ s, now ≤ s.2 ≤ fin) l ∧ StronglySorted (λ a b, a.2 ≤ b.2) l ∧ (if ok then l.*1 = map name ss else ∃ s rest, map name ss = l.*1 ++ name s :: rest ∧ s ∈ ss ∧ ¬ completesIn ms (stop s)).
Proof.
  intros Hm. induction 1 as [|s ss Hs Hss IH]; intros now; cbn [stopServices].
  - split_and!; [done|cbn; lia|cbn; lia|constructor|constructor|done].
  - pose proof (withTimeout_spec ms (stop s) Hm Hs) as Hw. destruct (withTimeout ms (stop s)) as [[] t].
    + specialize (IH (now + t)). destruct (stopServices ms (now + t) ss) as [[l fin] ok]. destruct Hw as [Hw Ht], IH as (H1 & H2 & H3 & H5 & H4). cbn [length]. split_and!.
      * rewrite Forall_cons, H1. split; [intros ?; split; [by apply Hw|done]|tauto].
      * lia.
      * nia.
      * constructor; [cbn; lia|]. eapply Forall_impl; [exact H3|]. intros [? ?]; cbn; lia.
      * constructor; [done|]. eapply Forall_impl; [exact H3|]. intros [? ?]; cbn; lia.
      * destruct ok; cbn [fmap list_fmap fst map]; [by f_equal|]. destruct H4 as (s' & rest & -> & Hin & Hn). exists s', rest. split; [done|]. split; [by right|done].
    + destruct Hw as [Hw Ht]. cbn [length]. split_and!; [|lia|nia|constructor|constructor|].
      * split; [done|]. intros Hf. apply Forall_cons in Hf as [Hf _]. by apply Hw in Hf.
      * exists s, (map name ss). split; [done|]. split; [by left|]. intros Hc. by apply Hw in Hc.
Qed.

Lemma filter_before F (l : list (string * Z)) : StronglySorted (λ a b, a.2 ≤ b.2) l → List.filter (λ s, s.2 <? F) l `prefix_of` l.
Proof.
  induction 1 as [|x l Hs IH Hx]; [done|]. cbn. destruct (Z.ltb_spec x.2 F) as [|Hge]; [by apply prefix_cons|].
  assert (List.filter (λ s, s.2 <? F) l = []) as ->; [|apply prefix_nil].
  clear IH Hs. induction Hx as [|y l Hy _ IHl]; [done|]. cbn. by rewrite (proj2 (Z.ltb_ge y.2 F)) by lia.
Qed.

Lemma closeServer_nonneg o : nonneg o → nonneg (closeServer o).
Proof. by destruct o. Qed.

Lemma sequence_spec o server ss : 0 ≤ drainTimeoutMs o → nonneg server → Forall (λ s, nonneg (stop s)) ss →
  let '(l, fin, ok) := sequence o server ss in
  (ok = true ↔ completesIn (drainTimeoutMs o) (closeServer server) ∧ Forall (λ s, completesIn (drainTimeoutMs o) (stop s)) ss) ∧
  0 ≤ fin ≤ drainTimeoutMs o * (1 + Z.of_nat (length ss)) ∧ StronglySorted (λ a b, a.2 ≤ b.2) l ∧ l.*1 `prefix_of` map name ss ∧ (ok = true → l.*1 = map name ss).
Proof.
  intros Hm Hs Hss. unfold sequence. pose proof (withTimeout_spec _ _ Hm (closeServer_nonneg _ Hs)) as Hw.
  destruct (withTimeout _ _) as [[] t]; destruct Hw as [Hw Ht].
  - pose proof (stopServices_spec _ ss Hm Hss t) as H. destruct (stopServices _ _ _) as [[l fin] ok]. destruct H as (H1 & H2 & _ & H3 & H4). split_and!; try lia; try done.
    + rewrite H1. tauto.
    + destruct ok; [by rewrite H4|]. destruct H4 as (s & rest & -> & _). by apply prefix_app_r.
    + by intros ->.
  - split_and!; try done; try nia; [|constructor|apply prefix_nil]. split; [done|]. intros [Hc _]. by apply Hw in Hc.
Qed.

(** A shutdown ends: by the force timeout, and by one drain timeout per step. It ends well
    exactly when the server closed and every service stopped within its deadline and all in
    time, and then all were stopped, in order; otherwise what was stopped is the part of them
    before a step that failed or was overtaken. A second signal changes nothing, and from the
    first on the readiness probe answers 503. *)
Theorem shutdown_spec o server s d : 0 ≤ drainTimeoutMs o → 0 < forceExitTimeoutMs o → Forall nonneg (server :: map stop (services s)) →
  let e := shutdown o server (services s) in
  0 ≤ at_ e ≤ Z.min (forceExitTimeoutMs o) (drainTimeoutMs o * 7) ∧
  (code e = 0 ↔ completesIn (drainTimeoutMs o) (closeServer server) ∧ Forall (λ s, completesIn (drainTimeoutMs o) (stop s)) (services s) ∧ at_ e < forceExitTimeoutMs o) ∧
  (code e = 0 → stopped e = map name (services s)) ∧ (code e = 0 ∨ code e = 1) ∧ stopped e `prefix_of` map name (services s) ∧
  (∀ o' server' s', signal o' server' s' (signal o server s Running) = signal o server s Running) ∧
  Health.readyRoute (isShuttingDown (signal o server s Running)) d = 503.
Proof.
  intros Hm Hf [Hs Hss]%Forall_cons. change (Forall nonneg (stop <$> services s)) in Hss. rewrite Forall_fmap in Hss. pose proof (sequence_spec o server (services s) Hm Hs Hss) as H.
  unfold shutdown. destruct (sequence _ _ _) as [[l fin] ok]. destruct H as (H1 & H2 & H3 & H4 & H5). change (Z.of_nat (length (services s))) with 6 in H2.
  cbv zeta. destruct (Z.ltb_spec fin (forceExitTimeoutMs o)) as [Hlt|Hge]; cbn [at_ code stopped].
  - split_and!; try done; try nia.
    + destruct ok; (split; [intros Hc|intros (Ha & Hb & _)]); try done; [by destruct (proj1 H1 eq_refl)|]. discriminate (proj2 H1 (conj Ha Hb)).
    + destruct ok; [by intros _; apply H5|done].
    + destruct ok; auto.
  - split_and!; try done; try nia.
    transitivity (l.*1); [|exact H4]. destruct (filter_before (forceExitTimeoutMs o) l H3) as [k Hk]. exists (k.*1). rewrite <-fmap_app. by f_equal.
Qed.

(** ** Samples *)

Definition defaults : ShutdownOptions := optionsFrom None None.
Definition quick : Subsystems :=
  {| eventListener := Completes 400; reconciliationWorker := Some (Completes 1500); piiLogScannerWorker := None; queueConnections := Completes 20; redis := Rejects 5; database := Completes 10 |}.
Definition clean : Subsystems :=
  {| eventListener := Completes 400; reconciliationWorker := Some (Completes 1500); piiLogScannerWorker := None; queueConnections := Completes 20; redis := Completes 5; database := Completes 10 |}.
Definition ready : Health.Dependencies := Health.working (Health.Answers 3).

Lemma shutdown_spec_witness : code (shutdown defaults (Completes 900) (services clean)) = 0 ∧ at_ (shutdown defaults (Completes 900) (services clean)) = 2835.
Proof.
  destruct (shutdown_spec defaults (Completes 900) clean ready) as (_ & H & _).
  - vm_compute. discriminate.
  - vm_compute. reflexivity.
  - repeat constructor; cbn; lia.
  - split; [|vm_compute; reflexivity]. apply H. split; [by exists 900|]. split; [|vm_compute; reflexivity].
    repeat constructor; (eexists; split; [reflexivity|vm_compute; reflexivity]).
Defined.

(** A rejecting step ends the sequence: the database is never disconnected. *)
Example rejecting_step : shutdown defaults (Completes 900) (services quick) =
  {| code := 1; at_ := 2825; stopped := ["event-listener"; "reconciliation-worker"; "pii-worker"; "queue-connections"]%string |}.
Proof. vm_compute. reflexivity. Qed.

(** One connection that stays open for twenty seconds, and no service is stopped at all. *)
Example slow_drain_stops_nothing : shutdown defaults Hangs (services clean) = {| code := 1; at_ := 20000; stopped := [] |}.
Proof. vm_compute. reflexivity. Qed.

(** Two steps within their deadlines can exceed that of the whole. *)
Example within_deadlines_forced : shutdown defaults (Completes 19000) [{| name := "event-listener"; stop := Completes 19000 |}] = {| code := 1; at_ := 30000; stopped := [] |}.
Proof. vm_compute. reflexivity. Qed.

(** A timeout given with its unit is one millisecond. *)
Example timeout_with_unit : optionsFrom (Some "20s"%string) None = {| drainTimeoutMs := 1; forceExitTimeoutMs := 30000 |}.
Proof. vm_compute. reflexivity. Qed.

(** The process does not start with a database that is slow to answer. *)
Example slow_start : bootstrap false (Health.working (Health.Answers 250)) = inr 1 ∧ bootstrap false ready = inl Running.
Proof. vm_compute. done. Qed.
