(* ===== verification/Savings.v ===== *)
(** * Savings goals: [services/savings.service.ts], [routes/goals.routes.ts]

    The analytics of a wallet's goals and the writes of goals and vaults. Amounts are texts read
    by [BigInt]; days and expected progress are doubles; a percentage is below 2^53. Users
    are filed under their wallet, vaults and goals under their contract ids. *)

From S2P Require Import Prelude JsString Prisma Double.

Inductive GoalStatus : Type := ACTIVE | GOAL_COMPLETED | GOAL_CANCELLED.
#[global] Instance GoalStatus_eq_dec : EqDecision GoalStatus.
Proof. solve_decision. Defined.
Record User : Type := { u_id : Z; u_wallet : string }.
Record Vault : Type := { vaultId : string; ownerAddress : string; balanceUsdc : string }.
Record Goal : Type := {
  goalId : string; g_vaultId : string; userId : Z; targetAmountUsdc : string; currentAmountUsdc : string; deadline : Z; status : GoalStatus; createdAt : Z }.

Record GoalAnalytics : Type := {
  a_goalId : string; a_target : string; a_current : string; percentageComplete : Z; daysRemaining : Z; a_deadline : Z; a_status : GoalStatus;
  vaultBalance : string; isOnTrack : bool }.
Record GoalsAnalyticsResponse : Type := {
  walletAddress : string; totalGoals : Z; activeGoals : Z; completedGoals : Z; totalTargetAmount : string; totalCurrentAmount : string;
  overallProgressPercentage : Z; r_goals : list GoalAnalytics }.

Definition bigInt (s : string) : result string Z :=
  match BigInt_string s with Some z => Ok z | None => Err ("Cannot convert " +:+ s +:+ " to a BigInt")%string end.

Definition percentage (current target : Z) : Z := if 0 <? target then Z.quot (current * 100) target else 0.

Definition DAY : Z := 1000 * 60 * 60 * 24.
Definition daysUntil (from to : Z) : Z := dceil (ddiv (ofInt (to - from)) (ofInt DAY)).
Definition expectedProgress (daysRemaining totalDays : Z) : dbl :=
  if 0 <? totalDays then dsub (ofInt 100) (dmul (ddiv (ofInt daysRemaining) (ofInt totalDays)) (ofInt 100)) else ofInt 100.
Definition onTrack (percentageComplete daysRemaining totalDays : Z) : bool :=
  dleb (dmul (expectedProgress daysRemaining totalDays) (rndZ 9 10)) (rndZ percentageComplete 1).

Section Savings.
Context {TU TV TG : Type} `{!Table string User TU} `{!Table string Vault TV} `{!Table string Goal TG}.

Definition analyse (now : Z) (vaults : TV) (g : Goal) : result string GoalAnalytics :=
  target ← bigInt (targetAmountUsdc g);
  current ← bigInt (currentAmountUsdc g);
  v ← match findUnique (g_vaultId g) vaults with Some v => Ok v | None => Err "Inconsistent query result"%string end;
  let days := daysUntil now (deadline g) in
  let p := percentage current target in
  mret {| a_goalId := goalId g; a_target := targetAmountUsdc g; a_current := currentAmountUsdc g; percentageComplete := p;
          daysRemaining := Z.max 0 days; a_deadline := deadline g; a_status := status g; vaultBalance := balanceUsdc v;
          isOnTrack := onTrack p days (daysUntil (createdAt g) (deadline g)) |}.

Fixpoint analyseAll (now : Z) (vaults : TV) (l : list Goal) : result string (list GoalAnalytics) :=
  match l with [] => mret [] | g :: l => a ← analyse now vaults g; as_ ← analyseAll now vaults l; mret (a :: as_) end.
Fixpoint totalOf (amount : Goal → string) (l : list Goal) : result string Z :=
  match l with [] => mret 0 | g :: l => x ← bigInt (amount g); s ← totalOf amount l; mret (x + s) end.
Definition withStatus (s : GoalStatus) (l : list GoalAnalytics) : Z := Z.of_nat (length (List.filter (λ a, bool_decide (a_status a = s)) l)).

Definition goalsOf (u : User) (goals : TG) : list Goal := findMany (λ g, userId g =? u_id u) goals.
Definition userOf (wallet : string) (users : TU) : result string User :=
  match findUnique (toLowerCase wallet) users with Some u => Ok u | None => Err ("User not found: " +:+ wallet)%string end.

Definition getGoalsAnalytics (wallet : string) (now : Z) (users : TU) (vaults : TV) (goals : TG) : result string GoalsAnalyticsResponse :=
  user ← userOf wallet users;
  let allGoals := goalsOf user goals in
  analytics ← analyseAll now vaults allGoals;
  target ← totalOf targetAmountUsdc allGoals;
  current ← totalOf currentAmountUsdc allGoals;
  mret {| walletAddress := toLowerCase wallet; totalGoals := Z.of_nat (length allGoals); activeGoals := withStatus ACTIVE analytics;
          completedGoals := withStatus GOAL_COMPLETED analytics; totalTargetAmount := toString target; totalCurrentAmount := toString current;
          overallProgressPercentage := percentage current target; r_goals := analytics |}.

(** The answer of [GET /goals]: 401 without a wallet, the analytics, or the error passed on. *)
Definition goalsRoute (wallet : option string) (now : Z) (users : TU) (vaults : TV) (goals : TG) : Z + result string GoalsAnalyticsResponse :=
  match wallet with None | Some ""%string => inl 401 | Some w => inr (getGoalsAnalytics w now users vaults goals) end.

(** ** Writes *)

Definition createVault (wallet vid initialBalance : string) (users : TU) (vaults : TV) : result string TV :=
  _ ← userOf wallet users;
  match create vid {| vaultId := vid; ownerAddress := toLowerCase wallet; balanceUsdc := initialBalance |} vaults with
  | Some vaults' => Ok vaults' | None => Err "P2002"%string end.

Definition createGoal (wallet gid vid target : string) (due now : Z) (users : TU) (vaults : TV) (goals : TG) : result string TG :=
  user ← userOf wallet users;
  _ ← match findUnique vid vaults with Some v => Ok v | None => Err ("Vault not found: " +:+ vid)%string end;
  match create gid {| goalId := gid; g_vaultId := vid; userId := u_id user; targetAmountUsdc := target; currentAmountUsdc := "0"; deadline := due;
                      status := ACTIVE; createdAt := now |} goals with
  | Some goals' => Ok goals' | None => Err "P2002"%string end.

Definition updateGoal (f : Goal → Goal) (gid : string) (goals : TG) : result string TG :=
  match update gid f goals with Some (_, goals') => Ok goals' | None => Err "P2025"%string end.
Definition setProgress (amount : string) (g : Goal) : Goal :=
  {| goalId := goalId g; g_vaultId := g_vaultId g; userId := userId g; targetAmountUsdc := targetAmountUsdc g; currentAmountUsdc := amount; deadline := deadline g; status := status g; createdAt := createdAt g |}.
Definition setStatus (s : GoalStatus) (g : Goal) : Goal :=
  {| goalId := goalId g; g_vaultId := g_vaultId g; userId := userId g; targetAmountUsdc := targetAmountUsdc g; currentAmountUsdc := currentAmountUsdc g; deadline := deadline g; status := s; createdAt := createdAt g |}.
Definition updateGoalProgress (gid amount : string) : TG → result string TG := updateGoal (setProgress amount) gid.
Definition completeGoal (gid : string) : TG → result string TG := updateGoal (setStatus GOAL_COMPLETED) gid.
Definition cancelGoal (gid : string) : TG → result string TG := updateGoal (setStatus GOAL_CANCELLED) gid.
Definition updateVaultBalance (vid balance : string) (vaults : TV) : result string TV :=
  match update vid (λ v, {| vaultId := vaultId v; ownerAddress := ownerAddress v; balanceUsdc := balance |}) vaults with
  | Some (_, vaults') => Ok vaults' | None => Err "P2025"%string end.

(** ** What the analytics say *)

Definition readableGoal (vaults : TV) (g : Goal) : Prop :=
  is_Some (BigInt_string (targetAmountUsdc g)) ∧ is_Some (BigInt_string (currentAmountUsdc g)) ∧ is_Some (findUnique (g_vaultId g) vaults).
Definition amountOf (s : string) : Z := default 0 (BigInt_string s).
Definition sumOf (amount : Goal → string) (l : list Goal) : Z := foldr (λ g s, amountOf (amount g) + s) 0 l.

Lemma bigInt_Ok s z : bigInt s = Ok z ↔ BigInt_string s = Some z.
Proof. unfold bigInt. destruct (BigInt_string s); (split; [by intros [= ->]|by intros [= ->]]). Qed.

Lemma totalOf_readable amount l : Forall (λ g, is_Some (BigInt_string (amount g))) l → totalOf amount l = Ok (sumOf amount l).
Proof.
  induction 1 as [|g l [z Hz] Hl IH]; [done|]. cbn [totalOf]. unfold bigInt. rewrite Hz. cbn [mbind result_bind]. rewrite IH. cbn. unfold amountOf. by rewrite Hz.
Qed.

Definition analysed (now : Z) (g : Goal) (a : GoalAnalytics) : Prop :=
  a_goalId a = goalId g ∧ a_status a = status g ∧ percentageComplete a = percentage (amountOf (currentAmountUsdc g)) (amountOf (targetAmountUsdc g)) ∧
  daysRemaining a = Z.max 0 (daysUntil now (deadline g)) ∧
  isOnTrack a = onTrack (percentageComplete a) (daysUntil now (deadline g)) (daysUntil (createdAt g) (deadline g)).

Lemma analyse_readable now vaults g : readableGoal vaults g → ∃ a, analyse now vaults g = Ok a ∧ analysed now g a.
Proof.
  intros ([t Ht] & [c Hc] & [v Hv]). unfold analyse, bigInt. rewrite Ht, Hc, Hv. cbn [mbind result_bind]. eexists. split; [reflexivity|].
  unfold analysed, amountOf. rewrite Ht, Hc. by split_and!.
Qed.
Lemma analyse_unreadable now vaults g a : analyse now vaults g = Ok a → readableGoal vaults g.
Proof.
  unfold analyse, readableGoal, bigInt. destruct (BigInt_string (targetAmountUsdc g)); [|done]. destruct (BigInt_string (currentAmountUsdc g)); [|done].
  cbn [mbind result_bind]. destruct (findUnique _ _); [|done]. eauto.
Qed.

Lemma analyseAll_spec now vaults l : (∃ as_, analyseAll now vaults l = Ok as_ ∧ Forall (readableGoal vaults) l ∧ Forall2 (analysed now) l as_) ∨
  ((∃ e, analyseAll now vaults l = Err e) ∧ ¬ Forall (readableGoal vaults) l).
Proof.
  induction l as [|g l IH]; [left; exists []; by repeat constructor|]. cbn [analyseAll]. destruct (analyse now vaults g) as [a|e] eqn:E.
  - pose proof (analyse_unreadable _ _ _ _ E) as Hg. destruct (analyse_readable now vaults g Hg) as (a' & E' & Ha). rewrite E in E'. injection E' as <-.
    destruct IH as [(as_ & -> & H1 & H2)|[[e ->] Hn]]; cbn [mbind result_bind].
    + left. eexists. split; [reflexivity|]. by split; constructor.
    + right. split; [by eexists|]. intros H. by apply Forall_cons in H as [_ H].
  - right. split; [by eexists|]. intros [Hg _]%Forall_cons. destruct (analyse_readable now vaults g Hg) as (a' & E' & _). congruence.
Qed.

Lemma percentage_bounds c t : 0 ≤ c ≤ t → 0 ≤ percentage c t ≤ 100 ∧ (percentage c t = 100 ↔ 0 < t ∧ c = t).
Proof.
  intros H. unfold percentage. destruct (Z.ltb_spec 0 t); [|split; [lia|split; [done|lia]]]. rewrite Z.quot_div_nonneg by lia.
  pose proof (Z.div_mod (c * 100) t ltac:(lia)). pose proof (Z.mod_pos_bound (c * 100) t ltac:(lia)). split; [nia|]. split; intros; nia.
Qed.

Lemma sumOf_bounds l : Forall (λ g, 0 ≤ amountOf (currentAmountUsdc g) ≤ amountOf (targetAmountUsdc g)) l → 0 ≤ sumOf currentAmountUsdc l ≤ sumOf targetAmountUsdc l.
Proof. induction 1 as [|g l Hg _ IH]; unfold sumOf in *; cbn [foldr]; lia. Qed.

(** The analytics are given exactly when the wallet has a user and the amounts of every goal
    are integer texts: then each goal is reported with its own progress, the totals are the sums
    of the amounts, and the overall progress is the rounded-down percentage of the one in
    the other, between 0 and 100 while no goal is over its target. *)
Theorem analytics_spec wallet now users vaults goals :
  match getGoalsAnalytics wallet now users vaults goals with
  | Ok r => ∃ u, findUnique (toLowerCase wallet) users = Some u ∧ let l := goalsOf u goals in
      Forall (readableGoal vaults) l ∧ Forall2 (analysed now) l (r_goals r) ∧ totalGoals r = Z.of_nat (length l) ∧
      totalTargetAmount r = toString (sumOf targetAmountUsdc l) ∧ totalCurrentAmount r = toString (sumOf currentAmountUsdc l) ∧
      overallProgressPercentage r = percentage (sumOf currentAmountUsdc l) (sumOf targetAmountUsdc l) ∧
      (Forall (λ g, 0 ≤ amountOf (currentAmountUsdc g) ≤ amountOf (targetAmountUsdc g)) l →
         0 ≤ overallProgressPercentage r ≤ 100 ∧ Forall (λ a, 0 ≤ percentageComplete a ≤ 100) (r_goals r))
  | Err _ => ∀ u, findUnique (toLowerCase wallet) users = Some u → ¬ Forall (readableGoal vaults) (goalsOf u goals)
  end.
Proof.
  unfold getGoalsAnalytics, userOf. destruct (findUnique (toLowerCase wallet) users) as [u|]; [|done]. cbn [mbind result_bind].
  destruct (analyseAll_spec now vaults (goalsOf u goals)) as [(as_ & -> & Hr & Ha)|[[e ->] Hn]]; cbn [mbind result_bind]; [|by intros ? [= <-]].
  rewrite !totalOf_readable by (eapply Forall_impl; [exact Hr|unfold readableGoal; tauto]). cbn [mbind result_bind mret result_ret].
  exists u. split; [done|]. cbv zeta. cbn [r_goals totalGoals totalTargetAmount totalCurrentAmount overallProgressPercentage]. split_and!; try done.
  intros Hb. split.
  - by apply percentage_bounds, sumOf_bounds.
  - clear Hr. revert Hb. induction Ha as [|g a l as_ Hga _ IH]; intros Hb; [constructor|]. apply Forall_cons in Hb as [Hg Hl]. constructor; [|by apply IH].
    destruct Hga as (_ & _ & -> & _). by apply percentage_bounds.
Qed.

(** Whose the vault is does not matter: anybody's goal can be put on it. *)
Theorem goal_on_foreign_vault wallet gid vid target due now users vaults goals u v : findUnique (toLowerCase wallet) users = Some u →
  findUnique vid vaults = Some v → ownerAddress v ≠ toLowerCase wallet → createGoal wallet gid vid target due now users vaults goals =
    match create gid {| goalId := gid; g_vaultId := vid; userId := u_id u; targetAmountUsdc := target; currentAmountUsdc := "0"; deadline := due;
                        status := ACTIVE; createdAt := now |} goals with Some goals' => Ok goals' | None => Err "P2002"%string end.
Proof. intros Hu Hv _. unfold createGoal, userOf. by rewrite Hu, Hv. Qed.
End Savings.

(** ** Samples *)

Definition sampleUsers : gmap string User := {[ "ga"%string := {| u_id := 1; u_wallet := "ga" |} ]}.
Definition sampleVaults : gmap string Vault := {[ "v"%string := {| vaultId := "v"; ownerAddress := "ga"; balanceUsdc := "10" |} ]}.
Definition sampleGoal (target current : string) (s : GoalStatus) : Goal :=
  {| goalId := "g"; g_vaultId := "v"; userId := 1; targetAmountUsdc := target; currentAmountUsdc := current; deadline := 10 * DAY; status := s; createdAt := 0 |}.
Definition sampleGoals (g : Goal) : gmap string Goal := {[ "g"%string := g ]}.

Lemma analytics_spec_witness : ∃ r, getGoalsAnalytics "GA" (5 * DAY) sampleUsers sampleVaults (sampleGoals (sampleGoal "300" "200" ACTIVE)) = Ok r ∧
  overallProgressPercentage r = 66 ∧ 0 ≤ overallProgressPercentage r ≤ 100.
Proof.
  pose proof (analytics_spec "GA" (5 * DAY) sampleUsers sampleVaults (sampleGoals (sampleGoal "300" "200" ACTIVE))) as H.
  destruct (getGoalsAnalytics "GA" (5 * DAY) sampleUsers sampleVaults (sampleGoals (sampleGoal "300" "200" ACTIVE))) as [r|e] eqn:E; [|vm_compute in E; discriminate E].
  exists r. split; [reflexivity|]. destruct H as (u & Hu & _ & _ & _ & _ & _ & Hp & Hb). vm_compute in Hu. injection Hu as <-.
  split; [rewrite Hp; vm_compute; reflexivity|]. apply Hb. apply Forall_forall. intros g Hg. assert (g = sampleGoal "300" "200" ACTIVE) as ->.
  { vm_compute in Hg. apply elem_of_cons in Hg as [->|Hg]; [reflexivity|by apply elem_of_nil in Hg]. }
  vm_compute. split; discriminate.
Defined.

(** One goal with a decimal amount, and the wallet has no analytics at all. *)
Example decimal_amount_throws : getGoalsAnalytics "GA" 0 sampleUsers sampleVaults (sampleGoals (sampleGoal "12.50" "0" ACTIVE)) = Err "Cannot convert 12.50 to a BigInt"%string.
Proof. vm_compute. reflexivity. Qed.

(** A completed goal is off track some time after its deadline. *)
Example completed_off_track : map isOnTrack match getGoalsAnalytics "GA" (12 * DAY) sampleUsers sampleVaults (sampleGoals (sampleGoal "300" "300" GOAL_COMPLETED)) with Ok r => r_goals r | Err _ => [] end = [false].
Proof. vm_compute. reflexivity. Qed.
