(* ===== verification/Users.v ===== *)
(** * Users: [services/user.service.ts], [controllers/user.controller.ts], [validators/user.validators.ts]

    Profiles in the Supabase table, found or created when a wallet signs in. A request to
    Supabase is answered, refused with a code, or thrown by the client, as a [Fate] says;
    reads are retried by [Retry]. What other requests commit between two of ours is an
    argument. *)

From S2P Require Import Prelude JsString JsValue Errors Prisma.
From S2P Require Retry Auth.

Record User : Type := { address : string; display_name : option string; avatar_url : option string }.
Definition newUser (addr : string) : User := {| address := addr; display_name := None; avatar_url := None |}.

(** What Supabase answers: [{ data, error }], the error by its code. *)
Record Response : Type := { data : option User; errorCode : option string }.
Definition NOT_FOUND_CODE : string := "PGRST116".
Definition CONFLICT_CODE : string := "23505".

(** The client hands an error of the server back as a value; [Thrown]: it rejects, after the
    statement took effect or before. *)
Inductive Fate : Type := Answered | Refused (code : string) | Thrown (e : jsval) (applied : bool).
(** The attempts at one request, as [retryAsync] meets them. *)
Record Attempts : Type := { fate : Z → Fate; clock : Z → Z; rand : Z → Z * Z; started : Z }.

Definition options (maxRetries : option Z) : Retry.RetryOptions :=
  {| Retry.maxRetries := maxRetries; Retry.baseDelayMs := None; Retry.capMs := None; Retry.budgetMs := None; Retry.shouldRetry := None; Retry.backoffMs := None |}.
Definition retried (n : Attempts) (maxRetries : option Z) (operation : Z → result jsval Response) : result jsval Response :=
  match Retry.retryAsync operation (clock n) (rand n) (options maxRetries) (started n) with Some (_, r) => r | None => Err VUndefined end.

Definition settle (f : Fate) (answer : Response) : result jsval Response :=
  match f with Answered => Ok answer | Refused c => Ok {| data := None; errorCode := Some c |} | Thrown e _ => Err e end.
Definition takesEffect (f : Fate) : bool := match f with Answered => true | Refused _ => false | Thrown _ applied => applied end.

Section Users.
Context {T : Type} `{!Table string User T}.

(** [.select().eq("address", a).single()] *)
Definition selectSingle (addr : string) (users : T) : Response :=
  match findUnique addr users with
  | Some u => {| data := Some u; errorCode := None |}
  | None => {| data := None; errorCode := Some NOT_FOUND_CODE |}
  end.
Definition read (n : Attempts) (addr : string) (users : T) : result jsval Response :=
  retried n None (λ k, settle (fate n k) (selectSingle addr users)).

(** A statement that is not repeated: [run] gives the rows it leaves, with its answer. *)
Definition write (n : Attempts) (run : T → T * Response) (users : T) : T * result jsval Response :=
  let '(users', r) := run users in
  (if takesEffect (fate n 0) then users' else users, retried n (Some 0) (λ k, settle (fate n k) r)).

Definition insertUser (addr : string) (users : T) : T * Response :=
  match create addr (newUser addr) users with
  | Some users' => (users', {| data := Some (newUser addr); errorCode := None |})
  | None => (users, {| data := None; errorCode := Some CONFLICT_CODE |})
  end.

Section Service.
Context (isValidEd25519PublicKey : string → bool) (supabaseConfigured : bool).

Definition infra (message : string) (status : Z) : error := AppError INFRA_ERROR message status.
Definition dependency : error := infra "User service dependency failure" 503.

(** The insert, and the second look when another request got there first. *)
Definition createMissing (addr : string) (ins again : Attempts) (between : T → T) (users : T) : T * result error (option User) :=
  match write ins (insertUser addr) users with
  | (users, Err _) => (users, Err dependency)
  | (users, Ok c) =>
      let failed := match errorCode c with Some _ => Err (infra "Failed to create user record" 500) | None => Ok (data c) end in
      if bool_decide (errorCode c = Some CONFLICT_CODE) then
        let users := between users in
        match read again addr users with
        | Err _ => (users, Err dependency)
        | Ok r => (users, match errorCode r, data r with None, Some u => Ok (Some u) | _, _ => failed end)
        end
      else (users, failed)
  end.

(** [between.1] is committed between the first look and the insert, [between.2] between the
    insert and the second look. *)
Definition findOrCreateUser (wallet : string) (looks ins again : Attempts) (between : (T → T) * (T → T)) (users : T) : T * result error (option User) :=
  if negb (isValidEd25519PublicKey wallet) then (users, Err (AppError VALIDATION_ERROR "Invalid Stellar public key" 400))
  else if negb supabaseConfigured then (users, Err (PlainError "Supabase is not configured. Set SUPABASE_URL and SUPABASE_SERVICE_ROLE_KEY to enable profile operations."))
  else
    let addr := toLowerCase wallet in
    match read looks addr users with
    | Err _ => (users, Err dependency)
    | Ok r =>
        match errorCode r with
        | None => (users, Ok (data r))
        | Some c =>
            if bool_decide (c = NOT_FOUND_CODE) then createMissing addr ins again between.2 (between.1 users)
            else (users, Err (infra "PostgreSQL query failed" 500))
        end
    end.

(** ** Profiles *)

Definition nameChar (c : ascii) : bool :=
  is_digit c || ((65 <=? code c) && (code c <=? 90)) || ((97 <=? code c) && (code c <=? 122)) || Ascii.eqb c " " || Ascii.eqb c "_" || Ascii.eqb c "-".

(** [updateProfileSchema.safeParse(input)]: the changes it makes of the body. [isUrl] is zod's
    check of an address. *)
Definition displayNameOk (s : string) : bool := (2 <=? strlen s)%nat && (strlen s <=? 32)%nat && str_forall nameChar s.
Definition optionalText (ok : string → bool) (v : jsval) : option (option string) :=
  match v with VUndefined => Some None | VStr s => if ok s then Some (Some s) else None | _ => None end.
Definition updateProfileSchema (isUrl : string → bool) (body : jsval) : option (option string * option string) :=
  match body with
  | VObj _ fs => d ← optionalText displayNameOk (lookupField "displayName" fs); a ← optionalText isUrl (lookupField "avatarUrl" fs); Some (d, a)
  | _ => None
  end.

(** A member that is absent is not written. *)
Definition setProfile (d a : option string) (u : User) : User :=
  {| address := address u; display_name := match d with Some _ => d | None => display_name u end; avatar_url := match a with Some _ => a | None => avatar_url u end |}.
Definition updateRow (addr : string) (d a : option string) (users : T) : T * Response :=
  match update addr (setProfile d a) users with
  | Some (u, users') => (users', {| data := Some u; errorCode := None |})
  | None => (users, {| data := None; errorCode := Some NOT_FOUND_CODE |})
  end.

Definition updateUser (isUrl : string → bool) (wallet : string) (input : jsval) (n : Attempts) (users : T) : T * result error (option User) :=
  if negb (isValidEd25519PublicKey wallet) then (users, Err (AppError VALIDATION_ERROR "Invalid Stellar public key" 400))
  else match updateProfileSchema isUrl input with
  | None => (users, Err (AppError VALIDATION_ERROR "Invalid profile data" 400))
  | Some (d, a) =>
      if negb supabaseConfigured then (users, Err (PlainError "Supabase is not configured. Set SUPABASE_URL and SUPABASE_SERVICE_ROLE_KEY to enable profile operations."))
      else match write n (updateRow (toLowerCase wallet) d a) users with
      | (users, Err _) => (users, Err (infra "User update failed" 503))
      | (users, Ok r) =>
          (users, match errorCode r with
                  | None => Ok (data r)
                  | Some c => if bool_decide (c = NOT_FOUND_CODE) then Err (AppError NOT_FOUND "User not found" 404) else Err (infra "Update failed" 500)
                  end)
      end
  end.

Definition getPublicProfile (wallet : string) (n : Attempts) (users : T) : result error (option User) :=
  if negb (isValidEd25519PublicKey wallet) then Err (AppError VALIDATION_ERROR "Invalid Stellar public key" 400)
  else if negb supabaseConfigured then Err (PlainError "Supabase is not configured. Set SUPABASE_URL and SUPABASE_SERVICE_ROLE_KEY to enable profile operations.")
  else match read n (toLowerCase wallet) users with
       | Err _ => Err dependency
       | Ok r =>
           match errorCode r with
           | None => Ok (data r)
           | Some c => if bool_decide (c = NOT_FOUND_CODE) then Ok None else Err (infra "Fetch failed" 500)
           end
       end.

(** ** Handlers *)

Definition unauthorized : error := AppError AUTH_ERROR "Unauthorized" 401.
Definition getMe (caller : option string) (looks ins again : Attempts) (between : (T → T) * (T → T)) (users : T) : T * result error (option User) :=
  match caller with None | Some ""%string => (users, Err unauthorized) | Some w => findOrCreateUser w looks ins again between users end.
Definition updateMe (isUrl : string → bool) (caller : option string) (body : jsval) (n : Attempts) (users : T) : T * result error (option User) :=
  match caller with None | Some ""%string => (users, Err unauthorized) | Some w => updateUser isUrl w body n users end.
Definition getUserByAddress (param : option string) (n : Attempts) (users : T) : result error User :=
  match param with
  | None | Some ""%string => Err (AppError VALIDATION_ERROR "Wallet address is required" 400)
  | Some a => r ← getPublicProfile a n users; match r with Some u => Ok u | None => Err (AppError NOT_FOUND "User not found" 404) end
  end.

(** ** Requests *)

Lemma retried_settles n m op : ∃ k, retried n m op = op k ∧ 0 ≤ k ∧ (∀ r, op 0 = Ok r → k = 0).
Proof.
  unfold retried. destruct (Retry.retryAsync_total op (clock n) (rand n) (options m) (started n)) as (k & evs & o & r & -> & Hf & [Hs _] & _).
  exists (Z.of_nat k). split; [done|]. split; [lia|]. intros r' H0. destruct k as [|k]; [done|]. cbn in Hf. destruct Hf as (e & ? & He & _). congruence.
Qed.
Lemma retried_once n op : retried n (Some 0) op = op 0.
Proof.
  unfold retried, Retry.retryAsync. cbn [options Retry.maxRetries default Z.to_nat Retry.loop]. unfold Retry.turn. cbn [options Retry.maxRetries default].
  destruct (op 0); [done|]. by destruct (negb _).
Qed.

Lemma read_cases n addr users : (∃ e, read n addr users = Err e) ∨ (∃ c, read n addr users = Ok {| data := None; errorCode := Some c |} ∧ ∃ k, fate n k = Refused c) ∨
  read n addr users = Ok (selectSingle addr users).
Proof.
  unfold read. destruct (retried_settles n None (λ k, settle (fate n k) (selectSingle addr users))) as (k & -> & _).
  destruct (fate n k) as [|c|e ap] eqn:Hk; cbn; eauto 6.
Qed.
Lemma read_answered n addr users : fate n 0 = Answered → read n addr users = Ok (selectSingle addr users).
Proof.
  intros H. unfold read. destruct (retried_settles n None (λ k, settle (fate n k) (selectSingle addr users))) as (k & -> & _ & Hk). cbv beta in *.
  rewrite H in Hk. by rewrite (Hk _ eq_refl), H.
Qed.
Lemma read_refused n addr users c : fate n 0 = Refused c → read n addr users = Ok {| data := None; errorCode := Some c |}.
Proof.
  intros H. unfold read. destruct (retried_settles n None (λ k, settle (fate n k) (selectSingle addr users))) as (k & -> & _ & Hk). cbv beta in *.
  rewrite H in Hk. by rewrite (Hk _ eq_refl), H.
Qed.

(** Reads are documented to be retried on transient failures; the codes of those the retry
    wrapper lists come as values, which it takes for results. *)
Theorem refused_read_not_retried wallet looks ins again between users c : isValidEd25519PublicKey wallet = true → supabaseConfigured = true →
  c ∈ Retry.RETRYABLE_SUPABASE_CODES → fate looks 0 = Refused c →
  findOrCreateUser wallet looks ins again between users = (users, Err (infra "PostgreSQL query failed" 500)).
Proof.
  intros Hv Hs Hc Hf. unfold findOrCreateUser. rewrite Hv, Hs. cbn [negb]. rewrite (read_refused _ _ _ c) by done. cbn [errorCode].
  by rewrite bool_decide_eq_false_2 by (intros ->; revert Hc; clear; apply (bool_decide_eq_false_1 _); vm_compute; reflexivity).
Qed.

(** ** Finding or creating *)

Section Laws.
Context `{!TableLaws string User T}.

Definition keeps (f : T → T) : Prop := ∀ k u t, findUnique k t = Some u → findUnique k (f t) = Some u.
(** What a call may do to the rows: add the one it is for. *)
Definition adds (addr : string) (t t' : T) : Prop :=
  (∀ k u, findUnique k t = Some u → findUnique k t' = Some u) ∧ ∀ k, k ≠ addr → findUnique k t' = findUnique k t.

Lemma adds_refl addr t : adds addr t t.
Proof. done. Qed.
Lemma insertUser_spec addr t : adds addr t (insertUser addr t).1 ∧
  match (insertUser addr t).2 with
  | {| data := d; errorCode := None |} => findUnique addr t = None ∧ d = Some (newUser addr) ∧ findUnique addr (insertUser addr t).1 = d
  | {| data := _; errorCode := Some c |} => c = CONFLICT_CODE ∧ is_Some (findUnique addr t)
  end.
Proof.
  unfold insertUser. destruct (create addr (newUser addr) t) as [t'|] eqn:E; cbn.
  - apply create_inv in E as (Hn & Hs & Ho). split; [|done]. split; [|done]. intros k u Hk. rewrite Ho; [done|]. intros ->. congruence.
  - apply create_None in E. split; [apply adds_refl|done].
Qed.

Lemma createMissing_spec addr ins again between t : ∃ t1, adds addr t t1 ∧
  let '(t', r) := createMissing addr ins again between t in (t' = t1 ∨ t' = between t1) ∧
  match r with Ok u => ∃ u', u = Some u' ∧ findUnique addr t' = Some u' | Err e => statusOf e ∈ [Some 500; Some 503] end ∧
  (fate ins 0 = Answered → fate again 0 = Answered → keeps between → isOk r = true).
Proof.
  unfold createMissing, write. destruct (insertUser_spec addr t) as [Ha Hi]. destruct (insertUser addr t) as [t' c]. cbn [fst snd] in *. rewrite retried_once.
  destruct (fate ins 0) as [|code|e applied]; cbn [settle takesEffect].
  - exists t'. split; [done|]. destruct c as [d [c|]]; cbn [errorCode data].
    + destruct Hi as [-> [v Hv]]. rewrite bool_decide_eq_true_2 by done.
      destruct (read_cases again addr (between t')) as [[e Hr]|[(c & Hr & k & _)|Hr]]; rewrite Hr; cbn [errorCode data].
      * split; [by right|]. split; [set_solver|]. intros _ Hf _. by rewrite read_answered in Hr.
      * split; [by right|]. split; [set_solver|]. intros _ Hf Hb. rewrite read_answered in Hr by done. injection Hr as Hr. unfold selectSingle in Hr.
        destruct Ha as [Ha _]. by rewrite (Hb _ _ _ (Ha _ _ Hv)) in Hr.
      * unfold selectSingle. destruct (findUnique addr (between t')) as [u|] eqn:Hu; cbn [errorCode data].
        -- split; [by right|]. split; [by exists u|done].
        -- split; [by right|]. split; [set_solver|]. intros _ _ Hb. destruct Ha as [Ha _]. by rewrite (Hb _ _ _ (Ha _ _ Hv)) in Hu.
    + destruct Hi as (_ & -> & Hf). rewrite bool_decide_eq_false_2 by done. split; [by left|]. split; [by eexists|done].
  - exists t. split; [apply adds_refl|]. cbn [errorCode data]. case_bool_decide as Hc.
    + destruct (read_cases again addr (between t)) as [[e Hr]|[(c' & Hr & _)|Hr]]; rewrite Hr; cbn [errorCode data].
      * split; [by right|]. split; [set_solver|done].
      * split; [by right|]. split; [set_solver|done].
      * unfold selectSingle. destruct (findUnique addr (between t)) as [u|] eqn:Hu; cbn [errorCode data]; (split; [by right|]); (split; [|done]); [by exists u|set_solver].
    + split; [by left|]. split; [set_solver|done].
  - exists (if applied then t' else t). split; [by destruct applied|]. split; [by left|]. split; [set_solver|done].
Qed.

(** Whatever fails and whoever else signs in meanwhile, finding or creating a user gives the
    row that is stored under the wallet's address, or an error with status 400, 500 or 503; it
    adds no row but that one and changes none; and when Supabase answers and no row is
    deleted meanwhile it does give the user. *)
Theorem findOrCreate_spec wallet looks ins again between users : supabaseConfigured = true → let addr := toLowerCase wallet in
  let '(users', r) := findOrCreateUser wallet looks ins again between users in
  match r with
  | Ok u => isValidEd25519PublicKey wallet = true ∧ ∃ u', u = Some u' ∧ findUnique addr users' = Some u'
  | Err e => statusOf e ∈ [Some 400; Some 500; Some 503]
  end ∧
  (keeps between.1 → keeps between.2 → ∀ k u, findUnique k users = Some u → findUnique k users' = Some u) ∧
  ((∀ t, between.1 t = t) → (∀ t, between.2 t = t) → ∀ k, k ≠ addr → findUnique k users' = findUnique k users) ∧
  (isValidEd25519PublicKey wallet = true → fate looks 0 = Answered → fate ins 0 = Answered → fate again 0 = Answered → keeps between.2 → isOk r = true).
Proof.
  intros Hs. cbv zeta. unfold findOrCreateUser. rewrite Hs. destruct (isValidEd25519PublicKey wallet) eqn:Hv; cbn [negb]; [|by split_and!; [set_solver|..]].
  destruct (read_cases looks (toLowerCase wallet) users) as [[e Hr]|[(c & Hr & k & Hk)|Hr]]; rewrite Hr; cbn [errorCode data].
  - split; [set_solver|]. split_and!; [done|done|]. intros _ Hf. by rewrite read_answered in Hr.
  - destruct (decide (c = NOT_FOUND_CODE)) as [->|Hc].
    2: { rewrite bool_decide_eq_false_2 by done. split; [set_solver|]. split_and!; [done|done|]. intros _ Hf. rewrite read_answered in Hr by done.
         unfold selectSingle in Hr. destruct (findUnique _ _); [done|]. injection Hr as <-. done. }
    rewrite bool_decide_eq_true_2 by done.
    destruct (createMissing_spec (toLowerCase wallet) ins again between.2 (between.1 users)) as (t1 & [Ha1 Ha2] & H). destruct (createMissing _ _ _ _ _) as [t' r].
    destruct H as (Ht & Hr' & Hok). split; [destruct r; [done|set_solver]|]. split_and!; [| |by auto].
    + intros H1 H2 k' u Hu. destruct Ht as [->| ->]; auto.
    + intros H1 H2 k' Hk'. rewrite H1 in *. destruct Ht as [->| ->]; [|rewrite H2]; auto.
  - unfold selectSingle. destruct (findUnique (toLowerCase wallet) users) as [u|] eqn:Hu; cbn [errorCode data].
    + split_and!; [done|by exists u|done..].
    + rewrite bool_decide_eq_true_2 by done.
      destruct (createMissing_spec (toLowerCase wallet) ins again between.2 (between.1 users)) as (t1 & [Ha1 Ha2] & H). destruct (createMissing _ _ _ _ _) as [t' r].
      destruct H as (Ht & Hr' & Hok). split; [destruct r; [done|set_solver]|]. split_and!; [| |by auto].
      * intros H1 H2 k' u Hu'. destruct Ht as [->| ->]; auto.
      * intros H1 H2 k' Hk'. rewrite H1 in *. destruct Ht as [->| ->]; [|rewrite H2]; auto.
Qed.

(** ** Updating *)

(** An update that succeeds was a body that passes the schema on an existing row, changes what
    the body names in that row alone, and is what the public profile then shows; one that
    fails leaves the rows alone, unless Supabase's answer was lost. *)
Theorem update_spec isUrl wallet body n users : supabaseConfigured = true → let '(users', r) := updateUser isUrl wallet body n users in
  match r with
  | Ok u => ∃ d a v, isValidEd25519PublicKey wallet = true ∧ updateProfileSchema isUrl body = Some (d, a) ∧
      findUnique (toLowerCase wallet) users = Some v ∧ u = Some (setProfile d a v) ∧
      (∀ k, findUnique k users' = if bool_decide (k = toLowerCase wallet) then u else findUnique k users) ∧
      ∀ m, fate m 0 = Answered → getPublicProfile wallet m users' = Ok u
  | Err e => statusOf e ∈ [Some 400; Some 404; Some 500; Some 503] ∧ (users' = users ∨ ∃ x, fate n 0 = Thrown x true)
  end.
Proof.
  intros Hs. unfold updateUser. rewrite Hs. destruct (isValidEd25519PublicKey wallet) eqn:Hv; cbn [negb]; [|split; [set_solver|by left]].
  destruct (updateProfileSchema isUrl body) as [[d a]|] eqn:Hb; [|split; [set_solver|by left]]. unfold write, updateRow.
  destruct (update (toLowerCase wallet) (setProfile d a) users) as [[u t']|] eqn:Hu; rewrite retried_once.
  - apply update_inv in Hu as (v & Hf & -> & Hf' & Ho). destruct (fate n 0) as [|c|e applied] eqn:Hn; cbn [settle takesEffect errorCode data].
    + exists d, a, v. split_and!; try done.
      * intros k. case_bool_decide as Hk; [by subst|by apply Ho].
      * intros m Hm. unfold getPublicProfile. rewrite Hv, Hs. cbn [negb]. rewrite read_answered by done. unfold selectSingle. by rewrite Hf'.
    + case_bool_decide; (split; [set_solver|by left]).
    + split; [set_solver|]. destruct applied; eauto.
  - destruct (fate n 0) as [|c|e applied]; cbn [settle takesEffect errorCode data].
    + rewrite bool_decide_eq_true_2 by done. split; [set_solver|by left].
    + case_bool_decide; (split; [set_solver|by left]).
    + split; [set_solver|]. left. by destruct applied.
Qed.
End Laws.

(** ** The caller's own profile

    Keys are written in capitals and tokens carry them in lower case. *)
Theorem own_profile_unreachable env wallet uuid v now : (∀ a, isValidEd25519PublicKey a = true → toLowerCase a ≠ a) →
  let caller := Auth.walletAddress (Auth.newPayload env wallet uuid v now) in
  (∀ looks ins again between users, ∃ e, getMe caller looks ins again between users = (users, Err e)) ∧
  (∀ isUrl body n users, ∃ e, updateMe isUrl caller body n users = (users, Err e)).
Proof.
  intros Hk. cbn [Auth.newPayload Auth.walletAddress]. cbv zeta.
  assert (isValidEd25519PublicKey (toLowerCase wallet) = false) as Hv.
  { apply not_true_iff_false. intros H. apply (Hk _ H), toLowerCase_idemp. }
  unfold getMe, updateMe, findOrCreateUser, updateUser. rewrite Hv. cbn [negb]. destruct (toLowerCase wallet); split; intros; by eexists.
Qed.
End Service.
End Users.

(** ** Samples *)

Definition calmly : Attempts := {| fate := λ _, Answered; clock := λ k, k; rand := λ _, (0, 1); started := 0 |}.
Definition refusing (c : string) : Attempts := {| fate := λ _, Refused c; clock := λ k, k; rand := λ _, (0, 1); started := 0 |}.
Definition isKey (a : string) : bool := bool_decide (a = "GA"%string).
Definition other : gmap string User := {[ "gb"%string := newUser "gb" ]}.
(** Another request creates the row between our look and our insert. *)
Definition overtaken : (gmap string User → gmap string User) * (gmap string User → gmap string User) :=
  (λ t, (insertUser "ga" t).1, λ t, t).

Lemma findOrCreate_spec_witness : (findOrCreateUser isKey true "GA" calmly calmly calmly overtaken other).2 = Ok (Some (newUser "ga")) ∧
  isOk (findOrCreateUser isKey true "GA" calmly calmly calmly overtaken other).2 = true.
Proof.
  split; [vm_compute; reflexivity|]. pose proof (findOrCreate_spec isKey true "GA" calmly calmly calmly overtaken other eq_refl) as H. cbv zeta in H.
  destruct (findOrCreateUser isKey true "GA" calmly calmly calmly overtaken other) as [t r]. destruct H as (_ & _ & _ & H). cbn [snd]. apply H; try reflexivity.
  intros k u t'. cbn. exact (λ x, x).
Defined.

Definition renamed : jsval := VObj None [("displayName"%string, VStr "Ada L")].
Lemma update_spec_witness : (updateUser isKey true (λ _, true) "GA" renamed calmly (insertUser "ga" other).1).2 = Ok (Some {| address := "ga"; display_name := Some "Ada L"%string; avatar_url := None |}) ∧
  getPublicProfile isKey true "GA" calmly (updateUser isKey true (λ _, true) "GA" renamed calmly (insertUser "ga" other).1).1 =
    (updateUser isKey true (λ _, true) "GA" renamed calmly (insertUser "ga" other).1).2.
Proof.
  split; [vm_compute; reflexivity|]. pose proof (update_spec isKey true (λ _, true) "GA" renamed calmly (insertUser "ga" other).1 eq_refl) as H.
  destruct (updateUser isKey true (λ _, true) "GA" renamed calmly (insertUser "ga" other).1) as [t r] eqn:E. cbn [fst snd]. destruct r as [u|e].
  - destruct H as (d & a & v & _ & _ & _ & _ & _ & H). apply H. reflexivity.
  - vm_compute in E. discriminate E.
Defined.

(** A database that is shutting down for a moment, and the sign-in fails at once. *)
Example shutdown_not_retried : findOrCreateUser isKey true "GA" (refusing "57P01") calmly calmly overtaken other = (other, Err (infra "PostgreSQL query failed" 500)).
Proof. apply (refused_read_not_retried isKey true "GA" _ _ _ _ _ "57P01"); [reflexivity|reflexivity|apply (bool_decide_eq_true_1 _); vm_compute; reflexivity|reflexivity]. Qed.
