(* ===== verification/Categories.v ===== *)
(** * Dispute categories: [services/disputeCategory.service.ts], [controllers/disputeCategory.controller.ts]

    The categories disputes are filed under, kept by mediators. A request body has passed its
    schema and the escaping of [validateRequest] ([RequestInput]); what other requests commit
    between a handler's look for a name and its write is an argument. The order the database
    gives names is that of its collation, an argument too. *)

From S2P Require Import Prelude JsString JsValue Prisma.
From S2P Require RequestInput Disputes Trades.

Record Category : Type := { c_id : Z; c_name : string; c_description : option string; c_isActive : bool; c_createdAt : Z; c_updatedAt : Z }.
Record DisputeCategoryData : Type := { d_name : string; d_description : option string; d_isActive : option bool }.
Record CategoryPatch : Type := { p_name : option string; p_description : option string; p_isActive : option bool }.

(** What is thrown: the service's errors, and an error of the database by its code. *)
Inductive failure : Type := DisputeCategoryNotFoundError (id : Z) | DisputeCategoryNameConflictError (name : string) | PrismaError (code : string).

Section Service.
Context {T : Type} `{!Table Z Category T} (collate : Category → Category → Z).

Definition byName (name : string) (t : T) : option Category := findFirst (λ c, bool_decide (c_name c = name)) t.

(** The writes of the database, with its column width and its unique names. *)
Definition NAME_WIDTH : nat := 100.
Definition insertRow (c : Category) (t : T) : result failure (Category * T) :=
  if (NAME_WIDTH <? strlen (c_name c))%nat then Err (PrismaError "P2000")
  else match byName (c_name c) t with
  | Some _ => Err (PrismaError "P2002")
  | None => match create (c_id c) c t with Some t' => Ok (c, t') | None => Err (PrismaError "P2002") end
  end.
Definition updateRow (id : Z) (f : Category → Category) (t : T) : result failure (Category * T) :=
  match findUnique id t with
  | None => Err (PrismaError "P2025")
  | Some c =>
      if (NAME_WIDTH <? strlen (c_name (f c)))%nat then Err (PrismaError "P2000")
      else match findFirst (λ o, bool_decide (c_name o = c_name (f c)) && negb (c_id o =? id)) t with
      | Some _ => Err (PrismaError "P2002")
      | None => match update id f t with Some r => Ok r | None => Err (PrismaError "P2025") end
      end
  end.

(** A write that fails leaves the rows as they are. *)
Definition written (r : result failure (Category * T)) (t : T) : T * result failure Category :=
  match r with Ok (c, t') => (t', Ok c) | Err e => (t, Err e) end.

Definition createCategory (data : DisputeCategoryData) (newId now : Z) (between : T → T) (t : T) : T * result failure Category :=
  let name := trim (d_name data) in
  match byName name t with
  | Some _ => (t, Err (DisputeCategoryNameConflictError name))
  | None =>
      let t := between t in
      written (insertRow {| c_id := newId; c_name := name; c_description := d_description data; c_isActive := default true (d_isActive data);
                            c_createdAt := now; c_updatedAt := now |} t) t
  end.

Definition listCategories (includeInactive : bool) (t : T) : list Category := js_sort collate (findMany (λ c, includeInactive || c_isActive c) t).

Definition getCategoryById (id : Z) (t : T) : result failure Category :=
  match findUnique id t with Some c => Ok c | None => Err (DisputeCategoryNotFoundError id) end.

Definition patched (name : option string) (data : CategoryPatch) (now : Z) (c : Category) : Category :=
  {| c_id := c_id c; c_name := default (c_name c) name; c_description := match p_description data with Some d => Some d | None => c_description c end;
     c_isActive := default (c_isActive c) (p_isActive data); c_createdAt := c_createdAt c; c_updatedAt := now |}.
Definition updateCategory (id : Z) (data : CategoryPatch) (now : Z) (between : T → T) (t : T) : T * result failure Category :=
  match findUnique id t with
  | None => (t, Err (DisputeCategoryNotFoundError id))
  | Some existing =>
      let name := trim <$> p_name data in
      let conflict := match name with
        | None | Some ""%string => None
        | Some n => if bool_decide (n = c_name existing) then None else (λ _, n) <$> byName n t
        end in
      match conflict with
      | Some n => (t, Err (DisputeCategoryNameConflictError n))
      | None => let t := between t in written (updateRow id (patched name data now) t) t
      end
  end.

Definition deactivated (now : Z) (c : Category) : Category :=
  {| c_id := c_id c; c_name := c_name c; c_description := c_description c; c_isActive := false; c_createdAt := c_createdAt c; c_updatedAt := now |}.
Definition deleteCategory (id now : Z) (between : T → T) (t : T) : T * result failure unit :=
  match findUnique id t with
  | None => (t, Err (DisputeCategoryNotFoundError id))
  | Some _ => let t := between t in let '(t, r) := written (updateRow id (deactivated now) t) t in (t, _ ← r; mret tt)
  end.

Definition validateCategoryId (categoryId : Z) (t : T) : bool := bool_decide (findFirst (λ c, (c_id c =? categoryId) && c_isActive c) t ≠ None).

(** ** Schemas *)

(** [z.string().trim().max(n)], with at least [lo] characters. *)
Definition trimmedText (lo hi : nat) (v : jsval) : option string :=
  match v with VStr s => let s := trim s in if (lo <=? strlen s)%nat && (strlen s <=? hi)%nat then Some s else None | _ => None end.
Definition optional {A} (p : jsval → option A) (v : jsval) : option (option A) := match v with VUndefined => Some None | _ => Some <$> p v end.
Definition boolean (v : jsval) : option bool := match v with VBool b => Some b | _ => None end.
Definition createCategorySchema (body : jsval) : option DisputeCategoryData :=
  match body with
  | VObj _ fs =>
      name ← trimmedText 1 100 (lookupField "name" fs);
      description ← optional (trimmedText 0 1000) (lookupField "description" fs);
      isActive ← optional boolean (lookupField "isActive" fs);
      Some {| d_name := RequestInput.sanitizeString name; d_description := RequestInput.sanitizeString <$> description; d_isActive := isActive |}
  | _ => None
  end.
Definition updateCategorySchema (body : jsval) : option CategoryPatch :=
  match body with
  | VObj _ fs =>
      name ← optional (trimmedText 1 100) (lookupField "name" fs);
      description ← optional (trimmedText 0 1000) (lookupField "description" fs);
      isActive ← optional boolean (lookupField "isActive" fs);
      Some {| p_name := RequestInput.sanitizeString <$> name; p_description := RequestInput.sanitizeString <$> description; p_isActive := isActive |}
  | _ => None
  end.

(** ** Handlers *)

Inductive Request : Type := Create (body : jsval) | List_ (includeInactive : bool) | Get (id : Z) | Patch (id : Z) (body : jsval) | Delete (id : Z).
Inductive Answer : Type := One (status : Z) (c : Category) | Items (l : list Category) | NoContent | Refused (status : Z) | Next (e : failure).

(** Status 401 without a caller, 403 for a caller who is no mediator. *)
Definition guard (admins : string) (walletAddress : option string) : option Z :=
  match trim <$> walletAddress with
  | None | Some ""%string => Some 401
  | Some caller => if Disputes.isMediatorAddress admins caller then None else Some 403
  end.
Definition answerOf (status : Z) (r : result failure Category) : Answer :=
  match r with
  | Ok c => One status c
  | Err (DisputeCategoryNotFoundError _) => Refused 404
  | Err (DisputeCategoryNameConflictError _) => Refused 409
  | Err e => Next e
  end.

Definition serve (admins : string) (walletAddress : option string) (req : Request) (newId now : Z) (between : T → T) (t : T) : T * Answer :=
  let denied := guard admins walletAddress in
  match req with
  | Create body =>
      match createCategorySchema body with
      | None => (t, Refused 400)
      | Some data => match denied with Some s => (t, Refused s) | None => let '(t, r) := createCategory data newId now between t in (t, answerOf 201 r) end
      end
  | List_ includeInactive => (t, if includeInactive && bool_decide (denied ≠ None) then Refused 403 else Items (listCategories includeInactive t))
  | Get id => (t, if id <=? 0 then Refused 400 else answerOf 200 (getCategoryById id t))
  | Patch id body =>
      if id <=? 0 then (t, Refused 400)
      else match updateCategorySchema body with
      | None => (t, Refused 400)
      | Some data => match denied with Some s => (t, Refused s) | None => let '(t, r) := updateCategory id data now between t in (t, answerOf 200 r) end
      end
  | Delete id =>
      if id <=? 0 then (t, Refused 400)
      else match denied with
           | Some s => (t, Refused s)
           | None => let '(t, r) := deleteCategory id now between t in
                     (t, match r with Ok _ => NoContent | Err (DisputeCategoryNotFoundError _) => Refused 404 | Err e => Next e end)
           end
  end.

(** Requests that follow each other. *)
Record Call : Type := { by_ : option string; request : Request; fresh : Z; at_ : Z }.
Definition serveAll (admins : string) (calls : list Call) (t : T) : T := foldl (λ t c, (serve admins (by_ c) (request c) (fresh c) (at_ c) id t).1) t calls.

(** ** Blank texts *)

Definition blank (s : string) : bool := str_forall is_space s.
Lemma blank_trimStart s : blank (trimStart s) = blank s.
Proof. induction s as [|c s IH]; [done|]. cbn. destruct (is_space c) eqn:E; [exact IH|]. unfold blank. cbn. by rewrite E. Qed.
Lemma blank_trimEnd s : blank (trimEnd s) = blank s.
Proof.
  induction s as [|c s IH]; [done|]. unfold blank in *. cbn [trimEnd]. destruct (trimEnd s) as [|d r]; cbn [str_forall] in *.
  - rewrite <-IH. destruct (is_space c) eqn:E; cbn; by rewrite ?E.
  - by rewrite <-IH.
Qed.
Lemma blank_trim s : blank (trim s) = blank s.
Proof. unfold trim. by rewrite blank_trimEnd, blank_trimStart. Qed.
Lemma trim_blank s : blank s = false → trim s ≠ ""%string.
Proof. intros H E. rewrite <-blank_trim, E in H. done. Qed.
Lemma blank_trim_empty s : blank s = true → trim s = ""%string.
Proof. unfold trim. intros H. assert (trimStart s = ""%string) as ->; [|done]. revert H. induction s as [|c s IH]; [done|]. unfold blank. cbn. destruct (is_space c); [exact IH|done]. Qed.
Lemma blank_escapeText s : blank (RequestInput.escapeText s) = blank s.
Proof.
  induction s as [|c s IH]; [done|]. unfold blank in *. cbn [RequestInput.escapeText str_forall]. rewrite str_forall_app, IH. f_equal. unfold RequestInput.entity.
  destruct (Ascii.eqb_spec c "&") as [->|]; [done|]. destruct (Ascii.eqb_spec c "<") as [->|]; [done|]. destruct (Ascii.eqb_spec c ">") as [->|]; [done|].
  destruct (Ascii.eqb_spec c RequestInput.QUOTE) as [->|]; [done|]. destruct (Ascii.eqb_spec c "'") as [->|]; [done|]. cbn. by rewrite andb_true_r.
Qed.
(** A text that is not blank is stored as one that is not. *)
Lemma stored_nonempty s : trim s ≠ ""%string → trim (RequestInput.sanitizeString (trim s)) ≠ ""%string.
Proof.
  intros H. apply trim_blank. rewrite RequestInput.sanitizeString_escapes, blank_escapeText, !blank_trim. apply not_true_iff_false. intros Hb. by apply blank_trim_empty in Hb.
Qed.

(** ** What the rows keep *)

Section Laws.
Context `{!TableLaws Z Category T}.

Definition named (c : Category) : Prop := c_name c ≠ ""%string ∧ (strlen (c_name c) ≤ NAME_WIDTH)%nat.
Record wf (t : T) : Prop := {
  wf_keyed : keyed c_id t;
  wf_unique k k' c c' : findUnique k t = Some c → findUnique k' t = Some c' → c_name c = c_name c' → k = k';
  wf_named k c : findUnique k t = Some c → named c }.
(** Rows are not removed, nor their creation changed. *)
Definition later (t t' : T) : Prop := ∀ k c, findUnique k t = Some c → ∃ c', findUnique k t' = Some c' ∧ c_createdAt c' = c_createdAt c.
Definition orderly (between : T → T) : Prop := ∀ t, wf t → wf (between t) ∧ later t (between t).

Lemma later_refl t : later t t.
Proof. intros k c H. by exists c. Qed.
Lemma later_trans t t' t'' : later t t' → later t' t'' → later t t''.
Proof. intros H1 H2 k c Hk. destruct (H1 _ _ Hk) as (c' & Hk' & E). destruct (H2 _ _ Hk') as (c'' & ? & ?). exists c''. split; [done|congruence]. Qed.

Lemma byName_None n t : byName n t = None ↔ ∀ k c, findUnique k t = Some c → c_name c ≠ n.
Proof.
  unfold byName. rewrite findFirst_None. split; intros H k c Hk; specialize (H k c Hk); cbv beta in *; [by apply bool_decide_eq_false in H|by apply bool_decide_eq_false].
Qed.

Lemma insertRow_Ok c t c' t' : insertRow c t = Ok (c', t') → c' = c ∧ (strlen (c_name c) ≤ NAME_WIDTH)%nat ∧ byName (c_name c) t = None ∧
  findUnique (c_id c) t = None ∧ findUnique (c_id c) t' = Some c ∧ ∀ k, k ≠ c_id c → findUnique k t' = findUnique k t.
Proof.
  unfold insertRow. destruct (Nat.ltb_spec NAME_WIDTH (strlen (c_name c))); [done|]. destruct (byName _ _); [done|].
  destruct (create (c_id c) c t) as [t1|] eqn:E; [|done]. intros [= <- <-]. apply create_inv in E as (? & ? & ?). by split_and!.
Qed.
Lemma updateRow_Ok id f t c t' : updateRow id f t = Ok (c, t') → ∃ c0, findUnique id t = Some c0 ∧ c = f c0 ∧ (strlen (c_name c) ≤ NAME_WIDTH)%nat ∧
  (∀ k o, findUnique k t = Some o → c_name o = c_name c → c_id o = id) ∧ findUnique id t' = Some c ∧ ∀ k, k ≠ id → findUnique k t' = findUnique k t.
Proof.
  unfold updateRow. destruct (findUnique id t) as [c0|] eqn:H0; [|done]. destruct (Nat.ltb_spec NAME_WIDTH (strlen (c_name (f c0)))); [done|].
  destruct (findFirst _ t) as [|] eqn:Hf; [done|]. destruct (update id f t) as [[u t1]|] eqn:E; [|done]. intros [= -> <-].
  apply update_inv in E as (v & Hv & -> & Hs & Ho). rewrite H0 in Hv. injection Hv as <-. exists c0. split_and!; try done.
  intros k o Hk Hn. apply (proj1 (findFirst_None _ _)) with (k := k) (v := o) in Hf; [|done]. cbv beta in Hf. rewrite bool_decide_eq_true_2 in Hf by done.
  cbn in Hf. apply negb_false_iff, Z.eqb_eq in Hf. done.
Qed.

Lemma insertRow_wf c t c' t' : wf t → c_name c ≠ ""%string → insertRow c t = Ok (c', t') → wf t' ∧ later t t' ∧ findUnique (c_id c') t' = Some c'.
Proof.
  intros [Hk Hu Hn] Hne (-> & Hw & Hf & Hnone & Hs & Ho)%insertRow_Ok. rewrite byName_None in Hf.
  assert (∀ k o, findUnique k t' = Some o → k = c_id c ∧ o = c ∨ k ≠ c_id c ∧ findUnique k t = Some o) as Hc.
  { intros k o H. destruct (decide (k = c_id c)) as [->|Hne']; [left; split; congruence|right]. by rewrite <-Ho. }
  split_and!; [split| |done].
  - intros k o [[-> ->]|[_ H]]%Hc; [done|by apply Hk].
  - intros k k' o o' [[-> ->]|[Hk1 H1]]%Hc [[-> ->]|[Hk2 H2]]%Hc E; [done|by destruct (Hf _ _ H2)|by destruct (Hf _ _ H1)|by eapply Hu].
  - intros k o [[-> ->]|[_ H]]%Hc; [by split|by eapply Hn].
  - intros k o H. exists o. rewrite Ho; [done|]. intros ->. congruence.
Qed.
Lemma updateRow_wf id f t c t' : wf t → (∀ o, findUnique id t = Some o → c_id (f o) = c_id o ∧ c_createdAt (f o) = c_createdAt o ∧ c_name (f o) ≠ ""%string) →
  updateRow id f t = Ok (c, t') → wf t' ∧ later t t' ∧ findUnique (c_id c) t' = Some c.
Proof.
  intros [Hk Hu Hn] Hf (c0 & H0 & -> & Hw & Hfree & Hs & Ho)%updateRow_Ok. destruct (Hf c0 H0) as (Hid & Hat & Hne). pose proof (Hk _ _ H0) as E0.
  assert (∀ k o, findUnique k t' = Some o → k = id ∧ o = f c0 ∨ k ≠ id ∧ findUnique k t = Some o) as Hc.
  { intros k o H. destruct (decide (k = id)) as [->|Hne']; [left; split; congruence|right]. by rewrite <-Ho. }
  split_and!; [split| |].
  - intros k o [[-> ->]|[_ H]]%Hc; [congruence|by apply Hk].
  - intros k k' o o' [[-> ->]|[Hk1 H1]]%Hc [[-> ->]|[Hk2 H2]]%Hc E; [done| | |by eapply Hu].
    + pose proof (Hfree _ _ H2 (eq_sym E)). pose proof (Hk _ _ H2). congruence.
    + pose proof (Hfree _ _ H1 E). pose proof (Hk _ _ H1). congruence.
  - intros k o [[-> ->]|[_ H]]%Hc; [by split|by eapply Hn].
  - intros k o H. destruct (decide (k = id)) as [->|Hne']; [exists (f c0); split; [done|congruence]|]. exists o. by rewrite Ho.
  - rewrite Hid, E0. done.
Qed.

Lemma trimmedText_Some lo hi v n : trimmedText lo hi v = Some n → ∃ s, v = VStr s ∧ n = trim s ∧ (lo ≤ strlen n ≤ hi)%nat.
Proof.
  destruct v as [| | | | |s|]; try done. cbn. destruct (Nat.leb_spec lo (strlen (trim s))); [|done]. destruct (Nat.leb_spec (strlen (trim s)) hi); [|done].
  intros [= <-]. by exists s.
Qed.
Lemma text_nonempty lo hi v n : (0 < lo)%nat → trimmedText lo hi v = Some n → trim (RequestInput.sanitizeString n) ≠ ""%string.
Proof. intros Hl (s & _ & -> & H)%trimmedText_Some. apply stored_nonempty. intros E. rewrite E in H. cbn in H. lia. Qed.
Lemma createSchema_name body d : createCategorySchema body = Some d → trim (d_name d) ≠ ""%string.
Proof.
  destruct body as [| | | | | |m fs]; try done. unfold createCategorySchema. intros H. apply bind_Some in H as (n & E & H).
  apply bind_Some in H as (x & _ & H). apply bind_Some in H as (y & _ & [= <-]). apply (text_nonempty 1 100 (lookupField "name" fs)); [lia|done].
Qed.
Lemma optional_Some {A} (p : jsval → option A) v x : optional p v = Some (Some x) → p v = Some x.
Proof. unfold optional. destruct v; try done; intros H; apply fmap_Some in H as (y & -> & [= ->]); done. Qed.
Lemma updateSchema_name body d n : updateCategorySchema body = Some d → p_name d = Some n → trim n ≠ ""%string.
Proof.
  destruct body as [| | | | | |m fs]; try done. unfold updateCategorySchema. intros H. apply bind_Some in H as (o & E & H).
  apply bind_Some in H as (x & _ & H). apply bind_Some in H as (y & _ & [= <-]). cbn [p_name]. intros H. apply fmap_Some in H as (z & -> & ->).
  apply (text_nonempty 1 100 (lookupField "name" fs)); [lia|]. by apply optional_Some.
Qed.

Definition good (t : T) (p : T * result failure Category) : Prop :=
  wf p.1 ∧ later t p.1 ∧ ∀ c, p.2 = Ok c → findUnique (c_id c) p.1 = Some c.
Lemma written_good t t1 r : wf t → later t1 t → (∀ c t', r = Ok (c, t') → wf t' ∧ later t t' ∧ findUnique (c_id c) t' = Some c) → good t1 (written r t).
Proof.
  intros Hw Hl Hr. unfold written, good. destruct r as [[c t']|e]; cbn; [|done]. destruct (Hr c t' eq_refl) as (H1 & H2 & H3).
  split_and!; [done|by eapply later_trans|]. by intros ? [= <-].
Qed.
Lemma refused_good t e : wf t → good t (t, Err e).
Proof. intros. split_and!; [done|apply later_refl|done]. Qed.

Lemma createCategory_good d newId now between t : wf t → orderly between → trim (d_name d) ≠ ""%string → good t (createCategory d newId now between t).
Proof.
  intros Hw Hb Hn. unfold createCategory. destruct (byName _ _); [by apply refused_good|]. destruct (Hb t Hw) as [Hw' Hl].
  apply written_good; [done|done|]. intros c t' H. by eapply insertRow_wf; [| |exact H].
Qed.
Lemma updateCategory_good id d now between t : wf t → orderly between → (∀ n, p_name d = Some n → trim n ≠ ""%string) → good t (updateCategory id d now between t).
Proof.
  intros Hw Hb Hn. unfold updateCategory. destruct (findUnique id t) as [c|]; [|by apply refused_good].
  match goal with |- good _ (match ?e with _ => _ end) => destruct e; [by apply refused_good|] end. destruct (Hb t Hw) as [Hw' Hl].
  apply written_good; [done|done|]. intros c' t' H. eapply updateRow_wf; [done| |exact H]. intros o Ho. split_and!; [done|done|]. cbn.
  destruct (p_name d) as [n|]; cbn; [by apply Hn|]. by destruct (wf_named _ Hw' _ _ Ho).
Qed.
Lemma deleteCategory_good id now between t : wf t → orderly between → wf (deleteCategory id now between t).1 ∧ later t (deleteCategory id now between t).1.
Proof.
  intros Hw Hb. unfold deleteCategory. destruct (findUnique id t) as [c|]; [|by split; [|apply later_refl]]. destruct (Hb t Hw) as [Hw' Hl].
  assert (good t (written (updateRow id (deactivated now) (between t)) (between t))) as Hg.
  { apply written_good; [done|done|]. intros c' t' H. eapply updateRow_wf; [done| |exact H]. intros o Ho. split_and!; [done|done|]. by destruct (wf_named _ Hw' _ _ Ho). }
  destruct (written _ _) as [t' r]. by destruct Hg as (? & ? & _).
Qed.

(** Whoever asks for what, and whatever other orderly writers do between a look for a name and
    the write, names stay distinct, non-empty and within their column, no category is ever
    removed or re-dated, and what is answered is the stored row; a caller who is no mediator
    changes nothing and is listed active categories only. *)
Theorem categories_kept admins w req newId now between t : wf t → orderly between →
  let '(t', a) := serve admins w req newId now between t in
  wf t' ∧ later t t' ∧ (∀ s c, a = One s c → findUnique (c_id c) t' = Some c) ∧
  (guard admins w ≠ None → t' = t ∧ a ≠ NoContent ∧ (∀ c, a ≠ One 201 c) ∧ ∀ l, a = Items l → ∀ c, c ∈ l ↔ (∃ k, findUnique k t = Some c) ∧ c_isActive c = true).
Proof.
  intros Hw Hb. pose proof (later_refl t) as Hl.
  assert (∀ s r s' c, answerOf s r = One s' c → r = Ok c ∧ s' = s) as Ha by (intros s [c|[]]; cbn; naive_solver).
  destruct req as [body|incl|id|id body|id]; cbn [serve].
  - destruct (createCategorySchema body) as [d|] eqn:Hd; [|split_and!; try done]. destruct (guard admins w) as [s|] eqn:Hg; [split_and!; try done|].
    pose proof (createCategory_good d newId now between t Hw Hb (createSchema_name _ _ Hd)) as (H1 & H2 & H3). destruct (createCategory _ _ _ _ _) as [t' r].
    split_and!; try done. intros s c [-> _]%Ha. by apply H3.
  - split_and!; try done.
    + intros s c. by destruct (_ && _).
    + intros Hg. split_and!; try done; [by destruct (_ && _)|by intros c; destruct (_ && _)|]. intros l. rewrite (bool_decide_eq_true_2 (guard admins w ≠ None)) by done.
      rewrite andb_true_r. destruct incl; [done|]. intros [= <-] c. unfold listCategories. rewrite js_sort_elem, (findMany_elem (K := Z)). cbn [orb]. naive_solver.
  - split_and!; try done.
    + intros s c. destruct (id <=? 0); [done|]. intros [H _]%Ha. unfold getCategoryById in H. destruct (findUnique id t) as [c'|] eqn:E; [|done]. injection H as ->.
      by rewrite (wf_keyed _ Hw _ _ E).
    + intros Hg. split_and!; try done; destruct (id <=? 0); try done; unfold getCategoryById; destruct (findUnique id t); done.
  - destruct (id <=? 0); [split_and!; try done|]. destruct (updateCategorySchema body) as [d|] eqn:Hd; [|split_and!; try done].
    destruct (guard admins w) as [s|] eqn:Hg; [split_and!; try done|].
    pose proof (updateCategory_good id d now between t Hw Hb (λ n, updateSchema_name _ _ n Hd)) as (H1 & H2 & H3). destruct (updateCategory _ _ _ _ _) as [t' r].
    split_and!; try done. intros s c [-> _]%Ha. by apply H3.
  - destruct (id <=? 0); [split_and!; try done|]. destruct (guard admins w) as [s|] eqn:Hg; [split_and!; try done|].
    pose proof (deleteCategory_good id now between t Hw Hb) as [H1 H2]. destruct (deleteCategory _ _ _ _) as [t' r].
    split_and!; try done. intros s c. by destruct r as [|[]].
Qed.

(** Over any sequence of requests. *)
Theorem categories_kept_always admins calls t : wf t → wf (serveAll admins calls t) ∧ later t (serveAll admins calls t).
Proof.
  revert t. induction calls as [|c calls IH]; intros t Hw; [split; [done|apply later_refl]|]. cbn [serveAll foldl].
  pose proof (categories_kept admins (by_ c) (request c) (fresh c) (at_ c) id t Hw (λ t Hw, conj Hw (later_refl t))) as H.
  destruct (serve _ _ _ _ _ _ _) as [t' a]. destruct H as (Hw' & Hl & _). destruct (IH t' Hw') as [H1 H2]. split; [done|by eapply later_trans].
Qed.

(** ** Creating, and filing a dispute under the new name *)

(** A mediator's well-formed category is stored under its trimmed and escaped text, unless a
    category, active or not, has that name, or the escaped text is too long for its column. *)
Theorem create_spec admins w body newId now t : wf t → guard admins w = None → findUnique newId t = None →
  let '(t', a) := serve admins w (Create body) newId now id t in
  match createCategorySchema body with
  | None => a = Refused 400 ∧ t' = t
  | Some d =>
      (a = Refused 409 ∧ t' = t ∧ ∃ k c, findUnique k t = Some c ∧ c_name c = trim (d_name d)) ∨
      ((∀ k c, findUnique k t = Some c → c_name c ≠ trim (d_name d)) ∧
       ((a = Next (PrismaError "P2000") ∧ t' = t ∧ (NAME_WIDTH < strlen (trim (d_name d)))%nat) ∨
        ((strlen (trim (d_name d)) ≤ NAME_WIDTH)%nat ∧ ∃ c, a = One 201 c ∧ c_id c = newId ∧ c_name c = trim (d_name d) ∧ c_isActive c = default true (d_isActive d) ∧
          findUnique newId t' = Some c ∧ ∀ k, k ≠ newId → findUnique k t' = findUnique k t)))
  end.
Proof.
  intros Hw Hg Hf. cbn [serve]. destruct (createCategorySchema body) as [d|]; [|done]. rewrite Hg. unfold createCategory. cbv zeta.
  destruct (byName (trim (d_name d)) t) as [c|] eqn:Hn.
  - cbn [answerOf]. left. split_and!; [done|done|]. unfold byName in Hn. apply findFirst_Some in Hn as (k & Hk & Hn). apply bool_decide_eq_true in Hn. eauto.
  - rewrite byName_None in Hn. change (id t) with t. unfold insertRow. cbn [c_name c_id].
    destruct (Nat.ltb_spec NAME_WIDTH (strlen (trim (d_name d)))) as [Hl|Hl]; [cbn; right; by auto|].
    rewrite (proj2 (byName_None _ _) Hn).
    match goal with |- context [create newId ?row t] => destruct (create_free newId row t Hf) as (t' & -> & Hs & Ho) end. cbn. right. split; [done|]. right. split; [done|]. eexists. by split_and!.
Qed.

(** The text a dispute names its category by, through the same trimming and escaping. *)
Definition disputeText (v : jsval) : option string := RequestInput.sanitizeString <$> trimmedText 1 100 v.
Definition asTrades (c : Category) : Trades.DisputeCategory := {| Trades.cat_id := c_id c; Trades.cat_name := c_name c; Trades.cat_isActive := c_isActive c |}.

(** A dispute that gives the name a category was created with, or its id, is filed under it
    while it is active. *)
Theorem created_category_resolves {TC} `{!Table Z Trades.DisputeCategory TC, !TableLaws Z Trades.DisputeCategory TC}
    admins w m fs newId now t t' c (tc : TC) : wf t → serve admins w (Create (VObj m fs)) newId now id t = (t', One 201 c) →
  (∀ k, findUnique k tc = asTrades <$> findUnique k t') → c_isActive c = true →
  ∃ text, disputeText (lookupField "name" fs) = Some text ∧ Trades.resolveDisputeCategoryId tc text None = Ok (c_id c) ∧
    Trades.resolveDisputeCategoryId tc text (Some (c_id c)) = Ok (c_id c).
Proof.
  intros Hw Hs Htc Hact. pose proof (categories_kept admins w (Create (VObj m fs)) newId now id t Hw (λ t Hw, conj Hw (later_refl t))) as Hk.
  rewrite Hs in Hk. destruct Hk as (Hw' & _ & Hc & _). specialize (Hc 201 c eq_refl).
  assert (∃ n, trimmedText 1 100 (lookupField "name" fs) = Some n ∧ c_name c = trim (RequestInput.sanitizeString n)) as (n & Hn & Hname).
  { cbn [serve] in Hs. destruct (createCategorySchema (VObj m fs)) as [d|] eqn:Hd; [|done]. destruct (guard admins w); [done|].
    unfold createCategorySchema in Hd. apply bind_Some in Hd as (n & E & Hd). apply bind_Some in Hd as (x & _ & Hd). apply bind_Some in Hd as (y & _ & [= <-]).
    exists n. split; [done|]. unfold createCategory in Hs. destruct (byName _ t); [done|]. cbv zeta in Hs.
    destruct (insertRow _ _) as [[c' t1]|[]] eqn:E1; cbn in Hs; try done. apply insertRow_Ok in E1 as (-> & _). by injection Hs as _ <-. }
  exists (RequestInput.sanitizeString n). unfold disputeText. rewrite Hn. split; [done|].
  assert (findUnique (c_id c) tc = Some (asTrades c)) as Hrow by (rewrite Htc, Hc; done).
  assert (∀ k r, findUnique k tc = Some r → ∃ o, findUnique k t' = Some o ∧ r = asTrades o) as Hin.
  { intros k r H. rewrite Htc in H. apply fmap_Some in H as (o & ? & ->). eauto. }
  unfold Trades.resolveDisputeCategoryId, Trades.seqb. cbv zeta. rewrite <-Hname. destruct (wf_named _ Hw' _ _ Hc) as [Hne _]. split.
  - rewrite bool_decide_eq_false_2 by done. destruct (findFirst _ tc) as [r|] eqn:Ef.
    + apply findFirst_Some in Ef as (k & Hk & Hp). apply Hin in Hk as (o & Ho & ->). cbn in Hp |- *. apply andb_true_iff in Hp as [Hp _]. apply bool_decide_eq_true in Hp.
      pose proof (wf_unique _ Hw' _ _ _ _ Ho Hc Hp) as ->. by rewrite (wf_keyed _ Hw' _ _ Ho).
    + exfalso. rewrite findFirst_None in Ef. specialize (Ef _ _ Hrow). cbn in Ef. rewrite Hact in Ef. by rewrite bool_decide_eq_true_2 in Ef.
  - destruct (findFirst _ tc) as [r|] eqn:Ef.
    + apply findFirst_Some in Ef as (k & _ & Hp). cbn in Hp. apply andb_true_iff in Hp as [Hp _]. by apply Z.eqb_eq in Hp as ->.
    + exfalso. rewrite findFirst_None in Ef. specialize (Ef _ _ Hrow). cbn in Ef. by rewrite Hact, Z.eqb_refl in Ef.
Qed.
End Laws.
End Service.

(** ** Samples *)

Definition ADMINS : string := "GM".
Definition byText (x y : Category) : Z := strCmp (c_name x) (c_name y).
Definition goods (name : string) : jsval := VObj None [("name"%string, VStr name)].
Definition start : gmap Z Category := ∅.
Definition ask (req : Request) (newId : Z) (t : gmap Z Category) : gmap Z Category * Answer := serve byText ADMINS (Some "GM"%string) req newId 5 id t.
Definition stored : gmap Z Category := (ask (Create (goods " Goods & Services ")) 1 start).1.

Lemma start_wf : wf start.
Proof. split; [intros k c H|intros k k' c c' H|intros k c H]; cbn in H; discriminate H. Qed.
Lemma stored_wf : wf stored.
Proof.
  pose proof (categories_kept byText ADMINS (Some "GM"%string) (Create (goods " Goods & Services ")) 1 5 id start start_wf (λ t Hw, conj Hw (later_refl t))) as H.
  unfold stored, ask. destruct (serve _ _ _ _ _ _ _ _) as [t a]. by destruct H.
Qed.

Lemma categories_kept_witness : wf stored ∧ (ask (Create (goods "Goods &amp; Services")) 2 stored).2 ≠ NoContent ∧ ∃ c, findUnique (K := Z) 1 stored = Some c ∧ c_name c = "Goods &amp; Services"%string.
Proof.
  pose proof (categories_kept byText ADMINS (Some "GM"%string) (Create (goods " Goods & Services ")) 1 5 id start start_wf (λ t Hw, conj Hw (later_refl t))) as H.
  split; [unfold stored, ask; destruct (serve _ _ _ _ _ _ _ _) as [t a]; by destruct H|]. split; [vm_compute; discriminate|]. eexists. split; vm_compute; reflexivity.
Defined.

Lemma create_spec_witness : ∃ c, (ask (Create (goods " Goods & Services ")) 1 start).2 = One 201 c ∧ c_id c = 1.
Proof.
  pose proof (create_spec byText ADMINS (Some "GM"%string) (goods " Goods & Services ") 1 5 start start_wf eq_refl eq_refl) as H. unfold ask.
  destruct (serve _ _ _ _ _ _ _ _) as [t a] eqn:E. cbn [snd]. destruct (createCategorySchema (goods " Goods & Services ")) as [d|] eqn:Ed; [|vm_compute in Ed; discriminate Ed].
  destruct H as [(_ & _ & k & c & Hk & _)|(_ & [(_ & _ & Hl)|(_ & c & -> & Hc & _)])]; [discriminate Hk| |by exists c].
  vm_compute in Ed. injection Ed as <-. apply Nat.ltb_lt in Hl. vm_compute in Hl. discriminate Hl.
Defined.

Definition tradesRows (t : gmap Z Category) : gmap Z Trades.DisputeCategory := asTrades <$> t.
Lemma created_category_resolves_witness : Trades.resolveDisputeCategoryId (tradesRows stored) "Goods &amp; Services" None = Ok 1.
Proof.
  destruct (ask (Create (goods " Goods & Services ")) 1 start) as [t' a] eqn:E. destruct a as [s c| | | |]; try (vm_compute in E; discriminate E).
  assert (s = 201 ∧ c_isActive c = true ∧ c_id c = 1) as (-> & Ha & Hi) by (vm_compute in E; injection E as _ <- <-; done).
  assert (stored = t') as Et by (unfold stored; by rewrite E).
  destruct (created_category_resolves byText ADMINS (Some "GM"%string) None [("name"%string, VStr " Goods & Services ")] 1 5 start t' c (tradesRows t')) as (text & Ht & Hr & _).
  - exact start_wf.
  - exact E.
  - intros k. cbn. apply lookup_fmap.
  - exact Ha.
  - rewrite Et, <-Hi, <-Hr. f_equal. vm_compute in Ht. by injection Ht as <-.
Defined.

(** The listing shows the escaped name, and a dispute that names it so is refused: it is
    escaped once more. *)
Example listed_name_refused : match (ask (List_ false) 9 stored).2 with
  | Items [c] => c_name c = "Goods &amp; Services"%string ∧ disputeText (VStr (c_name c)) = Some "Goods &amp;amp; Services"%string ∧
      Trades.resolveDisputeCategoryId (tradesRows stored) "Goods &amp;amp; Services" None = Err (Trades.DisputeCategoryValidationError "Goods &amp;amp; Services")
  | _ => False end.
Proof. vm_compute. done. Qed.

(** A name the schema admits, too long once it is escaped. *)
Fixpoint times (n : nat) (s : string) : string := match n with O => "" | S n => s +:+ times n s end.
Example escaped_too_long : (ask (Create (goods (times 50 "&a"))) 1 start).2 = Next (PrismaError "P2000").
Proof. vm_compute. reflexivity. Qed.

(** A deleted category keeps its name; it can only be activated again. *)
Example deleted_name_taken : let t := (ask (Delete 1) 9 stored).1 in (ask (Create (goods "Goods & Services")) 2 t).2 = Refused 409 ∧
  validateCategoryId 1 t = false ∧ match (ask (Patch 1 (VObj None [("isActive"%string, VBool true)])) 9 t).2 with One 200 c => c_isActive c = true | _ => False end.
Proof. vm_compute. done. Qed.

(** Two requests that look for a name at the same time: the second one's insert fails, and that
    error is passed on instead of the conflict. *)
Example racing_names : (serve byText ADMINS (Some "GM"%string) (Create (goods "Fraud")) 2 5 (λ t, (ask (Create (goods "Fraud")) 1 t).1) start).2 = Next (PrismaError "P2002").
Proof. vm_compute. reflexivity. Qed.
