(* ===== verification/Quotes.v ===== *)
(** * Quotes: [services/quoteCache.service.ts], [services/pathPayment.service.ts], [routes/wallet.routes.ts]

    Conversion routes to USDC, asked of Horizon through a circuit breaker and kept in Redis
    for a short time. Redis is a [Kv] over the cached entries; [up] says whether a round trip
    to it succeeds, and [cacheGet] and [cacheSet] take a failure for a miss. The Stellar SDK
    and Horizon are arguments. An instant is written as ISO text and read back
    ([Dates.ISO_roundtrip]), so entries keep it as a number. *)

From S2P Require Import Prelude JsString JsonText Effects.
From S2P Require CircuitBreaker.

Record PathQuote : Type := {
  source_amount : string; source_asset_type : string; source_asset_code : string;
  destination_amount : string; destination_asset_type : string; destination_asset_code : string; path : list Doc }.
Record QuoteRequest : Type := { sourceAmount : string; sourceAssetCode : string; sourceAssetIssuer : option string }.
Record CachedQuote : Type := { cq_request : QuoteRequest; quotes : list PathQuote; quotedAt : Z; freshnessMs : Z }.

Definition CACHE_KEY_PREFIX : string := "quote:path:".
Definition issuerText (request : QuoteRequest) : string := default "default"%string (sourceAssetIssuer request).
Definition cacheKey (request : QuoteRequest) : string :=
  CACHE_KEY_PREFIX +:+ sourceAssetCode request +:+ ":" +:+ issuerText request +:+ ":" +:+ sourceAmount request.

(** ** Slippage *)

Definition bigInt (s : string) : result string Z :=
  match BigInt_string s with Some z => Ok z | None => Err ("Cannot convert " +:+ s +:+ " to a BigInt")%string end.
Definition isQuoteWithinSlippage (cached : CachedQuote) (freshDestinationAmount : string) (maxSlippageBps : Z) : result string bool :=
  match quotes cached with
  | [] => Ok false
  | q :: _ =>
      cachedDest ← bigInt (destination_amount q);
      freshDest ← bigInt freshDestinationAmount;
      mret (if freshDest =? 0 then false
            else let deviation := (if freshDest <? cachedDest then cachedDest - freshDest else freshDest - cachedDest) * 10000 in
                 Z.quot deviation freshDest <=? maxSlippageBps)
  end.

(** ** The cache *)

Section Cache.
Context {R : Type} `{!Kv CachedQuote R} (ttlSeconds : Z).

Definition getCachedQuote (up : bool) (request : QuoteRequest) (now : Z) (r : R) : option CachedQuote :=
  match (if up then kvGet (cacheKey request) now r else None) with
  | None => None
  | Some cached =>
      let ageMs := now - quotedAt cached in
      if ttlSeconds * 1000 <? ageMs then None
      else Some {| cq_request := cq_request cached; quotes := quotes cached; quotedAt := quotedAt cached; freshnessMs := ageMs |}
  end.
Definition setCachedQuote (up : bool) (request : QuoteRequest) (qs : list PathQuote) (now : Z) (r : R) : R :=
  if up then kvSet (cacheKey request) {| cq_request := request; quotes := qs; quotedAt := now; freshnessMs := 0 |} ttlSeconds now r else r.
Definition invalidateQuoteCache (up : bool) (request : QuoteRequest) (r : R) : R := if up then kvDel (V := CachedQuote) (cacheKey request) r else r.

(** ** Asking Horizon *)

Inductive Asset : Type := NativeAsset | IssuedAsset (code issuer : string).
Record PathPaymentQuoteResult : Type := { r_quotes : list PathQuote; cached : bool; r_freshnessMs : Z; r_quotedAt : Z }.

Definition DEFAULT_ISSUER : string := "GASIVS63V6PAKAMW3ZYEX2RNNB3Q4UMRKDIQHNMH3LRNTSWVHXMTANKE".

(** What the SDK and Horizon do: whether [new Asset] takes a code and an issuer, and what the
    routes for an amount are, after the retries. *)
Context (validAsset : string → string → bool) (strictSendPaths : Asset → string → result unit (list PathQuote)).

Definition newAsset (code issuer : string) : result unit Asset := if validAsset code issuer then Ok (IssuedAsset code issuer) else Err tt.
Definition orDefault (issuer : option string) : string := match issuer with None | Some ""%string => DEFAULT_ISSUER | Some i => i end.
Definition sourceAsset (request : QuoteRequest) : result unit Asset :=
  if bool_decide (sourceAssetCode request = "XLM"%string) || bool_decide (sourceAssetCode request = "native"%string) then Ok NativeAsset
  else newAsset (sourceAssetCode request) (orDefault (sourceAssetIssuer request)).

(** One visit: when the cache is asked, when Horizon has answered, and whether the cache can be
    read and written. *)
Record Visit : Type := { upGet : bool; upSet : bool; startedAt : Z; answeredAt : Z }.

Definition getPathPaymentQuote (request : QuoteRequest) (v : Visit) (cb : CircuitBreaker.Breaker.CircuitBreaker) (r : R) :
    CircuitBreaker.Breaker.CircuitBreaker * R * result string PathPaymentQuoteResult :=
  match getCachedQuote (upGet v) request (startedAt v) r with
  | Some c => (cb, r, Ok {| r_quotes := quotes c; cached := true; r_freshnessMs := freshnessMs c; r_quotedAt := quotedAt c |})
  | None =>
      match sourceAsset request with
      | Err _ => (cb, r, Err "Failed to fetch path payment quotes"%string)
      | Ok asset =>
          match CircuitBreaker.Breaker.call (CircuitBreaker.Breaker.alone (λ u : unit, (u, strictSendPaths asset (sourceAmount request)))) (startedAt v) (answeredAt v) cb tt with
          | (cb, _, Err (CircuitBreaker.Breaker.CircuitBreakerOpenError _)) => (cb, r, Err "Payment service temporarily unavailable"%string)
          | (cb, _, Err (CircuitBreaker.Breaker.OperationError _)) => (cb, r, Err "Failed to fetch path payment quotes"%string)
          | (cb, _, Ok qs) =>
              (cb, setCachedQuote (upSet v) request qs (answeredAt v) r,
               Ok {| r_quotes := qs; cached := false; r_freshnessMs := 0; r_quotedAt := answeredAt v |})
          end
      end
  end.

(** [GET /wallet/path-payment-quote]: 400 without an amount and an asset, 500 for any error. *)
Definition quoteRoute (amount asset issuer : option string) (v : Visit) (cb : CircuitBreaker.Breaker.CircuitBreaker) (r : R) :
    CircuitBreaker.Breaker.CircuitBreaker * R * (Z + PathPaymentQuoteResult) :=
  match amount, asset with
  | Some (String _ _ as a), Some (String _ _ as c) =>
      let '(cb, r, q) := getPathPaymentQuote {| sourceAmount := a; sourceAssetCode := c; sourceAssetIssuer := issuer |} v cb r in
      (cb, r, match q with Ok q => inr q | Err _ => inl 500 end)
  | _, _ => (cb, r, inl 400)
  end.

(** What reaches the cache, in the order it does, whichever requests overlap. *)
Inductive event : Type := Fetched (request : QuoteRequest) (qs : list PathQuote) (up : bool) (at_ : Z) | Invalidated (request : QuoteRequest) (up : bool) (at_ : Z).
Definition eventTime (e : event) : Z := match e with Fetched _ _ _ t | Invalidated _ _ t => t end.
Definition cacheStep (r : R) (e : event) : R :=
  match e with Fetched req qs up t => setCachedQuote up req qs t r | Invalidated req up _ => invalidateQuoteCache up req r end.

(** ** What is served *)

(** The characters [new Asset] takes, and the amounts Horizon answers for, leave out the
    separator of the keys. *)
Definition plainRequest (request : QuoteRequest) : Prop :=
  lacks ":" (sourceAssetCode request) ∧ lacks ":" (issuerText request) ∧ lacks ":" (sourceAmount request).

Fixpoint colons (s : string) : nat := match s with EmptyString => O | String c s => ((if Ascii.eqb c ":" then 1 else 0) + colons s)%nat end.
Lemma colons_app s t : colons (s +:+ t) = (colons s + colons t)%nat.
Proof. induction s as [|c s IH]; [done|]. rewrite app_cons_str. cbn. rewrite IH. lia. Qed.
Lemma colons_none s : colons s = O ↔ lacks ":" s.
Proof. unfold lacks. induction s as [|c s IH]; [done|]. cbn. destruct (Ascii.eqb c ":"); [done|]. exact IH. Qed.

Lemma quoteKey_inj a b : plainRequest a → cacheKey a = cacheKey b →
  sourceAssetCode b = sourceAssetCode a ∧ issuerText b = issuerText a ∧ sourceAmount b = sourceAmount a.
Proof.
  intros (Hc & Hi & Ha) H. pose proof (f_equal colons H) as Hn. unfold cacheKey in *. rewrite !colons_app in Hn.
  pose proof (proj2 (colons_none _) Hc). pose proof (proj2 (colons_none _) Hi). pose proof (proj2 (colons_none _) Ha). change (colons ":") with 1%nat in Hn.
  assert (lacks ":" (sourceAssetCode b)) as Hcb by (apply colons_none; lia). assert (lacks ":" (issuerText b)) as Hib by (apply colons_none; lia).
  assert (∀ x y, CACHE_KEY_PREFIX +:+ x = CACHE_KEY_PREFIX +:+ y → x = y)%string as Hp by (intros x y E; cbn in E; by injection E).
  apply Hp in H. apply split_at_unique in H as [-> H]; [|done|done]. by apply split_at_unique in H as [-> ->].
Qed.

Section Laws.
Context `{!KvLaws CachedQuote R}.

(** Whatever the cache holds was put there by an answer of Horizon. *)
Lemma cache_fetched r0 es : (∀ k t, kvGet (V := CachedQuote) k t r0 = None) → ∀ k t c, Forall (λ e, eventTime e ≤ t) es → kvGet k t (foldl cacheStep r0 es) = Some c →
  ∃ req qs at_, Fetched req qs true at_ ∈ es ∧ cacheKey req = k ∧ c = {| cq_request := req; quotes := qs; quotedAt := at_; freshnessMs := 0 |}.
Proof.
  intros H0. induction es as [|e es IH] using rev_ind; intros k t c Ht Hg; [by rewrite H0 in Hg|].
  apply Forall_app in Ht as [Ht He]. apply Forall_cons in He as [He _]. rewrite foldl_app in Hg. cbn [foldl] in Hg.
  assert (kvGet k t (foldl cacheStep r0 es) = Some c → ∃ req qs at_, Fetched req qs true at_ ∈ es ++ [e] ∧ cacheKey req = k ∧
    c = {| cq_request := req; quotes := qs; quotedAt := at_; freshnessMs := 0 |}) as Hold by (intros H; destruct (IH k t c Ht H) as (x & y & z & ? & ? & ?); exists x, y, z; set_solver).
  destruct e as [req qs [] at_|req [] at_]; cbn in Hg, He; try by apply Hold.
  - destruct (decide (cacheKey req = k)) as [<-|Hne].
    + pose proof (kvGet_set_val _ _ _ _ _ _ _ He Hg) as ->. exists req, qs, at_. set_solver.
    + rewrite kvGet_set_ne in Hg by done. by apply Hold.
  - destruct (decide (cacheKey req = k)) as [<-|Hne]; [by rewrite kvGet_del in Hg|]. rewrite kvGet_del_ne in Hg by done. by apply Hold.
Qed.

(** Whatever overlaps, a quote that is served from the cache is what Horizon answered for the
    same asset, issuer and amount, at the time it gives, no longer ago than the lifetime of the
    cache; one that is not is Horizon's answer to this very request, and is kept for
    the next ones; a request that fails leaves the cache as it was. *)
Theorem quote_served r0 es request v cb : (∀ k t, kvGet (V := CachedQuote) k t r0 = None) → Forall (λ e, eventTime e ≤ startedAt v) es →
  (∀ req qs up t, Fetched req qs up t ∈ es → plainRequest req) → let r := foldl cacheStep r0 es in
  let '(cb', r', q) := getPathPaymentQuote request v cb r in
  match q with
  | Ok q =>
      if cached q then cb' = cb ∧ r' = r ∧ ∃ req, Fetched req (r_quotes q) true (r_quotedAt q) ∈ es ∧
          sourceAssetCode req = sourceAssetCode request ∧ issuerText req = issuerText request ∧ sourceAmount req = sourceAmount request ∧
          r_freshnessMs q = startedAt v - r_quotedAt q ∧ 0 ≤ r_freshnessMs q ≤ ttlSeconds * 1000
      else r' = cacheStep r (Fetched request (r_quotes q) (upSet v) (r_quotedAt q)) ∧ r_quotedAt q = answeredAt v ∧
          ∃ asset, sourceAsset request = Ok asset ∧ strictSendPaths asset (sourceAmount request) = Ok (r_quotes q)
  | Err m => r' = r ∧ (m = "Failed to fetch path payment quotes" ∨ m = "Payment service temporarily unavailable")%string
  end.
Proof.
  intros H0 Ht Hplain. cbv zeta. unfold getPathPaymentQuote. destruct (getCachedQuote _ _ _ _) as [c|] eqn:Hc.
  - split_and!; [done|done|]. unfold getCachedQuote in Hc. destruct (upGet v); [|done].
    destruct (kvGet _ _ _) as [c0|] eqn:Hg; [|done]. destruct (cache_fetched r0 es H0 _ _ _ Ht Hg) as (req & qs & at_ & Hin & Hk & ->). cbn [quotedAt quotes cq_request] in Hc.
    destruct (Z.ltb_spec (ttlSeconds * 1000) (startedAt v - at_)); [done|]. injection Hc as <-. cbn. exists req. split; [done|].
    destruct (quoteKey_inj req request (Hplain _ _ _ _ Hin) Hk) as (-> & -> & ->). split_and!; try done.
    rewrite Forall_forall in Ht. specialize (Ht _ Hin). cbn in Ht. lia.
  - destruct (sourceAsset request) as [asset|] eqn:Ha; [|by auto].
    unfold CircuitBreaker.Breaker.call, CircuitBreaker.Breaker.alone. destruct (CircuitBreaker.Breaker.state _); cbn [fst snd]; destruct (strictSendPaths asset (sourceAmount request)) as [qs|e] eqn:Hs; cbn; eauto 8.
Qed.

(** A quote just fetched is served to who asks within its lifetime. *)
Theorem quote_kept request qs t now r : t ≤ now < t + ttlSeconds * 1000 →
  getCachedQuote true request now (setCachedQuote true request qs t r) = Some {| cq_request := request; quotes := qs; quotedAt := t; freshnessMs := now - t |}.
Proof.
  intros Ht. unfold getCachedQuote, setCachedQuote. rewrite kvGet_set by done. cbn. destruct (Z.ltb_spec (ttlSeconds * 1000) (now - t)); [lia|done].
Qed.
End Laws.
End Cache.

(** On integer amounts the check accepts exactly a deviation below one basis point more than
    the allowed ones, relative to the fresh amount; it never accepts a quote without routes
    or against nothing. *)
Theorem slippage_spec c q rest d f m : quotes c = q :: rest → BigInt_string (destination_amount q) = Some d → 0 ≤ f → 0 ≤ m →
  isQuoteWithinSlippage c (toString f) m = Ok (bool_decide (0 < f ∧ Z.abs (d - f) * 10000 < (m + 1) * f)).
Proof.
  intros Hq Hd Hf Hm. unfold isQuoteWithinSlippage, bigInt. rewrite Hq, Hd, BigInt_toString by done. cbn. f_equal.
  destruct (Z.eqb_spec f 0) as [->|Hne]; [by rewrite bool_decide_eq_false_2 by lia|].
  assert ((if f <? d then d - f else f - d) = Z.abs (d - f)) as -> by (destruct (Z.ltb_spec f d); lia).
  rewrite Z.quot_div_nonneg by lia. apply eq_true_iff_eq. rewrite Z.leb_le, bool_decide_eq_true.
  pose proof (Z.div_mod (Z.abs (d - f) * 10000) f ltac:(lia)). pose proof (Z.mod_pos_bound (Z.abs (d - f) * 10000) f ltac:(lia)).
  split; [intros; split; [lia|nia]|intros [_ ?]; nia].
Qed.

(** ** Samples *)

Definition sampleQuote (amount : string) : PathQuote :=
  {| source_amount := "1000"; source_asset_type := "credit_alphanum4"; source_asset_code := "NGN"; destination_amount := amount;
     destination_asset_type := "credit_alphanum4"; destination_asset_code := "USDC"; path := [] |}.
Definition ngn : QuoteRequest := {| sourceAmount := "1000"; sourceAssetCode := "NGN"; sourceAssetIssuer := None |}.
Definition closed : CircuitBreaker.Breaker.CircuitBreaker :=
  CircuitBreaker.Breaker.newCircuitBreaker "horizon-path-payment" {| CircuitBreaker.Breaker.opt_failureThreshold := Some 5; CircuitBreaker.Breaker.opt_successThreshold := Some 2; CircuitBreaker.Breaker.opt_cooldownMs := Some 30000 |}.
Definition visit (t : Z) : Visit := {| upGet := true; upSet := true; startedAt := t; answeredAt := t |}.
Definition horizon (_ : Asset) (_ : string) : result unit (list PathQuote) := Ok [sampleQuote "650000"].
Definition emptyCache : gmap string (entry CachedQuote) := ∅.

Lemma quote_served_witness : ∃ q, getPathPaymentQuote 30 (λ _ _, true) horizon ngn (visit 20000) closed (cacheStep 30 emptyCache (Fetched ngn [sampleQuote "640000"] true 1000)) =
    (closed, cacheStep 30 emptyCache (Fetched ngn [sampleQuote "640000"] true 1000), Ok q) ∧ cached q = true ∧ r_freshnessMs q = 19000.
Proof.
  assert (Forall (λ e, eventTime e ≤ startedAt (visit 20000)) [Fetched ngn [sampleQuote "640000"] true 1000]) as Ht by (repeat constructor; cbn; lia).
  assert (∀ req qs up t, Fetched req qs up t ∈ [Fetched ngn [sampleQuote "640000"] true 1000] → plainRequest req) as Hp.
  { intros req qs up t Hin. apply elem_of_cons in Hin as [[= -> -> -> ->]|Hin]; [vm_compute; done|by apply elem_of_nil in Hin]. }
  pose proof (quote_served 30 (λ _ _, true) horizon emptyCache [Fetched ngn [sampleQuote "640000"] true 1000] ngn (visit 20000) closed (λ k t, eq_refl) Ht Hp) as H.
  cbv zeta in H. cbn [foldl] in H. destruct (getPathPaymentQuote _ _ _ _ _ _ _) as [[cb r] [q|m]] eqn:E; [|vm_compute in E; discriminate E].
  assert (cached q = true) as Hq by (vm_compute in E; injection E as _ _ <-; reflexivity). rewrite Hq in H.
  destruct H as (-> & -> & req & Hin & _ & _ & _ & Hf & _). exists q. split; [reflexivity|]. split; [exact Hq|]. rewrite Hf.
  apply elem_of_cons in Hin as [[= _ _ Hat]|Hin]; [rewrite Hat; reflexivity|by apply elem_of_nil in Hin].
Defined.

Definition cachedSample (amount : string) : CachedQuote := {| cq_request := ngn; quotes := [sampleQuote amount]; quotedAt := 0; freshnessMs := 0 |}.
Lemma slippage_spec_witness : isQuoteWithinSlippage (cachedSample "950") (toString 1000) 500 = Ok true.
Proof. rewrite (slippage_spec (cachedSample "950") (sampleQuote "950") [] 950 1000 500); [vm_compute; reflexivity|reflexivity|vm_compute; reflexivity|lia|lia]. Defined.

(** Five per cent and a little less than a basis point more is still accepted. *)
Example slippage_rounds_down : isQuoteWithinSlippage (cachedSample "9499") "10000" 500 = Ok false ∧ isQuoteWithinSlippage (cachedSample "94991") "100000" 500 = Ok true.
Proof. vm_compute. done. Qed.

(** Horizon writes amounts with decimals: the check would throw on every one of them. *)
Example decimal_quote_throws : isQuoteWithinSlippage (cachedSample "650.1234567") "650.1234567" 500 = Err "Cannot convert 650.1234567 to a BigInt"%string.
Proof. vm_compute. reflexivity. Qed.
