(* ===== verification/Treasury.v ===== *)
(** * The treasury: [services/treasury.service.ts], [controllers/treasury.controller.ts], [schemas/treasury.schemas.ts]

    What the treasury holds and the requests to withdraw from it. The audit table is the list of
    its entries, newest first; [StrKey]'s check of a key and Horizon are arguments, and so is
    whether the audit entry can be written. *)

From S2P Require Import Prelude JsString JsValue.
From S2P Require RequestInput Money Reconciliation Disputes.

Record Audit : Type := { action : string; actorAddress : string; targetReference : string; note : option string }.
Record Withdrawal : Type := { destination : string; amount : string; w_note : option string }.
Inductive Answer (A : Type) : Type := Respond (body : A) | Refused (status : Z).
Arguments Respond {A} body.
Arguments Refused {A} status.

Section Treasury.
Context (isValidEd25519PublicKey : string → bool) (loadAccount : Reconciliation.Horizon).
Context (AMANA_ESCROW_CONTRACT_ID symbol ADMIN_STELLAR_PUBKEYS : string) (MONEY_DECIMALS : nat).

(** ** Schema *)

Definition amountSchema (v : jsval) : option string :=
  match v with
  | VStr s => match Money.moneyStringRefine MONEY_DECIMALS s, Money.moneyTransform MONEY_DECIMALS s with [], Ok t => Some t | _, _ => None end
  | _ => None
  end.
Definition noteSchema (v : jsval) : option (option string) :=
  match v with VUndefined => Some None | VStr s => if (strlen s <=? 2000)%nat then Some (Some s) else None | _ => None end.
(** With the escaping of [validateRequest]. *)
Definition treasuryWithdrawSchema (body : jsval) : option Withdrawal :=
  match body with
  | VObj _ fs =>
      d ← match lookupField "destination" fs with VStr s => if isValidEd25519PublicKey s then Some s else None | _ => None end;
      a ← amountSchema (lookupField "amount" fs);
      n ← noteSchema (lookupField "note" fs);
      Some {| destination := RequestInput.sanitizeString d; amount := RequestInput.sanitizeString a; w_note := RequestInput.sanitizeString <$> n |}
  | _ => None
  end.

(** ** Service *)

Definition getBalance : result Reconciliation.reconcile_error string :=
  Reconciliation.getAccountBalance isValidEd25519PublicKey loadAccount AMANA_ESCROW_CONTRACT_ID symbol.

Inductive failure : Type := NotAdmin | AuditFailed.
Definition withdraw (destination_ amount_ callerAddress : string) (note_ : option string) (auditUp : bool) (audit : list Audit) : list Audit * result failure string :=
  if negb (Disputes.isMediatorAddress ADMIN_STELLAR_PUBKEYS callerAddress) then (audit, Err NotAdmin)
  else if negb auditUp then (audit, Err AuditFailed)
  else ({| action := "TREASURY_WITHDRAW"; actorAddress := callerAddress; targetReference := destination_; note := note_ |} :: audit, Ok ""%string).

(** ** Handlers *)

Definition balanceHandler : Answer string := match getBalance with Ok b => Respond b | Err _ => Refused 500 end.

Definition noteTooLong (n : option string) : bool := match n with Some n => (2000 <? strlen n)%nat | None => false end.

(** Behind the schema, and behind [authMiddleware] and [adminMiddleware]. *)
Definition withdrawHandler (walletAddress : option string) (body : jsval) (auditUp : bool) (audit : list Audit) : list Audit * Answer string :=
  match treasuryWithdrawSchema body with
  | None => (audit, Refused 400)
  | Some w =>
      match walletAddress with
      | None | Some ""%string => (audit, Refused 401)
      | Some caller =>
          if noteTooLong (w_note w) then (audit, Refused 400)
          else match withdraw (destination w) (amount w) caller (trim <$> w_note w) auditUp audit with
               | (audit, Ok xdr) => (audit, Respond xdr)
               | (audit, Err NotAdmin) => (audit, Refused 403)
               | (audit, Err AuditFailed) => (audit, Refused 500)
               end
      end
  end.

(** ** What a withdrawal comes to *)

(** A withdrawal is answered with a transaction exactly for a caller of the allowlist whose
    request names a valid key and a positive amount that fits the contract's integers and
    whose entry was written; the one entry added names the caller and the destination; and the
    transaction is always empty. *)
Theorem withdraw_spec walletAddress body auditUp audit : (1 ≤ MONEY_DECIMALS)%nat →
  let '(audit', a) := withdrawHandler walletAddress body auditUp audit in
  match a with
  | Respond xdr => xdr = ""%string ∧ auditUp = true ∧ ∃ caller m fs key text v n, walletAddress = Some caller ∧ body = VObj m fs ∧
      Disputes.isMediatorAddress ADMIN_STELLAR_PUBKEYS caller = true ∧
      lookupField "destination" fs = VStr key ∧ isValidEd25519PublicKey key = true ∧
      lookupField "amount" fs = VStr text ∧ Money.parseDecimalToStroops (Money.AString text) MONEY_DECIMALS = Ok v ∧ 0 < v ≤ Money.I128_MAX ∧
      audit' = {| action := "TREASURY_WITHDRAW"; actorAddress := caller; targetReference := RequestInput.sanitizeString key; note := n |} :: audit
  | Refused s => audit' = audit ∧ s ∈ [400; 401; 403; 500]
  end.
Proof.
  intros Hd. unfold withdrawHandler. destruct (treasuryWithdrawSchema body) as [w|] eqn:Hw; [|split; [done|set_solver]].
  destruct walletAddress as [[|c r]|]; [split; [done|set_solver]| |split; [done|set_solver]].
  set (caller := String c r). destruct (noteTooLong (w_note w)); [split; [done|set_solver]|].
  unfold withdraw. destruct (Disputes.isMediatorAddress _ _) eqn:Hm; cbn [negb]; [|split; [done|set_solver]].
  destruct auditUp; cbn [negb]; [|split; [done|set_solver]]. split_and!; [done|done|].
  destruct body as [| | | | | |m fs]; try done. unfold treasuryWithdrawSchema in Hw.
  apply bind_Some in Hw as (key & Hk & Hw). apply bind_Some in Hw as (a & Ha & Hw). apply bind_Some in Hw as (n & _ & [= <-]).
  destruct (lookupField "destination" fs) as [| | | | |s|] eqn:E1; try done. destruct (isValidEd25519PublicKey s) eqn:Hv; [|done]. injection Hk as <-.
  destruct (lookupField "amount" fs) as [| | | | |t|] eqn:E2; try done. cbn in Ha. destruct (Money.moneyStringRefine MONEY_DECIMALS t) eqn:E3; [|done].
  destruct (Money.moneyString_sound MONEY_DECIMALS t Hd E3) as (v & t' & Hp & [Hr1 Hr2] & _). exists caller, m, fs, s, t, v. eexists. by split_and!.
Qed.

(** The balance is asked of the contract as if it were an account: a contract's id is no key of
    one, and there is no balance. *)
Theorem balance_unavailable : isValidEd25519PublicKey AMANA_ESCROW_CONTRACT_ID = false → balanceHandler = Refused 500.
Proof. intros H. unfold balanceHandler, getBalance, Reconciliation.getAccountBalance. by rewrite H. Qed.
End Treasury.

(** ** Samples *)

Definition isKey (s : string) : bool := String.prefix "G" s.
Definition request : jsval := VObj None [("destination"%string, VStr "GB"); ("amount"%string, VStr "12.5"); ("note"%string, VStr " payroll ")].
Lemma withdraw_spec_witness : ∃ audit, withdrawHandler isKey "GA" 7 (Some "GA"%string) request true [] = (audit, Respond ""%string) ∧ length audit = 1%nat.
Proof.
  pose proof (withdraw_spec isKey "GA" 7 (Some "GA"%string) request true [] ltac:(lia)) as H.
  destruct (withdrawHandler isKey "GA" 7 (Some "GA"%string) request true []) as [audit [xdr|s]] eqn:E.
  - destruct H as (-> & _ & caller & m & fs & key & text & v & n & _ & _ & _ & _ & _ & _ & _ & _ & Ha). exists audit. split; [reflexivity|]. by rewrite Ha.
  - vm_compute in E. discriminate E.
Defined.

(** A note within its bound, too long once it is escaped. *)
Fixpoint times (n : nat) (s : string) : string := match n with O => "" | S n => s +:+ times n s end.
Example escaped_note_refused : (withdrawHandler isKey "GA" 7 (Some "GA"%string)
  (VObj None [("destination"%string, VStr "GB"); ("amount"%string, VStr "1"); ("note"%string, VStr (times 1000 "&a"))]) true []).2 = Refused 400.
Proof. vm_compute. reflexivity. Qed.
